(* ===== verification/_CoqProject ===== *)
-Q . S2P
Prelude.v
Text.v
TextProofs.v
Utf8.v
BTree.v
Asm.v
AsmText.v
Codec.v
CodecProofs.v
Ebpf.v
Bpf.v
Owned.v
Verdict.v
OwnedProofs.v
Filter.v
V2Ops.v
V2OpsProofs.v
Errors.v
V2.v
V2Proofs.v
V2Plans.v
V2Safety.v
V2Fake.v
V2Theorems.v
V2Exact.v
Ledger.v
V1Set.v
V1Proofs.v
V1Model.v
V1Theorems.v
Lexpath.v
LexpathProofs.v
Policy.v
PolicyProofs.v
ProcCgroup.v
Lifecycle.v
LifecycleProofs.v
DevFs.v
Rules.v
RulesProofs.v
ProcError.v
Reconcile.v
ReconcileProofs.v
RevokeProofs.v
Coordinator.v
CoordinatorProofs.v
CoordinatorTheorems.v
CoordinatorProgress.v
Listener.v
Settings.v
Resolve.v
Systemd.v
SystemdProofs.v
SelfId.v
LaunchSpec.v
LaunchSpecProofs.v
Launch.v
LaunchProofs.v
LaunchErrors.v
CallContext.v
Yaml.v
YamlDecode.v
YamlProofs.v
Cli.v
Numbers.v
Metrics.v
Server.v
Run.v
Enforce.v
Enforcement.v
BpfSys.v
Docker.v
Engine.v
Processor.v
Daemon.v
DaemonShutdown.v
CgroupHost.v
Service.v
ServiceProofs.v
ServiceStop.v
