(* ===== verification/Prelude.v ===== *)
(** * swarm-device-access: verification of the device-access daemon

    The daemon gives the containers of a Docker swarm the devices their labels
    ask for, within a global policy. It follows Docker's events, reconciles each
    running container, and changes one thing on the host: the device access of
    the container's cgroup, which on cgroup v1 is the list of exceptions of the
    [devices] controller and on cgroup v2 the BPF device filter attached to the
    cgroup. This development models the daemon from the event loop down to the
    instructions of the filters, as executable functions, and proves what each
    part promises to the one above it.

    ** The parts of the program and the files that model them

    From the bottom up (paths below src/):

    - Instructions (cgroup/asm.rs): [Asm] is the opcode and instruction type
      with its accessors, [AsmText] their texts, [Codec] the encoding to and the
      decoding from the kernel's 8-byte slots, in host byte order.
    - The filter builder (cgroup/ebpf.rs): [Ebpf], rule by rule, with the layout
      that resolves the jumps between blocks.
    - The interpreter of the tests (cgroup/bpfinterp.rs): [Bpf], the meaning of
      a filter: a program, a request and a verdict.
    - The wrapper (cgroup/owned.rs): [Owned], which emits a program made of a
      header, the rule blocks and the runtime's own program, recognises such a
      program by regenerating it, and gates the programs it may wrap.
    - The kernel operations (cgroup/v2ops.rs): [V2Ops], the interface of the
      controller to the kernel and its implementation over [bpf(2)].
    - The cgroup v2 controller (cgroup/v2.rs, v2plan.rs): [V2]. A pass reads the
      attached programs, classifies and groups them, plans every change, loads
      all new programs and only then replaces or attaches and detaches.
      [V2Fake] is the recording kernel of the tests (v2fake.rs).
    - The cgroup v1 controller (cgroup/v1set.rs, ledger.rs): [V1Set] and
      [Ledger], over the ordered sets of [BTree]. [V1Model] is the kernel model
      of the tests. The errors of both controllers (cgroup/error.rs): [Errors].
    - Where a process's cgroup is (cgroup/api.rs, v1.rs, the scans of v2.rs,
      handle.rs): [ProcCgroup].
    - The bindings of [bpf(2)] (cgroup/bpf_sys.rs) and the memory limit
      (cgroup/rlimit.rs): [BpfSys], the attributes as the bytes the kernel reads.
    - Text and paths (text.rs, lexpath.rs): [Text], [Lexpath]; the standard
      library's UTF-8 decoding [Utf8] and number parsing [Numbers].
    - The policy (policy/mod.rs, policy/glob.rs): [Policy], the globs of the
      configuration and of a container's labels.
    - The devices of a container (processor/devfs.rs, rules.rs): [DevFs] resolves
      names beneath /dev, [Rules] judges every name and aggregates the verdicts
      per device.
    - The history of container runs (processor/lifecycle.rs): [Lifecycle].
    - The processor (processor/reconcile.rs, error.rs, pin.rs): [Reconcile] is
      the transactions under the processor's lock (reconcile, terminate, sweep,
      publish), [ProcError] its errors and the pinning of a process, [Processor]
      the async operations around the transactions, interleaved. [CgroupHost]
      runs the two controllers behind it (the rest of cgroup/v1.rs and v2.rs).
    - The coordinator (daemon/coordinator.rs): [Coordinator], the state behind
      its lock with every operation on it, and the tasks that call them (the
      loop of [run], holds, event handlers) as a transition system.
    - The event loop (daemon/events.rs): [Listener]. The daemon's tasks together
      (daemon/mod.rs): [Daemon]. [Service] joins them with the processor: every
      await of the one with the call of the other.
    - The configuration (config/yaml.rs, resolve.rs, mod.rs, cli/settings.rs):
      [Yaml] builds the tree of the file from the parser's events and checks its
      shapes, [YamlDecode] is the strict decode and [load_file], [Resolve]
      decides what a scalar is, [Settings] merges, validates and reloads.
    - systemd (systemd.rs): [Systemd], the watcher of reloads and its supervisor.
    - Docker (docker/context.rs, api.rs, types.rs, error.rs): [CallContext] is the
      contexts of calls, [Docker] the client.
    - The launcher (launcher/): [SelfId] finds the launcher's own container,
      [LaunchSpec] writes the daemon's specification, [Launch] is the run with
      the removal of stale daemons, [Engine] the calls it makes of Docker and the
      copy of the daemon's output.
    - The process (cli.rs, run.rs, main.rs, server.rs, metrics/recorder.rs):
      [Cli], [Run], [Server], [Metrics].
    - The enforcement tests (testenv/src/enforce.rs): [Enforce] is the dump format
      and the judges, [Enforcement] reads the programs of a cgroup.

    [Run] parses the command line with [Cli], loads the file with [YamlDecode],
    merges both in [Settings] and starts [Daemon], or [Launch], which has Docker
    start a daemon with the same image. [Daemon] subscribes to Docker's events,
    starts the coordinator and the watcher of [Systemd], and becomes [Listener].
    A container event goes from [Listener] to [Coordinator.handle_event], which
    reserves the container and runs a hold; the hold's reconcile is a call of
    [Processor], which inspects the container with [Docker] and runs
    [Reconcile.reconcile_locked] under its lock. That computes the rules with
    [Rules] under [Policy], checks the pinned process, records the run in
    [Lifecycle] and sets the rules through the controller of the cgroup's
    version ([CgroupHost]), on cgroup v2 by [V2Ops] over [BpfSys]. A reload of
    the configuration ([Settings.reload]) publishes a new runtime to the
    processor, which asks the coordinator for a pass; so does a reload of
    systemd, after which device filters may have been wiped.

    ** How the code is modelled

    A fallible function returns [result E A]. Integers are [Z], with the wrap
    of each width written out ([wrapu], [wraps], [is_u], [is_i]). Strings are
    sequences of bytes, and texts are taken as valid UTF-8. Stateful code is a
    state and error monad: [V2.M] over the kernel, the probe, the cache and the
    nonces drawn, [V1Set.VM] over the files and the ledger, [Reconcile.PM] over
    the processor's state with the answers of the outside drawn one at a time.
    They carry ghost traces of the kernel states, file states or calls gone
    through, which is what the statements about every intermediate state speak
    of; [Launch.LM] and [Engine.EM] keep the calls and requests made in the same
    way. Concurrent code is a step function on labels, with at most one critical
    section of a lock, or one access to shared state, a step: the coordinator
    (the fields of [Config] after [requesters] are history), the processor's
    calls, the daemon's tasks, their product [Service], the systemd watcher, the negotiation of the Docker
    client. The theorems about them hold for every sequence of labels. A Rust
    panic is a value: [Panicked] in the controller and the YAML reader, [None]
    in the interpreter.

    Loops that are not structural have fuel, which theorems show to be enough:
    decoding takes the number of bytes ([decode_terminates]), stripping nested
    wrappers the program's length ([parse_owned_innermost_base]), the line
    iterator the length of its data ([lines_roundtrip]), cleaning a path its
    length ([clean_reference]), translating a glob its characters
    ([translate_grammar]), walking a mount the depth of the tree
    ([mount_walk_accounts]), the nested calls of the decode [DECODE_DEPTH]
    ([read_trees_decode]), the reader of JSON its input
    ([create_request_is_document]). A context's parents are walked down a store
    in which a parent comes first. [BpfSys] bounds by [turns] how often a load is
    made again after EAGAIN, which the source does without end, and [Launch]
    polls as often as the outside says a tick comes before the budget ends. The
    interpreter has the turns of the source's own
    bound; the retries of a query and of a load, the hops of a link (40) and the
    entries of a mount (4096) are the source's own constants. The theorems on
    the coordinator assume fewer than 2^64 requests, after which its epochs
    repeat; the generation of the published config, also a [u64], is unbounded
    in the model, as no process publishes so often. The theorems on filters ask
    for major and minor numbers below 2^31, as Linux has them, and some for at
    most 2^28 rules, more than fit a program; what a larger number does is [Filter.large_number_never_applies].

    What is not under src/ is a parameter: SHA-256 (a function to 32 bytes), the
    random source (a sequence of draws), the texts of errnos, the [bpf(2)] calls,
    the [devices.*] files, the system calls on /proc, /dev and cgroup
    directories, the glob crate ([GlobCrate]), the times of the jiff crate
    ([Jiff], [JiffNano]), the argument parser clap ([Clap]), the events of the YAML
    parser, the messages of the bus, the Docker client library ([Library],
    [EngineLibrary]), sockets, the console's writers ([Writer]). What the
    controllers rely on is stated by the classes [KernelLaws] (attachments, loads and reads of BPF
    programs) and [V1Laws] (the device whitelist), and the two test kernels are
    instances. The processor sees the controllers through the class
    [Controllers], the coordinator sees the processor through [Reconciler].

    ** What the theorems show

    - [Filter]: a wrapper answers as the last rule that covers a request and
      otherwise as the runtime's program; it is recognised as what it was made
      of, and nothing else is; a gated program is kept byte for byte. The proofs
      are in [CodecProofs], [Verdict] and [OwnedProofs].
    - [V2Theorems]: at no moment of a pass is an original that was enforced
      before without an attached program that enforces it; a successful pass
      leaves wrappers of exactly the rules, or no wrapper when there are none;
      a failed pass says whether it changed anything. The proofs use the weakest
      preconditions of [V2Proofs], the plans of [V2Plans] and [V2Safety].
      [V2Exact]: what a pass leaves, exactly: one program per lineage, so that a
      grant and its revocation bring back the runtime's own programs, and a
      wipe of everything attached is undone by the next pass, both where no
      rebuild that stopped halfway is pending.
    - [V1Theorems]: the runtime's exceptions stay effective throughout; a
      successful call leaves exactly them and the desired bits; the ledger
      matches the files after any outcome; a failed revocation adds nothing.
      The proofs are in [V1Proofs], on the text lemmas of [TextProofs].
    - [V2OpsProofs]: queries count every program, the verifier's log stays in
      bounds, versions compare as numbers, lines round trip.
    - [LexpathProofs], [PolicyProofs]: cleaning a path is the usual stack of
      elements; the accepted globs are a grammar and stay under /dev; exactly
      which paths are allowed, so that labels only narrow the global policy and
      deny wins.
    - [RulesProofs]: a device is granted exactly when one of its names is
      authorized and none is denied; the walk of a mount accounts for every
      name; a canonical name is under /dev. [ProcCgroup]: the parser reads back
      what the kernel prints.
    - [LifecycleProofs]: the shape of the history is kept, a record that names a
      cgroup survives until it is released, an event ends the right run.
    - [ReconcileProofs], [RevokeProofs]: a cgroup is granted devices only right
      after the checks of the same transaction, with the rules of the policy in
      force; a dry run sets nothing; a cgroup that may hold grants is always
      named by a record; an error of a controller that a reconcile meets was the
      answer of a call it made.
    - [CgroupHost.reconcile_enforces] composes policy, processor, controllers
      and filters: a reconcile of a running container that reports success has
      left the cgroup of the run enforcing exactly the rules the policy desires,
      unless a controller gave one of two errors the code gives up on.
    - [Processor]: what is done under the processor's lock is one step of the
      model, for which the lock answers; however the calls interleave around it
      and callers are dropped, after a publication nothing is granted by an older
      configuration, and the history answers for what was granted.
    - [CoordinatorTheorems], [CoordinatorProgress] (invariants in
      [CoordinatorProofs]): one hold per container; a request is announced only
      when every container its pass listed settled under it; the loop does not
      sleep past work that is left; completion stays reachable until the daemon
      is cancelled. [Listener]: no event is replayed, readiness follows the
      stream until the listener ends, the backoff is bounded.
    - [Daemon], [DaemonShutdown]: the daemon's tasks refine the coordinator and
      the listener on their own; it returns only when all it started has ended,
      and once cancelled it can always come to that end.
    - [ServiceProofs], [ServiceStop]: the daemon and its processor together. A
      request that is announced has reached every container of its list under a
      config at least as new as the one requested; no call is held up; and once
      the daemon has returned no container is touched.
    - [Resolve]: a resolved scalar has the tag of its value; base64 round trips.
      [YamlProofs]: the trees of the reader are well formed, so that the decode
      ends; a file that loads is a mapping of known keys with their shapes, and
      sets exactly their fields. [Settings]: reloads never touch restart-only
      settings and never put a live daemon back into dry-run; what is published
      is what is in force. [Run]: the daemon runs only under checked settings.
    - [SystemdProofs]: every reload of systemd is answered by a whole run of the
      callback after it, runs never overlap, and nobody else on the bus causes
      one. [CallContext]: when a context is done, and why. [Docker]: calls that
      negotiate the version at once agree on client and configuration.
    - [LaunchProofs], [LaunchSpecProofs], [Engine]: the launcher removes only
      containers it may, leaves no daemon behind that is neither stopped nor
      removed, sends what a strict JSON reader reads as the document of its
      specification, each call at most one request, and copies the daemon's output unchanged. [LaunchErrors]: each
      error of a launch is borne out by what happened in it.
    - [BpfSys]: the kernel reads exactly the attribute of the call; the
      limit is put back or lifted. [Metrics]: a series shows the sum or the last
      of what was recorded for it. [Enforce]: the judge of the tests accepts a
      dump exactly when it is a correct grant. [Enforcement]: the judges accept
      the dumps of what the cgroup v2 controller leaves, and of a dump that could
      not open every program they say only that.

    ** What is not modelled

    - Libraries that are not part of the repository: the HTTP of the Docker
      client, clap, the YAML scanner, zbus, tokio, the registry and the HTTP
      server of the metrics. They are the parameters above.
    - Closing of file handles, and the locks of the ledger, the cache and the
      history, each operation of which is atomic; a runtime that stops before
      its tasks have ended; the capacity of channels.
    - Log lines (other than those of the systemd supervisor), and the calls that
      record metrics from the processor and the coordinator: [Metrics] is the
      recorder, and the coordinator's two gauges are in its state. The logger
      (logging.rs) and the waits on signals around [Run].
    - The test doubles of the launcher, the coordinator and Docker
      (launcher/fake.rs apart from its buffers, daemon/coordinator/testing.rs,
      test_support/), the parts of testenv that run Docker or need root, and the
      glue of task.rs and version.rs.

    What could follow: the metrics a reconcile records, a characterisation of all
    the files that load (the converse of [load_file_strict]), and the fake engine
    of the launcher's tests as an instance of [Launch.Outside]. *)

From stdpp Require Export base list strings pretty numbers gmap.
From Stdlib Require Export ZArith Lia.

(** ** Notations and scopes *)

Declare Scope sda_scope.
Delimit Scope sda_scope with sda.

Notation "a .& b" := (Z.land a b) (at level 40, left associativity) : sda_scope.
Notation "a .| b" := (Z.lor a b) (at level 50, left associativity) : sda_scope.

#[global] Open Scope Z_scope.
#[global] Open Scope list_scope.
#[global] Open Scope sda_scope.

(** ** Results: Rust's [Result<A, E>] *)

Inductive result (E A : Type) : Type :=
  | Ok (a : A)
  | Err (e : E).
Arguments Ok {E A} _.
Arguments Err {E A} _.

#[global] Instance result_ret {E} : MRet (result E) := fun A a => Ok a.
#[global] Instance result_bind {E} : MBind (result E) :=
  fun A B k m => match m with Ok a => k a | Err e => Err e end.
#[global] Instance result_fmap {E} : FMap (result E) :=
  fun A B f m => match m with Ok a => Ok (f a) | Err e => Err e end.

#[global] Instance result_eq_dec {E A} `{EqDecision E, EqDecision A} :
  EqDecision (result E A).
Proof. solve_decision. Defined.

(** [Result::map_err]. *)
Definition map_err {E F A} (f : E -> F) (m : result E A) : result F A :=
  match m with Ok a => Ok a | Err e => Err (f e) end.

(** [Option::ok_or]. *)
Definition ok_or {E A} (o : option A) (e : E) : result E A :=
  match o with Some a => Ok a | None => Err e end.

Definition is_ok {E A} (m : result E A) : bool :=
  match m with Ok _ => true | Err _ => false end.

(** The loop [for (index, x) in l.enumerate()] of a fallible body, collecting
    what each iteration gives and stopping at the first error. *)
Fixpoint mapM_index {E A B} (f : nat -> A -> result E B) (i : nat) (l : list A)
    : result E (list B) :=
  match l with
  | [] => Ok []
  | x :: l => y ← f i x; ys ← mapM_index f (S i) l; Ok (y :: ys)
  end.

(** A loop whose success does not depend on the index is a pointwise map. *)
Lemma mapM_index_Ok {E F A B} (g : nat -> F -> E) (h : A -> result F B) k l ys :
  mapM_index (fun index x => map_err (g index) (h x)) k l = Ok ys
  <-> Forall2 (fun x y => h x = Ok y) l ys.
Proof.
  revert k ys. induction l as [|x l IH]; intros k ys; simpl.
  - split; [intros [= <-]; constructor|intros HF; by inversion HF].
  - specialize (IH (S k)). split.
    + intros HM. destruct (h x) as [y|] eqn:Ex; simpl in HM; [|done].
      destruct (mapM_index _ _ l) as [ys'|]; simpl in HM; [|done].
      injection HM as <-. constructor; [done|]. by apply IH.
    + intros HF. inversion HF as [|? y ? ys' Hx Hl]; subst. rewrite Hx. simpl.
      apply IH in Hl. by rewrite Hl.
Qed.

Lemma bind_Ok {E A B} (m : result E A) (k : A -> result E B) b :
  (m ≫= k) = Ok b <-> exists a, m = Ok a /\ k a = Ok b.
Proof. destruct m; simpl; naive_solver. Qed.

Lemma map_err_Ok {E F A} (f : E -> F) (m : result E A) a :
  map_err f m = Ok a <-> m = Ok a.
Proof. destruct m; simpl; naive_solver. Qed.

Lemma map_err_Err {E F A} (f : E -> F) (m : result E A) e' :
  map_err f m = Err e' <-> exists e, m = Err e /\ f e = e'.
Proof. destruct m; simpl; naive_solver. Qed.

Lemma ok_or_Ok {E A} (o : option A) (e : E) a : ok_or o e = Ok a <-> o = Some a.
Proof. destruct o; simpl; naive_solver. Qed.

(** Splits every successful chain of fallible calls in the context. *)
Ltac inv_ok :=
  repeat match goal with
  | H : (_ ≫= _) = Ok _ |- _ =>
      let x := fresh "x" in let E := fresh "E" in
      apply bind_Ok in H; destruct H as (x & E & H)
  | H : (let _ := _ in _) = Ok _ |- _ => cbv zeta in H
  | H : map_err _ _ = Ok _ |- _ => apply map_err_Ok in H
  | H : ok_or _ _ = Ok _ |- _ => apply ok_or_Ok in H
  | H : Ok _ = Ok _ |- _ => injection H as H; try subst
  | H : Err _ = Ok _ |- _ => discriminate H
  | H : Ok _ = Err _ |- _ => discriminate H
  end.

(** Case analysis on the scrutinee of a conditional or match in [H]. *)
Ltac split_match H :=
  match type of H with
  | context [match ?x with _ => _ end] =>
      let E := fresh "Hm" in destruct x eqn:E; try discriminate H
  end.

(** ** Lists *)

(** [slice::get] with an integer index. *)
Definition get_z {A} (l : list A) (i : Z) : option A :=
  if (0 <=? i) && (i <? Z.of_nat (length l)) then l !! Z.to_nat i else None.

Lemma get_z_Some {A} (l : list A) i x :
  get_z l i = Some x <-> 0 <= i /\ l !! Z.to_nat i = Some x.
Proof.
  unfold get_z. destruct (Z.leb_spec 0 i), (Z.ltb_spec i (Z.of_nat (length l))); simpl.
  - naive_solver.
  - split; [done|]. intros [_ Hx]. apply lookup_lt_Some in Hx. lia.
  - split; [done|lia].
  - split; [done|lia].
Qed.

Lemma get_z_app_r {A} (l1 l2 : list A) i :
  0 <= i -> get_z (l1 ++ l2) (Z.of_nat (length l1) + i) = get_z l2 i.
Proof.
  intros Hi. unfold get_z. rewrite length_app, Z2Nat.inj_add, Nat2Z.id by lia.
  rewrite lookup_app_r by lia.
  replace (length l1 + Z.to_nat i - length l1)%nat with (Z.to_nat i) by lia.
  destruct (Z.leb_spec 0 (Z.of_nat (length l1) + i)), (Z.leb_spec 0 i); try lia.
  destruct (Z.ltb_spec (Z.of_nat (length l1) + i) (Z.of_nat (length l1 + length l2))),
    (Z.ltb_spec i (Z.of_nat (length l2))); (done || lia).
Qed.

(** ** Machine integers

    A [w]-bit unsigned value is a [Z] in [0, 2^w); a signed one is in
    [-2^(w-1), 2^(w-1)). *)

Definition wrapu (w z : Z) : Z := z mod 2 ^ w.
Definition wraps (w z : Z) : Z := (z + 2 ^ (w - 1)) mod 2 ^ w - 2 ^ (w - 1).

Definition is_u (w z : Z) : Prop := 0 <= z < 2 ^ w.
Definition is_i (w z : Z) : Prop := - 2 ^ (w - 1) <= z < 2 ^ (w - 1).

#[global] Instance is_u_dec w z : Decision (is_u w z).
Proof. unfold is_u. apply _. Defined.
#[global] Instance is_i_dec w z : Decision (is_i w z).
Proof. unfold is_i. apply _. Defined.

Abbreviation u8 := (is_u 8).
Abbreviation bytes_ok := (Forall (is_u 8)).

(** [Duration::MAX], in nanoseconds. *)
Definition DURATION_MAX : Z := 2 ^ 64 * 1000000000 - 1.

(** Masks on bits that do not meet. *)
Lemma land_shiftl_low a b n : 0 <= b < 2 ^ n -> (a ≪ n) .& b = 0.
Proof.
  intros Hb. assert (0 <= n) by (destruct (Z.le_gt_cases 0 n); [done|];
    rewrite Z.pow_neg_r in Hb; lia).
  apply Z.bits_inj_0. intros k. rewrite Z.land_spec.
  destruct (Z.lt_ge_cases k 0); [by rewrite Z.testbit_neg_r by lia|].
  destruct (Z.lt_ge_cases k n) as [Hk|Hk].
  - by rewrite Z.shiftl_spec_low.
  - rewrite <- (Z.mod_small b (2 ^ n)), Z.mod_pow2_bits_high by lia.
    by rewrite andb_false_r.
Qed.

Lemma lor_shiftl_add a b n : 0 <= b < 2 ^ n -> (a ≪ n) .| b = a * 2 ^ n + b.
Proof.
  intros Hb. pose proof (land_shiftl_low a b n Hb) as Hz.
  rewrite <- (Z.lxor_lor _ _ Hz), <- (Z.add_nocarry_lxor _ _ Hz).
  rewrite Z.shiftl_mul_pow2; [done|].
  destruct (Z.le_gt_cases 0 n); [done|]. rewrite Z.pow_neg_r in Hb; lia.
Qed.

(** [uN::to_le_bytes] and [uN::from_le_bytes], for [n] bytes. *)
Fixpoint to_le_bytes (n : nat) (z : Z) : list Z :=
  match n with
  | O => []
  | S n => z mod 256 :: to_le_bytes n (z / 256)
  end.

Fixpoint from_le_bytes (bs : list Z) : Z :=
  match bs with
  | [] => 0
  | b :: bs => b + 256 * from_le_bytes bs
  end.

(** The byte order of the host: [cfg!(target_endian = "little")]. The kernel's
    instruction slots are in host order, so every theorem about them holds for
    both. *)
Class HostEndian := target_little : bool.

(** [uN::to_ne_bytes] and [uN::from_ne_bytes]. *)
Definition to_ne_bytes `{HostEndian} (n : nat) (z : Z) : list Z :=
  if target_little then to_le_bytes n z else rev (to_le_bytes n z).

Definition from_ne_bytes `{HostEndian} (bs : list Z) : Z :=
  if target_little then from_le_bytes bs else from_le_bytes (rev bs).

(** *** Lemmas on machine integers and byte strings *)

Create HintDb sda.

Lemma wrapu_range w z : 0 <= w -> is_u w (wrapu w z).
Proof. intros Hw. unfold is_u, wrapu. apply Z.mod_pos_bound. lia. Qed.

Lemma wrapu_id w z : is_u w z -> wrapu w z = z.
Proof. unfold is_u, wrapu. intros. apply Z.mod_small. lia. Qed.

Lemma pow2_half w : 0 < w -> 2 ^ w = 2 * 2 ^ (w - 1).
Proof. intros. rewrite <- Z.pow_succ_r by lia. f_equal; lia. Qed.

Lemma wraps_range w z : 0 < w -> is_i w (wraps w z).
Proof.
  intros Hw. unfold is_i, wraps.
  pose proof (Z.mod_pos_bound (z + 2 ^ (w - 1)) (2 ^ w)) as Hb.
  pose proof (pow2_half w Hw). lia.
Qed.

Lemma wraps_id w z : 0 < w -> is_i w z -> wraps w z = z.
Proof.
  unfold is_i, wraps. intros Hw Hz. pose proof (pow2_half w Hw).
  rewrite Z.mod_small; lia.
Qed.

Lemma wraps_nonneg w z :
  0 < w -> is_u w z -> 0 <= wraps w z -> wraps w z = z /\ z < 2 ^ (w - 1).
Proof.
  unfold is_u, wraps. intros Hw Hz Hpos. pose proof (pow2_half w Hw).
  destruct (Z.lt_ge_cases z (2 ^ (w - 1))); [rewrite Z.mod_small in *; lia|].
  exfalso. rewrite <- (Z.mod_unique_pos _ _ 1 (z + 2 ^ (w - 1) - 2 ^ w)) in Hpos; lia.
Qed.

Lemma wraps_wrapu w z : 0 <= w -> wraps w (wrapu w z) = wraps w z.
Proof. intros. unfold wraps, wrapu. by rewrite Zplus_mod_idemp_l. Qed.

Lemma wrapu_wraps w z : 0 <= w -> wrapu w (wraps w z) = wrapu w z.
Proof.
  intros. unfold wraps, wrapu. rewrite Zminus_mod_idemp_l. f_equal. lia.
Qed.

Lemma wrapu_wrapu w z : 0 <= w -> wrapu w (wrapu w z) = wrapu w z.
Proof. intros. unfold wrapu. rewrite Z.mod_mod; lia. Qed.

Lemma length_to_le_bytes n z : length (to_le_bytes n z) = n.
Proof. revert z. induction n; intros; simpl; auto. Qed.

Lemma to_le_bytes_ok n z : bytes_ok (to_le_bytes n z).
Proof.
  revert z. induction n; intros; simpl; constructor; auto.
  apply (wrapu_range 8). lia.
Qed.

Lemma from_le_bytes_bound bs :
  bytes_ok bs -> is_u (8 * Z.of_nat (length bs)) (from_le_bytes bs).
Proof.
  induction 1 as [|b bs Hb _ IH]; [by unfold is_u|]. unfold is_u in *. simpl length.
  replace (8 * Z.of_nat (S (length bs))) with (8 + 8 * Z.of_nat (length bs)) by lia.
  rewrite Z.pow_add_r by lia. change (2 ^ 8) with 256 in *. simpl. lia.
Qed.

Lemma to_from_le_bytes bs :
  bytes_ok bs -> to_le_bytes (length bs) (from_le_bytes bs) = bs.
Proof.
  induction 1 as [|b bs Hb _ IH]; [done|]. simpl. unfold is_u in Hb.
  change (2 ^ 8) with 256 in Hb.
  rewrite (Z.mul_comm 256), Z.mod_add, Z.mod_small by lia.
  rewrite Z.div_add, Z.div_small, Z.add_0_l by lia. by rewrite IH.
Qed.

Lemma from_to_le_bytes n z :
  from_le_bytes (to_le_bytes n z) = wrapu (8 * Z.of_nat n) z.
Proof.
  revert z. induction n as [|n IH]; intros z; [simpl; unfold wrapu; by rewrite Z.mod_1_r|].
  simpl to_le_bytes. simpl from_le_bytes. rewrite IH. unfold wrapu.
  replace (8 * Z.of_nat (S n)) with (8 + 8 * Z.of_nat n) by lia.
  rewrite Z.pow_add_r by lia. change (2 ^ 8) with 256.
  rewrite Z.rem_mul_r by lia. lia.
Qed.

Section ByteOrder.
Context `{HostEndian}.

Lemma length_to_ne_bytes n z : length (to_ne_bytes n z) = n.
Proof.
  unfold to_ne_bytes. case_match; rewrite ?length_rev; apply length_to_le_bytes.
Qed.

Lemma to_ne_bytes_ok n z : bytes_ok (to_ne_bytes n z).
Proof.
  unfold to_ne_bytes. case_match; [|apply Forall_rev]; apply to_le_bytes_ok.
Qed.

Lemma from_to_ne_bytes n z :
  from_ne_bytes (to_ne_bytes n z) = wrapu (8 * Z.of_nat n) z.
Proof.
  unfold from_ne_bytes, to_ne_bytes. case_match; rewrite ?rev_involutive;
    apply from_to_le_bytes.
Qed.

Lemma to_from_ne_bytes bs :
  bytes_ok bs -> to_ne_bytes (length bs) (from_ne_bytes bs) = bs.
Proof.
  intros Hb. unfold from_ne_bytes, to_ne_bytes. case_match.
  - by apply to_from_le_bytes.
  - rewrite <- (length_rev bs), to_from_le_bytes, rev_involutive; [done|].
    by apply Forall_rev.
Qed.

Lemma from_ne_bytes_bound bs :
  bytes_ok bs -> is_u (8 * Z.of_nat (length bs)) (from_ne_bytes bs).
Proof.
  intros Hb. unfold from_ne_bytes. case_match; [by apply from_le_bytes_bound|].
  rewrite <- (length_rev bs). apply from_le_bytes_bound. by apply Forall_rev.
Qed.

End ByteOrder.

#[export] Hint Resolve wrapu_range wraps_range to_ne_bytes_ok to_le_bytes_ok : sda.
