(* ===== verification/Text.v ===== *)
(** * Text helpers (src/text.rs)

    Strings are sequences of bytes. [quote] is Rust's [{:?}] of a string, exact
    for ASCII text: bytes of multi-byte characters are kept as they are. [lines]
    is the bounded line iterator that every [/proc] and cgroup parser reads
    through. *)

From S2P Require Import Prelude.

Local Open Scope Z_scope.

(** The character of a code, and back. *)
Definition chr (n : nat) : Ascii.ascii := Strings.Ascii.ascii_of_nat n.
Definition ord (c : Ascii.ascii) : nat := Strings.Ascii.nat_of_ascii c.

Definition newline : Ascii.ascii := chr 10.
Definition return_char : Ascii.ascii := chr 13.

Definition of_char (c : Ascii.ascii) : string := String c EmptyString.

(** ** Quoting *)

Definition hex_digit (n : nat) : Ascii.ascii := if (n <? 10)%nat then chr (48 + n) else chr (87 + n).

(** [char::escape_debug] of an ASCII character inside a string. *)
Definition escape_debug (c : Ascii.ascii) : string :=
  let n := ord c in
  if (n =? 0)%nat then "\0"
  else if (n =? 9)%nat then "\t"
  else if (n =? 10)%nat then "\n"
  else if (n =? 13)%nat then "\r"
  else if (n =? 34)%nat then String (chr 92) (of_char (chr 34))
  else if (n =? 92)%nat then "\\"
  else if (n <? 16)%nat then "\u{" +:+ of_char (hex_digit n) +:+ "}"
  else if (n <? 32)%nat || (n =? 127)%nat then
    "\u{" +:+ of_char (hex_digit (n / 16)) +:+ of_char (hex_digit (n mod 16)) +:+ "}"
  else of_char c.

Fixpoint escape_all (s : string) : string :=
  match s with
  | EmptyString => EmptyString
  | String c s => escape_debug c +:+ escape_all s
  end.

Definition quote (text : string) : string :=
  of_char (chr 34) +:+ escape_all text +:+ of_char (chr 34).

(** ** Characters *)

(** The continuation bytes at the front of [s]. *)
Fixpoint continuation_bytes (s : string) : string :=
  match s with
  | String c s => if (128 <=? ord c)%nat && (ord c <? 192)%nat then String c (continuation_bytes s) else EmptyString
  | EmptyString => EmptyString
  end.

(** The first [char] of a [str], as its bytes. *)
Definition first_char (s : string) : string :=
  match s with String c s => String c (continuation_bytes s) | EmptyString => EmptyString end.

(** [u32::from] of a [char] given by its bytes. *)
Definition char_code (c : string) : Z :=
  match (fun b => Z.of_nat (ord b)) <$> Strings.String.list_ascii_of_string c with
  | [a] => a
  | [a; b] => a mod 32 * 64 + b mod 64
  | [a; b; c] => (a mod 16 * 64 + b mod 64) * 64 + c mod 64
  | [a; b; c; d] => ((a mod 8 * 64 + b mod 64) * 64 + c mod 64) * 64 + d mod 64
  | _ => 0
  end.

(** ** The operations of [str] the sources use *)

(** [str::starts_with] and [str::strip_prefix]. *)
Fixpoint strip_prefix (p s : string) : option string :=
  match p, s with
  | EmptyString, _ => Some s
  | String a p, String b s => if bool_decide (a = b) then strip_prefix p s else None
  | String _ _, EmptyString => None
  end.

Definition starts_with (s p : string) : bool := match strip_prefix p s with Some _ => true | None => false end.

(** [str::contains] of a string. *)
Fixpoint contains (s p : string) : bool :=
  starts_with s p || match s with EmptyString => false | String _ s => contains s p end.

(** [str::split] on a character: always at least one field. *)
Fixpoint split_on (c : Ascii.ascii) (s : string) : list string :=
  match s with
  | EmptyString => [EmptyString]
  | String d s =>
      if bool_decide (d = c) then EmptyString :: split_on c s
      else match split_on c s with
           | f :: fs => String d f :: fs
           | [] => [of_char d]
           end
  end.

(** [str::splitn]: the last field keeps the remaining separators. *)
Fixpoint splitn (n : nat) (c : Ascii.ascii) (s : string) : list string :=
  match n with
  | O => []
  | S O => [s]
  | S n =>
      (fix go (s : string) : list string :=
         match s with
         | EmptyString => [EmptyString]
         | String d s =>
             if bool_decide (d = c) then EmptyString :: splitn n c s
             else match go s with
                  | f :: fs => String d f :: fs
                  | [] => [of_char d]
                  end
         end) s
  end.

(** [trim_start_matches] and [trim_end_matches] with a predicate. *)
Fixpoint trim_start (p : Ascii.ascii -> bool) (s : string) : string :=
  match s with
  | EmptyString => EmptyString
  | String c s' => if p c then trim_start p s' else s
  end.

Fixpoint trim_end (p : Ascii.ascii -> bool) (s : string) : string :=
  match s with
  | EmptyString => EmptyString
  | String c s' =>
      match trim_end p s' with
      | EmptyString => if p c then EmptyString else of_char c
      | t => String c t
      end
  end.

Definition trim (p : Ascii.ascii -> bool) (s : string) : string := trim_end p (trim_start p s).

(** The ASCII white space of [char::is_whitespace]. *)
Definition is_whitespace (c : Ascii.ascii) : bool :=
  let n := ord c in ((9 <=? n) && (n <=? 13) || (n =? 32))%nat.

Definition is_digit (c : Ascii.ascii) : bool := ((48 <=? ord c) && (ord c <=? 57))%nat.

(** [str::split_whitespace]: the fields between runs of white space.
    [whitespace_fields] gives the field under way and those after it. *)
Definition push_field (field : string) (fs : list string) : list string :=
  match field with EmptyString => fs | _ => field :: fs end.

Fixpoint whitespace_fields (s : string) : string * list string :=
  match s with
  | EmptyString => (EmptyString, [])
  | String c s =>
      let '(field, fs) := whitespace_fields s in
      if is_whitespace c then (EmptyString, push_field field fs) else (String c field, fs)
  end.

Definition split_whitespace (s : string) : list string :=
  push_field (whitespace_fields s).1 (whitespace_fields s).2.

(** [slice::join]. *)
Fixpoint join (sep : string) (l : list string) : string :=
  match l with
  | [] => EmptyString
  | [s] => s
  | s :: l => s +:+ sep +:+ join sep l
  end.

(** The digits at the front of a string, and what follows. *)
Fixpoint span_digits (s : string) : string * string :=
  match s with
  | EmptyString => (EmptyString, EmptyString)
  | String c s' =>
      if is_digit c then let '(d, rest) := span_digits s' in (String c d, rest)
      else (EmptyString, s)
  end.

Fixpoint digits_value (s : string) (acc : Z) : Z :=
  match s with
  | EmptyString => acc
  | String c s => digits_value s (acc * 10 + Z.of_nat (ord c - 48))
  end.

(** ** Lines *)

Definition MAX_LINE : Z := 64 * 1024.

(** [rest.iter().position(|byte| *byte == b'\n')], with what is before it and
    after it. *)
Fixpoint split_newline (s : string) : string * option string :=
  match s with
  | EmptyString => (EmptyString, None)
  | String c s' =>
      if bool_decide (c = newline) then (EmptyString, Some s')
      else let '(line, rest) := split_newline s' in (String c line, rest)
  end.

(** [strip_suffix(b"\r").unwrap_or(line)]. *)
Fixpoint strip_return (s : string) : string :=
  match s with
  | EmptyString => EmptyString
  | String c EmptyString => if bool_decide (c = return_char) then EmptyString else s
  | String c s' => String c (strip_return s')
  end.

Inductive line_item := Line (l : string) | LineTooLong.

(** The iterator: what [next] yields until it is done; a line takes at least one
    byte, so the data's length bounds the turns. *)
Fixpoint lines_from (fuel : nat) (rest : string) : list line_item :=
  match rest, fuel with
  | EmptyString, _ => []
  | _, O => []
  | _, S fuel =>
      let '(line, after) := split_newline rest in
      if Z.of_nat (Strings.String.length line) <? MAX_LINE then
        Line (strip_return line) ::
          match after with Some rest => lines_from fuel rest | None => [] end
      else [LineTooLong]
  end.

Definition lines (data : string) : list line_item :=
  lines_from (Strings.String.length data) data.

(** ** The standard library's lines *)

(** [&s[n..]] and [&s[..n]] at a character boundary. *)
Definition drop_bytes (n : nat) (s : string) : string := String.substring n (String.length s - n) s.
Definition take_bytes (n : nat) (s : string) : string := String.substring 0 n s.

(** [str::split_inclusive('\n')]. *)
Fixpoint split_inclusive (s : string) : list string :=
  match s with
  | EmptyString => []
  | String c s =>
      if bool_decide (c = newline) then of_char c :: split_inclusive s
      else match split_inclusive s with
           | [] => [of_char c]
           | l :: ls => String c l :: ls
           end
  end.

(** [str::lines]: without the line's [\n] or [\r\n]. *)
Definition ends_line (s : string) : bool := match String.get (String.length s - 1) s with
  | Some c => bool_decide (c = newline) | None => false end.

Definition str_line (s : string) : string :=
  if ends_line s then strip_return (take_bytes (String.length s - 1) s) else s.

Definition str_lines (s : string) : list string := str_line <$> split_inclusive s.

(** ** Joining and splitting

    [unlines] ends every line with a newline. A line that could come out of the
    iterator has no newline, no trailing carriage return and is short enough. *)

Fixpoint unlines (ls : list string) : string :=
  match ls with
  | [] => EmptyString
  | l :: ls => l +:+ String newline (unlines ls)
  end.

Fixpoint no_newline (s : string) : bool :=
  match s with
  | EmptyString => true
  | String c s => negb (bool_decide (c = newline)) && no_newline s
  end.

Fixpoint ends_with_return (s : string) : bool :=
  match s with
  | EmptyString => false
  | String c EmptyString => bool_decide (c = return_char)
  | String _ s => ends_with_return s
  end.

Definition plain_line (s : string) : bool :=
  no_newline s && negb (ends_with_return s) && (Z.of_nat (Strings.String.length s) <? MAX_LINE).

Lemma split_newline_spec line rest :
  no_newline line = true -> split_newline (line +:+ String newline rest) = (line, Some rest).
Proof.
  induction line as [|c line IH]; intros Hn; [done|].
  change (String c line +:+ ?x) with (String c (line +:+ x)). cbn in Hn. cbn [split_newline].
  apply andb_true_iff in Hn as [Hc Hn]. destruct (bool_decide (c = newline)); [done|].
  by rewrite (IH Hn).
Qed.

Lemma strip_return_id s : ends_with_return s = false -> strip_return s = s.
Proof.
  induction s as [|c s IH]; intros He; [done|]. cbn in He |- *. destruct s as [|d s].
  - by rewrite He.
  - by rewrite (IH He).
Qed.

Lemma length_append a b :
  Strings.String.length (a +:+ b) = (Strings.String.length a + Strings.String.length b)%nat.
Proof. induction a as [|c a IH]; [done|]. exact (f_equal S IH). Qed.

Lemma lines_from_unlines ls fuel :
  forallb plain_line ls = true -> (Strings.String.length (unlines ls) <= fuel)%nat ->
  lines_from fuel (unlines ls) = Line <$> ls.
Proof.
  revert fuel. induction ls as [|l ls IH]; intros fuel Hp Hf; [by destruct fuel|].
  cbn [forallb] in Hp. apply andb_true_iff in Hp as [Hl Hp].
  unfold plain_line in Hl. rewrite !andb_true_iff in Hl. destruct Hl as ((Hn & Hr) & Hlen).
  cbn [unlines] in Hf |- *. rewrite length_append in Hf. cbn in Hf.
  destruct fuel as [|fuel]; [lia|].
  destruct (l +:+ String newline (unlines ls)) as [|c s] eqn:E; [by destruct l|].
  cbn [lines_from]. rewrite <- E, split_newline_spec by done.
  rewrite Hlen. csimpl. rewrite strip_return_id by (by apply negb_true_iff).
  rewrite IH by (done || lia). done.
Qed.
