(* ===== verification/TextProofs.v ===== *)
(** * Lemmas on text

    Numbers print as digits that read back, fields separated by a character
    are split where they were joined, and lines come out as they went in. *)

From S2P Require Import Prelude.
From S2P Require Import Text.

Local Open Scope Z_scope.

(** Every character of a string satisfies [p]. *)
Fixpoint all_chars (p : Ascii.ascii -> bool) (s : string) : bool :=
  match s with EmptyString => true | String c s => p c && all_chars p s end.

Lemma all_chars_app p a b : all_chars p (a +:+ b) = all_chars p a && all_chars p b.
Proof.
  induction a as [|c a IH]; [done|]. change (String c a +:+ b) with (String c (a +:+ b)).
  cbn [all_chars]. by rewrite IH, andb_assoc.
Qed.

Lemma all_chars_impl (p q : Ascii.ascii -> bool) s :
  (forall c, p c = true -> q c = true) -> all_chars p s = true -> all_chars q s = true.
Proof.
  intros Hpq. induction s as [|c s IH]; [done|]. cbn [all_chars].
  intros [H1 H2]%andb_true_iff. by rewrite (Hpq c H1), (IH H2).
Qed.

(** ** Numbers *)

Lemma digit_char d : (d < 10)%N ->
  is_digit (pretty_N_char d) = true /\ Z.of_nat (ord (pretty_N_char d) - 48) = Z.of_N d.
Proof.
  intros Hd. assert (d ∈ [0; 1; 2; 3; 4; 5; 6; 7; 8; 9])%N as Hin.
  { rewrite !elem_of_cons. lia. }
  rewrite !elem_of_cons in Hin.
  repeat (destruct Hin as [->|Hin]; [done|]). by apply not_elem_of_nil in Hin.
Qed.

Lemma pretty_go_digits x s :
  all_chars is_digit s = true -> all_chars is_digit (pretty_N_go x s) = true.
Proof.
  revert s. induction (N.lt_wf_0 x) as [x _ IH]; intros s Hs.
  destruct (decide (x = 0%N)) as [->|Hx]; [by rewrite pretty_N_go_0|].
  rewrite pretty_N_go_step by lia. apply IH; [apply N.div_lt; lia|].
  cbn [all_chars]. destruct (digit_char (x mod 10)) as [-> _]; [|done].
  apply N.mod_lt. lia.
Qed.

Lemma pretty_go_length x s k :
  (x < 10 ^ N.of_nat k)%N ->
  (Strings.String.length (pretty_N_go x s) <= k + Strings.String.length s)%nat.
Proof.
  revert s k. induction (N.lt_wf_0 x) as [x _ IH]; intros s k Hk.
  destruct (decide (x = 0%N)) as [->|Hx]; [rewrite pretty_N_go_0; lia|].
  rewrite pretty_N_go_step by lia. destruct k as [|k]; [change (10 ^ N.of_nat 0)%N with 1%N in Hk; lia|].
  eapply Nat.le_trans; [apply (IH (x / 10)%N ltac:(apply N.div_lt; lia) _ k)|simpl; lia].
  apply N.Div0.div_lt_upper_bound. rewrite Nat2N.inj_succ, N.pow_succ_r' in Hk. lia.
Qed.

Lemma pretty_Z_nonneg z :
  0 <= z -> pretty z = if decide (z = 0) then "0" else pretty_N_go (Z.to_N z) "".
Proof.
  intros Hz. destruct z as [|p|p]; [done| |lia]. rewrite decide_False by lia.
  change (pretty (Z.pos p)) with (pretty (N.pos p)). unfold pretty, pretty_N.
  by rewrite decide_False by lia.
Qed.

Lemma pretty_Z_digits z : 0 <= z -> all_chars is_digit (pretty z) = true.
Proof.
  intros Hz. rewrite pretty_Z_nonneg by done. case_decide; [done|]. by apply pretty_go_digits.
Qed.

Lemma pretty_Z_length z : 0 <= z < 2 ^ 63 -> (Strings.String.length (pretty z) <= 19)%nat.
Proof.
  intros Hz. rewrite pretty_Z_nonneg by lia. case_decide; [simpl; lia|].
  apply (pretty_go_length _ "" 19). change (10 ^ N.of_nat 19)%N with 10000000000000000000%N. lia.
Qed.

Lemma pretty_Z_nonempty z : 0 <= z -> pretty z <> "".
Proof.
  intros Hz. rewrite pretty_Z_nonneg by done. case_decide as Hd; [done|].
  assert (forall x s, (0 < x)%N \/ s <> "" -> pretty_N_go x s <> "") as Hgo.
  { intros x. induction (N.lt_wf_0 x) as [x _ IH]; intros s Hs.
    destruct (decide (x = 0%N)) as [->|Hx]; [rewrite pretty_N_go_0; destruct Hs; [lia|done]|].
    rewrite pretty_N_go_step by lia. apply IH; [apply N.div_lt; lia|by right]. }
  apply Hgo. left. lia.
Qed.

(** ** Fields *)

Lemma split_on_one c a : all_chars (fun d => negb (bool_decide (d = c))) a = true -> split_on c a = [a].
Proof.
  induction a as [|d a IH]; [done|]. cbn [all_chars split_on].
  intros [Hd Ha]%andb_true_iff. destruct (bool_decide (d = c)); [done|]. by rewrite IH.
Qed.

Lemma split_on_two c a b :
  all_chars (fun d => negb (bool_decide (d = c))) a = true ->
  split_on c (a +:+ String c b) = a :: split_on c b.
Proof.
  induction a as [|d a IH]; intros Ha.
  - change ("" +:+ ?s) with s. cbn [split_on]. by rewrite bool_decide_eq_true_2.
  - change (String d a +:+ ?s) with (String d (a +:+ s)). cbn [all_chars split_on] in *.
    apply andb_true_iff in Ha as [Hd Ha]. destruct (bool_decide (d = c)); [done|]. by rewrite IH.
Qed.

(** Has none of the separators. *)
Definition lacks (c : Ascii.ascii) (s : string) : bool := all_chars (fun d => negb (bool_decide (d = c))) s.

Lemma split_on_join c l :
  l <> [] -> Forall (fun e => lacks c e = true) l -> split_on c (join (of_char c) l) = l.
Proof.
  induction l as [|x l IH]; intros Hl Hf; [done|]. apply Forall_cons in Hf as [Hx Hf].
  destruct l as [|y l]; [by apply split_on_one|].
  change (join (of_char c) (x :: y :: l)) with (x +:+ String c (join (of_char c) (y :: l))).
  rewrite split_on_two by done. by rewrite IH.
Qed.

Lemma splitn_cons n c d s :
  splitn (S (S n)) c (String d s)
  = if bool_decide (d = c) then "" :: splitn (S n) c s
    else match splitn (S (S n)) c s with f :: fs => String d f :: fs | [] => [of_char d] end.
Proof. reflexivity. Qed.

Lemma splitn_field n c a s :
  lacks c a = true -> splitn (S (S n)) c (a +:+ String c s) = a :: splitn (S n) c s.
Proof.
  unfold lacks. induction a as [|d a IH]; intros Ha.
  - change ("" +:+ ?s) with s. rewrite splitn_cons. by rewrite bool_decide_eq_true_2.
  - cbn [all_chars] in Ha. apply andb_true_iff in Ha as [Hd Ha].
    change (String d a +:+ ?s) with (String d (a +:+ s)). rewrite splitn_cons.
    destruct (bool_decide (d = c)); [done|]. by rewrite IH.
Qed.

(** Two separators split off two fields; what follows keeps its own. *)
Lemma splitn_three c a b s :
  lacks c a = true -> lacks c b = true ->
  splitn 3 c (a +:+ String c (b +:+ String c s)) = [a; b; s].
Proof. intros Ha Hb. by rewrite !splitn_field. Qed.

(** A field of [split_whitespace]. *)
Definition is_field (s : string) : Prop := s <> "" /\ all_chars (fun c => negb (is_whitespace c)) s = true.

Lemma whitespace_fields_app a s :
  all_chars (fun c => negb (is_whitespace c)) a = true ->
  whitespace_fields (a +:+ s) = (a +:+ (whitespace_fields s).1, (whitespace_fields s).2).
Proof.
  induction a as [|c a IH]; intros Ha.
  - change ("" +:+ ?s) with s. by destruct (whitespace_fields s).
  - change (String c a +:+ ?s) with (String c (a +:+ s)). cbn [all_chars whitespace_fields] in *.
    apply andb_true_iff in Ha as [Hc Ha]. rewrite (IH Ha). by destruct (is_whitespace c).
Qed.

Lemma whitespace_fields_space s :
  whitespace_fields (" " +:+ s) = ("", push_field (whitespace_fields s).1 (whitespace_fields s).2).
Proof. change (" " +:+ s) with (String (chr 32) s). cbn [whitespace_fields]. by destruct (whitespace_fields s). Qed.

Lemma app_empty_r (s : string) : s +:+ "" = s.
Proof. induction s as [|c s IH]; [done|]. change (String c s +:+ "") with (String c (s +:+ "")). by rewrite IH. Qed.

Lemma append_assoc (a b c : string) : (a +:+ b) +:+ c = a +:+ b +:+ c.
Proof. induction a as [|d a IH]; [done|]. exact (f_equal (String d) IH). Qed.

Lemma push_field_nonempty a fs : a <> "" -> push_field a fs = a :: fs.
Proof. by destruct a. Qed.

Lemma split_whitespace_three a b c :
  is_field a -> is_field b -> is_field c ->
  split_whitespace (a +:+ " " +:+ b +:+ " " +:+ c) = [a; b; c].
Proof.
  intros [Na Ha] [Nb Hb] [Nc Hc]. unfold split_whitespace.
  rewrite whitespace_fields_app, whitespace_fields_space, whitespace_fields_app, whitespace_fields_space by done.
  rewrite <- (app_empty_r c), whitespace_fields_app by done. cbn [whitespace_fields fst snd].
  rewrite !app_empty_r. by rewrite !push_field_nonempty.
Qed.

(** ** Trimming and lines *)

Lemma trim_end_app p a b : trim_end p b <> "" -> trim_end p (a +:+ b) = a +:+ trim_end p b.
Proof.
  intros Hb. induction a as [|c a IH]; [done|].
  change (String c a +:+ ?s) with (String c (a +:+ s)). cbn [trim_end]. rewrite IH.
  destruct (a +:+ trim_end p b) eqn:E; [|done].
  destruct a; [|done]. by destruct (trim_end p b).
Qed.

Lemma no_newline_app a b : no_newline (a +:+ b) = no_newline a && no_newline b.
Proof.
  induction a as [|c a IH]; [done|]. change (String c a +:+ b) with (String c (a +:+ b)).
  cbn [no_newline]. by rewrite IH, andb_assoc.
Qed.

Lemma split_newline_none s : no_newline s = true -> split_newline s = (s, None).
Proof.
  induction s as [|c s IH]; [done|]. cbn [no_newline split_newline].
  intros [Hc Hs]%andb_true_iff. destruct (bool_decide (c = newline)); [done|]. by rewrite IH.
Qed.

(** A line with no newline after it. *)
Lemma lines_single s : plain_line s = true -> s <> "" -> lines s = [Line s].
Proof.
  intros Hp Hs. unfold plain_line in Hp. rewrite !andb_true_iff in Hp. destruct Hp as ((Hn & Hr) & Hl).
  unfold lines. destruct s as [|c s]; [done|]. cbn [Strings.String.length lines_from].
  rewrite split_newline_none, Hl by done. by rewrite strip_return_id by (by apply negb_true_iff).
Qed.

Lemma ends_with_return_app a b : b <> "" -> ends_with_return (a +:+ b) = ends_with_return b.
Proof.
  intros Hb. induction a as [|c a IH]; [done|]. change (String c a +:+ b) with (String c (a +:+ b)).
  cbn [ends_with_return]. destruct (a +:+ b) eqn:E; [|done]. by destruct a, b.
Qed.
