(* ===== verification/Utf8.v ===== *)
(** * UTF-8 as the standard library reads it

    Byte strings of the outside (a mount table, a bus address, the file of the
    configuration) become Rust strings through [String::from_utf8] and
    [String::from_utf8_lossy]. A sequence is a first byte and the ranges its
    continuation bytes must lie in, so that no overlong form, surrogate or value
    above U+10FFFF is accepted. A character is kept as its bytes. *)

From S2P Require Import Prelude.
From S2P Require Import Text.
From S2P Require Import TextProofs.

(** The bounds of the continuation bytes after a first byte. *)
Definition tail_byte : Z * Z := (128, 191).

Definition tails (first : Z) : option (list (Z * Z)) :=
  if first <? 128 then Some []
  else if bool_decide (194 <= first <= 223) then Some [tail_byte]
  else if first =? 224 then Some [(160, 191); tail_byte]
  else if first =? 237 then Some [(128, 159); tail_byte]
  else if bool_decide (225 <= first <= 239) then Some [tail_byte; tail_byte]
  else if first =? 240 then Some [(144, 191); tail_byte; tail_byte]
  else if bool_decide (241 <= first <= 243) then Some [tail_byte; tail_byte; tail_byte]
  else if first =? 244 then Some [(128, 143); tail_byte; tail_byte]
  else None.

Definition byte (c : Ascii.ascii) : Z := Z.of_nat (ord c).

Definition within (r : Z * Z) (c : Ascii.ascii) : bool := (r.1 <=? byte c) && (byte c <=? r.2).

(** The maximal pieces of a byte string: whole characters, and broken sequences
    cut before the first byte that cannot continue them. [piece] is the one under
    way and [expected] what it still needs. *)
Inductive Chunk := Whole (bytes : string) | Broken (bytes : string).

Definition closed (expected : list (Z * Z)) (piece : string) : list Chunk :=
  match piece with
  | EmptyString => []
  | _ => match expected with [] => [Whole piece] | _ => [Broken piece] end
  end.

Fixpoint utf8_chunks (expected : list (Z * Z)) (piece s : string) : list Chunk :=
  match s with
  | EmptyString => closed expected piece
  | String c s =>
      let start :=
        closed expected piece ++
        match tails (byte c) with
        | Some expected => utf8_chunks expected (of_char c) s
        | None => Broken (of_char c) :: utf8_chunks [] EmptyString s
        end in
      match expected with
      | r :: expected =>
          if within r c then utf8_chunks expected (piece +:+ of_char c) s else start
      | [] => start
      end
  end.

Definition chunks (s : string) : list Chunk := utf8_chunks [] EmptyString s.

Definition is_whole (c : Chunk) : bool := match c with Whole _ => true | Broken _ => false end.

(** [String::from_utf8] succeeds. *)
Definition valid_utf8 (s : string) : bool := forallb is_whole (chunks s).

Definition from_utf8 (s : string) : option string := if valid_utf8 s then Some s else None.

(** U+FFFD. *)
Definition REPLACEMENT : string := String (chr 239) (String (chr 191) (of_char (chr 189))).

Definition chunk_text (c : Chunk) : string :=
  match c with Whole bytes => bytes | Broken _ => REPLACEMENT end.

Fixpoint concat_all (l : list string) : string :=
  match l with [] => EmptyString | s :: l => s +:+ concat_all l end.

(** [String::from_utf8_lossy]. *)
Definition from_utf8_lossy (s : string) : string := concat_all (chunk_text <$> chunks s).

(** [str::chars], each character as its bytes. *)
Definition utf8_chars (s : string) : list string := chunk_text <$> chunks s.

(** [char::is_whitespace] beyond ASCII: U+0085, U+00A0, U+1680, U+2000 to U+200A,
    U+2028, U+2029, U+202F, U+205F, U+3000. *)
Definition utf8_3 (a b c : nat) : string := String (chr a) (String (chr b) (of_char (chr c))).

Definition WIDE_SPACES : list string :=
  [String (chr 194) (of_char (chr 133)); String (chr 194) (of_char (chr 160));
   utf8_3 225 154 128] ++ (utf8_3 226 128 <$> seq 128 11) ++
  [utf8_3 226 128 168; utf8_3 226 128 169; utf8_3 226 128 175; utf8_3 226 129 159;
   utf8_3 227 128 128].

Definition char_whitespace (character : string) : bool :=
  match character with
  | String c EmptyString => is_whitespace c
  | _ => bool_decide (character ∈ WIDE_SPACES)
  end.

(** [char::to_digit(16)]. *)
Definition hex_value (c : Ascii.ascii) : option Z :=
  let b := byte c in
  if bool_decide (48 <= b <= 57) then Some (b - 48)
  else if bool_decide (97 <= b <= 102) then Some (b - 87)
  else if bool_decide (65 <= b <= 70) then Some (b - 55)
  else None.

(** ** Lemmas *)

Definition chunk_bytes (c : Chunk) : string :=
  match c with Whole bytes | Broken bytes => bytes end.

Lemma concat_all_app l k : concat_all (l ++ k) = concat_all l +:+ concat_all k.
Proof. induction l as [|s l IH]; [done|]. cbn. by rewrite IH, append_assoc. Qed.

Lemma closed_bytes expected piece : concat_all (chunk_bytes <$> closed expected piece) = piece.
Proof. destruct piece; [done|]. destruct expected; cbn; apply app_empty_r. Qed.

(** The pieces are the bytes, cut. *)
Lemma chunks_bytes expected piece s :
  concat_all (chunk_bytes <$> utf8_chunks expected piece s) = piece +:+ s.
Proof.
  revert expected piece. induction s as [|c s IH]; intros expected piece.
  { cbn. by rewrite closed_bytes, app_empty_r. }
  assert (Hstart : concat_all (chunk_bytes <$>
    (closed expected piece ++
     match tails (byte c) with
     | Some expected => utf8_chunks expected (of_char c) s
     | None => Broken (of_char c) :: utf8_chunks [] EmptyString s
     end)) = piece +:+ String c s).
  { rewrite fmap_app, concat_all_app, closed_bytes. f_equal.
    destruct (tails (byte c)); cbn; [|rewrite IH; done]. by rewrite IH. }
  cbn [utf8_chunks]. destruct expected as [|r expected]; [done|].
  destruct (within r c); [|done]. rewrite IH. by rewrite append_assoc.
Qed.

(** A valid string is read as itself. *)
Lemma from_utf8_lossy_valid s : valid_utf8 s = true -> from_utf8_lossy s = s.
Proof.
  intros Hv. unfold from_utf8_lossy. rewrite <- (chunks_bytes [] EmptyString s) at 2.
  unfold chunks. change (EmptyString +:+ s) with s. f_equal. apply list_fmap_ext.
  intros i x Hx. unfold valid_utf8 in Hv. rewrite forallb_forall in Hv.
  specialize (Hv x). destruct x; [done|]. exfalso. apply list_elem_of_lookup_2, list_elem_of_In in Hx.
  by specialize (Hv Hx).
Qed.

Lemma utf8_chars_valid s : valid_utf8 s = true -> concat_all (utf8_chars s) = s.
Proof. apply from_utf8_lossy_valid. Qed.

Definition is_ascii (c : Ascii.ascii) : bool := (ord c <? 128)%nat.

Fixpoint ascii_text (s : string) : bool :=
  match s with EmptyString => true | String c s => is_ascii c && ascii_text s end.

Lemma tails_ascii c : is_ascii c = true -> tails (byte c) = Some [].
Proof.
  unfold is_ascii, tails, byte. intros Hc. apply Nat.ltb_lt in Hc.
  by rewrite (proj2 (Z.ltb_lt _ _)) by lia.
Qed.

(** Text in ASCII has one character per byte. *)
Lemma chunks_ascii piece s :
  ascii_text s = true ->
  utf8_chunks [] piece s = closed [] piece ++ ((fun c => Whole (of_char c)) <$> String.list_ascii_of_string s).
Proof.
  revert piece. induction s as [|c s IH]; intros piece Hs; [by rewrite app_nil_r|].
  cbn [ascii_text] in Hs. apply andb_true_iff in Hs as [Hc Hs].
  cbn [utf8_chunks]. rewrite tails_ascii, IH by done. done.
Qed.

Lemma valid_ascii s : ascii_text s = true -> valid_utf8 s = true.
Proof.
  intros Hs. unfold valid_utf8, chunks. rewrite chunks_ascii by done. cbn.
  apply forallb_forall. intros x Hx%list_elem_of_In%list_elem_of_fmap. by destruct Hx as (c & -> & _).
Qed.

(** The bytes, for properties shown by enumeration. *)
Definition all_bytes : list Ascii.ascii := chr <$> seq 0 256.

Lemma elem_of_all_bytes c : c ∈ all_bytes.
Proof.
  unfold all_bytes. apply list_elem_of_fmap. exists (ord c). split.
  - unfold chr, ord. by rewrite Ascii.ascii_nat_embedding.
  - apply elem_of_seq. pose proof (Ascii.nat_ascii_bounded c). unfold ord. lia.
Qed.

Lemma utf8_chunks_nonempty expected piece s : piece <> EmptyString -> utf8_chunks expected piece s <> [].
Proof.
  revert expected piece. induction s as [|c s IH]; intros expected piece Hp.
  - destruct piece; [done|]. by destruct expected.
  - cbn. assert (Hc : closed expected piece <> []) by (destruct piece; [done|]; by destruct expected).
    destruct expected as [|r expected]; [by destruct (closed [] piece)|].
    destruct (within r c); [|by destruct (closed _ piece)]. apply IH. by destruct piece.
Qed.

Lemma utf8_chars_two a b s : is_ascii a = true -> (1 < length (utf8_chars (String a (String b s))))%nat.
Proof.
  intros Ha. unfold utf8_chars, chunks. rewrite length_fmap. cbn [utf8_chunks closed app].
  rewrite tails_ascii by done. cbn [utf8_chunks closed app].
  destruct (tails (byte b)) as [e|]; cbn; [|lia].
  destruct (utf8_chunks e (of_char b) s) eqn:E; [by apply utf8_chunks_nonempty in E|]. cbn. lia.
Qed.
