(* ===== verification/BTree.v ===== *)
(** * Ordered sets (the standard library's [BTreeSet])

    A set is the list of its elements in increasing order, the order in which
    the sources iterate over one. *)

From Stdlib Require Import Sorted.
From S2P Require Import Prelude.

(** A total order, as [derive(Ord)] gives it. *)
Class Ord (A : Type) := {
  lt : A -> A -> bool;
  lt_irrefl x : lt x x = false;
  lt_trans x y z : lt x y = true -> lt y z = true -> lt x z = true;
  lt_total x y : lt x y = false -> lt y x = false -> x = y;
}.

Section BTreeSet.
Context {A : Type} `{EqDecision A} `{Ord A}.

Abbreviation before := (fun x y => lt x y = true).

(** The lists that are sets. *)
Definition is_set (s : list A) : Prop := StronglySorted before s.

Fixpoint insert_ord (x : A) (s : list A) : list A :=
  match s with
  | [] => [x]
  | y :: s' =>
      if lt x y then x :: s else if lt y x then y :: insert_ord x s' else s
  end.

Definition remove_ord (x : A) (s : list A) : list A := filter (fun y => y <> x) s.

Definition contains_ord (x : A) (s : list A) : bool := bool_decide (x ∈ s).

(** [collect::<BTreeSet<_>>()]. *)
Definition collect_set (l : list A) : list A := foldl (fun s x => insert_ord x s) [] l.

Lemma elem_of_insert_ord x y s : x ∈ insert_ord y s <-> x = y \/ x ∈ s.
Proof.
  induction s as [|z s IH]; simpl; [set_solver|].
  destruct (lt y z) eqn:E1; [set_solver|]. destruct (lt z y) eqn:E2; [set_solver|].
  rewrite (lt_total _ _ E1 E2). set_solver.
Qed.

Lemma elem_of_remove_ord x y s : x ∈ remove_ord y s <-> x <> y /\ x ∈ s.
Proof. unfold remove_ord. by rewrite list_elem_of_filter. Qed.

Lemma contains_ord_spec x s : contains_ord x s = true <-> x ∈ s.
Proof. apply bool_decide_eq_true. Qed.

Lemma foldl_insert_ord x l s :
  x ∈ foldl (fun s x => insert_ord x s) s l <-> x ∈ s \/ x ∈ l.
Proof.
  revert s. induction l as [|y l IH]; intros s; simpl; [set_solver|].
  rewrite IH, elem_of_insert_ord. set_solver.
Qed.

Lemma elem_of_collect_set x l : x ∈ collect_set l <-> x ∈ l.
Proof. unfold collect_set. rewrite foldl_insert_ord. set_solver. Qed.

Lemma insert_ord_set x s : is_set s -> is_set (insert_ord x s).
Proof.
  induction 1 as [|y s Hs IH Hy]; simpl; [repeat constructor|].
  destruct (lt x y) eqn:E1.
  - repeat (constructor; try done). eapply Forall_impl; [exact Hy|]. intros z. by apply lt_trans.
  - destruct (lt y x) eqn:E2; constructor; try done.
    apply Forall_forall. intros z [->|Hz]%elem_of_insert_ord; [done|].
    rewrite Forall_forall in Hy. by apply Hy.
Qed.

Lemma filter_set (P : A -> Prop) `{!forall x, Decision (P x)} s : is_set s -> is_set (filter P s).
Proof.
  induction 1 as [|y s Hs IH Hy]; [constructor|].
  rewrite filter_cons. case_decide; [|done]. constructor; [done|].
  apply Forall_forall. intros z [_ Hz]%list_elem_of_filter.
  rewrite Forall_forall in Hy. by apply Hy.
Qed.

Lemma collect_set_set l : is_set (collect_set l).
Proof.
  unfold collect_set. assert (is_set []) as Hs by constructor. revert Hs.
  generalize (@nil A). induction l as [|x l IH]; intros s Hs; simpl; [done|].
  by apply IH, insert_ord_set.
Qed.

(** A set is determined by its elements. *)
Lemma set_ext s1 s2 : is_set s1 -> is_set s2 -> (forall x, x ∈ s1 <-> x ∈ s2) -> s1 = s2.
Proof.
  intros H1. revert s2. induction H1 as [|x s1 Hs1 IH Hx]; intros s2 H2 Hext.
  - destruct s2 as [|y s2]; [done|]. exfalso. apply (not_elem_of_nil y), Hext. by left.
  - destruct H2 as [|y s2 Hs2 Hy]; [exfalso; apply (not_elem_of_nil x), Hext; by left|].
    rewrite Forall_forall in Hx, Hy.
    assert (x = y) as <-.
    { assert (x ∈ y :: s2) as [->|Ha]%elem_of_cons by (apply Hext; by left); [done|].
      assert (y ∈ x :: s1) as [->|Hb]%elem_of_cons by (apply Hext; by left); [done|].
      pose proof (lt_trans _ _ _ (Hx _ Hb) (Hy _ Ha)) as Hc. by rewrite lt_irrefl in Hc. }
    f_equal. apply IH; [done|]. intros z. specialize (Hext z). rewrite !elem_of_cons in Hext.
    split; intros Hz.
    + assert (z = x \/ z ∈ s2) as [->|?] by (apply Hext; by right); [|done].
      specialize (Hx _ Hz). by rewrite lt_irrefl in Hx.
    + assert (z = x \/ z ∈ s1) as [->|?] by (apply Hext; by right); [|done].
      specialize (Hy _ Hz). by rewrite lt_irrefl in Hy.
Qed.

End BTreeSet.
