(* ===== verification/Asm.v ===== *)
(** * BPF instructions (src/cgroup/asm.rs)

    The opcode constants and the accessors of an opcode, the instruction record
    with its constructors, the encoding into the kernel's 8-byte slots and the
    decoding back, with the normalisations of the Go package the daemon's 1.x
    wrappers were written with. The printed forms are in AsmText.v, because the
    encoder's errors carry one. *)

From S2P Require Import Prelude.

Local Open Scope Z_scope.

(** ** Constants *)

Definition INSTRUCTION_SIZE : nat := 8.

Definition R0 : Z := 0.
Definition R1 : Z := 1.
Definition R2 : Z := 2.
Definition R3 : Z := 3.
Definition R4 : Z := 4.
Definition R5 : Z := 5.
Definition R6 : Z := 6.
Definition RFP : Z := 10.

Definition PSEUDO_MAP_FD : Z := 1.
Definition PSEUDO_MAP_VALUE : Z := 2.
Definition PSEUDO_CALL : Z := 1.
Definition PSEUDO_KFUNC_CALL : Z := 2.
Definition PSEUDO_MAY_GOTO : Z := 0.

Definition CLASS_MASK : Z := 0x07.

Definition MODE_MASK : Z := 0xe0.
Definition MODE_IMM : Z := 0x00.
Definition MODE_ABS : Z := 0x20.
Definition MODE_IND : Z := 0x40.
Definition MODE_MEM : Z := 0x60.
Definition MODE_MEMSX : Z := 0x80.
Definition MODE_ATOMIC : Z := 0xc0.
Definition INVALID_MODE : Z := 0xff.

Definition SIZE_MASK : Z := 0x18.
Definition WORD : Z := 0x00.
Definition HALF : Z := 0x08.
Definition BYTE : Z := 0x10.
Definition DWORD : Z := 0x18.
Definition INVALID_SIZE : Z := 0xff.

Definition SOURCE_MASK : Z := 0x08.
Definition IMM_SOURCE : Z := 0x00.
Definition REG_SOURCE : Z := 0x08.
Definition INVALID_SOURCE : Z := 0xffff.

Definition ALU_MASK : Z := 0x3ff0.
Definition ADD : Z := 0x00.
Definition SUB : Z := 0x10.
Definition MUL : Z := 0x20.
Definition DIV : Z := 0x30.
Definition SDIV : Z := DIV + 0x100.
Definition OR : Z := 0x40.
Definition AND : Z := 0x50.
Definition LSH : Z := 0x60.
Definition RSH : Z := 0x70.
Definition NEG : Z := 0x80.
Definition MOD : Z := 0x90.
Definition SMOD : Z := MOD + 0x100.
Definition XOR : Z := 0xa0.
Definition MOV : Z := 0xb0.
Definition MOVSX8 : Z := MOV + 0x100.
Definition MOVSX16 : Z := MOV + 0x200.
Definition MOVSX32 : Z := MOV + 0x300.
Definition ARSH : Z := 0xc0.
Definition SWAP : Z := 0xd0.
Definition INVALID_ALU_OP : Z := 0xffff.

Definition JUMP_MASK : Z := 0xf0.
Definition JA : Z := 0x00.
Definition JEQ : Z := 0x10.
Definition JGT : Z := 0x20.
Definition JGE : Z := 0x30.
Definition JSET : Z := 0x40.
Definition JNE : Z := 0x50.
Definition JSGT : Z := 0x60.
Definition JSGE : Z := 0x70.
Definition CALL : Z := 0x80.
Definition EXIT : Z := 0x90.
Definition JLT : Z := 0xa0.
Definition JLE : Z := 0xb0.
Definition JSLT : Z := 0xc0.
Definition JSLE : Z := 0xd0.
Definition JCOND : Z := 0xe0.
Definition INVALID_JUMP_OP : Z := 0xff.

Definition ATOMIC_MASK : Z := 0x1ff00.
Definition FETCH : Z := 0x100.
Definition XCHG : Z := Z.lor 0xe000 FETCH.
Definition CMPXCHG : Z := Z.lor 0xf000 FETCH.
Definition LOAD_ACQUIRE : Z := 0x10000.
Definition STORE_RELEASE : Z := 0x11000.
Definition INVALID_ATOMIC : Z := 0xffffffff.

Definition INVALID_OPCODE : Z := 0xffff.

Definition PLATFORM_SHIFT : Z := 28.
Definition PLATFORM_MASK : Z := 0x7 ≪ PLATFORM_SHIFT.
Definition WINDOWS_TAG : Z := 1 ≪ PLATFORM_SHIFT.

(** ** The class of an opcode *)

Inductive Class := Ld | LdX | St | StX | Alu | Jump | Jump32 | Alu64.

#[global] Instance Class_eq_dec : EqDecision Class.
Proof. solve_decision. Defined.

Definition is_load_or_store (c : Class) : bool :=
  match c with Ld | LdX | St | StX => true | _ => false end.

Definition is_alu (c : Class) : bool :=
  match c with Alu | Alu64 => true | _ => false end.

Definition is_jump (c : Class) : bool :=
  match c with Jump | Jump32 => true | _ => false end.

(** ** The opcode: the wire byte, and the bits above it a decoded instruction
       carries *)

Module OpCode.

Definition alu32 (op source : Z) : Z := 0x04 .| op .| source.
Definition alu64 (op source : Z) : Z := 0x07 .| op .| source.
Definition jump (op source : Z) : Z := 0x05 .| op .| source.
Definition load_x (mode size : Z) : Z := 0x01 .| mode .| size.
Definition load (mode size : Z) : Z := mode .| size.
Definition store_x (mode size : Z) : Z := 0x03 .| mode .| size.

Definition class (op : Z) : Class :=
  match op .& CLASS_MASK with
  | 0 => Ld
  | 1 => LdX
  | 2 => St
  | 3 => StX
  | 4 => Alu
  | 5 => Jump
  | 6 => Jump32
  | _ => Alu64
  end.

Definition mode (op : Z) : Z :=
  if is_load_or_store (class op) then op .& MODE_MASK else INVALID_MODE.

Definition size (op : Z) : Z :=
  if is_load_or_store (class op) then op .& SIZE_MASK else INVALID_SIZE.

Definition atomic_op (op : Z) : Z :=
  if bool_decide (class op = StX) && (mode op =? MODE_ATOMIC)
  then op .& ATOMIC_MASK
  else INVALID_ATOMIC.

Definition alu_op (op : Z) : Z :=
  if is_alu (class op) then op .& ALU_MASK else INVALID_ALU_OP.

Definition source (op : Z) : Z :=
  if negb (is_jump (class op) || is_alu (class op)) || (alu_op op =? SWAP)
  then INVALID_SOURCE
  else op .& SOURCE_MASK.

Definition jump_op (op : Z) : Z :=
  if negb (is_jump (class op)) then INVALID_JUMP_OP
  else
    let o := op .& JUMP_MASK in
    if bool_decide (class op = Jump32) && ((o =? EXIT) || (o =? CALL))
    then INVALID_JUMP_OP
    else o.

(** [self.0 & !ALU_MASK] on a [u32] is the difference of bit sets. *)
Definition with_alu_op (op alu : Z) : Z := Z.ldiff op ALU_MASK .| alu.

Definition is_dword_load (op : Z) : bool := op =? load MODE_IMM DWORD.

End OpCode.

(** ** The instruction *)

Record instruction := Instruction {
  opcode : Z;
  dst : Z;
  src : Z;
  offset : Z;
  constant : Z;
}.

#[global] Instance instruction_eq_dec : EqDecision instruction.
Proof. solve_decision. Defined.

Definition load_mem (d s off sz : Z) : instruction :=
  Instruction (OpCode.load_x MODE_MEM sz) d s off 0.

Definition alu32_imm (op d value : Z) : instruction :=
  Instruction (OpCode.alu32 op IMM_SOURCE) d R0 0 value.

Definition alu32_reg (op d s : Z) : instruction :=
  Instruction (OpCode.alu32 op REG_SOURCE) d s 0 0.

Definition jump_imm (op d value off : Z) : instruction :=
  Instruction (OpCode.jump op IMM_SOURCE) d R0 off value.

Definition jump_reg (op d s off : Z) : instruction :=
  Instruction (OpCode.jump op REG_SOURCE) d s off 0.

Definition exit : instruction :=
  Instruction (OpCode.jump EXIT IMM_SOURCE) R0 R0 0 0.

(** How many slots it takes. *)
Definition width (i : instruction) : nat :=
  if OpCode.is_dword_load (opcode i) then 2%nat else 1%nat.

Definition is_builtin_call (i : instruction) : bool :=
  (OpCode.jump_op (opcode i) =? CALL) && (src i =? R0) && (dst i =? R0).

Definition is_load_from_map (i : instruction) : bool :=
  OpCode.is_dword_load (opcode i)
  && ((src i =? PSEUDO_MAP_FD) || (src i =? PSEUDO_MAP_VALUE)).

(** The low and high words of an [i64]. *)
Definition low_u32 (value : Z) : Z := wrapu 32 value.
Definition low_i32 (value : Z) : Z := wraps 32 (low_u32 value).
Definition high_u32 (value : Z) : Z := low_u32 (value ≫ 32).
