(* ===== verification/AsmText.v ===== *)
(** * The printed forms of opcodes and instructions
      (the [Display] implementations of src/cgroup/asm.rs and
      src/cgroup/asm/builtin.rs)

    The reloadability gate's errors and the encoder's carry these texts. *)

From S2P Require Import Prelude.
From S2P Require Import Asm.

Local Open Scope Z_scope.

Definition class_name (c : Class) : string :=
  match c with
  | Ld => "Ld"
  | LdX => "LdX"
  | St => "St"
  | StX => "StX"
  | Alu => "ALU"
  | Jump => "Jump"
  | Jump32 => "Jump32"
  | Alu64 => "ALU64"
  end.

Definition source_name (source : Z) : string :=
  if source =? IMM_SOURCE then "Imm"
  else if source =? REG_SOURCE then "Reg"
  else "Invalid".

(** A Rust [match] on constants: the text [table] has for [key]. *)
Fixpoint assoc (key : Z) (table : list (Z * string)) : option string :=
  match table with
  | [] => None
  | (k, name) :: table => if key =? k then Some name else assoc key table
  end.

(** [{value:x}] of an unsigned value below [16 ^ fuel]. *)
Fixpoint hex_go (fuel : nat) (value : Z) (acc : string) : string :=
  match fuel with
  | O => acc
  | S fuel =>
      let digit := Strings.String.get (Z.to_nat (value mod 16)) "0123456789abcdef" in
      let acc := match digit with Some c => String c acc | None => acc end in
      if value / 16 =? 0 then acc else hex_go fuel (value / 16) acc
  end.

Definition hex (value : Z) : string := hex_go 16 value "".

Definition alu_name (op : Z) : string :=
  match assoc op
    [(ADD, "Add"); (SUB, "Sub"); (MUL, "Mul"); (DIV, "Div"); (OR, "Or");
     (AND, "And"); (LSH, "LSh"); (RSH, "RSh"); (NEG, "Neg"); (MOD, "Mod");
     (XOR, "Xor"); (MOV, "Mov"); (ARSH, "ArSh"); (SWAP, "Swap");
     (SDIV, "SDiv"); (SMOD, "SMod"); (MOVSX8, "MovSX8");
     (MOVSX16, "MovSX16"); (MOVSX32, "MovSX32");
     (INVALID_ALU_OP, "InvalidALUOp")] with
  | Some name => name
  | None => "ALUOp(" +:+ pretty op +:+ ")"
  end.

Definition jump_name (op : Z) : string :=
  match assoc op
    [(JA, "Ja"); (JEQ, "JEq"); (JGT, "JGT"); (JGE, "JGE"); (JSET, "JSet");
     (JNE, "JNE"); (JSGT, "JSGT"); (JSGE, "JSGE"); (CALL, "Call");
     (EXIT, "Exit"); (JLT, "JLT"); (JLE, "JLE"); (JSLT, "JSLT");
     (JSLE, "JSLE"); (JCOND, "JCOND"); (INVALID_JUMP_OP, "InvalidJumpOp")] with
  | Some name => name
  | None => "JumpOp(" +:+ pretty op +:+ ")"
  end.

Definition atomic_name (op : Z) : string :=
  if bool_decide (op ∈ [0x0000; 0x5000; 0x4000; 0xa000]) then alu_name (op ≫ 8)
  else if bool_decide (op ∈ [0x0100; 0x5100; 0x4100; 0xa100])
  then "Fetch" +:+ alu_name (Z.lxor op FETCH ≫ 8)
  else if op =? XCHG then "Xchg"
  else if op =? CMPXCHG then "CmpXchg"
  else if op =? LOAD_ACQUIRE then "LdAcq"
  else if op =? STORE_RELEASE then "StRel"
  else "AtomicOp(0x" +:+ hex op +:+ ")".

(** ** [OpCode]'s text *)

Definition opcode_load_or_store (op : Z) (c : Class) : string :=
  let mode :=
    match assoc (OpCode.mode op)
      [(MODE_IMM, "Imm"); (MODE_ABS, "Abs"); (MODE_IND, "Ind");
       (MODE_MEM, "Mem"); (MODE_MEMSX, "MemSX"); (MODE_ATOMIC, "Atomic")] with
    | Some name => name
    | None => "Mode(" +:+ pretty (OpCode.mode op) +:+ ")"
    end in
  let atomic := OpCode.atomic_op op in
  let size :=
    default "" (assoc (OpCode.size op)
      [(DWORD, "DW"); (WORD, "W"); (HALF, "H"); (BYTE, "B")]) in
  class_name c +:+ mode
    +:+ (if negb (atomic =? INVALID_ATOMIC) then atomic_name atomic else "")
    +:+ size.

Definition opcode_alu (op : Z) (c : Class) : string :=
  let alu := OpCode.alu_op op in
  (if (alu =? SWAP) && bool_decide (c = Alu64) then "B" else "")
    +:+ alu_name alu
    +:+ (if alu =? SWAP then
           if bool_decide (c = Alu)
           then (if (op .& SOURCE_MASK) =? 0 then "LE" else "BE")
           else ""
         else source_name (OpCode.source op)
                +:+ (if bool_decide (c = Alu) then "32" else "")).

Definition opcode_jump (op : Z) (c : Class) : string :=
  let jump := OpCode.jump_op op in
  jump_name jump
    +:+ (if bool_decide (c = Jump32) then "32" else "")
    +:+ (if negb (jump =? EXIT) && negb (jump =? CALL) && negb (jump =? JA)
         then source_name (OpCode.source op) else "").

Definition opcode_to_string (op : Z) : string :=
  let c := OpCode.class op in
  match c with
  | Ld | LdX | St | StX => opcode_load_or_store op c
  | Alu | Alu64 => opcode_alu op c
  | Jump | Jump32 => opcode_jump op c
  end.

Definition register_name (r : Z) : string :=
  if r =? RFP then "rfp" else "r" +:+ pretty r.

(** ** Helper names *)

Definition WINDOWS_FIRST : Z := 0x10000001.

Definition LINUX : list string := [
    "FnUnspec"; "FnMapLookupElem"; "FnMapUpdateElem"; "FnMapDeleteElem";
    "FnProbeRead"; "FnKtimeGetNs"; "FnTracePrintk"; "FnGetPrandomU32";
    "FnGetSmpProcessorId"; "FnSkbStoreBytes"; "FnL3CsumReplace";
    "FnL4CsumReplace"; "FnTailCall"; "FnCloneRedirect"; "FnGetCurrentPidTgid";
    "FnGetCurrentUidGid"; "FnGetCurrentComm"; "FnGetCgroupClassid";
    "FnSkbVlanPush"; "FnSkbVlanPop"; "FnSkbGetTunnelKey"; "FnSkbSetTunnelKey";
    "FnPerfEventRead"; "FnRedirect"; "FnGetRouteRealm"; "FnPerfEventOutput";
    "FnSkbLoadBytes"; "FnGetStackid"; "FnCsumDiff"; "FnSkbGetTunnelOpt";
    "FnSkbSetTunnelOpt"; "FnSkbChangeProto"; "FnSkbChangeType";
    "FnSkbUnderCgroup"; "FnGetHashRecalc"; "FnGetCurrentTask";
    "FnProbeWriteUser"; "FnCurrentTaskUnderCgroup"; "FnSkbChangeTail";
    "FnSkbPullData"; "FnCsumUpdate"; "FnSetHashInvalid"; "FnGetNumaNodeId";
    "FnSkbChangeHead"; "FnXdpAdjustHead"; "FnProbeReadStr";
    "FnGetSocketCookie"; "FnGetSocketUid"; "FnSetHash"; "FnSetsockopt";
    "FnSkbAdjustRoom"; "FnRedirectMap"; "FnSkRedirectMap"; "FnSockMapUpdate";
    "FnXdpAdjustMeta"; "FnPerfEventReadValue"; "FnPerfProgReadValue";
    "FnGetsockopt"; "FnOverrideReturn"; "FnSockOpsCbFlagsSet";
    "FnMsgRedirectMap"; "FnMsgApplyBytes"; "FnMsgCorkBytes"; "FnMsgPullData";
    "FnBind"; "FnXdpAdjustTail"; "FnSkbGetXfrmState"; "FnGetStack";
    "FnSkbLoadBytesRelative"; "FnFibLookup"; "FnSockHashUpdate";
    "FnMsgRedirectHash"; "FnSkRedirectHash"; "FnLwtPushEncap";
    "FnLwtSeg6StoreBytes"; "FnLwtSeg6AdjustSrh"; "FnLwtSeg6Action";
    "FnRcRepeat"; "FnRcKeydown"; "FnSkbCgroupId"; "FnGetCurrentCgroupId";
    "FnGetLocalStorage"; "FnSkSelectReuseport"; "FnSkbAncestorCgroupId";
    "FnSkLookupTcp"; "FnSkLookupUdp"; "FnSkRelease"; "FnMapPushElem";
    "FnMapPopElem"; "FnMapPeekElem"; "FnMsgPushData"; "FnMsgPopData";
    "FnRcPointerRel"; "FnSpinLock"; "FnSpinUnlock"; "FnSkFullsock";
    "FnTcpSock"; "FnSkbEcnSetCe"; "FnGetListenerSock"; "FnSkcLookupTcp";
    "FnTcpCheckSyncookie"; "FnSysctlGetName"; "FnSysctlGetCurrentValue";
    "FnSysctlGetNewValue"; "FnSysctlSetNewValue"; "FnStrtol"; "FnStrtoul";
    "FnSkStorageGet"; "FnSkStorageDelete"; "FnSendSignal";
    "FnTcpGenSyncookie"; "FnSkbOutput"; "FnProbeReadUser";
    "FnProbeReadKernel"; "FnProbeReadUserStr"; "FnProbeReadKernelStr";
    "FnTcpSendAck"; "FnSendSignalThread"; "FnJiffies64";
    "FnReadBranchRecords"; "FnGetNsCurrentPidTgid"; "FnXdpOutput";
    "FnGetNetnsCookie"; "FnGetCurrentAncestorCgroupId"; "FnSkAssign";
    "FnKtimeGetBootNs"; "FnSeqPrintf"; "FnSeqWrite"; "FnSkCgroupId";
    "FnSkAncestorCgroupId"; "FnRingbufOutput"; "FnRingbufReserve";
    "FnRingbufSubmit"; "FnRingbufDiscard"; "FnRingbufQuery"; "FnCsumLevel";
    "FnSkcToTcp6Sock"; "FnSkcToTcpSock"; "FnSkcToTcpTimewaitSock";
    "FnSkcToTcpRequestSock"; "FnSkcToUdp6Sock"; "FnGetTaskStack";
    "FnLoadHdrOpt"; "FnStoreHdrOpt"; "FnReserveHdrOpt"; "FnInodeStorageGet";
    "FnInodeStorageDelete"; "FnDPath"; "FnCopyFromUser"; "FnSnprintfBtf";
    "FnSeqPrintfBtf"; "FnSkbCgroupClassid"; "FnRedirectNeigh"; "FnPerCpuPtr";
    "FnThisCpuPtr"; "FnRedirectPeer"; "FnTaskStorageGet";
    "FnTaskStorageDelete"; "FnGetCurrentTaskBtf"; "FnBprmOptsSet";
    "FnKtimeGetCoarseNs"; "FnImaInodeHash"; "FnSockFromFile"; "FnCheckMtu";
    "FnForEachMapElem"; "FnSnprintf"; "FnSysBpf"; "FnBtfFindByNameKind";
    "FnSysClose"; "FnTimerInit"; "FnTimerSetCallback"; "FnTimerStart";
    "FnTimerCancel"; "FnGetFuncIp"; "FnGetAttachCookie"; "FnTaskPtRegs";
    "FnGetBranchSnapshot"; "FnTraceVprintk"; "FnSkcToUnixSock";
    "FnKallsymsLookupName"; "FnFindVma"; "FnLoop"; "FnStrncmp";
    "FnGetFuncArg"; "FnGetFuncRet"; "FnGetFuncArgCnt"; "FnGetRetval";
    "FnSetRetval"; "FnXdpGetBuffLen"; "FnXdpLoadBytes"; "FnXdpStoreBytes";
    "FnCopyFromUserTask"; "FnSkbSetTstamp"; "FnImaFileHash"; "FnKptrXchg";
    "FnMapLookupPercpuElem"; "FnSkcToMptcpSock"; "FnDynptrFromMem";
    "FnRingbufReserveDynptr"; "FnRingbufSubmitDynptr";
    "FnRingbufDiscardDynptr"; "FnDynptrRead"; "FnDynptrWrite"; "FnDynptrData";
    "FnTcpRawGenSyncookieIpv4"; "FnTcpRawGenSyncookieIpv6";
    "FnTcpRawCheckSyncookieIpv4"; "FnTcpRawCheckSyncookieIpv6";
    "FnKtimeGetTaiNs"; "FnUserRingbufDrain"; "FnCgrpStorageGet";
    "FnCgrpStorageDelete"].

Definition WINDOWS : list string := [
    "WindowsFnMapLookupElem"; "WindowsFnMapUpdateElem";
    "WindowsFnMapDeleteElem"; "WindowsFnMapLookupAndDeleteElem";
    "WindowsFnTailCall"; "WindowsFnGetPrandomU32"; "WindowsFnKtimeGetBootNs";
    "WindowsFnGetSmpProcessorId"; "WindowsFnKtimeGetNs"; "WindowsFnCsumDiff";
    "WindowsFnRingbufOutput"; "WindowsFnTracePrintk2";
    "WindowsFnTracePrintk3"; "WindowsFnTracePrintk4"; "WindowsFnTracePrintk5";
    "WindowsFnMapPushElem"; "WindowsFnMapPopElem"; "WindowsFnMapPeekElem";
    "WindowsFnGetCurrentPidTgid"; "WindowsFnGetCurrentLogonId";
    "WindowsFnIsCurrentAdmin"; "WindowsFnMemcpyS"; "WindowsFnMemcmpS";
    "WindowsFnMemset"; "WindowsFnMemmoveS"; "WindowsFnGetSocketCookie";
    "WindowsFnStrncpyS"; "WindowsFnStrncatS"; "WindowsFnStrnlenS";
    "WindowsFnKtimeGetBootMs"; "WindowsFnKtimeGetMs";
    "WindowsFnPerfEventOutput"; "WindowsFnGetCurrentProcessStartKey";
    "WindowsFnGetCurrentThreadCreateTime"].

(** [builtin::name]. *)
Definition builtin_name (id : Z) : string :=
  match get_z LINUX id with
  | Some name => name
  | None =>
      match (if id <? WINDOWS_FIRST then None else get_z WINDOWS (id - WINDOWS_FIRST)) with
      | Some name => name
      | None => "BuiltinFunc(" +:+ pretty id +:+ ")"
      end
  end.

(** ** [Instruction]'s text *)

Definition instr_load_or_store (i : instruction) : string :=
  let dst := register_name (dst i) in
  let src := register_name (src i) in
  let offset := pretty (offset i) in
  let constant := pretty (constant i) in
  let m := OpCode.mode (opcode i) in
  opcode_to_string (opcode i) +:+ " " +:+
  (if m =? MODE_IMM then "dst: " +:+ dst +:+ " imm: " +:+ constant
   else if m =? MODE_ABS then "imm: " +:+ constant
   else if m =? MODE_IND then
     "dst: " +:+ dst +:+ " src: " +:+ src +:+ " imm: " +:+ constant
   else if (m =? MODE_MEM) || (m =? MODE_MEMSX) then
     "dst: " +:+ dst +:+ " src: " +:+ src +:+ " off: " +:+ offset
       +:+ " imm: " +:+ constant
   else if m =? MODE_ATOMIC then
     "dst: " +:+ dst +:+ " src: " +:+ src +:+ " off: " +:+ offset
   else "").

Definition instr_alu (i : instruction) : string :=
  let op := opcode i in
  opcode_to_string op
    +:+ (if op =? OpCode.alu64 SWAP IMM_SOURCE then pretty (constant i) else "")
    +:+ " dst: " +:+ register_name (dst i) +:+ " "
    +:+ (if OpCode.alu_op op =? SWAP then ""
         else if OpCode.source op =? IMM_SOURCE then "imm: " +:+ pretty (constant i)
         else "src: " +:+ register_name (src i)).

Definition instr_jump (i : instruction) : string :=
  let op := opcode i in
  let text := opcode_to_string op in
  let jump := OpCode.jump_op op in
  if jump =? CALL then
    text +:+ " " +:+
    (if src i =? PSEUDO_CALL then
       (if negb (offset i =? 0) then pretty (offset i) else pretty (constant i))
     else if src i =? PSEUDO_KFUNC_CALL then "Kfunc(" +:+ pretty (constant i) +:+ ")"
     else builtin_name (low_u32 (constant i)))
  else if jump =? JA then
    text +:+ " " +:+
    (if bool_decide (OpCode.class op = Jump32)
     then "imm: " +:+ pretty (constant i)
     else "off: " +:+ pretty (offset i))
  else if jump =? JCOND then
    if src i =? PSEUDO_MAY_GOTO then "JCond may_goto off: " +:+ pretty (offset i)
    else text
  else
    text +:+ " dst: " +:+ register_name (dst i) +:+ " off: " +:+ pretty (offset i)
      +:+ " "
      +:+ (if OpCode.source op =? IMM_SOURCE then "imm: " +:+ pretty (constant i)
           else "src: " +:+ register_name (src i)).

Definition instruction_to_string (i : instruction) : string :=
  let op := opcode i in
  if op =? INVALID_OPCODE then "INVALID"
  else if OpCode.jump_op op =? EXIT then opcode_to_string op
  else if is_load_from_map i then
    let fd := pretty (low_i32 (constant i)) in
    let dst := register_name (dst i) in
    if src i =? PSEUDO_MAP_FD then "LoadMapPtr dst: " +:+ dst +:+ " fd: " +:+ fd
    else "LoadMapValue dst: " +:+ dst +:+ ", fd: " +:+ fd +:+ " off: "
           +:+ pretty (high_u32 (constant i))
  else
    match OpCode.class op with
    | Ld | LdX | St | StX => instr_load_or_store i
    | Alu | Alu64 => instr_alu i
    | Jump | Jump32 => instr_jump i
    end.
