(* ===== verification/CodecProofs.v ===== *)
(** * The encoding and the decoding are inverse

    [encode_decode]: what an instruction encodes to decodes to its canonical
    form. [decode_reencode]: a program whose instructions are stable under
    re-encoding encodes back to the very bytes it was decoded from. Both need
    nothing but the ranges of the machine types. *)

From S2P Require Import Prelude.
From S2P Require Import Asm.
From S2P Require Import AsmText.
From S2P Require Import Codec.

Local Open Scope Z_scope.

(** ** The ranges of an instruction's fields *)

Record in_range (i : instruction) : Prop := {
  range_opcode : is_u 32 (opcode i);
  range_dst : is_u 4 (dst i);
  range_src : is_u 4 (src i);
  range_offset : is_i 16 (offset i);
  range_constant : is_i 64 (constant i);
}.

(** What decoding the encoding of [i] gives: an ALU instruction loses its
    offset, an atomic one carries the operation its immediate names, and the
    immediate of anything but a [ld_imm64] is its low word. *)
Definition canonical_form (i : instruction) : instruction :=
  let op := opcode i in
  let imm := low_i32 (constant i) in
  if is_builtin_call i then Instruction op (dst i) (src i) (offset i) imm
  else if is_alu (OpCode.class op) then Instruction op (dst i) (src i) 0 imm
  else if negb (OpCode.atomic_op op =? INVALID_ATOMIC) then
    Instruction (Z.ldiff op ATOMIC_MASK .| (low_u32 (imm ≪ 8) .& ATOMIC_MASK))
      (dst i) (src i) (offset i) imm
  else if OpCode.is_dword_load op then i
  else Instruction op (dst i) (src i) (offset i) imm.

(** The instructions whose encoding keeps every bit of the slot they were
    decoded from: no stray offset on an ALU operation, no platform tag on a
    helper's ID. *)
Definition stable (i : instruction) : bool :=
  (negb (is_alu (OpCode.class (opcode i))) || (offset i =? 0))
  && (negb (is_builtin_call i) || ((low_u32 (constant i) .& PLATFORM_MASK) =? 0)).

(** ** Bits *)

Lemma forall_u8 (P : Z -> bool) :
  forallb P (seqZ 0 256) = true -> forall op, is_u 8 op -> P op = true.
Proof.
  intros HP op Hop. rewrite forallb_forall in HP. apply HP.
  apply list_elem_of_In, elem_of_seqZ. unfold is_u in Hop. lia.
Qed.

Lemma forall_u4 (P : Z -> bool) :
  forallb P (seqZ 0 16) = true -> forall r, is_u 4 r -> P r = true.
Proof.
  intros HP r Hr. rewrite forallb_forall in HP. apply HP.
  apply list_elem_of_In, elem_of_seqZ. unfold is_u in Hr. lia.
Qed.

(** The bytes of a literal list are bytes. *)
Ltac byte_list := repeat (apply Forall_cons_2; [done|]); apply Forall_nil_2.

(** A fact about an opcode byte: the boolean [P], checked on all 256. *)
Tactic Notation "opcode_fact" constr(P) hyp(Hop) "as" ident(H) :=
  pose proof (forall_u8 P ltac:(vm_compute; reflexivity) _ Hop) as H; cbv beta in H.

(** Masks on bytes whose bits do not meet. *)
Lemma ldiff_lor_land a b m : Z.ldiff (a .| (b .& m)) m = Z.ldiff a m.
Proof.
  apply Z.bits_inj'. intros k Hk. rewrite !Z.ldiff_spec, Z.lor_spec, Z.land_spec.
  destruct (Z.testbit a k), (Z.testbit b k), (Z.testbit m k); done.
Qed.

Lemma land_lor_land a b m m' :
  m .& m' = 0 -> (a .| (b .& m)) .& m' = a .& m'.
Proof.
  intros Hm. apply Z.bits_inj'. intros k Hk.
  pose proof (Z.land_spec m m' k) as Hb. rewrite Hm, Z.bits_0 in Hb.
  rewrite !Z.land_spec, Z.lor_spec, Z.land_spec.
  destruct (Z.testbit a k), (Z.testbit b k), (Z.testbit m k), (Z.testbit m' k); done.
Qed.

Lemma land_ldiff a m m' : m .& m' = 0 -> Z.ldiff a m .& m' = a .& m'.
Proof.
  intros Hm. apply Z.bits_inj'. intros k Hk.
  pose proof (Z.land_spec m m' k) as Hb. rewrite Hm, Z.bits_0 in Hb.
  rewrite !Z.land_spec, Z.ldiff_spec.
  destruct (Z.testbit a k), (Z.testbit m k), (Z.testbit m' k); done.
Qed.

Lemma ldiff_land_split a m : Z.ldiff a m .| (a .& m) = a.
Proof.
  apply Z.bits_inj'. intros k Hk. rewrite Z.lor_spec, Z.ldiff_spec, Z.land_spec.
  destruct (Z.testbit a k), (Z.testbit m k); done.
Qed.

Lemma land_range a m : 0 <= m -> 0 <= a .& m <= m.
Proof.
  intros Hm. assert (0 <= a .& m) by (apply Z.land_nonneg; lia). split; [done|].
  rewrite <- (ldiff_land_split m a) at 2. rewrite (Z.land_comm a m).
  assert (Z.ldiff m a .& (m .& a) = 0) as Hz.
  { apply Z.bits_inj_0. intros k. rewrite !Z.land_spec, Z.ldiff_spec.
    destruct (Z.testbit m k), (Z.testbit a k); done. }
  rewrite <- (Z.lxor_lor _ _ Hz), <- (Z.add_nocarry_lxor _ _ Hz).
  assert (0 <= Z.ldiff m a) by (apply Z.ldiff_nonneg; lia). lia.
Qed.

Section Proofs.
Context `{HostEndian}.

(** ** Fields of a slot *)

Lemma split_registers_registers d s :
  is_u 4 d -> is_u 4 s -> split_registers (registers d s) = (d, s).
Proof.
  intros Hd Hs.
  assert (HP : forall e : bool,
    let P d := forallb (fun s => bool_decide
      (@split_registers e (@registers e d s) = (d, s))) (seqZ 0 16) in
    forallb P (seqZ 0 16) = true) by (intros []; vm_compute; reflexivity).
  specialize (HP target_little). cbv zeta in HP.
  apply (forall_u4 _) with (r := d) in HP; [|done].
  apply (forall_u4 _) with (r := s) in HP; [|done].
  by apply bool_decide_eq_true in HP.
Qed.

Lemma registers_split_registers regs :
  is_u 8 regs ->
  registers (split_registers regs).1 (split_registers regs).2 = regs.
Proof.
  intros Hr.
  assert (HP : forall e : bool,
    forallb (fun regs => @registers e (@split_registers e regs).1
               (@split_registers e regs).2 =? regs) (seqZ 0 256) = true)
    by (intros []; vm_compute; reflexivity).
  specialize (HP target_little). apply (forall_u8 _) with (op := regs) in HP; [|done].
  by apply Z.eqb_eq in HP.
Qed.

Lemma to_ne_bytes_wraps w n z :
  w = 8 * Z.of_nat n -> to_ne_bytes n (wraps w z) = to_ne_bytes n z.
Proof.
  intros ->. rewrite <- (to_from_ne_bytes (to_ne_bytes n z)), length_to_ne_bytes,
    from_to_ne_bytes by auto with sda.
  rewrite <- (to_from_ne_bytes (to_ne_bytes n (wraps _ z))), length_to_ne_bytes,
    from_to_ne_bytes by auto with sda.
  by rewrite wrapu_wraps by lia.
Qed.

Lemma to_ne_bytes_from w n bs :
  bytes_ok bs -> length bs = n -> w = 8 * Z.of_nat n ->
  to_ne_bytes n (wraps w (from_ne_bytes bs)) = bs.
Proof. intros Hb <- ->. rewrite to_ne_bytes_wraps by done. by apply to_from_ne_bytes. Qed.

(** ** Decoding, then encoding *)

Lemma slot_Some raw k s :
  slot raw k = Some s ->
  length s = INSTRUCTION_SIZE /\ take INSTRUCTION_SIZE (drop (k * INSTRUCTION_SIZE) raw) = s.
Proof. unfold slot. intros Hs. case_bool_decide; naive_solver. Qed.

Lemma raw_fields_Some s i :
  raw_fields s = Some i -> bytes_ok s ->
  is_u 8 (opcode i) /\ is_i 16 (offset i) /\ is_i 32 (constant i)
  /\ s = opcode i :: registers (dst i) (src i)
           :: to_ne_bytes 2 (offset i) ++ to_ne_bytes 4 (constant i).
Proof.
  intros Hf Hs. unfold raw_fields in Hf.
  destruct s as [|op [|regs [|o0 [|o1 [|i0 [|i1 [|i2 [|i3 [|]]]]]]]]]; try done.
  destruct (split_registers regs) as [d r] eqn:Er. injection Hf as <-. simpl.
  rewrite !Forall_cons in Hs. destruct_and!.
  assert (bytes_ok [o0; o1]) by byte_list.
  assert (bytes_ok [i0; i1; i2; i3]) by byte_list.
  split_and!; [done|apply wraps_range; lia|apply wraps_range; lia|].
  pose proof (registers_split_registers regs) as Hr. rewrite Er in Hr. simpl in Hr.
  rewrite Hr by done.
  rewrite (to_ne_bytes_from 16 2 [o0; o1]), (to_ne_bytes_from 32 4 [i0; i1; i2; i3]); done.
Qed.

(** The operation of an extended ALU opcode goes back to its wire form. *)
Definition extends_back (ext base wire op : Z) : bool :=
  let op' := OpCode.with_alu_op op ext in
  negb (is_alu (OpCode.class op) && (OpCode.alu_op op =? base))
  || (is_alu (OpCode.class op')
      && bool_decide (alu_wire (OpCode.alu_op op') = (base, wire))
      && (OpCode.with_alu_op op' base =? op)
      && negb (OpCode.jump_op op' =? CALL)
      && negb (op' =? INVALID_OPCODE)
      && negb (OpCode.is_dword_load op')).

Lemma wire_fields_extended op ext base wire d s c :
  is_u 8 op -> is_alu (OpCode.class op) = true -> OpCode.alu_op op = base ->
  extends_back ext base wire op = true ->
  wire_fields (Instruction (OpCode.with_alu_op op ext) d s 0 c)
    = Ok (op, wire, low_i32 c)
  /\ OpCode.with_alu_op op ext <> INVALID_OPCODE
  /\ OpCode.is_dword_load (OpCode.with_alu_op op ext) = false.
Proof.
  unfold extends_back. intros Hop Halu Hbase HE. rewrite Halu, Hbase, Z.eqb_refl in HE.
  simpl in HE. rewrite !andb_true_iff in HE. destruct HE as [[[[[Ha Hw] Hb] Hj] Hi] Hd].
  apply bool_decide_eq_true in Hw. apply Z.eqb_eq in Hb.
  apply negb_true_iff in Hj, Hi, Hd. apply Z.eqb_neq in Hi.
  unfold wire_fields, is_builtin_call. simpl. rewrite Hj. simpl.
  rewrite Ha, Hw, andb_false_r, Hb. done.
Qed.

Lemma low_i32_id c : is_i 32 c -> low_i32 c = c.
Proof.
  intros Hc. unfold low_i32, low_u32. rewrite wraps_wrapu by lia. apply wraps_id; [lia|done].
Qed.

Lemma ldiff_land_0 a m : a .& m = 0 -> Z.ldiff a m = a.
Proof.
  intros Hz. rewrite <- (ldiff_land_split a m) at 2. by rewrite Hz, Z.lor_0_r.
Qed.

(** The opcode of a decoded atomic store: its low byte is the wire's. *)
Lemma atomic_facts op y :
  is_u 8 op -> OpCode.class op = StX -> OpCode.mode op = MODE_ATOMIC ->
  let op' := op .| (y .& ATOMIC_MASK) in
  OpCode.class op' = StX /\ OpCode.mode op' = MODE_ATOMIC
  /\ Z.ldiff op' ATOMIC_MASK = op
  /\ OpCode.atomic_op op' <> INVALID_ATOMIC
  /\ op' <> INVALID_OPCODE
  /\ OpCode.is_dword_load op' = false.
Proof.
  intros Hop Hc Hm op'.
  assert (Hc' : OpCode.class op' = StX).
  { unfold OpCode.class, op'. rewrite land_lor_land; [exact Hc|done]. }
  assert (Hm' : OpCode.mode op' = MODE_ATOMIC).
  { unfold OpCode.mode in *. rewrite Hc', Hc in *. unfold op'.
    rewrite land_lor_land; done. }
  split_and!; [done|done| | | |].
  - unfold op'. rewrite ldiff_lor_land.
    opcode_fact (fun op => Z.ldiff op ATOMIC_MASK =? op) Hop as Hl. by apply Z.eqb_eq.
  - unfold OpCode.atomic_op. rewrite Hc', Hm'. simpl.
    pose proof (land_range op' ATOMIC_MASK). unfold ATOMIC_MASK, INVALID_ATOMIC in *. lia.
  - intros E. rewrite E in Hc'. discriminate Hc'.
  - unfold OpCode.is_dword_load. apply Z.eqb_neq. intros E. rewrite E in Hc'.
    discriminate Hc'.
Qed.

Lemma not_builtin op d s off c :
  is_jump (OpCode.class op) = false -> is_builtin_call (Instruction op d s off c) = false.
Proof. intros Hj. unfold is_builtin_call, OpCode.jump_op. simpl. by rewrite Hj. Qed.

(** The case analysis of an ALU opcode with the offset that extends it. *)
Lemma alu_extended_Some alu off ext :
  alu_extended alu off = Some ext ->
  (alu = DIV /\ off = 1 /\ ext = SDIV) \/ (alu = MOD /\ off = 1 /\ ext = SMOD)
  \/ (alu = MOV /\ off = 8 /\ ext = MOVSX8) \/ (alu = MOV /\ off = 16 /\ ext = MOVSX16)
  \/ (alu = MOV /\ off = 32 /\ ext = MOVSX32).
Proof.
  unfold alu_extended. intros HE.
  repeat case_match; rewrite ?andb_true_iff, ?Z.eqb_eq in *; simplify_eq; naive_solver.
Qed.

Lemma alu_extended_wire op off ext d s c :
  is_u 8 op -> is_alu (OpCode.class op) = true ->
  alu_extended (OpCode.alu_op op) off = Some ext ->
  wire_fields (Instruction (OpCode.with_alu_op op ext) d s 0 c) = Ok (op, off, low_i32 c)
  /\ OpCode.with_alu_op op ext <> INVALID_OPCODE
  /\ OpCode.is_dword_load (OpCode.with_alu_op op ext) = false.
Proof.
  intros Hop Halu Hext. apply alu_extended_Some in Hext.
  destruct Hext as [Hx|[Hx|[Hx|[Hx|Hx]]]]; destruct Hx as (Ha & -> & ->);
    (eapply wire_fields_extended; [exact Hop|exact Halu|exact Ha|]).
  - opcode_fact (extends_back SDIV DIV 1) Hop as HE. exact HE.
  - opcode_fact (extends_back SMOD MOD 1) Hop as HE. exact HE.
  - opcode_fact (extends_back MOVSX8 MOV 8) Hop as HE. exact HE.
  - opcode_fact (extends_back MOVSX16 MOV 16) Hop as HE. exact HE.
  - opcode_fact (extends_back MOVSX32 MOV 32) Hop as HE. exact HE.
Qed.

Lemma wire_fields_normalise f i :
  normalise f = Ok i -> stable i = true ->
  is_u 8 (opcode f) -> is_i 32 (constant f) ->
  wire_fields i = Ok (opcode f, offset f, constant f)
  /\ opcode i <> INVALID_OPCODE
  /\ dst i = dst f /\ src i = src f /\ constant i = constant f
  /\ OpCode.is_dword_load (opcode i) = OpCode.is_dword_load (opcode f).
Proof.
  intros Hn Hst Hop Hc. unfold normalise in Hn.
  assert (opcode f <> INVALID_OPCODE) as Hinv
    by (unfold is_u, INVALID_OPCODE in *; lia).
  destruct (is_builtin_call f) eqn:Hb.
  { case_match; [done|]. injection Hn as <-. unfold wire_fields. rewrite Hb.
    unfold stable in Hst. rewrite Hb in Hst. apply andb_true_iff in Hst as [_ Ht].
    simpl in Ht. rewrite Ht. apply Z.eqb_eq in Ht.
    rewrite ldiff_land_0 by done. split_and!; auto.
    do 2 f_equal. apply low_i32_id, Hc. }
  destruct f as [op d s off c]; simpl in *.
  destruct (is_alu (OpCode.class op)) eqn:Halu.
  { opcode_fact (fun op => negb (is_alu (OpCode.class op)) || negb (OpCode.is_dword_load op)) Hop
      as Hnd. simpl in Hnd. rewrite Halu in Hnd. simpl in Hnd. apply negb_true_iff in Hnd.
    destruct (alu_extended (OpCode.alu_op op) off) as [ext|] eqn:Hext.
    - injection Hn as <-. simpl. rewrite Hnd.
      destruct (alu_extended_wire op off ext d s c) as (Hw & Hi & Hd); [done..|].
      rewrite Hw, (low_i32_id c Hc). auto 10.
    - injection Hn as <-. unfold stable in Hst. simpl in Hst. rewrite Halu in Hst.
      apply andb_true_iff in Hst as [Hoff _]. apply Z.eqb_eq in Hoff as ->.
      opcode_fact (fun op => negb (is_alu (OpCode.class op))
        || bool_decide (alu_wire (OpCode.alu_op op) = (OpCode.alu_op op, 0))
           && (OpCode.with_alu_op op (OpCode.alu_op op) =? op)) Hop as Hw.
      rewrite Halu in Hw. apply andb_true_iff in Hw as [Hw Hback].
      apply bool_decide_eq_true in Hw. apply Z.eqb_eq in Hback.
      unfold wire_fields. rewrite Hb. simpl. rewrite Halu, Hw. simpl.
      rewrite Hback, (low_i32_id c Hc). auto 10. }
  destruct (bool_decide (OpCode.class op = StX) && (OpCode.mode op =? MODE_ATOMIC)) eqn:Hat.
  - apply andb_true_iff in Hat as [Hcl Hmode].
    apply bool_decide_eq_true in Hcl. apply Z.eqb_eq in Hmode. injection Hn as <-. simpl.
    destruct (atomic_facts op (low_u32 (c ≪ 8)) Hop Hcl Hmode) as (Ec & Em & El & Ea & Ei & Ed).
    unfold wire_fields. rewrite not_builtin by (rewrite Ec; done). simpl.
    rewrite Ec. simpl. apply Z.eqb_neq in Ea. rewrite Ea. simpl.
    rewrite El, (low_i32_id c Hc), Ed. split_and!; auto.
    destruct (OpCode.is_dword_load op) eqn:Hd; [|done].
    apply Z.eqb_eq in Hd. subst op. discriminate Hcl.
  - injection Hn as <-. unfold wire_fields. rewrite Hb. simpl. rewrite Halu.
    unfold OpCode.atomic_op. rewrite Hat. simpl. rewrite (low_i32_id c Hc). auto 10.
Qed.

Lemma stable_constant op d s off c c' :
  OpCode.is_dword_load op = true ->
  stable (Instruction op d s off c) = stable (Instruction op d s off c').
Proof. intros Hd. apply Z.eqb_eq in Hd as ->. reflexivity. Qed.

Lemma dword_join high low :
  is_u 32 low -> is_i 32 high ->
  low_u32 ((high ≪ 32) .| low) = low /\ high_u32 ((high ≪ 32) .| low) = wrapu 32 high.
Proof.
  intros Hl Hh. unfold is_u in Hl. rewrite lor_shiftl_add by done.
  unfold high_u32, low_u32, wrapu. rewrite Z.shiftr_div_pow2 by lia.
  rewrite Z.add_comm, Z.mod_add, Z.mod_small by lia.
  rewrite Z.div_add, Z.div_small, Z.add_0_l by lia. done.
Qed.

Lemma encode_dword op d s off c :
  OpCode.is_dword_load op = true ->
  encode (Instruction op d s off c) =
    Ok (op :: registers d s :: to_ne_bytes 2 off ++ to_ne_bytes 4 (low_i32 c)
          ++ to_ne_bytes 4 0 ++ to_ne_bytes 4 (high_u32 c)).
Proof. intros Hd. apply Z.eqb_eq in Hd as ->. reflexivity. Qed.

Lemma encode_wire i op off imm :
  wire_fields i = Ok (op, off, imm) -> opcode i <> INVALID_OPCODE -> is_u 8 op ->
  OpCode.is_dword_load op = false ->
  encode i = Ok (op :: registers (dst i) (src i) :: to_ne_bytes 2 off ++ to_ne_bytes 4 imm).
Proof.
  intros Hw Hi Hop Hd. unfold encode. apply Z.eqb_neq in Hi. rewrite Hi, Hw. simpl.
  unfold is_u in Hop. destruct (Z.ltb_spec 255 op); [lia|]. by rewrite Hd, app_nil_r.
Qed.

(** A whole second slot whose first half is zero. *)
Lemma second_slot s :
  bytes_ok s -> length s = INSTRUCTION_SIZE -> from_ne_bytes (take 4 s) = 0 ->
  s = to_ne_bytes 4 0 ++ to_ne_bytes 4 (from_ne_bytes (drop 4 s)).
Proof.
  intros Hb Hl Hz. unfold INSTRUCTION_SIZE in Hl.
  rewrite <- (take_drop 4 s) at 1. f_equal.
  - rewrite <- Hz. replace 4%nat with (length (take 4 s)) at 2 by (rewrite length_take; lia).
    symmetry. by apply to_from_ne_bytes, Forall_take.
  - replace 4%nat with (length (drop 4 s)) at 2 by (rewrite length_drop; lia).
    symmetry. by apply to_from_ne_bytes, Forall_drop.
Qed.

(** One instruction: if it is stable, its encoding is the slots it was read
    from. *)
Lemma decode_one_encode raw i :
  bytes_ok raw -> decode_one raw = Ok i -> stable i = true ->
  (width i * INSTRUCTION_SIZE <= length raw)%nat
  /\ encode i = Ok (take (width i * INSTRUCTION_SIZE) raw).
Proof.
  intros Hraw Hd Hst. unfold decode_one in Hd. inv_ok.
  apply bind_Some in E as (s0 & Hs0 & Hf). apply slot_Some in Hs0 as [Hl0 Hs0].
  simpl in Hs0. rewrite drop_0 in Hs0.
  assert (bytes_ok s0) as Hb0 by (rewrite <- Hs0; by apply Forall_take).
  apply raw_fields_Some in Hf as (Hop & Hoff & Hc & Es0); [|done].
  assert (8 <= length raw)%nat as Hlen
    by (rewrite <- Hs0, length_take in Hl0; unfold INSTRUCTION_SIZE in Hl0; lia).
  destruct (OpCode.is_dword_load (opcode x)) eqn:Hdw; simpl in Hd.
  - inv_ok. case_match eqn:Hz; [done|]. injection Hd as <-.
    apply negb_false_iff, Z.eqb_eq in Hz.
    apply slot_Some in E as [Hl1 Hs1]. rename x1 into s1.
    assert (bytes_ok s1) as Hb1 by (rewrite <- Hs1; by apply Forall_take, Forall_drop).
    assert (x0 = x) as ->
      by (destruct x; apply Z.eqb_eq in Hdw; simpl in Hdw; subst; by injection E0).
    unfold width. simpl opcode. rewrite Hdw. split.
    + rewrite <- Hs1, length_take, length_drop in Hl1. unfold INSTRUCTION_SIZE in *. lia.
    + rewrite encode_dword by done. unfold low_i32.
      edestruct (dword_join (wraps 32 (from_ne_bytes (drop 4 s1))) (low_u32 (constant x)))
        as [-> ->]; [apply wrapu_range; lia|apply wraps_range; lia|].
      fold (low_i32 (constant x)). rewrite (low_i32_id _ Hc).
      replace (take (2 * INSTRUCTION_SIZE) raw) with (s0 ++ s1)
        by (rewrite <- Hs0, <- Hs1; apply (take_take_drop raw 8 8)).
      rewrite Es0 at 1. rewrite (second_slot s1 Hb1 Hl1 Hz) at 2.
      rewrite wrapu_wraps by lia.
      rewrite <- (to_ne_bytes_wraps 32 4 (wrapu 32 _)), wraps_wrapu, to_ne_bytes_wraps by lia.
      simpl. by rewrite <- app_assoc.
  - injection Hd as <-.
    destruct (wire_fields_normalise x x0 E0 Hst Hop Hc) as (Hw & Hi & Hds & Hsr & _ & Hdd).
    unfold width. rewrite Hdd, Hdw, Nat.mul_1_l. split; [done|].
    rewrite (encode_wire _ _ _ _ Hw Hi Hop Hdw), Hds, Hsr. by rewrite Hs0, Es0.
Qed.

(** ** Encoding, then decoding *)

Lemma land_ldiff_lor a b m : (Z.ldiff a m .| (b .& m)) .& m = b .& m.
Proof.
  apply Z.bits_inj'. intros k Hk. rewrite !Z.land_spec, Z.lor_spec, Z.ldiff_spec, Z.land_spec.
  destruct (Z.testbit a k), (Z.testbit b k), (Z.testbit m k); done.
Qed.

Lemma class_with_alu_op op b :
  OpCode.class (OpCode.with_alu_op op (b .& ALU_MASK)) = OpCode.class op.
Proof.
  unfold OpCode.class, OpCode.with_alu_op. rewrite land_lor_land by done.
  by rewrite land_ldiff by done.
Qed.

Lemma alu_op_with_alu_op op b :
  is_alu (OpCode.class op) = true ->
  OpCode.alu_op (OpCode.with_alu_op op (b .& ALU_MASK)) = b .& ALU_MASK.
Proof.
  intros Ha. unfold OpCode.alu_op. rewrite class_with_alu_op, Ha.
  apply land_ldiff_lor.
Qed.

Lemma with_alu_op_twice op b c :
  OpCode.with_alu_op (OpCode.with_alu_op op (b .& ALU_MASK)) c = OpCode.with_alu_op op c.
Proof.
  unfold OpCode.with_alu_op. rewrite ldiff_lor_land. f_equal.
  apply Z.bits_inj'. intros k Hk. rewrite !Z.ldiff_spec.
  destruct (Z.testbit op k), (Z.testbit ALU_MASK k); done.
Qed.

(** An extended operation and its wire form. *)
Lemma alu_wire_cases alu :
  (exists base wire, alu_wire alu = (base, wire) /\ base .& ALU_MASK = base
     /\ wire <> 0 /\ is_i 16 wire /\ alu_extended base wire = Some alu)
  \/ alu_wire alu = (alu, 0).
Proof.
  unfold alu_wire. repeat case_match; rewrite ?Z.eqb_eq in *; subst;
    try (right; reflexivity); left; do 2 eexists; split_and!;
    try reflexivity; try discriminate; unfold is_i; lia.
Qed.

Lemma alu_extended_0 alu : alu_extended alu 0 = None.
Proof. unfold alu_extended. by rewrite !andb_false_r. Qed.

Lemma platform_untagged id :
  is_u 32 id -> id .& PLATFORM_MASK = 0 -> 0 <= wraps 32 id ->
  wraps 32 id ≫ PLATFORM_SHIFT = 0.
Proof.
  intros Hid Hz Hpos. destruct (wraps_nonneg 32 id) as [-> Hlt]; [lia|done|done|].
  assert (Hs : (id .& PLATFORM_MASK) ≫ PLATFORM_SHIFT = 0) by by rewrite Hz.
  rewrite Z.shiftr_land in Hs. change (PLATFORM_MASK ≫ PLATFORM_SHIFT) with (Z.ones 3) in Hs.
  rewrite Z.land_ones in Hs by lia. rewrite Z.mod_small in Hs; [done|].
  unfold is_u, PLATFORM_SHIFT in *. rewrite Z.shiftr_div_pow2 by lia.
  split; [apply Z.div_pos; lia|]. apply Z.div_lt_upper_bound; lia.
Qed.

Lemma raw_fields_bytes op d s off imm rest :
  is_u 4 d -> is_u 4 s ->
  slot (op :: registers d s :: to_ne_bytes 2 off ++ to_ne_bytes 4 imm ++ rest) 0
    ≫= raw_fields = Some (Instruction op d s (wraps 16 off) (wraps 32 imm)).
Proof.
  intros Hd Hs. pose proof (length_to_ne_bytes 2 off) as H2.
  pose proof (length_to_ne_bytes 4 imm) as H4.
  pose proof (from_to_ne_bytes 2 off) as F2. pose proof (from_to_ne_bytes 4 imm) as F4.
  destruct (to_ne_bytes 2 off) as [|o0 [|o1 [|]]]; try done.
  destruct (to_ne_bytes 4 imm) as [|i0 [|i1 [|i2 [|i3 [|]]]]]; try done.
  simpl. rewrite split_registers_registers by done. simpl.
  rewrite F2, F4. by rewrite !wraps_wrapu.
Qed.

(** What [normalise] makes of the wire form of [i]. *)
Definition wire_back (i : instruction) (op off imm : Z) : Prop :=
  normalise (Instruction op (dst i) (src i) (wraps 16 off) (wraps 32 imm)) = Ok (canonical_form i)
  /\ OpCode.is_dword_load op = false.

Lemma wraps_low_i32 c : wraps 32 (low_i32 c) = low_i32 c.
Proof. apply wraps_id, wraps_range; lia. Qed.

Lemma wire_back_builtin i op off imm :
  in_range i -> wire_fields i = Ok (op, off, imm) -> is_builtin_call i = true ->
  OpCode.is_dword_load (opcode i) = false -> wire_back i op off imm.
Proof.
  intros [Hop Hd Hs Hoff Hc] Hw Hb Hdw. unfold wire_back, canonical_form.
  unfold wire_fields in Hw. rewrite Hb in *.
  case_match eqn:Ht; [|done]. injection Hw as <- <- <-. apply Z.eqb_eq in Ht.
  rewrite ldiff_land_0 by done. fold (low_i32 (constant i)).
  rewrite wraps_low_i32, (wraps_id 16 (offset i)) by (lia || done).
  split; [|done]. unfold normalise. simpl.
  replace (is_builtin_call _) with true by (destruct i; symmetry; exact Hb).
  destruct (Z.leb_spec 0 (low_i32 (constant i))); [|done].
  unfold low_i32 in *. rewrite platform_untagged; [done|apply wrapu_range; lia|done|done].
Qed.

Lemma wire_back_alu i op off imm :
  wire_fields i = Ok (op, off, imm) -> is_builtin_call i = false ->
  OpCode.is_dword_load (opcode i) = false -> is_alu (OpCode.class (opcode i)) = true ->
  wire_back i op off imm.
Proof.
  intros Hw Hb Hdw Halu. unfold wire_back, canonical_form. unfold wire_fields in Hw.
  rewrite Hb, Halu in *. pose proof (wraps_low_i32 (constant i)) as Himm.
  destruct i as [o d s c0 c]. simpl in *.
  assert (Eo : OpCode.alu_op o = o .& ALU_MASK) by (unfold OpCode.alu_op; by rewrite Halu).
  destruct (alu_wire_cases (OpCode.alu_op o)) as
    [(base & wire & Ew & Hbase & Hwire & Hwi & Hext)|Ew]; rewrite Ew in Hw.
  - apply Z.eqb_neq in Hwire as Hwb. rewrite Hwb in Hw. simpl in Hw.
    destruct (Z.eqb_spec c0 0) as [->|]; [simpl in Hw|done]. injection Hw as <- <- <-.
    rewrite <- Hbase in Hext |- *. unfold normalise. simpl.
    rewrite not_builtin by (rewrite class_with_alu_op; by destruct (OpCode.class o)).
    rewrite class_with_alu_op, Halu, alu_op_with_alu_op by done.
    rewrite wraps_id, Hext by (lia || done). rewrite with_alu_op_twice, Himm. split.
    + unfold OpCode.with_alu_op. by rewrite Eo, ldiff_land_split.
    + apply Z.eqb_neq. intros E. pose proof (class_with_alu_op o base) as Ec.
      rewrite E in Ec. rewrite <- Ec in Halu. discriminate Halu.
  - simpl in Hw. injection Hw as <- <- <-. unfold OpCode.with_alu_op.
    rewrite Eo, ldiff_land_split, Himm. split; [|done].
    unfold normalise. simpl. change (wraps 16 0) with 0.
    rewrite not_builtin by (by destruct (OpCode.class o)).
    by rewrite Halu, alu_extended_0.
Qed.

Lemma wire_back_plain i op off imm :
  in_range i -> wire_fields i = Ok (op, off, imm) -> is_builtin_call i = false ->
  OpCode.is_dword_load (opcode i) = false -> is_alu (OpCode.class (opcode i)) = false ->
  OpCode.atomic_op (opcode i) = INVALID_ATOMIC -> wire_back i op off imm.
Proof.
  intros [Hop Hd Hs Hoff Hc] Hw Hb Hdw Halu Hat. unfold wire_back, canonical_form.
  unfold wire_fields in Hw. rewrite Hb, Halu, Hat in *. simpl in *.
  injection Hw as <- <- <-.
  rewrite Hdw, wraps_low_i32, (wraps_id 16 (offset i)) by (lia || done). split; [|done].
  unfold normalise. simpl.
  replace (is_builtin_call _) with false by (destruct i; symmetry; exact Hb).
  rewrite Halu. case_match eqn:Hcm; [|done]. exfalso.
  unfold OpCode.atomic_op in Hat. rewrite Hcm in Hat.
  pose proof (land_range (opcode i) ATOMIC_MASK).
  unfold ATOMIC_MASK, INVALID_ATOMIC in *. lia.
Qed.

Lemma wire_back_atomic i op off imm :
  in_range i -> wire_fields i = Ok (op, off, imm) -> is_builtin_call i = false ->
  is_alu (OpCode.class (opcode i)) = false ->
  OpCode.atomic_op (opcode i) <> INVALID_ATOMIC -> wire_back i op off imm.
Proof.
  intros [Hop Hd Hs Hoff Hc] Hw Hb Halu Hat%Z.eqb_neq. unfold wire_back, canonical_form.
  unfold wire_fields in Hw. rewrite Hb, Halu, Hat in *. simpl in *.
  injection Hw as <- <- <-. rewrite wraps_low_i32, (wraps_id 16 (offset i)) by (lia || done).
  unfold OpCode.atomic_op in Hat. case_match eqn:Hcm; [|done].
  apply andb_true_iff in Hcm as [Hcl Hmo].
  apply bool_decide_eq_true in Hcl. apply Z.eqb_eq in Hmo.
  assert (Hcl' : OpCode.class (Z.ldiff (opcode i) ATOMIC_MASK) = StX)
    by (unfold OpCode.class in *; by rewrite land_ldiff).
  assert (Hmo' : OpCode.mode (Z.ldiff (opcode i) ATOMIC_MASK) = MODE_ATOMIC)
    by (unfold OpCode.mode in *; rewrite Hcl, Hcl' in *; by rewrite land_ldiff).
  split.
  - unfold normalise. simpl. rewrite not_builtin by (by rewrite Hcl'). by rewrite Hcl', Hmo'.
  - apply Z.eqb_neq. intros E. rewrite E in Hcl'. discriminate Hcl'.
Qed.

Lemma normalise_wire i op off imm :
  in_range i -> wire_fields i = Ok (op, off, imm) ->
  OpCode.is_dword_load (opcode i) = false ->
  normalise (Instruction op (dst i) (src i) (wraps 16 off) (wraps 32 imm))
    = Ok (canonical_form i)
  /\ OpCode.is_dword_load op = false.
Proof.
  intros Hi Hw Hdw. change (wire_back i op off imm).
  destruct (is_builtin_call i) eqn:Hb; [by apply wire_back_builtin|].
  destruct (is_alu (OpCode.class (opcode i))) eqn:Halu; [by apply wire_back_alu|].
  destruct (decide (OpCode.atomic_op (opcode i) = INVALID_ATOMIC));
    [by apply wire_back_plain|by apply wire_back_atomic].
Qed.

Lemma dword_split c : is_i 64 c -> (wraps 32 (high_u32 c) ≪ 32) .| low_u32 c = c.
Proof.
  intros Hc. assert (is_u 32 (low_u32 c)) as Hl by (apply wrapu_range; lia).
  rewrite lor_shiftl_add by done. unfold high_u32, low_u32.
  rewrite wraps_wrapu, Z.shiftr_div_pow2 by lia.
  rewrite wraps_id; [|lia|].
  - unfold wrapu. pose proof (Z.div_mod c (2 ^ 32)). lia.
  - unfold is_i in *. split; [apply Z.div_le_lower_bound; lia|].
    apply Z.div_lt_upper_bound; lia.
Qed.

Lemma slot_app s0 s1 rest :
  length s0 = INSTRUCTION_SIZE -> length s1 = INSTRUCTION_SIZE ->
  slot (s0 ++ s1 ++ rest) 1 = Some s1.
Proof.
  intros H0 H1. unfold slot.
  rewrite Nat.mul_1_l, <- H0, drop_app_length, H0, <- H1, take_app_length, H1.
  by rewrite bool_decide_true.
Qed.

Lemma registers_u8 d s : is_u 4 d -> is_u 4 s -> u8 (registers d s).
Proof.
  intros Hd Hs.
  assert (HP : forall e : bool,
    let P d := forallb (fun s => bool_decide (is_u 8 (@registers e d s))) (seqZ 0 16) in
    forallb P (seqZ 0 16) = true) by (intros []; vm_compute; reflexivity).
  specialize (HP target_little). cbv zeta in HP.
  apply (forall_u4 _) with (r := d) in HP; [|done].
  apply (forall_u4 _) with (r := s) in HP; [|done].
  by apply bool_decide_eq_true in HP.
Qed.

Lemma decode_one_dword op d s off c rest :
  OpCode.is_dword_load op = true ->
  is_u 4 d -> is_u 4 s -> is_i 16 off -> is_i 64 c ->
  decode_one (op :: registers d s :: to_ne_bytes 2 off ++ to_ne_bytes 4 (low_i32 c)
                ++ (to_ne_bytes 4 0 ++ to_ne_bytes 4 (high_u32 c)) ++ rest)
    = Ok (Instruction op d s off c).
Proof.
  intros Hdw Hd Hs Hoff Hc. unfold decode_one.
  rewrite raw_fields_bytes by done. simpl.
  set (s1 := to_ne_bytes 4 0 ++ to_ne_bytes 4 (high_u32 c)).
  rewrite (app_assoc (to_ne_bytes 2 off)).
  pose proof (slot_app (op :: registers d s :: to_ne_bytes 2 off ++ to_ne_bytes 4 (low_i32 c))
    s1 rest) as Hslot. rewrite <- !app_comm_cons in Hslot.
  rewrite Hslot by (unfold s1; simpl; by rewrite ?length_app, ?length_to_ne_bytes).
  apply Z.eqb_eq in Hdw as ->. simpl. unfold s1.
  rewrite take_app_length', drop_app_length', !from_to_ne_bytes by by rewrite length_to_ne_bytes.
  simpl. rewrite wraps_wrapu by lia. rewrite (wraps_id 16) by (lia || done).
  unfold low_i32 at 1. rewrite (wraps_id 32 (wraps 32 _)) by (lia || (apply wraps_range; lia)).
  do 2 f_equal. rewrite <- (dword_split c Hc) at 3. f_equal.
  unfold low_u32. rewrite wrapu_wraps, wrapu_wrapu; lia.
Qed.

Lemma wire_fields_nonneg i op off imm :
  is_u 32 (opcode i) -> wire_fields i = Ok (op, off, imm) -> 0 <= op.
Proof.
  unfold is_u. intros Ho Hw. unfold wire_fields in Hw.
  repeat (case_match; simplify_eq; try lia).
  - apply Z.lor_nonneg. split; [apply Z.ldiff_nonneg; lia|].
    assert (0 <= OpCode.alu_op (opcode i)).
    { unfold OpCode.alu_op. case_match; [|done]. apply Z.land_nonneg. lia. }
    unfold alu_wire in *. repeat case_match; simplify_eq; done.
  - apply Z.ldiff_nonneg. lia.
Qed.

Lemma canonical_form_dword i :
  OpCode.is_dword_load (opcode (canonical_form i)) = OpCode.is_dword_load (opcode i).
Proof.
  unfold canonical_form. repeat case_match; try done. simpl.
  unfold OpCode.atomic_op in *. destruct (bool_decide (OpCode.class (opcode i) = StX)) eqn:E;
    [|done]. apply bool_decide_eq_true in E.
  transitivity false; [|symmetry]; apply Z.eqb_neq; intros Eq.
  - apply (f_equal OpCode.class) in Eq. revert Eq. unfold OpCode.class in *.
    rewrite land_lor_land, land_ldiff by done. rewrite E. discriminate.
  - rewrite Eq in E. discriminate E.
Qed.

(** One instruction: its encoding is whole slots, and decodes to its
    canonical form whatever follows. *)
Lemma encode_decode_one i bs :
  in_range i -> encode i = Ok bs ->
  length bs = (width i * INSTRUCTION_SIZE)%nat /\ bytes_ok bs
  /\ width (canonical_form i) = width i
  /\ forall rest, decode_one (bs ++ rest) = Ok (canonical_form i).
Proof.
  intros Hr Hen. pose proof Hr as [Hop Hd Hs Hoff Hc].
  pose proof (registers_u8 _ _ Hd Hs) as Hreg.
  destruct (OpCode.is_dword_load (opcode i)) eqn:Hdw.
  - destruct i as [op d s off c]. simpl in *. rewrite encode_dword in Hen by done.
    injection Hen as <-.
    assert (canonical_form (Instruction op d s off c) = Instruction op d s off c) as Ec
      by (by apply Z.eqb_eq in Hdw as ->).
    rewrite Ec. unfold width. simpl opcode. rewrite Hdw. split_and!.
    + simpl. by rewrite !length_app, !length_to_ne_bytes.
    + apply Z.eqb_eq in Hdw as ->.
      repeat first [apply Forall_app_2 | apply Forall_cons_2 | apply to_ne_bytes_ok]; done.
    + done.
    + intros rest. rewrite <- !app_comm_cons, <- (app_assoc (to_ne_bytes 2 off)),
        <- (app_assoc (to_ne_bytes 4 (low_i32 c))).
      by apply decode_one_dword.
  - unfold encode in Hen. case_match eqn:Hi; [done|]. inv_ok.
    destruct x as [[op off] imm]. destruct (Z.ltb_spec 255 op) as [|Hlt]; [done|].
    destruct (normalise_wire i op off imm Hr E Hdw) as [Hn Hdw']. rewrite Hdw' in Hen.
    rewrite app_nil_r in Hen. injection Hen as <-.
    pose proof (wire_fields_nonneg i op off imm (range_opcode i Hr) E).
    unfold width. rewrite Hdw. split_and!.
    + simpl. by rewrite !length_app, !length_to_ne_bytes.
    + apply Forall_cons_2; [unfold is_u; lia|].
      apply Forall_cons_2; [done|]. apply Forall_app_2; apply to_ne_bytes_ok.
    + rewrite canonical_form_dword. by rewrite Hdw.
    + intros rest. unfold decode_one.
      rewrite <- !app_comm_cons, <- (app_assoc (to_ne_bytes 2 off)).
      rewrite raw_fields_bytes by done. simpl. rewrite Hn. simpl. by rewrite Hdw'.
Qed.

(** ** Programs *)

(** The encodings of a program's instructions, one after the other. *)
Definition encodes (l : list instruction) (raw : list Z) : Prop :=
  exists raws, Forall2 (fun i bs => encode i = Ok bs) l raws /\ concat raws = raw.

(** [decode] as a relation: its successful runs. *)
Inductive decodes : list Z -> list instruction -> Prop :=
  | decodes_nil : decodes [] []
  | decodes_cons raw i l :
      raw <> [] -> decode_one raw = Ok i ->
      decodes (drop (width i * INSTRUCTION_SIZE) raw) l ->
      decodes raw (i :: l).

Lemma width_pos i : (1 <= width i)%nat.
Proof. unfold width. case_match; lia. Qed.

Lemma drop_shorter i (raw : list Z) :
  raw <> [] -> (length (drop (width i * INSTRUCTION_SIZE) raw) < length raw)%nat.
Proof.
  intros Hr. rewrite length_drop. pose proof (width_pos i). unfold INSTRUCTION_SIZE.
  destruct raw; [done|]. simpl. lia.
Qed.

Lemma decode_from_fuel f1 f2 off raw :
  (length raw <= f1)%nat -> (length raw <= f2)%nat ->
  decode_from f1 off raw = decode_from f2 off raw.
Proof.
  revert f2 off raw. induction f1 as [|f1 IH]; intros f2 off raw H1 H2.
  - destruct raw; [|simpl in H1; lia]. by destruct f2.
  - destruct raw as [|b raw]; [by destruct f2|].
    destruct f2 as [|f2]; [simpl in H2; lia|]. simpl decode_from.
    destruct (decode_one (b :: raw)) as [i|]; [|done]. cbn -[drop Nat.mul].
    pose proof (drop_shorter i (b :: raw)) as Hs. simpl length in *.
    rewrite (IH f2); [done| |]; specialize (Hs ltac:(done)); lia.
Qed.

(** The loop ends for every input: with the fuel [decode] gives it, each turn
    is the loop on what is left, with the fuel [decode] would give that. *)
Lemma decode_from_unfold off raw :
  decode_from (length raw) off raw =
  match raw with
  | [] => Ok []
  | _ =>
      i ← map_err (fun c => {| de_offset := off; de_cause := c |}) (decode_one raw);
      let rest := drop (width i * INSTRUCTION_SIZE) raw in
      l ← decode_from (length rest) (off + width i * INSTRUCTION_SIZE) rest;
      Ok (i :: l)
  end.
Proof.
  destruct raw as [|b raw]; [done|]. simpl decode_from at 1.
  destruct (decode_one (b :: raw)) as [i|] eqn:E; [|done]. cbn -[drop Nat.mul].
  pose proof (drop_shorter i (b :: raw) ltac:(done)) as Hs. simpl length in *.
  rewrite (decode_from_fuel (length raw) (length (drop (width i * INSTRUCTION_SIZE) (b :: raw))));
    [done|lia|lia].
Qed.

Lemma decode_from_decodes off raw l :
  decode_from (length raw) off raw = Ok l <-> decodes raw l.
Proof.
  split.
  - remember (length raw) as n eqn:Hn. revert off raw l Hn.
    induction n as [n IH] using lt_wf_ind. intros off raw l -> Hd.
    rewrite decode_from_unfold in Hd. destruct raw as [|b raw].
    { injection Hd as <-. constructor. }
    inv_ok. econstructor; [done|done|]. eapply IH; [|reflexivity|exact E0].
    by apply drop_shorter.
  - intros Hd. revert off. induction Hd as [|raw i l Hr Hi Hd IH]; intros off; [done|].
    rewrite decode_from_unfold. destruct raw; [done|]. rewrite Hi. cbn -[drop Nat.mul].
    by rewrite IH.
Qed.

Lemma decode_decodes raw l : decode raw = Ok l <-> decodes raw l.
Proof. apply decode_from_decodes. Qed.

Lemma decodes_encodes raw l :
  decodes raw l -> bytes_ok raw -> Forall (fun i => stable i = true) l -> encodes l raw.
Proof.
  induction 1 as [|raw i l Hr Hi Hd IH]; intros Hb Hst; [by exists []|].
  apply Forall_cons in Hst as [Hsi Hsl].
  destruct (decode_one_encode raw i Hb Hi Hsi) as [Hlen He].
  destruct IH as (raws & HF & Hc); [by apply Forall_drop|done|].
  eexists (_ :: raws). split; [constructor; [exact He|done]|].
  simpl. rewrite Hc. apply take_drop.
Qed.

Lemma encodes_decodes l raw :
  encodes l raw -> Forall in_range l -> decodes raw (canonical_form <$> l).
Proof.
  intros (raws & HF & <-). induction HF as [|i bs l raws Hi HF IH]; intros Hr; [constructor|].
  apply Forall_cons in Hr as [Hri Hrl].
  destruct (encode_decode_one i bs Hri Hi) as (Hlen & Hb & Hw & Hd).
  simpl. econstructor.
  - destruct bs; [|done]. simpl in Hlen. pose proof (width_pos i).
    unfold INSTRUCTION_SIZE in Hlen. lia.
  - apply Hd.
  - rewrite Hw, <- Hlen, drop_app_length. by apply IH.
Qed.

Lemma encodes_nil : encodes [] [].
Proof. by exists []. Qed.

Lemma encodes_app l1 l2 r1 r2 :
  encodes l1 r1 -> encodes l2 r2 -> encodes (l1 ++ l2) (r1 ++ r2).
Proof.
  intros (s1 & F1 & <-) (s2 & F2 & <-). exists (s1 ++ s2).
  split; [by apply Forall2_app|]. apply concat_app.
Qed.

Lemma encodes_app_inv l1 l2 raw :
  encodes (l1 ++ l2) raw -> exists r1 r2, raw = r1 ++ r2 /\ encodes l1 r1 /\ encodes l2 r2.
Proof.
  intros (s & F & <-). apply Forall2_app_inv_l in F as (s1 & s2 & F1 & F2 & ->).
  exists (concat s1), (concat s2). rewrite concat_app. split_and!; [done|by exists s1|by exists s2].
Qed.

Lemma encodes_det l r1 r2 : encodes l r1 -> encodes l r2 -> r1 = r2.
Proof.
  intros (s1 & F1 & <-) (s2 & F2 & <-). f_equal. revert s2 F2.
  induction F1 as [|i b l s1 Hi F1 IH]; intros s2 F2; inversion F2; subst; [done|].
  f_equal; [congruence|]. by apply IH.
Qed.

(** ** Decoded instructions are in range and in canonical form *)

Lemma lor_u w a b : 0 <= w -> is_u w a -> is_u w b -> is_u w (a .| b).
Proof.
  intros Hw [Ha Ha'] [Hb Hb'].
  assert (0 <= a .| b) by (by apply Z.lor_nonneg). split; [done|].
  apply Z.bounded_iff_bits_nonneg; [done|done|]. intros k Hk. rewrite Z.lor_spec.
  by rewrite (proj1 (Z.bounded_iff_bits_nonneg w a Hw Ha) Ha' k Hk),
    (proj1 (Z.bounded_iff_bits_nonneg w b Hw Hb) Hb' k Hk).
Qed.

Lemma split_registers_range regs :
  is_u 8 regs -> is_u 4 (split_registers regs).1 /\ is_u 4 (split_registers regs).2.
Proof.
  intros Hr.
  assert (HP : forall e : bool, forallb (fun regs =>
      bool_decide (is_u 4 (@split_registers e regs).1)
      && bool_decide (is_u 4 (@split_registers e regs).2)) (seqZ 0 256) = true)
    by (intros []; vm_compute; reflexivity).
  pose proof (forall_u8 _ (HP target_little) regs Hr) as HH. cbv beta in HH.
  by apply andb_true_iff in HH as [H1%bool_decide_eq_true H2%bool_decide_eq_true].
Qed.

Lemma raw_fields_range s i :
  raw_fields s = Some i -> bytes_ok s ->
  is_u 8 (opcode i) /\ is_u 4 (dst i) /\ is_u 4 (src i) /\ is_i 16 (offset i)
  /\ is_i 32 (constant i).
Proof.
  intros Hf Hb. unfold raw_fields in Hf.
  destruct s as [|op [|regs [|o0 [|o1 [|i0 [|i1 [|i2 [|i3 [|]]]]]]]]]; try done.
  destruct (split_registers regs) as [d s] eqn:E. injection Hf as <-. simpl.
  rewrite !Forall_cons in Hb. destruct Hb as (H0 & H1 & _).
  destruct (split_registers_range regs H1) as [Hd Hs]. rewrite E in Hd, Hs.
  split_and!; try done; apply wraps_range; lia.
Qed.

Lemma alu_extended_u alu off ext : alu_extended alu off = Some ext -> is_u 32 ext.
Proof. intros HE. apply alu_extended_Some in HE. by destruct_or! HE; destruct_and! HE; subst. Qed.

Lemma normalise_range f i :
  normalise f = Ok i -> is_u 8 (opcode f) ->
  is_u 4 (dst f) -> is_u 4 (src f) -> is_i 16 (offset f) -> is_i 32 (constant f) ->
  in_range i /\ is_i 32 (constant i).
Proof.
  intros Hn Hop Hd Hs Ho Hc.
  assert (is_u 32 (opcode f)) as Hop' by (unfold is_u in *; lia).
  assert (is_i 64 (constant f)) as Hc' by (unfold is_i in *; lia).
  assert (in_range f) as Hf by (by constructor).
  unfold normalise in Hn. repeat case_match; inv_ok; try done; (split; [|done]);
    constructor; simpl; try done.
  - apply lor_u; [lia| |by eapply alu_extended_u]. unfold is_u.
    pose proof (ldiff_land_split (opcode f) ALU_MASK) as Hsp.
    opcode_fact (fun op => bool_decide (is_u 8 (Z.ldiff op ALU_MASK))) Hop as HL.
    apply bool_decide_eq_true in HL. unfold is_u in HL. lia.
  - apply lor_u; [lia|done|]. pose proof (land_range (low_u32 (constant f ≪ 8)) ATOMIC_MASK).
    unfold is_u, ATOMIC_MASK in *. lia.
Qed.

Lemma bytes_ok_slot raw k s : slot raw k = Some s -> bytes_ok raw -> bytes_ok s.
Proof.
  intros Hs Hb. apply slot_Some in Hs as [_ <-]. by apply Forall_take, Forall_drop.
Qed.

Lemma decode_one_in_range raw i : bytes_ok raw -> decode_one raw = Ok i -> in_range i.
Proof.
  intros Hb Hd. unfold decode_one in Hd. inv_ok. apply bind_Some in E as (s & Hs & Hf).
  destruct (raw_fields_range _ _ Hf (bytes_ok_slot _ _ _ Hs Hb)) as (R1 & R2 & R3 & R4 & R5).
  destruct (normalise_range _ _ E0 R1 R2 R3 R4 R5) as [Hr Hc].
  case_match; [by inv_ok|]. inv_ok. case_match; [done|]. inv_ok.
  destruct Hr. constructor; simpl; try done. rewrite lor_shiftl_add by (apply wrapu_range; lia).
  assert (is_u 32 (low_u32 (constant x0))) as Hl by (apply wrapu_range; lia).
  pose proof (wraps_range 32 (from_ne_bytes (drop 4 x1)) ltac:(lia)) as Hh.
  unfold is_i, is_u in *. simpl in *. lia.
Qed.

Lemma decodes_in_range raw l : decodes raw l -> bytes_ok raw -> Forall in_range l.
Proof.
  induction 1 as [|raw i l Hr Hi Hd IH]; intros Hb; constructor.
  - by eapply decode_one_in_range.
  - apply IH. by apply Forall_drop.
Qed.

(** A decoded instruction the encoder keeps is its own canonical form. *)
Lemma decode_one_canonical raw i :
  bytes_ok raw -> decode_one raw = Ok i -> stable i = true -> canonical_form i = i.
Proof.
  intros Hb Hd Hst. destruct (decode_one_encode raw i Hb Hd Hst) as [_ He].
  destruct (encode_decode_one i _ (decode_one_in_range raw i Hb Hd) He) as (_ & _ & _ & Hrest).
  specialize (Hrest (drop (width i * INSTRUCTION_SIZE) raw)).
  rewrite take_drop, Hd in Hrest. congruence.
Qed.

Lemma decodes_canonical raw l :
  decodes raw l -> bytes_ok raw -> Forall (fun i => stable i = true) l ->
  canonical_form <$> l = l.
Proof.
  induction 1 as [|raw i l Hr Hi Hd IH]; intros Hb Hst; [done|].
  apply Forall_cons in Hst as [Hsi Hsl]. csimpl. f_equal.
  - by eapply decode_one_canonical.
  - apply IH; [by apply Forall_drop|done].
Qed.

(** Encoding an instruction's canonical form gives the same bytes. *)
Lemma stable_canonical_form i bs : encode i = Ok bs -> stable (canonical_form i) = true.
Proof.
  intros He. unfold encode in He. case_match; [done|]. inv_ok.
  destruct x as [[op off] imm]. clear He. unfold wire_fields in E. unfold canonical_form.
  destruct (is_builtin_call i) eqn:Hb.
  - case_match eqn:Ht; [|done]. unfold stable. simpl.
    assert (low_u32 (low_i32 (constant i)) = low_u32 (constant i)) as ->.
    { unfold low_i32, low_u32. by rewrite wrapu_wraps, wrapu_wrapu by lia. }
    rewrite Ht, orb_true_r, andb_true_r. apply orb_true_iff. left.
    unfold is_builtin_call, OpCode.jump_op in Hb.
    by destruct (OpCode.class (opcode i)).
  - destruct (is_alu (OpCode.class (opcode i))) eqn:Ha.
    { unfold stable. simpl. rewrite not_builtin by (by destruct (OpCode.class (opcode i))).
      by rewrite orb_true_r. }
    destruct (OpCode.atomic_op (opcode i) =? INVALID_ATOMIC) eqn:Hat; simpl.
    + destruct (OpCode.is_dword_load (opcode i)); unfold stable; simpl; rewrite Ha; simpl.
      * by rewrite Hb.
      * replace (is_builtin_call _) with (is_builtin_call i) by (by destruct i). by rewrite Hb.
    + unfold OpCode.atomic_op in Hat. split_match Hat.
      apply andb_true_iff in Hm as [Hcl _]. apply bool_decide_eq_true in Hcl.
      assert (OpCode.class (Z.ldiff (opcode i) ATOMIC_MASK
        .| (low_u32 (low_i32 (constant i) ≪ 8) .& ATOMIC_MASK)) = StX) as Hc'.
      { unfold OpCode.class in *. rewrite land_lor_land, land_ldiff by done. exact Hcl. }
      unfold stable. cbn [opcode]. rewrite not_builtin by (by rewrite Hc'). by rewrite Hc'.
Qed.

Lemma encode_canonical_form i bs :
  in_range i -> encode i = Ok bs -> encode (canonical_form i) = Ok bs.
Proof.
  intros Hr He. destruct (encode_decode_one i bs Hr He) as (Hl & Hb & Hw & Hd).
  specialize (Hd []). rewrite app_nil_r in Hd.
  destruct (decode_one_encode bs _ Hb Hd (stable_canonical_form i bs He)) as [_ ->].
  by rewrite Hw, <- Hl, firstn_all.
Qed.

Lemma encodes_bytes_ok l raw : Forall in_range l -> encodes l raw -> bytes_ok raw.
Proof.
  intros Hr (raws & HF & <-). induction HF as [|i bs l raws Hi HF IH]; [constructor|].
  apply Forall_cons in Hr as [Hri Hrl]. simpl. apply Forall_app_2; [|by apply IH].
  by destruct (encode_decode_one i bs Hri Hi) as (_ & ? & _).
Qed.

End Proofs.
