(* ===== verification/Ebpf.v ===== *)
(** * The device filter builder (src/cgroup/ebpf.rs, the rule of src/cgroup/api.rs)

    The context loads, one block per device rule and the resolution of each
    block's jumps to the block that follows it. The proofs about what a built
    program decides are in Verdict.v. *)

From S2P Require Import Prelude.
From S2P Require Import Text.
From S2P Require Import Asm.

Local Open Scope Z_scope.

(** ** Device rules *)

(** [DeviceRule]: an absent number is [None], a negative one the wildcard. *)
Record DeviceRule := {
  allow : bool;
  kind : string;
  major : option Z;
  minor : option Z;
  access : string;
}.

#[global] Instance DeviceRule_eq_dec : EqDecision DeviceRule.
Proof. solve_decision. Defined.

Definition WILDCARD : Z := -1.

Definition DEV_BLOCK : Z := 1.
Definition DEV_CHAR : Z := 2.
Definition ACC_MKNOD : Z := 1.
Definition ACC_READ : Z := 2.
Definition ACC_WRITE : Z := 4.

Definition INIT_LEN : nat := 5.

Definition U32_MAX : Z := 2 ^ 32 - 1.

Inductive RuleError :=
  | Finalized
  | InvalidType (kind : string)
  | NoMajor
  | NoMinor
  | InvalidMajor (major : Z)
  | InvalidMinor (minor : Z)
  | UnknownAccess (letter : string)
  | NoOriginal.

#[global] Instance RuleError_eq_dec : EqDecision RuleError.
Proof. solve_decision. Defined.

Definition rule_error_to_string (e : RuleError) : string :=
  match e with
  | Finalized => "the program is finalized"
  | InvalidType kind => "invalid DeviceType " +:+ quote kind
  | NoMajor => "no major set in device rule"
  | NoMinor => "no minor set in device rule"
  | InvalidMajor major => "invalid major " +:+ pretty major
  | InvalidMinor minor => "invalid minor " +:+ pretty minor
  | UnknownAccess letter => "unknown device access " +:+ pretty (char_code letter)
  | NoOriginal => "no original device filter program to wrap"
  end.

(** [DeviceRule::go_struct_text]: the rule as Go's [%+v] prints the struct. *)
Definition go_struct_text (r : DeviceRule) : string :=
  let number (value : option Z) :=
    match value with Some n => pretty n | None => "<nil>" end in
  "{Allow:" +:+ (if allow r then "true" else "false") +:+ " Type:" +:+ kind r
  +:+ " Major:" +:+ number (major r) +:+ " Minor:" +:+ number (minor r)
  +:+ " Access:" +:+ access r +:+ "}".

(** ** The program under construction *)

(** One instruction of a rule block, and whether it jumps to the next block. *)
Record Step := { instr : instruction; to_next_block : bool }.

Definition step_plain (i : instruction) : Step := {| instr := i; to_next_block := false |}.
Definition step_jump (i : instruction) : Step := {| instr := i; to_next_block := true |}.

Record Program := {
  init : list instruction;
  blocks : list (list Step);
  has_wild_card : bool;
  finalized : bool;
}.

(** [Program::new]: the loads of [struct bpf_cgroup_dev_ctx]. *)
Definition new_program : Program := {|
  init := [load_mem R2 R1 0 HALF;
           load_mem R3 R1 0 WORD;
           alu32_imm RSH R3 16;
           load_mem R4 R1 4 WORD;
           load_mem R5 R1 8 WORD];
  blocks := [];
  has_wild_card := false;
  finalized := false;
|}.

Definition instruction_count (p : Program) : nat :=
  (INIT_LEN + sum_list (length <$> blocks p))%nat.

(** The access mask of a rule's letters; the first unknown one, a [char], is the
    error. The letters before it are single bytes. *)
Fixpoint access_mask (letters : string) (mask : Z) : result RuleError Z :=
  match letters with
  | EmptyString => Ok mask
  | String c rest =>
      bit ← (if bool_decide (String c "" = "r") then Ok ACC_READ
             else if bool_decide (String c "" = "w") then Ok ACC_WRITE
             else if bool_decide (String c "" = "m") then Ok ACC_MKNOD
             else Err (UnknownAccess (first_char letters)));
      access_mask rest (mask .| bit)
  end.

Definition device_type (kind : string) : result RuleError (option Z) :=
  if bool_decide (kind = "c") then Ok (Some DEV_CHAR)
  else if bool_decide (kind = "b") then Ok (Some DEV_BLOCK)
  else if bool_decide (kind = "a") then Ok None
  else Err (InvalidType kind).

(** The block of a rule whose fields have been read. *)
Definition rule_block (dev : option Z) (mask maj min : Z) (allow : bool) : list Step :=
  match dev with
  | Some t => [step_jump (jump_imm JNE R2 t (-1))]
  | None => []
  end
  ++ (if negb (mask =? (ACC_READ .| ACC_WRITE .| ACC_MKNOD))
      then [step_plain (alu32_reg MOV R6 R3);
            step_plain (alu32_imm AND R6 mask);
            step_jump (jump_reg JNE R6 R3 (-1))]
      else [])
  ++ (if 0 <=? maj then [step_jump (jump_imm JNE R4 (low_i32 maj) (-1))] else [])
  ++ (if 0 <=? min then [step_jump (jump_imm JNE R5 (low_i32 min) (-1))] else [])
  ++ [step_plain (alu32_imm MOV R0 (if allow then 1 else 0)); step_plain exit].

(** Whether the rule matches every request. *)
Definition is_wild_card (dev : option Z) (mask maj min : Z) : bool :=
  bool_decide (dev = None) && (mask =? (ACC_READ .| ACC_WRITE .| ACC_MKNOD))
  && (maj <? 0) && (min <? 0).

(** [Program::append_device]. *)
Definition append_device (p : Program) (rule : DeviceRule) : result RuleError Program :=
  if finalized p then Err Finalized
  else if has_wild_card p then Ok p
  else
    dev ← device_type (kind rule);
    maj ← ok_or (major rule) NoMajor;
    min ← ok_or (minor rule) NoMinor;
    if U32_MAX <? maj then Err (InvalidMajor maj)
    else if U32_MAX <? min then Err (InvalidMinor min)
    else
      mask ← access_mask (access rule) 0;
      Ok {| init := init p;
            blocks := blocks p ++ [rule_block dev mask maj min (allow rule)];
            has_wild_card := is_wild_card dev mask maj min;
            finalized := finalized p |}.

(** The loop that appends a set's rules: the caller reverses them. *)
Fixpoint append_all (p : Program) (rules : list DeviceRule) : result RuleError Program :=
  match rules with
  | [] => Ok p
  | rule :: rules => p ← append_device p rule; append_all p rules
  end.

(** ** Layout *)

(** cilium's [int16(target - position - 1)], truncated. *)
Definition jump_offset (target position : nat) : Z :=
  wraps 16 (Z.of_nat target - Z.of_nat position - 1).

Definition widths (l : list instruction) : nat := sum_list (width <$> l).

Definition block_width (b : list Step) : nat := widths (instr <$> b).

(** Where each block's successor starts. *)
Fixpoint next_starts (cursor : nat) (bs : list (list Step)) : list nat :=
  match bs with
  | [] => []
  | b :: bs =>
      let cursor := (cursor + block_width b)%nat in cursor :: next_starts cursor bs
  end.

Definition with_offset (i : instruction) (off : Z) : instruction :=
  Instruction (opcode i) (dst i) (src i) off (constant i).

Fixpoint place_block (next_start position : nat) (b : list Step) : list instruction :=
  match b with
  | [] => []
  | s :: b =>
      let i := if to_next_block s
               then with_offset (instr s) (jump_offset next_start position)
               else instr s in
      i :: place_block next_start (position + width i) b
  end.

Fixpoint place_blocks (position : nat) (bs : list (list Step)) (nexts : list nat)
    : list instruction :=
  match bs, nexts with
  | b :: bs, next_start :: nexts =>
      let placed := place_block next_start position b in
      placed ++ place_blocks (position + widths placed) bs nexts
  | _, _ => []
  end.

(** [Program::layout]. *)
Definition layout (p : Program) (head tail : list instruction) : list instruction :=
  let laid_out := head ++ init p in
  let position := widths laid_out in
  laid_out ++ place_blocks position (blocks p) (next_starts position (blocks p)) ++ tail.

(** [Program::finalize]: the program laid out, and no rule after it. *)
Definition finalize (p : Program) (original : list instruction)
    : Program * list instruction :=
  ({| init := init p; blocks := blocks p; has_wild_card := has_wild_card p;
      finalized := true |}, layout p [] original).

(** [prepend_device_filter]. *)
Definition prepend_device_filter (rules : list DeviceRule) (original : list instruction)
    : result RuleError (list instruction) :=
  if bool_decide (original = []) then Err NoOriginal
  else
    p ← append_all new_program (rev rules);
    Ok (finalize p original).2.
