(* ===== verification/Bpf.v ===== *)
(** * The meaning of a device filter (src/cgroup/bpfinterp.rs)

    The repository's own interpreter for the instructions device filters use:
    a program, the context of an access request and eleven registers. A panic
    of the Rust code (an instruction outside the subset, a load outside the
    context, a program that leaves its bounds or does not end) is [None]. *)

From S2P Require Import Prelude.
From S2P Require Import Asm.
From S2P Require Import AsmText.
From S2P Require Import Codec.
From S2P Require Import Ebpf.

Local Open Scope Z_scope.

(** ** Requests *)

Record DevRequest := {
  req_kind : Z;
  req_access : Z;
  req_major : Z;
  req_minor : Z;
}.

(** [DevRequest::context]: the bytes of a [struct bpf_cgroup_dev_ctx]. *)
Definition context (req : DevRequest) : list Z :=
  concat (to_le_bytes 4 <$> [wrapu 32 (req_access req ≪ 16) .| req_kind req;
                             req_major req; req_minor req]).

(** What the kernel passes: a device type, an access mask of the three
    [BPF_DEVCG_ACC_*] bits, and two 32-bit numbers. *)
Record valid_request (req : DevRequest) : Prop := {
  valid_kind : is_u 16 (req_kind req);
  valid_access : is_u 3 (req_access req);
  valid_major : is_u 32 (req_major req);
  valid_minor : is_u 32 (req_minor req);
}.

(** ** One instruction *)

(** What executing one instruction does. *)
Inductive outcome :=
  | Continue (pc : Z) (regs : list Z)
  | Return (verdict : Z).

(** [registers[r]], which panics past the eleven registers. *)
Definition get_reg (regs : list Z) (r : Z) : option Z := get_z regs r.

Definition set_reg (regs : list Z) (r v : Z) : option (list Z) :=
  if (0 <=? r) && (r <? Z.of_nat (length regs)) then Some (<[Z.to_nat r := v]> regs) else None.

(** [&context[offset..][..n]] as an integer. *)
Definition load_ctx (ctx : list Z) (off : Z) (n : nat) : option Z :=
  if (0 <=? off) && (off + Z.of_nat n <=? Z.of_nat (length ctx))
  then Some (from_le_bytes (take n (drop (Z.to_nat off) ctx)))
  else None.

Definition exec_load (ctx : list Z) (i : instruction) : option Z :=
  if negb (src i =? R1) then None
  else
    let sz := OpCode.size (opcode i) in
    if sz =? WORD then load_ctx ctx (offset i) 4
    else if sz =? HALF then load_ctx ctx (offset i) 2
    else if sz =? BYTE then load_ctx ctx (offset i) 1
    else None.

(** The second operand of an ALU operation or a jump. *)
Definition operand (i : instruction) (regs : list Z) : option Z :=
  if OpCode.source (opcode i) =? REG_SOURCE then get_reg regs (src i)
  else Some (wrapu 64 (constant i)).

Definition exec_alu (alu : Z) (alu32 : bool) (value source : Z) : option Z :=
  v ← (if alu =? MOV then Some source
       else if alu =? AND then Some (value .& source)
       else if alu =? OR then Some (value .| source)
       else if alu =? LSH then Some (wrapu 64 (value ≪ (source .& 63)))
       else if alu =? RSH then
         Some (if alu32 then wrapu 32 value ≫ (source .& 31) else value ≫ (source .& 63))
       else None);
  Some (if alu32 then wrapu 32 v else v).

Definition jump_taken (jump left right : Z) : option bool :=
  if jump =? JEQ then Some (left =? right)
  else if jump =? JNE then Some (negb (left =? right))
  else if jump =? JGT then Some (right <? left)
  else if jump =? JGE then Some (right <=? left)
  else if jump =? JLT then Some (left <? right)
  else if jump =? JLE then Some (left <=? right)
  else if jump =? JSET then Some (negb ((left .& right) =? 0))
  else None.

Definition exec_one (ctx : list Z) (i : instruction) (pc : Z) (regs : list Z)
    : option outcome :=
  let op := opcode i in
  match OpCode.class op with
  | LdX =>
      v ← exec_load ctx i;
      regs ← set_reg regs (dst i) v;
      Some (Continue (pc + 1) regs)
  | Alu | Alu64 =>
      source ← operand i regs;
      value ← get_reg regs (dst i);
      v ← exec_alu (OpCode.alu_op op) (bool_decide (OpCode.class op = Alu)) value source;
      regs ← set_reg regs (dst i) v;
      Some (Continue (pc + 1) regs)
  | Jump | Jump32 =>
      let jump := OpCode.jump_op op in
      if jump =? EXIT then v ← get_reg regs R0; Some (Return v)
      else if jump =? JA then Some (Continue (pc + offset i + 1) regs)
      else
        left ← get_reg regs (dst i);
        right ← operand i regs;
        let narrow v := if bool_decide (OpCode.class op = Jump32) then wrapu 32 v else v in
        taken ← jump_taken jump (narrow left) (narrow right);
        Some (Continue (if taken : bool then pc + offset i + 1 else pc + 1) regs)
  | Ld | St | StX => None
  end.

(** ** Programs *)

(** [fuel] turns of the interpreter's loop. *)
Fixpoint run_from (prog : list instruction) (ctx : list Z) (fuel : nat) (pc : Z)
    (regs : list Z) : option Z :=
  match fuel with
  | O => None
  | S fuel =>
      i ← get_z prog pc;
      o ← exec_one ctx i pc regs;
      match o with
      | Return v => Some v
      | Continue pc regs => run_from prog ctx fuel pc regs
      end
  end.

Definition zero_regs : list Z := replicate 11 0.

Definition turns (prog : list instruction) : nat := S (10 * length prog).

Definition run_instructions (prog : list instruction) (req : DevRequest) : option Z :=
  run_from prog (context req) (turns prog) 0 zero_regs.

Section Run.
Context `{HostEndian}.

(** [run_device_filter]: the verdict of a program's bytes. *)
Definition run_device_filter (raw : list Z) (req : DevRequest) : option Z :=
  match decode raw with
  | Ok prog => run_instructions prog req
  | Err _ => None
  end.

End Run.
