(* ===== verification/Owned.v ===== *)
(** * The daemon's own device filter (src/cgroup/owned.rs)

    The wrapper around a runtime's program, its parser and the gate that
    decides which programs may be wrapped. The theorems about them are in
    OwnedProofs.v. The SHA-256 of the [sha2] crate is a parameter. *)

From S2P Require Import Prelude.
From S2P Require Import Asm.
From S2P Require Import AsmText.
From S2P Require Import Codec.
From S2P Require Import Ebpf.

Local Open Scope Z_scope.

(** ** Constants and data *)

Definition MAGIC_LO : Z := 0x5f414453.
Definition MAGIC_HI : Z := 0x4b4c4244.
Definition FORMAT_VERSION : Z := 1.

Definition HEADER_LEN : nat := 10.
Definition TRAILER_LEN : nat := 4.

Definition OWNED_PROGRAM_NAME : string := "sda_devfilter".

Definition HDR_MAGIC_HI : nat := 1.
Definition HDR_VERSION : nat := 2.
Definition HDR_NONCE_LO : nat := 3.
Definition HDR_NONCE_HI : nat := 4.
Definition HDR_DIGEST : nat := 5.
Definition HDR_BLOCK_LEN : nat := 9.

Record OwnedProgram := {
  nonce : Z;
  rules : list DeviceRule;
  original : list Z;
}.

#[global] Instance OwnedProgram_eq_dec : EqDecision OwnedProgram.
Proof. solve_decision. Defined.

Record CanonicalError := { ce_index : nat; ce_cause : EncodeCause }.

Inductive EmitError :=
  | EmitDecode (e : DecodeError)
  | EmitRule (e : RuleError)
  | EmitEncode (index : nat) (cause : EncodeCause).

Inductive RuleBlock :=
  | DeviceType (value : Z)
  | AccessMask
  | AccessCheck
  | MissingVerdict
  | BadVerdict
  | MissingExit.

Inductive Conflict :=
  | Header
  | HeaderField (index : nat)
  | MagicOrVersion
  | BlockLen (block_len : Z)
  | Trailer
  | BadRuleBlock (cause : RuleBlock)
  | BadOriginal (e : CanonicalError)
  | Digest
  | Regenerated (e : option EmitError).

Inductive OwnedError :=
  | OwnedDecode (e : DecodeError)
  | OwnedConflict (c : Conflict).

Definition is_conflict (e : OwnedError) : bool :=
  match e with OwnedConflict _ => true | OwnedDecode _ => false end.

Record ProgMeta := { map_ids_known : bool; map_count : nat }.

#[global] Instance ProgMeta_eq_dec : EqDecision ProgMeta.
Proof. solve_decision. Defined.

Inductive GateError :=
  | MapIdsUnavailable
  | UsesMaps (count : nat)
  | GateEmpty
  | GateInstruction (index : nat) (i : instruction)
  | JumpsOut (index : nat).

Definition gate_error_to_string (e : GateError) : string :=
  "device filter program cannot be wrapped safely: " +:+
  match e with
  | MapIdsUnavailable => "map IDs unavailable"
  | UsesMaps count => "program uses " +:+ pretty count +:+ " maps"
  | GateEmpty => "empty program"
  | GateInstruction index i =>
      "instruction " +:+ pretty index +:+ " (" +:+ instruction_to_string i
        +:+ "): outside the wrappable instruction subset"
  | JumpsOut index => "instruction " +:+ pretty index +:+ " jumps out of the program"
  end.

Definition rule_block_to_string (e : RuleBlock) : string :=
  match e with
  | DeviceType value => "device type " +:+ pretty value
  | AccessMask => "access mask"
  | AccessCheck => "access check"
  | MissingVerdict => "missing verdict"
  | BadVerdict => "verdict"
  | MissingExit => "missing exit"
  end.

Definition canonical_error_to_string (e : CanonicalError) : string :=
  "encode instruction " +:+ pretty (ce_index e) +:+ ": " +:+ encode_cause_to_string (ce_cause e).

Definition emit_error_to_string (e : EmitError) : string :=
  match e with
  | EmitDecode e => decode_error_to_string e
  | EmitRule e => rule_error_to_string e
  | EmitEncode index cause =>
      "encode wrapper: instruction " +:+ pretty index +:+ ": " +:+ encode_cause_to_string cause
  end.

Definition conflict_to_string (c : Conflict) : string :=
  match c with
  | Header => "malformed header"
  | HeaderField index => "malformed header: field " +:+ pretty index
  | MagicOrVersion => "malformed header: magic or version"
  | BlockLen block_len => "block length out of range: " +:+ pretty block_len
  | Trailer => "trailer missing or not matching the header"
  | BadRuleBlock cause => "rule block does not parse: " +:+ rule_block_to_string cause
  | BadOriginal e => canonical_error_to_string e
  | Digest => "digest does not match the wrapped original"
  | Regenerated None => "block does not regenerate byte for byte"
  | Regenerated (Some e) =>
      "block does not regenerate byte for byte: " +:+ emit_error_to_string e
  end.

Definition owned_error_to_string (e : OwnedError) : string :=
  match e with
  | OwnedDecode e => decode_error_to_string e
  | OwnedConflict cause =>
      "device filter carries an invalid swarm-device-access block: "
        +:+ conflict_to_string cause
  end.

(** ** Markers: the dead stores the header and the trailer are made of *)

Definition marker (value : Z) : instruction := alu32_imm MOV R0 (wraps 32 value).

Definition marker_value (i : instruction) : option Z :=
  if (opcode i =? OpCode.alu32 MOV IMM_SOURCE) && (dst i =? R0) && (src i =? R0)
     && (offset i =? 0)
  then Some (low_u32 (constant i))
  else None.

Definition bpf_access_string (mask : Z) : string :=
  (if negb ((mask .& ACC_READ) =? 0) then "r" else "")
  +:+ (if negb ((mask .& ACC_WRITE) =? 0) then "w" else "")
  +:+ (if negb ((mask .& ACC_MKNOD) =? 0) then "m" else "").

Definition is_jump_imm (i : instruction) (op d : Z) : bool :=
  (opcode i =? OpCode.jump op IMM_SOURCE) && (dst i =? d).

(** [Peekable::next_if]. *)
Definition next_if (p : instruction -> bool) (rest : list instruction)
    : option instruction * list instruction :=
  match rest with
  | i :: rest' => if p i then (Some i, rest') else (None, rest)
  | [] => (None, rest)
  end.

(** One turn of [parse_rule_blocks]: the rule at the front and what follows
    its block. *)
Definition parse_rule_block (rest : list instruction)
    : result RuleBlock (DeviceRule * list instruction) :=
  let '(check, rest) := next_if (fun i => is_jump_imm i JNE R2) rest in
  kind ← match check with
         | Some i =>
             if constant i =? DEV_CHAR then Ok "c"
             else if constant i =? DEV_BLOCK then Ok "b"
             else Err (DeviceType (constant i))
         | None => Ok "a"
         end;
  let '(mov, rest) :=
    next_if (fun i => (opcode i =? OpCode.alu32 MOV REG_SOURCE) && (dst i =? R6)) rest in
  '(access, rest) ←
    match mov with
    | Some _ =>
        match rest with
        | mask :: rest =>
            if (opcode mask =? OpCode.alu32 AND IMM_SOURCE) && (dst mask =? R6) then
              match rest with
              | _ :: rest => Ok (bpf_access_string (constant mask), rest)
              | [] => Err AccessCheck
              end
            else Err AccessMask
        | [] => Err AccessMask
        end
    | None => Ok ("rwm", rest)
    end;
  let '(check, rest) := next_if (fun i => is_jump_imm i JNE R4) rest in
  let major := match check with Some i => constant i | None => WILDCARD end in
  let '(check, rest) := next_if (fun i => is_jump_imm i JNE R5) rest in
  let minor := match check with Some i => constant i | None => WILDCARD end in
  match rest with
  | [] => Err MissingVerdict
  | verdict :: rest =>
      allow ← match marker_value verdict with
              | Some value =>
                  if value =? 0 then Ok false
                  else if value =? 1 then Ok true
                  else Err BadVerdict
              | None => Err BadVerdict
              end;
      match rest with
      | e :: rest =>
          if opcode e =? OpCode.jump EXIT IMM_SOURCE then
            Ok ({| allow := allow; kind := kind; major := Some major;
                   minor := Some minor; access := access |}, rest)
          else Err MissingExit
      | [] => Err MissingExit
      end
  end.

(** The loop of [parse_rule_blocks]; a turn consumes at least one instruction. *)
Fixpoint parse_blocks (fuel : nat) (rest : list instruction) (acc : list DeviceRule)
    : result RuleBlock (list DeviceRule) :=
  match rest, fuel with
  | [], _ => Ok acc
  | _, O => Err MissingExit
  | _, S fuel =>
      '(rule, rest) ← parse_rule_block rest;
      parse_blocks fuel rest (acc ++ [rule])
  end.

Definition parse_rule_blocks (instructions : list instruction)
    : result RuleBlock (list DeviceRule) :=
  rs ← parse_blocks (length instructions) instructions [];
  Ok (rev rs).

(** ** The reloadability gate *)

Definition in_subset (i : instruction) : bool :=
  let op := opcode i in
  match OpCode.class op with
  | LdX =>
      (OpCode.mode op =? MODE_MEM) && (src i =? R1)
      && ((offset i =? 0) || (offset i =? 4) || (offset i =? 8))
  | Alu | Alu64 =>
      let alu := OpCode.alu_op op in
      ((alu =? MOV) || (alu =? AND) || (alu =? OR) || (alu =? RSH) || (alu =? LSH))
      && (offset i =? 0)
  | Jump | Jump32 =>
      let jump := OpCode.jump_op op in
      if bool_decide (jump ∈ [JEQ; JNE; JGT; JGE; JLT; JLE; JSET; JSGT; JSGE; JSLT; JSLE])
      then true
      else if (jump =? EXIT) || (jump =? JA) then bool_decide (OpCode.class op = Jump)
      else false
  | Ld | St | StX => false
  end.

(** The check of the instruction at [index] of a program of [len]. *)
Definition gate_instruction (len index : nat) (i : instruction) : result GateError unit :=
  if negb (in_subset i) then Err (GateInstruction index i)
  else if is_jump (OpCode.class (opcode i)) && negb (OpCode.jump_op (opcode i) =? EXIT) then
    let target := Z.of_nat index + offset i + 1 in
    if (0 <=? target) && (target <? Z.of_nat len) then Ok tt else Err (JumpsOut index)
  else Ok tt.

Definition check_wrappable (instructions : list instruction) (meta : ProgMeta)
    : result GateError unit :=
  if negb (map_ids_known meta) then Err MapIdsUnavailable
  else if (0 <? map_count meta)%nat then Err (UsesMaps (map_count meta))
  else if bool_decide (instructions = []) then Err GateEmpty
  else
    _ ← mapM_index (gate_instruction (length instructions)) 0 instructions;
    Ok tt.

(** ** The wrapper *)

Section Owned.
Context `{HostEndian}.

(** [Sha256::digest] of the [sha2] crate. *)
Context (sha256 : list Z -> list Z).

Definition canonical_bytes (instructions : list instruction)
    : result CanonicalError (list Z) :=
  raws ← mapM_index
           (fun index i =>
              map_err (fun c => {| ce_index := index; ce_cause := c |}) (encode i))
           0 instructions;
  Ok (concat raws).

Definition from_canonical (raw : list Z) : result DecodeError (list instruction) :=
  decode raw.

(** The first 128 bits of the digest, as four little-endian words. *)
Definition digest_of (original : list Z) : list Z :=
  let sum := sha256 original in
  (fun k => from_le_bytes (take 4 (drop (4 * k) sum))) <$> [0; 1; 2; 3]%nat.

Definition emit_owned (rules : list DeviceRule) (nonce : Z) (original : list Z)
    : result EmitError (list Z) :=
  original_instructions ← map_err EmitDecode (from_canonical original);
  if bool_decide (original_instructions = []) then Err (EmitRule NoOriginal)
  else
    body ← map_err EmitRule (append_all new_program (rev rules));
    let nonce_bytes := to_le_bytes 8 nonce in
    let nonce_lo := from_le_bytes (take 4 nonce_bytes) in
    let nonce_hi := from_le_bytes (drop 4 nonce_bytes) in
    let block_len :=
      let len := Z.of_nat (HEADER_LEN + instruction_count body) in
      if len <=? U32_MAX then len else U32_MAX in
    let header :=
      marker <$> [MAGIC_LO; MAGIC_HI; FORMAT_VERSION; nonce_lo; nonce_hi]
                   ++ digest_of original ++ [block_len] in
    let tail :=
      (marker <$> [MAGIC_LO; MAGIC_HI; nonce_lo; nonce_hi]) ++ original_instructions in
    let all := layout body header tail in
    raws ← mapM_index (fun index i => map_err (EmitEncode index) (encode i)) 0 all;
    Ok (concat raws).

(** The header's fields, or the first that is not a marker. *)
Definition header_fields (instructions : list instruction) : result Conflict (list Z) :=
  mapM_index (fun index i => ok_or (marker_value i) (HeaderField index)) 0
    (take HEADER_LEN instructions).

(** [header[index]] on the ten fields of a header. *)
Definition field (header : list Z) (index : nat) : Z := default 0 (header !! index).

Definition validate_owned (instructions : list instruction) (raw : list Z)
    : result Conflict OwnedProgram :=
  if (length instructions <? HEADER_LEN)%nat then Err Header
  else
    header ← header_fields instructions;
    if negb (field header HDR_MAGIC_HI =? MAGIC_HI)
       || negb (field header HDR_VERSION =? FORMAT_VERSION)
    then Err MagicOrVersion
    else
      let block_len := field header HDR_BLOCK_LEN in
      if (block_len <? Z.of_nat (HEADER_LEN + INIT_LEN))
         || (Z.of_nat (length instructions) <=? block_len + Z.of_nat TRAILER_LEN)
      then Err (BlockLen block_len)
      else
        let block_len := Z.to_nat block_len in
        let want := [MAGIC_LO; MAGIC_HI; field header HDR_NONCE_LO;
                     field header HDR_NONCE_HI] in
        let trailer := take TRAILER_LEN (drop block_len instructions) in
        if existsb (fun '(i, value) => negb (bool_decide (marker_value i = Some value)))
             (zip trailer want)
        then Err Trailer
        else
          rules ← map_err BadRuleBlock
                    (parse_rule_blocks
                       (drop (HEADER_LEN + INIT_LEN) (take block_len instructions)));
          original ← map_err BadOriginal
                       (canonical_bytes (drop (block_len + TRAILER_LEN) instructions));
          if negb (bool_decide
                     (digest_of original =
                      take (HDR_BLOCK_LEN - HDR_DIGEST) (drop HDR_DIGEST header)))
          then Err Digest
          else
            let nonce := field header HDR_NONCE_LO
                           .| (field header HDR_NONCE_HI ≪ 32) in
            regenerated ← map_err (fun e => Regenerated (Some e))
                            (emit_owned rules nonce original);
            if negb (bool_decide (regenerated = raw)) then Err (Regenerated None)
            else Ok {| nonce := nonce; rules := rules; original := original |}.

Definition parse_owned (raw : list Z) : result OwnedError (option OwnedProgram) :=
  instructions ← map_err OwnedDecode (from_canonical raw);
  match instructions with
  | [] => Ok None
  | first :: _ =>
      if negb (bool_decide (marker_value first = Some MAGIC_LO)) then Ok None
      else
        p ← map_err OwnedConflict (validate_owned instructions raw);
        Ok (Some p)
  end.

(** The loop of [parse_owned_innermost]: the original is shorter at every
    turn, so the wrapper's length bounds the turns. *)
Fixpoint strip (fuel : nat) (owned : OwnedProgram) : result OwnedError OwnedProgram :=
  match fuel with
  | O => Ok owned
  | S fuel =>
      inner ← parse_owned (original owned);
      match inner with
      | Some inner =>
          strip fuel {| nonce := nonce owned; rules := rules owned;
                        original := original inner |}
      | None => Ok owned
      end
  end.

Definition parse_owned_innermost (raw : list Z)
    : result OwnedError (option OwnedProgram) :=
  owned ← parse_owned raw;
  match owned with
  | None => Ok None
  | Some owned => owned ← strip (length raw) owned; Ok (Some owned)
  end.

End Owned.
