(* ===== verification/Verdict.v ===== *)
(** * What a built device filter decides

    [prepend_verdict]: the builder's program answers a request with the verdict
    of the last rule that matches it, and otherwise exactly as the original
    program does. The specification of a rule is [rule_matches]; the meaning of
    a program is the interpreter of Bpf.v. *)

From S2P Require Import Prelude.
From S2P Require Import Asm.
From S2P Require Import Codec.
From S2P Require Import CodecProofs.
From S2P Require Import Ebpf.
From S2P Require Import Bpf.
From S2P Require Import Owned.

Local Open Scope Z_scope.

(** ** Specification *)

(** The fields [append_device] reads from a rule. *)
Record rule_fields := {
  f_dev : option Z;
  f_mask : Z;
  f_major : Z;
  f_minor : Z;
  f_allow : bool;
}.

Definition fields_match (f : rule_fields) (req : DevRequest) : bool :=
  match f_dev f with Some t => req_kind req =? t | None => true end
  && ((req_access req .& f_mask f) =? req_access req)
  && ((f_major f <? 0) || (req_major req =? f_major f))
  && ((f_minor f <? 0) || (req_minor req =? f_minor f)).

Definition read_rule (r : DeviceRule) : result RuleError rule_fields :=
  dev ← device_type (kind r);
  maj ← ok_or (major r) NoMajor;
  min ← ok_or (minor r) NoMinor;
  mask ← access_mask (access r) 0;
  Ok {| f_dev := dev; f_mask := mask; f_major := maj; f_minor := min; f_allow := allow r |}.

(** Whether a rule covers a request: the same type, no access beyond the
    rule's letters, and the same numbers where the rule has them. *)
Definition rule_matches (r : DeviceRule) (req : DevRequest) : bool :=
  match read_rule r with Ok f => fields_match f req | Err _ => false end.

(** The verdict of a rule set: the last rule that matches decides. *)
Fixpoint first_verdict (rs : list DeviceRule) (req : DevRequest) : option bool :=
  match rs with
  | [] => None
  | r :: rs => if rule_matches r req then Some (allow r) else first_verdict rs req
  end.

Definition rules_verdict (rs : list DeviceRule) (req : DevRequest) : option bool :=
  first_verdict (rev rs) req.

(** The numbers a jump's immediate can be compared with: the comparison is
    64-bit and the immediate is sign-extended, so a number of 2^31 or more
    never equals a request's. *)
Definition numbers_ok (r : DeviceRule) : bool :=
  match major r, minor r with
  | Some maj, Some min => (maj <? 2 ^ 31) && (min <? 2 ^ 31)
  | _, _ => true
  end.

(** A program's answer does not depend on what its registers hold at entry:
    what the kernel's verifier ensures of every loaded program. *)
Definition entry_independent (prog : list instruction) (req : DevRequest) : Prop :=
  forall fuel regs regs',
    length regs = 11%nat -> length regs' = 11%nat ->
    run_from prog (context req) fuel 0 regs = run_from prog (context req) fuel 0 regs'.

(** Every jump of the program stays in it, the gate's last check. *)
Definition jumps_inside (prog : list instruction) : Prop :=
  forall pc i, prog !! pc = Some i ->
    is_jump (OpCode.class (opcode i)) = true -> OpCode.jump_op (opcode i) <> EXIT ->
    0 <= Z.of_nat pc + offset i + 1.

(** ** Execution *)

(** From [(pc, regs)] the machine is at [(pc', regs')] after [n] turns. *)
Definition reach (prog : list instruction) (ctx : list Z) (n : nat) (pc : Z) (regs : list Z)
    (pc' : Z) (regs' : list Z) : Prop :=
  forall fuel, run_from prog ctx (n + fuel) pc regs = run_from prog ctx fuel pc' regs'.

Lemma reach_refl prog ctx pc regs : reach prog ctx 0 pc regs pc regs.
Proof. intros fuel. done. Qed.

Lemma reach_trans prog ctx n1 n2 pc1 regs1 pc2 regs2 pc3 regs3 :
  reach prog ctx n1 pc1 regs1 pc2 regs2 -> reach prog ctx n2 pc2 regs2 pc3 regs3 ->
  reach prog ctx (n1 + n2) pc1 regs1 pc3 regs3.
Proof.
  intros H1 H2 fuel. rewrite <- Nat.add_assoc, (H1 (n2 + fuel)%nat). apply H2.
Qed.

Lemma reach_step prog ctx i pc regs pc' regs' :
  prog !! pc = Some i ->
  exec_one ctx i (Z.of_nat pc) regs = Some (Continue pc' regs') ->
  reach prog ctx 1 (Z.of_nat pc) regs pc' regs'.
Proof.
  intros Hi He fuel. simpl.
  assert (get_z prog (Z.of_nat pc) = Some i) as ->
    by (apply get_z_Some; rewrite Nat2Z.id; split; [lia|done]).
  simpl. by rewrite He.
Qed.

Lemma reach_next prog ctx i pc regs regs' :
  prog !! pc = Some i ->
  exec_one ctx i (Z.of_nat pc) regs = Some (Continue (Z.of_nat pc + 1) regs') ->
  reach prog ctx 1 (Z.of_nat pc) regs (Z.of_nat (S pc)) regs'.
Proof.
  replace (Z.of_nat (S pc)) with (Z.of_nat pc + 1) by lia. apply reach_step.
Qed.

Lemma run_from_mono prog ctx f f' pc regs v :
  run_from prog ctx f pc regs = Some v -> (f <= f')%nat ->
  run_from prog ctx f' pc regs = Some v.
Proof.
  revert f' pc regs. induction f as [|f IH]; intros f' pc regs Hr Hf; [done|].
  destruct f' as [|f']; [lia|]. simpl in *.
  destruct (get_z prog pc) as [i|]; [simpl in *|done].
  destruct (exec_one ctx i pc regs) as [[pc' regs'|v']|]; simpl in *; try done.
  apply IH; [done|lia].
Qed.

Definition shift_outcome (k : Z) (o : outcome) : outcome :=
  match o with Continue pc regs => Continue (k + pc) regs | Return v => Return v end.

Lemma exec_one_shift ctx i k pc regs :
  exec_one ctx i (k + pc) regs = shift_outcome k <$> exec_one ctx i pc regs.
Proof.
  unfold exec_one. destruct (OpCode.class (opcode i)); simpl; try done.
  all: repeat match goal with
    | |- context [?x ≫= _] => destruct x; simpl; try done
    | |- context [if ?x then _ else _] => destruct x; simpl; try done
    end.
  all: try (do 2 f_equal; lia).
Qed.

(** Where an instruction leads. *)
Lemma exec_one_pc ctx i pc regs pc' regs' :
  exec_one ctx i pc regs = Some (Continue pc' regs') ->
  pc' = pc + 1 \/ (is_jump (OpCode.class (opcode i)) = true
                   /\ OpCode.jump_op (opcode i) <> EXIT /\ pc' = pc + offset i + 1).
Proof.
  unfold exec_one. intros He. destruct (OpCode.class (opcode i)) eqn:Hc; try done.
  all: repeat match type of He with
    | context [?x ≫= _] => destruct x; simpl in He; try discriminate He
    | context [if ?x =? EXIT then _ else _] =>
        destruct (Z.eqb_spec x EXIT); simpl in He; try discriminate He
    | context [if ?x then _ else _] => destruct x; simpl in He; try discriminate He
    end.
  all: injection He as <- <-; auto.
Qed.

(** A program embedded after another runs as it does on its own. *)
Lemma run_from_embed pre prog ctx fuel pc regs :
  jumps_inside prog -> 0 <= pc ->
  run_from (pre ++ prog) ctx fuel (Z.of_nat (length pre) + pc) regs
    = run_from prog ctx fuel pc regs.
Proof.
  intros Hj. revert pc regs. induction fuel as [|fuel IH]; intros pc regs Hpc; [done|].
  simpl. rewrite get_z_app_r by done. destruct (get_z prog pc) as [i|] eqn:Hi; [simpl|done].
  apply get_z_Some in Hi as [_ Hi]. rewrite exec_one_shift.
  destruct (exec_one ctx i pc regs) as [[pc' regs'|v]|] eqn:He; simpl; try done.
  apply IH. specialize (Hj _ _ Hi). rewrite Z2Nat.id in Hj by done.
  destruct (exec_one_pc _ _ _ _ _ _ He) as [->|(Hc & Hx & ->)]; [lia|]. by apply Hj.
Qed.

(** ** Code in place *)

Definition code_at (prog : list instruction) (pos : nat) (l : list instruction) : Prop :=
  forall k i, l !! k = Some i -> prog !! (pos + k)%nat = Some i.

Lemma code_at_app prog pos l1 l2 :
  code_at prog pos (l1 ++ l2) <-> code_at prog pos l1 /\ code_at prog (pos + length l1) l2.
Proof.
  split.
  - intros Hc. split; intros k i Hi.
    + apply Hc. by apply lookup_app_l_Some.
    + rewrite <- Nat.add_assoc. apply Hc. rewrite lookup_app_r by lia. rewrite <- Hi. f_equal. lia.
  - intros [H1 H2] k i Hi. apply lookup_app_Some in Hi as [Hi|[Hk Hi]]; [by apply H1|].
    apply H2 in Hi. rewrite <- Hi. f_equal. lia.
Qed.

Lemma code_at_cons prog pos i l :
  code_at prog pos (i :: l) <-> prog !! pos = Some i /\ code_at prog (S pos) l.
Proof.
  rewrite (code_at_app prog pos [i] l). simpl. rewrite Nat.add_1_r. split.
  - intros [H1 H2]. split; [|done]. rewrite <- (Nat.add_0_r pos). by apply H1.
  - intros [H1 H2]. split; [|done]. intros [|k] j Hj; simplify_eq/=. by rewrite Nat.add_0_r.
Qed.

Lemma code_at_self pre l post : code_at (pre ++ l ++ post) (length pre) l.
Proof.
  intros k i Hi. rewrite lookup_app_r, Nat.add_comm, Nat.add_sub by lia.
  by apply lookup_app_l_Some.
Qed.

(** ** Registers *)

Lemma get_reg_lookup regs r v :
  0 <= r -> regs !! Z.to_nat r = Some v -> get_reg regs r = Some v.
Proof. intros Hr Hv. by apply get_z_Some. Qed.

Lemma set_reg_11 regs r v :
  length regs = 11%nat -> 0 <= r < 11 -> set_reg regs r v = Some (<[Z.to_nat r := v]> regs).
Proof.
  intros Hl Hr. unfold set_reg. rewrite Hl.
  destruct (Z.leb_spec 0 r), (Z.ltb_spec r (Z.of_nat 11)); (done || lia).
Qed.

Lemma get_reg_11 regs r :
  length regs = 11%nat -> 0 <= r < 11 -> is_Some (get_reg regs r).
Proof.
  intros Hl Hr. destruct (lookup_lt_is_Some_2 regs (Z.to_nat r)) as [v Hv]; [lia|].
  exists v. apply get_reg_lookup; [lia|done].
Qed.

(** The context is in the registers the context loads put it in. *)
Record loaded (req : DevRequest) (regs : list Z) : Prop := {
  loaded_len : length regs = 11%nat;
  loaded_kind : regs !! 2%nat = Some (req_kind req);
  loaded_access : regs !! 3%nat = Some (req_access req);
  loaded_major : regs !! 4%nat = Some (req_major req);
  loaded_minor : regs !! 5%nat = Some (req_minor req);
}.

Lemma loaded_scratch req regs r v :
  loaded req regs -> r = 0%nat \/ r = 6%nat -> loaded req (<[r := v]> regs).
Proof.
  intros [Hl H2 H3 H4 H5] Hr. constructor; rewrite ?length_insert; [done|..];
    rewrite list_lookup_insert_ne; (done || lia).
Qed.

(** ** The instructions the builder emits *)

Lemma exec_load_mem ctx d off sz n v pc regs regs' :
  (sz, n) ∈ [(WORD, 4%nat); (HALF, 2%nat)] ->
  load_ctx ctx off n = Some v -> set_reg regs d v = Some regs' ->
  exec_one ctx (load_mem d R1 off sz) pc regs = Some (Continue (pc + 1) regs').
Proof.
  intros Hsz Hv Hr.
  transitivity (v ← load_ctx ctx off n; regs ← set_reg regs d v;
                Some (Continue (pc + 1) regs)); [|by rewrite Hv; simpl; rewrite Hr].
  set_unfold in Hsz. destruct Hsz as [[= -> ->]|[[= -> ->]|[]]]; reflexivity.
Qed.

Lemma exec_alu32_imm ctx op d v pc regs :
  op = MOV \/ op = AND \/ op = RSH ->
  exec_one ctx (alu32_imm op d v) pc regs =
    (value ← get_reg regs d; v ← exec_alu op true value (wrapu 64 v);
     regs ← set_reg regs d v; Some (Continue (pc + 1) regs)).
Proof. intros [->|[->| ->]]; reflexivity. Qed.

Lemma exec_mov_reg ctx d s pc regs :
  exec_one ctx (alu32_reg MOV d s) pc regs =
    (source ← get_reg regs s; value ← get_reg regs d;
     v ← exec_alu MOV true value source;
     regs ← set_reg regs d v; Some (Continue (pc + 1) regs)).
Proof. reflexivity. Qed.

Lemma exec_jne_imm ctx d v off pc regs :
  exec_one ctx (jump_imm JNE d v off) pc regs =
    (left ← get_reg regs d;
     Some (Continue (if left =? wrapu 64 v then pc + 1 else pc + off + 1) regs)).
Proof.
  transitivity (left ← get_reg regs d;
    Some (Continue (if negb (left =? wrapu 64 v) then pc + off + 1 else pc + 1) regs));
    [reflexivity|].
  destruct (get_reg regs d) as [l|]; [|done]. simpl. by destruct (l =? wrapu 64 v).
Qed.

Lemma exec_jne_reg ctx d s off pc regs :
  exec_one ctx (jump_reg JNE d s off) pc regs =
    (left ← get_reg regs d; right ← get_reg regs s;
     Some (Continue (if left =? right then pc + 1 else pc + off + 1) regs)).
Proof.
  transitivity (left ← get_reg regs d; right ← get_reg regs s;
    Some (Continue (if negb (left =? right) then pc + off + 1 else pc + 1) regs));
    [reflexivity|].
  destruct (get_reg regs d) as [l|]; [|done]. simpl.
  destruct (get_reg regs s) as [r|]; [|done]. simpl. by destruct (l =? r).
Qed.

Lemma exec_marker ctx v pc regs :
  length regs = 11%nat ->
  exec_one ctx (marker v) pc regs =
    Some (Continue (pc + 1) (<[0%nat := wrapu 32 (wrapu 64 (wraps 32 v))]> regs)).
Proof.
  intros Hl. unfold marker. rewrite exec_alu32_imm by auto.
  destruct (get_reg_11 regs R0) as [x ->]; [done|done|]. simpl. by rewrite set_reg_11.
Qed.

(** A run of markers only changes [R0]. *)
Lemma markers_reach prog ctx pos vs regs :
  length regs = 11%nat -> code_at prog pos (marker <$> vs) ->
  exists regs', length regs' = 11%nat
    /\ (forall r, r <> 0%nat -> regs' !! r = regs !! r)
    /\ reach prog ctx (length vs) (Z.of_nat pos) regs (Z.of_nat (pos + length vs)) regs'.
Proof.
  revert pos regs. induction vs as [|v vs IH]; intros pos regs Hl Hc.
  - exists regs. rewrite Nat.add_0_r. split_and!; [done|done|apply reach_refl].
  - simpl in Hc. apply code_at_cons in Hc as [Hi Hc].
    destruct (IH (S pos) (<[0%nat := wrapu 32 (wrapu 64 (wraps 32 v))]> regs))
      as (regs' & Hl' & Hr & Hreach); [by rewrite length_insert|done|].
    exists regs'. split_and!; [done| |].
    + intros r Hne. rewrite Hr by done. by rewrite list_lookup_insert_ne.
    + simpl length. change (S (length vs)) with (1 + length vs)%nat.
      eapply reach_trans; [eapply reach_step; [exact Hi|by apply exec_marker]|].
      replace (Z.of_nat pos + 1) with (Z.of_nat (S pos)) by lia.
      replace (pos + (1 + length vs))%nat with (S pos + length vs)%nat by lia. done.
Qed.

(** ** The context loads *)

Lemma from_to_le_bytes_id n z : is_u (8 * Z.of_nat n) z -> from_le_bytes (to_le_bytes n z) = z.
Proof. intros Hz. rewrite from_to_le_bytes. by apply wrapu_id. Qed.

Lemma context_word req :
  valid_request req ->
  wrapu 32 (req_access req ≪ 16) .| req_kind req = req_access req * 65536 + req_kind req.
Proof.
  intros [Hk Ha _ _]. unfold is_u in *. rewrite wrapu_id.
  - by rewrite lor_shiftl_add.
  - unfold is_u. rewrite Z.shiftl_mul_pow2 by lia. lia.
Qed.

Lemma load_ctx_take req k n w :
  (Z.to_nat k + n <= 12)%nat -> 0 <= k -> (n <= 4)%nat ->
  take n (drop (Z.to_nat k) (context req)) = to_le_bytes n w ->
  load_ctx (context req) k n = Some (wrapu (8 * Z.of_nat n) w).
Proof.
  intros Hk Hpos Hn Ht. unfold load_ctx. change (length (context req)) with 12%nat.
  destruct (Z.leb_spec 0 k), (Z.leb_spec (k + Z.of_nat n) (Z.of_nat 12)); try lia.
  simpl. by rewrite Ht, from_to_le_bytes.
Qed.

Lemma load_ctx_fields req :
  valid_request req ->
  load_ctx (context req) 0 2 = Some (req_kind req)
  /\ load_ctx (context req) 0 4 = Some (req_access req * 65536 + req_kind req)
  /\ load_ctx (context req) 4 4 = Some (req_major req)
  /\ load_ctx (context req) 8 4 = Some (req_minor req).
Proof.
  intros Hv. pose proof (context_word req Hv) as Hw. destruct Hv as [Hk Ha Hmaj Hmin].
  set (w := wrapu 32 (req_access req ≪ 16) .| req_kind req) in Hw.
  rewrite (load_ctx_take req 0 2 w), (load_ctx_take req 0 4 w),
    (load_ctx_take req 4 4 (req_major req)), (load_ctx_take req 8 4 (req_minor req))
    by (reflexivity || lia).
  unfold is_u in *. split_and!; f_equal.
  - rewrite Hw. symmetry. apply (Z.mod_unique_pos _ _ (req_access req)); lia.
  - rewrite Hw. apply wrapu_id. unfold is_u. lia.
  - apply wrapu_id. done.
  - apply wrapu_id. done.
Qed.

Lemma init_reach prog req pos regs :
  valid_request req -> length regs = 11%nat -> code_at prog pos (init new_program) ->
  exists regs', loaded req regs'
    /\ reach prog (context req) 5 (Z.of_nat pos) regs (Z.of_nat (pos + 5)) regs'.
Proof.
  intros Hv Hl Hc. destruct (load_ctx_fields req Hv) as (L1 & L2 & L3 & L4).
  destruct regs as [|a0 [|a1 [|a2 [|a3 [|a4 [|a5 [|a6 [|a7 [|a8 [|a9 [|a10 [|]]]]]]]]]]]];
    try discriminate Hl. clear Hl.
  set (k := req_kind req) in *. set (acc := req_access req) in *.
  exists [a0; a1; k; acc; req_major req; req_minor req; a6; a7; a8; a9; a10].
  split; [done|]. simpl in Hc. rewrite !code_at_cons in Hc. destruct Hc as (C1&C2&C3&C4&C5&_).
  replace (pos + 5)%nat with (S (S (S (S (S pos))))) by lia.
  change 5%nat with (1 + (1 + (1 + (1 + 1))))%nat.
  eapply reach_trans.
  { eapply reach_next; [exact C1|]. by eapply exec_load_mem; [|exact L1|]; [set_solver|]. }
  eapply reach_trans.
  { eapply reach_next; [exact C2|]. by eapply exec_load_mem; [|exact L2|]; [set_solver|]. }
  eapply reach_trans.
  { eapply reach_next; [exact C3|]. rewrite exec_alu32_imm by auto. simpl. reflexivity. }
  eapply reach_trans.
  { eapply reach_next; [exact C4|]. by eapply exec_load_mem; [|exact L3|]; [set_solver|]. }
  eapply reach_next; [exact C5|].
  eapply exec_load_mem; [|exact L4|]; [set_solver|]. 
  change (wrapu 64 16 .& 31) with 16. destruct Hv as [Hk Ha _ _]. unfold is_u in Hk, Ha.
  fold k in Hk. fold acc in Ha.
  rewrite (wrapu_id 32 (_ * _ + _)), Z.shiftr_div_pow2 by (unfold is_u; lia).
  replace ((acc * 65536 + k) / 2 ^ 16) with acc
    by (apply (Z.div_unique_pos _ _ _ k); change (2 ^ 16) with 65536 in *; lia).
  by rewrite wrapu_id by (unfold is_u; lia).
Qed.

(** ** Rule blocks

    A segment of a block either falls through, when its condition holds, or
    jumps to the next block, in at most as many turns as it has instructions
    and keeping the context in its registers. *)

Definition segment (req : DevRequest) (steps : list Step) (cond : bool) : Prop :=
  Forall (fun s => width (instr s) = 1%nat) steps
  /\ forall prog ctx next pos regs,
    code_at prog pos (place_block next pos steps) -> loaded req regs ->
    (pos + length steps <= next < pos + 2 ^ 12)%nat ->
    exists n regs', (n <= length steps)%nat /\ loaded req regs'
      /\ reach prog ctx n (Z.of_nat pos) regs
           (Z.of_nat (if cond then pos + length steps else next)) regs'.

Lemma width_with_offset i off : width (with_offset i off) = width i.
Proof. done. Qed.

Lemma place_block_app next pos s1 s2 :
  Forall (fun s => width (instr s) = 1%nat) s1 ->
  place_block next pos (s1 ++ s2)
    = place_block next pos s1 ++ place_block next (pos + length s1) s2.
Proof.
  intros Hw. revert pos. induction Hw as [|s s1 Hs _ IH]; intros pos; simpl.
  - by rewrite Nat.add_0_r.
  - f_equal. assert (width (if to_next_block s
      then with_offset (instr s) (jump_offset next pos) else instr s) = 1%nat) as ->
      by (destruct (to_next_block s); by rewrite ?width_with_offset).
    rewrite IH. do 2 f_equal. lia.
Qed.

Lemma length_place_block next pos s : length (place_block next pos s) = length s.
Proof. revert pos. induction s; intros; simpl; auto. Qed.

Lemma jump_offset_fit next pos :
  (pos < next < pos + 2 ^ 12)%nat ->
  Z.of_nat pos + jump_offset next pos + 1 = Z.of_nat next.
Proof.
  intros Hn. unfold jump_offset. rewrite wraps_id; [lia|lia|]. unfold is_i.
  change (2 ^ 12)%nat with 4096%nat in Hn. lia.
Qed.

Lemma segment_app req s1 s2 c1 c2 :
  segment req s1 c1 -> segment req s2 c2 -> segment req (s1 ++ s2) (c1 && c2).
Proof.
  intros [W1 H1] [W2 H2]. split; [by apply Forall_app|].
  intros prog ctx next pos regs Hc Hl Hn. rewrite length_app in *.
  rewrite place_block_app, code_at_app, length_place_block in Hc by done.
  destruct Hc as [C1 C2].
  destruct (H1 prog ctx next pos regs C1 Hl) as (n1 & r1 & N1 & L1 & R1); [lia|].
  destruct c1; simpl; [|exists n1, r1; split_and!; [lia|done|done]].
  destruct (H2 prog ctx next (pos + length s1)%nat r1 C2 L1) as (n2 & r2 & N2 & L2 & R2); [lia|].
  exists (n1 + n2)%nat, r2. split_and!; [lia|done|].
  rewrite Nat.add_assoc. by eapply reach_trans.
Qed.

Lemma segment_nil req : segment req [] true.
Proof.
  split; [constructor|]. intros prog ctx next pos regs _ Hl _. exists 0%nat, regs.
  rewrite Nat.add_0_r. split_and!; [done|done|apply reach_refl].
Qed.

(** A comparison of a context register with a number. *)
Lemma segment_jne req r v x :
  (forall regs, loaded req regs -> get_reg regs r = Some x) ->
  is_i 32 v -> is_u 32 x ->
  segment req [step_jump (jump_imm JNE r v (-1))] ((0 <=? v) && (x =? v)).
Proof.
  intros Hr Hv Hx. split; [by repeat constructor|].
  intros prog ctx next pos regs Hc Hl Hn. exists 1%nat, regs. split_and!; [done|done|].
  simpl in Hc. cbn [length] in Hn |- *. apply code_at_cons in Hc as [Hi _].
  eapply reach_step; [exact Hi|]. unfold with_offset.
  change (Instruction _ _ _ _ _) with (jump_imm JNE r v (jump_offset next pos)).
  rewrite exec_jne_imm, (Hr _ Hl). simpl. do 2 f_equal.
  unfold is_i in Hv. assert (x =? wrapu 64 v = (0 <=? v) && (x =? v)) as ->.
  { destruct (Z.leb_spec 0 v); simpl.
    - rewrite wrapu_id; [done|unfold is_u; lia].
    - apply Z.eqb_neq. intros Heq. unfold wrapu in Heq.
      rewrite <- (Z.mod_unique_pos v _ (-1) (v + 2 ^ 64)) in Heq by lia.
      unfold is_u in Hx. lia. }
  destruct ((0 <=? v) && (x =? v)); [lia|]. apply jump_offset_fit. lia.
Qed.


(** A rule's number: none when it is the wildcard, and no request's when its
    immediate is negative. *)
Definition number_matches (number x : Z) : bool :=
  (number <? 0) || ((number <? 2 ^ 31) && (x =? number)).

Lemma segment_number req r number x :
  (forall regs, loaded req regs -> get_reg regs r = Some x) ->
  is_u 32 x -> number <= U32_MAX ->
  segment req (if 0 <=? number then [step_jump (jump_imm JNE r (low_i32 number) (-1))] else [])
    (number_matches number x).
Proof.
  intros Hr Hx Hn. unfold number_matches. destruct (Z.leb_spec 0 number) as [Hpos|Hneg].
  - assert (is_u 32 number) as Hu by (unfold is_u; unfold U32_MAX in Hn; lia).
    assert (low_i32 number = wraps 32 number) as El
      by (unfold low_i32, low_u32; by rewrite wraps_wrapu by lia).
    destruct (Z.ltb_spec number 0) as [|_]; [lia|]. simpl orb.
    replace ((number <? 2 ^ 31) && (x =? number))
      with ((0 <=? low_i32 number) && (x =? low_i32 number)).
    { apply segment_jne; [done| |done]. rewrite El. apply wraps_range. lia. }
    rewrite El. destruct (Z.leb_spec 0 (wraps 32 number)) as [Hw|Hw].
    + destruct (wraps_nonneg 32 number) as [-> Hlt]; [lia|done|done|].
      apply Z.ltb_lt in Hlt. change (32 - 1) with 31 in Hlt. by rewrite Hlt.
    + destruct (Z.ltb_spec number (2 ^ 31)) as [Hlt|]; [|done]. unfold is_u in Hu.
      rewrite wraps_id in Hw; [lia|lia|]. unfold is_i. change (32 - 1) with 31. lia.
  - destruct (Z.ltb_spec number 0) as [_|]; [|lia]. apply segment_nil.
Qed.

Lemma segment_type req dev :
  is_u 16 (req_kind req) -> dev ∈ [None; Some DEV_CHAR; Some DEV_BLOCK] ->
  segment req (match dev with Some t => [step_jump (jump_imm JNE R2 t (-1))] | None => [] end)
    match dev with Some t => req_kind req =? t | None => true end.
Proof.
  intros Hk Hd. assert (forall t, t = DEV_CHAR \/ t = DEV_BLOCK ->
    segment req [step_jump (jump_imm JNE R2 t (-1))] (req_kind req =? t)) as Hseg.
  { intros t Ht. replace (req_kind req =? t) with ((0 <=? t) && (req_kind req =? t))
      by (by destruct Ht as [->| ->]).
    apply segment_jne.
    - intros regs Hl. apply get_reg_lookup; [done|apply Hl].
    - by destruct Ht as [->| ->].
    - unfold is_u in *. lia. }
  set_unfold in Hd. destruct Hd as [->|[->|[->|[]]]];
    [apply segment_nil|apply Hseg; auto..].
Qed.

Lemma segment_access req mask :
  is_u 3 (req_access req) -> is_u 3 mask ->
  segment req [step_plain (alu32_reg MOV R6 R3); step_plain (alu32_imm AND R6 mask);
               step_jump (jump_reg JNE R6 R3 (-1))]
    ((req_access req .& mask) =? req_access req).
Proof.
  intros Ha Hm. split; [by repeat constructor|].
  intros prog ctx next pos regs Hc Hl Hn. simpl in Hc. cbn [length] in Hn |- *.
  rewrite !code_at_cons in Hc. destruct Hc as (C1 & C2 & C3 & _). clear - Ha Hm Hl Hn C1 C2 C3.
  change (width _) with 1%nat in C3.
  change (width (alu32_imm AND R6 mask)) with 1%nat in C3.
  replace (pos + 1 + 1)%nat with (S (S pos)) in C3 by lia.
  set (acc := req_access req) in *.
  assert (get_reg regs R3 = Some acc) as G3 by (apply get_reg_lookup; [done|apply Hl]).
  set (regs1 := <[6%nat := acc]> regs). set (regs2 := <[6%nat := acc .& mask]> regs1).
  assert (loaded req regs1) as L1 by (apply loaded_scratch; auto).
  assert (loaded req regs2) as L2 by (apply loaded_scratch; auto).
  assert (get_reg regs1 R6 = Some acc) as G1.
  { apply get_reg_lookup; [done|]. apply list_lookup_insert_eq.
    rewrite (loaded_len _ _ Hl). unfold R6. lia. }
  assert (get_reg regs2 R6 = Some (acc .& mask)) as G2.
  { apply get_reg_lookup; [done|]. apply list_lookup_insert_eq.
    rewrite (loaded_len _ _ L1). unfold R6. lia. }
  unfold is_u in Ha, Hm. pose proof (land_range acc mask) as Hland.
  exists 3%nat, regs2. split_and!; [done|done|]. 
  apply (reach_trans _ _ 1 2 _ _ (Z.of_nat (S pos)) regs1).
  { eapply reach_next; [exact C1|]. rewrite exec_mov_reg, G3.
    destruct (get_reg_11 regs R6) as [? ->]; [apply Hl|done|]. simpl.
    rewrite set_reg_11 by (done || apply Hl). rewrite wrapu_id by (unfold is_u; lia). done. }
  apply (reach_trans _ _ 1 1 _ _ (Z.of_nat (S (S pos))) regs2).
  { eapply reach_next; [exact C2|]. rewrite exec_alu32_imm, G1 by auto. simpl.
    rewrite set_reg_11 by (done || apply L1).
    rewrite (wrapu_id 64), wrapu_id by (unfold is_u; lia). done. }
  eapply reach_step; [exact C3|]. unfold with_offset.
  change (Instruction _ _ _ _ _) with (jump_reg JNE R6 R3 (jump_offset next (S (S pos)))).
  rewrite exec_jne_reg, G2. simpl.
  rewrite (get_reg_lookup regs2 R3 acc) by (done || apply L2). simpl. do 2 f_equal.
  destruct ((acc .& mask) =? acc); [lia|]. apply jump_offset_fit. lia.
Qed.

Lemma is_u3_cases (P : Z -> Prop) a :
  is_u 3 a -> P 0 -> P 1 -> P 2 -> P 3 -> P 4 -> P 5 -> P 6 -> P 7 -> P a.
Proof.
  unfold is_u. intros Ha. intros.
  assert (a = 0 \/ a = 1 \/ a = 2 \/ a = 3 \/ a = 4 \/ a = 5 \/ a = 6 \/ a = 7) as Hc by lia.
  by destruct_or! Hc; subst.
Qed.

(** What the emitted block of a rule compares. *)
Definition block_matches (dev : option Z) (mask maj min : Z) (req : DevRequest) : bool :=
  match dev with Some t => req_kind req =? t | None => true end
  && ((req_access req .& mask) =? req_access req)
  && number_matches maj (req_major req) && number_matches min (req_minor req).

(** The fields of a rule that [append_device] accepts. *)
Record fields_ok (dev : option Z) (mask maj min : Z) : Prop := {
  fields_dev : dev ∈ [None; Some DEV_CHAR; Some DEV_BLOCK];
  fields_mask : is_u 3 mask;
  fields_major : maj <= U32_MAX;
  fields_minor : min <= U32_MAX;
}.

Definition checks (dev : option Z) (mask maj min : Z) : list Step :=
  match dev with
  | Some t => [step_jump (jump_imm JNE R2 t (-1))]
  | None => []
  end
  ++ (if negb (mask =? (ACC_READ .| ACC_WRITE .| ACC_MKNOD))
      then [step_plain (alu32_reg MOV R6 R3);
            step_plain (alu32_imm AND R6 mask);
            step_jump (jump_reg JNE R6 R3 (-1))]
      else [])
  ++ (if 0 <=? maj then [step_jump (jump_imm JNE R4 (low_i32 maj) (-1))] else [])
  ++ (if 0 <=? min then [step_jump (jump_imm JNE R5 (low_i32 min) (-1))] else []).

Definition verdict_steps (allow : bool) : list Step :=
  [step_plain (alu32_imm MOV R0 (if allow then 1 else 0)); step_plain exit].

Lemma rule_block_checks dev mask maj min allow :
  rule_block dev mask maj min allow = checks dev mask maj min ++ verdict_steps allow.
Proof. unfold rule_block, checks. by rewrite <- !app_assoc. Qed.

Lemma segment_checks req dev mask maj min :
  valid_request req -> fields_ok dev mask maj min ->
  segment req (checks dev mask maj min) (block_matches dev mask maj min req).
Proof.
  intros [Hk Ha Hmaj Hmin] [Fd Fm Fj Fn]. unfold checks, block_matches.
  rewrite <- !andb_assoc. apply segment_app; [by apply segment_type|].
  apply segment_app.
  { destruct (Z.eqb_spec mask (ACC_READ .| ACC_WRITE .| ACC_MKNOD)) as [->|_]; simpl.
    - replace ((req_access req .& _) =? req_access req) with true; [apply segment_nil|].
      by apply (is_u3_cases (fun a => true = ((a .& 7) =? a)) (req_access req)).
    - by apply segment_access. }
  apply segment_app; apply segment_number; try done; intros regs Hl;
    (apply get_reg_lookup; [done|apply Hl]).
Qed.

Lemma length_checks dev mask maj min : (length (checks dev mask maj min) <= 6)%nat.
Proof. unfold checks. rewrite !length_app. repeat case_match; simpl; lia. Qed.

Lemma rule_block_widths dev mask maj min allow :
  Forall (fun s => width (instr s) = 1%nat) (rule_block dev mask maj min allow).
Proof.
  unfold rule_block. repeat (apply Forall_app; split); repeat case_match;
    repeat constructor.
Qed.

(** The verdict of a block: set [R0] and leave. *)
Lemma verdict_returns prog ctx next pos b regs fuel :
  code_at prog pos (place_block next pos (verdict_steps b)) -> length regs = 11%nat ->
  run_from prog ctx (2 + fuel) (Z.of_nat pos) regs = Some (if b then 1 else 0).
Proof.
  intros Hc Hl. simpl in Hc. rewrite !code_at_cons in Hc. destruct Hc as (C1 & C2 & _).
  set (regs1 := <[0%nat := (if b then 1 else 0)]> regs).
  assert (reach prog ctx 1 (Z.of_nat pos) regs (Z.of_nat (S pos)) regs1) as HR.
  { eapply reach_next; [exact C1|]. rewrite exec_alu32_imm by auto.
    destruct (get_reg_11 regs R0) as [? ->]; [done|done|]. simpl.
    rewrite set_reg_11 by done. by destruct b. }
  etransitivity; [exact (HR (S fuel))|]. cbn [run_from].
  assert (get_z prog (Z.of_nat (S pos)) = Some exit) as ->
    by (apply get_z_Some; rewrite Nat2Z.id; split; [lia|done]).
  assert (exec_one ctx exit (Z.of_nat (S pos)) regs1 = Some (Return (if b then 1 else 0)))
    as He; [|by simpl; rewrite He].
  transitivity (v ← get_reg regs1 R0; Some (Return v)); [done|].
  rewrite (get_reg_lookup regs1 R0 (if b then 1 else 0)); [done|done|].
  apply list_lookup_insert_eq. lia.
Qed.

(** A block answers when its rule matches and leads to the next one otherwise. *)
Lemma block_run prog req next pos dev mask maj min b regs :
  valid_request req -> fields_ok dev mask maj min -> loaded req regs ->
  let blk := rule_block dev mask maj min b in
  next = (pos + length blk)%nat ->
  code_at prog pos (place_block next pos blk) ->
  if block_matches dev mask maj min req
  then forall fuel, (length blk <= fuel)%nat ->
       run_from prog (context req) fuel (Z.of_nat pos) regs = Some (if b then 1 else 0)
  else exists n regs', (n <= length blk)%nat /\ loaded req regs'
       /\ reach prog (context req) n (Z.of_nat pos) regs (Z.of_nat next) regs'.
Proof.
  intros Hv Hf Hl blk Hn Hc. subst blk. rewrite rule_block_checks in *.
  destruct (segment_checks req _ _ _ _ Hv Hf) as [Hw Hs]. rewrite length_app in *.
  pose proof (length_checks dev mask maj min) as Hlen.
  rewrite place_block_app, code_at_app, length_place_block in Hc by done.
  destruct Hc as [C1 C2].
  destruct (Hs prog (context req) next pos regs C1 Hl) as (n & regs' & Hn' & Hl' & HR).
  { cbn [length verdict_steps] in Hn. change (2 ^ 12)%nat with 4096%nat. lia. }
  destruct (block_matches _ _ _ _ _); [|exists n, regs'; split_and!; [lia|done|done]].
  intros fuel Hfuel. apply (run_from_mono _ _ (n + (2 + 0))); [|simpl in Hfuel; lia].
  rewrite HR. eapply verdict_returns; [exact C2|apply Hl'].
Qed.

(** ** The chain of blocks *)

Definition block_of (f : rule_fields) : list Step :=
  rule_block (f_dev f) (f_mask f) (f_major f) (f_minor f) (f_allow f).

Definition emitted_match (f : rule_fields) (req : DevRequest) : bool :=
  block_matches (f_dev f) (f_mask f) (f_major f) (f_minor f) req.

Definition well_read (f : rule_fields) : Prop :=
  fields_ok (f_dev f) (f_mask f) (f_major f) (f_minor f).

Fixpoint first_emitted (fs : list rule_fields) (req : DevRequest) : option bool :=
  match fs with
  | [] => None
  | f :: fs => if emitted_match f req then Some (f_allow f) else first_emitted fs req
  end.

Definition chain_length (fs : list rule_fields) : nat := sum_list (length <$> (block_of <$> fs)).

Lemma block_width_block_of f : block_width (block_of f) = length (block_of f).
Proof.
  unfold block_width, widths, block_of.
  induction (rule_block_widths (f_dev f) (f_mask f) (f_major f) (f_minor f) (f_allow f))
    as [|s l Hs _ IH]; csimpl; [done|]. rewrite Hs, IH. lia.
Qed.

Lemma widths_place_block next pos f :
  widths (place_block next pos (block_of f)) = length (block_of f).
Proof.
  unfold widths, block_of. revert pos.
  induction (rule_block_widths (f_dev f) (f_mask f) (f_major f) (f_minor f) (f_allow f))
    as [|s l Hs _ IH]; intros pos; csimpl; [done|]. rewrite IH.
  destruct (to_next_block s); rewrite ?width_with_offset, Hs; lia.
Qed.

Lemma chain_run prog req fs pos regs :
  valid_request req -> Forall well_read fs -> loaded req regs ->
  let bs := block_of <$> fs in
  code_at prog pos (place_blocks pos bs (next_starts pos bs)) ->
  match first_emitted fs req with
  | Some b => forall fuel, (chain_length fs <= fuel)%nat ->
      run_from prog (context req) fuel (Z.of_nat pos) regs = Some (if b then 1 else 0)
  | None => exists n regs', (n <= chain_length fs)%nat /\ length regs' = 11%nat
      /\ reach prog (context req) n (Z.of_nat pos) regs
           (Z.of_nat (pos + chain_length fs)) regs'
  end.
Proof.
  intros Hv. revert pos regs. induction fs as [|f fs IH]; intros pos regs Hw Hl bs Hc.
  - exists 0%nat, regs. rewrite Nat.add_0_r. split_and!; [done|apply Hl|apply reach_refl].
  - subst bs. simpl in Hc. apply Forall_cons in Hw as [Hf Hw].
    rewrite widths_place_block, block_width_block_of in Hc.
    apply code_at_app in Hc as [C1 C2]. rewrite length_place_block in C2.
    pose proof (block_run prog req (pos + length (block_of f))%nat pos _ _ _ _ (f_allow f)
      regs Hv Hf Hl eq_refl C1) as Hb. fold (block_of f) in Hb.
    change (chain_length (f :: fs)) with (length (block_of f) + chain_length fs)%nat.
    cbn [first_emitted].
    change (block_matches _ _ _ _ _) with (emitted_match f req) in Hb.
    destruct (emitted_match f req).
    + intros fuel Hfuel. apply Hb. lia.
    + destruct Hb as (n & regs' & Hn & Hl' & HR).
      specialize (IH _ _ Hw Hl' C2). destruct (first_emitted fs req) as [b|].
      * intros fuel Hfuel.
        apply (run_from_mono _ _ (n + chain_length fs)); [|lia]. rewrite HR. apply IH. lia.
      * destruct IH as (n' & regs'' & Hn' & Hl'' & HR'). exists (n + n')%nat, regs''.
        split_and!; [lia|done|].
        rewrite Nat.add_assoc. by eapply reach_trans.
Qed.

(** ** The rules the builder reads *)

Lemma access_mask_u3 s m mask : access_mask s m = Ok mask -> is_u 3 m -> is_u 3 mask.
Proof.
  revert m. induction s as [|c s IH]; intros m Hm Hu; simpl in Hm; [by inv_ok|].
  inv_ok. apply (IH _ Hm).
  assert (x = ACC_READ \/ x = ACC_WRITE \/ x = ACC_MKNOD) as Hx
    by (repeat case_match; simplify_eq; auto).
  destruct_or! Hx; subst;
    by apply (is_u3_cases (fun m => is_u 3 (m .| _)) m).
Qed.

Lemma device_type_ok k dev :
  device_type k = Ok dev -> dev ∈ [None; Some DEV_CHAR; Some DEV_BLOCK].
Proof. unfold device_type. intros. repeat case_match; simplify_eq; set_solver. Qed.

(** A rule the builder accepts, when no wildcard precedes it. *)
Lemma append_device_spec p r p' :
  finalized p = false -> has_wild_card p = false -> append_device p r = Ok p' ->
  exists f, read_rule r = Ok f /\ well_read f /\ f_allow f = allow r
    /\ init p' = init p /\ blocks p' = blocks p ++ [block_of f] /\ finalized p' = false
    /\ has_wild_card p' = is_wild_card (f_dev f) (f_mask f) (f_major f) (f_minor f).
Proof.
  unfold append_device. intros -> -> Ha. inv_ok.
  destruct (Z.ltb_spec U32_MAX x0) as [|Hmaj]; [done|].
  destruct (Z.ltb_spec U32_MAX x1) as [|Hmin]; [done|]. inv_ok.
  unfold read_rule. rewrite E, E0, E1. simpl. rewrite E2. simpl.
  eexists. split; [done|]. split_and!; [|done..].
  constructor; simpl; [by eapply device_type_ok| |lia|lia].
  by eapply access_mask_u3.
Qed.

Lemma append_all_wild p rs :
  finalized p = false -> has_wild_card p = true -> append_all p rs = Ok p.
Proof.
  intros Hf Hw. induction rs as [|r rs IH]; [done|].
  simpl. unfold append_device. by rewrite Hf, Hw.
Qed.

Lemma wild_card_matches f req :
  valid_request req ->
  is_wild_card (f_dev f) (f_mask f) (f_major f) (f_minor f) = true -> emitted_match f req = true.
Proof.
  intros [_ Ha _ _] Hw. unfold is_wild_card in Hw. rewrite !andb_true_iff in Hw.
  destruct Hw as (((Hd & Hm) & Hj) & Hn). apply bool_decide_eq_true in Hd.
  apply Z.eqb_eq in Hm. unfold emitted_match, block_matches, number_matches.
  rewrite Hd, Hm, Hj, Hn. simpl. rewrite !andb_true_r.
  by apply (is_u3_cases (fun a => (a .& 7) =? a = true) (req_access req)).
Qed.

(** Whether the block the builder emits for a rule matches. *)
Definition emitted_matches (r : DeviceRule) (req : DevRequest) : bool :=
  match read_rule r with Ok f => emitted_match f req | Err _ => false end.

Fixpoint first_emitted_rule (rs : list DeviceRule) (req : DevRequest) : option bool :=
  match rs with
  | [] => None
  | r :: rs => if emitted_matches r req then Some (allow r) else first_emitted_rule rs req
  end.

(** The rules that reach the program: a wildcard is the last one, because no
    block after it could be reached. *)
Definition wild (f : rule_fields) : bool :=
  is_wild_card (f_dev f) (f_mask f) (f_major f) (f_minor f).

Fixpoint read_rules (rs : list DeviceRule) : list rule_fields :=
  match rs with
  | [] => []
  | r :: rs =>
      match read_rule r with
      | Ok f => f :: if wild f then [] else read_rules rs
      | Err _ => []
      end
  end.

Lemma append_all_spec p rs p' :
  finalized p = false -> has_wild_card p = false -> append_all p rs = Ok p' ->
  let fs := read_rules rs in
  Forall well_read fs /\ init p' = init p /\ finalized p' = false
  /\ blocks p' = blocks p ++ (block_of <$> fs)
  /\ forall req, valid_request req -> first_emitted fs req = first_emitted_rule rs req.
Proof.
  revert p. induction rs as [|r rs IH]; intros p Hf Hw Ha; simpl in Ha |- *.
  - inv_ok. rewrite app_nil_r. by split_and!.
  - apply bind_Ok in Ha as (p1 & H1 & Ha).
    destruct (append_device_spec _ _ _ Hf Hw H1) as (f & Hr & Hwr & Hal & Hi & Hb & Hf1 & Hw1).
    unfold emitted_matches. rewrite Hr. fold (wild f) in Hw1. destruct (wild f) eqn:Ew.
    + rewrite append_all_wild in Ha by done. inv_ok. split_and!; [by constructor|done..|].
      intros req Hv. simpl. by rewrite wild_card_matches, Hal.
    + destruct (IH p1 Hf1 Hw1 Ha) as (HF & Hi' & Hf' & Hb' & Hv').
      split_and!; [by constructor|congruence|done| |].
      * rewrite Hb', Hb, <- app_assoc. done.
      * intros req Hv. simpl. by rewrite (Hv' req Hv), Hal.
Qed.

(** Numbers below 2^31 are compared as they are. *)
Lemma emitted_matches_spec r req :
  numbers_ok r = true -> emitted_matches r req = rule_matches r req.
Proof.
  intros Hn. unfold emitted_matches, rule_matches.
  destruct (read_rule r) as [f|] eqn:Hr; [|done]. unfold read_rule in Hr. inv_ok.
  unfold numbers_ok in Hn. rewrite E0, E1, andb_true_iff in Hn. destruct Hn as [Hj Hm].
  unfold emitted_match, block_matches, fields_match, number_matches. simpl.
  by rewrite Hj, Hm.
Qed.

Lemma first_emitted_rule_spec rs req :
  forallb numbers_ok rs = true -> first_emitted_rule rs req = first_verdict rs req.
Proof.
  induction rs as [|r rs IH]; intros Hn; simpl in *; [done|].
  apply andb_true_iff in Hn as [Hr Hn]. by rewrite emitted_matches_spec, IH.
Qed.

(** ** The whole filter *)

Lemma widths_app l1 l2 : widths (l1 ++ l2) = (widths l1 + widths l2)%nat.
Proof. unfold widths. by rewrite fmap_app, sum_list_with_app. Qed.

Lemma widths_markers vs : widths (marker <$> vs) = length vs.
Proof.
  induction vs as [|v vs IH]; [done|]. rewrite fmap_cons.
  change (marker v :: (marker <$> vs)) with ([marker v] ++ (marker <$> vs)).
  by rewrite widths_app, IH.
Qed.

Lemma length_place_blocks pos fs :
  length (place_blocks pos (block_of <$> fs) (next_starts pos (block_of <$> fs)))
    = chain_length fs.
Proof.
  revert pos. induction fs as [|f fs IH]; intros pos; [done|]. csimpl.
  rewrite length_app, length_place_block, widths_place_block, block_width_block_of, IH. done.
Qed.

(** A laid out filter: the header's markers, the context loads, the blocks, the
    trailer's markers and the original. *)
Definition filter_code (hs : list Z) (fs : list rule_fields) (ts : list Z)
    (orig : list instruction) : list instruction :=
  let pos := (length hs + 5)%nat in
  (marker <$> hs) ++ init new_program
    ++ place_blocks pos (block_of <$> fs) (next_starts pos (block_of <$> fs))
    ++ (marker <$> ts) ++ orig.

Lemma layout_filter_code body fs hs ts orig :
  init body = init new_program -> blocks body = block_of <$> fs ->
  layout body (marker <$> hs) ((marker <$> ts) ++ orig) = filter_code hs fs ts orig.
Proof.
  intros Hi Hb. unfold layout, filter_code. rewrite Hi, Hb, widths_app, widths_markers.
  by rewrite <- app_assoc.
Qed.

Lemma filter_code_verdict hs fs ts orig req :
  valid_request req -> Forall well_read fs ->
  match first_emitted fs req with
  | Some b => run_instructions (filter_code hs fs ts orig) req = Some (if b then 1 else 0)
  | None => jumps_inside orig -> entry_independent orig req ->
      forall v, run_instructions orig req = Some v ->
              run_instructions (filter_code hs fs ts orig) req = Some v
  end.
Proof.
  intros Hv Hw. unfold run_instructions. set (ctx := context req).
  set (prog := filter_code hs fs ts orig).
  assert (length prog = length hs + 5 + chain_length fs + length ts + length orig)%nat as Hlen.
  { unfold prog, filter_code. rewrite !length_app, !length_fmap, length_place_blocks. simpl. lia. }
  assert (code_at prog 0 prog) as Hc by (by intros k i).
  unfold prog at 2, filter_code in Hc. rewrite !code_at_app, !length_fmap, length_place_blocks in Hc.
  destruct Hc as (C1 & C2 & C3 & C4 & C5).
  destruct (markers_reach prog ctx 0 hs zero_regs eq_refl C1) as (r1 & L1 & _ & R1).
  destruct (init_reach prog req _ r1 Hv L1 C2) as (r2 & L2 & R2).
  pose proof (chain_run prog req fs _ r2 Hv Hw L2 C3) as HR.
  assert (reach prog ctx (length hs + 5) 0 zero_regs (Z.of_nat (0 + length hs + 5)) r2) as R12
    by (by eapply reach_trans).
  destruct (first_emitted fs req) as [b|].
  - apply (run_from_mono _ _ (length hs + 5 + chain_length fs)); [|unfold turns; lia].
    rewrite R12. by apply HR.
  - intros Hj He v Hrun. destruct HR as (n & r3 & Hn & L3 & R3).
    destruct (markers_reach prog ctx _ ts r3 L3 C4) as (r4 & L4 & _ & R4).
    apply (run_from_mono _ _ (length hs + 5 + (n + (length ts + turns orig))));
      [|unfold turns; lia].
    rewrite R12, R3, R4.
    assert (exists pre, prog = pre ++ orig
      /\ length pre = (0 + length hs + 5 + chain_length fs + length ts)%nat) as (pre & -> & Hp).
    { exists ((marker <$> hs) ++ init new_program
        ++ place_blocks (length hs + 5) (block_of <$> fs)
             (next_starts (length hs + 5) (block_of <$> fs)) ++ (marker <$> ts)).
      split; [unfold prog, filter_code; by rewrite <- !app_assoc|].
      rewrite !length_app, !length_fmap, length_place_blocks. simpl. lia. }
    match goal with |- run_from _ _ _ (Z.of_nat ?p) _ = _ =>
      replace (Z.of_nat p) with (Z.of_nat (length pre) + 0) by (rewrite Hp; simpl; lia) end.
    rewrite run_from_embed by done.
    rewrite <- Hrun. by apply He.
Qed.

(** What [layout] of the rules' blocks answers. *)
Lemma layout_verdict rs body hs ts orig req :
  append_all new_program rs = Ok body -> valid_request req ->
  let prog := layout body (marker <$> hs) ((marker <$> ts) ++ orig) in
  match first_emitted_rule rs req with
  | Some b => run_instructions prog req = Some (if b then 1 else 0)
  | None => jumps_inside orig -> entry_independent orig req ->
      forall v, run_instructions orig req = Some v -> run_instructions prog req = Some v
  end.
Proof.
  intros Ha Hv prog.
  destruct (append_all_spec new_program rs body eq_refl eq_refl Ha) as (Hw & Hi & _ & Hb & Hfe).
  rewrite <- (Hfe req Hv). subst prog.
  rewrite (layout_filter_code body (read_rules rs)) by done.
  by apply filter_code_verdict.
Qed.
