(* ===== verification/OwnedProofs.v ===== *)
(** * The daemon's device filter: emission, parsing, the gate

    The gate admits only programs whose re-encoding is the bytes they were
    dumped as and whose jumps stay inside; a wrapper decides by its rules first
    and by the program it wraps otherwise; parsing inverts emission; and the
    innermost program of nested wrappers is always reached. *)

From S2P Require Import Prelude.
From S2P Require Import Asm.
From S2P Require Import AsmText.
From S2P Require Import Codec.
From S2P Require Import CodecProofs.
From S2P Require Import Ebpf.
From S2P Require Import Bpf.
From S2P Require Import Owned.
From S2P Require Import Verdict.

Local Open Scope Z_scope.

(** ** The gate *)

Lemma in_subset_stable i : in_subset i = true -> stable i = true.
Proof.
  unfold in_subset, stable, is_builtin_call. intros Hs.
  destruct (OpCode.class (opcode i)) eqn:Hc; try done; simpl.
  1: by unfold OpCode.jump_op; rewrite Hc.
  1, 4: apply andb_true_iff in Hs as [_ ->]; unfold OpCode.jump_op; by rewrite Hc.
  all: destruct (Z.eqb_spec (OpCode.jump_op (opcode i)) CALL) as [E|]; [|done];
    rewrite E in Hs; simpl in Hs; discriminate Hs.
Qed.

Lemma mapM_index_gate len k l us :
  mapM_index (gate_instruction len) k l = Ok us ->
  forall j i, l !! j = Some i -> gate_instruction len (k + j) i = Ok tt.
Proof.
  revert k us. induction l as [|x l IH]; intros k us Hm j i Hi; [done|].
  simpl in Hm. inv_ok. destruct j as [|j]; simplify_eq/=.
  - rewrite Nat.add_0_r. by destruct x0.
  - rewrite <- Nat.add_succ_comm. by eapply IH.
Qed.

Lemma gate_instruction_Ok len k i :
  gate_instruction len k i = Ok tt ->
  in_subset i = true
  /\ (is_jump (OpCode.class (opcode i)) = true -> OpCode.jump_op (opcode i) <> EXIT ->
      0 <= Z.of_nat k + offset i + 1 < Z.of_nat len).
Proof.
  unfold gate_instruction. intros Hg. destruct (in_subset i); [|done]. split; [done|].
  intros Hj Hx. rewrite Hj in Hg. apply Z.eqb_neq in Hx. rewrite Hx in Hg. simpl in Hg.
  destruct (Z.leb_spec 0 (Z.of_nat k + offset i + 1)); [|done].
  destruct (Z.ltb_spec (Z.of_nat k + offset i + 1) (Z.of_nat len)); [|done]. lia.
Qed.

(** What the gate guarantees of the programs it admits. *)
Lemma check_wrappable_Ok l meta :
  check_wrappable l meta = Ok tt ->
  l <> [] /\ Forall (fun i => in_subset i = true) l /\ jumps_inside l
  /\ Forall (fun i => stable i = true) l.
Proof.
  unfold check_wrappable. intros Hg. repeat (case_match; try done). inv_ok.
  pose proof (mapM_index_gate _ _ _ _ E) as Hall.
  assert (Forall (fun i => in_subset i = true) l) as Hs.
  { apply Forall_lookup. intros j i Hi. by apply (gate_instruction_Ok _ _ _ (Hall _ _ Hi)). }
  split_and!; [|done| |].
  - intros ->. done.
  - intros pc i Hi Hj Hx. by apply (gate_instruction_Ok _ _ _ (Hall _ _ Hi)).
  - eapply Forall_impl; [exact Hs|]. apply in_subset_stable.
Qed.

(** ** The builder's instructions survive the encoding as they are *)

Record plain (i : instruction) : Prop := {
  plain_range : in_range i;
  plain_canonical : canonical_form i = i;
}.

Lemma wraps32_i64 v : is_i 64 (wraps 32 v).
Proof. pose proof (wraps_range 32 v ltac:(lia)). unfold is_i in *. lia. Qed.

Lemma low_i32_wraps v : low_i32 (wraps 32 v) = wraps 32 v.
Proof. apply low_i32_id, wraps_range. lia. Qed.

Lemma plain_marker v : plain (marker v).
Proof.
  constructor.
  - constructor; try done. apply wraps32_i64.
  - unfold marker, canonical_form. simpl. by rewrite low_i32_wraps.
Qed.

Lemma plain_step next pos s :
  plain (instr s) -> is_alu (OpCode.class (opcode (instr s))) = false ->
  plain (with_offset (instr s) (jump_offset next pos)).
Proof.
  intros [[R1 R2 R3 R4 R5] Hc] Ha. set (off := jump_offset next pos).
  assert (is_i 16 off) as Ho by (apply wraps_range; lia).
  destruct s as [[op d sr o c] b]. simpl in *. constructor; [by constructor|].
  unfold canonical_form in *. simpl in *. unfold with_offset. simpl.
  change (is_builtin_call (Instruction op d sr off c))
    with (is_builtin_call (Instruction op d sr o c)).
  destruct (is_builtin_call _); [congruence|]. rewrite Ha in *.
  destruct (OpCode.atomic_op op =? INVALID_ATOMIC); simpl in *; [|congruence].
  destruct (OpCode.is_dword_load op); congruence.
Qed.

(** A step whose instruction survives, wherever its jump leads. *)
Definition plain_in_place (s : Step) : Prop :=
  plain (instr s)
  /\ (to_next_block s = true -> is_alu (OpCode.class (opcode (instr s))) = false).

Lemma plain_place_block next pos b :
  Forall plain_in_place b -> Forall plain (place_block next pos b).
Proof.
  intros Hb. revert pos. induction Hb as [|s b [Hs Ha] _ IH]; intros pos; simpl; [done|].
  constructor; [|apply IH]. destruct (to_next_block s); [|done]. by apply plain_step, Ha.
Qed.

Lemma plain_place_blocks pos bs nexts :
  Forall (Forall plain_in_place) bs -> Forall plain (place_blocks pos bs nexts).
Proof.
  intros Hb. revert pos nexts. induction Hb as [|b bs Hb _ IH]; intros pos [|n nexts]; simpl; try done.
  apply Forall_app_2; [by apply plain_place_block|apply IH].
Qed.

Lemma plain_jump_imm r v : is_u 4 r -> is_i 32 v -> plain (jump_imm JNE r v (-1)).
Proof.
  intros Hr Hv. constructor.
  - constructor; try done. unfold is_i in *. simpl. lia.
  - unfold canonical_form. simpl. by rewrite low_i32_id.
Qed.

Lemma plain_rule_block f : well_read f -> Forall plain_in_place (block_of f).
Proof.
  intros [Fd Fm Fj Fn]. unfold block_of, rule_block.
  assert (forall n, is_i 32 (low_i32 n)) as Hlow by (intros; apply wraps_range; lia).
  repeat (apply Forall_app_2); repeat case_match; repeat apply Forall_cons_2; try done.
  all: split; [|done].
  1: { apply plain_jump_imm; [done|]. set_unfold in Fd.
       destruct Fd as [|[[= ->]|[[= ->]|[]]]]; done. }
  1: { constructor; [constructor; try done|]; unfold is_u, is_i in *; simpl.
       - lia.
       - unfold canonical_form. simpl. rewrite low_i32_id; [done|]. unfold is_i. lia. }
  all: by apply plain_jump_imm.
Qed.

Lemma plain_filter_code hs fs ts orig :
  Forall well_read fs -> Forall plain orig -> Forall plain (filter_code hs fs ts orig).
Proof.
  intros Hw Ho. unfold filter_code.
  assert (forall vs, Forall plain (marker <$> vs)) as Hm
    by (intros vs; apply Forall_fmap, Forall_true; intros; apply plain_marker).
  repeat apply Forall_app_2; [apply Hm| |apply plain_place_blocks|apply Hm|done].
  - repeat apply Forall_cons_2; try done; (constructor; [by constructor|done]).
  - apply Forall_fmap. eapply Forall_impl; [exact Hw|]. apply plain_rule_block.
Qed.

Lemma plain_fmap l : Forall plain l -> canonical_form <$> l = l /\ Forall in_range l.
Proof.
  induction 1 as [|i l [Hr Hc] _ [IH1 IH2]]; [done|]. csimpl. rewrite Hc, IH1. split; [done|].
  by constructor.
Qed.

(** ** Rules as they are read back *)

Definition kind_of (dev : option Z) : string :=
  match dev with Some t => if t =? DEV_CHAR then "c" else "b" | None => "a" end.

Definition number_of (n : Z) : Z := if 0 <=? n then n else WILDCARD.

Definition rule_of (f : rule_fields) : DeviceRule := {|
  allow := f_allow f;
  kind := kind_of (f_dev f);
  major := Some (number_of (f_major f));
  minor := Some (number_of (f_minor f));
  access := bpf_access_string (f_mask f);
|}.

(** The normal form of a rule set: letters in order and once, every negative
    number the wildcard, and nothing the wildcard rule hides. *)
Definition normal_rules (rs : list DeviceRule) : list DeviceRule :=
  rev (rule_of <$> read_rules (rev rs)).

Definition small (f : rule_fields) : Prop := f_major f < 2 ^ 31 /\ f_minor f < 2 ^ 31.

Lemma parse_rule_block_of f next pos rest :
  well_read f -> small f ->
  parse_rule_block (place_block next pos (block_of f) ++ rest) = Ok (rule_of f, rest).
Proof.
  destruct f as [dev mask maj min al]. intros [Fd Fm Fj Fn] [Sj Sn]. simpl in *.
  assert (forall n, n < 2 ^ 31 -> 0 <= n -> low_i32 n = n) as Hlow
    by (intros; apply low_i32_id; unfold is_i; lia).
  unfold block_of, rule_block, rule_of, number_of. simpl f_dev. simpl f_mask.
  simpl f_major. simpl f_minor. simpl f_allow.
  destruct (Z.leb_spec 0 maj) as [Hj|Hj]; [rewrite (Hlow maj) by lia|];
  destruct (Z.leb_spec 0 min) as [Hn|Hn]; [rewrite (Hlow min) by lia| |rewrite (Hlow min) by lia|].
  all: set_unfold in Fd; destruct Fd as [->|[->|[->|[]]]].
  all: destruct al.
  all: pattern mask; apply (is_u3_cases _ mask Fm); reflexivity.
Qed.

Lemma parse_blocks_chain fs fuel pos acc :
  Forall well_read fs -> Forall small fs ->
  let chain := place_blocks pos (block_of <$> fs) (next_starts pos (block_of <$> fs)) in
  (length chain <= fuel)%nat ->
  parse_blocks fuel chain acc = Ok (acc ++ (rule_of <$> fs)).
Proof.
  revert fuel pos acc. induction fs as [|f fs IH]; intros fuel pos acc Hw Hs chain Hf.
  { subst chain. rewrite app_nil_r. by destruct fuel. }
  apply Forall_cons in Hw as [Hwf Hw]. apply Forall_cons in Hs as [Hsf Hs].
  set (pos' := (pos + length (block_of f))%nat).
  assert (chain = place_block pos' pos (block_of f)
    ++ place_blocks pos' (block_of <$> fs) (next_starts pos' (block_of <$> fs))) as Ec.
  { subst chain. csimpl. by rewrite block_width_block_of, widths_place_block. }
  rewrite Ec, length_app, length_place_block in *.
  assert (2 <= length (block_of f))%nat as Hlen.
  { unfold block_of. rewrite rule_block_checks, length_app. simpl. lia. }
  destruct fuel as [|fuel]; [lia|].
  pose proof (parse_rule_block_of f pos' pos
    (place_blocks pos' (block_of <$> fs) (next_starts pos' (block_of <$> fs))) Hwf Hsf) as Hp.
  destruct (place_block pos' pos (block_of f)) as [|i b] eqn:Eb.
  { apply (f_equal length) in Eb. rewrite length_place_block in Eb. simpl in Eb. lia. }
  cbn [parse_blocks app]. cbn [app] in Hp. rewrite Hp. cbn [mbind result_bind].
  rewrite IH by (done || lia). by rewrite <- app_assoc.
Qed.

Lemma parse_rule_blocks_chain fs pos :
  Forall well_read fs -> Forall small fs ->
  parse_rule_blocks (place_blocks pos (block_of <$> fs) (next_starts pos (block_of <$> fs)))
    = Ok (rev (rule_of <$> fs)).
Proof.
  intros Hw Hs. unfold parse_rule_blocks. by rewrite parse_blocks_chain.
Qed.

(** *** Appending a rule that was read back appends the block it was read from *)

Lemma access_mask_string mask :
  is_u 3 mask -> access_mask (bpf_access_string mask) 0 = Ok mask.
Proof. intros Hm. pattern mask. by apply (is_u3_cases _ mask Hm). Qed.

Lemma device_type_kind_of dev :
  dev ∈ [None; Some DEV_CHAR; Some DEV_BLOCK] -> device_type (kind_of dev) = Ok dev.
Proof. intros Hd. set_unfold in Hd. by destruct Hd as [->|[->|[->|[]]]]. Qed.

Lemma number_of_leb n : (0 <=? number_of n) = (0 <=? n).
Proof. unfold number_of. by destruct (0 <=? n) eqn:E; rewrite ?E. Qed.

Lemma number_of_ltb n : (number_of n <? 0) = (n <? 0).
Proof. rewrite !Z.ltb_antisym. by rewrite number_of_leb. Qed.

Lemma append_device_rule_of p f :
  finalized p = false -> has_wild_card p = false -> well_read f ->
  append_device p (rule_of f) =
    Ok {| init := init p; blocks := blocks p ++ [block_of f];
          has_wild_card := wild f; finalized := false |}.
Proof.
  intros Hf Hw [Fd Fm Fj Fn]. unfold append_device. rewrite Hf, Hw. simpl.
  rewrite device_type_kind_of by done. simpl.
  assert (forall n, n <= U32_MAX -> U32_MAX <? number_of n = false) as Hle.
  { intros n Hn. apply Z.ltb_ge. unfold number_of, WILDCARD, U32_MAX in *. case_match; lia. }
  rewrite !Hle, access_mask_string by done. simpl. do 2 f_equal.
  - do 2 f_equal. unfold block_of, rule_block. rewrite !number_of_leb. unfold number_of.
    by destruct (0 <=? f_major f), (0 <=? f_minor f).
  - unfold wild, is_wild_card. by rewrite !number_of_ltb.
Qed.

Lemma append_all_rule_of rs p :
  finalized p = false -> has_wild_card p = false -> Forall well_read (read_rules rs) ->
  exists p', append_all p (rule_of <$> read_rules rs) = Ok p' /\ init p' = init p
    /\ blocks p' = blocks p ++ (block_of <$> read_rules rs).
Proof.
  revert p. induction rs as [|r rs IH]; intros p Hf Hw HF; simpl in *.
  - exists p. by rewrite app_nil_r.
  - destruct (read_rule r) as [f|]; [|exists p; by rewrite app_nil_r].
    apply Forall_cons in HF as [Hwf HF]. csimpl. rewrite append_device_rule_of by done.
    cbn [mbind result_bind]. destruct (wild f) eqn:Ew.
    + eexists. split; [done|]. done.
    + edestruct IH as (p' & Hp & Hi & Hb); [| |exact HF|exists p'; split; [exact Hp|]];
        [done|done|].
      rewrite Hi, Hb. simpl. by rewrite <- app_assoc.
Qed.

Lemma small_read_rules rs :
  forallb numbers_ok rs = true -> Forall small (read_rules rs).
Proof.
  induction rs as [|r rs IH]; simpl; [done|]. intros [Hr Hn]%andb_true_iff.
  destruct (read_rule r) as [f|] eqn:E; [|done]. constructor.
  - unfold read_rule in E. inv_ok. unfold numbers_ok in Hr. rewrite E1, E2 in Hr.
    apply andb_true_iff in Hr as [Hj%Z.ltb_lt Hm%Z.ltb_lt]. done.
  - destruct (wild f); [done|by apply IH].
Qed.

Section OwnedProofs.
Context `{HostEndian}.
Context (sha256 : list Z -> list Z).

Abbreviation emit_owned := (emit_owned sha256).
Abbreviation parse_owned := (parse_owned sha256).
Abbreviation validate_owned := (validate_owned sha256).

Lemma canonical_bytes_Ok l raw : canonical_bytes l = Ok raw <-> encodes l raw.
Proof.
  unfold canonical_bytes, encodes. rewrite bind_Ok. split.
  - intros (raws & HM%mapM_index_Ok & Hr). inv_ok. by exists raws.
  - intros (raws & HF & <-). exists raws. split; [|done]. by apply mapM_index_Ok.
Qed.

(** A gated program's canonical bytes are the bytes it was dumped as. *)
Lemma wrappable_canonical raw l meta :
  bytes_ok raw -> decode raw = Ok l -> check_wrappable l meta = Ok tt ->
  canonical_bytes l = Ok raw /\ Forall plain l.
Proof.
  intros Hb Hd Hg. apply decode_decodes in Hd.
  apply check_wrappable_Ok in Hg as (_ & _ & _ & Hs). split.
  - apply canonical_bytes_Ok. by apply decodes_encodes.
  - pose proof (decodes_in_range _ _ Hd Hb) as Hr.
    pose proof (decodes_canonical _ _ Hd Hb Hs) as Hc. clear - Hr Hc.
    induction Hr as [|i l Hi _ IH]; [done|]. csimpl in Hc. injection Hc as Hci Hcl.
    constructor; [by constructor|by apply IH].
Qed.

(** ** The parts of a wrapper *)

Definition nonce_lo (n : Z) : Z := from_le_bytes (take 4 (to_le_bytes 8 n)).
Definition nonce_hi (n : Z) : Z := from_le_bytes (drop 4 (to_le_bytes 8 n)).

Definition header_values (n : Z) (orig : list Z) (len : Z) : list Z :=
  [MAGIC_LO; MAGIC_HI; FORMAT_VERSION; nonce_lo n; nonce_hi n]
    ++ digest_of sha256 orig ++ [len].

Definition trailer_values (n : Z) : list Z := [MAGIC_LO; MAGIC_HI; nonce_lo n; nonce_hi n].

Definition capped (len : nat) : Z :=
  if Z.of_nat len <=? U32_MAX then Z.of_nat len else U32_MAX.

Lemma instruction_count_blocks p fs :
  blocks p = block_of <$> fs -> instruction_count p = (5 + chain_length fs)%nat.
Proof. intros Hb. unfold instruction_count, chain_length. by rewrite Hb. Qed.

(** A successful emission, taken apart. *)
Lemma emit_owned_Ok rs n orig raw :
  emit_owned rs n orig = Ok raw <->
  exists oi body,
    decodes orig oi /\ oi <> [] /\ append_all new_program (rev rs) = Ok body
    /\ encodes (layout body
                  (marker <$> header_values n orig (capped (HEADER_LEN + instruction_count body)))
                  ((marker <$> trailer_values n) ++ oi)) raw.
Proof.
  unfold Owned.emit_owned, from_canonical. split.
  - intros He. inv_ok. case_bool_decide as Hne; [done|]. inv_ok.
    exists x, x0. apply decode_decodes in E. apply mapM_index_Ok in E1.
    split_and!; [done|done|done|]. by exists x1.
  - intros (oi & body & Hd%decode_decodes & Hne & Ha & raws & HF & <-).
    apply bind_Ok. exists oi. split; [by rewrite Hd|].
    rewrite bool_decide_eq_false_2 by done.
    apply bind_Ok. exists body. split; [by rewrite Ha|].
    apply bind_Ok. exists raws. split; [|done].
    by apply (mapM_index_Ok (fun index c => EmitEncode index c) encode 0) in HF.
Qed.

(** The wrapper's instructions. *)
Definition wrapper_code (rs : list DeviceRule) (n : Z) (orig : list Z) (oi : list instruction)
    : list instruction :=
  let fs := read_rules (rev rs) in
  filter_code (header_values n orig (capped (15 + chain_length fs))) fs (trailer_values n) oi.

(** What decoding a wrapper's bytes gives. *)
Lemma emit_owned_decode rs n orig raw oi :
  emit_owned rs n orig = Ok raw -> decodes orig oi -> Forall plain oi ->
  Forall well_read (read_rules (rev rs))
  /\ (forall req, valid_request req ->
        first_emitted (read_rules (rev rs)) req = first_emitted_rule (rev rs) req)
  /\ encodes (wrapper_code rs n orig oi) raw
  /\ decodes raw (wrapper_code rs n orig oi).
Proof.
  intros He Hd Hp. apply emit_owned_Ok in He as (oi' & body & Hd' & Hne & Ha & Henc).
  apply decode_decodes in Hd, Hd'. assert (oi' = oi) as -> by congruence.
  destruct (append_all_spec new_program _ body eq_refl eq_refl Ha) as (Hw & Hi & _ & Hb & Hfe).
  rewrite (layout_filter_code body (read_rules (rev rs))) in Henc by done.
  rewrite (instruction_count_blocks body (read_rules (rev rs))) in Henc by done.
  change (filter_code _ _ _ _) with (wrapper_code rs n orig oi) in Henc.
  split_and!; [done|done|done|].
  destruct (plain_fmap (wrapper_code rs n orig oi)) as [Hc Hr]; [by apply plain_filter_code|].
  rewrite <- Hc. by apply encodes_decodes.
Qed.

(** The verdict of a wrapper, whatever numbers its rules have. *)
Lemma wrapper_run rs n orig raw oi meta req :
  bytes_ok orig -> decode orig = Ok oi -> check_wrappable oi meta = Ok tt ->
  emit_owned rs n orig = Ok raw -> valid_request req ->
  match first_emitted_rule (rev rs) req with
  | Some b => run_device_filter raw req = Some (if b then 1 else 0)
  | None => entry_independent oi req ->
      forall v, run_device_filter orig req = Some v -> run_device_filter raw req = Some v
  end.
Proof.
  intros Hb Hd Hg He Hv.
  destruct (wrappable_canonical orig oi meta Hb Hd Hg) as [_ Hp].
  apply check_wrappable_Ok in Hg as (_ & _ & Hj & _).
  destruct (emit_owned_decode _ _ _ _ oi He ltac:(by apply decode_decodes) Hp)
    as (Hw & Hfe & _ & Hdw).
  apply decode_decodes in Hdw. unfold run_device_filter. rewrite Hd, Hdw, <- (Hfe req Hv).
  pose proof (filter_code_verdict (header_values n orig (capped (15 + chain_length (read_rules (rev rs)))))
    (read_rules (rev rs)) (trailer_values n) oi req Hv Hw) as HR.
  destruct (first_emitted _ req); [exact HR|by apply HR].
Qed.

(** ** Parsing a wrapper *)

(** [sha2]'s digest is 32 bytes. *)
Definition digest_32 : Prop :=
  forall bs, bytes_ok (sha256 bs) /\ length (sha256 bs) = 32%nat.

Lemma marker_value_marker v : marker_value (marker v) = Some (wrapu 32 v).
Proof.
  unfold marker_value, marker. simpl. unfold low_u32. by rewrite wrapu_wraps by lia.
Qed.

Lemma header_fields_markers vs rest :
  length vs = HEADER_LEN -> Forall (is_u 32) vs ->
  header_fields ((marker <$> vs) ++ rest) = Ok vs.
Proof.
  intros Hl Hu. unfold header_fields. rewrite take_app_length' by (by rewrite length_fmap).
  generalize 0%nat. clear Hl. induction Hu as [|v vs Hv _ IH]; intros k; [done|].
  rewrite fmap_cons. cbn [mapM_index]. rewrite marker_value_marker, wrapu_id by done.
  cbn [ok_or mbind result_bind]. by rewrite IH.
Qed.

Lemma from_le_bytes_take m k bs :
  bytes_ok bs -> (m + k <= length bs)%nat ->
  is_u (8 * Z.of_nat k) (from_le_bytes (take k (drop m bs))).
Proof.
  intros Hb Hl. assert (length (take k (drop m bs)) = k) as E
    by (rewrite length_take, length_drop; lia).
  rewrite <- E at 1. apply from_le_bytes_bound. by apply Forall_take, Forall_drop.
Qed.

Lemma nonce_words n :
  is_u 64 n ->
  is_u 32 (nonce_lo n) /\ is_u 32 (nonce_hi n) /\ nonce_lo n .| (nonce_hi n ≪ 32) = n.
Proof.
  intros Hn. pose proof (to_le_bytes_ok 8 n) as Hb. pose proof (length_to_le_bytes 8 n) as Hl.
  assert (is_u 32 (nonce_lo n)) as Hlo
    by exact (from_le_bytes_take 0 4 _ Hb ltac:(rewrite Hl; lia)).
  assert (is_u 32 (nonce_hi n)) as Hhi
    by exact (from_le_bytes_take 4 4 _ Hb ltac:(rewrite Hl; lia)).
  split_and!; [done|done|]. rewrite Z.lor_comm, lor_shiftl_add by done.
  rewrite <- (from_to_le_bytes_id 8 n Hn) at 3.
  unfold nonce_lo, nonce_hi. simpl. lia.
Qed.

Lemma digest_words orig : digest_32 -> Forall (is_u 32) (digest_of sha256 orig).
Proof.
  intros Hsha. destruct (Hsha orig) as [Hb Hl]. unfold digest_of. simpl.
  repeat apply Forall_cons_2; [..|done]; apply (from_le_bytes_take _ 4); (done || lia).
Qed.

Lemma header_values_u32 n orig len :
  digest_32 -> is_u 64 n -> is_u 32 len -> Forall (is_u 32) (header_values n orig len).
Proof.
  intros Hsha Hn Hlen. destruct (nonce_words n Hn) as (Hlo & Hhi & _).
  unfold header_values. apply Forall_app_2; [by repeat apply Forall_cons_2|].
  apply Forall_app_2; [by apply digest_words|by apply Forall_cons_2].
Qed.

Lemma chain_length_rules rs : (chain_length (read_rules rs) <= 8 * length rs)%nat.
Proof.
  induction rs as [|r rs IH]; simpl; [done|]. destruct (read_rule r) as [f|]; [|unfold chain_length; simpl; lia].
  assert (length (block_of f) <= 8)%nat as Hb.
  { unfold block_of. rewrite rule_block_checks, length_app.
    pose proof (length_checks (f_dev f) (f_mask f) (f_major f) (f_minor f)). simpl. lia. }
  change (chain_length (f :: ?l)) with (length (block_of f) + chain_length l)%nat.
  destruct (wild f); [unfold chain_length at 1; simpl|]; lia.
Qed.

(** The slices of a laid out wrapper. *)
Lemma filter_code_slices hs fs ts oi :
  length hs = HEADER_LEN -> length ts = TRAILER_LEN ->
  let code := filter_code hs fs ts oi in
  let bl := (15 + chain_length fs)%nat in
  drop (HEADER_LEN + INIT_LEN) (take bl code)
    = place_blocks 15 (block_of <$> fs) (next_starts 15 (block_of <$> fs))
  /\ take TRAILER_LEN (drop bl code) = marker <$> ts
  /\ drop (bl + TRAILER_LEN) code = oi
  /\ length code = (bl + TRAILER_LEN + length oi)%nat.
Proof.
  intros Hh Ht code bl. unfold HEADER_LEN, TRAILER_LEN, INIT_LEN in *.
  pose proof (length_place_blocks 15 fs) as Hp.
  set (chain := place_blocks 15 (block_of <$> fs) (next_starts 15 (block_of <$> fs))) in *.
  set (pre := (marker <$> hs) ++ init new_program).
  assert (code = pre ++ chain ++ (marker <$> ts) ++ oi) as Ec.
  { subst code pre. unfold filter_code. rewrite Hh. by rewrite <- app_assoc. }
  assert (length pre = 15)%nat as Hpre
    by (subst pre; rewrite length_app, length_fmap, Hh; done).
  clearbody code. subst code. split_and!.
  - rewrite (app_assoc pre), take_app_length' by (rewrite length_app; lia).
    by rewrite drop_app_length' by lia.
  - rewrite (app_assoc pre), drop_app_length' by (rewrite length_app; lia).
    by rewrite take_app_length' by (by rewrite length_fmap).
  - rewrite !(app_assoc _ _ oi), !app_assoc, drop_app_length'; [done|].
    rewrite !length_app, length_fmap. lia.
  - rewrite !length_app, length_fmap. lia.
Qed.

Lemma existsb_trailer ts :
  Forall (is_u 32) ts ->
  existsb (fun '(i, value) => negb (bool_decide (marker_value i = Some value)))
    (zip (marker <$> ts) ts) = false.
Proof.
  induction 1 as [|t ts Ht _ IH]; [done|]. rewrite fmap_cons. cbn [zip zip_with existsb].
  rewrite marker_value_marker, wrapu_id, bool_decide_eq_true_2 by done. exact IH.
Qed.

(** Emitting the normal form of the rules gives the same bytes. *)
Lemma emit_owned_normal rs n orig raw :
  emit_owned rs n orig = Ok raw -> emit_owned (normal_rules rs) n orig = Ok raw.
Proof.
  rewrite !emit_owned_Ok. intros (oi & body & Hd & Hne & Ha & Henc).
  destruct (append_all_spec new_program _ body eq_refl eq_refl Ha) as (Hw & Hi & _ & Hb & _).
  destruct (append_all_rule_of (rev rs) new_program eq_refl eq_refl Hw) as (p & Hp & Hi' & Hb').
  exists oi, p. unfold normal_rules. rewrite rev_involutive. split_and!; [done|done|done|].
  assert (instruction_count p = instruction_count body) as ->
    by (unfold instruction_count; by rewrite Hb, Hb').
  unfold layout in *. by rewrite Hi', Hb', <- Hi, <- Hb.
Qed.

Lemma capped_u32 len : is_u 32 (capped len).
Proof. unfold capped, is_u, U32_MAX. case_match eqn:E; [apply Z.leb_le in E|]; lia. Qed.

Lemma validate_wrapper rs n orig oi raw :
  digest_32 -> is_u 64 n -> Z.of_nat (length rs) <= 2 ^ 28 -> oi <> [] ->
  Forall well_read (read_rules (rev rs)) -> Forall small (read_rules (rev rs)) ->
  canonical_bytes oi = Ok orig -> emit_owned rs n orig = Ok raw ->
  validate_owned (wrapper_code rs n orig oi) raw
    = Ok {| nonce := n; rules := normal_rules rs; original := orig |}.
Proof.
  intros Hsha Hn Hlen Hne Hw Hs Hcb He. unfold wrapper_code.
  set (fs := read_rules (rev rs)) in *.
  destruct (filter_code_slices (header_values n orig (capped (15 + chain_length fs))) fs
    (trailer_values n) oi eq_refl eq_refl) as (S1 & S2 & S3 & S4).
  set (code := filter_code _ _ _ _) in *.
  assert (capped (15 + chain_length fs) = Z.of_nat (15 + chain_length fs)) as Hcap.
  { pose proof (chain_length_rules (rev rs)) as Hcl. rewrite length_rev in Hcl. fold fs in Hcl.
    unfold capped, U32_MAX. rewrite (proj2 (Z.leb_le _ _)); [done|].
    lia. }
  destruct (nonce_words n Hn) as (Hlo & Hhi & Hnn).
  assert (Forall (is_u 32) (header_values n orig (capped (15 + chain_length fs)))) as Hhv
    by (apply header_values_u32; [done|done|apply capped_u32]).
  assert (header_fields code = Ok (header_values n orig (capped (15 + chain_length fs)))) as Hhf
    by (by apply header_fields_markers).
  assert (1 <= length oi)%nat as Hoi by (destruct oi; [done|simpl; lia]).
  unfold Owned.validate_owned.
  assert (length code <? HEADER_LEN = false)%nat as ->.
  { apply Nat.ltb_ge. rewrite S4. unfold HEADER_LEN, TRAILER_LEN. lia. }
  rewrite Hhf. cbn [mbind result_bind].
  change (field (header_values n orig ?c) HDR_BLOCK_LEN) with c.
  change (field (header_values n orig ?c) HDR_MAGIC_HI) with MAGIC_HI.
  change (field (header_values n orig ?c) HDR_VERSION) with FORMAT_VERSION.
  change (field (header_values n orig ?c) HDR_NONCE_LO) with (nonce_lo n).
  change (field (header_values n orig ?c) HDR_NONCE_HI) with (nonce_hi n).
  change (take (HDR_BLOCK_LEN - HDR_DIGEST) (drop HDR_DIGEST (header_values n orig ?c)))
    with (digest_of sha256 orig).
  rewrite Hcap, Nat2Z.id, S1, S2, S3, S4, Hnn. clear Hhf Hhv.
  rewrite (proj2 (Z.ltb_ge _ _)), (proj2 (Z.leb_gt _ _))
    by (unfold HEADER_LEN, INIT_LEN; lia).
  change [MAGIC_LO; MAGIC_HI; nonce_lo n; nonce_hi n] with (trailer_values n).
  rewrite existsb_trailer by (by repeat apply Forall_cons_2).
  rewrite parse_rule_blocks_chain, Hcb by done. cbn [orb negb map_err mbind result_bind Z.eqb].
  rewrite !Z.eqb_refl. cbn [negb orb].
  rewrite bool_decide_eq_true_2 by done. cbn [negb].
  change (rev (rule_of <$> fs)) with (normal_rules rs). rewrite (emit_owned_normal _ _ _ _ He). cbn [map_err mbind result_bind].
  by rewrite bool_decide_eq_true_2.
Qed.

(** Every wrapper of a gated program is recognised as what it was made of. *)
Lemma parse_emitted rs n orig oi meta raw :
  digest_32 -> is_u 64 n -> Z.of_nat (length rs) <= 2 ^ 28 -> forallb numbers_ok rs = true ->
  bytes_ok orig -> decode orig = Ok oi -> check_wrappable oi meta = Ok tt ->
  emit_owned rs n orig = Ok raw ->
  parse_owned raw = Ok (Some {| nonce := n; rules := normal_rules rs; original := orig |}).
Proof.
  intros Hsha Hn Hlen Hnum Hb Hd Hg He.
  destruct (wrappable_canonical orig oi meta Hb Hd Hg) as [Hcb Hp].
  apply check_wrappable_Ok in Hg as (Hne & _). apply decode_decodes in Hd.
  destruct (emit_owned_decode _ _ _ _ oi He Hd Hp) as (Hw & _ & _ & Hdw).
  apply decode_decodes in Hdw. unfold Owned.parse_owned, from_canonical. rewrite Hdw.
  cbn [map_err mbind result_bind]. unfold wrapper_code at 1, filter_code at 1, header_values at 1.
  cbn [app fmap list_fmap]. rewrite marker_value_marker. cbn [bool_decide].
  rewrite bool_decide_eq_true_2 by done. cbn [negb].
  rewrite (validate_wrapper rs n orig oi raw); try done.
  apply small_read_rules. rewrite forallb_forall in *. intros r Hr. apply Hnum.
  by apply in_rev.
Qed.

(** ** What a parsed wrapper is *)

Lemma validate_owned_Ok instructions raw p :
  validate_owned instructions raw = Ok p ->
  emit_owned (rules p) (nonce p) (original p) = Ok raw
  /\ exists k, (HEADER_LEN + INIT_LEN + TRAILER_LEN <= k < length instructions)%nat
       /\ encodes (drop k instructions) (original p).
Proof.
  intros Hv. unfold Owned.validate_owned in Hv. case_match; [done|]. inv_ok.
  case_match; [done|]. inv_ok. case_match eqn:Hbl; [done|]. inv_ok. case_match; [done|]. inv_ok.
  case_match; [done|]. inv_ok. case_match eqn:Hraw; [done|]. inv_ok. simpl.
  apply negb_false_iff, bool_decide_eq_true in Hraw. subst. split; [done|].
  apply orb_false_iff in Hbl as [Hlo%Z.ltb_ge Hhi%Z.leb_gt].
  eexists. split; [|by apply canonical_bytes_Ok]. unfold HEADER_LEN, INIT_LEN, TRAILER_LEN in *. lia.
Qed.

Lemma parse_owned_Some raw p :
  parse_owned raw = Ok (Some p) ->
  exists instructions, decode raw = Ok instructions /\ validate_owned instructions raw = Ok p.
Proof.
  intros Hp. unfold Owned.parse_owned, from_canonical in Hp. inv_ok. exists x. split; [done|].
  destruct x as [|first rest]; [done|]. case_match; [done|]. inv_ok. congruence.
Qed.

(** *** The original is shorter than its wrapper *)

Lemma dword_class op : OpCode.is_dword_load op = true -> OpCode.class op = Ld.
Proof. intros Hd. apply Z.eqb_eq in Hd. by subst. Qed.

Lemma normalise_dword f i :
  normalise f = Ok i ->
  OpCode.is_dword_load (opcode i) = OpCode.is_dword_load (opcode f).
Proof.
  intros Hn. assert (OpCode.class (opcode i) = OpCode.class (opcode f)
    /\ (OpCode.class (opcode f) = Ld -> opcode i = opcode f)) as [Hc Hld].
  { unfold normalise in Hn. repeat (case_match; try done); inv_ok; try done; simpl.
    - match goal with HE : alu_extended _ _ = Some ?a |- _ =>
        replace a with (a .& ALU_MASK)
          by (apply alu_extended_Some in HE; by destruct_or! HE; destruct_and! HE; subst) end.
      rewrite class_with_alu_op. split; [done|]. by destruct (OpCode.class (opcode f)).
    - match goal with HE : _ && _ = true |- _ =>
        apply andb_true_iff in HE as [Hcl%bool_decide_eq_true _] end.
      rewrite Hcl. split; [|done]. unfold OpCode.class in *. by rewrite land_lor_land. }
  destruct (OpCode.is_dword_load (opcode f)) eqn:Ef.
  - by rewrite (Hld (dword_class _ Ef)).
  - destruct (OpCode.is_dword_load (opcode i)) eqn:Ei; [|done].
    pose proof (dword_class _ Ei) as Ec. rewrite Ec in Hc.
    rewrite (Hld (eq_sym Hc)) in Ei. congruence.
Qed.

Lemma slot_length raw k s : slot raw k = Some s -> ((k + 1) * INSTRUCTION_SIZE <= length raw)%nat.
Proof.
  intros Hs. apply slot_Some in Hs as [Hl <-]. rewrite length_take, length_drop in Hl.
  unfold INSTRUCTION_SIZE in *. lia.
Qed.

Lemma decode_one_length raw i :
  decode_one raw = Ok i -> (width i * INSTRUCTION_SIZE <= length raw)%nat.
Proof.
  intros Hd. unfold decode_one in Hd. inv_ok. apply bind_Some in E as (s & Hs & _).
  pose proof (normalise_dword _ _ E0) as Hdw. unfold width.
  destruct (OpCode.is_dword_load (opcode x)); simpl in Hd; inv_ok.
  - case_match; [done|]. inv_ok. simpl. rewrite Hdw. apply slot_length in E. lia.
  - rewrite Hdw. apply slot_length in Hs. lia.
Qed.

Lemma decodes_length raw l : decodes raw l -> (widths l * INSTRUCTION_SIZE = length raw)%nat.
Proof.
  induction 1 as [|raw i l Hr Hi _ IH]; [done|].
  pose proof (decode_one_length _ _ Hi). rewrite length_drop in IH.
  change (widths (i :: l)) with (width i + widths l)%nat. lia.
Qed.

Lemma encodes_length l raw :
  Forall in_range l -> encodes l raw -> length raw = (widths l * INSTRUCTION_SIZE)%nat.
Proof.
  intros Hr (raws & HF & <-). induction HF as [|i bs l raws Hi HF IH]; [done|].
  apply Forall_cons in Hr as [Hri Hrl]. simpl. rewrite length_app, (IH Hrl).
  destruct (encode_decode_one i bs Hri Hi) as (-> & _).
  change (widths (i :: l)) with (width i + widths l)%nat. lia.
Qed.

Lemma widths_length l : (length l <= widths l)%nat.
Proof.
  induction l as [|i l IH]; [done|]. change (widths (i :: l)) with (width i + widths l)%nat.
  pose proof (width_pos i). simpl. lia.
Qed.

Lemma parse_owned_shorter raw p :
  bytes_ok raw -> parse_owned raw = Ok (Some p) ->
  (length (original p) < length raw)%nat /\ bytes_ok (original p).
Proof.
  intros Hb Hp. apply parse_owned_Some in Hp as (l & Hd%decode_decodes & Hv).
  apply validate_owned_Ok in Hv as (_ & k & Hk & Henc).
  pose proof (decodes_in_range _ _ Hd Hb) as Hr. apply (Forall_drop _ k) in Hr as Hr'.
  split; [|by eapply encodes_bytes_ok].
  rewrite (encodes_length _ _ Hr' Henc), <- (decodes_length _ _ Hd).
  rewrite <- (take_drop k l) at 2. rewrite widths_app.
  pose proof (widths_length (take k l)) as Hw. rewrite length_take in Hw.
  unfold HEADER_LEN, INIT_LEN, TRAILER_LEN, INSTRUCTION_SIZE in *. lia.
Qed.

(** ** Nested wrappers *)

(** The layers of a program: itself, and what each wrapper among them wraps. *)
Inductive layer (raw : list Z) : list Z -> Prop :=
  | layer_outer : layer raw raw
  | layer_inner orig p :
      layer raw orig -> parse_owned orig = Ok (Some p) -> layer raw (original p).

(** With the fuel the loop has, it ends at a program that is no wrapper, or at
    the parser's error on a layer. *)
Lemma strip_innermost raw fuel owned :
  layer raw (original owned) ->
  bytes_ok (original owned) -> (length (original owned) < fuel)%nat ->
  match strip sha256 fuel owned with
  | Ok p => parse_owned (original p) = Ok None /\ layer raw (original p)
      /\ nonce p = nonce owned /\ rules p = rules owned
  | Err e => exists orig, layer raw orig /\ parse_owned orig = Err e
  end.
Proof.
  revert owned. induction fuel as [|fuel IH]; intros owned Hn Hb Hf; [lia|].
  simpl. destruct (parse_owned (original owned)) as [[inner|]|e] eqn:E; simpl.
  - destruct (parse_owned_shorter _ _ Hb E) as [Hl Hb'].
    specialize (IH {| nonce := nonce owned; rules := rules owned; original := original inner |}
      (layer_inner _ _ _ Hn E) Hb' ltac:(simpl; lia)). exact IH.
  - done.
  - by exists (original owned).
Qed.

(** ** What classifying a program relies on *)

Lemma header_field_u32 l hs k :
  header_fields l = Ok hs -> is_u 32 (field hs k).
Proof.
  unfold header_fields, field. generalize 0%nat. generalize (take HEADER_LEN l). clear l.
  intros l. revert hs k. induction l as [|i l IH]; intros hs k n Hf; simpl in Hf; inv_ok.
  - simpl. by unfold is_u.
  - destruct k as [|k]; [|simpl; by eapply IH]. simpl. unfold marker_value in E.
    case_match; simplify_eq. apply wrapu_range. lia.
Qed.

Lemma parse_owned_nonce raw p : parse_owned raw = Ok (Some p) -> is_u 64 (nonce p).
Proof.
  intros Hp. apply parse_owned_Some in Hp as (l & _ & Hv).
  unfold Owned.validate_owned in Hv. case_match; [done|]. inv_ok.
  case_match; [done|]. inv_ok. case_match; [done|]. inv_ok. case_match; [done|]. inv_ok.
  case_match; [done|]. inv_ok. case_match; [done|]. inv_ok. simpl.
  pose proof (header_field_u32 _ _ HDR_NONCE_LO E) as Hlo.
  pose proof (header_field_u32 _ _ HDR_NONCE_HI E) as Hhi.
  rewrite Z.lor_comm, lor_shiftl_add by done. unfold is_u in *. lia.
Qed.

Lemma layer_bytes_ok raw orig : layer raw orig -> bytes_ok raw -> bytes_ok orig.
Proof.
  induction 1 as [|orig p _ IH Hp]; intros Hb; [done|]. by apply (parse_owned_shorter orig p (IH Hb)).
Qed.

Lemma innermost_Some raw p :
  bytes_ok raw -> parse_owned_innermost sha256 raw = Ok (Some p) ->
  parse_owned (original p) = Ok None /\ bytes_ok (original p) /\ is_u 64 (nonce p).
Proof.
  intros Hb Hp. unfold parse_owned_innermost in Hp.
  destruct (parse_owned raw) as [[owned|]|e] eqn:E; simpl in Hp; try done.
  destruct (parse_owned_shorter raw owned Hb E) as [Hl Hb'].
  pose proof (strip_innermost raw (length raw) owned
    (layer_inner _ _ _ (layer_outer _) E) Hb' Hl) as Hs.
  destruct (strip sha256 (length raw) owned) as [q|]; simpl in Hp; [|done].
  simplify_eq. destruct Hs as (Hn & Hlay & Hno & _). split_and!; [done| |].
  - by eapply layer_bytes_ok.
  - rewrite Hno. by eapply parse_owned_nonce.
Qed.

Lemma innermost_None raw :
  parse_owned_innermost sha256 raw = Ok None -> parse_owned raw = Ok None.
Proof.
  unfold parse_owned_innermost. destruct (parse_owned raw) as [[owned|]|e]; simpl; try done.
  destruct (strip sha256 (length raw) owned); simpl; done.
Qed.

(** Stripping a fresh wrapper of a program that is no wrapper. *)
Lemma innermost_emitted rs n orig raw :
  parse_owned raw = Ok (Some {| nonce := n; rules := rs; original := orig |}) ->
  parse_owned orig = Ok None -> (0 < length raw)%nat ->
  parse_owned_innermost sha256 raw
    = Ok (Some {| nonce := n; rules := rs; original := orig |}).
Proof.
  intros Hp Ho Hl. unfold parse_owned_innermost. rewrite Hp. simpl.
  destruct (length raw); [lia|]. simpl. by rewrite Ho.
Qed.

End OwnedProofs.
