(* ===== verification/Filter.v ===== *)
(** * The device filter: what it promises

    The theorems about the whole pipeline of src/cgroup/{asm,ebpf,owned}.rs,
    each with a closed instance of its hypotheses: what a wrapper decides, that
    it is recognised as what it was made of, that nothing else is, and that the
    bytes of the programs involved are kept. *)

From S2P Require Import Prelude.
From S2P Require Import Asm.
From S2P Require Import AsmText.
From S2P Require Import Codec.
From S2P Require Import CodecProofs.
From S2P Require Import Ebpf.
From S2P Require Import Bpf.
From S2P Require Import Owned.
From S2P Require Import Verdict.
From S2P Require Import OwnedProofs.

Local Open Scope Z_scope.

(** ** A concrete filter, for the instances

    A runtime's program that denies everything, a set of two rules on a
    little-endian host, and a digest that is 32 bytes. *)

Module Sample.

#[local] Instance little : HostEndian := true.

Definition digest (bs : list Z) : list Z := replicate 32 (Z.of_nat (length bs) mod 256).

Lemma digest_ok : digest_32 digest.
Proof.
  intros bs. split; [|apply length_replicate]. apply Forall_replicate.
  apply (wrapu_range 8). lia.
Qed.

Definition deny_all : list instruction := [alu32_imm MOV R0 0; exit].

Definition original : list Z := [0xb4; 0; 0; 0; 0; 0; 0; 0; 0x95; 0; 0; 0; 0; 0; 0; 0].

Definition meta : ProgMeta := {| map_ids_known := true; map_count := 0 |}.

Definition rules : list DeviceRule :=
  [{| allow := true; kind := "c"; major := Some 226; minor := Some WILDCARD; access := "rw" |};
   {| allow := false; kind := "c"; major := Some 226; minor := Some 1; access := "rwm" |}].

Definition wrapper : list Z :=
  match emit_owned digest rules 7 original with Ok raw => raw | Err _ => [] end.

(** Read and write access to the device 226:0, and to 226:1. *)
Definition card0 : DevRequest :=
  {| req_kind := DEV_CHAR; req_access := 6; req_major := 226; req_minor := 0 |}.
Definition card1 : DevRequest :=
  {| req_kind := DEV_CHAR; req_access := 6; req_major := 226; req_minor := 1 |}.

Lemma deny_all_entry req : entry_independent deny_all req.
Proof.
  intros fuel regs regs' Hl Hl'.
  do 12 (destruct regs as [|? regs]; try discriminate Hl).
  do 12 (destruct regs' as [|? regs']; try discriminate Hl').
  do 3 (destruct fuel as [|fuel]; [reflexivity|]). reflexivity.
Qed.

Lemma card_valid maj min :
  is_u 32 maj -> is_u 32 min ->
  valid_request {| req_kind := DEV_CHAR; req_access := 6; req_major := maj; req_minor := min |}.
Proof. by constructor. Qed.

End Sample.

Section Claims.
Context `{HostEndian}.
Context (sha256 : list Z -> list Z).

(** C2. A wrapper around a program the gate admitted answers every request the
    kernel can make with the verdict of the last rule of the set that covers
    it, and with the wrapped program's own verdict when no rule does. The
    bytes are decoded and run by the repository's interpreter; that the
    original does not read uninitialised registers and returns is what the
    kernel's verifier ensures of a loaded program. The rules have numbers below
    2^31, as every device number of Linux is. *)
Theorem wrapper_verdict rs n orig raw oi meta req v :
  bytes_ok orig -> decode orig = Ok oi -> check_wrappable oi meta = Ok tt ->
  emit_owned sha256 rs n orig = Ok raw -> forallb numbers_ok rs = true ->
  valid_request req -> entry_independent oi req -> run_device_filter orig req = Some v ->
  run_device_filter raw req
    = Some match rules_verdict rs req with Some b => if b then 1 else 0 | None => v end.
Proof.
  intros Hb Hd Hg He Hn Hv Hei Hrun.
  pose proof (wrapper_run sha256 rs n orig raw oi meta req Hb Hd Hg He Hv) as HR.
  rewrite first_emitted_rule_spec in HR.
  - unfold rules_verdict. destruct (first_verdict (rev rs) req); [done|by apply HR].
  - rewrite forallb_forall in *. intros r Hr. apply Hn. by apply in_rev.
Qed.

(** C25. Round trip: the bytes emitted for a gated program are recognised as a
    wrapper, and give back the nonce, the rules in normal form (letters in
    order, negative numbers the wildcard, nothing a wildcard rule hides) and
    the wrapped program's bytes. The rules are at most 2^28, with numbers below
    2^31. *)
Theorem emit_parse_roundtrip rs n orig oi meta raw :
  digest_32 sha256 -> is_u 64 n -> Z.of_nat (length rs) <= 2 ^ 28 ->
  forallb numbers_ok rs = true ->
  bytes_ok orig -> decode orig = Ok oi -> check_wrappable oi meta = Ok tt ->
  emit_owned sha256 rs n orig = Ok raw ->
  parse_owned sha256 raw
    = Ok (Some {| nonce := n; rules := normal_rules rs; original := orig |}).
Proof. apply parse_emitted. Qed.

(** Nothing but a byte-exact wrapper is taken for one: a program parses to
    an owned one only if emitting that one gives the very bytes, and then the
    wrapped program is strictly shorter than its wrapper. *)
Theorem parse_owned_sound raw p :
  bytes_ok raw -> parse_owned sha256 raw = Ok (Some p) ->
  emit_owned sha256 (rules p) (nonce p) (original p) = Ok raw
  /\ (length (original p) < length raw)%nat /\ bytes_ok (original p).
Proof.
  intros Hb Hp. split.
  - apply parse_owned_Some in Hp as (l & _ & Hv). by apply validate_owned_Ok in Hv as [? _].
  - by apply parse_owned_shorter in Hp.
Qed.

(** The loop that strips nested wrappers always reaches a program that is
    not a wrapper, keeping the outermost rules and nonce, unless the parser
    rejects one of the layers: the turns the model gives it are enough. *)
Theorem parse_owned_innermost_base raw :
  bytes_ok raw ->
  match parse_owned_innermost sha256 raw with
  | Ok None => parse_owned sha256 raw = Ok None
  | Ok (Some p) => parse_owned sha256 (original p) = Ok None
      /\ layer sha256 raw (original p)
      /\ exists outer, parse_owned sha256 raw = Ok (Some outer)
           /\ nonce p = nonce outer /\ rules p = rules outer
  | Err e => exists orig, layer sha256 raw orig /\ parse_owned sha256 orig = Err e
  end.
Proof.
  intros Hb. unfold parse_owned_innermost.
  destruct (parse_owned sha256 raw) as [[owned|]|e] eqn:E; simpl; [|done|].
  - destruct (parse_owned_shorter sha256 raw owned Hb E) as [Hl Hb'].
    pose proof (strip_innermost sha256 raw (length raw) owned
      (layer_inner _ _ _ _ (layer_outer _ _) E) Hb' Hl) as Hs.
    destruct (strip sha256 (length raw) owned) as [p|e']; simpl; [|done].
    destruct Hs as (Hn & Hlay & H1 & H2). split_and!; [done|done|]. by exists owned.
  - exists raw. split; [constructor|done].
Qed.

(** The gate's promise: a program it admits re-encodes to the very bytes
    the kernel dumped it as, so detaching and reloading it cannot change it. *)
Theorem wrappable_reencodes raw l meta :
  bytes_ok raw -> decode raw = Ok l -> check_wrappable l meta = Ok tt ->
  canonical_bytes l = Ok raw.
Proof. intros Hb Hd Hg. by apply (wrappable_canonical raw l meta Hb Hd Hg). Qed.

(** Encoding and decoding: the bytes of any program whose fields are in
    range decode to the canonical form of its instructions, and that canonical
    form encodes to the same bytes again. *)
Theorem encode_decode_roundtrip l raw :
  Forall in_range l -> canonical_bytes l = Ok raw ->
  decode raw = Ok (canonical_form <$> l) /\ canonical_bytes (canonical_form <$> l) = Ok raw.
Proof.
  intros Hr Hc%canonical_bytes_Ok. split.
  - apply decode_decodes. by apply encodes_decodes.
  - apply canonical_bytes_Ok. destruct Hc as (raws & HF & <-). exists raws. split; [|done].
    revert Hr. induction HF as [|i bs l raws Hi HF IH]; intros Hr; csimpl; [done|].
    apply Forall_cons in Hr as [Hri Hrl]. constructor; [by apply encode_canonical_form|by apply IH].
Qed.

(** Decoding ends: any fuel of at least the program's length gives what the
    loop of the source gives, whatever the bytes are. *)
Theorem decode_terminates fuel raw :
  (length raw <= fuel)%nat -> decode_from fuel 0 raw = decode raw.
Proof. intros Hf. by apply decode_from_fuel. Qed.

End Claims.

(** The filter built in front of a program answers with the last rule that
    covers the request, and otherwise as that program does, as long as the
    program's jumps stay inside it. *)
Theorem prepend_verdict rs orig prog req v :
  prepend_device_filter rs orig = Ok prog -> forallb numbers_ok rs = true ->
  valid_request req -> jumps_inside orig -> entry_independent orig req ->
  run_instructions orig req = Some v ->
  run_instructions prog req
    = Some match rules_verdict rs req with Some b => if b then 1 else 0 | None => v end.
Proof.
  intros Hp Hn Hv Hj He Hrun. unfold prepend_device_filter in Hp.
  case_bool_decide; [done|]. inv_ok.
  pose proof (layout_verdict (rev rs) x [] [] orig req E Hv) as HR.
  rewrite first_emitted_rule_spec in HR.
  - unfold rules_verdict. simpl in HR |- *.
    destruct (first_verdict (rev rs) req); [done|by apply HR].
  - rewrite forallb_forall in *. intros r Hr. apply Hn. by apply in_rev.
Qed.

(** A rule whose major or minor number is 2^31 or more is accepted by the
    builder but never applies: its block compares the request's number with the
    sign-extended immediate, so the filter answers as if the rule were absent. *)
Theorem large_number_never_applies r orig prog req v :
  prepend_device_filter [r] orig = Ok prog -> numbers_ok r = false ->
  valid_request req -> jumps_inside orig -> entry_independent orig req ->
  run_instructions orig req = Some v ->
  run_instructions prog req = Some v.
Proof.
  intros Hp Hn Hv Hj He Hrun. unfold prepend_device_filter in Hp.
  case_bool_decide; [done|]. inv_ok.
  pose proof (layout_verdict [r] x [] [] orig req E Hv) as HR. cbn [first_emitted_rule] in HR.
  assert (emitted_matches r req = false) as Hm; [|rewrite Hm in HR; by apply HR].
  unfold emitted_matches. destruct (read_rule r) as [f|] eqn:Er; [|done].
  unfold read_rule in Er. inv_ok. unfold numbers_ok in Hn. rewrite E1, E2 in Hn.
  unfold emitted_match, block_matches, number_matches. simpl.
  destruct (Z.ltb_spec x1 (2 ^ 31)), (Z.ltb_spec x2 (2 ^ 31)), (Z.ltb_spec x1 0), (Z.ltb_spec x2 0);
    try done; try lia; simpl; by rewrite ?andb_false_r.
Qed.

#[local] Existing Instance Sample.little.

Lemma wrapper_verdict_witness :
  run_device_filter Sample.wrapper Sample.card0 = Some 1
  /\ run_device_filter Sample.wrapper Sample.card1 = Some 0.
Proof.
  split.
  - apply (wrapper_verdict Sample.digest Sample.rules 7 Sample.original Sample.wrapper
      Sample.deny_all Sample.meta Sample.card0 0);
      [by repeat constructor|reflexivity..| |apply Sample.deny_all_entry|reflexivity].
    by apply Sample.card_valid.
  - apply (wrapper_verdict Sample.digest Sample.rules 7 Sample.original Sample.wrapper
      Sample.deny_all Sample.meta Sample.card1 0);
      [by repeat constructor|reflexivity..| |apply Sample.deny_all_entry|reflexivity].
    by apply Sample.card_valid.
Defined.

(** ** Instances *)

Lemma emit_parse_roundtrip_witness :
  parse_owned Sample.digest Sample.wrapper
    = Ok (Some {| nonce := 7; rules := Sample.rules; original := Sample.original |}).
Proof.
  exact (emit_parse_roundtrip Sample.digest Sample.rules 7 Sample.original Sample.deny_all
    Sample.meta Sample.wrapper Sample.digest_ok ltac:(done) ltac:(vm_compute; discriminate)
    eq_refl ltac:(by repeat constructor) eq_refl eq_refl eq_refl).
Defined.

(** The sample's bytes are bytes. *)
Lemma sample_wrapper_bytes : bytes_ok Sample.wrapper.
Proof. apply (bool_decide_eq_true_1 (bytes_ok Sample.wrapper)). vm_compute. reflexivity. Defined.

Lemma sample_parsed :
  parse_owned Sample.digest Sample.wrapper
    = Ok (Some {| nonce := 7; rules := Sample.rules; original := Sample.original |}).
Proof. vm_compute. reflexivity. Qed.

Lemma parse_owned_sound_witness :
  emit_owned Sample.digest Sample.rules 7 Sample.original = Ok Sample.wrapper
  /\ (length Sample.original < length Sample.wrapper)%nat /\ bytes_ok Sample.original.
Proof.
  exact (parse_owned_sound Sample.digest Sample.wrapper
    {| nonce := 7; rules := Sample.rules; original := Sample.original |}
    sample_wrapper_bytes sample_parsed).
Defined.

(** A wrapper of a wrapper, as an update that raced another leaves behind. *)
Definition nested_wrapper : list Z :=
  match emit_owned Sample.digest [] 9 Sample.wrapper with Ok raw => raw | Err _ => [] end.

Lemma parse_owned_innermost_base_witness :
  bytes_ok nested_wrapper
  /\ parse_owned_innermost Sample.digest nested_wrapper
       = Ok (Some {| nonce := 9; rules := []; original := Sample.original |})
  /\ parse_owned Sample.digest Sample.original = Ok None.
Proof.
  assert (bytes_ok nested_wrapper) as Hb
    by (apply (bool_decide_eq_true_1 (bytes_ok nested_wrapper)); vm_compute; reflexivity).
  assert (parse_owned_innermost Sample.digest nested_wrapper
    = Ok (Some {| nonce := 9; rules := []; original := Sample.original |})) as Hp
    by (vm_compute; reflexivity).
  split; [exact Hb|]. split; [exact Hp|].
  pose proof (parse_owned_innermost_base Sample.digest nested_wrapper Hb) as HB.
  rewrite Hp in HB. exact (proj1 HB).
Defined.

Lemma wrappable_reencodes_witness : canonical_bytes Sample.deny_all = Ok Sample.original.
Proof.
  exact (wrappable_reencodes Sample.original Sample.deny_all Sample.meta
    ltac:(by repeat constructor) eq_refl eq_refl).
Defined.

Lemma encode_decode_roundtrip_witness :
  decode Sample.original = Ok (canonical_form <$> Sample.deny_all)
  /\ canonical_bytes (canonical_form <$> Sample.deny_all) = Ok Sample.original.
Proof.
  exact (encode_decode_roundtrip Sample.deny_all Sample.original
    ltac:(repeat constructor; vm_compute; try done; discriminate) eq_refl).
Defined.

Lemma decode_terminates_witness : decode_from 100 0 Sample.original = decode Sample.original.
Proof. exact (decode_terminates 100 Sample.original ltac:(vm_compute; lia)). Defined.

Lemma deny_all_jumps : jumps_inside Sample.deny_all.
Proof. intros [|[|pc]] i Hi Hj Hx; simplify_eq/=; done. Defined.

Definition sample_filter : list instruction :=
  match prepend_device_filter Sample.rules Sample.deny_all with Ok p => p | Err _ => [] end.

Lemma prepend_verdict_witness :
  run_instructions sample_filter Sample.card0 = Some 1
  /\ run_instructions sample_filter Sample.card1 = Some 0.
Proof.
  split.
  - exact (prepend_verdict Sample.rules Sample.deny_all sample_filter Sample.card0 0 eq_refl eq_refl
      (Sample.card_valid 226 0 ltac:(done) ltac:(done)) deny_all_jumps
      (Sample.deny_all_entry _) eq_refl).
  - exact (prepend_verdict Sample.rules Sample.deny_all sample_filter Sample.card1 0 eq_refl eq_refl
      (Sample.card_valid 226 1 ltac:(done) ltac:(done)) deny_all_jumps
      (Sample.deny_all_entry _) eq_refl).
Defined.

(** A rule that names the request's own numbers, and still does not apply. *)
Definition large_rule : DeviceRule :=
  {| allow := true; kind := "c"; major := Some (2 ^ 31); minor := Some 0; access := "rwm" |}.

Definition large_request : DevRequest :=
  {| req_kind := DEV_CHAR; req_access := 6; req_major := 2 ^ 31; req_minor := 0 |}.

Definition large_filter : list instruction :=
  match prepend_device_filter [large_rule] Sample.deny_all with Ok p => p | Err _ => [] end.

Lemma large_number_never_applies_witness :
  rule_matches large_rule large_request = true
  /\ run_instructions large_filter large_request = Some 0.
Proof.
  split; [vm_compute; reflexivity|].
  exact (large_number_never_applies large_rule Sample.deny_all large_filter large_request 0
    eq_refl eq_refl (Sample.card_valid (2 ^ 31) 0 ltac:(done) ltac:(done)) deny_all_jumps
    (Sample.deny_all_entry _) eq_refl).
Defined.
