(* ===== verification/V2Ops.v ===== *)
(** * The kernel side of the cgroup v2 controller (src/cgroup/v2ops.rs)

    The interface the controller drives ([V2Ops]), the errors of its operations
    with their texts, the probe for the atomic replace, the parsing of a kernel
    release and [KernelOps], the production implementation over the six [bpf(2)]
    calls of src/cgroup/bpf_sys.rs, which are parameters. An [errno] is a
    number; its text is the standard library's, a parameter. *)

From S2P Require Import Prelude.
From S2P Require Import Text.
From S2P Require Import Asm.
From S2P Require Import Codec.
From S2P Require Import Owned.

Local Open Scope Z_scope.

(** ** Constants *)

Definition F_ALLOW_OVERRIDE : Z := 1.
Definition F_ALLOW_MULTI : Z := 2.

Definition QUERY_IDS : Z := 64.
Definition QUERY_RETRIES : nat := 10.

Definition MIN_VERIFIER_LOG_SIZE : Z := 64 * 1024.
Definition MAX_VERIFIER_LOG_SIZE : Z := (2 ^ 32 - 1) ≫ 2.
Definition MAX_VERIFIER_ATTEMPTS : nat := 30.
Definition LOG_LEVEL_BRANCH : Z := 1.

Definition EPERM : Z := 1.
Definition EACCES : Z := 13.
Definition EFAULT : Z := 14.
Definition EINVAL : Z := 22.
Definition ENOSPC : Z := 28.
Definition ENOTSUPP : Z := 524.

(** ** Data *)

Record Attached (P : Type) := {
  progs : list P;
  total : nat;
  inaccessible : nat;
  attach_flags : Z;
}.
Arguments progs {P} _.
Arguments total {P} _.
Arguments inaccessible {P} _.
Arguments attach_flags {P} _.

Inductive FetchError := GetById (errno : Z) | Discover (errno : Z).

Inductive InfoError := ObjInfo (errno : Z) | Xlated (errno : Z).

Inductive InstructionsError :=
  | Restricted
  | NotSupported
  | InstructionsDecode (e : DecodeError).

Inductive LoadError :=
  | LoadEmpty
  | LoadEncode (index : nat) (cause : EncodeCause)
  | Attempts (errno : Z)
  | Memlock (errno : Z)
  | VerifierBug (errno : Z)
  | Verifier (errno : Z) (cause : option string) (log : list string).

Inductive OpsError :=
  | QueryFailed (errno : Z)
  | IncompleteProgList
  | Fetch (e : FetchError)
  | LoadFailed (e : LoadError)
  | AttachFailed (flags errno : Z)
  | DetachFailed (errno : Z)
  | OldKernel
  | Info (e : InfoError)
  | Instructions (e : InstructionsError).

(** [LoadError::errno] and [OpsError::errno]. *)
Definition load_errno (e : LoadError) : option Z :=
  match e with
  | Attempts errno | Memlock errno | VerifierBug errno | Verifier errno _ _ => Some errno
  | LoadEmpty | LoadEncode _ _ => None
  end.

Definition ops_errno (e : OpsError) : option Z :=
  match e with
  | QueryFailed errno | AttachFailed _ errno | DetachFailed errno
  | Info (ObjInfo errno) | Info (Xlated errno)
  | Fetch (GetById errno) | Fetch (Discover errno) => Some errno
  | LoadFailed e => load_errno e
  | IncompleteProgList | OldKernel | Instructions _ => None
  end.

Definition is_not_wrappable (e : OpsError) : bool :=
  match e with OldKernel => true | _ => false end.

(** [FetchError::is_permission]. *)
Definition is_permission (e : FetchError) : bool :=
  let errno := match e with GetById errno | Discover errno => errno end in
  (errno =? EACCES) || (errno =? EPERM).

(** ** The interface *)

Class V2Ops (K P : Type) := {
  op_query : K -> result OpsError (Attached P) * K;
  op_load : string -> list instruction -> K -> result OpsError P * K;
  op_attach : P -> Z -> option P -> K -> result OpsError unit * K;
  op_detach : P -> K -> result OpsError unit * K;
  op_instructions : P -> K -> result OpsError (list instruction * ProgMeta) * K;
}.

(** ** The replace probe *)

(** The states of the [AtomicU8]. *)
Inductive ReplaceProbe := REPLACE_UNKNOWN | REPLACE_SUPPORTED | REPLACE_UNSUPPORTED.

#[global] Instance ReplaceProbe_eq_dec : EqDecision ReplaceProbe.
Proof. solve_decision. Defined.

Definition usable (p : ReplaceProbe) : bool :=
  match p with REPLACE_UNSUPPORTED => false | _ => true end.

(** [ReplaceProbe::known]. *)
Definition known (supported : bool) : ReplaceProbe :=
  if supported then REPLACE_SUPPORTED else REPLACE_UNSUPPORTED.

(** [ReplaceProbe::record]: the compare-exchange changes an undecided probe. *)
Definition record (p : ReplaceProbe) (outcome : result OpsError unit) : ReplaceProbe :=
  let decide d := match p with REPLACE_UNKNOWN => d | _ => p end in
  match outcome with
  | Ok _ => decide REPLACE_SUPPORTED
  | Err e => if bool_decide (ops_errno e = Some EINVAL) then decide REPLACE_UNSUPPORTED else p
  end.

Definition describe_attach_flags (flags : Z) : string :=
  let names := (if negb ((flags .& F_ALLOW_OVERRIDE) =? 0) then ["BPF_F_ALLOW_OVERRIDE"] else [])
    ++ (if negb ((flags .& F_ALLOW_MULTI) =? 0) then ["BPF_F_ALLOW_MULTI"] else []) in
  match names with [] => "none (exclusive)" | _ => join "|" names end.

(** ** Kernel releases *)

(** Go's [%d] verb: white space but newlines, a sign, at least one digit, as a
    64-bit integer ([None] also when the number does not fit). *)
Definition scan_decimal (input : string) : option (Z * string) :=
  let start :=
    trim_start (fun c => negb (bool_decide (c = newline)) && is_whitespace c) input in
  let '(sign, unsigned) :=
    match start with
    | String c rest =>
        if bool_decide (of_char c = "+") then (1, rest)
        else if bool_decide (of_char c = "-") then (-1, rest)
        else (1, start)
    | EmptyString => (1, start)
    end in
  let '(digits, rest) := span_digits unsigned in
  if bool_decide (digits = EmptyString) then None
  else
    let value := sign * digits_value digits 0 in
    if bool_decide (is_i 64 value) then Some (value, rest) else None.

Definition kernel_at_least (release : string) (want_major want_minor : Z) : bool :=
  match scan_decimal release with
  | None => false
  | Some (major, rest) =>
      match strip_prefix "." rest ≫= scan_decimal with
      | None => false
      | Some (minor, _) =>
          (want_major <? major) || ((major =? want_major) && (want_minor <=? minor))
      end
  end.

(** ** The verifier log *)

(** A failed [BPF_PROG_LOAD]: the errno and, on newer kernels, the size the log
    needs. *)
Record LoadFailure := { failure_errno : Z; log_true_size : Z }.

(** [u32::clamp]. *)
Definition clamp (lo hi v : Z) : Z := if v <? lo then lo else if hi <? v then hi else v.

(** cilium's [retryLogAttrs]: the level and the size of the next attempt, or
    none. *)
Definition retry_log (log_level log_size : Z) (failure : LoadFailure) : option (Z * Z) :=
  if log_size =? MAX_VERIFIER_LOG_SIZE then None
  else if failure_errno failure =? ENOSPC then
    Some (log_level,
          if negb (log_true_size failure =? 0) then log_true_size failure
          else if MAX_VERIFIER_LOG_SIZE / 2 <=? log_size then MAX_VERIFIER_LOG_SIZE
          else clamp MIN_VERIFIER_LOG_SIZE (MAX_VERIFIER_LOG_SIZE / 2) log_size * 2)
  else if log_level =? 0 then Some (LOG_LEVEL_BRANCH, MIN_VERIFIER_LOG_SIZE)
  else None.

Definition CORE_BAD_CALL : string := "invalid func unknown#195896080" +:+ of_char newline.
Definition CORE_BAD_LOAD : string := "(18) r10 = 0xbad2310" +:+ of_char newline.
Definition KFUNC_BAD_CALL : string := "invalid func unknown#233685214" +:+ of_char newline.
Definition BAD_RELOCATION : string := "bad CO-RE relocation".
Definition UNKNOWN_KFUNC : string := "unknown kfunc".

(** [LOG_WHITESPACE]: tab, carriage return, vertical tab, newline, space. *)
Definition log_whitespace (c : Ascii.ascii) : bool :=
  bool_decide (ord c ∈ [9; 13; 11; 10; 32]%nat).

Definition log_lines (log : string) : list string :=
  let trimmed := trim log_whitespace log in
  if bool_decide (trimmed = EmptyString) then []
  else trim_end log_whitespace <$> split_on newline trimmed.

(** The log up to its first zero byte. *)
Fixpoint until_zero (s : string) : string :=
  match s with
  | EmptyString => EmptyString
  | String c s => if (ord c =? 0)%nat then EmptyString else String c (until_zero s)
  end.

(** [LoadError::from_failure]: cilium's classification of a failed load. *)
Definition from_failure (errno : Z) (log : string) : LoadError :=
  let body := until_zero log in
  let tail := drop_bytes (Strings.String.length body - 256) body in
  if (errno =? EPERM) && match log with String c _ => (ord c =? 0)%nat | EmptyString => false end
  then Memlock errno
  else if errno =? EFAULT then VerifierBug errno
  else
    let cause :=
      if errno =? EINVAL then
        if contains tail CORE_BAD_CALL then Some BAD_RELOCATION
        else if contains tail KFUNC_BAD_CALL then Some UNKNOWN_KFUNC
        else None
      else if (errno =? EACCES) && contains tail CORE_BAD_LOAD then Some BAD_RELOCATION
      else None in
    Verifier errno cause (log_lines body).

(** Whether cilium shows the line before [line] too. *)
Definition include_previous_line (line : string) : bool :=
  match line with
  | String c rest =>
      (ord c =? 9)%nat
      || (bool_decide (of_char c = "R")
          && match rest with String d _ => is_digit d | EmptyString => false end)
  | EmptyString => false
  end || starts_with line "invalid bpf_context access".

(** ** The texts of the errors *)

Section Display.

(** [errno_string]: the standard library's text of an errno. *)
Context (errno_string : Z -> string).

Definition cilium_errno (errno : Z) : string :=
  if errno =? ENOTSUPP then "operation not supported" else errno_string errno.

Definition fetch_error_to_string (e : FetchError) : string :=
  match e with
  | GetById errno => "get program by id: " +:+ cilium_errno errno
  | Discover errno => "discover program type: getting object info: " +:+ cilium_errno errno
  end.

Definition info_error_to_string (e : InfoError) : string :=
  match e with
  | ObjInfo errno => "getting object info: " +:+ cilium_errno errno
  | Xlated errno => cilium_errno errno
  end.

Definition instructions_error_to_string (e : InstructionsError) : string :=
  match e with
  | Restricted =>
      "instructions: restricted by kernel.kptr_restrict and/or net.core.bpf_jit_harden sysctls"
  | NotSupported => "insufficient permissions or unsupported kernel: not supported"
  | InstructionsDecode e =>
      "unmarshaling instructions: offset " +:+ pretty (de_offset e) +:+ ": "
        +:+ decode_cause_to_string (de_cause e)
  end.

(** The lines of a verifier log that are shown, and how many are left out. *)
Definition shown_lines (log : list string) : list string * nat :=
  let shown_log :=
    match last log with
    | Some l => if starts_with l "processed " then take (length log - 1) log else log
    | None => log
    end in
  match last shown_log with
  | None => ([], 0%nat)
  | Some l =>
      let lines :=
        if (2 <=? length shown_log)%nat && include_previous_line l
        then drop (length shown_log - 2) shown_log
        else drop (length shown_log - 1) shown_log in
      (lines, (length log - length lines)%nat)
  end.

Definition load_error_to_string (e : LoadError) : string :=
  match e with
  | LoadEmpty => "instructions cannot be empty"
  | LoadEncode index cause =>
      "instruction " +:+ pretty index +:+ ": " +:+ encode_cause_to_string cause
  | Attempts errno =>
      "load program: " +:+ cilium_errno errno +:+ " (bug: hit "
        +:+ pretty MAX_VERIFIER_ATTEMPTS +:+ " verifier attempts)"
  | Memlock errno =>
      "load program: " +:+ cilium_errno errno
        +:+ " (MEMLOCK may be too low, consider rlimit.RemoveMemlock)"
  | VerifierBug errno =>
      "load program: " +:+ cilium_errno errno
        +:+ " (hit verifier bug, increase LogSizeStart to fit the log and check dmesg)"
  | Verifier errno cause log =>
      let '(lines, omitted) := shown_lines log in
      "load program: " +:+ default (cilium_errno errno) cause
        +:+ join "" ((fun line => ": " +:+ trim is_whitespace line) <$> lines)
        +:+ (if (0 <? omitted)%nat
             then " (" +:+ pretty omitted +:+ " line(s) omitted)" else "")
  end.

Definition ops_error_to_string (e : OpsError) : string :=
  match e with
  | QueryFailed errno => "bpf_prog_query(BPF_CGROUP_DEVICE) failed: " +:+ errno_string errno
  | IncompleteProgList => "could not get complete list of CGROUP_DEVICE programs"
  | Fetch e => "cannot fetch program from id: " +:+ fetch_error_to_string e
  | LoadFailed e =>
      "unable to create new device filters program: " +:+ load_error_to_string e
  | AttachFailed flags errno =>
      "failed to call BPF_PROG_ATTACH (BPF_CGROUP_DEVICE, flags "
        +:+ describe_attach_flags flags +:+ "): attach program: " +:+ cilium_errno errno
  | DetachFailed errno =>
      "failed to call BPF_PROG_DETACH (BPF_CGROUP_DEVICE): can't detach program: "
        +:+ cilium_errno errno
  | OldKernel => "device filter program cannot be wrapped safely: kernel older than 4.16"
  | Info e =>
      "unable to get Info() of the original device filters program: "
        +:+ info_error_to_string e
  | Instructions e =>
      "unable to get the instructions of the original device filters program: "
        +:+ instructions_error_to_string e
  end.

End Display.

(** ** The production operations

    [Sys] is the kernel's side of one cgroup directory, and its fields are the
    [bpf(2)] calls of src/cgroup/bpf_sys.rs. *)

Record QueryAnswer := { answer_ids : list Z; count : Z; answer_errno : option Z; answer_flags : Z }.

Record ProgSummary :=
  { summary_type : Z; summary_name : string; xlated_len : Z; map_known : bool; nr_map_ids : Z }.

Class BpfSys (Sys Fd : Type) := {
  prog_query : Z -> Sys -> QueryAnswer * Sys;
  prog_get_fd_by_id : Z -> Sys -> result Z Fd * Sys;
  prog_info : Fd -> Sys -> result Z ProgSummary * Sys;
  prog_xlated : Fd -> Z -> Sys -> result Z (option (list Z)) * Sys;
  prog_load : list Z -> string -> Z -> Z -> Sys -> result (LoadFailure * string) Fd * Sys;
  prog_attach : Fd -> Z -> option Fd -> Sys -> result Z unit * Sys;
  prog_detach : Fd -> Sys -> result Z unit * Sys;
  uname_release : string;
}.

Section KernelOps.
Context `{HostEndian} {Sys Fd : Type} `{BpfSys Sys Fd}.

Definition open_by_id (id : Z) (s : Sys) : result FetchError Fd * Sys :=
  match prog_get_fd_by_id id s with
  | (Err errno, s) => (Err (GetById errno), s)
  | (Ok fd, s) =>
      match prog_info fd s with
      | (Err errno, s) => (Err (Discover errno), s)
      | (Ok _, s) => (Ok fd, s)
      end
  end.

(** The loop over the program IDs: what was opened, and how many were refused. *)
Fixpoint open_all (ids : list Z) (s : Sys) : result OpsError (list Fd * nat) * Sys :=
  match ids with
  | [] => (Ok ([], 0%nat), s)
  | id :: ids =>
      match open_by_id id s with
      | (Ok fd, s) =>
          match open_all ids s with
          | (Ok (fds, n), s) => (Ok (fd :: fds, n), s)
          | (Err e, s) => (Err e, s)
          end
      | (Err e, s) =>
          if is_permission e then
            match open_all ids s with
            | (Ok (fds, n), s) => (Ok (fds, S n), s)
            | (Err e, s) => (Err e, s)
            end
          else (Err (Fetch e), s)
      end
  end.

(** The retries of [query], from the size the last answer asked for. *)
Fixpoint query_loop (retries : nat) (size : Z) (s : Sys)
    : result OpsError (Attached Fd) * Sys :=
  match retries with
  | O => (Err IncompleteProgList, s)
  | S retries =>
      let '(answer, s) := prog_query size s in
      let size := count answer in
      match answer_errno answer with
      | Some errno =>
          if errno =? ENOSPC then query_loop retries size s else (Err (QueryFailed errno), s)
      | None =>
          match open_all (take (Z.to_nat size) (answer_ids answer)) s with
          | (Ok (fds, refused), s) =>
              (Ok {| progs := fds; total := Z.to_nat size; inaccessible := refused;
                     attach_flags := answer_flags answer |}, s)
          | (Err e, s) => (Err e, s)
          end
      end
  end.

Definition kernel_query (s : Sys) : result OpsError (Attached Fd) * Sys :=
  query_loop QUERY_RETRIES QUERY_IDS s.

(** The loop of [load_code], from its [attempts]-th attempt; the source leaves
    it at [MAX_VERIFIER_ATTEMPTS]. *)
Fixpoint load_loop (remaining : nat) (code : list Z) (name : string) (log_level log_size : Z)
    (s : Sys) : result LoadError Fd * Sys :=
  match prog_load code name log_level (if log_level =? 0 then 0 else log_size) s with
  | (Ok fd, s) => (Ok fd, s)
  | (Err (failure, log), s) =>
      match retry_log log_level log_size failure with
      | None => (Err (from_failure (failure_errno failure) log), s)
      | Some (log_level, log_size) =>
          match remaining with
          | O => (Err (Attempts (failure_errno failure)), s)
          | S remaining => load_loop remaining code name log_level log_size s
          end
      end
  end.

Definition load_code (code : list Z) (name : string) (s : Sys)
    : result LoadError Fd * Sys :=
  load_loop (MAX_VERIFIER_ATTEMPTS - 1) code name 0 0 s.

Definition kernel_load (name : string) (instructions : list instruction) (s : Sys)
    : result OpsError Fd * Sys :=
  if bool_decide (instructions = []) then (Err (LoadFailed LoadEmpty), s)
  else
    match mapM_index (fun index i => map_err (LoadEncode index) (encode i)) 0 instructions with
    | Err e => (Err (LoadFailed e), s)
    | Ok raws =>
        let '(r, s) := load_code (concat raws) name s in (map_err LoadFailed r, s)
    end.

Definition kernel_attach (prog : Fd) (flags : Z) (replace : option Fd) (s : Sys)
    : result OpsError unit * Sys :=
  let '(r, s) := prog_attach prog flags replace s in (map_err (AttachFailed flags) r, s).

Definition kernel_detach (prog : Fd) (s : Sys) : result OpsError unit * Sys :=
  let '(r, s) := prog_detach prog s in (map_err DetachFailed r, s).

Definition kernel_dumps_sanitized : bool := kernel_at_least uname_release 4 16.

Definition kernel_instructions (prog : Fd) (s : Sys)
    : result OpsError (list instruction * ProgMeta) * Sys :=
  if negb kernel_dumps_sanitized then (Err OldKernel, s)
  else
    match prog_info prog s with
    | (Err errno, s) => (Err (Info (ObjInfo errno)), s)
    | (Ok summary, s) =>
        let '(xlated, s) :=
          if 0 <? xlated_len summary then
            match prog_xlated prog (xlated_len summary) s with
            | (Err errno, s) => (Err (Info (Xlated errno)), s)
            | (Ok None, s) => (Err (Instructions Restricted), s)
            | (Ok (Some raw), s) => (Ok raw, s)
            end
          else (Ok [], s) in
        (raw ← xlated;
         if bool_decide (raw = []) then Err (Instructions NotSupported)
         else
           insts ← map_err (fun e => Instructions (InstructionsDecode e)) (decode raw);
           Ok (insts, {| map_ids_known := map_known summary || (0 <? nr_map_ids summary);
                      map_count := Z.to_nat (nr_map_ids summary) |}), s)
    end.

#[local] Instance KernelOps : V2Ops Sys Fd := {
  op_query := kernel_query;
  op_load := kernel_load;
  op_attach := kernel_attach;
  op_detach := kernel_detach;
  op_instructions := kernel_instructions;
}.

End KernelOps.
