(* ===== verification/V2OpsProofs.v ===== *)
(** * What the kernel operations promise (src/cgroup/v2ops.rs)

    That a query counts every program it could not open, that the verifier's log
    never outgrows its bounds, that a release string is read as the version it
    names, and that lines come out of the text iterator as they went in. *)

From S2P Require Import Prelude.
From S2P Require Import Text.
From S2P Require Import TextProofs.
From S2P Require Import Asm.
From S2P Require Import Codec.
From S2P Require Import V2Ops.

Local Open Scope Z_scope.

Section Query.
Context `{HostEndian} {Sys Fd : Type} `{BpfSys Sys Fd}.

(** [BPF_PROG_QUERY] fills the buffer it is given: a query that does not fail
    reports no more programs than there was room for. *)
Definition query_fits : Prop :=
  forall size s answer s', prog_query size s = (answer, s') -> answer_errno answer = None ->
    0 <= count answer <= size /\ Z.of_nat (length (answer_ids answer)) = size.

Lemma open_all_counts ids s fds n s' :
  open_all ids s = (Ok (fds, n), s') -> (length fds + n)%nat = length ids.
Proof.
  revert s fds n s'. induction ids as [|i ids IH]; intros s fds n s' E; simpl in E.
  - by injection E as <- <- <-.
  - destruct (open_by_id i s) as [[fd|e] s1].
    + destruct (open_all ids s1) as [[[fds' n']|e] s2] eqn:E2; [|done]. injection E as <- <- <-.
      simpl. by rewrite (IH _ _ _ _ E2).
    + destruct (is_permission e); [|done].
      destruct (open_all ids s1) as [[[fds' n']|e'] s2] eqn:E2; [|done]. injection E as <- <- <-.
      specialize (IH _ _ _ _ E2). simpl. lia.
Qed.

Lemma query_loop_counts retries size s a s' :
  query_fits -> query_loop retries size s = (Ok a, s') ->
  (length (progs a) + inaccessible a)%nat = total a.
Proof.
  intros Hf. revert size s. induction retries as [|retries IH]; intros size s E; simpl in E; [done|].
  destruct (prog_query size s) as [answer s1] eqn:Eq.
  destruct (answer_errno answer) as [errno|] eqn:Ee; [destruct (errno =? ENOSPC); [by eapply IH|done]|].
  destruct (Hf _ _ _ _ Eq Ee) as [Hc Hl].
  destruct (open_all _ s1) as [[[fds n]|e] s2] eqn:Eo; [|done]. injection E as <- <-. simpl.
  apply open_all_counts in Eo. rewrite Eo, length_take. lia.
Qed.

(** A query skips nothing: the programs it opened and those it was refused
    are together the programs the kernel reported, so a pass that goes on with
    none refused holds all of them. *)
Theorem query_counts_all s a s' :
  query_fits -> kernel_query s = (Ok a, s') ->
  (length (progs a) + inaccessible a)%nat = total a.
Proof. apply query_loop_counts. Qed.

End Query.

(** Retrying a load grows the verifier's log without overflow: the next
    size is the one the kernel asked for, or lies between the smallest and the
    largest and, from a failure for want of space below the largest, is larger
    than the last. *)
Theorem retry_log_bounds level size failure level' size' :
  is_u 32 size -> is_u 32 (log_true_size failure) ->
  retry_log level size failure = Some (level', size') ->
  is_u 32 size'
  /\ (size' = log_true_size failure \/ MIN_VERIFIER_LOG_SIZE <= size' <= MAX_VERIFIER_LOG_SIZE)
  /\ (failure_errno failure = ENOSPC -> log_true_size failure = 0 -> size < MAX_VERIFIER_LOG_SIZE ->
        size < size').
Proof.
  unfold retry_log, clamp, is_u. intros Hs Ht E.
  change MAX_VERIFIER_LOG_SIZE with 1073741823 in *. change MIN_VERIFIER_LOG_SIZE with 65536 in *.
  change (1073741823 / 2) with 536870911 in *.
  destruct (Z.eqb_spec size 1073741823) as [|Hmax]; [done|].
  destruct (Z.eqb_spec (failure_errno failure) ENOSPC) as [He|He].
  - injection E as <- <-. destruct (Z.eqb_spec (log_true_size failure) 0); simpl; [|naive_solver lia].
    destruct (Z.leb_spec 536870911 size); [split_and!; lia|].
    destruct (Z.ltb_spec size 65536), (Z.ltb_spec 536870911 size); split_and!; lia.
  - destruct (level =? 0); [|done]. injection E as <- <-. split_and!; [lia|lia|right; lia|done].
Qed.

(** ** Versions *)

Lemma span_digits_app d rest :
  all_chars is_digit d = true ->
  match rest with EmptyString => true | String c _ => negb (is_digit c) end = true ->
  span_digits (d +:+ rest) = (d, rest).
Proof.
  intros Hd Hr. induction d as [|c d IH].
  - change ("" +:+ rest) with rest. destruct rest as [|c rest]; [done|]. simpl.
    by destruct (is_digit c).
  - change (String c d +:+ rest) with (String c (d +:+ rest)). cbn [all_chars span_digits] in *.
    apply andb_true_iff in Hd as [Hc Hd]. by rewrite Hc, (IH Hd).
Qed.

Lemma digits_value_go x s : digits_value (pretty_N_go x s) 0 = digits_value s (Z.of_N x).
Proof.
  revert s. induction (N.lt_wf_0 x) as [x _ IH]; intros s.
  destruct (decide (x = 0%N)) as [->|H0]; [by rewrite pretty_N_go_0|].
  rewrite pretty_N_go_step, IH by (lia || (apply N.div_lt; lia)). cbn [digits_value].
  destruct (digit_char (x mod 10)) as [_ ->]; [apply N.mod_lt; lia|]. f_equal.
  pose proof (N.div_mod x 10). lia.
Qed.

Lemma digits_value_pretty z : 0 <= z -> digits_value (pretty z) 0 = z.
Proof.
  intros Hz. rewrite pretty_Z_nonneg by done. case_decide; [by subst|].
  rewrite digits_value_go. simpl. lia.
Qed.

Lemma scan_decimal_pretty z rest :
  0 <= z < 2 ^ 63 ->
  match rest with EmptyString => true | String c _ => negb (is_digit c) end = true ->
  scan_decimal (pretty z +:+ rest) = Some (z, rest).
Proof.
  intros Hz Hr. pose proof (pretty_Z_digits z ltac:(lia)) as Hd.
  pose proof (span_digits_app _ _ Hd Hr) as Hsp.
  pose proof (digits_value_pretty z ltac:(lia)) as Hv.
  pose proof (pretty_Z_nonempty z ltac:(lia)) as Hne.
  destruct (pretty z) as [|c d]; [done|]. change (String c d +:+ rest) with (String c (d +:+ rest)) in *.
  unfold scan_decimal. cbn [all_chars] in Hd. apply andb_true_iff in Hd as [Hc _].
  assert (negb (bool_decide (c = newline)) && is_whitespace c = false) as Hw.
  { unfold is_digit in Hc. unfold is_whitespace. cbv zeta. apply andb_true_iff in Hc as [H1%Nat.leb_le H2%Nat.leb_le].
    destruct (Nat.leb_spec (ord c) 13), (Nat.eqb_spec (ord c) 32); try lia. }
  cbn [trim_start]. rewrite Hw. rewrite !bool_decide_eq_false_2 by (by intros [= ->]).
  rewrite Hsp, Hv, bool_decide_eq_false_2, Z.mul_1_l by done.
  rewrite bool_decide_eq_true_2; [done|]. unfold is_i. change (64 - 1) with 63. lia.
Qed.

(** A kernel release is compared as the version it names: for a release
    [major.minor] with anything but a digit after it, [kernel_at_least] is the
    lexicographic order on the numbers. *)
Theorem kernel_at_least_version maj min rest want_major want_minor :
  0 <= maj < 2 ^ 63 -> 0 <= min < 2 ^ 63 ->
  match rest with EmptyString => true | String c _ => negb (is_digit c) end = true ->
  kernel_at_least (pretty maj +:+ "." +:+ pretty min +:+ rest) want_major want_minor
    = (want_major <? maj) || ((maj =? want_major) && (want_minor <=? min)).
Proof.
  intros Hj Hn Hr. unfold kernel_at_least. rewrite scan_decimal_pretty by done.
  change ("." +:+ ?s) with (String (chr 46) s). cbn [strip_prefix]. rewrite bool_decide_eq_true_2 by done.
  cbn [mbind option_bind]. by rewrite scan_decimal_pretty.
Qed.

(** Lines round trip: what the bounded line iterator yields for lines ended
    by newlines is those lines, as long as each is shorter than the bound and
    does not end in a carriage return. *)
Theorem lines_roundtrip ls : forallb plain_line ls = true -> lines (unlines ls) = Line <$> ls.
Proof. intros Hp. unfold lines. by apply lines_from_unlines. Qed.

(** ** Instances *)

(** A cgroup with two programs, one of which an LSM policy hides. *)
Module SysDemo.

#[local] Instance demo_sys : BpfSys (list (Z * bool)) Z := {
  prog_query size s :=
    (if size <? Z.of_nat (length s)
     then {| answer_ids := []; count := Z.of_nat (length s); answer_errno := Some ENOSPC; answer_flags := 0 |}
     else {| answer_ids := resize (Z.to_nat size) 0 (fst <$> s); count := Z.of_nat (length s);
             answer_errno := if size <? 0 then Some EINVAL else None; answer_flags := F_ALLOW_MULTI |}, s);
  prog_get_fd_by_id i s :=
    (if existsb (fun p => (fst p =? i) && snd p) s then Ok i else Err EPERM, s);
  prog_info fd s := (Ok {| summary_type := 15; summary_name := "filter"; xlated_len := 16; map_known := true; nr_map_ids := 0 |}, s);
  prog_xlated fd n s := (Ok None, s);
  prog_load code name level size s := (Err ({| failure_errno := EINVAL; log_true_size := 0 |}, ""), s);
  prog_attach fd flags old s := (Err EINVAL, s);
  prog_detach fd s := (Err EINVAL, s);
  uname_release := "6.8.0-41-generic";
}.

Lemma fits : query_fits.
Proof.
  intros size s answer s' E. simpl in E. injection E as <- <-.
  destruct (Z.ltb_spec size (Z.of_nat (length s))); [done|]. simpl.
  destruct (Z.ltb_spec size 0); [done|]. intros _. rewrite length_resize. lia.
Qed.

Definition answer : Attached Z :=
  {| progs := [11]; total := 2; inaccessible := 1; attach_flags := F_ALLOW_MULTI |}.

Lemma queried : kernel_query [(11, true); (12, false)] = (Ok answer, [(11, true); (12, false)]).
Proof. vm_compute. reflexivity. Qed.

End SysDemo.

Lemma query_counts_all_witness :
  (length (progs SysDemo.answer) + inaccessible SysDemo.answer)%nat = total SysDemo.answer.
Proof.
  exact (@query_counts_all _ _ SysDemo.demo_sys [(11, true); (12, false)] SysDemo.answer
    [(11, true); (12, false)] SysDemo.fits SysDemo.queried).
Defined.

Lemma retry_log_bounds_witness :
  is_u 32 131072
  /\ (131072 = 0 \/ MIN_VERIFIER_LOG_SIZE <= 131072 <= MAX_VERIFIER_LOG_SIZE)
  /\ (ENOSPC = ENOSPC -> 0 = 0 -> 65536 < MAX_VERIFIER_LOG_SIZE -> 65536 < 131072).
Proof.
  exact (retry_log_bounds 1 65536 {| failure_errno := ENOSPC; log_true_size := 0 |} 1 131072
    ltac:(done) ltac:(done) eq_refl).
Defined.

Lemma kernel_at_least_version_witness :
  kernel_at_least (pretty 6 +:+ "." +:+ pretty 8 +:+ ".0-41-generic") 5 15 = true.
Proof.
  exact (kernel_at_least_version 6 8 ".0-41-generic" 5 15 ltac:(lia) ltac:(lia) eq_refl).
Defined.

Lemma lines_roundtrip_witness :
  lines (unlines ["c 1:3 rwm"; ""; "b 8:* r"]) = [Line "c 1:3 rwm"; Line ""; Line "b 8:* r"].
Proof. exact (lines_roundtrip ["c 1:3 rwm"; ""; "b 8:* r"] eq_refl). Defined.
