(* ===== verification/Errors.v ===== *)
(** * The errors of setting a cgroup's device rules (src/cgroup/error.rs)

    The error type both controllers return, its classifiers, which look through
    every wrap and join, and its texts. An [io::Error] is its errno, worded by
    the standard library. *)

From S2P Require Import Prelude.
From S2P Require Import Text.
From S2P Require Import Asm.
From S2P Require Import Codec.
From S2P Require Import Ebpf.
From S2P Require Import Owned.
From S2P Require Import V2Ops.

Local Open Scope Z_scope.

(** [std::num::ParseIntError], by its kind. *)
Inductive ParseIntError := EmptyInt | InvalidDigit | PosOverflow | NegOverflow.

Definition parse_int_error_to_string (e : ParseIntError) : string :=
  match e with
  | EmptyInt => "cannot parse integer from empty string"
  | InvalidDigit => "invalid digit found in string"
  | PosOverflow => "number too large to fit in target type"
  | NegOverflow => "number too small to fit in target type"
  end.

Inductive ListEntryCause :=
  | Number (field : string) (source : ParseIntError)
  | ListAccess (letter : string).

Inductive FileError :=
  | OpenFile (name : string) (source : Z)
  | ReadFile (name : string) (source : Z)
  | WriteFile (line name : string) (source : Z).

(** [NonceError]: the errno of the kernel's random source. *)
Record NonceError := { nonce_errno : Z }.

Inductive Error :=
  | DenyRule
  | ConcreteRule (rule : string)
  | UnknownAccessLetter (letter : string)
  | ListEntry (line : string) (cause : option ListEntryCause)
  | ReadList
  | File (source : FileError)
  | Revoke (line : string) (source : FileError)
  | Grant (line : string) (source : FileError)
  | Verify (source : Error)
  | Drift (mismatched : list string)
  | Joined (errors : list Error)
  | Query (source : OpsError)
  | FiltersInaccessible (inaccessible total : nat)
  | FilterMissing
  | UnsupportedAttachMode (flags : Z)
  | Ops (source : OpsError)
  | Canonical (source : CanonicalError)
  | Owned (source : OwnedError)
  | Gate (source : GateError)
  | Decode (source : DecodeError)
  | Emit (source : EmitError)
  | Nonce (source : NonceError)
  | Change (step steps : nat) (source : Error)
  | Replace (source : OpsError)
  | AttachNew (source : OpsError)
  | DetachOriginal (source : OpsError)
  | Rollback (source : OpsError).

(** ** Classifiers *)

(** [Error::any]: whether [matches] holds of the error or of one it wraps or
    joins. *)
Fixpoint any (matches : Error -> bool) (e : Error) : bool :=
  matches e ||
  match e with
  | Joined errors => existsb (any matches) errors
  | Verify source | Change _ _ source => any matches source
  | _ => false
  end.

Definition is_drift : Error -> bool :=
  any (fun e => match e with Drift _ => true | _ => false end).

Definition is_filter_missing : Error -> bool :=
  any (fun e => match e with FilterMissing => true | _ => false end).

Definition is_filters_inaccessible : Error -> bool :=
  any (fun e => match e with FiltersInaccessible _ _ => true | _ => false end).

Definition is_unsupported_attach_mode : Error -> bool :=
  any (fun e => match e with UnsupportedAttachMode _ => true | _ => false end).

Definition is_owned_block_conflict : Error -> bool :=
  any (fun e => match e with Owned owned => is_conflict owned | _ => false end).

Definition is_program_not_wrappable : Error -> bool :=
  any (fun e => match e with
                | Gate _ => true
                | Query ops | Ops ops | Replace ops | AttachNew ops | DetachOriginal ops
                | Rollback ops => is_not_wrappable ops
                | _ => false
                end).

(** ** Texts *)

(** [format_args!("{access:?}")] of a character, exact for ASCII as [quote] is. *)
Definition quote_char (c : string) : string :=
  "'" +:+ (if bool_decide (c = "'") then "\'"
           else if bool_decide (c = of_char (chr 34)) then c else escape_all c) +:+ "'".

Definition list_entry_cause_to_string (c : ListEntryCause) : string :=
  match c with
  | Number field source =>
      "device number " +:+ quote field +:+ ": " +:+ parse_int_error_to_string source
  | ListAccess letter => "unknown device access " +:+ quote_char letter
  end.

Section Display.
Context (errno_string : Z -> string).

Definition file_error_to_string (e : FileError) : string :=
  match e with
  | OpenFile name source => "open " +:+ name +:+ ": " +:+ errno_string source
  | ReadFile name source =>
      "read " +:+ name +:+ ": read " +:+ name +:+ ": " +:+ errno_string source
  | WriteFile line name source =>
      "write " +:+ quote line +:+ " to " +:+ name +:+ ": write " +:+ name +:+ ": "
        +:+ errno_string source
  end.

Definition nonce_error_to_string (e : NonceError) : string :=
  "generate nonce: " +:+ errno_string (nonce_errno e).

Fixpoint error_to_string (e : Error) : string :=
  match e with
  | DenyRule => "cgroup v1 set accepts allow rules only"
  | ConcreteRule rule =>
      "cgroup v1 set needs a c or b rule with concrete major and minor: " +:+ rule
  | UnknownAccessLetter letter => "unknown device access " +:+ quote_char letter
  | ListEntry line cause =>
      "malformed devices.list entry: " +:+ quote line
        +:+ match cause with
            | Some cause => ": " +:+ list_entry_cause_to_string cause
            | None => ""
            end
  | ReadList => "read devices.list: line longer than " +:+ pretty MAX_LINE +:+ " bytes"
  | File source => file_error_to_string source
  | Revoke line source => "revoke " +:+ quote line +:+ ": " +:+ file_error_to_string source
  | Grant line source => "grant " +:+ quote line +:+ ": " +:+ file_error_to_string source
  | Verify source => "verify: " +:+ error_to_string source
  | Drift mismatched =>
      "cgroup v1 device exceptions differ from the daemon-owned set: "
        +:+ join ", " mismatched
  | Joined errors => join (of_char newline) (error_to_string <$> errors)
  | Query source =>
      "unable to find any existing device filters attached to the cgroup: "
        +:+ ops_error_to_string errno_string source
  | FiltersInaccessible inaccessible total =>
      "device filters attached to the cgroup cannot be accessed: " +:+ pretty inaccessible
        +:+ " of " +:+ pretty total +:+ " programs"
  | FilterMissing => "no device filter attached to the cgroup"
  | UnsupportedAttachMode flags =>
      "device filter attached without BPF_F_ALLOW_MULTI: attach mode "
        +:+ describe_attach_flags flags
  | Ops source => ops_error_to_string errno_string source
  | Canonical source => canonical_error_to_string source
  | Owned source => owned_error_to_string source
  | Gate source => gate_error_to_string source
  | Decode source => decode_error_to_string source
  | Emit source => emit_error_to_string source
  | Nonce source => nonce_error_to_string source
  | Change step steps source =>
      "device filter change " +:+ pretty step +:+ " of " +:+ pretty steps +:+ ": "
        +:+ error_to_string source
  | Replace source =>
      "unable to replace device filters program: " +:+ ops_error_to_string errno_string source
  | AttachNew source =>
      "unable to attach new device filters program: "
        +:+ ops_error_to_string errno_string source
  | DetachOriginal source =>
      "unable to detach original device filters program: "
        +:+ ops_error_to_string errno_string source
  | Rollback source =>
      "roll back new device filters program: " +:+ ops_error_to_string errno_string source
  end.

End Display.
