(* ===== verification/V2.v ===== *)
(** * The cgroup v2 controller (src/cgroup/v2plan.rs, src/cgroup/v2.rs)

    The filter cache, the classification of the attached programs, the grant,
    restore and rebuild plans, their execution and the whole pass. The kernel is
    any implementation of the [V2Ops] interface over a state [K]; the random
    source is a sequence of draws. [trace] is a ghost: the kernel states after
    each call, so that a theorem can speak of every intermediate state. *)

From S2P Require Import Prelude.
From S2P Require Import Asm.
From S2P Require Import Codec.
From S2P Require Import Ebpf.
From S2P Require Import Owned.
From S2P Require Import V2Ops.
From S2P Require Import Errors.

Local Open Scope Z_scope.

(** ** Data *)

(** [Identity] of src/cgroup/handle.rs. *)
Record Identity := { path : string; inode : Z }.

#[global] Instance Identity_eq_dec : EqDecision Identity.
Proof. solve_decision. Defined.

#[global] Instance Identity_countable : Countable Identity.
Proof.
  refine (inj_countable' (fun i => (path i, inode i))
    (fun p => {| path := p.1; inode := p.2 |}) _). by intros [].
Defined.

Record CachedLineage := {
  lin_nonce : Z;
  lin_original : list Z;
  lin_meta : ProgMeta;
}.

#[global] Instance CachedLineage_eq_dec : EqDecision CachedLineage.
Proof. solve_decision. Defined.

Record CacheEntry := { lineages : list CachedLineage; rebuilding : bool }.

Definition default_entry : CacheEntry := {| lineages := []; rebuilding := false |}.

(** [FilterCache]. *)
Abbreviation FilterCache := (gmap Identity CacheEntry).

Definition cache_get (c : FilterCache) (id : Identity) : CacheEntry :=
  default default_entry (c !! id).

Definition cache_set (c : FilterCache) (id : Identity) (e : CacheEntry) : FilterCache :=
  <[id := e]> c.

Definition forget (c : FilterCache) (id : Identity) : FilterCache := delete id c.

Record AttachedProg := {
  a_index : nat;
  a_raw : list Z;
  a_meta : ProgMeta;
  a_owned : bool;
  a_nonce : Z;
  a_original : list Z;
}.

Record WrapperGroup := {
  g_nonce : Z;
  g_original : list Z;
  g_meta : ProgMeta;
  g_members : list AttachedProg;
}.

Inductive Step := Attach (new : nat) | Detach (old : nat) | Pair (old new : nat).

#[global] Instance Step_eq_dec : EqDecision Step.
Proof. solve_decision. Defined.

Record PassPlan := {
  loads : list (list Z);
  names : list string;
  steps : list Step;
  plan_lineages : list CachedLineage;
}.

Definition empty_plan : PassPlan :=
  {| loads := []; names := []; steps := []; plan_lineages := [] |}.

(** [PassPlan::load], [PassPlan::pair] and [PassPlan::detach]. *)
Definition plan_load (p : PassPlan) (raw : list Z) (name : string) : PassPlan * nat :=
  ({| loads := loads p ++ [raw]; names := names p ++ [name]; steps := steps p;
      plan_lineages := plan_lineages p |}, length (loads p)).

Definition push_step (p : PassPlan) (s : Step) : PassPlan :=
  {| loads := loads p; names := names p; steps := steps p ++ [s];
     plan_lineages := plan_lineages p |}.

Definition push_lineage (p : PassPlan) (l : CachedLineage) : PassPlan :=
  {| loads := loads p; names := names p; steps := steps p;
     plan_lineages := plan_lineages p ++ [l] |}.

Definition plan_pair (p : PassPlan) (old : nat) (raw : list Z) (name : string) : PassPlan :=
  let '(p, new) := plan_load p raw name in push_step p (Pair old new).

Definition plan_detach (p : PassPlan) (old : nat) : PassPlan := push_step p (Detach old).

Definition group_lineage (g : WrapperGroup) : CachedLineage :=
  {| lin_nonce := g_nonce g; lin_original := g_original g; lin_meta := g_meta g |}.

(** [Iterator::position]. *)
Fixpoint position {A} (p : A -> bool) (l : list A) : option nat :=
  match l with
  | [] => None
  | x :: l => if p x then Some 0%nat else S <$> position p l
  end.

(** ** Grouping *)

(** The group of the program's lineage gets it as a member; a new lineage is a
    new group at the end. *)
Definition add_member (groups : list WrapperGroup) (prog : AttachedProg) : list WrapperGroup :=
  match position (fun g => (g_nonce g =? a_nonce prog)
                           && bool_decide (g_original g = a_original prog)) groups with
  | Some index =>
      alter (fun g => {| g_nonce := g_nonce g; g_original := g_original g;
                         g_meta := g_meta g; g_members := g_members g ++ [prog] |})
        index groups
  | None =>
      groups ++ [{| g_nonce := a_nonce prog; g_original := a_original prog;
                    g_meta := a_meta prog; g_members := [prog] |}]
  end.

Fixpoint group_loop (progs : list AttachedProg) (groups : list WrapperGroup)
    (bares : list AttachedProg) : list WrapperGroup * list AttachedProg :=
  match progs with
  | [] => (groups, bares)
  | prog :: progs =>
      if a_owned prog then group_loop progs (add_member groups prog) bares
      else group_loop progs groups (bares ++ [prog])
  end.

Definition group_wrappers (progs : list AttachedProg)
    : list WrapperGroup * list AttachedProg := group_loop progs [] [].

(** ** The restore plan *)

Definition detach_all (p : PassPlan) (members : list AttachedProg) : PassPlan :=
  foldl (fun p m => plan_detach p (a_index m)) p members.

(** One lineage of a restore: the plan, and which bares are still free. *)
Definition restore_group (bares : list AttachedProg) (p : PassPlan) (available : list bool)
    (g : WrapperGroup) : PassPlan * list bool :=
  let matched :=
    position (fun '(bare, free) => free && bool_decide (a_raw bare = g_original g))
      (zip bares available) in
  let '(p, available, members) :=
    match matched with
    | Some k => (p, <[k := false]> available, g_members g)
    | None =>
        match g_members g with
        | first :: rest => (plan_pair p (a_index first) (g_original g) "", available, rest)
        | [] => (p, available, [])
        end
    end in
  (push_lineage (detach_all p members) (group_lineage g), available).

Fixpoint restore_groups (bares : list AttachedProg) (p : PassPlan) (available : list bool)
    (groups : list WrapperGroup) : PassPlan * list bool :=
  match groups with
  | [] => (p, available)
  | g :: groups =>
      let '(p, available) := restore_group bares p available g in
      restore_groups bares p available groups
  end.

Definition bare_lineage (nonce : Z) (b : AttachedProg) : CachedLineage :=
  {| lin_nonce := nonce; lin_original := a_raw b; lin_meta := a_meta b |}.

Definition plan_restore (groups : list WrapperGroup) (bares : list AttachedProg) : PassPlan :=
  let '(p, available) :=
    restore_groups bares empty_plan (replicate (length bares) true) groups in
  foldl (fun p '(bare, free) => if free : bool then push_lineage p (bare_lineage 0 bare) else p)
    p (zip bares available).

(** ** Lineages a wipe lost *)

Fixpoint missing_loop (cached : list CachedLineage) (groups : list WrapperGroup)
    (bares : list AttachedProg) (group_used bare_used : list bool) : list CachedLineage :=
  match cached with
  | [] => []
  | l :: cached =>
      match position (fun '(g, used) => negb used && (g_nonce g =? lin_nonce l)
                        && bool_decide (g_original g = lin_original l))
              (zip groups group_used) with
      | Some k => missing_loop cached groups bares (<[k := true]> group_used) bare_used
      | None =>
          match position (fun '(b, used) => negb used && bool_decide (a_raw b = lin_original l))
                  (zip bares bare_used) with
          | Some k => missing_loop cached groups bares group_used (<[k := true]> bare_used)
          | None => l :: missing_loop cached groups bares group_used bare_used
          end
      end
  end.

Definition missing_lineages (cached : list CachedLineage) (groups : list WrapperGroup)
    (bares : list AttachedProg) : list CachedLineage :=
  missing_loop cached groups bares (replicate (length groups) false)
    (replicate (length bares) false).

(** ** The pass *)

(** A failed pass: the error it returns, or a panic (an index out of range). *)
Inductive fault := Failed (e : Error) | Panicked.

Section V2.
Context `{HostEndian} (sha256 : list Z -> list Z).
Context {K P : Type} `{V2Ops K P}.

(** What the n-th draw of [new_nonce] gives. *)
Context (draws : nat -> result NonceError Z).

Record St := {
  kernel : K;
  probe : ReplaceProbe;
  cache : FilterCache;
  drawn : nat;
  trace : list K;
}.

Definition M (A : Type) : Type := St -> result fault A * St.

#[global] Instance M_ret : MRet M := fun A a s => (Ok a, s).
#[global] Instance M_bind : MBind M := fun A B k m s =>
  match m s with
  | (Ok a, s) => k a s
  | (Err f, s) => (Err f, s)
  end.

Definition fail {A} (e : Error) : M A := fun s => (Err (Failed e), s).

Definition lift {E A} (f : E -> Error) (r : result E A) : M A :=
  fun s => (map_err (fun e => Failed (f e)) r, s).

(** [slice[index]]. *)
Definition index {A} (l : list A) (i : nat) : M A := fun s =>
  (ok_or (l !! i) Panicked, s).

Definition call {A} (op : K -> result OpsError A * K) : M (result OpsError A) := fun s =>
  let '(r, k) := op (kernel s) in
  (Ok r, {| kernel := k; probe := probe s; cache := cache s; drawn := drawn s;
            trace := trace s ++ [k] |}).

Definition new_nonce : M Z := fun s =>
  (map_err (fun e => Failed (Nonce e)) (draws (drawn s)),
   {| kernel := kernel s; probe := probe s; cache := cache s; drawn := S (drawn s);
      trace := trace s |}).

Definition record_replace (outcome : result OpsError unit) : M unit := fun s =>
  (Ok tt, {| kernel := kernel s; probe := record (probe s) outcome; cache := cache s;
             drawn := drawn s; trace := trace s |}).

Definition replace_usable : M bool := fun s => (Ok (usable (probe s)), s).

Definition get_entry (id : Identity) : M CacheEntry := fun s =>
  (Ok (cache_get (cache s) id), s).

Definition set_entry (id : Identity) (e : CacheEntry) : M unit := fun s =>
  (Ok tt, {| kernel := kernel s; probe := probe s; cache := cache_set (cache s) id e;
             drawn := drawn s; trace := trace s |}).

(** [gate]: whether an original may be wrapped. *)
Definition gate (original : list Z) (meta : ProgMeta) : result Error unit :=
  instructions ← map_err Decode (from_canonical original);
  map_err Gate (check_wrappable instructions meta).

Definition classify (i : nat) (prog : P) : M AttachedProg :=
  r ← call (op_instructions prog);
  '(instructions, meta) ← lift Ops r;
  raw ← lift Canonical (canonical_bytes instructions);
  owned ← lift Owned (parse_owned_innermost sha256 raw);
  match owned with
  | None =>
      mret {| a_index := i; a_raw := raw; a_meta := meta; a_owned := false; a_nonce := 0;
              a_original := raw |}
  | Some owned =>
      _ ← lift id (gate (original owned) meta);
      mret {| a_index := i; a_raw := raw; a_meta := meta; a_owned := true;
              a_nonce := nonce owned; a_original := original owned |}
  end.

Fixpoint classify_all (i : nat) (ps : list P) : M (list AttachedProg) :=
  match ps with
  | [] => mret []
  | p :: ps => a ← classify i p; rest ← classify_all (S i) ps; mret (a :: rest)
  end.

(** *** The grant plan *)

(** One lineage of a grant. [group.members[0]] panics on an empty group. *)
Definition grant_group (rules : list DeviceRule) (p : PassPlan) (g : WrapperGroup)
    : M PassPlan :=
  desired ← lift Emit (emit_owned sha256 rules (g_nonce g) (g_original g));
  '(p, keep) ←
    match position (fun m => bool_decide (a_raw m = desired)) (g_members g) with
    | Some keep => mret (p, keep)
    | None =>
        first ← index (g_members g) 0;
        mret (plan_pair p (a_index first) desired OWNED_PROGRAM_NAME, 0%nat)
    end;
  let p := foldl (fun p '(k, m) => if (k =? keep)%nat then p else plan_detach p (a_index m))
             p (imap (fun k m => (k, m)) (g_members g)) in
  mret (push_lineage p (group_lineage g)).

Fixpoint grant_groups (rules : list DeviceRule) (p : PassPlan) (groups : list WrapperGroup)
    : M PassPlan :=
  match groups with
  | [] => mret p
  | g :: groups => p ← grant_group rules p g; grant_groups rules p groups
  end.

Definition grant_bare (rules : list DeviceRule) (p : PassPlan) (b : AttachedProg)
    : M PassPlan :=
  _ ← lift id (gate (a_raw b) (a_meta b));
  nonce ← new_nonce;
  wrapped ← lift Emit (emit_owned sha256 rules nonce (a_raw b));
  mret (push_lineage (plan_pair p (a_index b) wrapped OWNED_PROGRAM_NAME)
          (bare_lineage nonce b)).

Fixpoint grant_bares (rules : list DeviceRule) (p : PassPlan) (bares : list AttachedProg)
    : M PassPlan :=
  match bares with
  | [] => mret p
  | b :: bares => p ← grant_bare rules p b; grant_bares rules p bares
  end.

Definition plan_grant (groups : list WrapperGroup) (bares : list AttachedProg)
    (rules : list DeviceRule) : M PassPlan :=
  p ← grant_groups rules empty_plan groups;
  grant_bares rules p bares.

(** *** The rebuild plan *)

Definition rebuild_lineage (rules : list DeviceRule) (p : PassPlan) (l : CachedLineage)
    : M PassPlan :=
  _ ← lift id (gate (lin_original l) (lin_meta l));
  if bool_decide (rules = []) then
    let '(p, new) := plan_load p (lin_original l) "" in
    mret (push_lineage (push_step p (Attach new)) l)
  else
    nonce ← (if lin_nonce l =? 0 then new_nonce else mret (lin_nonce l));
    let l := {| lin_nonce := nonce; lin_original := lin_original l; lin_meta := lin_meta l |} in
    wrapped ← lift Emit (emit_owned sha256 rules nonce (lin_original l));
    let '(p, new) := plan_load p wrapped OWNED_PROGRAM_NAME in
    mret (push_lineage (push_step p (Attach new)) l).

Fixpoint add_rebuild (p : PassPlan) (cached : list CachedLineage) (rules : list DeviceRule)
    : M PassPlan :=
  match cached with
  | [] => mret p
  | l :: cached => p ← rebuild_lineage rules p l; add_rebuild p cached rules
  end.

(** *** Execution *)

Definition load_canonical (raw : list Z) (name : string) : M P :=
  instructions ← lift Decode (from_canonical raw);
  r ← call (op_load name instructions);
  lift Ops r.

Fixpoint load_all (l : list (list Z * string)) : M (list P) :=
  match l with
  | [] => mret []
  | (raw, name) :: l => p ← load_canonical raw name; ps ← load_all l; mret (p :: ps)
  end.

(** The fallback of [swap]: attach the new program, then detach the old one,
    and take the new one back if that fails. *)
Definition swap_in_turn (old new : P) : M unit :=
  r ← call (op_attach new F_ALLOW_MULTI None);
  _ ← lift AttachNew r;
  r ← call (op_detach old);
  match r with
  | Ok _ => mret tt
  | Err detach_error =>
      r ← call (op_detach new);
      match r with
      | Ok _ => fail (DetachOriginal detach_error)
      | Err rollback_error =>
          fail (Joined [DetachOriginal detach_error; Rollback rollback_error])
      end
  end.

Definition swap (old new : P) : M unit :=
  may ← replace_usable;
  if (may : bool) then
    outcome ← call (op_attach new F_ALLOW_MULTI (Some old));
    _ ← record_replace outcome;
    match outcome with
    | Ok _ => mret tt
    | Err e =>
        may ← replace_usable;
        if (may : bool) then fail (Replace e) else swap_in_turn old new
    end
  else swap_in_turn old new.

Definition run_step (attached loaded : list P) (s : Step) : M unit :=
  match s with
  | Attach new =>
      p ← index loaded new;
      r ← call (op_attach p F_ALLOW_MULTI None);
      lift Ops r
  | Detach old =>
      p ← index attached old;
      r ← call (op_detach p);
      lift Ops r
  | Pair old new =>
      o ← index attached old;
      n ← index loaded new;
      swap o n
  end.

(** [outcome.map_err(Error::Change ...)?]. *)
Definition in_change (step steps : nat) (m : M unit) : M unit := fun s =>
  match m s with
  | (Err (Failed e), s) => (Err (Failed (Change step steps e)), s)
  | r => r
  end.

Fixpoint run_steps (attached loaded : list P) (total done : nat) (l : list Step) : M unit :=
  match l with
  | [] => mret tt
  | s :: l =>
      _ ← in_change (S done) total (run_step attached loaded s);
      run_steps attached loaded total (S done) l
  end.

Definition execute (attached : list P) (plan : PassPlan) : M unit :=
  loaded ← load_all (zip (loads plan) (names plan));
  run_steps attached loaded (length (steps plan)) 0 (steps plan).

Definition commit (id : Identity) (attached : list P) (plan : PassPlan) (rebuilding : bool)
    : M unit :=
  _ ← set_entry id {| lineages := plan_lineages plan; rebuilding := rebuilding |};
  _ ← execute attached plan;
  if rebuilding
  then set_entry id {| lineages := plan_lineages plan; rebuilding := false |}
  else mret tt.

Definition rebuild (id : Identity) (rules : list DeviceRule) : M unit :=
  entry ← get_entry id;
  if bool_decide (lineages entry = []) then fail FilterMissing
  else
    plan ← add_rebuild empty_plan (lineages entry) rules;
    commit id [] plan true.

(** [CgroupV2::set_rules]. *)
Definition set_rules (id : Identity) (rules : list DeviceRule) : M unit :=
  r ← call op_query;
  attached ← lift Query r;
  if (0 <? inaccessible attached)%nat then
    fail (FiltersInaccessible (inaccessible attached) (total attached))
  else if (total attached =? 0)%nat then rebuild id rules
  else if (attach_flags attached .& F_ALLOW_MULTI) =? 0 then
    fail (UnsupportedAttachMode (attach_flags attached))
  else
    classified ← classify_all 0 (progs attached);
    let '(groups, bares) := group_wrappers classified in
    plan ← (if bool_decide (rules = []) then mret (plan_restore groups bares)
            else plan_grant groups bares rules);
    entry ← get_entry id;
    plan ← (if rebuilding entry
            then add_rebuild plan (missing_lineages (lineages entry) groups bares) rules
            else mret plan);
    commit id (progs attached) plan (rebuilding entry).

End V2.
