(* ===== verification/V2Proofs.v ===== *)
(** * The cgroup v2 pass never leaves the cgroup unfiltered

    [KernelLaws] is what the pass relies on of the kernel, as laws over the
    [V2Ops] interface. Against it: in every state the kernel goes through during
    a pass, failed or not, every runtime original attached before is still
    attached, bare or wrapped; a pass that fails before its first change has
    changed nothing; no index of a plan is out of range; and a pass that
    succeeds leaves exactly what was asked for. *)

From S2P Require Import Prelude.
From S2P Require Import Asm.
From S2P Require Import AsmText.
From S2P Require Import Codec.
From S2P Require Import CodecProofs.
From S2P Require Import Ebpf.
From S2P Require Import Bpf.
From S2P Require Import Owned.
From S2P Require Import Verdict.
From S2P Require Import OwnedProofs.
From S2P Require Import V2Ops.
From S2P Require Import Errors.
From S2P Require Import V2.

Local Open Scope Z_scope.

(** ** What the kernel promises *)

(** The well-formed states, the programs attached in one, the programs that
    exist in it, and what a program's dump gives. *)
Class KernelView (K P : Type) := {
  wf : K -> Prop;
  att : K -> list P;
  live : K -> P -> Prop;
  code : K -> P -> list instruction * ProgMeta;
}.

(** Every call keeps the programs that exist, and their code. *)
Definition frame {K P} `{KernelView K P} (k k' : K) : Prop :=
  wf k' /\ (forall p, live k p -> live k' p /\ code k' p = code k p).

Class KernelLaws (K P : Type) `{V2Ops K P} `{KernelView K P} := {
  law_nodup k : wf k -> NoDup (att k);
  law_live k p : wf k -> p ∈ att k -> live k p;
  law_range k p : wf k -> live k p -> Forall in_range (code k p).1;

  law_query k r k' :
    wf k -> op_query k = (r, k') ->
    frame k k' /\ att k' = att k
    /\ forall a, r = Ok a -> inaccessible a = 0%nat ->
         progs a = att k /\ total a = length (att k);

  law_load k name l r k' :
    wf k -> Forall in_range l -> op_load name l k = (r, k') ->
    frame k k' /\ att k' = att k
    /\ forall p, r = Ok p -> ~ live k p /\ live k' p /\ (code k' p).1 = l;

  law_attach k p r k' :
    wf k -> live k p -> p ∉ att k -> op_attach p F_ALLOW_MULTI None k = (r, k') ->
    frame k k' /\ att k' ≡ₚ match r with Ok _ => p :: att k | Err _ => att k end;

  law_replace k p old r k' :
    wf k -> live k p -> p ∉ att k ->
    op_attach p F_ALLOW_MULTI (Some old) k = (r, k') ->
    frame k k'
    /\ match r with
       | Ok _ => exists l, att k ≡ₚ old :: l /\ att k' ≡ₚ p :: l
       | Err _ => att k' ≡ₚ att k
       end;

  law_detach k p r k' :
    wf k -> op_detach p k = (r, k') ->
    frame k k'
    /\ forall q, q ∈ att k' <-> match r with Ok _ => q ∈ att k /\ q <> p | Err _ => q ∈ att k end;

  law_instructions k p r k' :
    wf k -> live k p -> op_instructions p k = (r, k') ->
    frame k k' /\ att k' = att k /\ forall x, r = Ok x -> x = code k p;
}.

(** ** Reasoning about a pass *)

Section Pass.
Context `{HostEndian} (sha256 : list Z -> list Z).
Context {K P : Type} `{EqDecision P} `{KernelLaws K P}.

Abbreviation M := (@M K).
Abbreviation St := (@St K).

(** [wp I m Q s]: from [s], [m] ends in a state of [Q], and every kernel state
    it goes through satisfies [I]. *)
Definition wp {A} (I : K -> Prop) (m : M A) (Q : result fault A -> St -> Prop) (s : St) : Prop :=
  let '(r, s') := m s in
  (exists t, trace s' = trace s ++ t /\ Forall I t) /\ Q r s'.

Lemma wp_mono {A} I (m : M A) (Q Q' : result fault A -> St -> Prop) s :
  wp I m Q s -> (forall r s', Q r s' -> Q' r s') -> wp I m Q' s.
Proof. unfold wp. destruct (m s) as [r s']. intros [Ht Hq] Himp. split; [done|by apply Himp]. Qed.

Lemma wp_impl {A} (I I' : K -> Prop) (m : M A) (Q : result fault A -> St -> Prop) s :
  wp I m Q s -> (forall k, I k -> I' k) -> wp I' m Q s.
Proof.
  unfold wp. destruct (m s) as [r s']. intros [(t & Et & Ht) HQ] Himp. split; [|done].
  exists t. split; [done|]. by eapply Forall_impl.
Qed.

Lemma wp_ret {A} I (a : A) (Q : result fault A -> St -> Prop) s : Q (Ok a) s -> wp I (mret a) Q s.
Proof. intros HQ. split; [|done]. exists []. by rewrite app_nil_r. Qed.

Lemma wp_bind {A B} I (m : M A) (f : A -> M B) (Q : result fault B -> St -> Prop) s :
  wp I m (fun r s' => match r with Ok a => wp I (f a) Q s' | Err e => Q (Err e) s' end) s ->
  wp I (m ≫= f) Q s.
Proof.
  unfold wp, mbind, M_bind. destruct (m s) as [[a|e] s1]; [|done].
  intros [(t1 & E1 & F1) HQ]. destruct (f a s1) as [r s2].
  destruct HQ as [(t2 & E2 & F2) HQ]. split; [|done]. exists (t1 ++ t2).
  rewrite E2, E1, app_assoc. split; [done|]. by apply Forall_app_2.
Qed.

Lemma wp_pure {A} I (m : M A) (Q : result fault A -> St -> Prop) s r s' :
  m s = (r, s') -> trace s' = trace s -> Q r s' -> wp I m Q s.
Proof. intros E Et HQ. unfold wp. rewrite E. split; [|done]. exists []. by rewrite app_nil_r. Qed.

Lemma wp_call {A} (I : K -> Prop) (op : K -> result OpsError A * K)
    (Q : result fault (result OpsError A) -> St -> Prop) s :
  (forall r k', op (kernel s) = (r, k') ->
     I k' /\ Q (Ok r) {| kernel := k'; probe := probe s; cache := cache s; drawn := drawn s;
                         trace := trace s ++ [k'] |}) ->
  wp I (call op) Q s.
Proof.
  intros HQ. unfold wp, call. destruct (op (kernel s)) as [r k'] eqn:E.
  destruct (HQ r k' eq_refl) as [HI HQ']. split; [|done]. exists [k']. split; [done|by constructor].
Qed.

Lemma wp_lift {E A} I (f : E -> Error) (x : result E A) (Q : result fault A -> St -> Prop) s :
  match x with Ok a => Q (Ok a) s | Err e => Q (Err (Failed (f e))) s end ->
  wp I (lift f x) Q s.
Proof. intros HQ. destruct x; (eapply wp_pure; [reflexivity|done|exact HQ]). Qed.

Lemma wp_fail {A} I e (Q : result fault A -> St -> Prop) s :
  Q (Err (Failed e)) s -> wp I (fail e) Q s.
Proof. intros HQ. eapply wp_pure; [reflexivity|done|exact HQ]. Qed.

Lemma wp_index {A} I (l : list A) i x (Q : result fault A -> St -> Prop) s :
  l !! i = Some x -> Q (Ok x) s -> wp I (index l i) Q s.
Proof.
  intros Hx HQ. eapply wp_pure; [|done|exact HQ]. unfold index. by rewrite Hx.
Qed.

Lemma frame_refl (k : K) : wf k -> frame k k.
Proof. by split. Qed.

Lemma frame_trans (k1 k2 k3 : K) : frame k1 k2 -> frame k2 k3 -> frame k1 k3.
Proof.
  intros [_ F1] [Hw F2]. split; [done|]. intros p Hl. destruct (F1 p Hl) as [Hl' Hc].
  destruct (F2 p Hl') as [Hl'' Hc']. split; [done|congruence].
Qed.

(** ** Labels: the runtime original a program stands for *)

Definition label_of (insts : list instruction) : option (list Z) :=
  match canonical_bytes insts with
  | Ok raw =>
      match parse_owned_innermost sha256 raw with
      | Ok (Some o) => Some (original o)
      | Ok None => Some raw
      | Err _ => None
      end
  | Err _ => None
  end.

Definition label (k : K) (p : P) : option (list Z) := label_of (code k p).1.

Lemma label_frame k k' p : frame k k' -> live k p -> label k' p = label k p.
Proof. intros [_ HF] Hl. unfold label. by destruct (HF p Hl) as [_ ->]. Qed.

(** Every original attached in [k0] is attached in [k]. *)
Definition covers (k0 k : K) : Prop :=
  forall p, p ∈ att k0 -> exists q, q ∈ att k /\ label k q = label k0 p.

Lemma covers_refl k : covers k k.
Proof. intros p Hp. by exists p. Qed.

Lemma covers_same k0 k k' :
  covers k0 k -> wf k -> frame k k' -> (forall q, q ∈ att k -> q ∈ att k') -> covers k0 k'.
Proof.
  intros Hc Hw HF Ha p Hp. destruct (Hc p Hp) as (q & Hq & Hl). exists q. split; [by apply Ha|].
  rewrite <- Hl. apply label_frame; [done|]. by apply law_live.
Qed.

(** ** Plans whose execution keeps every original attached *)

Section Steps.

(** The handles of the query and of the loads, what each stands for, and the
    originals that must stay attached. *)
Context (olds news : list P) (codes : P -> list instruction * ProgMeta).
Context (lab : P -> option (list Z)) (T : list (option (list Z))).

Definition after (present : list P) (s : Step) : list P :=
  match s with
  | Attach n => match news !! n with Some q => q :: present | None => present end
  | Detach o =>
      match olds !! o with Some p => filter (fun x => x <> p) present | None => present end
  | Pair o n =>
      match olds !! o, news !! n with
      | Some p, Some q => q :: filter (fun x => x <> p) present
      | _, _ => present
      end
  end.

(** A step is safe when its indices are in range, a program is only attached
    once, and what is detached has another program of the same original
    beside it or put in its place. *)
Definition step_safe (present : list P) (s : Step) : Prop :=
  match s with
  | Attach n => exists q, news !! n = Some q /\ q ∉ present
  | Detach o =>
      exists p q, olds !! o = Some p /\ q ∈ present /\ q <> p /\ lab q = lab p
  | Pair o n =>
      exists p q, olds !! o = Some p /\ news !! n = Some q
        /\ p ∈ present /\ q ∉ present /\ lab q = lab p
  end.

Fixpoint steps_safe (present : list P) (l : list Step) : Prop :=
  match l with
  | [] => True
  | s :: l => step_safe present s /\ steps_safe (after present s) l
  end.

Definition covered (present : list P) : Prop :=
  forall l, l ∈ T -> exists q, q ∈ present /\ lab q = l.

Lemma covered_after present s :
  step_safe present s -> covered present -> covered (after present s).
Proof.
  intros Hs Hc l Hl. destruct (Hc l Hl) as (q & Hq & Hlab). destruct s; simpl in *.
  - destruct Hs as (x & -> & _). exists q. set_solver.
  - destruct Hs as (p & x & -> & Hx & Hne & Hlx). destruct (decide (q = p)) as [->|Hqp].
    + exists x. split; [by apply list_elem_of_filter|congruence].
    + exists q. split; [by apply list_elem_of_filter|done].
  - destruct Hs as (p & x & -> & -> & _ & _ & Hlx). destruct (decide (q = p)) as [->|Hqp].
    + exists x. split; [set_solver|congruence].
    + exists q. split; [|done]. right. by apply list_elem_of_filter.
Qed.

Lemma covered_foldl present l :
  steps_safe present l -> covered present -> covered (foldl after present l).
Proof.
  revert present. induction l as [|s l IH]; intros present Hs Hc; [done|].
  destruct Hs as [Hs Hl]. apply IH; [done|]. by apply covered_after.
Qed.

(** The kernel's state agrees with the abstract one. *)
Record agrees (k : K) (present : list P) : Prop := {
  agrees_wf : wf k;
  agrees_att q : q ∈ att k <-> q ∈ present;
  agrees_in q : q ∈ present -> q ∈ olds ++ news;
  agrees_live q : q ∈ olds ++ news -> live k q /\ label k q = lab q;
  agrees_code q : q ∈ olds ++ news -> code k q = codes q;
}.

Definition kept (k : K) : Prop := forall l, l ∈ T -> exists q, q ∈ att k /\ label k q = l.

Lemma agrees_frame k k' present present' :
  agrees k present -> frame k k' -> (forall q, q ∈ att k' <-> q ∈ present') ->
  (forall q, q ∈ present' -> q ∈ olds ++ news) -> agrees k' present'.
Proof.
  intros [Hw Ha Hi Hl Hk] HF Ha' Hi'. constructor; [apply HF|done|done| |].
  - intros q Hq. destruct (Hl q Hq) as [Hlq <-]. split; [by apply HF|by apply label_frame].
  - intros q Hq. rewrite <- (Hk q Hq). apply HF. by apply Hl.
Qed.

Lemma agrees_kept k present : agrees k present -> covered present -> kept k.
Proof.
  intros [Hw Ha Hi Hl _] Hc l Hl'. destruct (Hc l Hl') as (q & Hq & Hlab). exists q.
  split; [by apply Ha|]. rewrite <- Hlab. by apply Hl, Hi.
Qed.

Lemma agrees_kept_super k present k' :
  agrees k present -> covered present -> frame k k' ->
  (forall q, q ∈ present -> q ∈ att k') -> kept k'.
Proof.
  intros Hag Hc HF Hsup l Hl. destruct (Hc l Hl) as (q & Hq & Hlab). exists q.
  split; [by apply Hsup|]. rewrite <- Hlab.
  destruct (agrees_live _ _ Hag q (agrees_in _ _ Hag q Hq)) as [Hlq <-].
  by apply label_frame.
Qed.

(** The outcome of a step or of a list of them: no panic, and the abstract
    state after it when it succeeded. *)
Definition stepped (s : St) (present : list P) (r : result fault unit) (s' : St) : Prop :=
  cache s' = cache s /\ drawn s' = drawn s
  /\ match r with
     | Ok _ => agrees (kernel s') present
     | Err (Failed _) => True
     | Err Panicked => False
     end.

Lemma in_old o p : olds !! o = Some p -> p ∈ olds ++ news.
Proof. intros Hp. apply elem_of_app. left. by eapply list_elem_of_lookup_2. Qed.

Lemma in_new n q : news !! n = Some q -> q ∈ olds ++ news.
Proof. intros Hq. apply elem_of_app. right. by eapply list_elem_of_lookup_2. Qed.

Lemma wp_swap_in_turn present p q s :
  agrees (kernel s) present -> covered present ->
  p ∈ present -> q ∉ present -> q ∈ olds ++ news -> lab q = lab p ->
  wp kept (swap_in_turn p q) (stepped s (q :: filter (fun x => x <> p) present)) s.
Proof.
  intros Hag Hc Hp Hq Hin Hlab. unfold swap_in_turn.
  pose proof (agrees_live _ _ Hag q Hin) as [Hlq _].
  assert (q ∉ att (kernel s)) as Hna by (by rewrite (agrees_att _ _ Hag)).
  apply wp_bind, wp_call. intros r k1 E1.
  destruct (law_attach _ _ _ _ (agrees_wf _ _ Hag) Hlq Hna E1) as [F1 A1].
  destruct r as [u|e].
  2: { split; [by eapply agrees_kept_super; [..|intros x Hx; rewrite A1; by apply Hag]|].
       by apply wp_bind, wp_lift. }
  assert (agrees k1 (q :: present)) as Hag1.
  { eapply agrees_frame; [exact Hag|done| |].
    - intros x. rewrite A1, !elem_of_cons, (agrees_att _ _ Hag). done.
    - intros x [->|Hx]%elem_of_cons; [done|]. by apply (agrees_in _ _ Hag). }
  assert (covered (q :: present)) as Hc1.
  { intros l Hl. destruct (Hc l Hl) as (x & Hx & Hxl). exists x. set_solver. }
  split; [by eapply agrees_kept|]. apply wp_bind, wp_lift. apply wp_bind, wp_call.
  intros r k2 E2. destruct (law_detach _ _ _ _ (agrees_wf _ _ Hag1) E2) as [F2 A2].
  destruct r as [u2|e2].
  { assert (agrees k2 (q :: filter (fun x => x <> p) present)) as Hag2.
    { eapply agrees_frame; [exact Hag1|done| |].
      - intros x. rewrite A2, (agrees_att _ _ Hag1), !elem_of_cons, list_elem_of_filter.
        split; [naive_solver|]. intros [->|[Hx1 Hx2]]; [|naive_solver]. split; [by left|].
        intros ->. done.
      - intros x [->|[_ Hx]%list_elem_of_filter]%elem_of_cons; [done|]. by apply (agrees_in _ _ Hag). }
    split; [|by apply wp_ret].
    eapply agrees_kept; [exact Hag2|].
    intros l Hl. destruct (Hc l Hl) as (x & Hx & Hxl). destruct (decide (x = p)) as [->|Hne].
    - exists q. split; [by left|congruence].
    - exists x. split; [|done]. right. by apply list_elem_of_filter. }
  assert (agrees k2 (q :: present)) as Hag2.
  { eapply agrees_frame; [exact Hag1|done| |by apply Hag1].
    intros x. by rewrite A2, (agrees_att _ _ Hag1). }
  split; [by eapply agrees_kept|]. apply wp_bind, wp_call.
  intros r k3 E3. destruct (law_detach _ _ _ _ (agrees_wf _ _ Hag2) E3) as [F3 A3].
  split.
  - eapply agrees_kept_super; [exact Hag| exact Hc | |].
    + eapply frame_trans; [exact F1|]. eapply frame_trans; [exact F2|exact F3].
    + intros x Hx. apply A3. assert (x ∈ att k2) as Hx2 by (apply Hag2; by right).
      destruct r; [split; [done|]|done]. intros ->. done.
  - destruct r; by apply wp_fail.
Qed.

Lemma wp_swap present p q s :
  agrees (kernel s) present -> covered present ->
  p ∈ present -> q ∉ present -> q ∈ olds ++ news -> lab q = lab p ->
  wp kept (swap p q) (stepped s (q :: filter (fun x => x <> p) present)) s.
Proof.
  intros Hag Hc Hp Hq Hin Hlab. unfold swap. apply wp_bind.
  eapply wp_pure; [reflexivity|done|]. cbn beta iota.
  destruct (usable (probe s)); [|by apply wp_swap_in_turn].
  pose proof (agrees_live _ _ Hag q Hin) as [Hlq _].
  assert (q ∉ att (kernel s)) as Hna by (by rewrite (agrees_att _ _ Hag)).
  apply wp_bind, wp_call. intros r k1 E1.
  destruct (law_replace _ _ _ _ _ (agrees_wf _ _ Hag) Hlq Hna E1) as [F1 A1].
  destruct r as [u|e].
  - destruct A1 as (l & Al & Al').
    assert (NoDup (p :: l)) as Hnd by (rewrite <- Al; apply law_nodup, Hag).
    apply NoDup_cons in Hnd as [Hpl _].
    assert (agrees k1 (q :: filter (fun x => x <> p) present)) as Hag1.
    { eapply agrees_frame; [exact Hag|done| |].
      - intros x. rewrite Al', !elem_of_cons, list_elem_of_filter, <- (agrees_att _ _ Hag), Al,
          elem_of_cons. split; [|naive_solver]. intros [->|Hx]; [by left|right].
        split; [by intros ->|by right].
      - intros x [->|[_ Hx]%list_elem_of_filter]%elem_of_cons; [done|].
        by apply (agrees_in _ _ Hag). }
    split.
    { eapply agrees_kept; [exact Hag1|]. intros l' Hl'. destruct (Hc l' Hl') as (x & Hx & Hxl).
      destruct (decide (x = p)) as [->|Hne].
      - exists q. split; [by left|congruence].
      - exists x. split; [|done]. right. by apply list_elem_of_filter. }
    apply wp_bind. eapply wp_pure; [reflexivity|done|]. by apply wp_ret.
  - assert (agrees k1 present) as Hag1.
    { eapply agrees_frame; [exact Hag|done| |apply Hag]. intros x. by rewrite A1, (agrees_att _ _ Hag). }
    split; [by eapply agrees_kept|]. apply wp_bind.
    eapply wp_pure; [reflexivity|done|]. cbn beta iota. apply wp_bind.
    eapply wp_pure; [reflexivity|done|]. cbn beta iota.
    destruct (usable _); [by apply wp_fail|].
    eapply wp_mono; [by apply (wp_swap_in_turn present)|].
    intros r s' (Ec & Ed & Hr). by split_and!.
Qed.

Lemma wp_run_step present st s :
  agrees (kernel s) present -> covered present -> step_safe present st ->
  wp kept (run_step olds news st) (stepped s (after present st)) s.
Proof.
  intros Hag Hc Hs. destruct st as [n|o|o n]; simpl in Hs |- *.
  - destruct Hs as (q & Hq & Hnp). rewrite Hq. apply wp_bind. eapply wp_index; [exact Hq|].
    pose proof (in_new n q Hq) as Hin. pose proof (agrees_live _ _ Hag q Hin) as [Hlq _].
    assert (q ∉ att (kernel s)) as Hna by (by rewrite (agrees_att _ _ Hag)).
    apply wp_bind, wp_call. intros r k1 E1.
    destruct (law_attach _ _ _ _ (agrees_wf _ _ Hag) Hlq Hna E1) as [F1 A1].
    split.
    { eapply agrees_kept_super; [exact Hag|done|done|]. intros x Hx.
      destruct r; rewrite A1; [right|]; by apply Hag. }
    apply wp_lift. destruct r; [|done]. split_and!; [done|done|].
    eapply agrees_frame; [exact Hag|done| |].
    + intros x. by rewrite A1, !elem_of_cons, (agrees_att _ _ Hag).
    + intros x [->|Hx]%elem_of_cons; [done|]. by apply (agrees_in _ _ Hag).
  - destruct Hs as (p & q & Hp & Hq & Hne & Hlab). rewrite Hp. apply wp_bind.
    eapply wp_index; [exact Hp|]. apply wp_bind, wp_call. intros r k1 E1.
    destruct (law_detach _ _ _ _ (agrees_wf _ _ Hag) E1) as [F1 A1]. destruct r as [u|e].
    + assert (agrees k1 (filter (fun x => x <> p) present)) as Hag1.
      { eapply agrees_frame; [exact Hag|done| |].
        - intros x. rewrite A1, list_elem_of_filter, (agrees_att _ _ Hag). naive_solver.
        - intros x [_ Hx]%list_elem_of_filter. by apply (agrees_in _ _ Hag). }
      split; [|by apply wp_lift]. eapply agrees_kept; [exact Hag1|].
      intros l Hl. destruct (Hc l Hl) as (x & Hx & Hxl). destruct (decide (x = p)) as [->|Hxp].
      * exists q. split; [by apply list_elem_of_filter|congruence].
      * exists x. split; [by apply list_elem_of_filter|done].
    + split; [|by apply wp_lift]. eapply agrees_kept_super; [exact Hag|done|done|].
      intros x Hx. apply A1. by apply Hag.
  - destruct Hs as (p & q & Hp & Hq & Hpp & Hnp & Hlab). rewrite Hp, Hq.
    apply wp_bind. eapply wp_index; [exact Hp|]. apply wp_bind. eapply wp_index; [exact Hq|].
    apply wp_swap; try done. by eapply in_new.
Qed.

(** A run of the steps: failures name the step they happened at. *)
Definition ran (s : St) (present : list P) (r : result fault unit) (s' : St) : Prop :=
  stepped s present r s'
  /\ match r with Err (Failed e) => exists a b e', e = Change a b e' | _ => True end.

Lemma wp_run_steps total done l present s :
  agrees (kernel s) present -> covered present -> steps_safe present l ->
  wp kept (run_steps olds news total done l) (ran s (foldl after present l)) s.
Proof.
  revert done present s. induction l as [|st l IH]; intros done present s Hag Hc Hs.
  { apply wp_ret. by split. }
  destruct Hs as [Hst Hs]. cbn [run_steps foldl]. apply wp_bind.
  pose proof (wp_run_step present st s Hag Hc Hst) as Hw.
  unfold wp, in_change in *. destruct (run_step olds news st s) as [r s1].
  destruct Hw as [Ht (Ec & Ed & Hr)]. destruct r as [u|[e|]].
  - split; [done|]. specialize (IH (S done) (after present st) s1 Hr
      (covered_after _ _ Hst Hc) Hs). unfold wp in IH.
    destruct (run_steps _ _ _ _ _ _) as [r2 s2]. destruct IH as [Ht2 [(Ec2 & Ed2 & Hr2) He]].
    split; [done|]. split; [|done]. split_and!; [congruence|congruence|done].
  - split; [done|]. split; [done|]. by eauto.
  - done.
Qed.

(** The steps are safe and end in a state of [Q]. *)
Fixpoint safe_to (Q : list P -> Prop) (present : list P) (l : list Step) : Prop :=
  match l with
  | [] => Q present
  | s :: l => step_safe present s /\ safe_to Q (after present s) l
  end.

Lemma safe_to_spec Q present l :
  safe_to Q present l -> steps_safe present l /\ Q (foldl after present l).
Proof.
  revert present. induction l as [|s l IH]; intros present Hs; [done|].
  destruct Hs as [Hs Hl]. destruct (IH _ Hl) as [Hsl HQ]. by split.
Qed.

(** *** Chunks: the steps of one lineage *)

Inductive chunk :=
  | CKeep (pre : list nat) (k : nat) (post : list nat)
  | CPair (first : nat) (rest : list nat) (new : nat)
  | CBare (members : list nat) (bare : nat)
  | CAttach (new : nat).

Definition chunk_steps (c : chunk) : list Step :=
  match c with
  | CKeep pre _ post => Detach <$> (pre ++ post)
  | CPair first rest new => Pair first new :: (Detach <$> rest)
  | CBare members _ => Detach <$> members
  | CAttach new => [Attach new]
  end.

(** The attached programs a chunk is about, the ones it takes away, the one
    it relies on and the one it brings. *)
Definition chunk_olds (c : chunk) : list nat :=
  match c with
  | CKeep pre k post => pre ++ k :: post
  | CPair first rest _ => first :: rest
  | CBare members _ => members
  | CAttach _ => []
  end.

Definition chunk_gone (c : chunk) : list nat :=
  match c with
  | CKeep pre _ post => pre ++ post
  | CPair first rest _ => first :: rest
  | CBare members _ => members
  | CAttach _ => []
  end.

Definition chunk_bare (c : chunk) : list nat :=
  match c with CBare _ b => [b] | _ => [] end.

Definition chunk_new (c : chunk) : list nat :=
  match c with CPair _ _ n => [n] | CAttach n => [n] | _ => [] end.

(** The programs at some indices. *)
Definition at_old (ds : list nat) (x : P) : Prop := exists d, d ∈ ds /\ olds !! d = Some x.
Definition at_new (ns : list nat) (x : P) : Prop := exists n, n ∈ ns /\ news !! n = Some x.

Definition same_label (ds : list nat) (l : option (list Z)) : Prop :=
  forall d x, d ∈ ds -> olds !! d = Some x -> lab x = l.

(** The programs of a chunk are of one original. *)
Definition chunk_ok (c : chunk) : Prop :=
  (forall d, d ∈ chunk_olds c ++ chunk_bare c -> is_Some (olds !! d))
  /\ (forall n, n ∈ chunk_new c -> is_Some (news !! n))
  /\ NoDup (chunk_olds c ++ chunk_bare c)
  /\ match c with
     | CAttach _ => True
     | CPair _ _ _ => exists l, same_label (chunk_olds c) l
         /\ forall n x, n ∈ chunk_new c -> news !! n = Some x -> lab x = l
     | _ => exists l, same_label (chunk_olds c ++ chunk_bare c) l
     end.

Definition without (ds : list nat) (present present' : list P) : Prop :=
  forall x, x ∈ present' <-> x ∈ present /\ ~ at_old ds x.

Lemma detaches_safe Q ds q present rest :
  NoDup olds -> q ∈ present ->
  (forall d, d ∈ ds -> exists p, olds !! d = Some p /\ p <> q /\ lab q = lab p) ->
  (forall present', without ds present present' -> safe_to Q present' rest) ->
  safe_to Q present ((Detach <$> ds) ++ rest).
Proof.
  intros Hnd. revert present. induction ds as [|d ds IH]; intros present Hq Hd Hrest.
  - apply Hrest. intros x. split; [|naive_solver]. intros Hx. split; [done|].
    intros (d & Hd' & _). by apply not_elem_of_nil in Hd'.
  - csimpl. destruct (Hd d) as (p & Hp & Hne & Hlab); [by left|]. split.
    + exists p, q. by split_and!.
    + cbn [after]. rewrite Hp. apply IH.
      * by apply list_elem_of_filter.
      * intros d' Hd'. apply Hd. by right.
      * intros present' Hw. apply Hrest. intros x. rewrite (Hw x), list_elem_of_filter.
        split.
        -- intros [[Hxp Hx] Hnot]. split; [done|]. intros (d' & [->|Hd']%elem_of_cons & Ho);
             [congruence|]. apply Hnot. by exists d'.
        -- intros [Hx Hnot]. split; [split; [|done]|].
           ++ intros ->. apply Hnot. exists d. split; [by left|done].
           ++ intros (d' & Hd' & Ho). apply Hnot. exists d'. split; [by right|done].
Qed.

Lemma old_inj d d' x : NoDup olds -> olds !! d = Some x -> olds !! d' = Some x -> d = d'.
Proof. intros Hnd. by apply NoDup_lookup. Qed.

(** What a chunk leaves. *)
Definition chunk_after (c : chunk) (present present' : list P) : Prop :=
  forall x, x ∈ present' <->
    (x ∈ present /\ ~ at_old (chunk_gone c) x) \/ at_new (chunk_new c) x.

Lemma at_old_app ds ds' x : at_old (ds ++ ds') x <-> at_old ds x \/ at_old ds' x.
Proof. unfold at_old. set_solver. Qed.

(** Detaching programs of a lineage while one of them, [keep], stays. *)
Lemma detach_others Q keep ds all l present rest :
  NoDup olds -> (forall d, d ∈ all -> is_Some (olds !! d)) -> same_label all l ->
  (forall d, d ∈ keep :: ds -> d ∈ all) -> keep ∉ ds -> (forall x, at_old all x -> x ∈ present) ->
  (forall present', without ds present present' -> safe_to Q present' rest) ->
  safe_to Q present ((Detach <$> ds) ++ rest).
Proof.
  intros Hnd Hro Hl Hsub Hk Hpres Hrest.
  assert (keep ∈ all) as Hka by (apply Hsub; by left). destruct (Hro keep Hka) as [q Hq].
  eapply (detaches_safe _ _ q); [done|apply Hpres; by exists keep| |done].
  intros d Hd. assert (d ∈ all) as Hda by (apply Hsub; by right).
  destruct (Hro d Hda) as [p Hp]. exists p. split_and!; [done| |].
  - intros ->. by assert (d = keep) as -> by (by eapply old_inj).
  - by rewrite (Hl keep q), (Hl d p).
Qed.

(** What detaching leaves is what the chunk leaves. *)
Lemma without_after c ds present present' :
  without ds present present' -> chunk_gone c = ds -> chunk_new c = [] ->
  chunk_after c present present'.
Proof. intros Hw <- Hn x. rewrite (Hw x), Hn. unfold at_new. set_solver. Qed.

(** The new program takes the place of the first old one; the others go. *)
Lemma pair_after first rest new p q present present' :
  olds !! first = Some p -> news !! new = Some q -> q ∉ olds ->
  without rest (q :: filter (fun x => x <> p) present) present' ->
  chunk_after (CPair first rest new) present present'.
Proof.
  intros Hp Hq Hqo Hw x. rewrite (Hw x), elem_of_cons, list_elem_of_filter. simpl. split.
  - intros [[->|[Hxp Hx]] Hnot].
    + right. exists new. split; [by left|done].
    + left. split; [done|]. intros (d & [->|Hd]%elem_of_cons & Ho); [congruence|].
      apply Hnot. by exists d.
  - intros [[Hx Hnot]|(n & ->%list_elem_of_singleton & Hx)].
    + split; [right; split; [|done]|].
      * intros ->. apply Hnot. exists first. split; [by left|done].
      * intros (d & Hd & Ho). apply Hnot. exists d. split; [by right|done].
    + split; [left; congruence|]. intros (d & Hd & Ho). apply Hqo.
      assert (x = q) as -> by congruence. by eapply list_elem_of_lookup_2.
Qed.

Lemma pair_safe Q first members new present rest :
  NoDup olds -> (forall x, x ∈ olds -> x ∉ news) -> chunk_ok (CPair first members new) ->
  (forall x, at_old (first :: members) x -> x ∈ present) ->
  (forall x, at_new [new] x -> x ∉ present) ->
  (forall present', chunk_after (CPair first members new) present present' ->
    safe_to Q present' rest) ->
  safe_to Q present (chunk_steps (CPair first members new) ++ rest).
Proof.
  intros Hnd Hdis (Hro & Hrn & _ & l & Hl & Hln) Hpres Hfresh Hrest. simpl in *.
  rewrite app_nil_r in *.
  destruct (Hro first) as [p Hp]; [by left|]. destruct (Hrn new) as [q Hq]; [by left|].
  assert (q ∉ present) as Hqp by (apply Hfresh; exists new; split; [by left|done]).
  assert (q ∉ olds) as Hqo.
  { intros Hqo. apply (Hdis q Hqo). by eapply list_elem_of_lookup_2. }
  split.
  - exists p, q. split_and!; [done|done| |done|].
    + apply Hpres. exists first. split; [by left|done].
    + rewrite (Hl first p), (Hln new q); [done|by left|done|by left|done].
  - cbn [after]. rewrite Hp, Hq. eapply (detaches_safe _ _ q); [done|by left| |].
    + intros d Hd. destruct (Hro d) as [x Hx]; [by right|]. exists x. split_and!; [done| |].
      * intros ->. apply Hqo. by eapply list_elem_of_lookup_2.
      * rewrite (Hl d x), (Hln new q); [done|by left|done|by right|done].
    + intros present' Hw. apply Hrest. by eapply pair_after.
Qed.

Lemma chunk_safe Q c present rest :
  NoDup olds -> (forall x, x ∈ olds -> x ∉ news) -> chunk_ok c ->
  (forall x, at_old (chunk_olds c ++ chunk_bare c) x -> x ∈ present) ->
  (forall x, at_new (chunk_new c) x -> x ∉ present) ->
  (forall present', chunk_after c present present' -> safe_to Q present' rest) ->
  safe_to Q present (chunk_steps c ++ rest).
Proof.
  intros Hnd Hdis Hok Hpres Hfresh Hrest.
  destruct c as [pre k post|first members new|ms b|new].
  - destruct Hok as (Hro & _ & Hndc & l & Hl). simpl in *. rewrite app_nil_r in *.
    eapply (detach_others _ k); [done|done|done|set_solver| |done|].
    + apply NoDup_app in Hndc as (_ & Hdisj & Hnd2). apply NoDup_cons in Hnd2 as [Hk _].
      intros [Hd|Hd]%elem_of_app; [|done]. apply (Hdisj k Hd). by left.
    + intros present' Hw. apply Hrest. by eapply without_after.
  - simpl in Hpres. rewrite app_nil_r in Hpres. by apply pair_safe.
  - destruct Hok as (Hro & _ & Hndc & l & Hl). simpl in *.
    eapply (detach_others _ b); [done|done|done|set_solver| |done|].
    + apply NoDup_app in Hndc as (_ & Hdisj & _). intros Hd. apply (Hdisj b Hd). by left.
    + intros present' Hw. apply Hrest. by eapply without_after.
  - destruct Hok as (_ & Hrn & _). destruct (Hrn new) as [q Hq]; [by left|]. split.
    + exists q. split; [done|]. apply Hfresh. exists new. split; [by left|done].
    + cbn [after]. rewrite Hq. apply Hrest. intros x. rewrite elem_of_cons. split.
      * intros [->|Hx]; [right; exists new; split; [by left|done]|left]. split; [done|].
        intros (d & Hd & _). by apply not_elem_of_nil in Hd.
      * intros [[Hx _]|(n & ->%list_elem_of_singleton & Hx)]; [by right|left; congruence].
Qed.

(** The chunks of a whole plan: nobody's programs are anybody else's, and no
    chunk takes away what another relies on. *)
Definition chunks_ok (cs : list chunk) : Prop :=
  Forall chunk_ok cs
  /\ NoDup (cs ≫= chunk_olds) /\ NoDup (cs ≫= chunk_new)
  /\ forall b, b ∈ cs ≫= chunk_bare -> b ∉ cs ≫= chunk_olds.

Definition chunks_after (cs : list chunk) (present present' : list P) : Prop :=
  forall x, x ∈ present' <->
    (x ∈ present /\ ~ at_old (cs ≫= chunk_gone) x) \/ at_new (cs ≫= chunk_new) x.

Lemma chunk_gone_olds c d : d ∈ chunk_gone c -> d ∈ chunk_olds c.
Proof. destruct c; simpl; set_solver. Qed.

Lemma chunks_safe cs present :
  NoDup olds -> NoDup news -> (forall x, x ∈ olds -> x ∉ news) -> chunks_ok cs ->
  (forall x, at_old (cs ≫= chunk_olds) x -> x ∈ present) ->
  (forall x, at_old (cs ≫= chunk_bare) x -> x ∈ present) ->
  (forall x, at_new (cs ≫= chunk_new) x -> x ∉ present) ->
  safe_to (chunks_after cs present) present (cs ≫= chunk_steps).
Proof.
  intros Hndo Hndn Hdis Hok Hpo Hpb Hpn.
  assert (forall Q : list P -> Prop,
    (forall present', chunks_after cs present present' -> Q present') ->
    safe_to Q present (cs ≫= chunk_steps)) as HQ; [|by apply HQ].
  revert present Hpo Hpb Hpn. induction cs as [|c cs IH]; intros present Hpo Hpb Hpn Q Hend.
  { apply Hend. intros x. unfold at_old, at_new. set_solver. }
  destruct Hok as (Hok & Hno & Hnn & Hbare). apply Forall_cons in Hok as [Hc Hok].
  csimpl in *. apply NoDup_app in Hno as (_ & Hdo & Hno), Hnn as (_ & Hdn & Hnn).
  apply chunk_safe; [done|done|done| | |].
  - intros x [Hx|Hx]%at_old_app; [apply Hpo|apply Hpb]; apply at_old_app; by left.
  - intros x (n & Hn & Hx). apply Hpn. exists n. split; [set_solver|done].
  - intros present' Ha. apply IH.
    + split_and!; [done|done|done|]. intros b Hb Hb'. apply (Hbare b); set_solver.
    + intros x (d & Hd & Hx). apply Ha. left. split.
      * apply Hpo. exists d. split; [set_solver|done].
      * intros (d' & Hd' & Hx'). assert (d' = d) as -> by (by eapply old_inj).
        apply (Hdo d); [by apply chunk_gone_olds|done].
    + intros x (b & Hb & Hx). apply Ha. left. split.
      * apply Hpb. exists b. split; [set_solver|done].
      * intros (d' & Hd' & Hx'). assert (d' = b) as -> by (by eapply old_inj).
        apply (Hbare b); [set_solver|]. apply chunk_gone_olds in Hd'. set_solver.
    + intros x (n & Hn & Hx) Hin. apply Ha in Hin as [[Hin _]|(n' & Hn' & Hx')].
      * apply (Hpn x); [|done]. exists n. split; [set_solver|done].
      * assert (n' = n) as -> by (eapply NoDup_lookup; [exact Hndn|done|done]).
        by apply (Hdn n).
    + intros present'' Ha'. apply Hend. intros x. rewrite !bind_cons, (Ha' x), (Ha x), at_old_app.
      split.
      * intros [[[[Hx Hg]|Hn] Hg']|Hn].
        -- left. naive_solver.
        -- right. destruct Hn as (n & Hn & Hx). exists n. split; [set_solver|done].
        -- right. destruct Hn as (n & Hn & Hx). exists n. split; [set_solver|done].
      * intros [[Hx Hg]|(n & [Hn|Hn]%elem_of_app & Hx)].
        -- left. naive_solver.
        -- left. split; [right; by exists n|]. intros (d & Hd & Ho).
           apply (Hdis x); by eapply list_elem_of_lookup_2.
        -- right. by exists n.
Qed.
End Steps.

End Pass.
