(* ===== verification/V2Plans.v ===== *)
(** * The plans of the cgroup v2 pass

    Grouping keeps every attached program; a grant, a restore and a rebuild are
    made of chunks, one per lineage, whose steps are safe to execute. *)

From S2P Require Import Prelude.
From S2P Require Import Asm.
From S2P Require Import AsmText.
From S2P Require Import Codec.
From S2P Require Import CodecProofs.
From S2P Require Import Ebpf.
From S2P Require Import Bpf.
From S2P Require Import Owned.
From S2P Require Import Verdict.
From S2P Require Import OwnedProofs.
From S2P Require Import V2Ops.
From S2P Require Import Errors.
From S2P Require Import V2.
From S2P Require Import V2Proofs.

Local Open Scope Z_scope.

(** ** Grouping *)

Lemma position_Some {A} (p : A -> bool) l k :
  position p l = Some k -> exists x, l !! k = Some x /\ p x = true.
Proof.
  revert k. induction l as [|x l IH]; intros k Hk; simpl in Hk; [done|].
  destruct (p x) eqn:E; [injection Hk as <-; by exists x|].
  apply fmap_Some in Hk as (j & Hj & ->). by apply IH.
Qed.

Lemma lookup_split {A} (l : list A) k x :
  l !! k = Some x -> exists pre post, l = pre ++ x :: post /\ k = length pre.
Proof.
  intros Hx. exists (take k l), (drop (S k) l). rewrite take_drop_middle by done. split; [done|].
  apply lookup_lt_Some in Hx. rewrite length_take. lia.
Qed.

Record group_ok (g : WrapperGroup) : Prop := {
  group_nonempty : g_members g <> [];
  group_members : Forall (fun m => a_owned m = true /\ a_nonce m = g_nonce g
                                   /\ a_original m = g_original g) (g_members g);
}.

(** The members of the groups, with the bares, are the programs. *)
Definition grouped (gs : list WrapperGroup) (bs : list AttachedProg) : list AttachedProg :=
  (gs ≫= g_members) ++ bs.

Lemma alter_member_perm (gs : list WrapperGroup) k g m :
  gs !! k = Some g ->
  alter (fun g => {| g_nonce := g_nonce g; g_original := g_original g; g_meta := g_meta g;
                     g_members := g_members g ++ [m] |}) k gs ≫= g_members
    ≡ₚ m :: (gs ≫= g_members).
Proof.
  revert k. induction gs as [|h gs IH]; intros [|k] Hk; simplify_eq/=; csimpl.
  - change (alter ?f 0%nat (g :: gs)) with (f g :: gs). csimpl. solve_Permutation.
  - change (alter ?f (S k) (h :: gs)) with (h :: alter f k gs). csimpl. rewrite (IH k Hk).
    solve_Permutation.
Qed.

Lemma add_member_spec gs m :
  Forall group_ok gs -> a_owned m = true ->
  Forall group_ok (add_member gs m) /\ (add_member gs m ≫= g_members) ≡ₚ m :: (gs ≫= g_members).
Proof.
  intros Hgs Hm. unfold add_member. destruct (position _ gs) as [k|] eqn:Ek.
  - apply position_Some in Ek as (g & Hg & Hp).
    apply andb_true_iff in Hp as [Hn%Z.eqb_eq Ho%bool_decide_eq_true].
    split; [|by eapply alter_member_perm].
    pose proof (Forall_lookup_1 _ _ _ _ Hgs Hg) as [Hne Hmem].
    apply Forall_alter; [done|]. intros g' Hg' _. assert (g' = g) as -> by congruence.
    constructor; simpl.
    + by destruct (g_members g).
    + apply Forall_app_2; [done|]. by constructor.
  - split.
    + apply Forall_app_2; [done|]. apply Forall_singleton. constructor; [done|]. by repeat constructor.
    + rewrite bind_app. csimpl. solve_Permutation.
Qed.

Lemma group_loop_spec l gs bs gs' bs' :
  group_loop l gs bs = (gs', bs') -> Forall group_ok gs ->
  Forall (fun b => a_owned b = false) bs ->
  Forall group_ok gs' /\ Forall (fun b => a_owned b = false) bs'
  /\ grouped gs' bs' ≡ₚ grouped gs bs ++ l.
Proof.
  revert gs bs. induction l as [|m l IH]; intros gs bs Hl Hgs Hbs; simpl in Hl.
  - simplify_eq. by rewrite app_nil_r.
  - destruct (a_owned m) eqn:Em.
    + destruct (add_member_spec gs m Hgs Em) as [Hgs1 Hp].
      destruct (IH _ _ Hl Hgs1 Hbs) as (HG & HB & HP). split_and!; [done|done|].
      rewrite HP. unfold grouped. rewrite Hp. solve_Permutation.
    + destruct (IH _ _ Hl Hgs) as (HG & HB & HP); [apply Forall_app_2; [done|by constructor]|].
      split_and!; [done|done|]. rewrite HP. unfold grouped. solve_Permutation.
Qed.

Lemma group_wrappers_spec l gs bs :
  group_wrappers l = (gs, bs) ->
  Forall group_ok gs /\ Forall (fun b => a_owned b = false) bs /\ grouped gs bs ≡ₚ l.
Proof. intros Hl. by apply (group_loop_spec l [] [] gs bs Hl). Qed.

(** ** The shape of a plan *)

Record plan_chunks (p : PassPlan) (cs : list chunk) : Prop := {
  pc_steps : steps p = cs ≫= chunk_steps;
  pc_new : cs ≫= chunk_new = seq 0 (length (loads p));
  pc_names : length (names p) = length (loads p);
}.

(** Appending the steps of one more lineage. *)
Lemma plan_chunks_snoc p cs p' c :
  plan_chunks p cs -> steps p' = steps p ++ chunk_steps c ->
  chunk_new c = seq (length (loads p)) (length (loads p') - length (loads p)) ->
  (length (loads p) <= length (loads p'))%nat ->
  length (names p') = length (loads p') -> plan_chunks p' (cs ++ [c]).
Proof.
  intros [Hs Hn Hm] Hs' Hc Hle Hm'. constructor; [| |done].
  - rewrite bind_app, Hs', Hs. csimpl. by rewrite app_nil_r.
  - rewrite bind_app, Hn. csimpl. rewrite app_nil_r, Hc, <- seq_app. f_equal. lia.
Qed.

Lemma detach_all_spec p ms :
  steps (detach_all p ms) = steps p ++ (Detach <$> (a_index <$> ms))
  /\ loads (detach_all p ms) = loads p /\ names (detach_all p ms) = names p
  /\ plan_lineages (detach_all p ms) = plan_lineages p.
Proof.
  revert p. induction ms as [|m ms IH]; intros p; csimpl; [by rewrite app_nil_r|].
  unfold detach_all in *. csimpl. destruct (IH (plan_detach p (a_index m))) as (-> & -> & -> & ->).
  split_and!; [|done..]. simpl. by rewrite <- app_assoc.
Qed.

(** Detaching every member but one. *)
Definition others (keep : nat) (l : list (nat * AttachedProg)) : list AttachedProg :=
  (filter (fun x => x.1 <> keep) l).*2.

Lemma detach_others_foldl keep l p :
  let p' := foldl (fun p '(k, m) => if (k =? keep)%nat then p else plan_detach p (a_index m)) p l in
  steps p' = steps p ++ (Detach <$> (a_index <$> others keep l))
  /\ loads p' = loads p /\ names p' = names p /\ plan_lineages p' = plan_lineages p.
Proof.
  revert p. induction l as [|[k m] l IH]; intros p; [by rewrite app_nil_r|].
  cbn [foldl]. unfold others in *. rewrite filter_cons. simpl.
  destruct (Nat.eqb_spec k keep) as [->|Hne].
  - rewrite decide_False by (intros Hx; by apply Hx). apply IH.
  - rewrite decide_True by done. csimpl.
    destruct (IH (plan_detach p (a_index m))) as (-> & -> & -> & ->).
    split_and!; [|done..]. simpl. by rewrite <- app_assoc.
Qed.

Lemma others_far keep ms j :
  (keep < j \/ j + length ms <= keep)%nat ->
  others keep (imap (fun k m => ((j + k)%nat, m)) ms) = ms.
Proof.
  unfold others. revert j. induction ms as [|m ms IH]; intros j Hk; [done|].
  rewrite imap_cons, filter_cons. simpl. rewrite decide_True by (simpl in *; lia). csimpl. f_equal.
  rewrite <- (IH (S j)) at 2 by (simpl in *; lia). do 2 f_equal. apply imap_ext.
  intros k x _. simpl. f_equal. lia.
Qed.

Lemma others_split pre m post :
  others (length pre) (imap (fun k m => (k, m)) (pre ++ m :: post)) = pre ++ post.
Proof.
  rewrite imap_app, imap_cons. unfold others. rewrite filter_app, fmap_app, filter_cons. simpl.
  rewrite decide_False by (intros Hx; apply Hx; lia). f_equal.
  - apply (others_far (length pre) pre 0). simpl. lia.
  - transitivity (others (length pre) (imap (fun k m => ((S (length pre) + k)%nat, m)) post));
      [|apply others_far; lia].
    unfold others. do 2 f_equal. apply imap_ext. intros k x _. simpl. f_equal. lia.
Qed.

(** ** Planning *)

Definition is_change (e : Error) : bool := match e with Change _ _ _ => true | _ => false end.


(** ** Restores *)

Inductive restored (L : list (list Z)) (bs : list AttachedProg) (g : WrapperGroup)
    : chunk -> Prop :=
  | restored_bare k b :
      bs !! k = Some b -> a_raw b = g_original g ->
      restored L bs g (CBare (a_index <$> g_members g) (a_index b))
  | restored_pair m rest n :
      g_members g = m :: rest -> L !! n = Some (g_original g) ->
      restored L bs g (CPair (a_index m) (a_index <$> rest) n).

Record restore_state (bs : list AttachedProg) (p : PassPlan) (cs : list chunk)
    (gs : list WrapperGroup) : Prop := {
  rs_chunks : plan_chunks p cs;
  rs_restored : Forall2 (restored (loads p) bs) gs cs;
  rs_lineages : plan_lineages p = group_lineage <$> gs;
  rs_loads : forall raw, raw ∈ loads p -> exists g, g ∈ gs /\ raw = g_original g;
}.

Lemma restored_mono L L' bs g c : restored L bs g c -> restored (L ++ L') bs g c.
Proof.
  destruct 1; [by eapply restored_bare|]. eapply restored_pair; [done|]. by apply lookup_app_l_Some.
Qed.

Lemma restore_state_snoc bs p cs gs p' c g extra :
  restore_state bs p cs gs ->
  steps p' = steps p ++ chunk_steps c -> loads p' = loads p ++ extra ->
  chunk_new c = seq (length (loads p)) (length extra) ->
  length (names p') = length (loads p') ->
  plan_lineages p' = plan_lineages p ++ [group_lineage g] ->
  restored (loads p') bs g c -> (forall raw, raw ∈ extra -> raw = g_original g) ->
  restore_state bs p' (cs ++ [c]) (gs ++ [g]).
Proof.
  intros [Hc Hg Hl Hx] Hs Hlo Hn Hna Hli Hgr He. constructor.
  - eapply plan_chunks_snoc; [done|done| | |done]; rewrite Hlo, length_app; [|lia].
    rewrite Hn. f_equal. lia.
  - apply Forall2_app; [|by constructor]. rewrite Hlo.
    eapply Forall2_impl; [exact Hg|]. intros it c' Hit. by apply restored_mono.
  - rewrite Hli, Hl, fmap_app. done.
  - rewrite Hlo. intros raw [Hr|Hr]%elem_of_app.
    + destruct (Hx raw Hr) as (g' & Hg' & ->). exists g'. split; [set_solver|done].
    + exists g. split; [set_solver|by apply He].
Qed.

Lemma restore_group_spec bs p cs gs available g p' available' :
  group_ok g -> restore_state bs p cs gs ->
  restore_group bs p available g = (p', available') ->
  exists c, restore_state bs p' (cs ++ [c]) (gs ++ [g]).
Proof.
  intros [Hne _] Hst Hr. unfold restore_group in Hr.
  destruct (position _ (zip bs available)) as [k|] eqn:Ek.
  - apply position_Some in Ek as ([b free] & Hz & Hp).
    apply andb_true_iff in Hp as [_ Hraw%bool_decide_eq_true].
    apply lookup_zip_Some in Hz as [Hb _]. simplify_eq.
    destruct (detach_all_spec p (g_members g)) as (E1 & E2 & E3 & E4).
    exists (CBare (a_index <$> g_members g) (a_index b)).
    eapply (restore_state_snoc _ _ _ _ _ _ _ []); simpl; [done|..].
    + by rewrite E1.
    + by rewrite E2, app_nil_r.
    + done.
    + rewrite E2, E3. apply Hst.
    + by rewrite E4.
    + by eapply restored_bare.
    + intros raw Hx. by apply not_elem_of_nil in Hx.
  - destruct (g_members g) as [|m rest] eqn:Hms; [done|]. simplify_eq.
    destruct (detach_all_spec (plan_pair p (a_index m) (g_original g) "") rest)
      as (E1 & E2 & E3 & E4).
    exists (CPair (a_index m) (a_index <$> rest) (length (loads p))).
    eapply (restore_state_snoc _ _ _ _ _ _ _ [g_original g]); [done|..]; simpl.
    + rewrite E1. simpl. by rewrite <- app_assoc.
    + by rewrite E2.
    + done.
    + rewrite E2, E3. simpl. rewrite !length_app. simpl. f_equal. apply Hst.
    + by rewrite E4.
    + eapply restored_pair; [done|]. rewrite E2. simpl. by apply list_lookup_middle.
    + intros raw Hx. by apply list_elem_of_singleton in Hx.
Qed.

Lemma restore_groups_spec bs gs p cs done available p' available' :
  Forall group_ok gs -> restore_state bs p cs done ->
  restore_groups bs p available gs = (p', available') ->
  exists cs', restore_state bs p' (cs ++ cs') (done ++ gs).
Proof.
  intros Hgs. revert p cs done available. induction Hgs as [|g gs Hg _ IH];
    intros p cs done available Hst Hr; simpl in Hr.
  - simplify_eq. exists []. by rewrite !app_nil_r.
  - destruct (restore_group bs p available g) as [p1 av1] eqn:E.
    destruct (restore_group_spec _ _ _ _ _ _ _ _ Hg Hst E) as [c Hc].
    destruct (IH _ _ _ _ Hc Hr) as [cs' Hcs]. exists (c :: cs'). by rewrite <- !app_assoc in Hcs.
Qed.

Lemma restore_state_empty bs : restore_state bs empty_plan [] [].
Proof.
  constructor; [done|constructor|done|]. intros raw Hr. by apply not_elem_of_nil in Hr.
Qed.

(** A restore: the groups' chunks, and the lineages of the bares no group took. *)
Lemma plan_restore_spec gs bs :
  Forall group_ok gs ->
  exists cs, plan_chunks (plan_restore gs bs) cs
    /\ Forall2 (restored (loads (plan_restore gs bs)) bs) gs cs
    /\ (forall raw, raw ∈ loads (plan_restore gs bs) -> exists g, g ∈ gs /\ raw = g_original g)
    /\ (forall l, l ∈ plan_lineages (plan_restore gs bs) ->
          (exists g, g ∈ gs /\ l = group_lineage g) \/ exists b, b ∈ bs /\ l = bare_lineage 0 b).
Proof.
  intros Hgs. unfold plan_restore.
  destruct (restore_groups bs empty_plan (replicate (length bs) true) gs) as [p av] eqn:E.
  destruct (restore_groups_spec bs gs empty_plan [] [] (replicate (length bs) true) p av Hgs)
    as [cs [Hc Hr Hl Hlo]]; [by apply restore_state_empty|done|].
  set (f := fun p '(bare, free) =>
    if free : bool then push_lineage p (bare_lineage 0 bare) else p).
  assert (forall l q, (forall b free, (b, free) ∈ l -> b ∈ bs) ->
    steps (foldl f q l) = steps q /\ loads (foldl f q l) = loads q
    /\ names (foldl f q l) = names q
    /\ forall x, x ∈ plan_lineages (foldl f q l) ->
         x ∈ plan_lineages q \/ exists b, b ∈ bs /\ x = bare_lineage 0 b) as Hf.
  { induction l as [|[b free] l IH]; intros q Hin; [naive_solver|]. cbn [foldl].
    destruct (IH (f q (b, free))) as (F1 & F2 & F3 & F4); [set_solver|].
    destruct free; simpl in *; [|done]. split_and!; [done..|]. intros x Hx.
    destruct (F4 x Hx) as [[Hq|Hq]%elem_of_app|Hq]; [by left| |by right].
    apply list_elem_of_singleton in Hq as ->. right. exists b. split; [set_solver|done]. }
  destruct (Hf (zip bs av) p) as (F1 & F2 & F3 & F4).
  { intros b free Hb. apply list_elem_of_lookup in Hb as [i Hi].
    apply lookup_zip_Some in Hi as [Hi _]. by eapply list_elem_of_lookup_2. }
  exists cs. split_and!.
  - destruct Hc as [P1 P2 P3]. constructor; rewrite ?F1, ?F2, ?F3; done.
  - by rewrite F2.
  - by rewrite F2.
  - intros l Hx. destruct (F4 l Hx) as [Hq|Hq]; [left|by right]. rewrite Hl in Hq.
    apply list_elem_of_fmap in Hq as (g & -> & Hg). by exists g.
Qed.


Section Plans.
Context `{HostEndian} (sha256 : list Z -> list Z) {K : Type}.
Context (draws : nat -> result NonceError Z).
Context (draws_u64 : forall n z, draws n = Ok z -> is_u 64 z).

Abbreviation St := (@St K).
Abbreviation emit_owned := (emit_owned sha256).
Abbreviation grant_group := (@grant_group _ sha256 K).
Abbreviation grant_groups := (@grant_groups _ sha256 K).
Abbreviation grant_bare := (@grant_bare _ sha256 K draws).
Abbreviation grant_bares := (@grant_bares _ sha256 K draws).
Abbreviation add_rebuild := (@add_rebuild _ sha256 K draws).
Abbreviation rebuild_lineage := (@rebuild_lineage _ sha256 K draws).

Lemma gate_not_change o m e : gate o m = Err e -> is_change e = false.
Proof.
  unfold gate. intros Hg. destruct (from_canonical o); simpl in Hg; [|by simplify_eq].
  destruct (check_wrappable _ _); simpl in Hg; by simplify_eq.
Qed.

(** Planning changes neither the kernel nor the cache, and its errors are not
    those of an execution. *)
Definition planned {A} (s : St) (Q : A -> Prop) (r : result fault A) (s' : St) : Prop :=
  kernel s' = kernel s /\ cache s' = cache s
  /\ match r with
     | Ok a => Q a
     | Err (Failed e) => is_change e = false
     | Err Panicked => False
     end.

Lemma planned_trans {A} (s1 s2 : St) (Q : A -> Prop) r s3 :
  kernel s2 = kernel s1 -> cache s2 = cache s1 -> planned s2 Q r s3 -> planned s1 Q r s3.
Proof. intros E1 E2 (F1 & F2 & HQ). split_and!; [congruence|congruence|done]. Qed.

Lemma planned_mono {A} (s : St) (Q Q' : A -> Prop) r s' :
  planned s Q r s' -> (forall a, Q a -> Q' a) -> planned s Q' r s'.
Proof. intros (F1 & F2 & HQ) Himp. split_and!; [done|done|]. destruct r as [a|[e|]]; auto. Qed.

(** *** Grants *)

(** What a grant does with one lineage: keep the member that already is the
    desired wrapper, or put it in place of the first. *)
Inductive granted (rules : list DeviceRule) (L : list (list Z)) (ms : list AttachedProg)
    (l : CachedLineage) : chunk -> Prop :=
  | granted_keep pre m post :
      ms = pre ++ m :: post ->
      emit_owned rules (lin_nonce l) (lin_original l) = Ok (a_raw m) ->
      granted rules L ms l (CKeep (a_index <$> pre) (a_index m) (a_index <$> post))
  | granted_pair m rest n raw :
      ms = m :: rest -> emit_owned rules (lin_nonce l) (lin_original l) = Ok raw ->
      L !! n = Some raw ->
      granted rules L ms l (CPair (a_index m) (a_index <$> rest) n).

Lemma granted_mono rules L L' ms l c :
  granted rules L ms l c -> granted rules (L ++ L') ms l c.
Proof.
  destruct 1; [by eapply granted_keep|]. eapply granted_pair; [done|done|].
  by apply lookup_app_l_Some.
Qed.

Abbreviation item := (list AttachedProg * CachedLineage)%type.

Record grant_state (rules : list DeviceRule) (p : PassPlan) (cs : list chunk)
    (items : list item) : Prop := {
  gs_chunks : plan_chunks p cs;
  gs_granted : Forall2 (fun it c => granted rules (loads p) it.1 it.2 c) items cs;
  gs_lineages : plan_lineages p = items.*2;
}.

Lemma grant_state_snoc rules p cs items p' c ms l extra :
  grant_state rules p cs items ->
  steps p' = steps p ++ chunk_steps c -> loads p' = loads p ++ extra ->
  chunk_new c = seq (length (loads p)) (length extra) ->
  length (names p') = length (loads p') -> plan_lineages p' = plan_lineages p ++ [l] ->
  granted rules (loads p') ms l c ->
  grant_state rules p' (cs ++ [c]) (items ++ [(ms, l)]).
Proof.
  intros [Hc Hg Hl] Hs Hlo Hn Hna Hli Hgr. constructor.
  - eapply plan_chunks_snoc; [done|done| | |done]; rewrite Hlo, length_app; [|lia].
    rewrite Hn. f_equal. lia.
  - apply Forall2_app; [|by constructor]. rewrite Hlo.
    eapply Forall2_impl; [exact Hg|]. intros it c' Hit. by apply granted_mono.
  - rewrite Hli, Hl, fmap_app. done.
Qed.

Lemma wp_grant_group I rules p cs items g s :
  group_ok g -> grant_state rules p cs items ->
  wp I (grant_group rules p g)
    (planned s (fun p' => exists c,
       grant_state rules p' (cs ++ [c]) (items ++ [(g_members g, group_lineage g)]))) s.
Proof.
  intros [Hne _] Hst. unfold V2.grant_group. apply wp_bind, wp_lift.
  destruct (emit_owned rules (g_nonce g) (g_original g)) as [desired|e] eqn:Ee; [|done].
  destruct (position _ (g_members g)) as [keep|] eqn:Ek.
  - apply wp_bind, wp_ret, wp_ret. split_and!; [done|done|].
    apply position_Some in Ek as (m & Hm & Hd%bool_decide_eq_true).
    apply lookup_split in Hm as (pre & post & Hms & Hlen).
    rewrite Hms, Hlen. set (p' := foldl _ _ _).
    destruct (detach_others_foldl (length pre)
      (imap (fun k m => (k, m)) (pre ++ m :: post)) p) as (E1 & E2 & E3 & E4).
    fold p' in E1, E2, E3, E4. rewrite others_split in E1.
    exists (CKeep (a_index <$> pre) (a_index m) (a_index <$> post)).
    eapply (grant_state_snoc _ _ _ _ _ _ _ _ []); [done|..]; simpl.
    + rewrite E1. by rewrite fmap_app.
    + by rewrite E2, app_nil_r.
    + done.
    + rewrite E2, E3. apply Hst.
    + by rewrite E4.
    + eapply granted_keep; [done|]. simpl. by rewrite Ee, Hd.
  - destruct (g_members g) as [|m rest] eqn:Hms; [done|].
    apply wp_bind, wp_bind. eapply wp_index; [reflexivity|]. apply wp_ret, wp_ret.
    split_and!; [done|done|]. set (p1 := plan_pair _ _ _ _). set (p' := foldl _ _ _).
    destruct (detach_others_foldl 0 (imap (fun k m => (k, m)) (m :: rest)) p1)
      as (E1 & E2 & E3 & E4). fold p' in E1, E2, E3, E4.
    pose proof (others_split [] m rest) as Eo. cbn [app length] in Eo. rewrite Eo in E1.
    exists (CPair (a_index m) (a_index <$> rest) (length (loads p))).
    eapply (grant_state_snoc _ _ _ _ _ _ _ _ [desired]); [done|..]; simpl.
    + rewrite E1. simpl. by rewrite <- app_assoc.
    + by rewrite E2.
    + done.
    + rewrite E2, E3. simpl. rewrite !length_app. simpl. f_equal. apply Hst.
    + by rewrite E4.
    + eapply granted_pair; [done|exact Ee|]. rewrite E2. simpl.
      by apply list_lookup_middle.
Qed.

Definition group_item (g : WrapperGroup) : item := (g_members g, group_lineage g).
Definition bare_item (b : AttachedProg) (n : Z) : item := ([b], bare_lineage n b).

Lemma wp_grant_groups I rules gs p cs items s :
  Forall group_ok gs -> grant_state rules p cs items ->
  wp I (grant_groups rules p gs)
    (planned s (fun p' => exists cs',
       grant_state rules p' (cs ++ cs') (items ++ (group_item <$> gs)))) s.
Proof.
  intros Hgs. revert p cs items s. induction Hgs as [|g gs Hg _ IH]; intros p cs items s Hst.
  - apply wp_ret. split_and!; [done|done|]. exists []. by rewrite !app_nil_r.
  - cbn [V2.grant_groups]. apply wp_bind.
    eapply wp_mono; [by apply (wp_grant_group I rules p cs items g s)|].
    intros r s1 (E1 & E2 & Hr). destruct r as [p1|[e|]]; [|by split_and!|done].
    destruct Hr as [c Hc]. eapply wp_mono; [by apply IH|].
    intros r s2 Hr. apply (planned_trans s s1 _ _ _ E1 E2). eapply planned_mono; [exact Hr|].
    intros p2 [cs' Hcs]. exists (c :: cs'). csimpl. by rewrite <- !app_assoc in Hcs.
Qed.

Lemma wp_new_nonce I s :
  wp I (new_nonce draws) (planned s (is_u 64)) s.
Proof.
  eapply wp_pure; [reflexivity|done|]. split_and!; [done|done|].
  destruct (draws (drawn s)) as [z|e] eqn:E; simpl; [by eapply draws_u64|done].
Qed.

Definition bare_ok (b : AttachedProg) : Prop := gate (a_raw b) (a_meta b) = Ok tt.

Lemma wp_grant_bare I rules p cs items b s :
  grant_state rules p cs items ->
  wp I (grant_bare rules p b)
    (planned s (fun p' => exists c n, is_u 64 n /\ bare_ok b
       /\ grant_state rules p' (cs ++ [c]) (items ++ [bare_item b n]))) s.
Proof.
  intros Hst. unfold V2.grant_bare. apply wp_bind, wp_lift.
  destruct (gate (a_raw b) (a_meta b)) as [[]|e] eqn:Eg;
    [|split_and!; [done|done|]; by eapply gate_not_change].
  apply wp_bind. eapply wp_mono; [apply wp_new_nonce|].
  intros r s1 (E1 & E2 & Hr). destruct r as [n|[e|]]; [|by split_and!|done].
  apply wp_bind, wp_lift.
  destruct (emit_owned rules n (a_raw b)) as [raw|e] eqn:Ee; [|by split_and!].
  apply wp_ret. split_and!; [done|done|].
  exists (CPair (a_index b) [] (length (loads p))), n. split_and!; [done|done|].
  eapply (grant_state_snoc _ _ _ _ _ _ _ _ [raw]); [done|done|done|done| |done|].
  - simpl. rewrite !length_app. simpl. f_equal. apply Hst.
  - eapply (granted_pair _ _ _ _ b []); [done|exact Ee|]. by apply list_lookup_middle.
Qed.

Lemma wp_grant_bares I rules bs p cs items s :
  grant_state rules p cs items ->
  wp I (grant_bares rules p bs)
    (planned s (fun p' => exists cs' ns,
       Forall (is_u 64) ns /\ length ns = length bs /\ Forall bare_ok bs
       /\ grant_state rules p' (cs ++ cs') (items ++ zip_with bare_item bs ns))) s.
Proof.
  revert p cs items s. induction bs as [|b bs IH]; intros p cs items s Hst.
  - apply wp_ret. split_and!; [done|done|]. exists [], []. by rewrite !app_nil_r.
  - cbn [V2.grant_bares]. apply wp_bind.
    eapply wp_mono; [by apply (wp_grant_bare I rules p cs items b s)|].
    intros r s1 (E1 & E2 & Hr). destruct r as [p1|[e|]]; [|by split_and!|done].
    destruct Hr as (c & n & Hn & Hb & Hc). eapply wp_mono; [by apply IH|].
    intros r s2 Hr. apply (planned_trans s s1 _ _ _ E1 E2). eapply planned_mono; [exact Hr|].
    intros p2 (cs' & ns & Hns & Hlen & Hbs & Hcs). exists (c :: cs'), (n :: ns).
    split_and!; [by constructor|simpl; congruence|by constructor|].
    csimpl. by rewrite <- !app_assoc in Hcs.
Qed.

Lemma grant_state_empty rules : grant_state rules empty_plan [] [].
Proof. by repeat constructor. Qed.

(** The lineages of a grant: one per group, one per bare program. *)
Definition grant_items (gs : list WrapperGroup) (bs : list AttachedProg) (ns : list Z)
    : list item := (group_item <$> gs) ++ zip_with bare_item bs ns.

Lemma wp_plan_grant I rules gs bs s :
  Forall group_ok gs ->
  wp I (plan_grant sha256 draws gs bs rules)
    (planned s (fun p => exists cs ns,
       Forall (is_u 64) ns /\ length ns = length bs /\ Forall bare_ok bs
       /\ grant_state rules p cs (grant_items gs bs ns))) s.
Proof.
  intros Hgs. unfold plan_grant. apply wp_bind.
  eapply wp_mono; [apply (wp_grant_groups I rules gs empty_plan [] [] s Hgs (grant_state_empty _))|].
  intros r s1 (E1 & E2 & Hr). destruct r as [p1|[e|]]; [|by split_and!|done].
  destruct Hr as [cs Hcs]. eapply wp_mono; [by apply (wp_grant_bares I rules bs p1 cs)|].
  intros r s2 Hr. apply (planned_trans s s1 _ _ _ E1 E2). eapply planned_mono; [exact Hr|].
  intros p2 (cs' & ns & Hns & Hlen & Hbs & Hcs'). by exists (cs ++ cs'), ns.
Qed.

(** *** Rebuilds *)

(** A rebuilt lineage: its original is attached on its own, bare or wrapped. *)
Definition rebuilt (rules : list DeviceRule) (l : CachedLineage) (raw : list Z) : Prop :=
  gate (lin_original l) (lin_meta l) = Ok tt
  /\ (if bool_decide (rules = []) then raw = lin_original l
      else emit_owned rules (lin_nonce l) (lin_original l) = Ok raw).

(** The lineage with its nonce drawn. *)
Definition named (l l' : CachedLineage) : Prop :=
  lin_original l' = lin_original l /\ lin_meta l' = lin_meta l
  /\ (lin_nonce l' = lin_nonce l \/ is_u 64 (lin_nonce l')).

Definition extends (p p' : PassPlan) (ns : list nat) (raws : list (list Z))
    (ls : list CachedLineage) : Prop :=
  steps p' = steps p ++ (Attach <$> ns) /\ loads p' = loads p ++ raws
  /\ ns = seq (length (loads p)) (length raws)
  /\ (length (names p) = length (loads p) -> length (names p') = length (loads p'))
  /\ plan_lineages p' = plan_lineages p ++ ls.

Lemma wp_rebuild_lineage I rules p l s :
  wp I (rebuild_lineage rules p l)
    (planned s (fun p' => exists raw l', named l l' /\ rebuilt rules l' raw
       /\ extends p p' [length (loads p)] [raw] [l'])) s.
Proof.
  unfold V2.rebuild_lineage. apply wp_bind, wp_lift.
  destruct (gate (lin_original l) (lin_meta l)) as [[]|e] eqn:Eg;
    [|split_and!; [done|done|]; by eapply gate_not_change].
  destruct (bool_decide (rules = [])) eqn:Er.
  - apply wp_ret. split_and!; [done|done|]. exists (lin_original l), l.
    split_and!; [by split_and!; auto|split; [done|by rewrite Er]|].
    split_and!; simpl; [done..| |done]. intros Hn. rewrite !length_app. simpl. lia.
  - apply wp_bind.
    assert (wp I (if lin_nonce l =? 0 then new_nonce draws else mret (lin_nonce l))
      (planned s (fun n => n = lin_nonce l \/ is_u 64 n)) s) as Hn.
    { destruct (lin_nonce l =? 0); [|by apply wp_ret; split_and!; auto].
      eapply wp_mono; [apply wp_new_nonce|]. intros r s' Hr. eapply planned_mono; [exact Hr|].
      by right. }
    eapply wp_mono; [exact Hn|]. intros r s1 (E1 & E2 & Hr).
    destruct r as [n|[e|]]; [|by split_and!|done]. apply wp_bind, wp_lift. simpl.
    destruct (emit_owned rules n (lin_original l)) as [raw|e] eqn:Ee; [|by split_and!].
    apply wp_ret. split_and!; [done|done|].
    exists raw, {| lin_nonce := n; lin_original := lin_original l; lin_meta := lin_meta l |}.
    split_and!; [by split_and!|split; [done|by rewrite Er]|].
    split_and!; simpl; [done..| |done]. intros Hm. rewrite !length_app. simpl. lia.
Qed.

Lemma wp_add_rebuild I rules cached p s :
  wp I (add_rebuild p cached rules)
    (planned s (fun p' => exists raws ls ns, Forall2 named cached ls
       /\ Forall2 (rebuilt rules) ls raws /\ extends p p' ns raws ls)) s.
Proof.
  revert p s. induction cached as [|l cached IH]; intros p s.
  - apply wp_ret. split_and!; [done|done|]. exists [], [], [].
    split_and!; [constructor|constructor|]. unfold extends. by rewrite !app_nil_r.
  - cbn [V2.add_rebuild]. apply wp_bind. eapply wp_mono; [apply wp_rebuild_lineage|].
    intros r s1 (E1 & E2 & Hr). destruct r as [p1|[e|]]; [|by split_and!|done].
    destruct Hr as (raw & l' & Hn & Hb & X1 & X2 & X3 & X4 & X5).
    eapply wp_mono; [apply IH|].
    intros r s2 Hr. apply (planned_trans s s1 _ _ _ E1 E2). eapply planned_mono; [exact Hr|].
    intros p2 (raws & ls & ns & HN & HB & Y1 & Y2 & Y3 & Y4 & Y5).
    exists (raw :: raws), (l' :: ls), (length (loads p) :: ns).
    split_and!; [by constructor|by constructor|]. split_and!.
    + rewrite Y1, X1, <- app_assoc. done.
    + rewrite Y2, X2, <- app_assoc. done.
    + rewrite Y3, X2, length_app. simpl. do 2 f_equal. lia.
    + auto.
    + rewrite Y5, X5, <- app_assoc. done.
Qed.

End Plans.
