(* ===== verification/V2Safety.v ===== *)
(** * The safety of a cgroup v2 pass

    The labels of the programs a pass loads, the classification of the attached
    ones, and the pass as a whole. *)

From S2P Require Import Prelude.
From S2P Require Import Asm.
From S2P Require Import AsmText.
From S2P Require Import Codec.
From S2P Require Import CodecProofs.
From S2P Require Import Ebpf.
From S2P Require Import Bpf.
From S2P Require Import Owned.
From S2P Require Import Verdict.
From S2P Require Import OwnedProofs.
From S2P Require Import V2Ops.
From S2P Require Import Errors.
From S2P Require Import V2.
From S2P Require Import V2Proofs.
From S2P Require Import V2Plans.

Local Open Scope Z_scope.

(** The rules a grant can express and read back. *)
Definition rules_ok (rules : list DeviceRule) : Prop :=
  forallb numbers_ok rules = true /\ Z.of_nat (length rules) <= 2 ^ 28.

Section Safety.
Context `{HostEndian} (sha256 : list Z -> list Z) (sha256_32 : digest_32 sha256).
Context {K P : Type} `{EqDecision P} `{KernelLaws K P}.
Context (draws : nat -> result NonceError Z).
Context (draws_u64 : forall n z, draws n = Ok z -> is_u 64 z).

Abbreviation M := (@M K).
Abbreviation St := (@St K).
Abbreviation label_of := (label_of sha256).
Abbreviation label := (@label _ sha256 K P _).
Abbreviation innermost := (parse_owned_innermost sha256).

(** ** What the bytes of a load stand for *)

(** The bytes decode, and their instructions encode back to them. *)
Definition loadable (raw : list Z) (insts : list instruction) : Prop :=
  bytes_ok raw /\ decode raw = Ok insts /\ canonical_bytes insts = Ok raw.

Lemma gate_loadable o m :
  bytes_ok o -> gate o m = Ok tt -> exists oi, loadable o oi /\ check_wrappable oi m = Ok tt.
Proof.
  intros Hb Hg. unfold gate, from_canonical in Hg. inv_ok. exists x. split; [|done].
  split_and!; [done|done|]. by apply (wrappable_canonical o x m Hb E Hg).
Qed.

Lemma gate_label o oi :
  loadable o oi -> parse_owned sha256 o = Ok None -> label_of oi = Some o.
Proof.
  intros (Hb & Hd & Hc) Hp. unfold V2Proofs.label_of. rewrite Hc.
  unfold parse_owned_innermost. by rewrite Hp.
Qed.

(** A wrapper around a gated original stands for that original. *)
Lemma emit_loadable rules n o m raw :
  rules_ok rules -> is_u 64 n -> bytes_ok o -> gate o m = Ok tt ->
  emit_owned sha256 rules n o = Ok raw ->
  exists insts, loadable raw insts
    /\ (parse_owned sha256 o = Ok None -> label_of insts = Some o).
Proof.
  intros [Hnum Hlen] Hn Hb Hg He. destruct (gate_loadable o m Hb Hg) as (oi & (_ & Hd & _) & Hw).
  destruct (wrappable_canonical o oi m Hb Hd Hw) as [_ Hp].
  destruct (emit_owned_decode sha256 rules n o raw oi He) as (Hwr & _ & Henc & Hdec);
    [by apply decode_decodes|done|].
  set (code := wrapper_code sha256 rules n o oi) in *.
  destruct (plain_fmap code) as [_ Hr]; [by apply plain_filter_code|].
  assert (canonical_bytes code = Ok raw) as Hc by (by apply canonical_bytes_Ok).
  pose proof (encodes_bytes_ok code raw Hr Henc) as Hbr.
  exists code. split; [split_and!; [done|by apply decode_decodes|done]|]. intros Hno.
  pose proof (parse_emitted sha256 rules n o oi m raw sha256_32 Hn Hlen Hnum Hb Hd Hw He) as Hpe.
  destruct (parse_owned_shorter sha256 raw _ Hbr Hpe) as [Hlt _].
  unfold V2Proofs.label_of. rewrite Hc, (innermost_emitted sha256 _ _ _ _ Hpe Hno); [done|lia].
Qed.

(** ** Classification *)

(** What a successful classification says of an attached program. *)
Record classified (k : K) (p : P) (i : nat) (a : AttachedProg) : Prop := {
  cl_index : a_index a = i;
  cl_raw : canonical_bytes (code k p).1 = Ok (a_raw a);
  cl_bytes : bytes_ok (a_raw a) /\ bytes_ok (a_original a);
  cl_label : label k p = Some (a_original a);
  cl_inner : parse_owned sha256 (a_original a) = Ok None;
  cl_nonce : is_u 64 (a_nonce a);
  cl_owned : if a_owned a then gate (a_original a) (a_meta a) = Ok tt
             else a_original a = a_raw a;
  cl_parsed : exists o, innermost (a_raw a) = Ok o
    /\ match o with
       | Some o => a_owned a = true /\ a_nonce a = nonce o /\ a_original a = original o
       | None => a_owned a = false
       end;
}.

Definition unchanged (k0 k : K) : Prop := frame k0 k /\ att k = att k0.

Lemma unchanged_trans k1 k2 k3 : unchanged k1 k2 -> unchanged k2 k3 -> unchanged k1 k3.
Proof.
  intros [F1 A1] [F2 A2]. split; [by eapply frame_trans|congruence].
Qed.

Lemma unchanged_refl k : wf k -> unchanged k k.
Proof. intros Hw. split; [by apply frame_refl|done]. Qed.

(** Calls that only look: the state is as before, up to new handles. *)
Definition looked {A} (k0 : K) (s : St) (Q : A -> St -> Prop) (r : result fault A) (s' : St)
    : Prop :=
  unchanged k0 (kernel s') /\ cache s' = cache s
  /\ match r with
     | Ok a => Q a s'
     | Err (Failed e) => is_change e = false
     | Err Panicked => False
     end.

Lemma wp_classify k0 i p s :
  unchanged k0 (kernel s) -> wf k0 -> live k0 p ->
  wp (unchanged k0) (classify sha256 i p) (looked k0 s (fun a _ => classified k0 p i a)) s.
Proof.
  intros Hu Hw Hl. unfold classify. apply wp_bind, wp_call. intros r k1 E1.
  destruct (proj2 (proj1 Hu) p Hl) as [Hl1 Hcode].
  destruct (law_instructions _ _ _ _ (proj1 (proj1 Hu)) Hl1 E1) as (F1 & A1 & X1).
  assert (unchanged k0 k1) as Hu1 by (eapply unchanged_trans; [exact Hu|by split]).
  split; [done|]. apply wp_bind, wp_lift. destruct r as [[insts meta]|e]; [|by split_and!].
  specialize (X1 _ eq_refl). rewrite Hcode in X1.
  apply wp_bind, wp_lift. destruct (canonical_bytes insts) as [raw|e] eqn:Ec; [|by split_and!].
  apply wp_bind, wp_lift. destruct (innermost raw) as [o|e] eqn:Eo; [|by split_and!].
  assert (canonical_bytes (code k0 p).1 = Ok raw) as Hraw by (by rewrite <- X1).
  assert (bytes_ok raw) as Hb.
  { apply canonical_bytes_Ok in Hraw. eapply encodes_bytes_ok; [|exact Hraw]. by apply law_range. }
  assert (label k0 p = match o with Some o => Some (original o) | None => Some raw end) as Hlab.
  { unfold V2Proofs.label, V2Proofs.label_of. rewrite Hraw, Eo. by destruct o. }
  destruct o as [o|].
  - apply wp_bind, wp_lift. destruct (gate (original o) meta) as [[]|e] eqn:Eg;
      [|split; [done|]; split; [done|]; by eapply gate_not_change].
    destruct (innermost_Some sha256 raw o Hb Eo) as (Hi & Hbo & Hn).
    apply wp_ret. split; [done|]. split; [done|]. constructor; try done. by exists (Some o).
  - apply wp_ret. split; [done|]. split; [done|]. constructor; try done; [by apply innermost_None|].
    by exists None.
Qed.

Lemma wp_classify_all k0 ps i s :
  unchanged k0 (kernel s) -> wf k0 -> (forall p, p ∈ ps -> live k0 p) ->
  wp (unchanged k0) (classify_all sha256 i ps)
    (looked k0 s (fun l _ => length l = length ps
       /\ forall j p a, ps !! j = Some p -> l !! j = Some a -> classified k0 p (i + j) a)) s.
Proof.
  intros Hu Hw Hl. revert i s Hu. induction ps as [|p ps IH]; intros i s Hu.
  - apply wp_ret. by split_and!.
  - cbn [classify_all]. apply wp_bind.
    eapply wp_mono; [apply (wp_classify k0 i p s Hu Hw); apply Hl; by left|].
    intros r s1 (Hu1 & Ec & Hr). destruct r as [a|[e|]]; [|by split_and!|done].
    apply wp_bind. eapply wp_mono; [apply IH; [|done]; intros q Hq; apply Hl; by right|].
    intros r s2 (Hu2 & Ec2 & Hr2). destruct r as [l|[e|]]; [|split; [done|]; split; [congruence|done]|done].
    destruct Hr2 as [Hlen Hcl]. apply wp_ret. split; [done|]. split; [congruence|].
    split; [simpl; congruence|]. intros [|j] q b Hq Hb; simplify_eq/=.
    + by rewrite Nat.add_0_r.
    + rewrite <- Nat.add_succ_comm. by apply Hcl.
Qed.

(** ** Loading *)

(** The programs of the loads: new, distinct, and of the code loaded. *)
Definition loaded_ok (k0 k : K) (raws : list (list Z)) (ps : list P) : Prop :=
  NoDup ps /\ (forall q, q ∈ ps -> ~ live k0 q /\ live k q)
  /\ Forall2 (fun raw q => exists insts, loadable raw insts /\ (code k q).1 = insts) raws ps.

Lemma wp_load_all k0 l s :
  unchanged k0 (kernel s) -> wf k0 ->
  Forall (fun raw => exists insts, loadable raw insts) (l.*1) ->
  wp (unchanged k0) (load_all l)
    (looked k0 s (fun ps s' =>
       frame (kernel s) (kernel s') /\ loaded_ok (kernel s) (kernel s') (l.*1) ps)) s.
Proof.
  intros Hu Hw Hl. revert s Hu. induction l as [|[raw name] l IH]; intros s Hu; csimpl in *.
  - apply wp_ret. split; [done|]. split; [done|]. split; [apply frame_refl, Hu|].
    split_and!; [constructor| |constructor].
    intros q Hq. by apply not_elem_of_nil in Hq.
  - apply Forall_cons in Hl as [(insts & Hbr & Hdec & Hcan) Hl].
    apply wp_bind. unfold load_canonical, from_canonical. apply wp_bind, wp_lift. rewrite Hdec.
    apply wp_bind, wp_call. intros r k1 E1.
    assert (Forall in_range insts) as Hrange
      by (eapply decodes_in_range; [by apply decode_decodes|done]).
    destruct (law_load _ _ _ _ _ (proj1 (proj1 Hu)) Hrange E1) as (F1 & A1 & X1).
    assert (unchanged k0 k1) as Hu1 by (eapply unchanged_trans; [exact Hu|by split]).
    split; [done|]. apply wp_lift. destruct r as [p|e]; [|by split_and!].
    destruct (X1 p eq_refl) as (Hfresh & Hlive & Hcode). apply wp_bind.
    eapply wp_mono; [by apply IH|]. simpl.
    intros r s2 (Hu2 & Ec2 & Hr2). destruct r as [ps|[e|]]; [|by split_and!|done].
    destruct Hr2 as (F2 & Hnd & Hps & HF). apply wp_ret. split; [done|]. split; [done|].
    split; [by eapply frame_trans|]. destruct (proj2 F2 p Hlive) as [Hlive2 Hcode2].
    assert (p ∉ ps) as Hnp by (intros Hp; by apply (Hps p Hp)).
    split_and!; [by constructor| |].
    + intros q [->|Hq]%elem_of_cons; [by split|]. destruct (Hps q Hq) as [Hnq Hlq].
      split; [|done]. intros Hlq0. apply Hnq. by apply F1.
    + constructor; [|done]. exists insts. split; [done|]. by rewrite Hcode2.
Qed.

(** ** Executing a plan *)

Abbreviation covers := (@covers _ sha256 K P _).

(** The programs of a chunk, by their classification and their bytes. *)
Definition indexed_ok (cls : list AttachedProg) (L : list (list Z)) (c : chunk) : Prop :=
  (forall d, d ∈ chunk_olds c ++ chunk_bare c -> is_Some (cls !! d))
  /\ (forall n, n ∈ chunk_new c -> is_Some (L !! n))
  /\ NoDup (chunk_olds c ++ chunk_bare c)
  /\ match c with
     | CAttach _ => True
     | _ => exists l,
         (forall d a, d ∈ chunk_olds c ++ chunk_bare c -> cls !! d = Some a -> a_original a = l)
         /\ (forall n raw insts, n ∈ chunk_new c -> L !! n = Some raw -> loadable raw insts ->
               label_of insts = Some l)
     end.

(** The classification of everything attached. *)
Definition classes (k0 : K) (cls : list AttachedProg) : Prop :=
  length cls = length (att k0)
  /\ forall j p a, att k0 !! j = Some p -> cls !! j = Some a -> classified k0 p j a.

Lemma classes_lookup k0 cls d :
  classes k0 cls -> is_Some (cls !! d) -> is_Some (att k0 !! d).
Proof. intros [Hl _] Hs%lookup_lt_is_Some. apply lookup_lt_is_Some. lia. Qed.

Lemma indexed_chunk_ok k0 k cls L news c :
  classes k0 cls -> wf k0 -> unchanged k0 k ->
  Forall2 (fun raw q => exists insts, loadable raw insts /\ (code k q).1 = insts) L news ->
  indexed_ok cls L c -> chunk_ok (att k0) news (label k) c.
Proof.
  intros Hcl Hw Hu HF (Ho & Hn & Hnd & Hl).
  assert (forall d x l, (forall a, cls !! d = Some a -> a_original a = l) ->
    att k0 !! d = Some x -> label k x = Some l) as Hlab.
  { intros d x l Ha Hx. destruct (lookup_lt_is_Some_2 cls d) as [a Hd].
    { rewrite (proj1 Hcl). by eapply lookup_lt_Some. }
    rewrite <- (Ha a Hd), <- (cl_label _ _ _ _ (proj2 Hcl _ _ _ Hx Hd)).
    apply label_frame; [apply Hu|]. apply law_live; [done|]. by eapply list_elem_of_lookup_2. }
  split_and!; [intros d Hd; by eapply classes_lookup, Ho| |done|].
  { intros n Hnn. destruct (Hn n Hnn) as [raw Hraw].
    destruct (Forall2_lookup_l _ _ _ _ _ HF Hraw) as (q & Hq & _). by exists q. }
  destruct c; [..|done].
  - destruct Hl as (l & Hlo & _). exists (Some l). intros d x Hd Hx. eapply Hlab; [|exact Hx]. eauto.
  - destruct Hl as (l & Hlo & Hln). exists (Some l). split.
    + intros d x Hd Hx. eapply Hlab; [|exact Hx]. intros a Ha. eapply Hlo; [|exact Ha]. set_solver.
    + intros n x Hnn Hx. destruct (Forall2_lookup_r _ _ _ _ _ HF Hx) as (raw & Hraw & insts & Hld & Hc).
      unfold V2Proofs.label. rewrite Hc. by eapply Hln.
  - destruct Hl as (l & Hlo & _). exists (Some l). intros d x Hd Hx. eapply Hlab; [|exact Hx]. eauto.
Qed.

(** What is attached after a plan: the programs no chunk took away, and the
    loads. *)
Definition leaves (cls : list AttachedProg) (cs : list chunk) (L : list (list Z)) (k : K) : Prop :=
  forall x, x ∈ att k ->
    (exists d a, cls !! d = Some a /\ d ∉ cs ≫= chunk_gone
       /\ canonical_bytes (code k x).1 = Ok (a_raw a))
    \/ exists raw, raw ∈ L /\ canonical_bytes (code k x).1 = Ok raw.

(** And exactly: the bytes of what is attached, each as often. *)
Definition attached_bytes (k : K) : list (result CanonicalError (list Z)) :=
  (fun p => canonical_bytes (code k p).1) <$> att k.

Definition kept_of (cls : list AttachedProg) (cs : list chunk) : list AttachedProg :=
  filter (fun a => a_index a ∉ cs ≫= chunk_gone) cls.

Definition leaves_exactly (cls : list AttachedProg) (cs : list chunk) (L : list (list Z)) (k : K) : Prop :=
  attached_bytes k ≡ₚ Ok <$> ((a_raw <$> kept_of cls cs) ++ L).

Definition executed (k0 : K) (cls : list AttachedProg) (cs : list chunk) (L : list (list Z))
    (s : St) (r : result fault unit) (s' : St) : Prop :=
  cache s' = cache s
  /\ match r with
     | Ok _ => wf (kernel s') /\ covers k0 (kernel s') /\ leaves cls cs L (kernel s')
         /\ (L <> [] -> att (kernel s') <> []) /\ leaves_exactly cls cs L (kernel s')
     | Err (Failed e) => is_change e = true \/ att (kernel s') = att k0
     | Err Panicked => False
     end.

Lemma unchanged_covers k0 k : wf k0 -> unchanged k0 k -> covers k0 k.
Proof.
  intros Hw [HF HA]. eapply (covers_same sha256 k0 k0 k); [by apply covers_refl|done|done|]. by rewrite HA.
Qed.

(** What the steps of the chunks leave attached: old programs no chunk took away,
    and programs that were loaded. *)
Lemma agrees_leaves k0 k2 k3 cls cs raws news present :
  wf k0 -> unchanged k0 k2 -> classes k0 cls ->
  Forall2 (fun raw q => exists insts, loadable raw insts /\ (code k2 q).1 = insts) raws news ->
  chunks_after (att k0) news cs (att k0) present ->
  agrees sha256 (att k0) news (code k2) (label k2) k3 present ->
  leaves cls cs raws k3.
Proof.
  intros Hw Hu Hcl HF Hend Hr x Hx. pose proof Hx as Hin.
  apply (agrees_att _ _ _ _ _ _ _ Hr) in Hin.
  pose proof (agrees_in _ _ _ _ _ _ _ Hr x Hin) as Hinn.
  rewrite (agrees_code _ _ _ _ _ _ _ Hr x Hinn). apply Hend in Hin as [[Hin Hgone]|Hn].
  - left. apply list_elem_of_lookup in Hin as [d Hd].
    destruct (lookup_lt_is_Some_2 cls d) as [a Ha].
    { rewrite (proj1 Hcl). by eapply lookup_lt_Some. }
    exists d, a. split_and!; [done| |].
    + intros Hg. apply Hgone. by exists d.
    + assert (live k0 x) as Hl by (apply law_live; [done|by eapply list_elem_of_lookup_2]).
      rewrite (proj2 (proj2 (proj1 Hu) x Hl)). apply (proj2 Hcl _ _ _ Hd Ha).
  - right. destruct Hn as (n & _ & Hn).
    destruct (Forall2_lookup_r _ _ _ _ _ HF Hn) as (raw & Hraw & insts & (_ & _ & Hc) & ->).
    exists raw. split; [by eapply list_elem_of_lookup_2|done].
Qed.

(** What was loaded is attached. *)
Lemma agrees_attached k0 k2 k3 cs (L : list (list Z)) news present (R : list Z -> P -> Prop) :
  Forall2 R L news -> cs ≫= chunk_new = seq 0 (length L) ->
  chunks_after (att k0) news cs (att k0) present ->
  agrees sha256 (att k0) news (code k2) (label k2) k3 present -> L <> [] -> att k3 <> [].
Proof.
  intros HF Hnew Hend Hr HL Ha. destruct HF as [|raw q L news _ _]; [done|].
  assert (q ∈ att k3) as Hq; [|rewrite Ha in Hq; by apply not_elem_of_nil in Hq].
  apply (agrees_att _ _ _ _ _ _ _ Hr), Hend. right. exists 0%nat. rewrite Hnew. split; [by left|done].
Qed.

(** The elements of [xs] whose partners are selected. *)
Lemma selected {A B} (R : A -> B -> Prop) (Q : B -> Prop) `{forall b, Decision (Q b)} xs ys :
  Forall2 R xs ys -> NoDup xs ->
  exists zs, Forall2 R zs (filter Q ys) /\ NoDup zs
    /\ forall x, x ∈ zs <-> exists j y, xs !! j = Some x /\ ys !! j = Some y /\ Q y.
Proof.
  induction 1 as [|x y xs ys Hxy HF IH]; intros Hnd.
  { exists []. split_and!; [constructor..|]. intros x. split; [by intros ?%not_elem_of_nil|].
    by intros (j & y & Hj & _). }
  apply NoDup_cons in Hnd as [Hx Hnd]. destruct (IH Hnd) as (zs & HZ & Hz & Hin). rewrite filter_cons.
  assert (forall x', (exists j y', xs !! j = Some x' /\ ys !! j = Some y' /\ Q y') <->
    exists j y', (x :: xs) !! S j = Some x' /\ (y :: ys) !! S j = Some y' /\ Q y') as Hshift by done.
  destruct (decide (Q y)) as [HQ|HQ].
  - exists (x :: zs). split_and!; [by constructor| |].
    + apply NoDup_cons. split; [|done]. intros (j & y' & Hj & _)%Hin. apply Hx. by eapply list_elem_of_lookup_2.
    + intros x'. rewrite elem_of_cons, Hin, Hshift. split.
      * intros [->|(j & y' & H1' & H2' & H3')]; [by exists 0%nat, y|by exists (S j), y'].
      * intros ([|j] & y' & H1' & H2' & H3'); simplify_eq/=; [by left|right; by exists j, y'].
  - exists zs. split_and!; [done..|]. intros x'. rewrite Hin, Hshift. split.
    + intros (j & y' & ?). by exists (S j), y'.
    + intros ([|j] & y' & H1' & H2' & H3'); simplify_eq/=; [done|by exists j, y'].
Qed.

Lemma Forall2_bytes (k : K) (xs : list P) (raws : list (list Z)) :
  Forall2 (fun x raw => canonical_bytes (code k x).1 = Ok raw) xs raws ->
  (fun x => canonical_bytes (code k x).1) <$> xs = Ok <$> raws.
Proof. induction 1 as [|x raw xs raws E _ IH]; csimpl; [done|]. by rewrite E, IH. Qed.

Lemma Forall2_kept {A} (R : P -> A -> Prop) (R' : P -> list Z -> Prop) (f : A -> list Z) xs ys :
  Forall2 R xs ys -> (forall x y, x ∈ xs -> R x y -> R' x (f y)) -> Forall2 R' xs (f <$> ys).
Proof.
  induction 1 as [|x y xs ys E _ IH]; intros Himp; csimpl; [constructor|].
  constructor; [apply Himp; [by left|done]|]. apply IH. intros x' y' Hx'. apply Himp. by right.
Qed.

(** What the steps of the chunks leave attached, exactly. *)
Lemma agrees_exactly k0 k2 k3 cls cs raws news present :
  wf k0 -> unchanged k0 k2 -> classes k0 cls ->
  Forall2 (fun raw q => exists insts, loadable raw insts /\ (code k2 q).1 = insts) raws news ->
  NoDup news -> (forall x, x ∈ att k0 -> x ∉ news) -> cs ≫= chunk_new = seq 0 (length raws) ->
  chunks_after (att k0) news cs (att k0) present ->
  agrees sha256 (att k0) news (code k2) (label k2) k3 present -> wf k3 ->
  leaves_exactly cls cs raws k3.
Proof.
  intros Hw Hu Hcl HF Hndn Hdis Hnew Hend Hr Hw3.
  assert (Forall2 (fun p a => canonical_bytes (code k0 p).1 = Ok (a_raw a) /\ att k0 !! a_index a = Some p)
    (att k0) cls) as HC.
  { apply Forall2_same_length_lookup_2; [symmetry; apply Hcl|]. intros j p a Hp Ha.
    pose proof (proj2 Hcl j p a Hp Ha) as Hc. split; [apply Hc|]. by rewrite (cl_index _ _ _ _ Hc). }
  destruct (selected _ (fun a => a_index a ∉ cs ≫= chunk_gone) _ _ HC (law_nodup k0 Hw))
    as (ys & HY & Hndy & Hin).
  assert (forall x, x ∈ ys <-> x ∈ att k0 /\ ~ at_old (att k0) (cs ≫= chunk_gone) x) as Hys.
  { intros x. rewrite Hin. split.
    - intros (j & a & Hj & Ha & Hg). split; [by eapply list_elem_of_lookup_2|].
      intros (d & Hd & Hx). assert (d = j) as -> by (eapply NoDup_lookup; [by apply (law_nodup k0)|done..]).
      rewrite (cl_index _ _ _ _ (proj2 Hcl _ _ _ Hj Ha)) in Hg. done.
    - intros [Hx Hg]. apply list_elem_of_lookup in Hx as [j Hj]. destruct (Forall2_lookup_l _ _ _ _ _ HC Hj) as (a & Ha & _).
      exists j, a. split_and!; [done..|]. rewrite (cl_index _ _ _ _ (proj2 Hcl _ _ _ Hj Ha)).
      intros Hd. apply Hg. by exists j. }
  assert (forall x, x ∈ news <-> at_new news (cs ≫= chunk_new) x) as Hnews.
  { intros x. rewrite Hnew. split.
    - intros (n & Hn)%list_elem_of_lookup. exists n. split; [|done]. apply elem_of_seq.
      apply lookup_lt_Some in Hn. rewrite (Forall2_length _ _ _ HF). lia.
    - intros (n & _ & Hn). by eapply list_elem_of_lookup_2. }
  assert (att k3 ≡ₚ ys ++ news) as HP.
  { apply NoDup_Permutation; [by apply law_nodup| |].
    - apply NoDup_app. split_and!; [done| |done]. intros x [Hx _]%Hys. by apply Hdis.
    - intros x. rewrite elem_of_app, Hys, Hnews. rewrite (agrees_att _ _ _ _ _ _ _ Hr x). apply Hend. }
  assert (forall x, x ∈ ys \/ x ∈ news -> code k3 x = code k2 x) as Hcode.
  { intros x Hx. apply (agrees_code _ _ _ _ _ _ _ Hr), elem_of_app.
    destruct Hx as [[Hx _]%Hys|Hx]; [by left|by right]. }
  unfold leaves_exactly, attached_bytes. rewrite HP. rewrite !fmap_app. apply Permutation_app.
  - erewrite Forall2_bytes; [done|]. apply (Forall2_kept _ _ a_raw _ _ HY).
    intros x a Hx [Hb _]. rewrite Hcode by (by left). apply Hys in Hx as [Hx _].
    rewrite (proj2 (proj2 (proj1 Hu) x (law_live _ _ Hw Hx))). done.
  - erewrite Forall2_bytes; [done|]. rewrite <- (list_fmap_id raws). apply Forall2_flip in HF.
    apply (Forall2_kept _ _ id _ _ HF). intros x raw Hx (insts & (_ & _ & Hc) & E).
    rewrite Hcode by (by right). by rewrite E.
Qed.

Lemma wp_execute k0 cls p cs s :
  wf k0 -> unchanged k0 (kernel s) -> classes k0 cls -> plan_chunks p cs ->
  Forall (fun raw => exists insts, loadable raw insts) (loads p) ->
  Forall (indexed_ok cls (loads p)) cs -> NoDup (cs ≫= chunk_olds) ->
  (forall b, b ∈ cs ≫= chunk_bare -> b ∉ cs ≫= chunk_olds) ->
  wp (covers k0) (execute (att k0) p) (executed k0 cls cs (loads p) s) s.
Proof.
  intros Hw Hu Hcl [Hsteps Hnew Hnames] Hload Hok Hnd Hbare. unfold execute. apply wp_bind.
  assert ((zip (loads p) (names p)).*1 = loads p) as Hz by (apply fst_zip; lia).
  eapply wp_mono.
  { eapply wp_impl; [apply (wp_load_all k0 _ s Hu Hw); by rewrite Hz|].
    intros k Hk. by apply unchanged_covers. }
  intros r s2 (Hu2 & Ec & Hr). destruct r as [news|[e|]];
    [|split; [done|]; right; apply Hu2|done].
  destruct Hr as (F2 & Hndn & Hfresh & HF). rewrite Hz in HF.
  set (T := label k0 <$> att k0). set (k2 := kernel s2) in *.
  assert (Forall (chunk_ok (att k0) news (label k2)) cs) as Hcok.
  { eapply Forall_impl; [exact Hok|]. intros c Hc. by eapply indexed_chunk_ok. }
  assert (forall x, x ∈ att k0 -> live k0 x) as Hlive by (intros; by apply law_live).
  assert (forall x, x ∈ att k0 -> x ∉ news) as Hdis.
  { intros x Hx Hn. apply (Hfresh x Hn). apply Hu. by apply Hlive. }
  assert (agrees sha256 (att k0) news (code k2) (label k2) k2 (att k0)) as Hag.
  { constructor; [apply Hu2|intros q; by rewrite (proj2 Hu2)|set_solver| |done].
    intros q [Hq|Hq]%elem_of_app; (split; [|done]); [by apply Hu2, Hlive|by apply Hfresh]. }
  assert (covered (label k2) T (att k0)) as Hcov.
  { intros l (x & -> & Hx)%list_elem_of_fmap. exists x. split; [done|].
    apply label_frame; [apply Hu2|by apply Hlive]. }
  assert (forall x, at_old (att k0) (cs ≫= chunk_olds) x -> x ∈ att k0) as Hpo
    by (intros x (d & _ & Hx); by eapply list_elem_of_lookup_2).
  assert (chunks_ok (att k0) news (label k2) cs) as Hcso.
  { split_and!; [done|done| |done]. rewrite Hnew. apply NoDup_seq. }
  pose proof (chunks_safe (att k0) news (code k2) (label k2) cs (att k0) (law_nodup k0 Hw) Hndn Hdis Hcso Hpo
    ltac:(intros x (d & _ & Hx); by eapply list_elem_of_lookup_2)
    ltac:(intros x (n & _ & Hx) Hin; apply (Hdis x Hin); by eapply list_elem_of_lookup_2)) as Hsafe.
  apply safe_to_spec in Hsafe as [Hsafe Hend]. rewrite <- Hsteps in Hsafe, Hend.
  eapply wp_mono.
  { eapply wp_impl; [apply (wp_run_steps sha256 (att k0) news (code k2) (label k2) T _ _ _ (att k0) s2 Hag Hcov Hsafe)|].
    intros k Hk x Hx. apply Hk. apply list_elem_of_fmap. by exists x. }
  intros r s3 [(Ec3 & _ & Hr) He]. split; [congruence|]. destruct r as [u|[e|]]; [|left|done].
  - split; [apply Hr|]. split.
    + intros x Hx. eapply (agrees_kept sha256 _ _ _ _ T); [exact Hr| |].
      * by apply (covered_foldl (att k0) news (code k2) (label k2) T).
      * apply list_elem_of_fmap. by exists x.
    + split_and!; [by eapply agrees_leaves|by eapply agrees_attached|].
      eapply (agrees_exactly k0 k2); [done..|exact Hr|apply Hr].
  - destruct He as (a & b & e' & ->). done.
Qed.

(** ** The plans, against the classification *)

(** A lineage that can be wrapped, stripped and cached. *)
Record lineage_ok (l : CachedLineage) : Prop := {
  lok_bytes : bytes_ok (lin_original l);
  lok_nonce : is_u 64 (lin_nonce l);
  lok_inner : parse_owned sha256 (lin_original l) = Ok None;
}.

(** A wrapper of some gated original with exactly these rules. *)
Definition is_wrapper (rules : list DeviceRule) (raw : list Z) : Prop :=
  exists n o m, bytes_ok o /\ gate o m = Ok tt /\ emit_owned sha256 rules n o = Ok raw.

(** What a pass leaves attached. *)
Definition desired (rules : list DeviceRule) (raw : list Z) : Prop :=
  if bool_decide (rules = []) then innermost raw = Ok None else is_wrapper rules raw.

Section Classified.
Context (k0 : K) (k0_wf : wf k0) (cls : list AttachedProg) (cls_ok : classes k0 cls).
Context (gs : list WrapperGroup) (bs : list AttachedProg).
Context (grouping : group_wrappers cls = (gs, bs)).

Lemma classified_at j a :
  cls !! j = Some a -> exists p, att k0 !! j = Some p /\ classified k0 p j a.
Proof.
  intros Ha. destruct (lookup_lt_is_Some_2 (att k0) j) as [p Hp].
  { rewrite <- (proj1 cls_ok). by eapply lookup_lt_Some. }
  exists p. split; [done|]. by apply (proj2 cls_ok).
Qed.

Lemma class_index j a : cls !! j = Some a -> a_index a = j.
Proof. intros Ha. destruct (classified_at j a Ha) as (p & _ & Hc). apply Hc. Qed.

Lemma class_self a : a ∈ cls -> cls !! a_index a = Some a.
Proof.
  intros Ha. apply list_elem_of_lookup in Ha as [j Hj]. by rewrite (class_index j a Hj).
Qed.

Lemma indices_nodup : NoDup (a_index <$> cls).
Proof.
  apply NoDup_alt. intros i j x Hi Hj.
  apply list_lookup_fmap_Some in Hi as (a & -> & Ha), Hj as (b & Hab & Hb).
  rewrite (class_index i a Ha), (class_index j b Hb) in Hab. done.
Qed.

Lemma grouped_in a : a ∈ grouped gs bs <-> a ∈ cls.
Proof. destruct (group_wrappers_spec _ _ _ grouping) as (_ & _ & HP). by rewrite HP. Qed.

Lemma grouped_nodup : NoDup (a_index <$> grouped gs bs).
Proof.
  destruct (group_wrappers_spec _ _ _ grouping) as (_ & _ & HP). rewrite HP. apply indices_nodup.
Qed.

Lemma classified_in a :
  a ∈ cls -> bytes_ok (a_raw a) /\ bytes_ok (a_original a)
    /\ parse_owned sha256 (a_original a) = Ok None /\ is_u 64 (a_nonce a)
    /\ if a_owned a then gate (a_original a) (a_meta a) = Ok tt else a_original a = a_raw a.
Proof.
  intros Ha. destruct (classified_at _ _ (class_self a Ha)) as (p & _ & [_ _ [B1 B2] _ Hi Hn Ho _]).
  by split_and!.
Qed.

(** A group's members are classified programs of its original, and it has one. *)
Lemma group_member g m :
  g ∈ gs -> m ∈ g_members g ->
  cls !! a_index m = Some m /\ a_original m = g_original g
  /\ a_nonce m = g_nonce g /\ a_owned m = true.
Proof.
  intros Hg Hm. destruct (group_wrappers_spec _ _ _ grouping) as (HG & _ & _).
  rewrite Forall_forall in HG. destruct (HG g Hg) as [_ Hmem]. rewrite Forall_forall in Hmem.
  destruct (Hmem m Hm) as (Ho & Hn & Hor). split_and!; [|done..].
  apply class_self, grouped_in. unfold grouped. apply elem_of_app. left.
  apply list_elem_of_bind. by exists g.
Qed.

Lemma group_facts g :
  g ∈ gs -> lineage_ok (group_lineage g) /\ exists m, gate (g_original g) m = Ok tt.
Proof.
  intros Hg. destruct (group_wrappers_spec _ _ _ grouping) as (HG & _ & _).
  rewrite Forall_forall in HG. destruct (HG g Hg) as [Hne _].
  destruct (g_members g) as [|m rest] eqn:Hm; [done|].
  assert (m ∈ g_members g) as Hin by (rewrite Hm; by left).
  destruct (group_member g m Hg Hin) as (Hs & Ho & Hn & Hown).
  destruct (classified_in m) as (_ & Hb & Hi & Hu & Hk); [by eapply list_elem_of_lookup_2|].
  rewrite Hown, Ho in Hk. rewrite Ho in Hb, Hi. rewrite Hn in Hu. split; [by constructor|].
  by exists (a_meta m).
Qed.

Lemma bare_facts b :
  b ∈ bs -> cls !! a_index b = Some b /\ a_owned b = false /\ a_original b = a_raw b
    /\ bytes_ok (a_raw b) /\ parse_owned sha256 (a_raw b) = Ok None.
Proof.
  intros Hb. destruct (group_wrappers_spec _ _ _ grouping) as (_ & HB & _).
  rewrite Forall_forall in HB. pose proof (HB b Hb) as Hown.
  assert (b ∈ cls) as Hin by (apply grouped_in, elem_of_app; by right).
  destruct (classified_in b Hin) as (B1 & _ & Hi & _ & Hk). rewrite Hown in Hk.
  split_and!; [by apply class_self|done|done|done|]. by rewrite <- Hk.
Qed.

(** *** The chunks of a plan are ready to execute *)

Definition ready (L : list (list Z)) (cs : list chunk) : Prop :=
  Forall (fun raw => exists insts, loadable raw insts) L
  /\ Forall (indexed_ok cls L) cs /\ NoDup (cs ≫= chunk_olds)
  /\ forall b, b ∈ cs ≫= chunk_bare -> b ∉ cs ≫= chunk_olds.

(** What executing them leaves is desired. *)
Definition leaves_desired (rules : list DeviceRule) (L : list (list Z)) (cs : list chunk) : Prop :=
  (forall d a, cls !! d = Some a -> d ∉ cs ≫= chunk_gone -> desired rules (a_raw a))
  /\ forall raw, raw ∈ L -> desired rules raw.

Abbreviation granted := (granted sha256).
Abbreviation grant_state := (grant_state sha256).

Definition item_ok (it : list AttachedProg * CachedLineage) : Prop :=
  lineage_ok it.2 /\ (exists m, gate (lin_original it.2) m = Ok tt)
  /\ forall m, m ∈ it.1 -> cls !! a_index m = Some m /\ a_original m = lin_original it.2.

Lemma granted_olds rules L ms l c :
  granted rules L ms l c -> chunk_olds c = a_index <$> ms /\ chunk_bare c = [].
Proof. destruct 1; subst; simpl; rewrite ?fmap_app; done. Qed.

Lemma granted_load rules p cs items n raw :
  grant_state rules p cs items -> loads p !! n = Some raw ->
  exists it, it ∈ items
    /\ emit_owned sha256 rules (lin_nonce it.2) (lin_original it.2) = Ok raw.
Proof.
  intros [[_ Hnew _] HF _] Hn.
  assert (n ∈ cs ≫= chunk_new) as Hin.
  { rewrite Hnew. apply elem_of_seq. apply lookup_lt_Some in Hn. lia. }
  apply list_elem_of_bind in Hin as (c & Hnc & Hc). apply list_elem_of_lookup in Hc as [j Hj].
  destruct (Forall2_lookup_r _ _ _ _ _ HF Hj) as (it & Hit & Hg). exists it.
  split; [by eapply list_elem_of_lookup_2|].
  destruct Hg as [|m rest n' raw' _ He Hr]; simpl in Hnc; [by apply not_elem_of_nil in Hnc|].
  apply list_elem_of_singleton in Hnc as ->. congruence.
Qed.

Lemma granted_indexed rules p cs items it c :
  rules_ok rules -> grant_state rules p cs items -> item_ok it ->
  NoDup (a_index <$> it.1) -> granted rules (loads p) it.1 it.2 c ->
  indexed_ok cls (loads p) c.
Proof.
  intros Hr Hst (Hlo & [m Hgate] & Hms) Hnd Hg.
  destruct (granted_olds _ _ _ _ _ Hg) as [Ho Hb].
  assert (forall d, d ∈ a_index <$> it.1 ->
    exists a, cls !! d = Some a /\ a_original a = lin_original it.2) as Hall.
  { intros d (a & -> & Ha)%list_elem_of_fmap. exists a. by apply Hms. }
  unfold indexed_ok. rewrite Ho, Hb, app_nil_r. split_and!.
  - intros d Hd. destruct (Hall d Hd) as (a & Ha & _). by exists a.
  - intros n Hn. destruct Hg; simpl in Hn; [by apply not_elem_of_nil in Hn|].
    apply list_elem_of_singleton in Hn as ->. by eexists.
  - done.
  - assert (exists l,
      (forall d a, d ∈ a_index <$> it.1 -> cls !! d = Some a -> a_original a = l)
      /\ (forall n raw insts, n ∈ chunk_new c -> loads p !! n = Some raw ->
            loadable raw insts -> label_of insts = Some l)) as HL; [|by destruct c].
    exists (lin_original it.2). split.
    + intros d a Hd Ha. destruct (Hall d Hd) as (a' & Ha' & Ho'). congruence.
    + intros n raw insts Hn Hraw (_ & Hdec & _).
      destruct Hg as [|m' rest n' raw' _ He Hr']; simpl in Hn; [by apply not_elem_of_nil in Hn|].
      apply list_elem_of_singleton in Hn as ->. assert (raw' = raw) as -> by congruence.
      destruct (emit_loadable rules _ _ m raw Hr (lok_nonce _ Hlo) (lok_bytes _ Hlo) Hgate He)
        as (insts' & (_ & Hdec' & _) & Hlab).
      assert (insts' = insts) as -> by congruence. apply Hlab, Hlo.
Qed.

Lemma NoDup_bind_item {A} (items : list (list A * CachedLineage)) (f : A -> nat) it :
  NoDup (f <$> (items ≫= fst)) -> it ∈ items -> NoDup (f <$> it.1).
Proof.
  induction items as [|it' items IH]; intros Hnd Hin; [by apply not_elem_of_nil in Hin|].
  csimpl in Hnd. rewrite fmap_app in Hnd. apply NoDup_app in Hnd as (H1' & _ & H2').
  apply elem_of_cons in Hin as [->|Hin]; [done|by apply IH].
Qed.

Lemma grant_ready rules p cs items :
  rules <> [] -> rules_ok rules -> grant_state rules p cs items -> Forall item_ok items ->
  (items ≫= fst) ≡ₚ cls ->
  ready (loads p) cs /\ leaves_desired rules (loads p) cs.
Proof.
  intros Hne Hr Hst Hit HP. rewrite Forall_forall in Hit.
  assert (NoDup (a_index <$> (items ≫= fst))) as Hnd by (rewrite HP; apply indices_nodup).
  assert (cs ≫= chunk_olds = a_index <$> (items ≫= fst) /\ cs ≫= chunk_bare = []) as [Eo Eb].
  { destruct Hst as [_ HF _]. clear - HF. induction HF as [|it c items cs Hg _ [IH1 IH2]]; [done|].
    destruct (granted_olds _ _ _ _ _ Hg) as [Ho Hb]. csimpl. by rewrite IH1, IH2, Ho, Hb, fmap_app. }
  assert (forall raw, raw ∈ loads p -> is_wrapper rules raw
    /\ exists insts, loadable raw insts) as Hloads.
  { intros raw (n & Hn)%list_elem_of_lookup.
    destruct (granted_load _ _ _ _ _ _ Hst Hn) as (it & Hin & He).
    destruct (Hit it Hin) as (Hlo & [m Hgate] & _).
    destruct (emit_loadable rules _ _ m raw Hr (lok_nonce _ Hlo) (lok_bytes _ Hlo) Hgate He)
      as (insts & Hld & _).
    split; [|by exists insts]. exists (lin_nonce it.2), (lin_original it.2), m.
    split_and!; [apply Hlo|done|done]. }
  assert (forall raw, is_wrapper rules raw -> desired rules raw) as Hdes.
  { intros raw Hw. unfold desired. by rewrite bool_decide_eq_false_2. }
  split.
  - unfold ready. rewrite Eo, Eb. split_and!.
    + apply Forall_forall. intros raw Hraw. by apply Hloads.
    + apply Forall_forall. intros c (j & Hj)%list_elem_of_lookup.
      destruct (Forall2_lookup_r _ _ _ _ _ (gs_granted _ _ _ _ _ Hst) Hj) as (it & Hj' & Hg).
      apply list_elem_of_lookup_2 in Hj'.
      eapply granted_indexed; [done|done|by apply Hit|by eapply NoDup_bind_item|done].
    + done.
    + intros b Hb. by apply not_elem_of_nil in Hb.
  - split; [|intros raw Hraw; by apply Hdes, Hloads].
    intros d a Ha Hgone. apply Hdes.
    assert (a ∈ items ≫= fst) as Hin by (rewrite HP; by eapply list_elem_of_lookup_2).
    apply list_elem_of_bind in Hin as (it & Ham & Hj). apply list_elem_of_lookup in Hj as [j Hj].
    destruct (Forall2_lookup_l _ _ _ _ _ (gs_granted _ _ _ _ _ Hst) Hj) as (c & Hc & Hg).
    pose proof (list_elem_of_lookup_2 _ _ _ Hj) as Hitem.
    assert (a_index a ∉ chunk_gone c) as Hng.
    { rewrite (class_index _ _ Ha). intros Hd. apply Hgone. apply list_elem_of_bind.
      exists c. split; [done|]. by eapply list_elem_of_lookup_2. }
    destruct (Hit it Hitem) as (Hlo & [m Hgate] & _).
    destruct Hg as [pre m' post Hms He|m' rest n raw Hms He _].
    + exists (lin_nonce it.2), (lin_original it.2), m. split_and!; [apply Hlo|done|].
      rewrite He. f_equal. rewrite Hms in Ham. simpl in Hng. rewrite <- fmap_app in Hng.
      assert (a = m') as ->; [|done]. apply elem_of_app in Ham as [Ham|[->|Ham]%elem_of_cons]; [|done|];
        exfalso; apply Hng, list_elem_of_fmap; exists a; split; set_solver.
    + exfalso. apply Hng. simpl. rewrite Hms in Ham. change (a_index m' :: (a_index <$> rest))
        with (a_index <$> (m' :: rest)). apply list_elem_of_fmap. by exists a.
Qed.

Lemma grant_items_members ns :
  length ns = length bs -> grant_items gs bs ns ≫= fst = grouped gs bs.
Proof.
  intros Hl. unfold grant_items, grouped. rewrite bind_app. f_equal.
  - clear. generalize gs. intros l. induction l as [|g l IH]; [done|]. csimpl. by rewrite IH.
  - clear - Hl. revert Hl. generalize bs. intros l. revert ns.
    induction l as [|b l IH]; intros [|n ns] Hl; simplify_eq/=; [done|].
    csimpl. f_equal. by apply IH.
Qed.

Lemma grant_items_ok ns :
  Forall (is_u 64) ns -> length ns = length bs -> Forall bare_ok bs ->
  Forall item_ok (grant_items gs bs ns).
Proof.
  intros Hns Hl Hbs. rewrite Forall_forall in Hns. rewrite Forall_forall in Hbs. unfold grant_items.
  apply Forall_app_2; apply Forall_forall.
  - intros it (g & -> & Hg)%list_elem_of_fmap. destruct (group_facts g Hg) as [Hlo Hgate].
    split_and!; [done|done|]. intros m Hm. by destruct (group_member g m Hg Hm) as (? & ? & _).
  - intros it Hin. apply list_elem_of_lookup in Hin as [j Hj].
    apply lookup_zip_with_Some in Hj as (b & n & -> & Hb & Hn).
    apply list_elem_of_lookup_2 in Hb, Hn.
    destruct (bare_facts b Hb) as (Hs & _ & Ho & Hby & Hi). split_and!.
    + constructor; [done|by apply Hns|done].
    + exists (a_meta b). by apply Hbs.
    + intros m ->%list_elem_of_singleton. by split.
Qed.

(** *** Restores *)

Lemma restored_indexed p cs g c :
  plan_chunks p cs -> g ∈ gs -> restored (loads p) bs g c ->
  NoDup (a_index <$> g_members g) ->
  (forall b, b ∈ bs -> a_index b ∉ a_index <$> g_members g) ->
  indexed_ok cls (loads p) c
  /\ chunk_olds c = a_index <$> g_members g /\ chunk_gone c = a_index <$> g_members g
  /\ forall b, b ∈ chunk_bare c -> exists x, x ∈ bs /\ b = a_index x.
Proof.
  intros Hp Hg Hr Hnd Hdis. destruct (group_facts g Hg) as [Hlo [m Hgate]].
  assert (forall d, d ∈ a_index <$> g_members g ->
    exists a, cls !! d = Some a /\ a_original a = g_original g) as Hall.
  { intros d (a & -> & Ha)%list_elem_of_fmap. exists a. by destruct (group_member g a Hg Ha) as (? & ? & _). }
  destruct Hr as [k b Hb Hraw|m' rest n Hms Hn].
  - apply list_elem_of_lookup_2 in Hb as Hbin. destruct (bare_facts b Hbin) as (Hs & _ & Ho & _ & _).
    split_and!; [|done|done|intros x ->%list_elem_of_singleton; by exists b].
    unfold indexed_ok. simpl. split_and!.
    + intros d [Hd| ->%list_elem_of_singleton]%elem_of_app; [|by exists b].
      destruct (Hall d Hd) as (a & Ha & _). by exists a.
    + intros n Hn. by apply not_elem_of_nil in Hn.
    + apply NoDup_app. split_and!; [done| |apply NoDup_singleton].
      intros d Hd ->%list_elem_of_singleton. by apply (Hdis b Hbin).
    + exists (g_original g). split.
      * intros d a [Hd| ->%list_elem_of_singleton]%elem_of_app Ha; [|congruence].
        destruct (Hall d Hd) as (a' & Ha' & Ho'). congruence.
      * intros n raw insts Hn. by apply not_elem_of_nil in Hn.
  - rewrite Hms in *. split_and!; [|done|done|intros x Hx; by apply not_elem_of_nil in Hx].
    unfold indexed_ok. cbn [chunk_olds chunk_bare chunk_new]. rewrite app_nil_r.
    change (a_index m' :: (a_index <$> rest)) with (a_index <$> (m' :: rest)). split_and!.
    + intros d Hd. destruct (Hall d Hd) as (a & Ha & _). by exists a.
    + intros x ->%list_elem_of_singleton. by eexists.
    + done.
    + exists (g_original g). split.
      * intros d a Hd Ha. destruct (Hall d Hd) as (a' & Ha' & Ho'). congruence.
      * intros x raw insts ->%list_elem_of_singleton Hx Hld.
        assert (raw = g_original g) as -> by congruence.
        apply gate_label; [done|apply Hlo].
Qed.

Lemma desired_bare raw : parse_owned sha256 raw = Ok None -> desired [] raw.
Proof. intros Hp. unfold desired, parse_owned_innermost. simpl. by rewrite Hp. Qed.

Lemma NoDup_bind_group g :
  g ∈ gs -> NoDup (a_index <$> g_members g)
    /\ forall b, b ∈ bs -> a_index b ∉ a_index <$> g_members g.
Proof.
  intros Hg. pose proof grouped_nodup as Hnd. unfold grouped in Hnd. rewrite fmap_app in Hnd.
  apply NoDup_app in Hnd as (Hm & Hdis & _).
  assert (forall x, x ∈ a_index <$> g_members g -> x ∈ a_index <$> (gs ≫= g_members)) as Hsub.
  { intros x (m & -> & Hx)%list_elem_of_fmap. apply list_elem_of_fmap. exists m. split; [done|].
    apply list_elem_of_bind. by exists g. }
  split.
  - clear - Hm Hg. revert Hm Hg. generalize gs. intros l Hm Hg.
    induction l as [|g' l IH]; [by apply not_elem_of_nil in Hg|].
    csimpl in Hm. rewrite fmap_app in Hm. apply NoDup_app in Hm as (Hm1 & _ & Hm2).
    apply elem_of_cons in Hg as [->|Hg]; [done|by apply IH].
  - intros b Hb Hx. apply (Hdis (a_index b) (Hsub _ Hx)). apply list_elem_of_fmap. by exists b.
Qed.

Lemma restore_ready :
  exists cs, plan_chunks (plan_restore gs bs) cs
    /\ Forall2 (restored (loads (plan_restore gs bs)) bs) gs cs
    /\ ready (loads (plan_restore gs bs)) cs
    /\ leaves_desired [] (loads (plan_restore gs bs)) cs
    /\ Forall lineage_ok (plan_lineages (plan_restore gs bs)).
Proof.
  destruct (group_wrappers_spec _ _ _ grouping) as (HG & _ & HP).
  destruct (plan_restore_spec gs bs HG) as (cs & Hc & HF & Hlo & Hli).
  set (p := plan_restore gs bs) in *. exists cs. split; [done|]. split; [done|].
  assert (forall g c, g ∈ gs -> restored (loads p) bs g c ->
    indexed_ok cls (loads p) c /\ chunk_olds c = a_index <$> g_members g
    /\ chunk_gone c = a_index <$> g_members g
    /\ forall b, b ∈ chunk_bare c -> exists x, x ∈ bs /\ b = a_index x) as Hone.
  { intros g c Hg Hr. destruct (NoDup_bind_group g Hg) as [Hnd Hdis].
    by eapply restored_indexed. }
  assert (cs ≫= chunk_olds = a_index <$> (gs ≫= g_members)
    /\ cs ≫= chunk_gone = a_index <$> (gs ≫= g_members)
    /\ (forall b, b ∈ cs ≫= chunk_bare -> exists x, x ∈ bs /\ b = a_index x)
    /\ Forall (indexed_ok cls (loads p)) cs) as (Eo & Eg & Eb & Hidx).
  { clear - HF Hone. revert HF Hone. generalize gs. intros l HF Hone.
    induction HF as [|g c l cs Hr HF IH];
      [split_and!; try done; intros b Hb; by apply not_elem_of_nil in Hb|].
    destruct (Hone g c) as (I1 & I2 & I3 & I4); [by left|done|].
    destruct IH as (J1 & J2 & J3 & J4); [intros g' c' Hg'; apply Hone; by right|].
    csimpl. rewrite I2, I3, J1, J2, fmap_app. split_and!; [done|done| |by constructor].
    intros b [Hb|Hb]%elem_of_app; [by apply I4|by apply J3]. }
  pose proof grouped_nodup as Hnd. unfold grouped in Hnd. rewrite fmap_app in Hnd.
  apply NoDup_app in Hnd as (Hm & Hdis & _). split; [|split; [split|]].
  - split_and!; [|done|by rewrite Eo|].
    + apply Forall_forall. intros raw (g & Hg & ->)%Hlo.
      destruct (group_facts g Hg) as [Hl [m Hgate]].
      destruct (gate_loadable _ m (lok_bytes _ Hl) Hgate) as (oi & Hld & _). by exists oi.
    + intros b Hb. rewrite Eo. intros Hx. destruct (Eb b Hb) as (x & Hxb & ->).
      apply (Hdis _ Hx). apply list_elem_of_fmap. by exists x.
  - intros d a Ha Hgone. rewrite Eg in Hgone.
    assert (a ∈ grouped gs bs) as Hin by (apply grouped_in; by eapply list_elem_of_lookup_2).
    unfold grouped in Hin. apply elem_of_app in Hin as [Hin|Hin].
    + exfalso. apply Hgone. apply list_elem_of_fmap. exists a. split; [|done].
      by rewrite (class_index _ _ Ha).
    + apply desired_bare. by destruct (bare_facts a Hin) as (_ & _ & _ & _ & ?).
  - intros raw (g & Hg & ->)%Hlo. apply desired_bare. by destruct (group_facts g Hg) as [[_ _ ?] _].
  - apply Forall_forall. intros l [(g & Hg & ->)|(b & Hb & ->)]%Hli.
    + by apply group_facts.
    + destruct (bare_facts b Hb) as (_ & _ & _ & Hby & Hi). by constructor.
Qed.
End Classified.

(** ** Rebuilt lineages *)

Lemma attach_chunks ns :
  (CAttach <$> ns) ≫= chunk_steps = Attach <$> ns /\ (CAttach <$> ns) ≫= chunk_new = ns
  /\ (CAttach <$> ns) ≫= chunk_olds = [] /\ (CAttach <$> ns) ≫= chunk_gone = []
  /\ (CAttach <$> ns) ≫= chunk_bare = [].
Proof.
  induction ns as [|n ns (I1 & I2 & I3 & I4 & I5)]; [done|]. csimpl. by rewrite I1, I2, I3, I4, I5.
Qed.

Lemma indexed_ok_app cls L L' c : indexed_ok cls L c -> indexed_ok cls (L ++ L') c.
Proof.
  intros (Ho & Hn & Hnd & Hl).
  assert (forall n, n ∈ chunk_new c -> (L ++ L') !! n = L !! n) as Hsame.
  { intros n Hin. destruct (Hn n Hin) as [raw Hraw]. rewrite Hraw. by apply lookup_app_l_Some. }
  split_and!; [done| |done|].
  - intros n Hin. rewrite Hsame by done. by apply Hn.
  - destruct c; try done; destruct Hl as (l & H1' & H2'); exists l; (split; [done|]);
      intros n raw insts Hin; rewrite Hsame by done; by apply H2'.
Qed.

Lemma ready_extends cls p cs p' ns raws ls :
  plan_chunks p cs -> ready cls (loads p) cs -> extends p p' ns raws ls ->
  Forall (fun raw => exists insts, loadable raw insts) raws ->
  plan_chunks p' (cs ++ (CAttach <$> ns)) /\ ready cls (loads p') (cs ++ (CAttach <$> ns)).
Proof.
  intros [P1 P2 P3] (R1 & R2 & R3 & R4) (X1 & X2 & X3 & X4 & X5) Hraws.
  destruct (attach_chunks ns) as (A1 & A2 & A3 & A4 & A5).
  split.
  - constructor; [by rewrite bind_app, X1, P1, A1| |by apply X4].
    rewrite bind_app, A2, P2, X3, X2, length_app, seq_app. done.
  - unfold ready. rewrite !bind_app, A3, A5, !app_nil_r, X2. split_and!; [by apply Forall_app_2| |done|done].
    apply Forall_app_2; [eapply Forall_impl; [exact R2|]; intros; by apply indexed_ok_app|].
    apply Forall_forall. intros c (n & -> & Hn)%list_elem_of_fmap.
    split_and!; simpl; [| |constructor|done].
    + intros d Hd. by apply not_elem_of_nil in Hd.
    + intros x ->%list_elem_of_singleton. subst ns. apply elem_of_seq in Hn.
      apply lookup_lt_is_Some. rewrite length_app. lia.
Qed.

Lemma leaves_extends cls rules p cs p' ns raws ls :
  leaves_desired cls rules (loads p) cs -> extends p p' ns raws ls ->
  Forall (desired rules) raws ->
  leaves_desired cls rules (loads p') (cs ++ (CAttach <$> ns)).
Proof.
  intros [L1 L2] (X1 & X2 & X3 & X4 & X5) Hraws. rewrite Forall_forall in Hraws.
  destruct (attach_chunks ns) as (_ & _ & _ & A4 & _).
  split.
  - rewrite bind_app, A4, app_nil_r. done.
  - rewrite X2. intros raw [Hr|Hr]%elem_of_app; auto.
Qed.

Lemma rebuilt_ok rules cached ls raws :
  rules_ok rules -> Forall lineage_ok cached -> Forall2 named cached ls ->
  Forall2 (rebuilt sha256 rules) ls raws ->
  Forall lineage_ok ls /\ Forall (fun raw => exists insts, loadable raw insts) raws
  /\ Forall (desired rules) raws.
Proof.
  intros Hr Hc HN. revert raws Hc. induction HN as [|l l' cached ls Hn _ IH]; intros raws Hc HB;
    inversion HB as [|? raw ? raws' Hb HB']; subst; [done|].
  apply Forall_cons in Hc as [Hl Hc]. destruct (IH raws' Hc HB') as (I1 & I2 & I3).
  destruct Hn as (No & Nm & Nn). destruct Hl as [Hby Hnn Hin].
  assert (lineage_ok l') as Hl'.
  { constructor; [by rewrite No| |by rewrite No]. destruct Nn as [->|]; done. }
  destruct Hb as [Hgate Hraw]. unfold desired in *.
  destruct (bool_decide (rules = [])) eqn:Er.
  - subst raw. destruct (gate_loadable _ _ (lok_bytes _ Hl') Hgate) as (oi & Hld & _).
    split_and!; constructor; try done; [by exists oi|].
    unfold parse_owned_innermost. by rewrite (lok_inner _ Hl').
  - destruct (emit_loadable rules _ _ _ raw Hr (lok_nonce _ Hl') (lok_bytes _ Hl') Hgate Hraw)
      as (insts & Hld & _).
    split_and!; constructor; try done; [by exists insts|].
    exists (lin_nonce l'), (lin_original l'), (lin_meta l'). split_and!; [apply Hl'|done|done].
Qed.

(** ** The whole pass *)

Definition cache_ok (c : FilterCache) : Prop :=
  forall id e, c !! id = Some e -> Forall lineage_ok (lineages e).

Lemma cache_ok_get c id : cache_ok c -> Forall lineage_ok (lineages (cache_get c id)).
Proof.
  intros Hc. unfold cache_get. destruct (c !! id) as [e|] eqn:E; simpl; [by eapply Hc|done].
Qed.

Lemma cache_ok_set c id e : cache_ok c -> Forall lineage_ok (lineages e) -> cache_ok (cache_set c id e).
Proof.
  intros Hc He id' e' Hl. unfold cache_set in Hl. apply lookup_insert_Some in Hl as [[_ <-]|[_ Hl]];
    [done|by eapply Hc].
Qed.

Lemma missing_ok cached gs bs :
  Forall lineage_ok cached -> Forall lineage_ok (missing_lineages cached gs bs).
Proof.
  unfold missing_lineages. generalize (replicate (length gs) false), (replicate (length bs) false).
  intros gu bu Hc. revert gu bu. induction Hc as [|l cached Hl _ IH]; intros gu bu; simpl; [done|].
  repeat case_match; auto.
Qed.

(** What a pass for [rules] that started from [k0] ends in. *)
Definition passed (k0 : K) (rules : list DeviceRule) (r : result fault unit) (s' : St) : Prop :=
  cache_ok (cache s')
  /\ match r with
     | Ok _ => wf (kernel s') /\ covers k0 (kernel s') /\ att (kernel s') <> []
         /\ forall x, x ∈ att (kernel s') ->
              exists raw, canonical_bytes (code (kernel s') x).1 = Ok raw /\ desired rules raw
     | Err (Failed e) => is_change e = true \/ att (kernel s') = att k0
     | Err Panicked => False
     end.

Lemma wp_commit k0 cls rules id p cs reb s :
  wf k0 -> unchanged k0 (kernel s) -> classes k0 cls -> cache_ok (cache s) ->
  plan_chunks p cs -> ready cls (loads p) cs -> leaves_desired cls rules (loads p) cs ->
  Forall lineage_ok (plan_lineages p) -> (att k0 = [] -> loads p <> []) ->
  wp (covers k0) (commit id (att k0) p reb) (passed k0 rules) s.
Proof.
  intros Hw Hu Hcl Hca Hpc (R1 & R2 & R3 & R4) [L1 L2] Hli Hany. unfold commit.
  apply wp_bind. eapply wp_pure; [reflexivity|done|]. cbn beta iota.
  set (s1 := {| kernel := kernel s |}).
  assert (cache_ok (cache s1)) as Hca1 by (by apply cache_ok_set).
  apply wp_bind. eapply wp_mono; [by apply (wp_execute k0 cls p cs s1)|].
  intros r s2 [Ec Hr]. assert (cache_ok (cache s2)) as Hca2 by (by rewrite Ec).
  destruct r as [u|[e|]]; [|by split|done].
  destruct Hr as (Hw2 & Hcov & Hleft & Hnew & _).
  assert (att (kernel s2) <> []) as Hsome.
  { destruct (decide (att k0 = [])) as [E|E]; [by apply Hnew, Hany|].
    destruct (att k0) as [|x l] eqn:El; [done|]. destruct (Hcov x) as (q & Hq & _); [rewrite El; by left|].
    intros En. rewrite En in Hq. by apply not_elem_of_nil in Hq. }
  assert (forall x, x ∈ att (kernel s2) ->
    exists raw, canonical_bytes (code (kernel s2) x).1 = Ok raw /\ desired rules raw) as Hdes.
  { intros x Hx. destruct (Hleft x Hx) as [(d & a & Hd & Hg & Hc)|(raw & Hraw & Hc)].
    - exists (a_raw a). split; [done|]. by eapply L1.
    - exists raw. split; [done|]. by apply L2. }
  destruct reb; [|by apply wp_ret].
  eapply wp_pure; [reflexivity|done|]. split; [by apply cache_ok_set|done].
Qed.

Lemma wp_rebuild k0 id rules s :
  wf k0 -> unchanged k0 (kernel s) -> att k0 = [] -> cache_ok (cache s) -> rules_ok rules ->
  wp (covers k0) (rebuild sha256 draws id rules) (passed k0 rules) s.
Proof.
  intros Hw Hu Ha Hca Hr. unfold rebuild. apply wp_bind.
  eapply wp_pure; [reflexivity|done|]. cbn beta iota.
  case_bool_decide as Hsome; [apply wp_fail; split; [done|]; right; apply Hu|].
  apply wp_bind. eapply wp_mono; [apply (wp_add_rebuild sha256 draws draws_u64)|].
  intros r s1 (E1 & E2 & Hp). assert (unchanged k0 (kernel s1)) as Hu1 by (by rewrite E1).
  assert (cache_ok (cache s1)) as Hca1 by (by rewrite E2).
  destruct r as [p|[e|]]; [|split; [done|]; right; apply Hu1|done].
  destruct Hp as (raws & ls & ns & HN & HB & HX).
  destruct (rebuilt_ok rules _ ls raws Hr (cache_ok_get _ id Hca) HN HB) as (B1 & B2 & B3).
  assert (classes k0 []) as Hcl by (split; [by rewrite Ha|done]).
  assert (plan_chunks empty_plan []) as Hpc by done.
  assert (ready [] (loads empty_plan) []) as Hrd.
  { split_and!; [constructor|constructor|constructor|]. intros b Hb. by apply not_elem_of_nil in Hb. }
  destruct (ready_extends [] _ _ _ _ _ _ Hpc Hrd HX B2) as [C1 C2].
  rewrite <- Ha. eapply (wp_commit k0 [] rules id p _ true s1); try done.
  - eapply leaves_extends; [|exact HX|done]. split; [done|]. intros raw Hx. by apply not_elem_of_nil in Hx.
  - destruct HX as (_ & _ & _ & _ & ->). done.
  - intros _. destruct HX as (_ & -> & _). destruct HN as [|? ? ? ? _ _]; [done|]. by inversion HB.
Qed.

(** The plan of a pass is ready to be executed, and leaves what the rules ask for. *)
Lemma wp_plan k0 cls gs bs rules s :
  wf k0 -> classes k0 cls -> group_wrappers cls = (gs, bs) -> rules_ok rules ->
  wp (covers k0) (if bool_decide (rules = []) then mret (plan_restore gs bs)
      else plan_grant sha256 draws gs bs rules)
    (planned s (fun p => exists cs, plan_chunks p cs /\ ready cls (loads p) cs
       /\ leaves_desired cls rules (loads p) cs /\ Forall lineage_ok (plan_lineages p))) s.
Proof.
  intros Hw Hcl Eg Hr. destruct (group_wrappers_spec _ _ _ Eg) as (HG & _ & HP).
  case_bool_decide as Hrules.
  - apply wp_ret. split; [done|]. split; [done|]. subst rules.
    destruct (restore_ready k0 cls Hcl gs bs Eg) as (cs & C1 & _ & C2 & C3 & C4). by exists cs.
  - eapply wp_mono; [by apply (wp_plan_grant sha256 draws draws_u64)|].
    intros r s3 Hp. eapply planned_mono; [exact Hp|]. intros p (cs & ns & N1 & N2 & N3 & Hst).
    pose proof (grant_items_ok k0 cls Hcl gs bs Eg ns N1 N2 N3) as Hit.
    destruct (grant_ready k0 Hw cls Hcl gs bs Eg rules p cs _ Hrules Hr Hst Hit) as [G1 G2].
    { rewrite (grant_items_members _ _ _ N2). done. }
    exists cs. split_and!; [apply Hst|done|done|]. rewrite (gs_lineages _ _ _ _ _ Hst).
    apply Forall_fmap. eapply Forall_impl; [exact Hit|]. by intros it [? _].
Qed.

Lemma wp_set_rules id rules s :
  wf (kernel s) -> cache_ok (cache s) -> rules_ok rules ->
  wp (covers (kernel s)) (set_rules sha256 draws id rules) (passed (kernel s) rules) s.
Proof.
  intros Hw Hca Hr. set (k0 := kernel s) in *. unfold set_rules.
  apply wp_bind, wp_call. intros r k1 E1.
  destruct (law_query _ _ _ Hw E1) as (F1 & A1 & X1).
  assert (unchanged k0 k1) as Hu1 by (by split).
  split; [by apply unchanged_covers|]. apply wp_bind, wp_lift.
  destruct r as [a|e]; [|split; [done|]; by right].
  destruct (Nat.ltb_spec 0 (inaccessible a)) as [|Hin];
    [apply wp_fail; split; [done|]; by right|].
  destruct (X1 a eq_refl) as [Hprogs Htot]; [lia|].
  destruct (Nat.eqb_spec (total a) 0) as [Hz|Hnz].
  { apply wp_rebuild; try done. apply nil_length_inv. congruence. }
  assert (att k0 <> []) as Hsome by (intros E; rewrite Htot, E in Hnz; done).
  destruct ((attach_flags a .& F_ALLOW_MULTI) =? 0); [apply wp_fail; split; [done|]; by right|].
  apply wp_bind. rewrite Hprogs.
  eapply wp_mono.
  { eapply wp_impl; [apply (wp_classify_all k0 (att k0) 0); [exact Hu1|exact Hw|];
      intros p Hp; by apply law_live|].
    intros k Hk. by apply unchanged_covers. }
  simpl. intros r s2 (Hu2 & Ec2 & Hcls). assert (cache_ok (cache s2)) as Hca2 by (by rewrite Ec2).
  destruct r as [cls|[e|]]; [|split; [done|]; right; apply Hu2|done].
  assert (classes k0 cls) as Hcl by done.
  destruct (group_wrappers cls) as [gs bs] eqn:Eg.
  destruct (group_wrappers_spec _ _ _ Eg) as (HG & _ & HP).
  apply wp_bind.
  eapply wp_mono; [by apply (wp_plan k0 cls gs bs rules)|]. intros r s3 (E3 & Ec3 & Hp).
  assert (unchanged k0 (kernel s3)) as Hu3 by (by rewrite E3).
  assert (cache_ok (cache s3)) as Hca3 by (by rewrite Ec3).
  destruct r as [p|[e|]]; [|split; [done|]; right; apply Hu3|done].
  destruct Hp as (cs & C1 & C2 & C3 & C4).
  apply wp_bind. eapply wp_pure; [reflexivity|done|]. cbn beta iota. apply wp_bind.
  destruct (rebuilding (cache_get (cache s3) id)) eqn:Ereb.
  - eapply wp_mono; [apply (wp_add_rebuild sha256 draws draws_u64)|].
    intros r s4 (E4 & Ec4 & Hp). assert (unchanged k0 (kernel s4)) as Hu4 by (by rewrite E4).
    assert (cache_ok (cache s4)) as Hca4 by (by rewrite Ec4).
    destruct r as [p4|[e|]]; [|split; [done|]; right; apply Hu4|done].
    destruct Hp as (raws & ls & ns & HN & HB & HX).
    assert (Forall lineage_ok (missing_lineages (lineages (cache_get (cache s3) id)) gs bs)) as Hmis.
    { apply missing_ok. by apply cache_ok_get. }
    destruct (rebuilt_ok rules _ ls raws Hr Hmis HN HB) as (B1 & B2 & B3).
    destruct (ready_extends cls _ _ _ _ _ _ C1 C2 HX B2) as [D1 D2].
    eapply (wp_commit k0 cls rules id p4 _ true s4); try done.
    + eapply leaves_extends; [exact C3|exact HX|done].
    + destruct HX as (_ & _ & _ & _ & ->). by apply Forall_app_2.
  - apply wp_ret. by eapply (wp_commit k0 cls rules id p cs false s3).
Qed.

End Safety.
