(* ===== verification/V2Fake.v ===== *)
(** * The recording kernel of the repository's own tests (src/cgroup/v2fake.rs)

    One cgroup's attachment list behind the [V2Ops] interface, with injected
    failures: an implementation of the interface that satisfies its laws, so the
    theorems about the controller hold of it. Handles are the programs' names;
    their closing is not modelled, nor is the assertion on the attach flags,
    which the controller always passes as [F_ALLOW_MULTI]. *)

From S2P Require Import Prelude.
From S2P Require Import Asm.
From S2P Require Import AsmText.
From S2P Require Import Codec.
From S2P Require Import CodecProofs.
From S2P Require Import Ebpf.
From S2P Require Import Owned.
From S2P Require Import V2Ops.
From S2P Require Import V2.
From S2P Require Import V2Proofs.

Local Open Scope Z_scope.

Definition ENOENT : Z := 2.

(** [runtime_original] of src/cgroup/testing.rs. *)
Definition runtime_original : list instruction := [alu32_imm MOV R0 0; exit].

Record FakeState := {
  f_attached : list string;
  f_flags : Z;
  f_inaccessible : nat;
  f_errs : gmap string Z;
  f_calls : list string;
  f_loads : nat;
  f_insts : gmap string (list instruction);
  f_names : gmap string string;
  f_meta : ProgMeta;
}.

(** [FakeOps::new]. *)
Definition new_fake (attached : list string) : FakeState := {|
  f_attached := attached;
  f_flags := F_ALLOW_MULTI;
  f_inaccessible := 0;
  f_errs := ∅;
  f_calls := [];
  f_loads := 0;
  f_insts := ∅;
  f_names := ∅;
  f_meta := {| map_ids_known := true; map_count := 0 |};
|}.

(** [FakeOps::fail]: the call fails with the errno. *)
Definition inject (call : string) (errno : Z) (k : FakeState) : FakeState := {|
  f_attached := f_attached k; f_flags := f_flags k; f_inaccessible := f_inaccessible k;
  f_errs := <[call := errno]> (f_errs k); f_calls := f_calls k; f_loads := f_loads k;
  f_insts := f_insts k; f_names := f_names k; f_meta := f_meta k |}.

Definition instructions_of (k : FakeState) (name : string) : list instruction :=
  default runtime_original (f_insts k !! name).

(** [FakeOps::record]: the call is noted, and may be one that fails. *)
Definition record_call (k : FakeState) (call : string) : option Z * FakeState :=
  (f_errs k !! call,
   {| f_attached := f_attached k; f_flags := f_flags k; f_inaccessible := f_inaccessible k;
      f_errs := f_errs k; f_calls := f_calls k ++ [call]; f_loads := f_loads k;
      f_insts := f_insts k; f_names := f_names k; f_meta := f_meta k |}).

Definition set_attached (k : FakeState) (l : list string) : FakeState :=
  {| f_attached := l; f_flags := f_flags k; f_inaccessible := f_inaccessible k;
     f_errs := f_errs k; f_calls := f_calls k; f_loads := f_loads k;
     f_insts := f_insts k; f_names := f_names k; f_meta := f_meta k |}.

Definition fake_query (k : FakeState) : result OpsError (Attached string) * FakeState :=
  (Ok {| progs := f_attached k; total := length (f_attached k) + f_inaccessible k;
         inaccessible := f_inaccessible k; attach_flags := f_flags k |}, k).

(** The name of the n-th program loaded. *)
Definition new_name (n : nat) : string := "N" +:+ pretty n.

Definition fake_load (name : string) (l : list instruction) (k : FakeState)
    : result OpsError string * FakeState :=
  let prog := new_name (S (f_loads k)) in
  let k :=
    {| f_attached := f_attached k; f_flags := f_flags k; f_inaccessible := f_inaccessible k;
       f_errs := f_errs k; f_calls := f_calls k; f_loads := S (f_loads k);
       f_insts := f_insts k; f_names := f_names k; f_meta := f_meta k |} in
  match record_call k ("load " +:+ prog) with
  | (Some errno, k) => (Err (LoadFailed (Verifier errno None [])), k)
  | (None, k) =>
      (Ok prog,
       {| f_attached := f_attached k; f_flags := f_flags k; f_inaccessible := f_inaccessible k;
          f_errs := f_errs k; f_calls := f_calls k; f_loads := f_loads k;
          f_insts := <[prog := l]> (f_insts k); f_names := <[prog := name]> (f_names k);
          f_meta := f_meta k |})
  end.

Definition fake_attach (prog : string) (flags : Z) (replace : option string) (k : FakeState)
    : result OpsError unit * FakeState :=
  let call :=
    match replace with
    | Some old => "replace " +:+ old +:+ "->" +:+ prog
    | None => "attach " +:+ prog
    end in
  match record_call k call with
  | (Some errno, k) => (Err (AttachFailed flags errno), k)
  | (None, k) =>
      match replace with
      | None => (Ok tt, set_attached k (f_attached k ++ [prog]))
      | Some old =>
          match position (fun name => bool_decide (name = old)) (f_attached k) with
          | None => (Err (AttachFailed flags ENOENT), k)
          | Some index => (Ok tt, set_attached k (<[index := prog]> (f_attached k)))
          end
      end
  end.

Definition fake_detach (prog : string) (k : FakeState) : result OpsError unit * FakeState :=
  match record_call k ("detach " +:+ prog) with
  | (Some errno, k) => (Err (DetachFailed errno), k)
  | (None, k) => (Ok tt, set_attached k (filter (fun name => name <> prog) (f_attached k)))
  end.

Definition fake_instructions (prog : string) (k : FakeState)
    : result OpsError (list instruction * ProgMeta) * FakeState :=
  (Ok (instructions_of k prog, f_meta k), k).

#[global] Instance FakeOps : V2Ops FakeState string := {
  op_query := fake_query;
  op_load := fake_load;
  op_attach := fake_attach;
  op_detach := fake_detach;
  op_instructions := fake_instructions;
}.

(** ** It keeps the interface's laws *)

(** A name that no later load will be given. *)
Definition fake_live (k : FakeState) (p : string) : Prop :=
  forall n, (f_loads k < n)%nat -> p <> new_name n.

Record fake_wf (k : FakeState) : Prop := {
  fw_nodup : NoDup (f_attached k);
  fw_live p : p ∈ f_attached k -> fake_live k p;
  fw_range p l : f_insts k !! p = Some l -> Forall in_range l;
}.

#[global] Instance FakeView : KernelView FakeState string := {
  wf := fake_wf;
  att := f_attached;
  live := fake_live;
  code k p := (instructions_of k p, f_meta k);
}.

Lemma runtime_original_range : Forall in_range runtime_original.
Proof. repeat apply Forall_cons_2; try apply Forall_nil_2; (vm_compute; repeat split; try done; intuition discriminate). Qed.

Lemma new_name_inj n m : new_name n = new_name m -> n = m.
Proof. unfold new_name. intros E. injection E as E. by apply (inj pretty). Qed.

(** A state that differs in what is recorded only. *)
Lemma fake_frame k k' :
  fake_wf k' -> f_loads k' = f_loads k -> f_insts k' = f_insts k -> f_meta k' = f_meta k ->
  frame k k'.
Proof.
  intros Hw E1 E2 E3. split; [done|]. intros p Hp. split.
  - unfold live in *. simpl in *. unfold fake_live in *. by rewrite E1.
  - simpl. unfold instructions_of. by rewrite E2, E3.
Qed.

Lemma fake_wf_attached k l :
  fake_wf k -> NoDup l -> (forall p, p ∈ l -> fake_live k p) -> fake_wf (set_attached k l).
Proof. intros [_ _ Hr] Hn Hl. by constructor. Qed.

Lemma fake_wf_record k call : fake_wf k -> fake_wf (record_call k call).2.
Proof. intros [Hn Hl Hr]. by constructor. Qed.

Lemma position_insert (l : list string) old p i :
  position (fun name => bool_decide (name = old)) l = Some i ->
  exists l', l ≡ₚ old :: l' /\ <[i := p]> l ≡ₚ p :: l'.
Proof.
  revert i. induction l as [|x l IH]; intros i Hi; simpl in Hi; [done|].
  case_bool_decide as Hx.
  - injection Hi as <-. subst x. by exists l.
  - apply fmap_Some in Hi as (j & Hj & ->). destruct (IH j Hj) as (l' & P1 & P2).
    exists (x :: l'). split; [by rewrite P1; constructor|]. simpl. rewrite P2. constructor.
Qed.

#[global] Instance FakeLaws : KernelLaws FakeState string.
Proof.
  constructor.
  - intros k Hw. apply Hw.
  - intros k p Hw. apply Hw.
  - intros k p [_ _ Hr] _. simpl. unfold instructions_of.
    destruct (f_insts k !! p) eqn:E; [by eapply Hr|apply runtime_original_range].
  - intros k r k' Hw E. simpl in E. injection E as <- <-. split_and!; [|done|].
    + by apply fake_frame.
    + intros a [= <-] Hi. simpl in *. split; [done|lia].
  - intros k name l r k' [Hn Hl Hr] Hin E. simpl in E. unfold fake_load, record_call in E. simpl in E.
    assert (forall p, fake_live k p -> p <> new_name (S (f_loads k))) as Hne by (intros p Hp; apply Hp; lia).
    destruct (f_errs k !! _) as [errno|]; simplify_eq.
    + split_and!; [|done|done]. split.
      * constructor; [done| |done]. intros p Hp n Hlt. simpl in Hlt. apply (Hl p Hp). lia.
      * intros p Hp. split; [|done]. intros n Hlt. simpl in Hlt. apply Hp. lia.
    + split_and!; [|done|].
      * split.
        -- constructor; simpl; [done| |].
           ++ intros p Hp n Hlt. simpl in Hlt. apply (Hl p Hp). lia.
           ++ intros p l' Hp. apply lookup_insert_Some in Hp as [[_ <-]|[_ Hp]]; [done|by eapply Hr].
        -- intros p Hp. split; [intros n Hlt; simpl in Hlt; apply Hp; lia|]. simpl. unfold instructions_of.
           simpl. by rewrite lookup_insert_ne by (by apply not_eq_sym, Hne).
      * intros p [= <-]. split_and!.
        -- intros Hp. by apply (Hne _ Hp).
        -- intros n Hlt E'. apply new_name_inj in E'. simpl in Hlt. lia.
        -- simpl. unfold instructions_of. simpl. by rewrite lookup_insert_eq.
  - intros k p r k' Hw Hl Hnp E. simpl in E. unfold fake_attach in E.
    pose proof (fake_wf_record k ("attach " +:+ p) Hw) as Hw1.
    destruct (record_call k _) as [[errno|] k1] eqn:E1; unfold record_call in E1; simplify_eq/=.
    + split; [by apply fake_frame|done].
    + split; [|apply Permutation_app_comm]. apply fake_frame; [|done..]. apply fake_wf_attached; [done| |].
      * apply NoDup_app. split_and!; [apply Hw| |apply NoDup_singleton].
        intros x Hx ->%list_elem_of_singleton. done.
      * intros x [Hx| ->%list_elem_of_singleton]%elem_of_app; [by apply Hw|done].
  - intros k p old r k' Hw Hl Hnp E. simpl in E. unfold fake_attach in E.
    pose proof (fake_wf_record k ("replace " +:+ old +:+ "->" +:+ p) Hw) as Hw1.
    destruct (record_call k _) as [[errno|] k1] eqn:E1; unfold record_call in E1; simplify_eq/=.
    + split; [by apply fake_frame|done].
    + destruct (position _ (f_attached k)) as [i|] eqn:Ei; simplify_eq/=; [|split; [by apply fake_frame|done]].
      destruct (position_insert _ _ p _ Ei) as (l & P1 & P2).
      pose proof (fw_nodup _ Hw) as Hnd. rewrite P1 in Hnd. apply NoDup_cons in Hnd as [Ho Hnl].
      assert (p ∉ l) as Hpl by (intros Hx; apply Hnp; simpl; rewrite P1; by right).
      split; [|by exists l]. apply fake_frame; [|done..]. apply fake_wf_attached; [done| |].
      * rewrite P2. by apply NoDup_cons.
      * intros x Hx. rewrite P2 in Hx. apply elem_of_cons in Hx as [->|Hx]; [done|].
        apply Hw. rewrite P1. by right.
  - intros k p r k' Hw E. simpl in E. unfold fake_detach in E.
    pose proof (fake_wf_record k ("detach " +:+ p) Hw) as Hw1.
    destruct (record_call k _) as [[errno|] k1] eqn:E1; unfold record_call in E1; simplify_eq/=.
    + split; [by apply fake_frame|done].
    + split.
      * apply fake_frame; [|done..]. apply fake_wf_attached; [done|apply NoDup_filter, Hw|].
        intros x [_ Hx]%list_elem_of_filter. by apply Hw.
      * intros q. rewrite list_elem_of_filter. naive_solver.
  - intros k p r k' Hw _ E. simpl in E. injection E as <- <-. split_and!; [by apply fake_frame|done|].
    by intros x [= <-].
Qed.
