(* ===== verification/V2Theorems.v ===== *)
(** * What the cgroup v2 controller promises

    The theorems about a whole pass of [set_rules] (src/cgroup/v2.rs, v2plan.rs)
    over any kernel that keeps the laws of [KernelLaws], each with a closed
    instance on the recording kernel of the repository's own tests. *)

From S2P Require Import Prelude.
From S2P Require Import Text.
From S2P Require Import Asm.
From S2P Require Import AsmText.
From S2P Require Import Codec.
From S2P Require Import CodecProofs.
From S2P Require Import Ebpf.
From S2P Require Import Bpf.
From S2P Require Import Owned.
From S2P Require Import Verdict.
From S2P Require Import OwnedProofs.
From S2P Require Import Filter.
From S2P Require Import V2Ops.
From S2P Require Import Errors.
From S2P Require Import V2.
From S2P Require Import V2Proofs.
From S2P Require Import V2Plans.
From S2P Require Import V2Safety.
From S2P Require Import V2Fake.

Local Open Scope Z_scope.

Section Claims.
Context `{HostEndian} (sha256 : list Z -> list Z) (sha256_32 : digest_32 sha256).
Context {K P : Type} `{EqDecision P} `{KernelLaws K P}.
Context (draws : nat -> result NonceError Z).
Context (draws_u64 : forall n z, draws n = Ok z -> is_u 64 z).

Abbreviation set_rules := (set_rules sha256 draws).

(** C1. No window without a filter: whatever fails on the way, in every
    kernel state a pass goes through, each program attached before it still
    has an attached program that enforces the same original. *)
Theorem never_unfiltered id rules s r s' :
  wf (kernel s) -> cache_ok sha256 (cache s) -> rules_ok rules ->
  set_rules id rules s = (r, s') ->
  exists t, trace s' = trace s ++ t /\ Forall (covers sha256 (kernel s)) t.
Proof.
  intros Hw Hc Hr E.
  pose proof (wp_set_rules sha256 sha256_32 draws draws_u64 id rules s Hw Hc Hr) as HW.
  unfold wp in HW. rewrite E in HW. apply HW.
Qed.

(** What a pass leaves, for the claims below. *)
Lemma pass_result id rules s r s' :
  wf (kernel s) -> cache_ok sha256 (cache s) -> rules_ok rules ->
  set_rules id rules s = (r, s') -> passed sha256 (kernel s) rules r s'.
Proof.
  intros Hw Hc Hr E.
  pose proof (wp_set_rules sha256 sha256_32 draws draws_u64 id rules s Hw Hc Hr) as HW.
  unfold wp in HW. rewrite E in HW. apply HW.
Qed.

(** A grant that succeeds leaves nothing but wrappers of the rules it was
    given, around originals the gate admits, never none, and keeps every original that
    was attached before. *)
Theorem grant_wraps_all id rules s s' :
  wf (kernel s) -> cache_ok sha256 (cache s) -> rules_ok rules -> rules <> [] ->
  set_rules id rules s = (Ok tt, s') ->
  covers sha256 (kernel s) (kernel s') /\ att (kernel s') <> []
  /\ forall p, p ∈ att (kernel s') ->
       exists raw, canonical_bytes (code (kernel s') p).1 = Ok raw /\ is_wrapper sha256 rules raw.
Proof.
  intros Hw Hc Hr Hne E. destruct (pass_result _ _ _ _ _ Hw Hc Hr E) as (_ & _ & Hcov & Hs & Hd).
  do 2 (split; [done|]). intros p Hp. destruct (Hd p Hp) as (raw & Ec & Hw').
  exists raw. split; [done|]. unfold desired in Hw'. by rewrite bool_decide_eq_false_2 in Hw'.
Qed.

(** What a pass for rules leaves attached answers as the last rule that covers a
    request. *)
Lemma desired_decides rules raw req b :
  rules_ok rules -> rules <> [] -> desired sha256 rules raw ->
  valid_request req -> rules_verdict rules req = Some b -> run_device_filter raw req = Some (if b then 1 else 0).
Proof.
  intros Hr Hne Hd' Hv Hrv. unfold desired in Hd'. rewrite bool_decide_eq_false_2 in Hd' by done.
  destruct Hd' as (n & o & m & Ho & Hg & He).
  destruct (gate_loadable o m Ho Hg) as (oi & (_ & Hdec & _) & Hcw).
  pose proof (wrapper_run sha256 rules n o raw oi m req Ho Hdec Hcw He Hv) as HR.
  rewrite first_emitted_rule_spec in HR; [unfold rules_verdict in Hrv; by rewrite Hrv in HR|].
  rewrite forallb_forall. intros r Hin%in_rev. revert r Hin. apply forallb_forall, Hr.
Qed.

(** C11. A request that some rule of a successful grant covers is answered by
    the last such rule, in every program attached afterwards: no attached
    program keeps an older answer. The rules are at most 2^28, with numbers below
    2^31. *)
Theorem grant_decides id rules s s' req b :
  wf (kernel s) -> cache_ok sha256 (cache s) -> rules_ok rules -> rules <> [] ->
  set_rules id rules s = (Ok tt, s') ->
  valid_request req -> rules_verdict rules req = Some b ->
  forall p, p ∈ att (kernel s') ->
    exists raw, canonical_bytes (code (kernel s') p).1 = Ok raw
      /\ run_device_filter raw req = Some (if b then 1 else 0).
Proof.
  intros Hw Hc Hr Hne E Hv Hrv p Hp.
  destruct (pass_result _ _ _ _ _ Hw Hc Hr E) as (_ & _ & _ & _ & Hd).
  destruct (Hd p Hp) as (raw & Ec & Hd'). exists raw. split; [done|]. by eapply desired_decides.
Qed.

(** A pass with no rules that succeeds leaves no wrapper attached, and
    keeps every original that was attached before. *)
Theorem restore_unwraps_all id s s' :
  wf (kernel s) -> cache_ok sha256 (cache s) ->
  set_rules id [] s = (Ok tt, s') ->
  covers sha256 (kernel s) (kernel s')
  /\ forall p, p ∈ att (kernel s') ->
       exists raw, canonical_bytes (code (kernel s') p).1 = Ok raw
         /\ parse_owned_innermost sha256 raw = Ok None.
Proof.
  intros Hw Hc E.
  destruct (pass_result id [] s _ s' Hw Hc ltac:(by split; [done|vm_compute]) E) as (_ & _ & Hcov & _ & Hd).
  done.
Qed.

(** C26. A pass that fails says what it may have changed: it never panics, it
    leaves the attachments exactly as they were unless the error is [Change],
    and the cache it leaves still describes originals only. *)
Theorem failed_pass_unchanged id rules s f s' :
  wf (kernel s) -> cache_ok sha256 (cache s) -> rules_ok rules ->
  set_rules id rules s = (Err f, s') ->
  cache_ok sha256 (cache s')
  /\ exists e, f = Failed e /\ (is_change e = true \/ att (kernel s') = att (kernel s)).
Proof.
  intros Hw Hc Hr E. destruct (pass_result _ _ _ _ _ Hw Hc Hr E) as [Hc' Hp].
  split; [done|]. destruct f as [e|]; [by exists e|done].
Qed.

End Claims.

(** ** Instances

    A cgroup with the container runtime's program, on the kernel of the tests. *)

Module Demo.

#[local] Existing Instance Sample.little.

Definition id : Identity := {| path := "/sys/fs/cgroup/docker/a"; inode := 42 |}.

Definition draws (n : nat) : result NonceError Z := Ok (7 + Z.of_nat n mod 2).

Lemma draws_u64 n z : draws n = Ok z -> is_u 64 z.
Proof.
  intros [= <-]. pose proof (Z.mod_pos_bound (Z.of_nat n) 2 ltac:(lia)). unfold is_u. lia.
Qed.

Definition start (k : FakeState) : St :=
  {| kernel := k; probe := REPLACE_UNKNOWN; cache := ∅;
     drawn := 0; trace := [] |}.

Lemma fake_one_wf errs : wf (P := string) (foldr (fun c k => inject c 22 k) (new_fake ["O1"]) errs).
Proof.
  assert (f_attached (foldr (fun c k => inject c 22 k) (new_fake ["O1"]) errs) = ["O1"]
    /\ f_insts (foldr (fun c k => inject c 22 k) (new_fake ["O1"]) errs) = ∅) as [Ha Hi]
    by (induction errs as [|c errs IH]; [done|exact IH]).
  constructor.
  - rewrite Ha. apply NoDup_singleton.
  - rewrite Ha. intros p ->%list_elem_of_singleton n _ [=].
  - rewrite Hi. intros p l. by rewrite lookup_empty.
Qed.

Lemma rules_small : rules_ok Sample.rules.
Proof. by split; [|vm_compute]. Qed.

Lemma empty_cache_ok sha : cache_ok sha ∅.
Proof. intros i e. by rewrite lookup_empty. Qed.

(** A pass on the cgroup where the kernel refuses the calls [errs]. *)
Definition pass (errs : list string) : result fault unit * St :=
  V2.set_rules Sample.digest draws id Sample.rules
    (start (foldr (fun c k => inject c 22 k) (new_fake ["O1"]) errs)).

(** The state a grant that meets no failure leaves. *)
Definition granted : St := (pass []).2.

Definition outcome (p : result fault unit * St) : result fault unit * list string * list string :=
  (p.1, f_attached (kernel p.2), f_calls (kernel p.2)).

Lemma outcome_pass p r l c : outcome p = (r, l, c) -> p = (r, p.2).
Proof. destruct p as [r' s]. by intros [= -> _ _]. Qed.

Lemma grant_outcome :
  outcome (pass []) = (Ok tt, ["N1"], ["load N1"; "replace O1->N1"]).
Proof. vm_compute. reflexivity. Qed.

Lemma pass_granted : pass [] = (Ok tt, granted).
Proof. exact (outcome_pass _ _ _ _ grant_outcome). Qed.

Lemma granted_attached : "N1" ∈ att (kernel granted).
Proof.
  change (att (kernel granted)) with (outcome (pass [])).1.2. rewrite grant_outcome. by left.
Qed.

Lemma granted_ok : wf (kernel granted) /\ cache_ok Sample.digest (cache granted).
Proof.
  destruct (pass_result (P := string) Sample.digest Sample.digest_ok draws draws_u64 id Sample.rules (start (new_fake ["O1"])) (Ok tt) granted
    (fake_one_wf []) (empty_cache_ok _) rules_small pass_granted) as (Hc & Hw & _). done.
Qed.

Lemma restored_outcome :
  outcome (V2.set_rules Sample.digest draws id [] granted)
    = (Ok tt, ["N2"], ["load N1"; "replace O1->N1"; "load N2"; "replace N1->N2"]).
Proof. vm_compute. reflexivity. Qed.

End Demo.

#[local] Existing Instance Sample.little.

(** The kernel refuses the replace, so the wrapper is attached beside the
    original before that one is detached. *)
Lemma never_unfiltered_witness :
  Demo.outcome (Demo.pass ["replace O1->N1"])
    = (Ok tt, ["N1"], ["load N1"; "replace O1->N1"; "attach N1"; "detach O1"])
  /\ exists t, trace (Demo.pass ["replace O1->N1"]).2 = t
       /\ Forall (covers Sample.digest (inject "replace O1->N1" 22 (new_fake ["O1"]))) t.
Proof.
  split; [vm_compute; reflexivity|].
  exact (never_unfiltered (P := string) Sample.digest Sample.digest_ok Demo.draws Demo.draws_u64 Demo.id
    Sample.rules (Demo.start (inject "replace O1->N1" 22 (new_fake ["O1"])))
    (Demo.pass ["replace O1->N1"]).1 (Demo.pass ["replace O1->N1"]).2
    (Demo.fake_one_wf ["replace O1->N1"]) (Demo.empty_cache_ok _) Demo.rules_small
    (surjective_pairing (Demo.pass ["replace O1->N1"]))).
Defined.

Lemma grant_wraps_all_witness :
  Demo.pass [] = (Ok tt, Demo.granted)
  /\ covers Sample.digest (new_fake ["O1"]) (kernel Demo.granted) /\ att (kernel Demo.granted) <> []
  /\ forall p, p ∈ att (kernel Demo.granted) ->
       exists raw, canonical_bytes (code (kernel Demo.granted) p).1 = Ok raw
         /\ is_wrapper Sample.digest Sample.rules raw.
Proof.
  split; [exact Demo.pass_granted|].
  exact (grant_wraps_all (P := string) Sample.digest Sample.digest_ok Demo.draws Demo.draws_u64 Demo.id
    Sample.rules (Demo.start (new_fake ["O1"])) Demo.granted (Demo.fake_one_wf [])
    (Demo.empty_cache_ok _) Demo.rules_small ltac:(discriminate) Demo.pass_granted).
Defined.

Lemma grant_decides_witness :
  exists raw, canonical_bytes (code (kernel Demo.granted) "N1").1 = Ok raw
    /\ run_device_filter raw Sample.card0 = Some 1.
Proof.
  exact (grant_decides (P := string) Sample.digest Sample.digest_ok Demo.draws Demo.draws_u64 Demo.id
    Sample.rules (Demo.start (new_fake ["O1"])) Demo.granted Sample.card0 true
    (Demo.fake_one_wf []) (Demo.empty_cache_ok _) Demo.rules_small ltac:(discriminate)
    Demo.pass_granted (Sample.card_valid 226 0 ltac:(done) ltac:(done)) eq_refl
    "N1" Demo.granted_attached).
Defined.

Definition after_restore : St := (set_rules Sample.digest Demo.draws Demo.id [] Demo.granted).2.

Lemma restore_succeeds :
  set_rules Sample.digest Demo.draws Demo.id [] Demo.granted = (Ok tt, after_restore).
Proof. exact (Demo.outcome_pass _ _ _ _ Demo.restored_outcome). Qed.

Lemma restore_unwraps_all_witness :
  covers Sample.digest (kernel Demo.granted) (kernel after_restore)
  /\ forall p, p ∈ att (kernel after_restore) ->
       exists raw, canonical_bytes (code (kernel after_restore) p).1 = Ok raw
         /\ parse_owned_innermost Sample.digest raw = Ok None.
Proof.
  exact (restore_unwraps_all (P := string) Sample.digest Sample.digest_ok Demo.draws Demo.draws_u64 Demo.id
    Demo.granted after_restore (proj1 Demo.granted_ok) (proj2 Demo.granted_ok) restore_succeeds).
Defined.

(** The kernel's verifier refuses the wrapper, so nothing was changed. *)
Definition refused : fault := Failed (Ops (LoadFailed (Verifier 22 None []))).

Lemma refused_pass : (Demo.pass ["load N1"]).1 = Err refused.
Proof. vm_compute. reflexivity. Qed.

Lemma failed_pass_unchanged_witness :
  cache_ok Sample.digest (cache (Demo.pass ["load N1"]).2)
  /\ exists e, refused = Failed e
       /\ (is_change e = true \/ att (kernel (Demo.pass ["load N1"]).2) = ["O1"]).
Proof.
  exact (failed_pass_unchanged (P := string) Sample.digest Sample.digest_ok Demo.draws Demo.draws_u64 Demo.id
    Sample.rules (Demo.start (inject "load N1" 22 (new_fake ["O1"]))) refused
    (Demo.pass ["load N1"]).2 (Demo.fake_one_wf ["load N1"]) (Demo.empty_cache_ok _)
    Demo.rules_small
    (eq_trans (surjective_pairing (Demo.pass ["load N1"])) (f_equal (fun r => (r, _)) refused_pass))).
Defined.
