(* ===== verification/V2Exact.v ===== *)
(** * What a cgroup v2 pass leaves, exactly

    A pass does not only keep what it must: the programs attached after it are one per
    lineage, each as often as there are lineages. From it follows that revoking what was
    granted brings back the very programs that were there (src/cgroup/v2.rs, v2plan.rs),
    and that the judges of the enforcement tests (testenv/src/enforce.rs) accept the
    controller. *)

From S2P Require Import Prelude.
From S2P Require Import Asm.
From S2P Require Import Codec.
From S2P Require Import CodecProofs.
From S2P Require Import Ebpf.
From S2P Require Import Bpf.
From S2P Require Import Owned.
From S2P Require Import Verdict.
From S2P Require Import OwnedProofs.
From S2P Require Import Filter.
From S2P Require Import V2Ops.
From S2P Require Import Errors.
From S2P Require Import V2.
From S2P Require Import V2Proofs.
From S2P Require Import V2Plans.
From S2P Require Import V2Safety.
From S2P Require Import V2Fake.
From S2P Require Import V2Theorems.

Local Open Scope Z_scope.

(** ** Bags *)

Lemma filter_ext_in {A} (Q Q' : A -> Prop) `{forall x, Decision (Q x), forall x, Decision (Q' x)} (l : list A) :
  (forall x, x ∈ l -> Q x <-> Q' x) -> filter Q l = filter Q' l.
Proof.
  induction l as [|x l IH]; intros HQ; [done|]. rewrite !filter_cons.
  rewrite (IH ltac:(intros y Hy; apply HQ; by right)). pose proof (HQ x ltac:(by left)).
  destruct (decide (Q x)), (decide (Q' x)); tauto.
Qed.

Lemma filter_none {A} (Q : A -> Prop) `{forall x, Decision (Q x)} (l : list A) : (forall x, x ∈ l -> ~ Q x) -> filter Q l = [].
Proof.
  induction l as [|x l IH]; intros HQ; [done|]. rewrite filter_cons, decide_False by (apply HQ; by left).
  apply IH. intros y Hy. apply HQ. by right.
Qed.

(** A list is what its indices give. *)
Lemma omap_lookup_seq {A} (l : list A) : omap (l !!.) (seq 0 (length l)) = l.
Proof.
  induction l as [|x l IH]; [done|]. cbn [length seq]. csimpl. f_equal.
  rewrite <- fmap_S_seq. rewrite <- IH at 2. generalize (seq 0 (length l)). intros ns.
  induction ns as [|n ns IHn]; csimpl; [done|]. destruct (l !! n); [by rewrite IHn|done].
Qed.

Lemma omap_bind {A B C} (f : B -> option C) (g : A -> list B) (l : list A) :
  omap f (l ≫= g) = l ≫= (fun x => omap f (g x)).
Proof. induction l as [|x l IH]; csimpl; [done|]. by rewrite omap_app, IH. Qed.

(** The programs with an index in [gone] go. *)
Definition staying (gone : list nat) (l : list AttachedProg) : list AttachedProg :=
  filter (fun a => a_index a ∉ gone) l.

(** Lineages with disjoint programs stay or go each on its own. *)
Lemma staying_app g gs ms rest :
  NoDup (a_index <$> ms ++ rest) -> g ⊆ a_index <$> ms -> gs ⊆ a_index <$> rest ->
  staying (g ++ gs) (ms ++ rest) = staying g ms ++ staying gs rest.
Proof.
  intros Hnd Hg Hgs. rewrite fmap_app in Hnd. apply NoDup_app in Hnd as (_ & Hdis & _).
  unfold staying. rewrite filter_app. f_equal; apply filter_ext_in; intros a Ha; rewrite elem_of_app.
  - assert (a_index a ∉ gs); [|tauto]. intros Hx%Hgs. eapply Hdis; [|exact Hx]. by apply list_elem_of_fmap_2.
  - assert (a_index a ∉ g); [|tauto]. intros Hx%Hg. eapply Hdis; [exact Hx|]. by apply list_elem_of_fmap_2.
Qed.

Section Exact.
Context `{HostEndian} (sha256 : list Z -> list Z) (sha256_32 : digest_32 sha256).
Context {K P : Type} `{EqDecision P} `{KernelLaws K P}.
Context (draws : nat -> result NonceError Z).
Context (draws_u64 : forall n z, draws n = Ok z -> is_u 64 z).

Abbreviation M := (@M K).
Abbreviation St := (@St K).
Abbreviation innermost := (parse_owned_innermost sha256).
Abbreviation emit := (emit_owned sha256).

(** ** What a grant leaves *)

(** The wrapper of a lineage. *)
Definition wraps (rules : list DeviceRule) (it : list AttachedProg * CachedLineage) (raw : list Z) : Prop :=
  emit rules (lin_nonce it.2) (lin_original it.2) = Ok raw.

Lemma granted_gone rules L ms l c : granted sha256 rules L ms l c -> chunk_gone c ⊆ a_index <$> ms.
Proof. intros Hg d Hd%chunk_gone_olds. by rewrite (proj1 (granted_olds _ _ _ _ _ _ Hg)) in Hd. Qed.

(** One lineage: the member that stays, or the load. *)
Lemma granted_exact rules L ms l c :
  granted sha256 rules L ms l c -> NoDup (a_index <$> ms) ->
  exists raw, emit rules (lin_nonce l) (lin_original l) = Ok raw /\
    (a_raw <$> staying (chunk_gone c) ms) ++ omap (L !!.) (chunk_new c) = [raw].
Proof.
  intros [pre m post -> He|m rest n raw -> He Hn] Hnd; cbn [chunk_gone chunk_new].
  - exists (a_raw m). split; [done|]. unfold staying. rewrite filter_app, filter_cons.
    rewrite fmap_app, fmap_cons in Hnd. apply NoDup_app in Hnd as (_ & Hdis & Hnd).
    apply NoDup_cons in Hnd as [Hm _].
    rewrite decide_True; [|intros [Hx|Hx]%elem_of_app; [|done]; eapply Hdis; [exact Hx|by left]].
    rewrite !filter_none; [done|..]; intros x Hx Hn; apply Hn, elem_of_app; [right|left]; by apply list_elem_of_fmap_2.
  - exists raw. split; [done|]. unfold staying. rewrite filter_none; [by csimpl; rewrite Hn|].
    intros x Hx Hnx. apply Hnx. change (a_index m :: (a_index <$> rest)) with (a_index <$> (m :: rest)).
    by apply list_elem_of_fmap_2.
Qed.

Lemma grants_gone rules L items cs :
  Forall2 (fun it c => granted sha256 rules L it.1 it.2 c) items cs -> cs ≫= chunk_gone ⊆ a_index <$> (items ≫= fst).
Proof.
  induction 1 as [|it c items cs Hg _ IH]; csimpl; [set_solver|]. rewrite fmap_app. apply granted_gone in Hg. set_solver.
Qed.

Lemma grants_exact rules L items cs :
  Forall2 (fun it c => granted sha256 rules L it.1 it.2 c) items cs ->
  NoDup (a_index <$> (items ≫= fst)) ->
  exists E, Forall2 (wraps rules) items E /\
    (a_raw <$> staying (cs ≫= chunk_gone) (items ≫= fst)) ++ omap (L !!.) (cs ≫= chunk_new) ≡ₚ E.
Proof.
  induction 1 as [|it c items cs Hg HF IH]; intros Hnd; csimpl in *; [by exists []|].
  assert (cs ≫= chunk_gone ⊆ a_index <$> (items ≫= fst)) as Hsub.
  { by eapply grants_gone. }
  rewrite staying_app by (done || by eapply granted_gone).
  rewrite fmap_app in Hnd. apply NoDup_app in Hnd as (Hn1 & _ & Hn2).
  destruct (IH Hn2) as (E & HE & HP). destruct (granted_exact _ _ _ _ _ Hg Hn1) as (raw & Hr & Heq).
  exists (raw :: E). split; [by constructor|]. rewrite fmap_app, omap_app, <- HP.
  change (raw :: ?l) with ([raw] ++ l). rewrite <- Heq. solve_Permutation.
Qed.

(** ** What a restore leaves when nothing is bare *)

Lemma restores_exact L gs cs :
  Forall2 (restored L []) gs cs ->
  cs ≫= chunk_gone = a_index <$> (gs ≫= g_members) /\ omap (L !!.) (cs ≫= chunk_new) = g_original <$> gs.
Proof.
  induction 1 as [|g c gs cs Hr _ [IH1 IH2]]; csimpl; [done|].
  destruct Hr as [k b Hb|m rest n Hm Hn]; [done|]. rewrite Hm, fmap_app, IH1. split; [done|].
  csimpl. by rewrite Hn, IH2.
Qed.

Lemma restore_exact cls gs cs :
  group_wrappers cls = (gs, []) -> plan_chunks (plan_restore gs []) cs ->
  Forall2 (restored (loads (plan_restore gs [])) []) gs cs ->
  (a_raw <$> kept_of cls cs) ++ loads (plan_restore gs []) = g_original <$> gs.
Proof.
  intros Hg Hc HF. destruct (group_wrappers_spec _ _ _ Hg) as (HG & _ & HP). unfold grouped in HP. rewrite app_nil_r in HP.
  destruct (restores_exact _ _ _ HF) as [Hgone Hnew]. rewrite <- Hnew, (pc_new _ _ Hc), omap_lookup_seq.
  unfold kept_of. rewrite filter_none; [done|]. intros a Ha Hx. apply Hx. rewrite Hgone.
  apply list_elem_of_fmap_2. by rewrite HP.
Qed.

(** ** A pass that succeeds *)

Lemma pass_bind {A B} (m : M A) (f : A -> M B) s b s' :
  (m ≫= f) s = (Ok b, s') -> exists a s1, m s = (Ok a, s1) /\ f a s1 = (Ok b, s').
Proof. unfold mbind, M_bind. destruct (m s) as [[a|e] s1]; [|done]. intros E. by exists a, s1. Qed.

Lemma lift_run {E A} (f : E -> Error) (x : result E A) (s : St) a s' : lift f x s = (Ok a, s') -> x = Ok a /\ s' = s.
Proof. unfold lift. destruct x; [|done]. by intros [= <- <-]. Qed.

Lemma call_run {A} (op : K -> result OpsError A * K) (s : St) r s' :
  call op s = (Ok r, s') -> op (kernel s) = (r, kernel s') /\ cache s' = cache s /\ drawn s' = drawn s.
Proof. unfold call. destruct (op (kernel s)) as [r' k]. by intros [= <- <-]. Qed.

Lemma wp_run {A} I (m : M A) Q s r s' : m s = (r, s') -> wp I m Q s -> Q r s'.
Proof. unfold wp. intros ->. by intros [_ HQ]. Qed.

(** What classifying leaves alone. *)
Lemma classify_drawn i p s a s' : classify sha256 i p s = (Ok a, s') -> drawn s' = drawn s.
Proof.
  unfold classify. intros (r & s1 & (_ & _ & <-)%call_run & E)%pass_bind.
  apply pass_bind in E as ([insts meta] & s2 & [-> ->]%lift_run & E).
  apply pass_bind in E as (raw & s2 & [Hr ->]%lift_run & E).
  apply pass_bind in E as (o & s2 & [Ho ->]%lift_run & E). destruct o as [o|].
  - apply pass_bind in E as (u & s2 & [_ ->]%lift_run & E). by injection E as <- <-.
  - by injection E as <- <-.
Qed.

Lemma classify_all_drawn ps i s l s' : classify_all sha256 i ps s = (Ok l, s') -> drawn s' = drawn s.
Proof.
  revert i s l s'. induction ps as [|p ps IH]; intros i s l s'; cbn [classify_all]; [by intros [= <- <-]|].
  intros (a & s1 & <-%classify_drawn & E)%pass_bind. apply pass_bind in E as (rest & s2 & <-%IH & E).
  by injection E as <- <-.
Qed.

Lemma grant_group_drawn rules p g (s : St) p' s' : grant_group sha256 rules p g s = (Ok p', s') -> drawn s' = drawn s.
Proof.
  unfold grant_group. intros (d & s1 & [_ ->]%lift_run & E)%pass_bind.
  apply pass_bind in E as ([p1 keep] & s2 & E1 & E). injection E as _ <-.
  destruct (position _ _) as [k|]; [by injection E1 as _ _ <-|].
  apply pass_bind in E1 as (m & s3 & E1 & E2). injection E2 as _ _ <-.
  unfold index in E1. destruct (_ !! _); [|done]. by injection E1 as _ <-.
Qed.

Lemma grant_groups_drawn rules gs p (s : St) p' s' : grant_groups sha256 rules p gs s = (Ok p', s') -> drawn s' = drawn s.
Proof.
  revert p s. induction gs as [|g gs IH]; intros p s; cbn [grant_groups]; [by intros [= _ <-]|].
  intros (p1 & s1 & <-%grant_group_drawn & E)%pass_bind. by eapply IH.
Qed.

(** The bares get the nonces drawn for them, one each. *)
Lemma grant_bares_draws rules bs p (s : St) p' s' :
  grant_bares sha256 draws rules p bs s = (Ok p', s') ->
  exists ns, plan_lineages p' = plan_lineages p ++ zip_with (fun b n => bare_lineage n b) bs ns /\
    length ns = length bs /\ drawn s' = (drawn s + length bs)%nat /\
    forall j n, ns !! j = Some n -> draws (drawn s + j) = Ok n.
Proof.
  revert p s. induction bs as [|b bs IH]; intros p s; cbn [grant_bares].
  { intros [= <- <-]. exists []. csimpl. rewrite app_nil_r. split_and!; [done..|lia|done]. }
  intros (p1 & s1 & E1 & E)%pass_bind. unfold grant_bare in E1.
  apply pass_bind in E1 as (u & s2 & [_ ->]%lift_run & E1). apply pass_bind in E1 as (n & s2 & En & E1).
  apply pass_bind in E1 as (raw & s3 & [_ ->]%lift_run & E1). injection E1 as <- <-.
  unfold new_nonce in En. destruct (draws (drawn s)) as [n'|e] eqn:Ed; [|done]. injection En as -> <-.
  destruct (IH _ _ E) as (ns & Hl & Hlen & Hd & Hns). exists (n :: ns). cbn in *. split_and!.
  - rewrite Hl. by rewrite <- app_assoc.
  - by rewrite Hlen.
  - lia.
  - intros [|j] n0; cbn; [intros [= <-]; by rewrite Nat.add_0_r|]. intros Hj%Hns. by rewrite <- Nat.add_succ_comm.
Qed.

(** The plan a pass makes. *)
Definition plan_of (rules : list DeviceRule) (gs : list WrapperGroup) (bs : list AttachedProg) : M PassPlan :=
  if bool_decide (rules = []) then mret (plan_restore gs bs) else plan_grant sha256 draws gs bs rules.

(** The stages of a pass that succeeds on a cgroup that has its filter. *)
Lemma pass_stages id rules s s' :
  wf (kernel s) -> att (kernel s) <> [] -> rebuilding (cache_get (cache s) id) = false ->
  set_rules sha256 draws id rules s = (Ok tt, s') ->
  exists cls gs bs p s2 s3, classes sha256 (kernel s) cls /\ group_wrappers cls = (gs, bs) /\
    unchanged (kernel s) (kernel s2) /\ drawn s2 = drawn s /\ plan_of rules gs bs s2 = (Ok p, s3) /\
    commit id (att (kernel s)) p false s3 = (Ok tt, s').
Proof.
  intros Hw Hne Hreb E. unfold set_rules in E. apply pass_bind in E as (r & s1 & (Eq & Ec1 & Ed1)%call_run & E).
  destruct (law_query _ _ _ Hw Eq) as (F1 & A1 & X1).
  apply pass_bind in E as (a & s1' & [-> ->]%lift_run & E).
  destruct (Nat.ltb_spec 0 (inaccessible a)) as [|Hin]; [done|].
  destruct (X1 a eq_refl) as [Hprogs Htot]; [lia|].
  destruct (Nat.eqb_spec (total a) 0) as [Hz|_]; [exfalso; apply Hne, nil_length_inv; congruence|].
  destruct (_ =? 0); [done|]. apply pass_bind in E as (cls & s2 & Ecl & E). rewrite Hprogs in Ecl.
  assert (looked (kernel s) s1 (fun l _ => length l = length (att (kernel s))
    /\ forall j p b, att (kernel s) !! j = Some p -> l !! j = Some b -> classified sha256 (kernel s) p (0 + j) b) (Ok cls) s2)
    as (Hu2 & Ec2 & Hcls).
  { apply (wp_run (unchanged (kernel s)) _ _ _ _ _ Ecl).
    apply (wp_classify_all sha256 (kernel s) (att (kernel s)) 0 s1); [by split|done|]. intros p Hp. by apply law_live. }
  destruct (group_wrappers cls) as [gs bs] eqn:Eg. apply pass_bind in E as (p & s3 & Ep & E).
  assert (cache s3 = cache s2) as Ec3.
  { destruct (decide (rules = [])) as [Hr|Hr]; [rewrite bool_decide_eq_true_2 in Ep by done; by injection Ep as _ <-|].
    rewrite bool_decide_eq_false_2 in Ep by done. destruct (group_wrappers_spec _ _ _ Eg) as (HG & _ & _).
    apply (wp_run _ _ _ _ _ _ Ep (wp_plan_grant sha256 draws draws_u64 (fun _ => True) rules gs bs s2 HG)). }
  apply pass_bind in E as (entry & s4 & Een & E). injection Een as <- <-.
  rewrite Ec3, Ec2, Ec1, Hreb in E. apply pass_bind in E as (p' & s5 & E5 & E). injection E5 as <- <-.
  exists cls, gs, bs, p, s2, s3. split_and!; [done..| |done|by rewrite Hprogs in E].
  rewrite (classify_all_drawn _ _ _ _ _ Ecl). done.
Qed.

(** What the commit of a ready plan leaves. *)
Lemma commit_run k0 cls id p cs reb s s' :
  wf k0 -> unchanged k0 (kernel s) -> classes sha256 k0 cls -> plan_chunks p cs -> ready sha256 cls (loads p) cs ->
  commit id (att k0) p reb s = (Ok tt, s') ->
  wf (kernel s') /\ attached_bytes (kernel s') ≡ₚ Ok <$> ((a_raw <$> kept_of cls cs) ++ loads p)
  /\ cache_get (cache s') id = {| lineages := plan_lineages p; rebuilding := false |}.
Proof.
  intros Hw Hu Hcl Hpc (R1 & R2 & R3 & R4) E. unfold commit in E. apply pass_bind in E as (u & s1 & E1 & E).
  injection E1 as _ <-. apply pass_bind in E as (u' & s2 & E2 & E).
  eapply (wp_run (V2Proofs.covers sha256 k0)) in E2; [|by eapply (wp_execute sha256 sha256_32 draws draws_u64 k0 cls p cs)].
  destruct E2 as (Ec & Hw2 & _ & _ & _ & Hex). unfold cache_get, cache_set in *.
  destruct reb; injection E as <-; (split_and!; [done..|]); [|rewrite Ec]; cbn [cache]; unfold cache_set; by rewrite lookup_insert_eq.
Qed.

Lemma bare_lineages_inj bs ns ns' :
  length ns = length bs -> length ns' = length bs ->
  zip_with (fun b n => bare_lineage n b) bs ns = zip_with (fun b n => bare_lineage n b) bs ns' -> ns = ns'.
Proof.
  revert ns ns'. induction bs as [|b bs IH]; intros [|n ns] [|n' ns'] Hl Hl' E; simplify_eq/=; [done|].
  f_equal. by apply IH.
Qed.

Lemma bare_items_lineages bs ns : (zip_with bare_item bs ns).*2 = zip_with (fun b n => bare_lineage n b) bs ns.
Proof. revert ns. induction bs as [|b bs IH]; intros [|n ns]; csimpl; [done..|]. by rewrite IH. Qed.

(** The nonces of a grant's plan are the ones drawn for it. *)
Lemma plan_grant_run rules gs bs (s : St) p s' :
  Forall group_ok gs -> plan_grant sha256 draws gs bs rules s = (Ok p, s') ->
  exists cs ns, Forall (is_u 64) ns /\ length ns = length bs /\ Forall bare_ok bs
    /\ grant_state sha256 rules p cs (grant_items gs bs ns)
    /\ (forall j n, ns !! j = Some n -> draws (drawn s + j) = Ok n) /\ kernel s' = kernel s.
Proof.
  intros HG E.
  pose proof (wp_run _ _ _ _ _ _ E (wp_plan_grant sha256 draws draws_u64 (fun _ => True) rules gs bs s HG))
    as (Hk & _ & cs & ns & N1 & N2 & N3 & Hst).
  unfold plan_grant in E. apply pass_bind in E as (p1 & s1 & E1 & E2).
  pose proof (wp_run _ _ _ _ _ _ E1 (wp_grant_groups sha256 (fun _ => True) rules gs empty_plan [] [] s HG (grant_state_empty _ _)))
    as (_ & _ & cs1 & Hst1).
  destruct (grant_bares_draws _ _ _ _ _ _ E2) as (ns' & Hl & Hlen & _ & Hd).
  rewrite (grant_groups_drawn _ _ _ _ _ _ E1) in Hd.
  assert (ns = ns') as ->; [|by exists cs, ns'].
  rewrite (gs_lineages _ _ _ _ _ Hst), (gs_lineages _ _ _ _ _ Hst1) in Hl. unfold grant_items in Hl. cbn [app] in Hl.
  rewrite fmap_app, bare_items_lineages in Hl. apply app_inv_head in Hl. by eapply bare_lineages_inj.
Qed.

(** A grant that succeeds leaves exactly one wrapper per lineage: the group's, or the
    bare program's under the nonce drawn for it. *)
Lemma grant_leaves id rules s s' :
  wf (kernel s) -> rules_ok rules -> rules <> [] -> att (kernel s) <> [] ->
  rebuilding (cache_get (cache s) id) = false -> set_rules sha256 draws id rules s = (Ok tt, s') ->
  exists cls gs bs ns E, classes sha256 (kernel s) cls /\ group_wrappers cls = (gs, bs)
    /\ length ns = length bs /\ (forall j n, ns !! j = Some n -> draws (drawn s + j) = Ok n)
    /\ Forall (item_ok sha256 cls) (grant_items gs bs ns) /\ Forall2 (wraps rules) (grant_items gs bs ns) E
    /\ attached_bytes (kernel s') ≡ₚ Ok <$> E
    /\ wf (kernel s')
    /\ cache_get (cache s') id = {| lineages := (grant_items gs bs ns).*2; rebuilding := false |}.
Proof.
  intros Hw Hr Hne Hatt Hreb E.
  destruct (pass_stages _ _ _ _ Hw Hatt Hreb E) as (cls & gs & bs & p & s2 & s3 & Hcl & Eg & Hu & Hd & Ep & Ecm).
  unfold plan_of in Ep. rewrite bool_decide_eq_false_2 in Ep by done.
  destruct (group_wrappers_spec _ _ _ Eg) as (HG & _ & HP).
  destruct (plan_grant_run _ _ _ _ _ _ HG Ep) as (cs & ns & N1 & N2 & N3 & Hst & Hdr & Hk). rewrite Hd in Hdr.
  pose proof (grant_items_ok sha256 (kernel s) cls Hcl gs bs Eg ns N1 N2 N3) as Hit.
  assert (grant_items gs bs ns ≫= fst ≡ₚ cls) as HPi by (by rewrite (grant_items_members _ _ _ N2)).
  destruct (grant_ready sha256 sha256_32 draws draws_u64 (kernel s) Hw cls Hcl gs bs Eg rules p cs _ Hne Hr Hst Hit HPi) as [Hready _].
  assert (NoDup (a_index <$> (grant_items gs bs ns ≫= fst))) as Hnd.
  { rewrite HPi. by eapply indices_nodup. }
  destruct (grants_exact _ _ _ _ (gs_granted _ _ _ _ _ Hst) Hnd) as (X & HX & HPX).
  rewrite (pc_new _ _ (gs_chunks _ _ _ _ _ Hst)), omap_lookup_seq in HPX.
  destruct (commit_run (kernel s) cls id p cs false s3 s' Hw ltac:(by rewrite Hk) Hcl (gs_chunks _ _ _ _ _ Hst) Hready Ecm)
    as (Hw' & Hb & Hen).
  exists cls, gs, bs, ns, X. split_and!; [done..| |done|by rewrite Hen, (gs_lineages _ _ _ _ _ Hst)]. rewrite Hb, <- HPX. unfold kept_of, staying. by rewrite HPi.
Qed.

(** A restore that succeeds where every program is a wrapper leaves exactly the
    originals, one per lineage. *)
Lemma restore_leaves id s s' :
  wf (kernel s) -> att (kernel s) <> [] -> rebuilding (cache_get (cache s) id) = false ->
  set_rules sha256 draws id [] s = (Ok tt, s') ->
  exists cls gs bs, classes sha256 (kernel s) cls /\ group_wrappers cls = (gs, bs) /\
    (bs = [] -> attached_bytes (kernel s') ≡ₚ Ok <$> (g_original <$> gs)) /\ wf (kernel s').
Proof.
  intros Hw Hatt Hreb E.
  destruct (pass_stages _ _ _ _ Hw Hatt Hreb E) as (cls & gs & bs & p & s2 & s3 & Hcl & Eg & Hu & Hd & Ep & Ecm).
  exists cls, gs, bs. unfold plan_of in Ep. rewrite bool_decide_eq_true_2 in Ep by done. injection Ep as <- <-.
  destruct (restore_ready sha256 (kernel s) cls Hcl gs bs Eg) as (cs & C1 & CF & C2 & _ & _).
  destruct (commit_run (kernel s) cls id _ cs false s2 s' Hw Hu Hcl C1 C2 Ecm) as (Hw' & Hb & _).
  split_and!; [done..| |done]. intros ->. by rewrite Hb, (restore_exact cls gs cs Eg C1 CF).
Qed.

(** ** Grouping *)

Lemma bare_loop gs bs cls : Forall (fun a => a_owned a = false) cls -> group_loop cls gs bs = (gs, bs ++ cls).
Proof.
  intros Hb. revert bs. induction Hb as [|a cls Ha _ IH]; intros bs; cbn [group_loop]; [by rewrite app_nil_r|].
  rewrite Ha, IH. by rewrite <- app_assoc.
Qed.

(** A group of one program. *)
Definition group_alone (a : AttachedProg) : WrapperGroup :=
  {| g_nonce := a_nonce a; g_original := a_original a; g_meta := a_meta a; g_members := [a] |}.

Definition lineage_key (a : AttachedProg) : Z * list Z := (a_nonce a, a_original a).

Lemma position_none {A} (f : A -> bool) (l : list A) : (forall x, x ∈ l -> f x = false) -> position f l = None.
Proof.
  induction l as [|x l IH]; intros Hf; [done|]. cbn [position]. rewrite Hf by (by left).
  rewrite IH; [done|]. intros y Hy. apply Hf. by right.
Qed.

Lemma wrapper_loop before cls :
  Forall (fun a => a_owned a = true) cls -> NoDup (lineage_key <$> before ++ cls) ->
  group_loop cls (group_alone <$> before) [] = (group_alone <$> before ++ cls, []).
Proof.
  intros Ho. revert before. induction Ho as [|a cls Ha _ IH]; intros before Hnd; cbn [group_loop]; [by rewrite app_nil_r|].
  rewrite Ha. unfold add_member. rewrite position_none.
  - change [{| g_nonce := _ |}] with (group_alone <$> [a]). rewrite <- fmap_app, (IH (before ++ [a])); by rewrite <- app_assoc.
  - intros g (b & -> & Hb)%list_elem_of_fmap. apply not_true_iff_false. cbn. intros [En Eo]%andb_true_iff.
    apply Z.eqb_eq in En. apply bool_decide_eq_true in Eo. rewrite fmap_app in Hnd. apply NoDup_app in Hnd as (_ & Hdis & _).
    eapply Hdis; [by apply list_elem_of_fmap_2|]. csimpl. rewrite elem_of_cons. left. unfold lineage_key. congruence.
Qed.

(** ** What is granted and revoked again *)

Lemma classes_bytes k cls : classes sha256 k cls -> attached_bytes k = Ok <$> (a_raw <$> cls).
Proof.
  intros [Hl Hc]. unfold attached_bytes. apply Forall2_bytes. rewrite <- (list_fmap_id (att k)).
  apply Forall2_fmap, Forall2_same_length_lookup_2; [done|]. intros j p a Hp Ha. apply (Hc j p a Hp Ha).
Qed.

Lemma classes_parsed k cls a :
  classes sha256 k cls -> a ∈ cls ->
  exists o, innermost (a_raw a) = Ok o /\ match o with
    | Some o => a_owned a = true /\ a_nonce a = nonce o /\ a_original a = original o
    | None => a_owned a = false
    end.
Proof.
  intros [Hl Hc] [j Ha]%list_elem_of_lookup. destruct (lookup_lt_is_Some_2 (att k) j) as [p Hp].
  { rewrite <- Hl. by eapply lookup_lt_Some. } apply (cl_parsed _ _ _ _ _ (Hc j p a Hp Ha)).
Qed.

Lemma Ok_perm {E A} (l l' : list A) : Ok (E := E) <$> l ≡ₚ Ok <$> l' -> l ≡ₚ l'.
Proof.
  intros (l3 & E1 & HP)%Permutation_map_inv. rewrite HP.
  assert (l = l3) as ->; [|done]. clear - E1. revert l3 E1. induction l as [|x l IH]; intros [|y l3] E1; simplify_eq/=; [done|].
  f_equal. by apply IH.
Qed.

(** A wrapper of a lineage reads back as that lineage. *)
Definition reads_as (rules : list DeviceRule) (l : CachedLineage) (raw : list Z) : Prop :=
  let o := {| nonce := lin_nonce l; Owned.rules := normal_rules rules; original := lin_original l |} in
  innermost raw = Ok (Some o) /\ parse_owned sha256 raw = Ok (Some o) /\ normal_rules rules <> [].

Lemma normal_some rules n o raw : emit rules n o = Ok raw -> rules <> [] -> normal_rules rules <> [].
Proof.
  intros (oi & body & _ & _ & Ha & _)%emit_owned_Ok Hne. unfold normal_rules.
  destruct (rev rules) as [|r rest] eqn:Er.
  { exfalso. apply Hne. by rewrite <- (rev_involutive rules), Er. }
  cbn [append_all] in Ha. apply bind_Ok in Ha as (p & Ha & _).
  destruct (append_device_spec new_program r p eq_refl eq_refl Ha) as (f & Hf & _). cbn [read_rules]. rewrite Hf.
  rewrite fmap_cons. cbn [rev]. by intros [_ [=]]%app_eq_nil.
Qed.

Lemma wraps_reads cls rules it raw :
  rules_ok rules -> rules <> [] -> item_ok sha256 cls it -> wraps rules it raw -> reads_as rules it.2 raw.
Proof.
  intros [Hnum Hlen] Hne ([Hb Hn Hi] & [m Hg] & _) He.
  destruct (gate_loadable _ m Hb Hg) as (oi & (_ & Hd & _) & Hw).
  pose proof (parse_emitted sha256 rules _ _ oi m raw sha256_32 Hn Hlen Hnum Hb Hd Hw He) as Hp.
  split_and!; [|done|by eapply normal_some]. apply (innermost_emitted sha256 _ _ _ _ Hp Hi).
  destruct (emit_loadable sha256 sha256_32 rules _ _ m raw (conj Hnum Hlen) Hn Hb Hg He) as (insts & (Hbr & _) & _).
  destruct (parse_owned_shorter sha256 raw _ Hbr Hp) as [Hlt _]. lia.
Qed.

(** What was read of the bytes says what the programs were classified as. *)
Lemma classes_keys k cls rules ls E :
  classes sha256 k cls -> attached_bytes k ≡ₚ Ok <$> E -> Forall2 (reads_as rules) ls E ->
  Forall (fun a => a_owned a = true) cls
  /\ (lineage_key <$> cls) ≡ₚ ((fun l => (lin_nonce l, lin_original l)) <$> ls).
Proof.
  intros Hcl HP HF. rewrite (classes_bytes _ _ Hcl) in HP. apply Ok_perm in HP.
  set (key := fun raw => match innermost raw with
    | Ok (Some o) => Some (nonce o, original o)
    | _ => None
    end).
  assert (key <$> E = Some <$> ((fun l => (lin_nonce l, lin_original l)) <$> ls)) as HE.
  { clear - HF. induction HF as [|l raw ls E [Hr _] _ IH]; csimpl; [done|]. unfold key at 1. by rewrite Hr, IH. }
  assert (Forall (fun a => a_owned a = true /\ key (a_raw a) = Some (lineage_key a)) cls) as Hall.
  { apply Forall_forall. intros a Ha. destruct (classes_parsed _ _ _ Hcl Ha) as (o & Ho & Hm).
    assert (a_raw a ∈ E) as Hin by (rewrite <- HP; by apply list_elem_of_fmap_2).
    apply list_elem_of_lookup in Hin as [j Hj]. destruct (Forall2_lookup_r _ _ _ _ _ HF Hj) as (l & _ & Hr & _).
    rewrite Ho in Hr. injection Hr as ->. destruct Hm as (H1' & H2' & H3').
    split; [done|]. unfold key, lineage_key. by rewrite Ho, H2', H3'. }
  split; [eapply Forall_impl; [exact Hall|]; by intros a [? _]|].
  assert (key <$> (a_raw <$> cls) = Some <$> (lineage_key <$> cls)) as HC.
  { clear - Hall. induction Hall as [|a cls [_ Ha] _ IH]; csimpl; [done|]. by rewrite Ha, IH. }
  assert (Some <$> (lineage_key <$> cls) ≡ₚ Some <$> ((fun l => (lin_nonce l, lin_original l)) <$> ls)) as HS
    by (by rewrite <- HC, <- HE, HP).
  apply Permutation_map_inv in HS as (l3 & E3 & HP3). rewrite HP3.
  assert (lineage_key <$> cls = l3) as ->; [|done].
  by apply (inj (fmap Some)).
Qed.

(** Revoking where exactly the wrappers of some distinct lineages are attached leaves
    exactly their originals. *)
Lemma revoke_restores id rules s s' ls E :
  wf (kernel s) -> att (kernel s) <> [] -> rebuilding (cache_get (cache s) id) = false ->
  attached_bytes (kernel s) ≡ₚ Ok <$> E -> Forall2 (reads_as rules) ls E ->
  NoDup ((fun l => (lin_nonce l, lin_original l)) <$> ls) ->
  set_rules sha256 draws id [] s = (Ok tt, s') ->
  attached_bytes (kernel s') ≡ₚ Ok <$> (lin_original <$> ls) /\ wf (kernel s').
Proof.
  intros Hw Hatt Hreb HP HF Hnd Ers.
  destruct (restore_leaves _ _ _ Hw Hatt Hreb Ers) as (cls & gs & bs & Hcl & Eg & Hb & Hw').
  destruct (classes_keys _ _ _ _ _ Hcl HP HF) as [Ho Hk]. split; [|done].
  assert (group_wrappers cls = (group_alone <$> cls, [])) as Eg'.
  { apply (wrapper_loop []); [done|]. cbn [app]. by rewrite Hk. }
  rewrite Eg in Eg'. injection Eg' as -> ->. rewrite (Hb eq_refl).
  assert (g_original <$> (group_alone <$> cls) = snd <$> (lineage_key <$> cls)) as ->
    by (clear; induction cls as [|a cls IH]; csimpl; [done|by f_equal]).
  rewrite Hk. assert (snd <$> ((fun l => (lin_nonce l, lin_original l)) <$> ls) = lin_original <$> ls) as ->; [|done].
  clear. induction ls as [|l ls IH]; csimpl; [done|by f_equal].
Qed.

(** Nothing attached is a wrapper. *)
Definition all_bare (k : K) : Prop :=
  Forall (fun r => exists raw, r = Ok raw /\ innermost raw = Ok None) (attached_bytes k).

(** The next draws are distinct. *)
Definition fresh_draws (s : St) : Prop :=
  forall i j n, (i < length (att (kernel s)))%nat -> (j < length (att (kernel s)))%nat ->
    draws (drawn s + i) = Ok n -> draws (drawn s + j) = Ok n -> i = j.

Lemma bare_classes k cls gs bs :
  classes sha256 k cls -> all_bare k -> group_wrappers cls = (gs, bs) -> gs = [] /\ bs = cls.
Proof.
  intros Hcl Hbare Eg. assert (Forall (fun a => a_owned a = false) cls) as Hown.
  { apply Forall_forall. intros a Ha. destruct (classes_parsed _ _ _ Hcl Ha) as (o & Ho & Hm).
    unfold all_bare in Hbare. rewrite (classes_bytes _ _ Hcl), !Forall_fmap, Forall_forall in Hbare.
    destruct (Hbare a Ha) as (raw & [= <-] & Hn). rewrite Ho in Hn. by injection Hn as ->. }
  unfold group_wrappers in Eg. rewrite (bare_loop [] [] cls Hown) in Eg. by injection Eg as <- <-.
Qed.

Lemma bare_originals (cls : list AttachedProg) ns :
  length ns = length cls -> lin_original <$> zip_with (fun b n => bare_lineage n b) cls ns = a_raw <$> cls.
Proof. revert ns. induction cls as [|a cls IH]; intros [|n ns] Hlen; simplify_eq/=; [done|]. by rewrite <- (IH ns). Qed.

Lemma items_lineages cls (items : list (list AttachedProg * CachedLineage)) :
  Forall (item_ok sha256 cls) items -> Forall (lineage_ok sha256) items.*2.
Proof. intros Hit. apply Forall_fmap. eapply Forall_impl; [exact Hit|]. by intros it [? _]. Qed.

(** A grant on a filter the runtime left: one wrapper per program, of distinct lineages. *)
Lemma grant_wraps_bare id rules s s' :
  wf (kernel s) -> rules_ok rules -> rules <> [] -> att (kernel s) <> [] ->
  rebuilding (cache_get (cache s) id) = false -> all_bare (kernel s) -> fresh_draws s ->
  set_rules sha256 draws id rules s = (Ok tt, s') ->
  exists ls E, attached_bytes (kernel s) = Ok <$> (lin_original <$> ls) /\ NoDup (lin_nonce <$> ls)
    /\ Forall2 (reads_as rules) ls E /\ attached_bytes (kernel s') ≡ₚ Ok <$> E
    /\ wf (kernel s') /\ rebuilding (cache_get (cache s') id) = false.
Proof.
  intros Hw Hr Hne Hatt Hreb Hbare Hfresh Ers.
  destruct (grant_leaves _ _ _ _ Hw Hr Hne Hatt Hreb Ers)
    as (cls & gs & bs & ns & E & Hcl & Eg & Hlen & Hd & Hit & HF & HP & Hw' & Hen).
  destruct (bare_classes _ _ _ _ Hcl Hbare Eg) as [-> ->].
  unfold grant_items in *. csimpl in *.
  exists (zip_with (fun b n => bare_lineage n b) cls ns), E. split_and!; [| | |done|done|by rewrite Hen].
  - by rewrite (classes_bytes _ _ Hcl), bare_originals.
  - assert (lin_nonce <$> zip_with (fun b n => bare_lineage n b) cls ns = ns) as ->.
    { clear - Hlen. revert ns Hlen. induction cls as [|a cls IH]; intros [|n ns] Hlen; simplify_eq/=; [done|]. by rewrite IH. }
    apply NoDup_alt. intros i j n Hi Hj. rewrite (proj1 Hcl) in Hlen.
    apply (Hfresh i j n); [rewrite <- Hlen; by eapply lookup_lt_Some..|by apply Hd|by apply Hd].
  - rewrite <- bare_items_lineages. clear - Hit HF Hr Hne sha256_32. rewrite Forall2_fmap_l.
    revert Hit. induction HF as [|it raw its E He _ IH]; intros Hit; [constructor|].
    apply Forall_cons in Hit as [Hi Hit]. constructor; [by eapply wraps_reads|by apply IH].
Qed.

(** ** A wipe *)

(** A pass on a cgroup whose programs are all gone attaches the cached lineages again. *)
Lemma rebuild_leaves id rules s s' :
  wf (kernel s) -> att (kernel s) = [] -> rules_ok rules ->
  Forall (lineage_ok sha256) (lineages (cache_get (cache s) id)) ->
  set_rules sha256 draws id rules s = (Ok tt, s') ->
  exists ls raws, Forall2 named (lineages (cache_get (cache s) id)) ls
    /\ Forall2 (rebuilt sha256 rules) ls raws /\ attached_bytes (kernel s') ≡ₚ Ok <$> raws.
Proof.
  intros Hw Ha Hr Hlo E. unfold set_rules in E. apply pass_bind in E as (r & s1 & (Eq & Ec1 & _)%call_run & E).
  destruct (law_query _ _ _ Hw Eq) as (F1 & A1 & X1). apply pass_bind in E as (a & s1' & [-> ->]%lift_run & E).
  destruct (Nat.ltb_spec 0 (inaccessible a)) as [|Hin]; [done|]. destruct (X1 a eq_refl) as [_ Htot]; [lia|].
  destruct (Nat.eqb_spec (total a) 0) as [_|Hz]; [|by rewrite Ha in Htot].
  unfold rebuild in E. apply pass_bind in E as (entry & s2 & Een & E). injection Een as <- <-. rewrite Ec1 in E.
  case_bool_decide; [done|]. apply pass_bind in E as (p & s3 & Ep & E).
  destruct (wp_run _ _ _ _ _ _ Ep (wp_add_rebuild sha256 draws draws_u64 (fun _ => True) _ _ _ _))
    as (Ek & _ & raws & ls & ns & HN & HB & HX).
  exists ls, raws. split_and!; [done..|]. destruct (rebuilt_ok sha256 sha256_32 rules _ ls raws Hr Hlo HN HB) as (_ & B2 & _).
  assert (classes sha256 (kernel s) []) as Hcl by (split; [by rewrite Ha|done]).
  assert (ready sha256 [] (loads empty_plan) []) as Hrd.
  { split_and!; [constructor|constructor|constructor|]. intros b Hb. by apply not_elem_of_nil in Hb. }
  assert (plan_chunks empty_plan []) as Hpc by done.
  destruct (ready_extends sha256 [] _ _ _ _ _ _ Hpc Hrd HX B2) as [C1 C2].
  rewrite <- Ha in E. destruct (commit_run (kernel s) [] id p _ true s3 s' Hw ltac:(rewrite Ek; by split) Hcl C1 C2 E) as (_ & Hb & _).
  destruct HX as (_ & HL & _). rewrite HL in Hb. done.
Qed.

(** The controller's state with another state of the kernel. *)
Definition at_kernel (k : K) (s : St) : St :=
  {| kernel := k; probe := probe s; cache := cache s; drawn := drawn s; trace := trace s |}.

(** Exactly one wrapper with these rules is attached for each of the originals, or
    exactly the originals when there are no rules. *)
Definition enforces_exactly (rules : list DeviceRule) (k : K) (originals : list (list Z)) : Prop :=
  exists E, attached_bytes k ≡ₚ Ok <$> E
    /\ Forall2 (fun o raw => if bool_decide (rules = []) then raw = o else exists n, emit rules n o = Ok raw) originals E.

Lemma rebuilt_exactly rules cached ls raws :
  Forall2 named cached ls -> Forall2 (rebuilt sha256 rules) ls raws ->
  Forall2 (fun o raw => if bool_decide (rules = []) then raw = o else exists n, emit rules n o = Ok raw)
    (lin_original <$> cached) raws.
Proof.
  intros HN. revert raws. induction HN as [|l l' cached ls (Ho & _) _ IH]; intros raws HB; inversion HB as [|? raw ? raws' [_ Hb] HB']; subst;
    csimpl; constructor; [|by apply IH]. rewrite Ho in Hb. case_bool_decide; [done|]. by eexists.
Qed.

Lemma perm_some (k k' : K) ls E :
  att k <> [] -> attached_bytes k = Ok <$> (lin_original <$> ls) -> length ls = length E ->
  attached_bytes k' ≡ₚ Ok <$> E -> att k' <> [].
Proof.
  intros Hne Hk Hl HP Hk'. apply Hne, nil_length_inv. apply (f_equal length) in Hk. apply Permutation_length in HP.
  unfold attached_bytes in Hk, HP. rewrite Hk' in HP. rewrite !length_fmap in HP. rewrite length_fmap in Hk. rewrite 2!length_fmap in Hk. cbn in HP. lia.
Qed.

Lemma keys_nodup ls : NoDup (lin_nonce <$> ls) -> NoDup ((fun l => (lin_nonce l, lin_original l)) <$> ls).
Proof.
  intros Hnd. apply (NoDup_fmap_1 fst). replace (fst <$> _) with (lin_nonce <$> ls); [done|].
  clear. induction ls as [|l ls IH]; csimpl; [done|by f_equal].
Qed.

(** C20. What is granted and revoked again leaves the filter as the runtime made it: where
    some programs are attached and none is a wrapper, no rebuild that stopped halfway is
    pending for the cgroup, and the nonces drawn differ, a grant of some rules, at most
    2^28 with numbers below 2^31, and then a revocation that succeed leave attached exactly
    the programs there were, each as often, byte for byte. (A grant that finishes a pending
    rebuild attaches what it had still to attach as well.) *)
Theorem grant_revoke_roundtrip id rules s s1 s2 :
  wf (kernel s) -> rules_ok rules -> rules <> [] -> att (kernel s) <> [] ->
  rebuilding (cache_get (cache s) id) = false -> all_bare (kernel s) -> fresh_draws s ->
  set_rules sha256 draws id rules s = (Ok tt, s1) -> set_rules sha256 draws id [] s1 = (Ok tt, s2) ->
  attached_bytes (kernel s2) ≡ₚ attached_bytes (kernel s).
Proof.
  intros Hw Hr Hne Hatt Hreb Hb Hf E1 E2.
  destruct (grant_wraps_bare _ _ _ _ Hw Hr Hne Hatt Hreb Hb Hf E1) as (ls & E & Hk & Hnd & HF & HP & Hw1 & Hreb1).
  destruct (revoke_restores _ _ _ _ _ _ Hw1 (perm_some _ _ _ _ Hatt Hk (Forall2_length _ _ _ HF) HP) Hreb1 HP HF
    (keys_nodup _ Hnd) E2) as [HP2 _]. by rewrite HP2, Hk.
Qed.

(** C21. A wipe is undone: when everything attached is lost after a grant that was made with
    programs attached and no rebuild pending, as at a reload of systemd, the next pass that succeeds, with the same rules, other ones or none, leaves
    exactly one program for each of the originals the grant had wrapped, which are the
    runtime's own programs if nothing was wrapped before. *)
Theorem wipe_undone id rules s s1 k rules' s2 :
  wf (kernel s) -> rules_ok rules -> rules <> [] -> att (kernel s) <> [] ->
  rebuilding (cache_get (cache s) id) = false -> set_rules sha256 draws id rules s = (Ok tt, s1) ->
  wf k -> att k = [] -> rules_ok rules' ->
  set_rules sha256 draws id rules' (at_kernel k s1) = (Ok tt, s2) ->
  exists originals, enforces_exactly rules (kernel s1) originals /\ enforces_exactly rules' (kernel s2) originals
    /\ (all_bare (kernel s) -> attached_bytes (kernel s) = Ok <$> originals).
Proof.
  intros Hw Hr Hne Hatt Hreb E1 Hwk Hak Hr' E2.
  destruct (grant_leaves _ _ _ _ Hw Hr Hne Hatt Hreb E1)
    as (cls & gs & bs & ns & E & Hcl & Eg & Hlen & _ & Hit & HF & HP & _ & Hen).
  destruct (rebuild_leaves id rules' (at_kernel k s1) s2 Hwk Hak Hr' ltac:(cbn; rewrite Hen; by eapply items_lineages) E2) as (ls & raws & HN & HB & HP2).
  cbn in HN. rewrite Hen in HN. cbn in HN. exists (lin_original <$> (grant_items gs bs ns).*2). split_and!.
  - exists E. split; [done|]. rewrite bool_decide_eq_false_2 by done. rewrite <- list_fmap_compose, Forall2_fmap_l.
    eapply Forall2_impl; [exact HF|]. intros it raw He. by eexists.
  - exists raws. split; [done|]. by eapply rebuilt_exactly.
  - intros Hb. destruct (bare_classes _ _ _ _ Hcl Hb Eg) as [-> ->]. unfold grant_items. csimpl.
    rewrite (classes_bytes _ _ Hcl), bare_items_lineages, bare_originals by done. done.
Qed.

End Exact.

(** ** Two programs that are the same *)

Module ExactExample.

#[local] Existing Instance Sample.little.

Definition two : FakeState := new_fake ["O1"; "O2"].

Lemma two_wf : wf (P := string) two.
Proof.
  constructor; cbn.
  - apply (bool_decide_eq_true_1 (NoDup ["O1"; "O2"])). by vm_compute.
  - intros p [->| ->%list_elem_of_singleton]%elem_of_cons n _ [=].
  - intros p l. by rewrite lookup_empty.
Qed.

Definition both : result fault unit * St := set_rules Sample.digest Demo.draws Demo.id Sample.rules (Demo.start two).
Definition back : result fault unit * St := set_rules Sample.digest Demo.draws Demo.id [] both.2.

Lemma both_outcome : Demo.outcome both =
  (Ok tt, ["N1"; "N2"], ["load N1"; "load N2"; "replace O1->N1"; "replace O2->N2"]).
Proof. vm_compute. reflexivity. Qed.

Lemma back_outcome : Demo.outcome back =
  (Ok tt, ["N3"; "N4"], ["load N1"; "load N2"; "replace O1->N1"; "replace O2->N2";
                         "load N3"; "load N4"; "replace N1->N3"; "replace N2->N4"]).
Proof. vm_compute. reflexivity. Qed.

Lemma two_bare : all_bare (P := string) Sample.digest two.
Proof. repeat constructor; eexists; (split; [reflexivity|]); vm_compute; reflexivity. Qed.

Lemma two_fresh : fresh_draws (P := string) Demo.draws (Demo.start two).
Proof.
  intros i j n Hi Hj E1 E2. change (length _) with 2%nat in Hi, Hj.
  destruct i as [|[|i]], j as [|[|j]]; try lia; vm_compute in E1, E2; congruence.
Qed.

(** The two programs of the runtime are the same; each is wrapped and comes back. *)
Lemma grant_revoke_roundtrip_witness :
  Demo.outcome back = (Ok tt, ["N3"; "N4"], ["load N1"; "load N2"; "replace O1->N1"; "replace O2->N2";
                         "load N3"; "load N4"; "replace N1->N3"; "replace N2->N4"])
  /\ attached_bytes (P := string) (kernel back.2) ≡ₚ attached_bytes (P := string) two.
Proof.
  split; [exact back_outcome|].
  exact (grant_revoke_roundtrip (P := string) Sample.digest Sample.digest_ok Demo.draws Demo.draws_u64 Demo.id
    Sample.rules (Demo.start two) both.2 back.2 two_wf Demo.rules_small ltac:(discriminate) ltac:(discriminate)
    eq_refl two_bare two_fresh (Demo.outcome_pass _ _ _ _ both_outcome) (Demo.outcome_pass _ _ _ _ back_outcome)).
Defined.

(** A wipe of both, and the pass after it, with other rules. *)
Definition wiped : FakeState := new_fake [].

Lemma wiped_wf : wf (P := string) wiped.
Proof.
  constructor; cbn; [constructor|by intros p ?%not_elem_of_nil|]. intros p l. by rewrite lookup_empty.
Qed.

Definition again : result fault unit * St := set_rules (P := string) Sample.digest Demo.draws Demo.id [] (at_kernel wiped both.2).

Lemma again_outcome : Demo.outcome again = (Ok tt, ["N1"; "N2"], ["load N1"; "load N2"; "attach N1"; "attach N2"]).
Proof. vm_compute. reflexivity. Qed.

Lemma wipe_undone_witness :
  exists originals, enforces_exactly (P := string) Sample.digest Sample.rules (kernel both.2) originals
    /\ enforces_exactly (P := string) Sample.digest [] (kernel again.2) originals
    /\ (all_bare (P := string) Sample.digest two -> attached_bytes (P := string) two = Ok <$> originals).
Proof.
  apply (wipe_undone (P := string) Sample.digest Sample.digest_ok Demo.draws Demo.draws_u64 Demo.id
    Sample.rules (Demo.start two) both.2 wiped [] again.2).
  - exact two_wf.
  - exact Demo.rules_small.
  - discriminate.
  - discriminate.
  - reflexivity.
  - exact (Demo.outcome_pass _ _ _ _ both_outcome).
  - exact wiped_wf.
  - reflexivity.
  - by split; [|vm_compute].
  - exact (Demo.outcome_pass _ _ _ _ again_outcome).
Defined.

End ExactExample.
