(* ===== verification/Ledger.v ===== *)
(** * The record of cgroup v1 grants (src/cgroup/ledger.rs)

    Per cgroup directory, the device permission bits the daemon itself added, as
    the ordered set the source keeps. A cgroup with no bits has no entry. *)

From S2P Require Import Prelude.
From S2P Require Import Text.
From S2P Require Import BTree.
From S2P Require Import V2.

Local Open Scope Z_scope.

(** [DevBit] of src/cgroup/v1set.rs: one access bit of one device; the kind is
    the byte [b'c'] or [b'b']. *)
Record DevBit := { b_kind : Z; b_major : Z; b_minor : Z; b_access : Z }.

#[global] Instance DevBit_eq_dec : EqDecision DevBit.
Proof. solve_decision. Defined.

(** [derive(Ord)]: by type, major, minor and access. *)
Definition bit_lt (x y : DevBit) : bool :=
  (b_kind x <? b_kind y)
  || ((b_kind x =? b_kind y)
      && ((b_major x <? b_major y)
          || ((b_major x =? b_major y)
              && ((b_minor x <? b_minor y)
                  || ((b_minor x =? b_minor y) && (b_access x <? b_access y)))))).

#[global] Instance DevBit_ord : Ord DevBit.
Proof.
  refine {| lt := bit_lt |}.
  - intros [k j n a]. unfold bit_lt. simpl. lia.
  - intros [k j n a] [k' j' n' a'] [k2 j2 n2 a2]. unfold bit_lt. simpl. lia.
  - intros [k j n a] [k' j' n' a']. unfold bit_lt. simpl. intros H1 H2. f_equal; lia.
Defined.

Abbreviation Ledger := (gmap Identity (list DevBit)).

(** [Ledger::forget], [owned], [add] and [remove]. *)
Definition ledger_forget (l : Ledger) (id : Identity) : Ledger := delete id l.

Definition owned (l : Ledger) (id : Identity) : list DevBit := default [] (l !! id).

Definition ledger_add (l : Ledger) (id : Identity) (bit : DevBit) : Ledger :=
  <[id := insert_ord bit (owned l id)]> l.

Definition ledger_remove (l : Ledger) (id : Identity) (bit : DevBit) : Ledger :=
  match l !! id with
  | None => l
  | Some bits =>
      let bits := remove_ord bit bits in
      if bool_decide (bits = []) then delete id l else <[id := bits]> l
  end.

(** ** Lemmas *)

(** Every record is a set, and none is empty. *)
Definition ledger_wf (l : Ledger) : Prop :=
  forall id s, l !! id = Some s -> is_set s /\ s <> [].

Lemma owned_add l id bit id' :
  owned (ledger_add l id bit) id'
    = if bool_decide (id' = id) then insert_ord bit (owned l id) else owned l id'.
Proof.
  unfold ledger_add, owned. case_bool_decide as Hd.
  - subst. by rewrite lookup_insert_eq.
  - by rewrite lookup_insert_ne.
Qed.

Lemma owned_remove l id bit id' :
  owned (ledger_remove l id bit) id'
    = if bool_decide (id' = id) then remove_ord bit (owned l id) else owned l id'.
Proof.
  unfold owned, ledger_remove. destruct (l !! id) as [s|] eqn:E; simpl.
  - case_bool_decide as Hs; case_bool_decide as Hd; subst;
      rewrite ?lookup_delete_eq, ?lookup_insert_eq, ?lookup_delete_ne, ?lookup_insert_ne by done; simpl;
      by rewrite ?Hs.
  - case_bool_decide as Hd; [subst; by rewrite E|done].
Qed.

Lemma ledger_add_wf l id bit : ledger_wf l -> ledger_wf (ledger_add l id bit).
Proof.
  intros Hw id' s. unfold ledger_add. intros [[-> <-]|[_ Hs]]%lookup_insert_Some; [|by apply (Hw id')].
  split.
  - apply insert_ord_set. unfold owned. destruct (l !! id') eqn:E; [by apply (Hw id')|constructor].
  - intros He. apply (not_elem_of_nil bit). rewrite <- He. apply elem_of_insert_ord. by left.
Qed.

Lemma ledger_remove_wf l id bit : ledger_wf l -> ledger_wf (ledger_remove l id bit).
Proof.
  intros Hw. unfold ledger_remove. destruct (l !! id) as [s|] eqn:E; [|done].
  case_bool_decide as Hs; intros id' s'.
  - intros [_ Hs']%lookup_delete_Some. by apply (Hw id').
  - intros [[-> <-]|[_ Hs']]%lookup_insert_Some; [|by apply (Hw id')].
    split; [|done]. apply filter_set. by apply (Hw id').
Qed.

Lemma owned_set l id : ledger_wf l -> is_set (owned l id).
Proof. intros Hw. unfold owned. destruct (l !! id) eqn:E; [by apply (Hw id)|constructor]. Qed.
