(* ===== verification/V1Set.v ===== *)
(** * The cgroup v1 controller (src/cgroup/v1set.rs)

    [devices.list] is parsed into entries; the bits the ledger owns are taken
    out of them to leave the runtime's baseline; the owned bits are then made
    equal to the desired ones by writes to [devices.deny] and [devices.allow].
    The [devices.*] files are reached through the [V1Files] interface; [trace]
    is a ghost record of the file states a call goes through. *)

From S2P Require Import Prelude.
From S2P Require Import Text.
From S2P Require Import Asm.
From S2P Require Import Codec.
From S2P Require Import Ebpf.
From S2P Require Import Owned.
From S2P Require Import V2Ops.
From S2P Require Import Errors.
From S2P Require Import V2.
From S2P Require Import BTree.
From S2P Require Import Ledger.

Local Open Scope Z_scope.

Definition ACC_READ : Z := 1.
Definition ACC_WRITE : Z := Z.shiftl 1 1.
Definition ACC_MKNOD : Z := Z.shiftl 1 2.
Definition ACCESS_BITS : list Z := [ACC_READ; ACC_WRITE; ACC_MKNOD].

Definition DEVICES_LIST : string := "devices.list".
Definition DEVICES_ALLOW : string := "devices.allow".
Definition DEVICES_DENY : string := "devices.deny".

Definition colon : Ascii.ascii := chr 58.

(** [WILDCARD] of this file, [b'a'] and the bytes of the kinds. *)
Definition ANY_NUMBER : Z := -1.
Definition KIND_ALL : Z := 97.

(** [kind.as_bytes()[0]], and [char::from]. *)
Definition first_byte (s : string) : Z :=
  match s with EmptyString => 0 | String c _ => Z.of_nat (ord c) end.
Definition kind_char (kind : Z) : string := of_char (chr (Z.to_nat kind)).

Definition access_string (mask : Z) : string :=
  (if negb (mask .& ACC_READ =? 0) then "r" else "")
  +:+ (if negb (mask .& ACC_WRITE =? 0) then "w" else "")
  +:+ (if negb (mask .& ACC_MKNOD =? 0) then "m" else "").

(** [DevBit::line]. *)
Definition line (b : DevBit) : string :=
  kind_char (b_kind b) +:+ " " +:+ pretty (b_major b) +:+ ":" +:+ pretty (b_minor b)
    +:+ " " +:+ access_string (b_access b).

(** ** The entries of [devices.list] *)

(** [ListEntry], the struct. *)
Record DevEntry := { e_kind : Z; e_major : Z; e_minor : Z; e_access : Z }.

#[global] Instance DevEntry_eq_dec : EqDecision DevEntry.
Proof. solve_decision. Defined.

(** [ListEntry::covers]. *)
Definition entry_covers (e : DevEntry) (b : DevBit) : bool :=
  ((e_kind e =? KIND_ALL) || (e_kind e =? b_kind b))
  && ((e_major e =? ANY_NUMBER) || (e_major e =? b_major b))
  && ((e_minor e =? ANY_NUMBER) || (e_minor e =? b_minor b))
  && negb (e_access e .& b_access b =? 0).

Definition covered (entries : list DevEntry) (b : DevBit) : bool :=
  existsb (fun entry => entry_covers entry b) entries.

(** The access mask of [rwm] letters; the first other letter is the error. *)
Fixpoint parse_access_from (mask : Z) (access : string) : result string Z :=
  match access with
  | EmptyString => Ok mask
  | String letter rest =>
      if bool_decide (of_char letter = "r") then parse_access_from (mask .| ACC_READ) rest
      else if bool_decide (of_char letter = "w") then parse_access_from (mask .| ACC_WRITE) rest
      else if bool_decide (of_char letter = "m") then parse_access_from (mask .| ACC_MKNOD) rest
      else Err (first_char access)
  end.

Definition parse_access (access : string) : result string Z := parse_access_from 0 access.

(** [str::parse::<i64>]: an optional sign, then digits taken from the left with
    checked arithmetic. *)
Fixpoint parse_digits (negative : bool) (acc : Z) (s : string) : result ParseIntError Z :=
  match s with
  | EmptyString => Ok acc
  | String c s =>
      if is_digit c then
        let d := Z.of_nat (ord c - 48) in
        let mul := acc * 10 in
        let next := if negative then mul - d else mul + d in
        if bool_decide (is_i 64 mul) && bool_decide (is_i 64 next)
        then parse_digits negative next s
        else Err (if negative then NegOverflow else PosOverflow)
      else Err InvalidDigit
  end.

Definition parse_i64 (s : string) : result ParseIntError Z :=
  match s with
  | EmptyString => Err EmptyInt
  | String c rest =>
      if bool_decide (of_char c = "-") then
        match rest with EmptyString => Err InvalidDigit | _ => parse_digits true 0 rest end
      else if bool_decide (of_char c = "+") then
        match rest with EmptyString => Err InvalidDigit | _ => parse_digits false 0 rest end
      else parse_digits false 0 s
  end.

Definition parse_num (field : string) : result ListEntryCause Z :=
  if bool_decide (field = "*") then Ok ANY_NUMBER
  else map_err (Number field) (parse_i64 field).

(** The body of [parse_devices_list] for one line that is not blank. *)
Definition parse_entry (line : string) : result Error DevEntry :=
  let malformed := ListEntry line in
  match split_whitespace line with
  | [kind; numbers; access] =>
      if negb (bool_decide (kind ∈ ["a"; "b"; "c"])) then Err (malformed None)
      else
        match split_on colon numbers with
        | [major; minor] =>
            major ← map_err (fun cause => malformed (Some cause)) (parse_num major);
            minor ← map_err (fun cause => malformed (Some cause)) (parse_num minor);
            access ← map_err (fun letter => malformed (Some (ListAccess letter))) (parse_access access);
            Ok {| e_kind := first_byte kind; e_major := major; e_minor := minor; e_access := access |}
        | _ => Err (malformed None)
        end
  | _ => Err (malformed None)
  end.

Fixpoint parse_items (items : list line_item) : result Error (list DevEntry) :=
  match items with
  | [] => Ok []
  | LineTooLong :: _ => Err ReadList
  | Line decoded :: items =>
      let line := trim is_whitespace decoded in
      if bool_decide (line = EmptyString) then parse_items items
      else
        entry ← parse_entry line;
        entries ← parse_items items;
        Ok (entry :: entries)
  end.

Definition parse_devices_list (data : string) : result Error (list DevEntry) :=
  parse_items (lines data).

(** An entry the daemon could have written into: no wildcard in it. *)
Definition is_exact (e : DevEntry) : bool :=
  negb (e_kind e =? KIND_ALL) && negb (e_major e =? ANY_NUMBER) && negb (e_minor e =? ANY_NUMBER).

Definition same_device (b : DevBit) (e : DevEntry) : bool :=
  (b_kind b =? e_kind e) && (b_major b =? e_major e) && (b_minor b =? e_minor e).

(** One turn of the loop over [owned]: [entry.access &= !bit.access]. *)
Definition clear_bit (e : DevEntry) (b : DevBit) : DevEntry :=
  if same_device b e
  then {| e_kind := e_kind e; e_major := e_major e; e_minor := e_minor e;
          e_access := Z.ldiff (e_access e) (b_access b) |}
  else e.

Definition without_owned (entries : list DevEntry) (owned : list DevBit) : list DevEntry :=
  filter (fun entry => e_access entry <> 0)
    ((fun entry => if is_exact entry then foldl clear_bit entry owned else entry) <$> entries).

(** The loop over [ACCESS_BITS] in [expand_rules]. *)
Definition insert_bits (kind maj min access : Z) (ones : list Z) (bits : list DevBit) : list DevBit :=
  foldl (fun bits one =>
    if access .& one =? 0 then bits
    else insert_ord {| b_kind := kind; b_major := maj; b_minor := min; b_access := one |} bits) bits ones.

(** [expand_rules]. *)
Definition expand_rule (bits : list DevBit) (r : DeviceRule) : result Error (list DevBit) :=
  if negb (allow r) then Err DenyRule
  else
    match major r, minor r with
    | Some maj, Some min =>
        if negb (bool_decide (kind r ∈ ["c"; "b"])) || (maj <? 0) || (min <? 0)
        then Err (ConcreteRule (go_struct_text r))
        else
          access ← map_err UnknownAccessLetter (parse_access (access r));
          Ok (insert_bits (first_byte (kind r)) maj min access ACCESS_BITS bits)
    | _, _ => Err (ConcreteRule (go_struct_text r))
    end.

Fixpoint expand_from (bits : list DevBit) (rules : list DeviceRule) : result Error (list DevBit) :=
  match rules with
  | [] => Ok bits
  | r :: rules => bits ← expand_rule bits r; expand_from bits rules
  end.

Definition expand_rules (rules : list DeviceRule) : result Error (list DevBit) := expand_from [] rules.

(** ** The files *)

(** [V1Files], on the directory of the call's handle: reads and writes of the
    [devices.*] files in a state of type [F]. *)
Class V1Files (F : Type) := {
  v1_read : string -> F -> result FileError string * F;
  v1_write : string -> string -> F -> result FileError unit * F;
}.

(** The system calls [OpenatFiles] makes relative to the directory descriptor;
    errors are errnos. *)
Class DirSys (F : Type) := {
  Fd : Type;
  openat_rdonly : string -> F -> result Z Fd * F;
  openat_wronly : string -> F -> result Z Fd * F;
  read_to_end : Fd -> F -> result Z string * F;
  write_all : Fd -> string -> F -> result Z unit * F;
}.

Definition openat_read {F} `{DirSys F} (name : string) (f : F) : result FileError string * F :=
  let '(r, f) := openat_rdonly name f in
  match r with
  | Err errno => (Err (OpenFile name errno), f)
  | Ok fd =>
      let '(r, f) := read_to_end fd f in
      (map_err (ReadFile name) r, f)
  end.

Definition openat_write {F} `{DirSys F} (name text : string) (f : F) : result FileError unit * F :=
  let '(r, f) := openat_wronly name f in
  match r with
  | Err errno => (Err (OpenFile name errno), f)
  | Ok fd =>
      let '(r, f) := write_all fd text f in
      (map_err (WriteFile text name) r, f)
  end.

(** [impl V1Files for OpenatFiles]. *)
Definition OpenatFiles {F} `{DirSys F} : V1Files F :=
  {| v1_read := openat_read; v1_write := openat_write |}.

(** ** Setting the rules *)

Record V1State (F : Type) := { files : F; ledger : Ledger; v1_trace : list F }.
Arguments files {F} _.
Arguments ledger {F} _.
Arguments v1_trace {F} _.

Section SetRules.
Context {F : Type} `{V1Files F}.

Abbreviation State := (V1State F).

Definition VM (A : Type) : Type := State -> result Error A * State.

#[global] Instance VM_ret : MRet VM := fun A a s => (Ok a, s).
#[global] Instance VM_bind : MBind VM := fun A B k m s =>
  match m s with
  | (Ok a, s) => k a s
  | (Err e, s) => (Err e, s)
  end.

Definition vlift {A} (r : result Error A) : VM A := fun s => (r, s).

Definition file_call {A} (op : F -> result FileError A * F) : VM (result FileError A) := fun s =>
  let '(r, f) := op (files s) in
  (Ok r, {| files := f; ledger := ledger s; v1_trace := v1_trace s ++ [f] |}).

Definition with_ledger (g : Ledger -> Ledger) : VM unit := fun s =>
  (Ok tt, {| files := files s; ledger := g (ledger s); v1_trace := v1_trace s |}).

Definition get_owned (id : Identity) : VM (list DevBit) := fun s => (Ok (owned (ledger s) id), s).

Definition read_list : VM (list DevEntry) :=
  r ← file_call (v1_read DEVICES_LIST);
  data ← vlift (map_err File r);
  vlift (parse_devices_list data).

(** The loop over [owned_old]; it gives the bits it forgot. *)
Fixpoint revoke_loop (id : Identity) (baseline : list DevEntry) (owned_new : list DevBit)
    (forgotten owned_old : list DevBit) : VM (list DevBit) :=
  match owned_old with
  | [] => mret forgotten
  | bit :: owned_old =>
      if contains_ord bit owned_new then revoke_loop id baseline owned_new forgotten owned_old
      else if covered baseline bit then
        _ ← with_ledger (fun l => ledger_remove l id bit);
        revoke_loop id baseline owned_new (insert_ord bit forgotten) owned_old
      else
        r ← file_call (v1_write DEVICES_DENY (line bit));
        _ ← vlift (map_err (Revoke (line bit)) r);
        _ ← with_ledger (fun l => ledger_remove l id bit);
        revoke_loop id baseline owned_new forgotten owned_old
  end.

(** The loop over [owned_new]; it gives the grants that failed. *)
Fixpoint grant_loop (id : Identity) (entries : list DevEntry) (errors : list Error)
    (owned_new : list DevBit) : VM (list Error) :=
  match owned_new with
  | [] => mret errors
  | bit :: owned_new =>
      if covered entries bit then
        _ ← with_ledger (fun l => ledger_add l id bit);
        grant_loop id entries errors owned_new
      else
        r ← file_call (v1_write DEVICES_ALLOW (line bit));
        match r with
        | Err source => grant_loop id entries (errors ++ [Grant (line bit) source]) owned_new
        | Ok _ =>
            _ ← with_ledger (fun l => ledger_add l id bit);
            grant_loop id entries errors owned_new
        end
  end.

(** The text of a bit that is effective and should not be, or the reverse. *)
Definition mismatch (after : list DevEntry) (owned_new : list DevBit) (bit : DevBit) : option string :=
  let want := contains_ord bit owned_new in
  if bool_decide (covered after bit = want) then None
  else Some (line bit +:+ " (want " +:+ (if want then "true" else "false") +:+ ")").

(** What [verify] checks of a list of entries. *)
Definition check_drift (after : list DevEntry) (owned_old owned_new forgotten : list DevBit)
    : result Error unit :=
  let checked := collect_set (filter (fun bit => bit ∉ forgotten) owned_old ++ owned_new) in
  let mismatched := omap (mismatch after owned_new) checked in
  if bool_decide (mismatched = []) then Ok tt else Err (Drift mismatched).

(** [verify]: its result is a value, for [set_device_rules] goes on. *)
Definition verify (owned_old owned_new forgotten : list DevBit) : VM (result Error unit) := fun s =>
  let '(r, s) := read_list s in
  (Ok match r with
      | Err e => Err (Verify e)
      | Ok after => check_drift after owned_old owned_new forgotten
      end, s).

Definition set_device_rules (id : Identity) (rules : list DeviceRule) : VM unit :=
  desired ← vlift (expand_rules rules);
  entries ← read_list;
  owned_old ← get_owned id;
  let baseline := without_owned entries owned_old in
  let owned_new := filter (fun bit => covered baseline bit = false) desired in
  forgotten ← revoke_loop id baseline owned_new [] owned_old;
  errors ← grant_loop id entries [] owned_new;
  r ← verify owned_old owned_new forgotten;
  let errors := match r with Err e => errors ++ [e] | Ok _ => errors end in
  if bool_decide (errors = []) then mret tt else vlift (Err (Joined errors)).

End SetRules.
