(* ===== verification/V1Proofs.v ===== *)
(** * Reasoning about the cgroup v1 controller

    What an exception list covers, what taking bits out of it does, the laws
    the [devices.*] files keep, and what each loop of the controller leaves. *)

From S2P Require Import Prelude.
From S2P Require Import Text.
From S2P Require Import Ebpf.
From S2P Require Import Errors.
From S2P Require Import V2.
From S2P Require Import BTree.
From S2P Require Import Ledger.
From S2P Require Import V1Set.

Local Open Scope Z_scope.

Lemma Ok_inj {E A} (a b : A) : @Ok E A a = Ok b -> a = b.
Proof. by intros [= ->]. Qed.

(** ** Bits and coverage *)

(** The bits the daemon can own: a character or block device with concrete
    numbers, and one access bit. *)
Record bit_ok (b : DevBit) : Prop := {
  ok_kind : b_kind b = 98 \/ b_kind b = 99;
  ok_major : 0 <= b_major b < 2 ^ 63;
  ok_minor : 0 <= b_minor b < 2 ^ 63;
  ok_access : b_access b = 1 \/ b_access b = 2 \/ b_access b = 4;
}.

(** The entries no exact write touches. *)
Definition wild (es : list DevEntry) : list DevEntry := filter (fun e => is_exact e = false) es.

Lemma one_hot_land m a :
  a = 1 \/ a = 2 \/ a = 4 -> (m .& a =? 0) = negb (Z.testbit m (Z.log2 a)).
Proof.
  intros Ha. assert (a = 2 ^ Z.log2 a) as E by (destruct Ha as [->|[->| ->]]; reflexivity).
  assert (0 <= Z.log2 a) as Hn by apply Z.log2_nonneg.
  rewrite E at 1. destruct (Z.testbit m (Z.log2 a)) eqn:Et; simpl.
  - apply Z.eqb_neq. intros H0. assert (Z.testbit (m .& 2 ^ Z.log2 a) (Z.log2 a) = true) as Hb.
    { by rewrite Z.land_spec, Et, Z.pow2_bits_true. }
    by rewrite H0, Z.bits_0 in Hb.
  - apply Z.eqb_eq, Z.bits_inj_0. intros i. rewrite Z.land_spec.
    destruct (Z.eq_dec i (Z.log2 a)) as [->|Hi]; [by rewrite Et|].
    destruct (Z.lt_ge_cases i 0); [by rewrite Z.testbit_neg_r|].
    rewrite Z.pow2_bits_false by lia. apply andb_false_r.
Qed.

(** Clearing one access bit clears that one only. *)
Lemma ldiff_one_hot m a b :
  (a = 1 \/ a = 2 \/ a = 4) -> (b = 1 \/ b = 2 \/ b = 4) ->
  negb (Z.ldiff m b .& a =? 0) = negb (m .& a =? 0) && negb (a =? b).
Proof.
  intros Ha Hb. rewrite !one_hot_land, !negb_involutive by done.
  rewrite Z.ldiff_spec. f_equal. f_equal.
  destruct Ha as [->|[->| ->]], Hb as [->|[->| ->]]; reflexivity.
Qed.

Lemma clear_bit_exact e b : is_exact (clear_bit e b) = is_exact e.
Proof. unfold clear_bit. by case_match. Qed.

Lemma clear_bit_covers e b x :
  is_exact e = true -> bit_ok b -> bit_ok x ->
  entry_covers (clear_bit e b) x = entry_covers e x && negb (bool_decide (x = b)).
Proof.
  intros He Hb Hx. unfold is_exact in He. unfold clear_bit.
  destruct (same_device b e) eqn:Es.
  - unfold entry_covers. simpl. rewrite ldiff_one_hot by (apply Hx || apply Hb).
    unfold same_device in Es. destruct x as [k j n a], b as [k' j' n' a']. simpl in *.
    case_bool_decide as Hd; [injection Hd; intros; subst; rewrite Z.eqb_refl; simpl; by rewrite !andb_false_r|].
    rewrite andb_true_r. destruct (a =? a') eqn:Ea; simpl; [|by rewrite andb_true_r].
    rewrite !andb_false_r. symmetry. apply not_true_is_false. intros Ec. apply Hd. f_equal; lia.
  - case_bool_decide as Hd; [|by rewrite andb_true_r]. subst b. rewrite andb_false_r.
    unfold entry_covers. unfold same_device in Es. lia.
Qed.

Lemma clear_all_covers e bs x :
  is_exact e = true -> Forall bit_ok bs -> bit_ok x ->
  entry_covers (foldl clear_bit e bs) x = entry_covers e x && negb (bool_decide (x ∈ bs)).
Proof.
  intros He Hbs Hx. revert e He. induction Hbs as [|b bs Hb _ IH]; intros e He; simpl.
  - by rewrite andb_true_r.
  - rewrite IH by (by rewrite clear_bit_exact). rewrite clear_bit_covers by done.
    rewrite <- andb_assoc. f_equal. do 3 case_bool_decide; set_solver.
Qed.

Lemma covered_true es x : covered es x = true <-> exists e, e ∈ es /\ entry_covers e x = true.
Proof.
  unfold covered. rewrite existsb_exists. by setoid_rewrite list_elem_of_In.
Qed.

Lemma zero_access_covers e x : e_access e = 0 -> entry_covers e x = false.
Proof. intros E. unfold entry_covers. rewrite E. by rewrite andb_false_r. Qed.

(** What is left after the owned bits are taken out. *)
Lemma covered_without_owned es bs x :
  Forall bit_ok bs -> bit_ok x ->
  covered (without_owned es bs) x = if bool_decide (x ∈ bs) then covered (wild es) x else covered es x.
Proof.
  intros Hbs Hx. induction es as [|e es IH]; [by case_match|].
  unfold without_owned in *. rewrite fmap_cons, filter_cons. unfold wild. rewrite filter_cons.
  fold (wild es).
  set (e' := if is_exact e then foldl clear_bit e bs else e).
  assert (entry_covers e' x = entry_covers e x && (negb (bool_decide (x ∈ bs)) || negb (is_exact e))) as He'.
  { unfold e'. destruct (is_exact e) eqn:Ee; [rewrite clear_all_covers by done|];
      by rewrite ?orb_false_r, ?orb_true_r, ?andb_true_r. }
  assert (forall P, Decision P -> (~ P -> e_access e' = 0) ->
    forall (d : Decision P) l, covered (if d then e' :: l else l) x = entry_covers e' x || covered l x) as Hif.
  { intros P _ Hz [Hp|Hn] l; [done|]. by rewrite (zero_access_covers e') by auto. }
  rewrite Hif by (apply _ || (intros Hn; by apply dec_stable)). rewrite IH, He'.
  destruct (is_exact e) eqn:Ee; simpl; case_bool_decide; simpl;
    rewrite ?andb_false_r, ?andb_true_r, ?orb_false_l; try done;
    by rewrite decide_True || by rewrite decide_False.
Qed.

(** ** What the kernel's files promise *)

(** The exceptions behind a state of the [devices.*] files. *)
Class ExceptionView (F : Type) := {
  files_wf : F -> Prop;
  exceptions : F -> list DevEntry;
}.

(** The documented behaviour of a cgroup v1 device whitelist: [devices.list] is
    the exceptions, an exact line written to [devices.allow] adds its bit, one
    written to [devices.deny] takes it out of the exact entry, no exact write
    changes a wildcard entry, and a write that fails changes nothing. *)
Class V1Laws (F : Type) `{V1Files F} `{ExceptionView F} := {
  law_v1_read f r f' :
    files_wf f -> v1_read DEVICES_LIST f = (r, f') ->
    files_wf f' /\ exceptions f' = exceptions f
    /\ forall data, r = Ok data -> parse_devices_list data = Ok (exceptions f);

  law_v1_allow f b r f' :
    files_wf f -> bit_ok b -> v1_write DEVICES_ALLOW (line b) f = (r, f') ->
    files_wf f' /\
    match r with
    | Ok _ => forall x, bit_ok x ->
        covered (exceptions f') x = covered (exceptions f) x || bool_decide (x = b)
        /\ covered (wild (exceptions f')) x = covered (wild (exceptions f)) x
    | Err _ => exceptions f' = exceptions f
    end;

  law_v1_deny f b r f' :
    files_wf f -> bit_ok b -> v1_write DEVICES_DENY (line b) f = (r, f') ->
    files_wf f' /\
    match r with
    | Ok _ => forall x, bit_ok x ->
        covered (exceptions f') x = covered (without_owned (exceptions f) [b]) x
        /\ covered (wild (exceptions f')) x = covered (wild (exceptions f)) x
    | Err _ => exceptions f' = exceptions f
    end;
}.

(** ** Reasoning about a call *)

Section Calls.
Context {F : Type} `{V1Files F}.

Definition vwp {A} (I : F -> Prop) (m : VM A) (Q : result Error A -> V1State F -> Prop)
    (s : V1State F) : Prop :=
  let '(r, s') := m s in
  (exists t, v1_trace s' = v1_trace s ++ t /\ Forall I t) /\ Q r s'.

Lemma vwp_mono {A} I (m : VM A) (Q Q' : result Error A -> V1State F -> Prop) s :
  vwp I m Q s -> (forall r s', Q r s' -> Q' r s') -> vwp I m Q' s.
Proof. unfold vwp. destruct (m s) as [r s']. intros [Ht HQ] Himp. auto. Qed.

Lemma vwp_bind {A B} I (m : VM A) (k : A -> VM B) (Q : result Error B -> V1State F -> Prop) s :
  vwp I m (fun r s' => match r with Ok a => vwp I (k a) Q s' | Err e => Q (Err e) s' end) s ->
  vwp I (m ≫= k) Q s.
Proof.
  unfold vwp, mbind, VM_bind. destruct (m s) as [[a|e] s1]; [|done].
  intros [(t1 & E1 & F1) HQ]. destruct (k a s1) as [r s2].
  destruct HQ as [(t2 & E2 & F2) HQ]. split; [|done]. exists (t1 ++ t2).
  rewrite E2, E1, app_assoc. split; [done|]. by apply Forall_app_2.
Qed.

Lemma vwp_ret {A} I (a : A) (Q : result Error A -> V1State F -> Prop) s :
  Q (Ok a) s -> vwp I (mret a) Q s.
Proof. intros HQ. split; [|done]. exists []. by rewrite app_nil_r. Qed.

Lemma vwp_lift {A} I (r : result Error A) (Q : result Error A -> V1State F -> Prop) s :
  Q r s -> vwp I (vlift r) Q s.
Proof. intros HQ. split; [|done]. exists []. by rewrite app_nil_r. Qed.

Lemma vwp_ledger I g (Q : result Error unit -> V1State F -> Prop) s :
  Q (Ok tt) {| files := files s; ledger := g (ledger s); v1_trace := v1_trace s |} ->
  vwp I (with_ledger g) Q s.
Proof. intros HQ. split; [|done]. exists []. by rewrite app_nil_r. Qed.

Lemma vwp_owned I id (Q : result Error (list DevBit) -> V1State F -> Prop) s :
  Q (Ok (owned (ledger s) id)) s -> vwp I (get_owned id) Q s.
Proof. intros HQ. split; [|done]. exists []. by rewrite app_nil_r. Qed.

Lemma vwp_call {A} (I : F -> Prop) (op : F -> result FileError A * F)
    (Q : result Error (result FileError A) -> V1State F -> Prop) s :
  (forall r f, op (files s) = (r, f) ->
     I f /\ Q (Ok r) {| files := f; ledger := ledger s; v1_trace := v1_trace s ++ [f] |}) ->
  vwp I (file_call op) Q s.
Proof.
  intros HQ. unfold vwp, file_call. destruct (op (files s)) as [r f].
  destruct (HQ r f eq_refl) as [Hi Hq]. split; [|done]. exists [f]. by repeat constructor.
Qed.

End Calls.

(** ** The loops *)

Section Loops.
Context {F : Type} `{V1Laws F}.
Context (id : Identity) (e0 : list DevEntry) (old : list DevBit).

Abbreviation State := (V1State F).
Abbreviation base := (without_owned e0 old).
Abbreviation cov s := (covered (exceptions (files s))).

(** The runtime's own exceptions are effective. *)
Definition keeps (f : F) : Prop :=
  forall x, bit_ok x -> covered base x = true -> covered (exceptions f) x = true.

(** The invariant of a call: the baseline is effective, the wildcard entries
    are as at its start, and every effective bit outside the baseline is
    recorded. *)
Record good (s : State) : Prop := {
  good_wf : files_wf (files s);
  good_keeps : keeps (files s);
  good_wild x : bit_ok x -> covered (wild (exceptions (files s))) x = covered (wild e0) x;
  good_owned x : bit_ok x -> cov s x = true -> covered base x = true \/ x ∈ owned (ledger s) id;
}.

(** Where two states differ in one cgroup's record only. *)
Definition same_others (s s' : State) : Prop :=
  forall id', id' <> id -> owned (ledger s') id' = owned (ledger s) id'.

Context (old_ok : Forall bit_ok old).

(** A bit outside the baseline is covered by no wildcard. *)
Lemma not_base_not_wild x : bit_ok x -> covered base x = false -> covered (wild e0) x = false.
Proof.
  intros Hx Hb. destruct (covered (wild e0) x) eqn:E; [|done]. exfalso.
  rewrite covered_without_owned in Hb by done. case_bool_decide; [congruence|].
  apply not_true_iff_false in Hb. apply Hb. apply covered_true in E as (e & [_ He]%list_elem_of_filter & Hc).
  apply covered_true. by exists e.
Qed.

(** Denying a bit outside the baseline takes that bit away, and no other. *)
Lemma deny_covered s b f r :
  good s -> bit_ok b -> covered base b = false ->
  v1_write DEVICES_DENY (line b) (files s) = (Ok r, f) ->
  forall x, bit_ok x -> covered (exceptions f) x = cov s x && negb (bool_decide (x = b)).
Proof.
  intros Hg Hb Hn E x Hx. destruct (law_v1_deny _ _ _ _ (good_wf _ Hg) Hb E) as [_ Hl].
  destruct (Hl x Hx) as [-> _]. rewrite covered_without_owned by (done || by apply Forall_singleton).
  repeat case_bool_decide; simpl; rewrite ?andb_true_r, ?andb_false_r; try set_solver.
  subst x. rewrite (good_wild _ Hg) by done. by apply not_base_not_wild.
Qed.

Lemma good_ledger_remove s b :
  good s -> (bit_ok b -> cov s b = true -> covered base b = true) ->
  good {| files := files s; ledger := ledger_remove (ledger s) id b; v1_trace := v1_trace s |}.
Proof.
  intros [G1 G2 G3 G4] Hb. constructor; try done. simpl. intros x Hx Hc.
  rewrite owned_remove, bool_decide_eq_true_2 by done. rewrite elem_of_remove_ord.
  destruct (decide (x = b)) as [->|]; [left; by apply Hb|]. destruct (G4 x Hx Hc); auto.
Qed.

Lemma good_ledger_add s b :
  good s ->
  good {| files := files s; ledger := ledger_add (ledger s) id b; v1_trace := v1_trace s |}.
Proof.
  intros [G1 G2 G3 G4]. constructor; try done. simpl. intros x Hx Hc.
  rewrite owned_add, (bool_decide_eq_true_2 (id = id)) by done. rewrite elem_of_insert_ord.
  destruct (G4 x Hx Hc); auto.
Qed.

(** A state whose files differ from [s]'s by a call that changed nothing. *)
Lemma good_same s f t :
  good s -> files_wf f -> exceptions f = exceptions (files s) ->
  good {| files := f; ledger := ledger s; v1_trace := t |}.
Proof.
  intros [G1 G2 G3 G4] Hw E. constructor; try done; simpl; rewrite ?E; try done.
  unfold keeps. by rewrite E.
Qed.

(** The files after a successful revocation, with the bit out of the record. *)
Lemma good_deny s b f r t :
  good s -> bit_ok b -> covered base b = false ->
  v1_write DEVICES_DENY (line b) (files s) = (Ok r, f) ->
  good {| files := f; ledger := ledger s; v1_trace := t |}.
Proof.
  intros Hg Hb Hn E. pose proof (deny_covered s b f r Hg Hb Hn E) as Hc.
  destruct (law_v1_deny _ _ _ _ (good_wf _ Hg) Hb E) as [Hw Hl].
  destruct Hg as [G1 G2 G3 G4]. constructor; simpl; [done| | |].
  - intros x Hx Hbx. rewrite Hc, G2 by done. case_bool_decide; [congruence|done].
  - intros x Hx. destruct (Hl x Hx) as [_ ->]. by apply G3.
  - intros x Hx. rewrite Hc by done. intros [Hcx _]%andb_true_iff. by apply G4.
Qed.

Lemma good_allow s b f r t :
  good s -> bit_ok b ->
  v1_write DEVICES_ALLOW (line b) (files s) = (Ok r, f) ->
  good {| files := f; ledger := ledger_add (ledger s) id b; v1_trace := t |}.
Proof.
  intros Hg Hb E. destruct (law_v1_allow _ _ _ _ (good_wf _ Hg) Hb E) as [Hw Hl].
  destruct Hg as [G1 G2 G3 G4]. constructor; simpl; [done| | |].
  - intros x Hx Hbx. destruct (Hl x Hx) as [-> _]. by rewrite G2.
  - intros x Hx. destruct (Hl x Hx) as [_ ->]. by apply G3.
  - intros x Hx. destruct (Hl x Hx) as [-> _]. rewrite owned_add, (bool_decide_eq_true_2 (id = id)) by done.
    rewrite elem_of_insert_ord. intros [Hcx|Heq%bool_decide_eq_true_1]%orb_true_iff; [|by auto].
    destruct (G4 x Hx Hcx); auto.
Qed.
(** What revoking the bits [l] leaves of [s]. *)
Record revoked (new fg l : list DevBit) (s : State) (r : result Error (list DevBit)) (s' : State)
    : Prop := {
  rev_good : good s';
  rev_less x : bit_ok x -> cov s' x = true -> cov s x = true;
  rev_kept x : bit_ok x -> cov s x = true -> x ∈ new \/ x ∉ l -> cov s' x = true;
  rev_owned x : x ∈ owned (ledger s') id -> x ∈ owned (ledger s) id;
  rev_others : same_others s s';
  rev_result :
    match r with
    | Ok fg' =>
        (forall x, x ∈ owned (ledger s') id <-> x ∈ owned (ledger s) id /\ (x ∈ l -> x ∈ new))
        /\ (forall x, x ∈ fg' <-> x ∈ fg \/ (x ∈ l /\ x ∉ new /\ covered base x = true))
        /\ (forall x, x ∈ l -> x ∉ new -> covered base x = false -> cov s' x = false)
    | Err e => exists b src, e = Revoke (line b) src /\ b ∈ l
    end;
}.

(** One revocation, then the rest. *)
Lemma revoked_cons new fg fg1 b l s s1 r s' :
  b ∉ new -> bit_ok b ->
  (forall x, bit_ok x -> cov s1 x = cov s x && (covered base b || negb (bool_decide (x = b)))) ->
  ledger s1 = ledger_remove (ledger s) id b ->
  (forall x, x ∈ fg1 <-> x ∈ fg \/ (x = b /\ covered base b = true)) ->
  revoked new fg1 l s1 r s' -> revoked new fg (b :: l) s r s'.
Proof.
  intros Hnb Hb Hc El Hfg [R1 R2 R3 R4 R5 R6].
  assert (forall x, x ∈ owned (ledger s1) id <-> x <> b /\ x ∈ owned (ledger s) id) as Ho.
  { intros x. rewrite El, owned_remove, bool_decide_eq_true_2 by done. apply elem_of_remove_ord. }
  constructor; [done|..].
  - intros x Hx Hs'. specialize (R2 x Hx Hs'). rewrite Hc in R2 by done. by apply andb_true_iff in R2 as [? _].
  - intros x Hx Hs Hor. apply R3; [done| |set_solver]. rewrite Hc, Hs by done.
    rewrite bool_decide_eq_false_2 by set_solver. by rewrite orb_true_r.
  - intros x Hx%R4. by apply Ho.
  - intros id' Hid. rewrite R5 by done. by rewrite El, owned_remove, bool_decide_eq_false_2.
  - destruct r as [fg'|e].
    + destruct R6 as (Q1 & Q2 & Q3). split_and!.
      * intros x. rewrite Q1, Ho. destruct (decide (x = b)) as [->|]; set_solver.
      * intros x. rewrite Q2, Hfg. destruct (decide (x = b)) as [->|]; set_solver.
      * intros x [->|Hx]%elem_of_cons Hn Hbase; [|by apply Q3].
        destruct (cov s' b) eqn:E; [|done]. specialize (R2 b Hb E). rewrite Hc, Hbase in R2 by done.
        rewrite bool_decide_eq_true_2, andb_false_r in R2; done.
    + destruct R6 as (b' & src & -> & Hb'). exists b', src. set_solver.
Qed.

Lemma revoke_loop_spec new l fg s :
  Forall bit_ok l -> good s -> vwp keeps (revoke_loop id base new fg l) (revoked new fg l s) s.
Proof.
  intros Hl. revert fg s. induction Hl as [|b l Hb Hl IH]; intros fg s Hg; simpl.
  { apply vwp_ret. constructor; try done. split_and!; set_solver. }
  destruct (contains_ord b new) eqn:Ein.
  { apply contains_ord_spec in Ein. eapply vwp_mono; [by apply IH|].
    intros r s' [R1 R2 R3 R4 R5 R6]. constructor; try done.
    - intros x Hx Hs Hor. apply R3; [done|done|set_solver].
    - destruct r as [fg'|e]; [|destruct R6 as (b' & src & -> & Hb'); exists b', src; set_solver].
      destruct R6 as (Q1 & Q2 & Q3). split_and!; [| |set_solver].
      + intros x. rewrite Q1. destruct (decide (x = b)) as [->|]; set_solver.
      + intros x. rewrite Q2. destruct (decide (x = b)) as [->|]; set_solver. }
  assert (b ∉ new) as Hnb by (intros Hin%contains_ord_spec; congruence).
  destruct (covered base b) eqn:Eb.
  - apply vwp_bind, vwp_ledger. eapply vwp_mono; [apply IH; by apply good_ledger_remove|].
    intros r s'. apply revoked_cons; try done.
    + intros x Hx. rewrite Eb. simpl. by rewrite andb_true_r.
    + intros x. rewrite elem_of_insert_ord, Eb. naive_solver.
  - apply vwp_bind, vwp_call. intros [[]|src] f E.
    + pose proof (fun t => good_deny s b f tt t Hg Hb Eb E) as Hg1. split; [apply (Hg1 [])|].
      apply vwp_bind, vwp_lift. simpl. apply vwp_bind, vwp_ledger.
      pose proof (deny_covered s b f tt Hg Hb Eb E) as Hc.
      eapply vwp_mono; [apply IH; apply (good_ledger_remove {| files := f; ledger := ledger s |})|].
      * apply Hg1.
      * intros _. simpl. rewrite Hc, bool_decide_eq_true_2, andb_false_r by done. done.
      * intros r s'. apply revoked_cons; try done; intros x; rewrite Eb; [|naive_solver].
        intros Hx. by apply Hc.
    + destruct (law_v1_deny _ _ _ _ (good_wf _ Hg) Hb E) as [Hw Ee].
      pose proof (fun t => good_same s f t Hg Hw Ee) as Hg1. split; [apply (Hg1 [])|].
      apply vwp_bind, vwp_lift. simpl. constructor; simpl; rewrite ?Ee; try done.
      exists b, src. set_solver.
Qed.

Definition is_grant (e : Error) : Prop := exists b src, e = Grant (line b) src.

(** What granting the bits [l] leaves of [s], with the errors [errs] before. *)
Record granted (errs : list Error) (l : list DevBit) (s : State) (r : result Error (list Error))
    (s' : State) : Prop := {
  gr_good : good s';
  gr_more x : bit_ok x -> cov s x = true -> cov s' x = true;
  gr_only x : bit_ok x -> cov s' x = true -> cov s x = true \/ x ∈ l;
  gr_grown x : x ∈ owned (ledger s) id -> x ∈ owned (ledger s') id;
  gr_owned x : x ∈ owned (ledger s') id -> x ∈ owned (ledger s) id \/ (x ∈ l /\ cov s' x = true);
  gr_others : same_others s s';
  gr_result : exists errs', r = Ok (errs ++ errs')
    /\ Forall is_grant errs'
    /\ (errs' = [] -> forall x, x ∈ l -> x ∈ owned (ledger s') id /\ cov s' x = true);
}.

(** One grant, then the rest. *)
Lemma granted_cons errs b l s s1 r s' :
  bit_ok b -> cov s1 b = true ->
  (forall x, bit_ok x -> cov s1 x = cov s x || bool_decide (x = b)) ->
  ledger s1 = ledger_add (ledger s) id b ->
  granted errs l s1 r s' -> granted errs (b :: l) s r s'.
Proof.
  intros Hb Hbc Hc El [R1 R2 R3 R4 R5 R6 R7].
  assert (forall x, x ∈ owned (ledger s1) id <-> x = b \/ x ∈ owned (ledger s) id) as Ho.
  { intros x. rewrite El, owned_add, bool_decide_eq_true_2 by done. apply elem_of_insert_ord. }
  constructor; [done|..].
  - intros x Hx Hs. apply R2; [done|]. by rewrite Hc, Hs.
  - intros x Hx Hs. destruct (R3 x Hx Hs) as [Hs1|]; [|set_solver].
    rewrite Hc in Hs1 by done. apply orb_true_iff in Hs1 as [|Heq%bool_decide_eq_true_1]; set_solver.
  - intros x Hx. apply R4, Ho. by right.
  - intros x [[->|]%Ho|[Hx ?]]%R5; [right; split; [by left|by apply R2]|by left|].
    right. split; [by right|done].
  - intros id' Hid. rewrite R6 by done. by rewrite El, owned_add, bool_decide_eq_false_2.
  - destruct R7 as (errs' & -> & Hf & Hg). exists errs'. split_and!; [done|done|].
    intros He x [->|Hx]%elem_of_cons; [|by apply Hg]. split; [apply R4, Ho; by left|by apply R2].
Qed.

Lemma grant_loop_spec l errs s :
  Forall bit_ok l -> (forall x, x ∈ l -> covered e0 x = true -> cov s x = true) -> good s ->
  vwp keeps (grant_loop id e0 errs l) (granted errs l s) s.
Proof.
  intros Hl. revert errs s. induction Hl as [|b l Hb Hl IH]; intros errs s Hpre Hg; simpl.
  { apply vwp_ret. constructor; try done; try by auto. exists []. rewrite app_nil_r.
    split_and!; [done|done|]. intros _ x Hx. by apply not_elem_of_nil in Hx. }
  destruct (covered e0 b) eqn:Eb.
  - apply vwp_bind, vwp_ledger. assert (cov s b = true) as Hcb by (apply Hpre; [by left|done]).
    eapply vwp_mono; [apply IH; [|by apply good_ledger_add]; intros x Hx; apply Hpre; by right|].
    intros r s'. apply granted_cons; try done. intros x Hx. simpl.
    case_bool_decide as Heq; [subst x; by rewrite Hcb|by rewrite orb_false_r].
  - apply vwp_bind, vwp_call. intros [[]|src] f E.
    + destruct (law_v1_allow _ _ _ _ (good_wf _ Hg) Hb E) as [Hw Hlaw].
      pose proof (fun t => good_allow s b f tt t Hg Hb E) as Hg1. split; [apply (Hg1 [])|].
      apply vwp_bind, vwp_ledger.
      eapply vwp_mono; [apply IH; [|apply Hg1]|].
      * intros x Hx Hc. simpl. destruct (Hlaw x) as [-> _]; [by eapply Forall_forall|].
        rewrite Hpre; [done|by right|done].
      * intros r s'. apply granted_cons; try done; simpl.
        -- destruct (Hlaw b Hb) as [-> _]. rewrite bool_decide_eq_true_2 by done. apply orb_true_r.
        -- intros x Hx. by apply Hlaw.
    + destruct (law_v1_allow _ _ _ _ (good_wf _ Hg) Hb E) as [Hw Ee].
      pose proof (fun t => good_same s f t Hg Hw Ee) as Hg1. split; [apply (Hg1 [])|].
      eapply vwp_mono; [apply IH; [|apply Hg1]; simpl; rewrite Ee; intros x Hx; apply Hpre; by right|].
      intros r s' [R1 R2 R3 R4 R5 R6 R7]. simpl in *. rewrite Ee in *. constructor; try done.
      * intros x Hx Hs. destruct (R3 x Hx Hs); set_solver.
      * intros x Hx. destruct (R5 x Hx) as [|[]]; set_solver.
      * destruct R7 as (errs' & -> & Hf & _). exists (Grant (line b) src :: errs').
        rewrite <- app_assoc. split_and!; [done|constructor; [by exists b, src|done]|done].
Qed.

Lemma read_list_spec s :
  good s ->
  vwp keeps read_list (fun r s' => good s' /\ ledger s' = ledger s
    /\ exceptions (files s') = exceptions (files s)
    /\ match r with Ok es => es = exceptions (files s) | Err e => exists src, e = File src end) s.
Proof.
  intros Hg. unfold read_list. apply vwp_bind, vwp_call. intros r f E.
  destruct (law_v1_read _ _ _ (good_wf _ Hg) E) as (Hw & Ee & Hp).
  pose proof (fun t => good_same s f t Hg Hw Ee) as Hg1. split; [apply (Hg1 [])|].
  apply vwp_bind, vwp_lift. destruct r as [data|e]; simpl; [|split_and!; [done..|by exists e]].
  apply vwp_lift. rewrite (Hp data eq_refl). by split_and!.
Qed.

End Loops.

(** ** The verification *)

Lemma check_drift_Ok after old new fg :
  check_drift after old new fg = Ok tt
  <-> forall b, (b ∈ old /\ b ∉ fg) \/ b ∈ new -> covered after b = contains_ord b new.
Proof.
  unfold check_drift. set (ch := collect_set _).
  assert (forall b, b ∈ ch <-> (b ∈ old /\ b ∉ fg) \/ b ∈ new) as Hch.
  { intros b. unfold ch. rewrite elem_of_collect_set, elem_of_app, list_elem_of_filter. naive_solver. }
  setoid_rewrite <- Hch. clearbody ch. clear Hch.
  transitivity (omap (mismatch after new) ch = []); [case_bool_decide; naive_solver|].
  induction ch as [|b ch IH]; [set_solver|]. csimpl. unfold mismatch at 1.
  case_bool_decide as Hm; simpl.
  - rewrite IH. split; [|set_solver]. intros Hall x [->|]%elem_of_cons; [done|by apply Hall].
  - split; [done|]. intros Hall. exfalso. apply Hm, Hall. by left.
Qed.

(** ** The whole call *)

#[local] Arguments insert_bits : simpl never.

(** The numbers of a rule are [i64] values. *)
Definition rule_i64 (r : DeviceRule) : Prop :=
  (forall m, major r = Some m -> is_i 64 m) /\ (forall m, minor r = Some m -> is_i 64 m).

Lemma expand_rule_ok bits r bits' :
  rule_i64 r -> Forall bit_ok bits -> expand_rule bits r = Ok bits' -> Forall bit_ok bits'.
Proof.
  intros [Hj Hn] Hb He. unfold expand_rule in He. destruct (negb (allow r)); [done|].
  destruct (major r) as [maj|], (minor r) as [min|]; try done.
  specialize (Hj _ eq_refl). specialize (Hn _ eq_refl).
  destruct (bool_decide (kind r ∈ ["c"; "b"])) eqn:Ek; simpl in He; [|done].
  destruct (Z.ltb_spec maj 0), (Z.ltb_spec min 0); simpl in He; try done.
  apply bind_Ok in He as (mask & _ & <-%Ok_inj). apply bool_decide_eq_true_1 in Ek. unfold is_i in Hj, Hn. change (64 - 1) with 63 in *.
  assert (forall a, a ∈ ACCESS_BITS -> bit_ok {| b_kind := first_byte (kind r); b_major := maj;
    b_minor := min; b_access := a |}) as Hbit.
  { intros a Ha. constructor; simpl; [|lia|lia|].
    - rewrite !elem_of_cons in Ek. destruct Ek as [->|[->|Ek]]; [by right|by left|].
      by apply not_elem_of_nil in Ek.
    - unfold ACCESS_BITS in Ha. rewrite !elem_of_cons in Ha.
      destruct Ha as [->|[->|[->|Ha]]]; [by auto..|]. by apply not_elem_of_nil in Ha. }
  revert Hbit Hb. generalize ACCESS_BITS. clear. unfold insert_bits. intros l. revert bits.
  induction l as [|a l IH]; intros bits Hbit Hb; simpl; [done|].
  apply IH; [set_solver|]. case_match; [done|].
  rewrite Forall_forall in *. intros y [->|Hy]%elem_of_insert_ord; [apply Hbit; by left|by apply Hb].
Qed.

Lemma expand_rules_ok rules bits :
  Forall rule_i64 rules -> expand_rules rules = Ok bits -> Forall bit_ok bits.
Proof.
  unfold expand_rules. intros Hr. assert (Forall bit_ok []) as Hn by constructor. revert Hn.
  generalize (@nil DevBit). induction Hr as [|r rules Hr _ IH]; intros l Hl He; simpl in He; inv_ok.
  - done.
  - eapply IH; [|exact He]. by eapply expand_rule_ok.
Qed.

Lemma expand_rules_set rules bits : expand_rules rules = Ok bits -> is_set bits.
Proof.
  unfold expand_rules. assert (is_set (@nil DevBit)) as Hn by constructor. revert Hn.
  generalize (@nil DevBit). induction rules as [|r rules IH]; intros l Hl He; simpl in He; inv_ok; [done|].
  eapply IH; [|exact He]. clear He. unfold expand_rule in E.
  repeat split_match E. apply bind_Ok in E as (mask & _ & <-%Ok_inj). revert Hl. unfold insert_bits. generalize ACCESS_BITS. clear. intros l0. revert l.
  induction l0 as [|a l0 IH0]; intros l Hl; simpl; [done|]. apply IH0. case_match; [done|].
  by apply insert_ord_set.
Qed.

(** The errors of expanding rules. *)
Lemma expand_rules_Err rules e :
  expand_rules rules = Err e ->
  match e with DenyRule | ConcreteRule _ | UnknownAccessLetter _ => True | _ => False end.
Proof.
  unfold expand_rules. generalize (@nil DevBit).
  induction rules as [|r rules IH]; intros l He; cbn [expand_from] in He; [done|].
  destruct (expand_rule l r) as [l'|e'] eqn:E; cbn in He; [by apply (IH l')|].
  injection He as <-. unfold expand_rule in E. destruct (negb (allow r)); [by injection E as <-|].
  destruct (major r) as [maj|], (minor r) as [min|]; try by injection E as <-.
  destruct (_ || _); [by injection E as <-|].
  destruct (parse_access (access r)); cbn in E; [done|by injection E as <-].
Qed.

Section Whole.
Context {F : Type} `{V1Laws F}.

Abbreviation State := (V1State F).
Abbreviation cov s := (covered (exceptions (files s))).

(** The runtime's exceptions in [s], as the controller computes them. *)
Definition baseline_of (s : State) (id : Identity) : list DevEntry :=
  without_owned (exceptions (files s)) (owned (ledger s) id).

(** The errors of a file that could not be read or written. *)
Definition file_failure (e : Error) : Prop :=
  match e with
  | File _ | Revoke _ _ | Grant _ _ | Verify (File _) => True
  | _ => False
  end.

(** What a call leaves, whatever its result: an error other than a failed
    grant or verification adds nothing, and no error is a drift alone. *)
Record set_result (id : Identity) (rules : list DeviceRule) (s : State) (r : result Error unit)
    (s' : State) : Prop := {
  sr_good : good id (exceptions (files s)) (owned (ledger s) id) s';
  sr_others : same_others id s s';
  sr_recorded x : x ∈ owned (ledger s') id -> x ∈ owned (ledger s) id \/ cov s' x = true;
  sr_result :
    match r with
    | Ok _ => exists desired, expand_rules rules = Ok desired
        /\ (forall x, x ∈ owned (ledger s') id <-> x ∈ desired /\ covered (baseline_of s id) x = false)
        /\ (forall x, x ∈ desired -> cov s' x = true)
    | Err e =>
        match e with
        | Joined errors => Exists file_failure errors
        | _ => (file_failure e \/ expand_rules rules = Err e)
            /\ forall x, bit_ok x -> cov s' x = true -> cov s x = true
        end
    end;
}.

Lemma good_start s id :
  files_wf (files s) -> Forall bit_ok (owned (ledger s) id) ->
  good id (exceptions (files s)) (owned (ledger s) id) s.
Proof.
  intros Hw Ho. constructor; [done| |done|].
  - intros x Hx. rewrite covered_without_owned by done. case_bool_decide; [|done].
    intros (e & [_ He]%list_elem_of_filter & Hc)%covered_true. apply covered_true. by exists e.
  - intros x Hx Hc. rewrite covered_without_owned by done. case_bool_decide; auto.
Qed.

(** The last part of a call: the list is read again, and the errors joined. *)
Lemma verify_spec id rules s desired errs fg s3 :
  let old := owned (ledger s) id in
  let new := filter (fun bit => covered (baseline_of s id) bit = false) desired in
  expand_rules rules = Ok desired -> Forall bit_ok desired ->
  good id (exceptions (files s)) old s3 -> same_others id s s3 ->
  (forall x, x ∈ owned (ledger s3) id -> x ∈ old \/ cov s3 x = true) ->
  Forall is_grant errs ->
  (errs = [] -> check_drift (exceptions (files s3)) old new fg = Ok tt) ->
  (errs = [] -> forall x, (x ∈ owned (ledger s3) id <-> x ∈ new) /\ (x ∈ new -> cov s3 x = true)) ->
  vwp (keeps (exceptions (files s)) old)
    (r ← verify old new fg;
     let errors := match r with Ok _ => errs | Err e => errs ++ [e] end in
     if bool_decide (errors = []) then mret tt else vlift (Err (Joined errors)))
    (set_result id rules s) s3.
Proof.
  intros old new Ed Hd T1 Hoth Hrec Tf Hdrift Hexact.
  apply vwp_bind. unfold verify. unfold vwp at 1.
  pose proof (read_list_spec id (exceptions (files s)) old s3 T1) as HR. unfold vwp in HR.
  destruct (read_list s3) as [r s4]. destruct HR as (Ht & G4 & L4 & E4 & X4). split; [done|].
  set (r' := match r with Ok _ => _ | Err _ => _ end).
  assert (same_others id s s4) as Hoth4 by (intros id' Hid; rewrite L4; by apply Hoth).
  assert (forall x, x ∈ owned (ledger s4) id -> x ∈ old \/ cov s4 x = true) as Hrec4
    by (intros x; rewrite L4, E4; apply Hrec).
  cbv zeta. case_bool_decide as Herr.
  2: { apply vwp_lift. constructor; try done. destruct Tf as [|er errs Hgr].
       - unfold r' in *. destruct r as [after|e]; [subst after; by rewrite Hdrift in Herr|].
         destruct X4 as [src ->]. by apply Exists_cons_hd.
       - destruct Hgr as (b & src & ->). destruct r'; by apply Exists_cons_hd. }
  apply vwp_ret. constructor; try done.
  assert (errs = []) as Hnil by (destruct r'; [done|by apply app_eq_nil in Herr as [_ ?]]).
  specialize (Hexact Hnil). exists desired. split; [done|]. split.
  - intros x. rewrite L4. rewrite (proj1 (Hexact x)). unfold new. rewrite list_elem_of_filter. tauto.
  - intros x Hx. destruct (covered (baseline_of s id) x) eqn:Eb.
    + apply (good_keeps _ _ _ _ G4); [exact (proj1 (Forall_forall _ _) Hd x Hx)|done].
    + rewrite E4. apply Hexact. by apply list_elem_of_filter.
Qed.

Lemma set_device_rules_spec id rules s :
  files_wf (files s) -> Forall bit_ok (owned (ledger s) id) -> Forall rule_i64 rules ->
  vwp (keeps (exceptions (files s)) (owned (ledger s) id)) (set_device_rules id rules)
    (set_result id rules s) s.
Proof.
  intros Hw Ho Hr. pose proof (good_start s id Hw Ho) as Hg0. unfold set_device_rules.
  apply vwp_bind, vwp_lift. destruct (expand_rules rules) as [desired|e] eqn:Ed.
  2: { pose proof (expand_rules_Err _ _ Ed) as He.
       constructor; try done; [by auto|]. destruct e; try done; split; auto. }
  pose proof (expand_rules_ok _ _ Hr Ed) as Hd.
  apply vwp_bind. eapply vwp_mono; [by apply read_list_spec|].
  intros r s1 (G1 & L1 & E1 & X1). destruct r as [es|e].
  2: { destruct X1 as [src ->]. constructor; try done; rewrite ?L1; [intros id' _; by rewrite L1|by auto|].
       split; [by left|]. intros x _. by rewrite E1. }
  subst es.
  apply vwp_bind, vwp_owned. rewrite L1. cbv zeta.
  set (e0 := exceptions (files s)) in *. set (old := owned (ledger s) id) in *.
  set (base := without_owned e0 old) in *.
  set (new := filter (fun bit => covered base bit = false) desired).
  assert (Forall bit_ok new) as Hnew 
    by (apply Forall_forall; intros x [_ Hx]%list_elem_of_filter; by eapply Forall_forall).
  apply vwp_bind. eapply vwp_mono; [by apply (revoke_loop_spec id e0 old Ho new old [] s1)|].
  intros r s2 [R1 R2 R3 R4 R5 R6]. rewrite E1, L1 in *.
  destruct r as [fg|e].
  2: { destruct R6 as (b & src & -> & _). constructor; try done.
       - intros id' Hid. rewrite R5 by done. by rewrite L1.
       - intros x Hx%R4. by left.
       - split; [by left|done]. }
  destruct R6 as (Q1 & Q2 & Q3).
  apply vwp_bind. eapply vwp_mono; [apply (grant_loop_spec id e0 old Ho new [] s2); [done| |done]|].
  { intros x Hx Hc. apply R3; [by eapply Forall_forall|done|by left]. }
  intros r s3 [T1 T2 T3 T4 T5 T6 (errs & -> & Tf & T7)]. simpl.
  apply (verify_spec id rules s desired errs fg s3); try done.
  - intros id' Hid. by rewrite T6, R5, L1 by done.
  - intros x [Hx|[_ Hx]]%T5; [left|by right]. by apply R4.
  - intros ->. change (filter _ desired) with new. apply check_drift_Ok.
    intros b Hb. destruct (contains_ord b new) eqn:Ein.
    + by apply T7, contains_ord_spec.
    + assert (b ∉ new) as Hnb by (rewrite <- contains_ord_spec; congruence).
      destruct Hb as [[Hbo Hbf]|]; [|done]. pose proof (proj1 (Forall_forall _ _) Ho b Hbo) as Hbok.
      assert (covered base b = false) as Hbase.
      { apply not_true_is_false. intros Hbb. apply Hbf, Q2. by right. }
      apply not_true_is_false. intros [Hs2|]%T3; [|done..]. by rewrite Q3 in Hs2.
  - intros -> x. change (filter _ desired) with new. split; [|by apply T7]. split; [|by apply T7].
    intros [[Hx1 Hx2]%Q1|[Hx _]]%T5; [by apply Hx2|done].
Qed.

End Whole.
