(* ===== verification/V1Model.v ===== *)
(** * A model of the kernel behind a cgroup v1 directory

    The model of the repository's tests (src/cgroup/v1set/tests.rs): the
    exceptions as a list, an exact write changing the entry of its device, and
    injected failures. It keeps the laws of [V1Laws], which takes that the text
    it shows as [devices.list] parses back to its entries. *)

From S2P Require Import Prelude.
From S2P Require Import Text.
From S2P Require Import TextProofs.
From S2P Require Import Ebpf.
From S2P Require Import Errors.
From S2P Require Import V2.
From S2P Require Import BTree.
From S2P Require Import Ledger.
From S2P Require Import V1Set.
From S2P Require Import V1Proofs.

Local Open Scope Z_scope.

(** ** Printing entries *)

Definition format_number (n : Z) : string := if n =? ANY_NUMBER then "*" else pretty n.

Definition format_entry (e : DevEntry) : string :=
  kind_char (e_kind e) +:+ " " +:+ (format_number (e_major e) +:+ ":" +:+ format_number (e_minor e))
    +:+ " " +:+ access_string (e_access e).

Definition number_ok (n : Z) : Prop := n = ANY_NUMBER \/ 0 <= n < 2 ^ 63.

(** The entries the kernel shows. *)
Record entry_ok (e : DevEntry) : Prop := {
  eok_kind : e_kind e = 97 \/ e_kind e = 98 \/ e_kind e = 99;
  eok_major : number_ok (e_major e);
  eok_minor : number_ok (e_minor e);
  eok_access : 1 <= e_access e <= 7;
}.

Lemma digits_nonspace s :
  all_chars is_digit s = true -> all_chars (fun c => negb (is_whitespace c)) s = true.
Proof.
  apply all_chars_impl. intros c. unfold is_digit, is_whitespace. cbv zeta.
  intros [H1%Nat.leb_le H2%Nat.leb_le]%andb_true_iff.
  destruct (Nat.leb_spec (ord c) 13), (Nat.eqb_spec (ord c) 32); lia.
Qed.

Lemma digits_nocolon s :
  all_chars is_digit s = true -> all_chars (fun c => negb (bool_decide (c = colon))) s = true.
Proof. apply all_chars_impl. intros c Hc. rewrite bool_decide_eq_false_2; [done|]. by intros ->. Qed.

Lemma parse_digits_go x s :
  (Z.of_N x < 2 ^ 63) -> parse_digits false 0 (pretty_N_go x s) = parse_digits false (Z.of_N x) s.
Proof.
  revert s. induction (N.lt_wf_0 x) as [x _ IH]; intros s Hx.
  destruct (decide (x = 0%N)) as [->|H0]; [by rewrite pretty_N_go_0|].
  rewrite pretty_N_go_step by lia.
  assert (x / 10 < x)%N as Hlt by (apply N.div_lt; lia).
  assert (x mod 10 < 10)%N as Hmod by (apply N.mod_lt; lia).
  rewrite IH by lia. cbn [parse_digits].
  destruct (digit_char (x mod 10) Hmod) as [-> ->].
  assert (Z.of_N (x / 10) * 10 + Z.of_N (x mod 10) = Z.of_N x) as ->.
  { pose proof (N.div_mod x 10). lia. }
  pose proof (N.div_mod x 10 ltac:(lia)) as Hdm. revert Hdm Hmod Hlt Hx. clear.
  generalize (x / 10)%N (x mod 10)%N. intros q m Hdm Hmod Hlt Hx.
  rewrite !bool_decide_eq_true_2 by (unfold is_i; change (64 - 1) with 63; lia). done.
Qed.

Lemma parse_i64_pretty z : 0 <= z < 2 ^ 63 -> parse_i64 (pretty z) = Ok z.
Proof.
  intros Hz. pose proof (pretty_Z_digits z ltac:(lia)) as Hd.
  assert (parse_digits false 0 (pretty z) = Ok z) as Hp.
  { rewrite pretty_Z_nonneg by lia. case_decide as H0; [by subst|].
    rewrite parse_digits_go by lia. cbn. by rewrite Z2N.id by lia. }
  destruct (pretty z) as [|c s] eqn:E; [by apply pretty_Z_nonempty in E; [|lia]|].
  unfold parse_i64. cbn [all_chars] in Hd. apply andb_true_iff in Hd as [Hc _].
  rewrite !bool_decide_eq_false_2; [exact Hp|..]; by intros [= ->].
Qed.

Lemma parse_num_format n : number_ok n -> parse_num (format_number n) = Ok n.
Proof.
  intros Hn. unfold format_number, parse_num. destruct (Z.eqb_spec n ANY_NUMBER) as [->|Hne]; [done|].
  destruct Hn as [|Hn]; [done|]. pose proof (pretty_Z_digits n ltac:(lia)) as Hd.
  rewrite bool_decide_eq_false_2; [by rewrite parse_i64_pretty|]. intros E. by rewrite E in Hd.
Qed.

Lemma format_number_chars n :
  number_ok n ->
  all_chars (fun c => negb (is_whitespace c)) (format_number n) = true
  /\ all_chars (fun c => negb (bool_decide (c = colon))) (format_number n) = true
  /\ no_newline (format_number n) = true
  /\ (Strings.String.length (format_number n) <= 19)%nat.
Proof.
  intros Hn. unfold format_number. destruct (Z.eqb_spec n ANY_NUMBER) as [->|Hne]; [cbn; split_and!; (done || lia)|].
  destruct Hn as [|Hn]; [done|]. pose proof (pretty_Z_digits n ltac:(lia)) as Hd.
  split_and!; [by apply digits_nonspace|by apply digits_nocolon| |by apply pretty_Z_length].
  revert Hd. generalize (pretty n). intros s. induction s as [|c s IH]; [done|].
  cbn [all_chars no_newline]. intros [Hc Hs]%andb_true_iff. rewrite (IH Hs), andb_true_r.
  rewrite bool_decide_eq_false_2; [done|]. by intros ->.
Qed.

(** The seven masks. *)
Lemma access_cases (P : Z -> Prop) :
  P 1 -> P 2 -> P 3 -> P 4 -> P 5 -> P 6 -> P 7 -> forall a, 1 <= a <= 7 -> P a.
Proof.
  intros. assert (a = 1 \/ a = 2 \/ a = 3 \/ a = 4 \/ a = 5 \/ a = 6 \/ a = 7) as Ha by lia.
  naive_solver.
Qed.

Lemma access_string_ok a :
  1 <= a <= 7 ->
  is_field (access_string a) /\ parse_access (access_string a) = Ok a
  /\ trim_end is_whitespace (access_string a) = access_string a
  /\ no_newline (access_string a) = true /\ ends_with_return (access_string a) = false
  /\ (Strings.String.length (access_string a) <= 3)%nat.
Proof. revert a. apply access_cases; (split_and!; first [by split|reflexivity|vm_compute; lia]). Qed.

Lemma parse_format_entry e : entry_ok e -> parse_entry (format_entry e) = Ok e.
Proof.
  intros [Hk Hj Hn Ha]. unfold parse_entry, format_entry.
  destruct (format_number_chars _ Hj) as (J1 & J2 & _), (format_number_chars _ Hn) as (N1 & N2 & _).
  destruct (access_string_ok _ Ha) as (A1 & A2 & _).
  rewrite split_whitespace_three; [|..|done].
  - rewrite bool_decide_eq_true_2.
    + cbn [negb]. change (":" +:+ ?s) with (String colon s).
      rewrite split_on_two, split_on_one by done. rewrite !parse_num_format, A2 by done. cbn.
      destruct e as [k j n a]. cbn in *. do 2 f_equal. by destruct Hk as [->|[->| ->]].
    + destruct Hk as [->|[->| ->]]; cbn; set_solver.
  - destruct Hk as [->|[->| ->]]; by split.
  - split; [by destruct (format_number (e_major e))|].
    rewrite !all_chars_app, J1, N1. done.
Qed.

Lemma trim_end_fix p a b :
  b <> "" /\ trim_end p b = b -> a +:+ b <> "" /\ trim_end p (a +:+ b) = a +:+ b.
Proof.
  intros [Hb E]. split; [by destruct a|]. rewrite trim_end_app; rewrite E; done.
Qed.

Lemma format_entry_line e :
  entry_ok e ->
  plain_line (format_entry e) = true /\ trim is_whitespace (format_entry e) = format_entry e
  /\ format_entry e <> "".
Proof.
  intros [Hk Hj Hn Ha]. unfold format_entry.
  destruct (format_number_chars _ Hj) as (_ & _ & J3 & J4), (format_number_chars _ Hn) as (_ & _ & N3 & N4).
  destruct (access_string_ok _ Ha) as ([A0 _] & _ & A3 & A4 & A5 & A6).
  set (a := access_string (e_access e)) in *. set (nums := format_number _ +:+ _).
  assert (no_newline nums = true /\ (Strings.String.length nums <= 39)%nat) as [Nn Nl].
  { unfold nums. rewrite !no_newline_app, !length_append, J3, N3. cbn. split; [done|lia]. }
  split_and!; [|unfold trim|].
  - unfold plain_line. rewrite !no_newline_app, Nn, A4.
    change (?x +:+ " " +:+ nums +:+ " " +:+ a) with (x +:+ (" " +:+ (nums +:+ (" " +:+ a)))).
    rewrite !ends_with_return_app, A5.
    + rewrite !length_append. change (Strings.String.length (kind_char (e_kind e))) with 1%nat. cbn [Strings.String.length]. rewrite !andb_true_iff, Z.ltb_lt. unfold MAX_LINE.
      split_and!; first [done|lia|by destruct Hk as [->|[->| ->]]].
    + done.
    + by destruct a.
    + by destruct nums.
    + done.
  - assert (trim_start is_whitespace (kind_char (e_kind e) +:+ " " +:+ nums +:+ " " +:+ a)
      = kind_char (e_kind e) +:+ " " +:+ nums +:+ " " +:+ a) as ->
      by (by destruct Hk as [->|[->| ->]]).
    do 4 (apply trim_end_fix). done.
  - by destruct Hk as [->|[->| ->]].
Qed.

Lemma parse_items_format es : Forall entry_ok es -> parse_items (Line <$> (format_entry <$> es)) = Ok es.
Proof.
  induction 1 as [|e es He _ IH]; [done|]. csimpl.
  destruct (format_entry_line e He) as (_ & -> & Hne). rewrite bool_decide_eq_false_2 by done.
  rewrite parse_format_entry by done. cbn. by rewrite IH.
Qed.

Lemma plain_formats es : Forall entry_ok es -> forallb plain_line (format_entry <$> es) = true.
Proof.
  induction 1 as [|e es He _ IH]; [done|]. csimpl. destruct (format_entry_line e He) as (-> & _). done.
Qed.

(** ** The model *)

Record ModelFiles := {
  m_entries : list DevEntry;
  m_fail : list string;
  m_writes : list string;
}.

(** The errno of an injected failure. *)
Definition INJECTED : Z := 5.

Definition same_entry (r e : DevEntry) : bool :=
  (e_kind e =? e_kind r) && (e_major e =? e_major r) && (e_minor e =? e_minor r).

Definition with_access (e : DevEntry) (a : Z) : DevEntry :=
  {| e_kind := e_kind e; e_major := e_major e; e_minor := e_minor e; e_access := a |}.

(** A write to [devices.allow], and one to [devices.deny]. *)
Fixpoint model_allow (r : DevEntry) (es : list DevEntry) : list DevEntry :=
  match es with
  | [] => [r]
  | e :: es =>
      if same_entry r e then with_access e (e_access e .| e_access r) :: es
      else e :: model_allow r es
  end.

Fixpoint model_deny (r : DevEntry) (es : list DevEntry) : list DevEntry :=
  match es with
  | [] => []
  | e :: es =>
      if same_entry r e then
        let a := Z.ldiff (e_access e) (e_access r) in
        if a =? 0 then es else with_access e a :: es
      else e :: model_deny r es
  end.

Definition model_read (name : string) (m : ModelFiles) : result FileError string * ModelFiles :=
  if bool_decide ("read" ∈ m_fail m) then (Err (OpenFile name INJECTED), m)
  else (Ok (unlines (format_entry <$> m_entries m)), m).

Definition model_write (name text : string) (m : ModelFiles) : result FileError unit * ModelFiles :=
  let is_allow := bool_decide (name = DEVICES_ALLOW) in
  let call := (if is_allow then "allow " else "deny ") +:+ text in
  let m := {| m_entries := m_entries m; m_fail := m_fail m; m_writes := m_writes m ++ [call] |} in
  if bool_decide (call ∈ m_fail m) then (Err (WriteFile text name INJECTED), m)
  else
    match parse_devices_list text with
    | Ok [r] =>
        (Ok tt, {| m_entries := (if is_allow then model_allow else model_deny) r (m_entries m);
                   m_fail := m_fail m; m_writes := m_writes m |})
    | _ => (Err (WriteFile text name INJECTED), m)
    end.

#[global] Instance ModelFilesOps : V1Files ModelFiles :=
  {| v1_read := model_read; v1_write := model_write |}.

(** Entries of distinct devices. *)
Definition distinct (es : list DevEntry) : Prop :=
  NoDup ((fun e => (e_kind e, e_major e, e_minor e)) <$> es).

#[global] Instance ModelView : ExceptionView ModelFiles := {
  files_wf m := Forall entry_ok (m_entries m) /\ distinct (m_entries m);
  exceptions := m_entries;
}.

(** ** It keeps the laws *)

Definition entry_of (b : DevBit) : DevEntry :=
  {| e_kind := b_kind b; e_major := b_major b; e_minor := b_minor b; e_access := b_access b |}.

Lemma entry_of_ok b : bit_ok b -> entry_ok (entry_of b).
Proof.
  intros [Hk Hj Hn Ha]. constructor; simpl; [tauto|by right|by right|lia].
Qed.

Lemma line_format b : bit_ok b -> line b = format_entry (entry_of b).
Proof.
  intros [Hk Hj Hn Ha]. unfold line, format_entry, format_number, ANY_NUMBER. simpl e_major. simpl e_minor.
  rewrite !(proj2 (Z.eqb_neq _ _)) by lia. unfold entry_of. cbn [e_kind e_access].
  by rewrite !append_assoc.
Qed.

Lemma parse_line_entry b : bit_ok b -> parse_devices_list (line b) = Ok [entry_of b].
Proof.
  intros Hb. pose proof (entry_of_ok b Hb) as He. rewrite (line_format b Hb).
  destruct (format_entry_line _ He) as (Hp & _ & Hne).
  unfold parse_devices_list. rewrite lines_single by done.
  apply (parse_items_format [entry_of b]). by constructor.
Qed.

Lemma same_entry_device b e : same_entry (entry_of b) e = same_device b e.
Proof. unfold same_entry, same_device. simpl. lia. Qed.

Lemma same_device_exact b e : bit_ok b -> same_device b e = true -> is_exact e = true.
Proof.
  intros [Hk Hj Hn Ha] Hs. unfold same_device in Hs. unfold is_exact, KIND_ALL, ANY_NUMBER. lia.
Qed.

Lemma allow_covers b e x :
  bit_ok b -> bit_ok x -> same_device b e = true ->
  entry_covers (with_access e (e_access e .| b_access b)) x = entry_covers e x || bool_decide (x = b).
Proof.
  intros Hb Hx Hs. pose proof (same_device_exact b e Hb Hs) as He. unfold entry_covers. simpl.
  assert (negb ((e_access e .| b_access b) .& b_access x =? 0)
    = negb (e_access e .& b_access x =? 0) || (b_access x =? b_access b)) as ->.
  { rewrite !one_hot_land, !negb_involutive, Z.lor_spec by apply Hx. f_equal.
    destruct (ok_access _ Hx) as [->|[->| ->]], (ok_access _ Hb) as [->|[->| ->]]; reflexivity. }
  unfold same_device in Hs. unfold is_exact in He. destruct x as [k j n a], b as [k' j' n' a']. simpl in *.
  case_bool_decide as Hd.
  - injection Hd as -> -> -> ->. rewrite orb_true_r. lia.
  - rewrite orb_false_r. destruct (Z.eqb_spec a a') as [->|]; [|by rewrite orb_false_r].
    assert (~ (k = k' /\ j = j' /\ n = n')) as Hne by naive_solver. rewrite orb_true_r, andb_true_r. lia.
Qed.

Lemma entry_of_covers b x :
  bit_ok b -> bit_ok x -> entry_covers (entry_of b) x = bool_decide (x = b).
Proof.
  intros Hb Hx. unfold entry_covers. simpl.
  assert (negb (b_access b .& b_access x =? 0) = (b_access x =? b_access b)) as ->.
  { destruct (ok_access _ Hx) as [->|[->| ->]], (ok_access _ Hb) as [->|[->| ->]]; reflexivity. }
  destruct Hb as [Hk Hj Hn _], x as [k j n a], b as [k' j' n' a']. simpl in *.
  unfold KIND_ALL, ANY_NUMBER. case_bool_decide as Hd.
  - injection Hd as -> -> -> ->. lia.
  - assert (~ (k = k' /\ j = j' /\ n = n' /\ a = a')) as Hne by naive_solver. lia.
Qed.

Lemma wild_cons e es : wild (e :: es) = if is_exact e then wild es else e :: wild es.
Proof. unfold wild. rewrite filter_cons. by destruct (is_exact e). Qed.

Lemma covered_cons e es x : covered (e :: es) x = entry_covers e x || covered es x.
Proof. done. Qed.

Lemma model_allow_covered b es x :
  bit_ok b -> bit_ok x ->
  covered (model_allow (entry_of b) es) x = covered es x || bool_decide (x = b)
  /\ covered (wild (model_allow (entry_of b) es)) x = covered (wild es) x.
Proof.
  intros Hb Hx. induction es as [|e es [IH1 IH2]]; cbn [model_allow].
  - rewrite wild_cons, (same_device_exact b) by (done || (unfold same_device; simpl; lia)).
    split; [|done]. by rewrite covered_cons, entry_of_covers, orb_false_r.
  - rewrite same_entry_device. destruct (same_device b e) eqn:Es; rewrite !wild_cons, !covered_cons.
    + pose proof (same_device_exact b e Hb Es) as He. change (is_exact (with_access e _)) with (is_exact e).
      rewrite He. split; [|done]. change (e_access (entry_of b)) with (b_access b).
      rewrite allow_covers by done.
      by rewrite <- !orb_assoc, (orb_comm (bool_decide _)).
    + rewrite IH1, orb_assoc. split; [done|]. destruct (is_exact e); [done|].
      by rewrite !covered_cons, IH2.
Qed.

(** An exact entry that covers a bit is its device's. *)
Lemma exact_covers_same e b : is_exact e = true -> same_device b e = false -> entry_covers e b = false.
Proof. unfold is_exact, same_device, entry_covers. lia. Qed.

Lemma covered_wild_only es b :
  (forall e, e ∈ es -> same_device b e = false) -> covered es b = covered (wild es) b.
Proof.
  induction es as [|e es IH]; intros Hs; [done|]. rewrite wild_cons, covered_cons.
  rewrite IH by (intros e' He'; apply Hs; by right).
  destruct (is_exact e) eqn:Ee; [|done]. by rewrite (exact_covers_same e b Ee) by (apply Hs; by left).
Qed.

Lemma model_deny_covered b es x :
  bit_ok b -> bit_ok x -> distinct es ->
  covered (model_deny (entry_of b) es) x
    = (if bool_decide (x ∈ [b]) then covered (wild es) x else covered es x)
  /\ covered (wild (model_deny (entry_of b) es)) x = covered (wild es) x.
Proof.
  intros Hb Hx. unfold distinct. induction es as [|e es IH]; intros Hd.
  { split; [|done]. by case_match. }
  rewrite fmap_cons in Hd. apply NoDup_cons in Hd as [Hne Hd]. destruct (IH Hd) as [IH1 IH2].
  cbn [model_deny]. rewrite same_entry_device, wild_cons, covered_cons.
  destruct (same_device b e) eqn:Es; simpl e_access.
  - pose proof (same_device_exact b e Hb Es) as He. rewrite He.
    assert (forall e', e' ∈ es -> same_device b e' = false) as Hoth.
    { intros e' He'. apply not_true_is_false. intros Hs'. apply Hne, list_elem_of_fmap.
      exists e'. split; [|done]. unfold same_device in *. f_equal; [f_equal|]; lia. }
    pose proof (clear_bit_covers e b x He Hb Hx) as Hc. unfold clear_bit in Hc. rewrite Es in Hc.
    fold (with_access e (Z.ldiff (e_access e) (b_access b))) in Hc.
    set (e' := with_access e _) in *.
    set (l := if Z.ldiff (e_access e) (b_access b) =? 0 then es else e' :: es).
    assert (covered l x = entry_covers e' x || covered es x /\ wild l = wild es) as [-> ->].
    { unfold l. destruct (Z.eqb_spec (Z.ldiff (e_access e) (b_access b)) 0) as [E0|_].
      - by rewrite (zero_access_covers e').
      - rewrite covered_cons, wild_cons. change (is_exact e') with (is_exact e). by rewrite He. }
    split; [|done]. rewrite Hc. repeat case_bool_decide; try set_solver; subst.
    + rewrite andb_false_r. by apply covered_wild_only.
    + by rewrite andb_true_r.
  - rewrite covered_cons, wild_cons, IH1. split.
    + case_bool_decide as Hxb; [|done]. apply list_elem_of_singleton in Hxb as ->.
      destruct (is_exact e) eqn:Ee; [|done]. by rewrite (exact_covers_same e b Ee Es).
    + destruct (is_exact e); [done|]. by rewrite !covered_cons, IH2.
Qed.

Definition entry_key (e : DevEntry) : Z * Z * Z := (e_kind e, e_major e, e_minor e).

Lemma same_entry_key r e : same_entry r e = true <-> entry_key e = entry_key r.
Proof.
  unfold same_entry, entry_key. rewrite !andb_true_iff, !Z.eqb_eq.
  split; [intros [[-> ->] ->]; done|]. intros E. by injection E as -> -> ->.
Qed.

Lemma model_allow_keys r es k :
  k ∈ entry_key <$> model_allow r es <-> k = entry_key r \/ k ∈ entry_key <$> es.
Proof.
  induction es as [|e es IH]; cbn [model_allow]; csimpl; [set_solver|].
  destruct (same_entry r e) eqn:Es; csimpl; rewrite !elem_of_cons.
  - apply same_entry_key in Es. change (entry_key (with_access e _)) with (entry_key e). rewrite Es. tauto.
  - rewrite IH. tauto.
Qed.

(** Masks stay masks. *)
Lemma mask_lor a c : 1 <= a <= 7 -> c = 1 \/ c = 2 \/ c = 4 -> 1 <= (a .| c) <= 7.
Proof.
  intros Ha Hc. revert a Ha. apply (access_cases (fun a => 1 <= (a .| c) <= 7));
    destruct Hc as [->|[->| ->]]; vm_compute; split; discriminate.
Qed.

Lemma mask_ldiff a c :
  1 <= a <= 7 -> c = 1 \/ c = 2 \/ c = 4 -> Z.ldiff a c <> 0 -> 1 <= Z.ldiff a c <= 7.
Proof.
  intros Ha Hc. revert a Ha. apply (access_cases (fun a => Z.ldiff a c <> 0 -> 1 <= Z.ldiff a c <= 7));
    destruct Hc as [->|[->| ->]]; vm_compute; intros; split; congruence.
Qed.

Lemma model_allow_wf b es :
  bit_ok b -> Forall entry_ok es -> distinct es ->
  Forall entry_ok (model_allow (entry_of b) es) /\ distinct (model_allow (entry_of b) es).
Proof.
  intros Hb Hes. unfold distinct. change (fun e => _) with entry_key.
  induction Hes as [|e es He Hes IH]; intros Hd; cbn [model_allow].
  { split; [by constructor; [apply entry_of_ok|]|apply NoDup_singleton]. }
  rewrite fmap_cons in Hd. pose proof Hd as Hd'. apply NoDup_cons in Hd' as [Hne Hdes].
  destruct (IH Hdes) as [IH1 IH2]. destruct (same_entry (entry_of b) e) eqn:Es.
  - split; [|done]. constructor; [|done]. destruct He as [Hk Hj Hn Ha]. constructor; try done.
    apply mask_lor; [done|apply Hb].
  - split; [by constructor|]. csimpl. apply NoDup_cons. split; [|done].
    rewrite model_allow_keys. intros [Hk|]; [|done]. apply same_entry_key in Hk. congruence.
Qed.

Lemma model_deny_keys r es k : k ∈ entry_key <$> model_deny r es -> k ∈ entry_key <$> es.
Proof.
  induction es as [|e es IH]; cbn [model_deny]; [done|]. destruct (same_entry r e).
  - cbv zeta. destruct (_ =? 0); csimpl; [by right|done].
  - csimpl. rewrite !elem_of_cons. tauto.
Qed.

Lemma model_deny_wf b es :
  bit_ok b -> Forall entry_ok es -> distinct es ->
  Forall entry_ok (model_deny (entry_of b) es) /\ distinct (model_deny (entry_of b) es).
Proof.
  intros Hb Hes. unfold distinct. change (fun e => _) with entry_key.
  induction Hes as [|e es He Hes IH]; intros Hd; cbn [model_deny]; [done|].
  rewrite fmap_cons in Hd. pose proof Hd as Hd'. apply NoDup_cons in Hd' as [Hne Hdes].
  destruct (IH Hdes) as [IH1 IH2]. destruct (same_entry (entry_of b) e) eqn:Es; cbv zeta.
  - destruct (Z.eqb_spec (Z.ldiff (e_access e) (e_access (entry_of b))) 0) as [|H0]; [done|].
    split; [|done]. constructor; [|done]. destruct He as [Hk Hj Hn Ha]. constructor; try done.
    apply mask_ldiff; [done|apply Hb|done].
  - split; [by constructor|]. csimpl. apply NoDup_cons. split; [|done].
    intros Hk%model_deny_keys. done.
Qed.

#[global] Instance ModelLaws : V1Laws ModelFiles.
Proof.
  constructor.
  - intros m r m' Hw E. simpl in E. unfold model_read in E.
    case_bool_decide; injection E as <- <-; (split; [done|]); (split; [done|]); [done|].
    intros data [= <-]. unfold parse_devices_list, lines. destruct Hw as [Hw _].
    rewrite lines_from_unlines by (by apply plain_formats || done). by apply parse_items_format.
  - intros m b r m' [Hw Hd] Hb E. simpl in E. unfold model_write in E.
    rewrite (bool_decide_eq_true_2 (DEVICES_ALLOW = DEVICES_ALLOW)), parse_line_entry in E by done.
    case_bool_decide; injection E as <- <-; [done|]. simpl.
    split; [by apply model_allow_wf|]. intros x Hx. by apply model_allow_covered.
  - intros m b r m' [Hw Hd] Hb E. simpl in E. unfold model_write in E.
    rewrite (bool_decide_eq_false_2 (DEVICES_DENY = DEVICES_ALLOW)), parse_line_entry in E by done.
    case_bool_decide; injection E as <- <-; [done|]. simpl.
    split; [by apply model_deny_wf|]. intros x Hx.
    rewrite covered_without_owned by (done || by apply Forall_singleton). by apply model_deny_covered.
Qed.
