(* ===== verification/V1Theorems.v ===== *)
(** * What the cgroup v1 controller promises

    The theorems about a whole call of [set_device_rules] (src/cgroup/v1set.rs)
    over any [devices.*] files that keep the laws of [V1Laws], each with a
    closed instance on the kernel model of the repository's tests. *)

From S2P Require Import Prelude.
From S2P Require Import Text.
From S2P Require Import TextProofs.
From S2P Require Import Ebpf.
From S2P Require Import Errors.
From S2P Require Import V2.
From S2P Require Import BTree.
From S2P Require Import Ledger.
From S2P Require Import V1Set.
From S2P Require Import V1Proofs.
From S2P Require Import V1Model.

Local Open Scope Z_scope.

Section Claims.
Context {F : Type} `{V1Laws F}.

Lemma call_spec id rules (s : V1State F) r s' :
  files_wf (files s) -> Forall bit_ok (owned (ledger s) id) -> Forall rule_i64 rules ->
  set_device_rules id rules s = (r, s') ->
  (exists t, v1_trace s' = v1_trace s ++ t
    /\ Forall (keeps (exceptions (files s)) (owned (ledger s) id)) t)
  /\ set_result id rules s r s'.
Proof.
  intros Hw Ho Hr E. pose proof (set_device_rules_spec id rules s Hw Ho Hr) as HW.
  unfold vwp in HW. by rewrite E in HW.
Qed.

(** C3. A call that succeeds makes the daemon's grants equal the rules: what
    is effective afterwards is exactly the runtime's baseline and the desired
    bits, and the ledger records exactly the desired bits outside the
    baseline. *)
Theorem v1_success_exact id rules (s s' : V1State F) :
  files_wf (files s) -> Forall bit_ok (owned (ledger s) id) -> Forall rule_i64 rules ->
  set_device_rules id rules s = (Ok tt, s') ->
  exists desired, expand_rules rules = Ok desired
    /\ (forall x, bit_ok x -> covered (exceptions (files s')) x
          = covered (baseline_of s id) x || bool_decide (x ∈ desired))
    /\ (forall x, x ∈ owned (ledger s') id
          <-> x ∈ desired /\ covered (baseline_of s id) x = false).
Proof.
  intros Hw Ho Hr E. destruct (call_spec id rules s _ s' Hw Ho Hr E) as [_ [Hg _ _ (d & Ed & Hrec & Hcov)]].
  exists d. split; [done|]. split; [|done]. intros x Hx. apply eq_true_iff_eq.
  rewrite orb_true_iff, bool_decide_eq_true. split.
  - intros Hc. destruct (good_owned _ _ _ _ Hg x Hx Hc) as [|[]%Hrec]; auto.
  - intros [Hb|Hd]; [by apply (good_keeps _ _ _ _ Hg)|by apply Hcov].
Qed.

(** C23. The runtime's own exceptions survive: in every file state a call goes
    through, whatever fails, a bit of the baseline is effective. *)
Theorem v1_baseline_kept id rules (s s' : V1State F) r :
  files_wf (files s) -> Forall bit_ok (owned (ledger s) id) -> Forall rule_i64 rules ->
  set_device_rules id rules s = (r, s') ->
  exists t, v1_trace s' = v1_trace s ++ t
    /\ Forall (fun f => forall x, bit_ok x ->
         covered (baseline_of s id) x = true -> covered (exceptions f) x = true) t.
Proof. intros Hw Ho Hr E. by destruct (call_spec id rules s _ s' Hw Ho Hr E) as [Ht _]. Qed.

(** C24. The ledger matches the files after any outcome: a bit that is
    effective and not the runtime's is recorded, a bit that is newly recorded
    is effective, and no other cgroup's record changes. *)
Theorem v1_ledger_matches id rules (s s' : V1State F) r :
  files_wf (files s) -> Forall bit_ok (owned (ledger s) id) -> Forall rule_i64 rules ->
  set_device_rules id rules s = (r, s') ->
  (forall x, bit_ok x -> covered (exceptions (files s')) x = true ->
     covered (baseline_of s id) x = true \/ x ∈ owned (ledger s') id)
  /\ (forall x, x ∈ owned (ledger s') id ->
        x ∈ owned (ledger s) id \/ covered (exceptions (files s')) x = true)
  /\ (forall id', id' <> id -> owned (ledger s') id' = owned (ledger s) id').
Proof.
  intros Hw Ho Hr E. destruct (call_spec id rules s _ s' Hw Ho Hr E) as [_ [Hg Hoth Hrec _]].
  split; [apply Hg|]. by split.
Qed.

(** Revocations come first: a call that stops at a failed revocation, or
    before it, has added no access at all. *)
Theorem v1_failed_revoke_adds_nothing id rules (s s' : V1State F) e :
  files_wf (files s) -> Forall bit_ok (owned (ledger s) id) -> Forall rule_i64 rules ->
  set_device_rules id rules s = (Err e, s') ->
  match e with Joined _ => False | _ => True end ->
  forall x, bit_ok x -> covered (exceptions (files s')) x = true -> covered (exceptions (files s)) x = true.
Proof.
  intros Hw Ho Hr E He. destruct (call_spec id rules s _ s' Hw Ho Hr E) as [_ [_ _ _ Hres]].
  destruct e; try done; apply Hres.
Qed.

(** No drift of its own making: over files that keep the laws, an error is
    a refused rule or comes with a file that could not be read or written. *)
Theorem v1_errors_are_file_failures id rules (s s' : V1State F) e :
  files_wf (files s) -> Forall bit_ok (owned (ledger s) id) -> Forall rule_i64 rules ->
  set_device_rules id rules s = (Err e, s') ->
  match e with
  | Joined errors => Exists file_failure errors
  | _ => file_failure e \/ expand_rules rules = Err e
  end.
Proof.
  intros Hw Ho Hr E. destruct (call_spec id rules s _ s' Hw Ho Hr E) as [_ [_ _ _ Hres]].
  destruct e; try done; apply Hres.
Qed.

End Claims.

(** Round trip of [devices.list]: the text the kernel shows for a list of
    exceptions parses back to it, wildcards included. *)
Theorem devices_list_roundtrip es :
  Forall entry_ok es -> parse_devices_list (unlines (format_entry <$> es)) = Ok es.
Proof.
  intros He. unfold parse_devices_list, lines.
  rewrite lines_from_unlines by (by apply plain_formats || done). by apply parse_items_format.
Qed.

(** ** Instances *)

Module V1Demo.

Definition id : Identity := {| path := "/sys/fs/cgroup/devices/docker/a"; inode := 7 |}.

(** The runtime allows [c 1:3 rwm] and making any block device; the daemon
    owns [c 226:0 r], left by an earlier call. *)
Definition entries : list DevEntry :=
  [{| e_kind := 99; e_major := 1; e_minor := 3; e_access := 7 |};
   {| e_kind := 98; e_major := -1; e_minor := -1; e_access := 4 |};
   {| e_kind := 99; e_major := 226; e_minor := 0; e_access := 1 |}].

Definition owned_bit : DevBit := {| b_kind := 99; b_major := 226; b_minor := 0; b_access := 1 |}.

Definition start (fail : list string) : V1State ModelFiles :=
  {| files := {| m_entries := entries; m_fail := fail; m_writes := [] |};
     ledger := {[ id := [owned_bit] ]}; v1_trace := [] |}.

(** The sound devices instead of the graphics card. *)
Definition rules : list DeviceRule :=
  [{| allow := true; kind := "c"; major := Some 116; minor := Some 2; access := "rw" |};
   {| allow := true; kind := "c"; major := Some 1; minor := Some 3; access := "r" |}].

Definition pass (fail : list string) := set_device_rules id rules (start fail).

Lemma entries_ok : Forall entry_ok entries.
Proof.
  repeat apply Forall_cons_2; try apply Forall_nil_2;
    (constructor; simpl; [tauto|unfold number_ok, ANY_NUMBER; lia..]).
Qed.

Lemma start_wf fail : files_wf (files (start fail)).
Proof. split; [apply entries_ok|]. apply (bool_decide_eq_true_1 (NoDup _)). vm_compute. reflexivity. Qed.

Lemma start_owned fail : Forall bit_ok (owned (ledger (start fail)) id).
Proof.
  apply Forall_singleton. constructor; simpl; [tauto|lia|lia|tauto].
Qed.

Lemma rules_i64 : Forall rule_i64 rules.
Proof.
  repeat apply Forall_cons_2; try apply Forall_nil_2;
    (split; intros m [= <-]; vm_compute; split; (discriminate || reflexivity)).
Qed.

Definition summary (p : result Error unit * V1State ModelFiles) :=
  (p.1, m_entries (files p.2), m_writes (files p.2), owned (ledger p.2) id).

Lemma summary_pair p r e w o : summary p = (r, e, w, o) -> p = (r, p.2).
Proof. destruct p as [r' s]. by intros [= -> _ _ _]. Qed.

Lemma pass_ok :
  summary (pass [])
    = (Ok tt,
       [{| e_kind := 99; e_major := 1; e_minor := 3; e_access := 7 |};
        {| e_kind := 98; e_major := -1; e_minor := -1; e_access := 4 |};
        {| e_kind := 99; e_major := 116; e_minor := 2; e_access := 3 |}],
       ["deny c 226:0 r"; "allow c 116:2 r"; "allow c 116:2 w"],
       [{| b_kind := 99; b_major := 116; b_minor := 2; b_access := 1 |};
        {| b_kind := 99; b_major := 116; b_minor := 2; b_access := 2 |}]).
Proof. vm_compute. reflexivity. Qed.

Definition refused : FileError := WriteFile "c 226:0 r" DEVICES_DENY INJECTED.

Lemma pass_revoke_fails :
  summary (pass ["deny c 226:0 r"])
    = (Err (Revoke "c 226:0 r" refused), entries, ["deny c 226:0 r"], [owned_bit]).
Proof. vm_compute. reflexivity. Qed.

Definition grant_errors : list Error :=
  [Grant "c 116:2 w" (WriteFile "c 116:2 w" DEVICES_ALLOW INJECTED);
   Drift ["c 116:2 w (want true)"]].

Lemma pass_grant_fails : (pass ["allow c 116:2 w"]).1 = Err (Joined grant_errors).
Proof. vm_compute. reflexivity. Qed.

End V1Demo.

Lemma v1_success_exact_witness :
  exists desired, expand_rules V1Demo.rules = Ok desired
    /\ (forall x, bit_ok x -> covered (exceptions (files (V1Demo.pass []).2)) x
          = covered (baseline_of (V1Demo.start []) V1Demo.id) x || bool_decide (x ∈ desired))
    /\ (forall x, x ∈ owned (ledger (V1Demo.pass []).2) V1Demo.id
          <-> x ∈ desired /\ covered (baseline_of (V1Demo.start []) V1Demo.id) x = false).
Proof.
  exact (v1_success_exact V1Demo.id V1Demo.rules (V1Demo.start []) (V1Demo.pass []).2
    (V1Demo.start_wf _) (V1Demo.start_owned _) V1Demo.rules_i64
    (V1Demo.summary_pair _ _ _ _ _ V1Demo.pass_ok)).
Defined.

Lemma v1_baseline_kept_witness :
  exists t, v1_trace (V1Demo.pass ["allow c 116:2 w"]).2 = t
    /\ Forall (fun f => forall x, bit_ok x ->
         covered (baseline_of (V1Demo.start ["allow c 116:2 w"]) V1Demo.id) x = true ->
         covered (exceptions f) x = true) t.
Proof.
  exact (v1_baseline_kept V1Demo.id V1Demo.rules (V1Demo.start ["allow c 116:2 w"])
    (V1Demo.pass ["allow c 116:2 w"]).2 (V1Demo.pass ["allow c 116:2 w"]).1
    (V1Demo.start_wf _) (V1Demo.start_owned _) V1Demo.rules_i64
    (surjective_pairing (V1Demo.pass ["allow c 116:2 w"]))).
Defined.

Lemma v1_ledger_matches_witness :
  (V1Demo.pass ["allow c 116:2 w"]).1 = Err (Joined V1Demo.grant_errors)
  /\ forall x, bit_ok x -> covered (exceptions (files (V1Demo.pass ["allow c 116:2 w"]).2)) x = true ->
    covered (baseline_of (V1Demo.start ["allow c 116:2 w"]) V1Demo.id) x = true
    \/ x ∈ owned (ledger (V1Demo.pass ["allow c 116:2 w"]).2) V1Demo.id.
Proof.
  split; [exact V1Demo.pass_grant_fails|].
  exact (proj1 (v1_ledger_matches V1Demo.id V1Demo.rules (V1Demo.start ["allow c 116:2 w"])
    (V1Demo.pass ["allow c 116:2 w"]).2 (V1Demo.pass ["allow c 116:2 w"]).1
    (V1Demo.start_wf _) (V1Demo.start_owned _) V1Demo.rules_i64
    (surjective_pairing (V1Demo.pass ["allow c 116:2 w"])))).
Defined.

Lemma v1_failed_revoke_adds_nothing_witness :
  V1Demo.summary (V1Demo.pass ["deny c 226:0 r"])
    = (Err (Revoke "c 226:0 r" V1Demo.refused), V1Demo.entries, ["deny c 226:0 r"], [V1Demo.owned_bit])
  /\ forall x, bit_ok x -> covered (exceptions (files (V1Demo.pass ["deny c 226:0 r"]).2)) x = true ->
    covered V1Demo.entries x = true.
Proof.
  split; [exact V1Demo.pass_revoke_fails|].
  exact (v1_failed_revoke_adds_nothing V1Demo.id V1Demo.rules (V1Demo.start ["deny c 226:0 r"])
    (V1Demo.pass ["deny c 226:0 r"]).2 (Revoke "c 226:0 r" V1Demo.refused)
    (V1Demo.start_wf _) (V1Demo.start_owned _) V1Demo.rules_i64
    (V1Demo.summary_pair _ _ _ _ _ V1Demo.pass_revoke_fails) I).
Defined.

Lemma v1_errors_are_file_failures_witness : Exists file_failure V1Demo.grant_errors.
Proof.
  exact (v1_errors_are_file_failures V1Demo.id V1Demo.rules (V1Demo.start ["allow c 116:2 w"])
    (V1Demo.pass ["allow c 116:2 w"]).2 (Joined V1Demo.grant_errors)
    (V1Demo.start_wf _) (V1Demo.start_owned _) V1Demo.rules_i64
    (eq_trans (surjective_pairing (V1Demo.pass ["allow c 116:2 w"]))
       (f_equal (fun r => (r, _)) V1Demo.pass_grant_fails))).
Defined.

Lemma devices_list_roundtrip_witness :
  parse_devices_list (unlines ["c 1:3 rwm"; "b *:* m"; "c 226:0 r"]) = Ok V1Demo.entries.
Proof. exact (devices_list_roundtrip V1Demo.entries V1Demo.entries_ok). Defined.
