(* ===== verification/Lexpath.v ===== *)
(** * Lexical paths (src/lexpath.rs)

    [Clean], [Join] and [Base] of Go's [path/filepath], as the source writes
    them: one pass over the bytes with an output buffer and a mark where
    backtracking stops. [clean_ref] is what they compute: a path is its elements,
    and cleaning is a stack of them. *)

From S2P Require Import Prelude.
From S2P Require Import Text.
From S2P Require Import TextProofs.

Definition SEPARATOR : Ascii.ascii := chr 47.
Definition DOT : Ascii.ascii := chr 46.

(** [str::len]. *)
Abbreviation len := Strings.String.length.

(** [String::truncate]. *)
Fixpoint truncate (n : nat) (s : string) : string :=
  match n, s with
  | S n, String c s => String c (truncate n s)
  | _, _ => EmptyString
  end.

(** [bytes.get(index)]. *)
Fixpoint byte_at (n : nat) (s : string) : option Ascii.ascii :=
  match s, n with
  | EmptyString, _ => None
  | String c _, O => Some c
  | String _ s, S n => byte_at n s
  end.

(** The bytes before the next separator, and the rest from it on. *)
Fixpoint span_element (s : string) : string * string :=
  match s with
  | EmptyString => (EmptyString, EmptyString)
  | String c s' =>
      if bool_decide (c = SEPARATOR) then (EmptyString, s)
      else let '(e, rest) := span_element s' in (String c e, rest)
  end.

(** What follows ends the element: nothing, or a separator. *)
Definition ends_element (rest : string) : bool :=
  match rest with EmptyString => true | String c _ => bool_decide (c = SEPARATOR) end.

(** [while write > dotdot && out[write] != SEPARATOR { write -= 1 }]. *)
Fixpoint backtrack (out : string) (dotdot write : nat) : nat :=
  match write with
  | O => O
  | S w =>
      if (dotdot <? write)%nat && negb (bool_decide (byte_at write out = Some SEPARATOR))
      then backtrack out dotdot w else write
  end.

(** [bytes[read] == b'.' && bytes[read + 1] == b'.'] and the element ends there. *)
Definition is_dotdot (c : Ascii.ascii) (rest1 : string) : bool :=
  bool_decide (c = DOT)
  && match rest1 with String d rest2 => bool_decide (d = DOT) && ends_element rest2 | EmptyString => false end.

(** The loop of [clean] from the bytes still to read; a turn reads at least one
    byte, so the length of the path bounds the turns. *)
Fixpoint clean_loop (fuel : nat) (rooted : bool) (rest out : string) (dotdot : nat) : string :=
  match fuel, rest with
  | O, _ => out
  | _, EmptyString => out
  | S fuel, String c rest1 =>
      if bool_decide (c = SEPARATOR) || (bool_decide (c = DOT) && ends_element rest1) then
        clean_loop fuel rooted rest1 out dotdot
      else if is_dotdot c rest1 then
        let rest2 := match rest1 with String _ r => r | EmptyString => EmptyString end in
        if (dotdot <? len out)%nat then
          clean_loop fuel rooted rest2 (truncate (backtrack out dotdot (len out - 1)) out) dotdot
        else if negb rooted then
          let out := (if bool_decide (out = EmptyString) then out else out +:+ "/") +:+ ".." in
          clean_loop fuel rooted rest2 out (len out)
        else clean_loop fuel rooted rest2 out dotdot
      else
        let out :=
          if (rooted && negb (len out =? 1)%nat) || (negb rooted && negb (bool_decide (out = EmptyString)))
          then out +:+ "/" else out in
        let '(element, after) := span_element rest in
        clean_loop fuel rooted after (out +:+ element) dotdot
  end.

Definition clean (path : string) : string :=
  match path with
  | EmptyString => "."
  | String c rest =>
      let out :=
        if bool_decide (c = SEPARATOR) then clean_loop (len path) true rest "/" 1
        else clean_loop (len path) false path "" 0 in
      if bool_decide (out = EmptyString) then "." else out
  end.

(** [trim_end_matches('/')]. *)
Definition trim_separators (path : string) : string := trim_end (fun c => bool_decide (c = SEPARATOR)) path.

(** [rsplit_once('/')]'s second part, or the whole. *)
Definition last_element (path : string) : string := List.last (split_on SEPARATOR path) path.

Definition base (path : string) : string :=
  if bool_decide (path = EmptyString) then "."
  else
    let trimmed := trim_separators path in
    if bool_decide (trimmed = EmptyString) then "/" else last_element trimmed.

(** [join] of the source. *)
Definition join_path (elements : list string) : string :=
  let joined := filter (fun e => e <> EmptyString) elements in
  if bool_decide (joined = []) then EmptyString else clean (join "/" joined).

(** ** What they compute *)

(** Is the path rooted? *)
Definition is_rooted (path : string) : bool :=
  match path with String c _ => bool_decide (c = SEPARATOR) | EmptyString => false end.

(** One element against the stack of those kept, the last one on top. *)
Definition push_element (rooted : bool) (st : list string) (e : string) : list string :=
  if bool_decide (e = "") || bool_decide (e = ".") then st
  else if bool_decide (e = "..") then
    match st with
    | [] => if rooted then [] else [".."]
    | top :: st' => if bool_decide (top = "..") then ".." :: st else st'
    end
  else e :: st.

Definition elements_of (path : string) : list string :=
  foldl (push_element (is_rooted path)) [] (split_on SEPARATOR path).

(** The text of a stack. *)
Definition render (rooted : bool) (st : list string) : string :=
  (if rooted then "/" else "") +:+ join "/" (rev st).

Definition clean_ref (path : string) : string :=
  let out := render (is_rooted path) (elements_of path) in
  if bool_decide (out = "") then "." else out.

Example clean_examples :
  clean <$> [""; "/"; "//a//b/"; "/dev/./null"; "/dev/../etc"; "/../.."; "../a/.."; "a/b/../../.."; "/dev/"]
  = ["."; "/"; "/a/b"; "/dev/null"; "/etc"; "/"; ".."; ".."; "/dev"].
Proof. reflexivity. Qed.

Example base_examples : base <$> [""; "//"; "/sys/fs/cgroup/devices/"] = ["."; "/"; "devices"].
Proof. reflexivity. Qed.
