(* ===== verification/LexpathProofs.v ===== *)
(** * What cleaning a path does

    The byte loop of [clean] computes the element stack of [clean_ref]; a clean
    path is a fixed point, and a rooted one has no [..] element. *)

From S2P Require Import Prelude.
From S2P Require Import Text.
From S2P Require Import TextProofs.
From S2P Require Import Lexpath.

(** ** Strings *)

Lemma len_app a b : len (a +:+ b) = (len a + len b)%nat.
Proof. apply length_append. Qed.

Lemma truncate_app a b : truncate (len a) (a +:+ b) = a.
Proof. induction a as [|c a IH]; [by destruct b|]. exact (f_equal (String c) IH). Qed.

Lemma byte_at_app a b n : byte_at (len a + n) (a +:+ b) = byte_at n b.
Proof. induction a as [|c a IH]; [done|]. exact IH. Qed.

Definition no_sep (s : string) : bool := all_chars (fun c => negb (bool_decide (c = SEPARATOR))) s.

Lemma no_sep_at s n : no_sep s = true -> byte_at n s <> Some SEPARATOR.
Proof.
  revert n. induction s as [|c s IH]; intros n Hs; [by destruct n|]. unfold no_sep in Hs.
  cbn [all_chars] in Hs. apply andb_true_iff in Hs as [Hc Hs]. destruct n as [|n]; cbn [byte_at].
  - intros [= ->]. by rewrite bool_decide_eq_true_2 in Hc.
  - by apply IH.
Qed.

(** An element that is kept as it is. *)
Definition is_name (e : string) : Prop := e <> "" /\ e <> "." /\ e <> ".." /\ no_sep e = true.

(** Backtracking drops the last element, with the separator before it. *)
Lemma backtrack_sep a e dd i :
  no_sep e = true -> (dd <= len a)%nat -> backtrack (a +:+ String SEPARATOR e) dd (len a + i) = len a.
Proof.
  intros He Hd. induction i as [|i IH].
  - rewrite Nat.add_0_r. destruct (len a) as [|n] eqn:Ea; [done|]. cbn [backtrack].
    destruct (dd <? S n)%nat eqn:Edd; [|done].
    rewrite <- Ea, <- (Nat.add_0_r (len a)), byte_at_app. cbn [byte_at].
    by rewrite bool_decide_eq_true_2.
  - rewrite Nat.add_succ_r. cbn [backtrack]. rewrite <- Nat.add_succ_r, byte_at_app.
    rewrite (proj2 (Nat.ltb_lt _ _)) by lia. rewrite bool_decide_eq_false_2; [exact IH|].
    cbn [byte_at]. by apply no_sep_at.
Qed.

Lemma backtrack_first a e i :
  no_sep e = true -> backtrack (a +:+ e) (len a) (len a + i) = len a.
Proof.
  intros He. induction i as [|i IH].
  - rewrite Nat.add_0_r. destruct (len a) as [|n] eqn:Ea; [done|]. cbn [backtrack].
    by rewrite (proj2 (Nat.ltb_ge _ _)).
  - rewrite Nat.add_succ_r. cbn [backtrack]. rewrite <- Nat.add_succ_r, byte_at_app.
    rewrite (proj2 (Nat.ltb_lt _ _)) by lia. rewrite bool_decide_eq_false_2; [exact IH|].
    by apply no_sep_at.
Qed.

(** ** Joined elements *)

Lemma join_snoc l e : l <> [] -> join "/" (l ++ [e]) = join "/" l +:+ "/" +:+ e.
Proof.
  intros Hl. induction l as [|x l IH]; [done|]. destruct l as [|y l]; [done|].
  change (join "/" ((x :: y :: l) ++ [e])) with (x +:+ "/" +:+ join "/" ((y :: l) ++ [e])).
  rewrite IH by done. change (join "/" (x :: y :: l)) with (x +:+ "/" +:+ join "/" (y :: l)).
  by rewrite !append_assoc.
Qed.

Lemma join_empty l : Forall (fun e => e <> "") l -> join "/" l = "" -> l = [].
Proof.
  destruct 1 as [|e l He _]; [done|]. destruct l as [|e' l]; [done|].
  change (join "/" (e :: e' :: l)) with (e +:+ "/" +:+ join "/" (e' :: l)). by destruct e.
Qed.

(** ** The stack behind the buffer *)

(** A stack of names over a run of [..], which only a relative path has. *)
Record stack_ok (rooted : bool) (k : nat) (names : list string) : Prop := {
  so_names : Forall is_name names;
  so_rooted : rooted = true -> k = 0%nat;
}.

Definition stack_of (k : nat) (names : list string) : list string := names ++ replicate k "..".

(** Where backtracking stops. *)
Definition mark (rooted : bool) (k : nat) : nat :=
  if rooted then 1%nat else len (join "/" (replicate k "..")).

Lemma rev_stack k names : rev (stack_of k names) = replicate k ".." ++ rev names.
Proof.
  unfold stack_of. rewrite rev_app_distr. f_equal.
  induction k as [|k IH]; [done|]. cbn [replicate rev]. by rewrite IH, <- replicate_S_end.
Qed.

Lemma stack_nonempty rooted k names : stack_ok rooted k names -> Forall (fun e => e <> "") (rev (stack_of k names)).
Proof.
  intros [Hn _]. rewrite rev_stack. apply Forall_app_2; [by apply Forall_replicate|].
  apply Forall_rev. eapply Forall_impl; [exact Hn|]. by intros e [? _].
Qed.

Lemma render_push rooted st e :
  Forall (fun e => e <> "") (rev st) ->
  render rooted (e :: st)
    = (if (rooted && negb (len (render rooted st) =? 1)%nat)
          || (negb rooted && negb (bool_decide (render rooted st = "")))
       then render rooted st +:+ "/" else render rooted st) +:+ e.
Proof.
  intros Hne. unfold render. cbn [rev]. destruct (decide (st = [])) as [->|Hst].
  { destruct rooted; reflexivity. }
  assert (rev st <> []) as Hr by (intros E; apply Hst; by rewrite <- (rev_involutive st), E).
  assert (join "/" (rev st) <> "") as Hj by (intros E; by apply Hr, join_empty).
  rewrite join_snoc by done. destruct rooted; cbn [andb orb negb].
  - assert ((len ("/" +:+ join "/" (rev st)) =? 1)%nat = false) as ->.
    { rewrite len_app. destruct (join "/" (rev st)); [done|]. reflexivity. }
    cbn [negb orb]. by rewrite !append_assoc.
  - change ("" +:+ ?s) with s. rewrite bool_decide_eq_false_2 by done. cbn [negb]. by rewrite !append_assoc.
Qed.

Lemma len_join_app l1 l2 : (len (join "/" l1) <= len (join "/" (l1 ++ l2)))%nat.
Proof.
  induction l1 as [|x l1 IH]; [simpl; lia|]. destruct l1 as [|y l1].
  - destruct l2 as [|z l2]; [done|].
    change (join "/" ([x] ++ z :: l2)) with (x +:+ "/" +:+ join "/" (z :: l2)).
    rewrite len_app. cbn. lia.
  - change (join "/" ((x :: y :: l1) ++ l2)) with (x +:+ "/" +:+ join "/" ((y :: l1) ++ l2)).
    change (join "/" (x :: y :: l1)) with (x +:+ "/" +:+ join "/" (y :: l1)).
    rewrite !len_app. lia.
Qed.

Lemma len_nonempty s : s <> "" -> (0 < len s)%nat.
Proof. destruct s; [done|]. cbn. lia. Qed.

Lemma render_false st : render false st = join "/" (rev st).
Proof. done. Qed.

Lemma mark_le rooted k names :
  stack_ok rooted k names -> (mark rooted k <= len (render rooted (stack_of k names)))%nat.
Proof.
  intros [_ Hr]. unfold mark, render. rewrite rev_stack, len_app. destruct rooted.
  - cbn. lia.
  - cbn. apply len_join_app.
Qed.

(** At the bottom there is nothing to take back. *)
Lemma render_bottom rooted k : stack_ok rooted k [] -> len (render rooted (stack_of k [])) = mark rooted k.
Proof.
  intros [_ Hr]. unfold render, mark. rewrite rev_stack. cbn [rev]. rewrite app_nil_r. destruct rooted.
  - by rewrite Hr.
  - done.
Qed.

Lemma render_pop rooted k e names :
  stack_ok rooted k (e :: names) ->
  let out := render rooted (stack_of k (e :: names)) in
  (mark rooted k < len out)%nat
  /\ truncate (backtrack out (mark rooted k) (len out - 1)) out = render rooted (stack_of k names).
Proof.
  intros [[(He1 & _ & _ & He2) Hn]%Forall_cons Hr].
  assert (stack_ok rooted k names) as Hs by done. pose proof (mark_le _ _ _ Hs) as Hm.
  pose proof (len_nonempty e He1) as Hle. cbv zeta.
  change (stack_of k (e :: names)) with (e :: stack_of k names).
  rewrite (render_push rooted (stack_of k names) e (stack_nonempty _ _ _ Hs)).
  set (st := stack_of k names) in *.
  destruct ((rooted && _) || _) eqn:Esep.
  - rewrite append_assoc. change ("/" +:+ e) with (String SEPARATOR e).
    rewrite len_app. cbn [Strings.String.length]. split; [lia|].
    replace (len (render rooted st) + S (len e) - 1)%nat with (len (render rooted st) + len e)%nat by lia.
    rewrite backtrack_sep by done. apply truncate_app.
  - assert (len (render rooted st) = mark rooted k) as Hmark.
    { destruct rooted; cbn [andb orb negb] in Esep.
      - destruct (Nat.eqb_spec (len (render true st)) 1) as [->|]; done.
      - destruct (bool_decide (render false st = "")) eqn:Eb; [|done].
        apply bool_decide_eq_true_1 in Eb. rewrite Eb in Hm |- *. cbn in Hm |- *. lia. }
    rewrite len_app. split; [lia|]. rewrite <- Hmark.
    replace (len (render rooted st) + len e - 1)%nat with (len (render rooted st) + (len e - 1))%nat by lia.
    rewrite backtrack_first by done. apply truncate_app.
Qed.

(** ** The elements of what is left to read *)

Lemma span_element_spec s e after :
  span_element s = (e, after) ->
  no_sep e = true /\ s = e +:+ after /\ ends_element after = true.
Proof.
  revert e after. induction s as [|c s IH]; intros e after E; cbn [span_element] in E.
  - by injection E as <- <-.
  - case_bool_decide as Hc.
    + injection E as <- <-. split_and!; [done|done|]. cbn. by apply bool_decide_eq_true_2.
    + destruct (span_element s) as [e' after'] eqn:E'. injection E as <- <-.
      destruct (IH _ _ eq_refl) as (H1 & -> & H3). split_and!; [|done|done].
      unfold no_sep. cbn [all_chars]. by rewrite bool_decide_eq_false_2.
Qed.

Lemma foldl_element rooted st e after :
  no_sep e = true -> ends_element after = true ->
  foldl (push_element rooted) st (split_on SEPARATOR (e +:+ after))
    = foldl (push_element rooted) (push_element rooted st e) (split_on SEPARATOR after).
Proof.
  intros He Ha. destruct after as [|c r].
  - rewrite app_empty_r, split_on_one by done. done.
  - apply bool_decide_eq_true_1 in Ha as ->. rewrite split_on_two by done. cbn [split_on foldl].
    rewrite bool_decide_eq_true_2 by done. done.
Qed.

(** One turn of the loop on a [..] element, when the rest of the loop is right. *)
Lemma clean_dotdot (loop : string -> nat -> string) rooted k names rest2 :
  stack_ok rooted k names ->
  (forall k' names', stack_ok rooted k' names' ->
     loop (render rooted (stack_of k' names')) (mark rooted k')
       = render rooted (foldl (push_element rooted) (stack_of k' names') (split_on SEPARATOR rest2))) ->
  let out := render rooted (stack_of k names) in
  (if (mark rooted k <? len out)%nat
   then loop (truncate (backtrack out (mark rooted k) (len out - 1)) out) (mark rooted k)
   else if negb rooted then
     let out := (if bool_decide (out = EmptyString) then out else out +:+ "/") +:+ ".." in loop out (len out)
   else loop out (mark rooted k))
  = render rooted (foldl (push_element rooted) (push_element rooted (stack_of k names) "..")
                     (split_on SEPARATOR rest2)).
Proof.
  intros Hs IH. cbv zeta. destruct names as [|e names].
  - rewrite render_bottom, Nat.ltb_irrefl by done. destruct rooted; cbn [negb].
    + rewrite IH by done. destruct Hs as [_ Hk]. by rewrite Hk.
    + pose proof (render_push false (stack_of k []) ".." (stack_nonempty _ _ _ Hs)) as Hp.
      assert ((if bool_decide (render false (stack_of k []) = "")
        then render false (stack_of k []) else render false (stack_of k []) +:+ "/") +:+ ".."
        = render false (stack_of (S k) [])) as ->.
      { change (stack_of (S k) []) with (".." :: stack_of k []). rewrite Hp. cbn [andb orb negb].
        by destruct (bool_decide _). }
      assert (stack_ok false (S k) []) as Hs' by done.
      rewrite (render_bottom false (S k) Hs'), IH by done.
      f_equal. f_equal. by destruct k.
  - destruct (render_pop rooted k e names Hs) as [Hlt Hpop].
    rewrite (proj2 (Nat.ltb_lt _ _) Hlt), Hpop. destruct Hs as [[(_ & _ & Hdd & _) Hn]%Forall_cons Hr].
    rewrite IH by done. f_equal. f_equal. unfold push_element. cbn [stack_of app]. rewrite (bool_decide_eq_false_2 (e = "..")) by done. reflexivity.
Qed.

Lemma span_element_name c rest1 e after :
  c <> SEPARATOR -> (bool_decide (c = DOT) && ends_element rest1) = false -> is_dotdot c rest1 = false ->
  span_element (String c rest1) = (e, after) -> is_name e.
Proof.
  intros Hc E1 E2 Esp. destruct (span_element_spec _ _ _ Esp) as (He & Hrest & Ha).
  split_and!; [intros -> ..|done].
  - cbn [span_element] in Esp. rewrite bool_decide_eq_false_2 in Esp by done. by destruct (span_element rest1).
  - injection Hrest as -> ->. change (ends_element after = false) in E1. congruence.
  - injection Hrest as -> ->. change (ends_element after = false) in E2. congruence.
Qed.

Lemma clean_loop_spec fuel rooted rest k names :
  (len rest <= fuel)%nat -> stack_ok rooted k names ->
  clean_loop fuel rooted rest (render rooted (stack_of k names)) (mark rooted k)
    = render rooted (foldl (push_element rooted) (stack_of k names) (split_on SEPARATOR rest)).
Proof.
  revert rest k names. induction fuel as [|fuel IH]; intros rest k names Hf Hs.
  { destruct rest; [done|cbn in Hf; lia]. }
  destruct rest as [|c rest1]; [done|]. cbn [clean_loop]. cbn in Hf.
  destruct (bool_decide (c = SEPARATOR)) eqn:Ec.
  { apply bool_decide_eq_true_1 in Ec as ->. cbn [orb]. rewrite IH by (done || lia).
    cbn [split_on]. by rewrite bool_decide_eq_true_2. }
  cbn [orb]. apply bool_decide_eq_false_1 in Ec.
  destruct (bool_decide (c = DOT) && ends_element rest1) eqn:E1.
  { apply andb_true_iff in E1 as [->%bool_decide_eq_true_1 E1]. rewrite IH by (done || lia).
    change (String DOT rest1) with ("." +:+ rest1). by rewrite (foldl_element rooted _ "."). }
  destruct (is_dotdot c rest1) eqn:E2.
  { unfold is_dotdot in E2. apply andb_true_iff in E2 as [->%bool_decide_eq_true_1 E2].
    destruct rest1 as [|d rest2]; [done|]. apply andb_true_iff in E2 as [->%bool_decide_eq_true_1 E2].
    cbn in Hf. change (String DOT (String DOT rest2)) with (".." +:+ rest2).
    rewrite (foldl_element rooted _ "..") by done.
    apply (clean_dotdot (clean_loop fuel rooted rest2)); [done|]. intros k' names' Hs'. apply IH; [lia|done]. }
  destruct (span_element (String c rest1)) as [e after] eqn:Esp.
  destruct (span_element_spec _ _ _ Esp) as (He & Hrest & Ha).
  pose proof (span_element_name _ _ _ _ Ec E1 E2 Esp) as Hname.
  rewrite Hrest, foldl_element by done.
  assert (push_element rooted (stack_of k names) e = stack_of k (e :: names)) as ->.
  { unfold push_element. destruct Hname as (N1 & N2 & N3 & _).
    by rewrite !bool_decide_eq_false_2. }
  rewrite <- (render_push rooted (stack_of k names) e (stack_nonempty _ _ _ Hs)).
  change (e :: stack_of k names) with (stack_of k (e :: names)).
  apply IH; [|destruct Hs as [Hn Hk]; constructor; [by constructor|done]].
  apply (f_equal len) in Hrest. rewrite len_app in Hrest. cbn in Hrest.
  pose proof (len_nonempty e (proj1 Hname)). lia.
Qed.

(** ** The theorems *)

(** [clean] is the element stack of [clean_ref]. *)
Lemma clean_is_ref path : clean path = clean_ref path.
Proof.
  destruct path as [|c rest]; [done|]. unfold clean, clean_ref, elements_of. cbn [is_rooted].
  destruct (bool_decide (c = SEPARATOR)) eqn:Ec.
  - apply bool_decide_eq_true_1 in Ec as ->.
    assert (stack_ok true 0 []) as Hs by done.
    pose proof (clean_loop_spec (len (String SEPARATOR rest)) true rest 0 [] ltac:(cbn; lia) Hs) as H.
    change (render true (stack_of 0 [])) with "/" in H. change (mark true 0) with 1%nat in H.
    rewrite H. cbn [split_on foldl]. rewrite (bool_decide_eq_true_2 (SEPARATOR = SEPARATOR)) by done. done.
  - assert (stack_ok false 0 []) as Hs by done.
    pose proof (clean_loop_spec (len (String c rest)) false (String c rest) 0 [] ltac:(cbn; lia) Hs) as H.
    change (render false (stack_of 0 [])) with "" in H. change (mark false 0) with 0%nat in H.
    by rewrite H.
Qed.

(** The fields of a split have no separator. *)
Lemma split_on_no_sep s : Forall (fun e => no_sep e = true) (split_on SEPARATOR s).
Proof.
  induction s as [|c s IH]; [by apply Forall_singleton|]. cbn [split_on]. case_bool_decide as Hc.
  - by constructor.
  - destruct IH as [|f fs Hf Hfs].
    + apply Forall_singleton. unfold no_sep. cbn. by rewrite bool_decide_eq_false_2.
    + constructor; [|done]. unfold no_sep. cbn [all_chars]. by rewrite bool_decide_eq_false_2.
Qed.

(** Every stack the elements build is names over a run of [..]. *)
Lemma push_stack rooted k names e :
  stack_ok rooted k names -> no_sep e = true ->
  exists k' names', push_element rooted (stack_of k names) e = stack_of k' names' /\ stack_ok rooted k' names'.
Proof.
  intros [Hn Hk] He. unfold push_element.
  destruct (decide (e = "")) as [->|N1]; [by exists k, names|].
  destruct (decide (e = ".")) as [->|N2]; [by exists k, names|].
  rewrite (bool_decide_eq_false_2 (e = "")), (bool_decide_eq_false_2 (e = ".")) by done. cbn [orb].
  destruct (decide (e = "..")) as [->|N3].
  - rewrite bool_decide_eq_true_2 by done. destruct names as [|top names].
    + destruct k as [|k].
      * destruct rooted; [by exists 0%nat, []|]. by exists 1%nat, [].
      * exists (S (S k)), []. split; [done|]. split; [done|]. intros R. by apply Hk in R.
    + apply Forall_cons in Hn as [(_ & _ & Hdd & _) Hn]. exists k, names. split; [|done].
      cbn [stack_of app]. by rewrite (bool_decide_eq_false_2 (top = "..")).
  - rewrite bool_decide_eq_false_2 by done. exists k, (e :: names). split; [done|]. split; [|done].
    by constructor.
Qed.

Lemma elements_stack rooted es k names :
  stack_ok rooted k names -> Forall (fun e => no_sep e = true) es ->
  exists k' names', foldl (push_element rooted) (stack_of k names) es = stack_of k' names'
    /\ stack_ok rooted k' names'.
Proof.
  revert k names. induction es as [|e es IH]; intros k names Hs Hes; [by exists k, names|].
  apply Forall_cons in Hes as [He Hes]. destruct (push_stack rooted k names e Hs He) as (k1 & names1 & E & Hs1).
  cbn [foldl]. rewrite E. by apply IH.
Qed.

Lemma elements_of_stack path :
  exists k names, elements_of path = stack_of k names /\ stack_ok (is_rooted path) k names.
Proof. apply (elements_stack (is_rooted path) _ 0 []); [done|apply split_on_no_sep]. Qed.

(** Reading a rendered stack gives the stack back. *)
Lemma foldl_dotdots rooted k j :
  rooted = false -> foldl (push_element rooted) (replicate j "..") (replicate k "..") = replicate (k + j) "..".
Proof.
  intros ->. revert j. induction k as [|k IH]; intros j; [done|]. cbn [replicate foldl].
  assert (push_element false (replicate j "..") ".." = replicate (S j) "..") as -> by by destruct j.
  by rewrite IH, Nat.add_succ_r.
Qed.

Lemma foldl_names rooted st names :
  Forall is_name names -> foldl (push_element rooted) st names = rev names ++ st.
Proof.
  intros H. revert st. induction H as [|e names (N1 & N2 & N3 & _) _ IH]; intros st; [done|].
  cbn [foldl rev]. unfold push_element at 2. rewrite !bool_decide_eq_false_2 by done. cbn [orb].
  by rewrite IH, <- app_assoc.
Qed.

Lemma foldl_rendered rooted k names :
  stack_ok rooted k names -> foldl (push_element rooted) [] (rev (stack_of k names)) = stack_of k names.
Proof.
  intros [Hn Hk]. rewrite rev_stack, foldl_app. destruct rooted.
  - rewrite Hk by done. cbn [replicate foldl]. rewrite foldl_names by by apply Forall_rev.
    by rewrite rev_involutive.
  - rewrite (foldl_dotdots false k 0 eq_refl : foldl _ [] _ = _), Nat.add_0_r.
    rewrite foldl_names by by apply Forall_rev. by rewrite rev_involutive.
Qed.

Lemma stack_no_sep rooted k names :
  stack_ok rooted k names -> Forall (fun e => no_sep e = true) (rev (stack_of k names)).
Proof.
  intros [Hn _]. rewrite rev_stack. apply Forall_app_2; [by apply Forall_replicate|].
  apply Forall_rev. eapply Forall_impl; [exact Hn|]. by intros e (_ & _ & _ & ?).
Qed.

(** The fields of a rendered stack. *)
Lemma split_render rooted k names :
  stack_ok rooted k names ->
  split_on SEPARATOR (render rooted (stack_of k names))
    = (if rooted then [""] else []) ++ match rev (stack_of k names) with [] => [""] | l => l end.
Proof.
  intros Hs. unfold render. pose proof (stack_no_sep _ _ _ Hs) as Hf.
  assert (split_on SEPARATOR (join "/" (rev (stack_of k names)))
    = match rev (stack_of k names) with [] => [""] | l => l end) as E.
  { destruct (rev (stack_of k names)) as [|x l] eqn:Er; [done|]. by apply split_on_join. }
  destruct rooted; [|exact E].
  change ("/" +:+ ?s) with ("" +:+ String SEPARATOR s). rewrite split_on_two by done. by rewrite E.
Qed.

Lemma render_rooted rooted k names :
  stack_ok rooted k names -> render rooted (stack_of k names) <> "" ->
  is_rooted (render rooted (stack_of k names)) = rooted.
Proof.
  intros Hs Hne. destruct rooted; [done|]. unfold render in *. cbn in Hne |- *.
  pose proof (stack_no_sep _ _ _ Hs) as Hf. pose proof (stack_nonempty _ _ _ Hs) as Hn.
  destruct (rev (stack_of k names)) as [|x l]; [done|].
  apply Forall_cons in Hf as [Hx _]. apply Forall_cons in Hn as [Hx' _].
  destruct x as [|c x]; [done|]. unfold no_sep in Hx. cbn in Hx. apply andb_true_iff in Hx as [Hc _].
  apply negb_true_iff in Hc. destruct l; cbn; exact Hc.
Qed.

(** Cleaning a clean path changes nothing. *)
Lemma clean_idempotent path : clean (clean path) = clean path.
Proof.
  rewrite !clean_is_ref. unfold clean_ref at 2 3.
  destruct (elements_of_stack path) as (k & names & E & Hs). rewrite E.
  case_bool_decide as Hne; [done|]. unfold clean_ref, elements_of.
  rewrite render_rooted by done. rewrite split_render by done.
  assert (foldl (push_element (is_rooted path)) []
            ((if is_rooted path then [""] else []) ++ match rev (stack_of k names) with [] => [""] | l => l end)
          = stack_of k names) as ->.
  { pose proof (foldl_rendered _ _ _ Hs) as Hfr.
    destruct (is_rooted path); destruct (rev (stack_of k names)); exact Hfr. }
  by rewrite bool_decide_eq_false_2.
Qed.

(** A path that is rooted and clean names no parent: none of its elements is
    [..], so reading it from the root never leaves a directory it entered. *)
Lemma clean_rooted_no_dotdot path :
  is_rooted path = true -> clean path = path -> ".." ∉ split_on SEPARATOR path.
Proof.
  intros Hr Hc. rewrite clean_is_ref in Hc. unfold clean_ref in Hc.
  destruct (elements_of_stack path) as (k & names & E & Hs). rewrite E, Hr in *.
  rewrite <- Hc. change (bool_decide (render true (stack_of k names) = "")) with false. cbn [orb].
  rewrite split_render by done. destruct Hs as [Hn Hk]. rewrite rev_stack, Hk by done.
  cbn [replicate app]. intros Hin. apply elem_of_cons in Hin as [?|Hin]; [done|].
  assert (".." ∈ rev names) as Hin'.
  { destruct (rev names); [by apply list_elem_of_singleton in Hin|done]. }
  apply Forall_rev in Hn. rewrite Forall_forall in Hn. by destruct (Hn _ Hin') as (_ & _ & ? & _).
Qed.

(** The single pass of [clean] over the bytes, with its output buffer and its
    backtracking mark, computes the reference definition on every path: split the
    path into elements, fold them onto a stack where [..] pops, and print the
    stack. What it returns is clean already. *)
Theorem clean_reference path : clean path = clean_ref path /\ clean (clean path) = clean path.
Proof. split; [apply clean_is_ref|apply clean_idempotent]. Qed.
