(* ===== verification/Policy.v ===== *)
(** * The policy (src/policy/)

    [translate] and [class_body] check the spelling of a device glob, [compile]
    hands it to the [glob] crate, whose [Pattern::new] and [matches_with] are the
    class [GlobCrate]. [Global] is the daemon's policy, [Container] the one its
    labels ask for. The labels of a container are a [gmap]. *)

From stdpp Require Import sorting.
From S2P Require Import Prelude.
From S2P Require Import Text.
From S2P Require Import TextProofs.
From S2P Require Import Lexpath.
From S2P Require Import LexpathProofs.

(** ** Characters *)

(** [str::chars]: a character is its bytes, a first byte and the continuation
    bytes after it. *)
Definition is_continuation (c : Ascii.ascii) : bool := ((128 <=? ord c) && (ord c <? 192))%nat.

(** A byte before the characters of [rest]. *)
Definition push_char (c : Ascii.ascii) (rest : string) (cs : list string) : list string :=
  match cs with
  | h :: t =>
      if match rest with String d _ => is_continuation d | EmptyString => false end then String c h :: t
      else of_char c :: cs
  | [] => [of_char c]
  end.

Fixpoint chars (s : string) : list string :=
  match s with
  | EmptyString => []
  | String c s => push_char c s (chars s)
  end.

(** The order of characters against an ASCII one is that of their first bytes. *)
Definition first_byte (c : string) : nat := match c with String a _ => ord a | EmptyString => O end.
Definition char_le (a b : string) : bool := (first_byte a <=? first_byte b)%nat.

(** ** Globs (policy/glob.rs) *)

Record BadPattern := { reason : string }.

Definition BadPattern_text (e : BadPattern) : string := "syntax error in pattern: " +:+ e.(reason).

Definition bad (reason : string) : BadPattern := {| reason := reason |}.

Record MatchOptions := {
  case_sensitive : bool;
  require_literal_separator : bool;
  require_literal_leading_dot : bool;
}.

Definition OPTIONS : MatchOptions := {|
  case_sensitive := true; require_literal_separator := true; require_literal_leading_dot := false;
|}.

(** The [glob] crate. *)
Class GlobCrate := {
  Pattern : Type;
  Pattern_new : string -> option Pattern;
  matches_with : Pattern -> string -> MatchOptions -> bool;
}.

(** The rest after the class's [\]], and the output with the class copied. *)
Fixpoint class_body (rest : list string) (items : nat) (out : string)
    : result BadPattern (list string * string) :=
  match rest with
  | [] => Err (bad "missing ]")
  | low :: rest =>
      if bool_decide (low = "]") && (0 <? items)%nat then Ok (rest, out +:+ "]")
      else if bool_decide (low = "]") || bool_decide (low = "-") then
        Err (bad "empty class or a dash outside a range")
      else
        let out := out +:+ low in
        if bool_decide (low = "/") then Err (bad "a class naming / is not supported")
        else
          match rest with
          | dash :: rest' =>
              if bool_decide (dash = "-") then
                match rest' with
                | [] => Err (bad "missing ]")
                | high :: rest'' =>
                    if bool_decide (high = "]") || bool_decide (high = "-") then Err (bad "a dash outside a range")
                    else if char_le low "/" && char_le "/" high then
                      Err (bad "a class range spanning / is not supported")
                    else class_body rest'' (S items) (out +:+ "-" +:+ high)
                end
              else class_body rest (S items) out
          | [] => class_body rest (S items) out
          end
  end.

(** The loop of [translate]; a turn reads at least one character. *)
Fixpoint translate_loop (fuel : nat) (rest : list string) (out : string) : result BadPattern string :=
  match fuel, rest with
  | _, [] => Ok out
  | O, _ :: _ => Err (bad "")
  | S fuel, character :: rest =>
      if negb (bool_decide (character = "[")) then translate_loop fuel rest (out +:+ character)
      else
        let out := out +:+ "[" in
        match head rest with
        | Some c =>
            if bool_decide (c = "!") then Err (bad "[!x] is not supported")
            else if bool_decide (c = "^") then
              Err (bad "a negated class [^x] could match /, which fails open for a deny glob")
            else '(rest, out) ← class_body rest 0 out; translate_loop fuel rest out
        | None => '(rest, out) ← class_body rest 0 out; translate_loop fuel rest out
        end
  end.

Definition translate (pattern : string) : result BadPattern string :=
  if contains pattern "\" then Err (bad "a backslash escape is not supported, use a class like [*]")
  else if contains pattern "**" then Err (bad "** is not supported")
  else translate_loop (length (chars pattern)) (chars pattern) "".

(** ** The policy (policy/mod.rs) *)

Definition LABEL_PREFIX : string := "swarm-device-access.".
Definition LABEL_ENABLE : string := "swarm-device-access.enable".
Definition LABEL_DEVICE_ALLOW : string := "swarm-device-access.device-allow".
Definition LABEL_DEVICE_DENY : string := "swarm-device-access.device-deny".
Definition KNOWN_LABELS : list string := [LABEL_ENABLE; LABEL_DEVICE_ALLOW; LABEL_DEVICE_DENY].
Definition DEV_PREFIX : string := "/dev/".

Inductive Mode := OptIn | All.

#[global] Instance Mode_eq_dec : EqDecision Mode.
Proof. solve_decision. Defined.

Definition Mode_as_str (m : Mode) : string := match m with OptIn => "opt-in" | All => "all" end.

Inductive GlobError :=
  | GlobBadPattern (pattern : string) (source : BadPattern)
  | NotClean (pattern : string)
  | OutsideDev (pattern : string).

Definition GlobError_text (e : GlobError) : string :=
  match e with
  | GlobBadPattern pattern source =>
      "invalid glob pattern " +:+ quote pattern +:+ ": " +:+ BadPattern_text source
  | NotClean pattern => "glob pattern is not a clean path: " +:+ quote pattern
  | OutsideDev pattern => "glob pattern must start with /dev/: " +:+ quote pattern
  end.

Inductive PolicyError :=
  | UnknownMode (mode : string)
  | NotABoolean (label value : string)
  | LabelGlob (label : string) (source : GlobError)
  | DeviceAllow (source : GlobError)
  | DeviceDeny (source : GlobError).

Definition PolicyError_text (e : PolicyError) : string :=
  match e with
  | UnknownMode mode =>
      "unknown policy mode " +:+ quote mode +:+ ": must be " +:+ quote "opt-in" +:+ " or " +:+ quote "all"
  | NotABoolean label value =>
      "invalid value for label " +:+ quote label +:+ ": " +:+ quote value +:+ " is not a boolean"
  | LabelGlob label source => "invalid glob in label " +:+ quote label +:+ ": " +:+ GlobError_text source
  | DeviceAllow source => "device-allow: " +:+ GlobError_text source
  | DeviceDeny source => "device-deny: " +:+ GlobError_text source
  end.

Definition parse_mode (mode : string) : result PolicyError Mode :=
  if bool_decide (mode = "opt-in") then Ok OptIn
  else if bool_decide (mode = "all") then Ok All
  else Err (UnknownMode mode).

Definition parse_bool (value : string) : option bool :=
  if bool_decide (value = "true") then Some true
  else if bool_decide (value = "false") then Some false
  else None.

(** A list that may be Go's nil. *)
Abbreviation globs := (option (list string)).

Record Global := {
  mode : Mode;
  g_device_allow : globs;
  g_device_deny : globs;
}.

Record Container := {
  enable : option bool;
  c_device_allow : globs;
  c_device_deny : globs;
}.

Definition Container_default : Container :=
  {| enable := None; c_device_allow := None; c_device_deny := None |}.

Definition is_empty (patterns : globs) : bool :=
  match patterns with None | Some [] => true | Some (_ :: _) => false end.

Definition split_and_trim (raw : string) : list string :=
  filter (fun part => part <> "") (trim is_whitespace <$> split_on (chr 44) raw).

Definition unknown_labels (labels : gmap string string) : list string :=
  merge_sort String.le
    (filter (fun key => starts_with key LABEL_PREFIX = true /\ key ∉ KNOWN_LABELS) (map_to_list labels).*1).

Section crate.
Context {crate : GlobCrate}.

Definition compile (pattern : string) : result BadPattern Pattern :=
  translated ← translate pattern;
  ok_or (Pattern_new translated) (bad "malformed pattern").

Definition matches (pattern name : string) : bool :=
  match compile pattern with Ok compiled => matches_with compiled name OPTIONS | Err _ => false end.

Fixpoint validate_globs (patterns : list string) : result GlobError unit :=
  match patterns with
  | [] => Ok tt
  | pattern :: patterns =>
      match compile pattern with
      | Err source => Err (GlobBadPattern pattern source)
      | Ok _ =>
          if negb (bool_decide (clean pattern = pattern)) then Err (NotClean pattern)
          else if negb (starts_with pattern DEV_PREFIX) then Err (OutsideDev pattern)
          else validate_globs patterns
      end
  end.

Definition Global_new (mode : string) (device_allow device_deny : globs) : result PolicyError Global :=
  mode ← parse_mode mode;
  _ ← map_err DeviceAllow (validate_globs (default [] device_allow));
  _ ← map_err DeviceDeny (validate_globs (default [] device_deny));
  Ok {| mode := mode; g_device_allow := device_allow; g_device_deny := device_deny |}.

Definition match_any (patterns : globs) (path : string) : bool :=
  existsb (fun pattern => matches pattern path) (default [] patterns).

Definition enabled (g : Global) (c : Container) : bool :=
  if bool_decide (c.(enable) = Some false) then false
  else match g.(mode) with OptIn => bool_decide (c.(enable) = Some true) | All => true end.

Definition denied (g : Global) (c : Container) (path : string) : bool :=
  match_any g.(g_device_deny) path || match_any c.(c_device_deny) path.

Definition authorized (g : Global) (c : Container) (path : string) : bool :=
  if negb (is_empty g.(g_device_allow)) && negb (match_any g.(g_device_allow) path) then false
  else is_empty c.(c_device_allow) || match_any c.(c_device_allow) path.

Definition device_allowed (g : Global) (c : Container) (path : string) : bool :=
  negb (denied g c path) && authorized g c path.

Definition explicitly_allowed (g : Global) (c : Container) (path : string) : bool :=
  (negb (is_empty g.(g_device_allow)) || negb (is_empty c.(c_device_allow))) && device_allowed g c path.

Definition parse_glob_list (labels : gmap string string) (label : string) : result PolicyError globs :=
  let raw := default "" (labels !! label) in
  if bool_decide (raw = "") then Ok None
  else
    let patterns := split_and_trim raw in
    _ ← map_err (LabelGlob label) (validate_globs patterns);
    Ok (Some patterns).

Definition Container_parse (labels : gmap string string) : result PolicyError Container :=
  enable ← match labels !! LABEL_ENABLE with
           | None => Ok None
           | Some value => Some <$> ok_or (parse_bool value) (NotABoolean LABEL_ENABLE value)
           end;
  device_allow ← parse_glob_list labels LABEL_DEVICE_ALLOW;
  device_deny ← parse_glob_list labels LABEL_DEVICE_DENY;
  Ok {| enable := enable; c_device_allow := device_allow; c_device_deny := device_deny |}.

End crate.
