(* ===== verification/PolicyProofs.v ===== *)
(** * What the policy promises

    The spellings [translate] accepts are a grammar; validated globs stay under
    [/dev/]; and the labels of a container can only narrow what the daemon's
    policy allows. *)

From stdpp Require Import sorting.
From S2P Require Import Prelude.
From S2P Require Import Text.
From S2P Require Import TextProofs.
From S2P Require Import Lexpath.
From S2P Require Import LexpathProofs.
From S2P Require Import Policy.

(** ** The grammar of globs *)

(** Concatenates the characters. *)
Definition text_of (cs : list string) : string := foldr String.append "" cs.

(** The codes, as first bytes, an item of a class ranges over. *)
Definition item_covers (low high c : string) : Prop :=
  (first_byte low <= first_byte c <= first_byte high)%nat.

(** Items of a class, each one character or a range of two. *)
Inductive items : list string -> Prop :=
  | items_nil : items []
  | items_one low body : low <> "]" -> low <> "-" -> low <> "/" -> items body -> items (low :: body)
  | items_range low high body :
      low <> "]" -> low <> "-" -> low <> "/" -> high <> "]" -> high <> "-" ->
      ~ item_covers low high "/" -> items body -> items (low :: "-" :: high :: body).

(** A pattern: plain characters and classes that are not negated. *)
Inductive pattern_ok : list string -> Prop :=
  | pattern_nil : pattern_ok []
  | pattern_char c cs : c <> "[" -> pattern_ok cs -> pattern_ok (c :: cs)
  | pattern_class body cs :
      items body -> body <> [] -> head body <> Some "!" -> head body <> Some "^" -> pattern_ok cs ->
      pattern_ok ("[" :: body ++ "]" :: cs).

Lemma text_of_app a b : text_of (a ++ b) = text_of a +:+ text_of b.
Proof. induction a as [|c a IH]; [done|]. cbn [app text_of foldr]. fold (text_of (a ++ b)). rewrite IH. by rewrite append_assoc. Qed.

Lemma text_of_cons c cs : text_of (c :: cs) = c +:+ text_of cs.
Proof. done. Qed.

Lemma text_of_chars s : text_of (chars s) = s.
Proof.
  induction s as [|c s IH]; [done|]. cbn [chars]. unfold push_char. destruct (chars s) as [|h t].
  - cbn in IH |- *. by rewrite <- IH.
  - destruct (match s with EmptyString => false | String d _ => is_continuation d end).
    + rewrite text_of_cons. rewrite text_of_cons in IH. exact (f_equal (String c) IH).
    + rewrite (text_of_cons (of_char c)). rewrite IH. done.
Qed.

Lemma char_le_covers low high : char_le low "/" && char_le "/" high = false <-> ~ item_covers low high "/".
Proof.
  unfold char_le, item_covers. destruct (Nat.leb_spec (first_byte low) (first_byte "/")),
    (Nat.leb_spec (first_byte "/") (first_byte high)); cbn [andb]; split; (done || lia || intros; lia).
Qed.

(** [class_body] accepts exactly the items up to the first bracket that closes
    the class. *)
Lemma class_body_sound rest n out rest' out' :
  class_body rest n out = Ok (rest', out') ->
  exists body, items body /\ (n = 0%nat -> body <> []) /\ rest = body ++ "]" :: rest'
    /\ out' = out +:+ text_of (body ++ ["]"]).
Proof.
  remember (length rest) as m eqn:Em. revert rest n out Em.
  induction (lt_wf m) as [m _ IH]; intros rest n out -> E. destruct rest as [|low rest]; [done|].
  cbn [class_body] in E. destruct (decide (low = "]")) as [->|N1].
  { destruct n as [|n]; [done|]. injection E as -> <-. exists []. split_and!; [constructor|done|done|done]. }
  rewrite (bool_decide_eq_false_2 (low = "]")) in E by done. cbn [andb orb] in E.
  destruct (decide (low = "-")) as [->|N2]; [done|].
  destruct (decide (low = "/")) as [->|N3]; [done|].
  rewrite (bool_decide_eq_false_2 (low = "-")), (bool_decide_eq_false_2 (low = "/")) in E by done.
  destruct rest as [|dash rest1]; [done|]. destruct (decide (dash = "-")) as [->|Nd].
  - rewrite bool_decide_eq_true_2 in E by done. destruct rest1 as [|high rest2]; [done|].
    destruct (decide (high = "]")) as [->|N4]; [done|]. destruct (decide (high = "-")) as [->|N5]; [done|].
    rewrite (bool_decide_eq_false_2 (high = "]")), (bool_decide_eq_false_2 (high = "-")) in E by done.
    cbn [orb] in E. destruct (char_le low "/" && char_le "/" high) eqn:Ec; [done|].
    apply (IH (length rest2)) in E as (body & Hb & _ & -> & ->); [|cbn; lia|done].
    exists (low :: "-" :: high :: body). split_and!; [|done|done|].
    + apply items_range; try done. by apply char_le_covers.
    + cbn [app]. rewrite !text_of_cons. by rewrite !append_assoc.
  - rewrite bool_decide_eq_false_2 in E by done.
    apply (IH (length (dash :: rest1))) in E as (body & Hb & _ & -> & ->); [|cbn; lia|done].
    exists (low :: body). split_and!; [by constructor|done|done|].
    cbn [app]. rewrite !text_of_cons. by rewrite !append_assoc.
Qed.

Lemma class_body_complete body rest n out :
  items body -> (n = 0%nat -> body <> []) ->
  class_body (body ++ "]" :: rest) n out = Ok (rest, out +:+ text_of (body ++ ["]"])).
Proof.
  intros Hb. revert n out. induction Hb as [|low body N1 N2 N3 Hb IH|low high body N1 N2 N3 N4 N5 Nc Hb IH];
    intros n out Hn.
  - destruct n as [|n]; [by specialize (Hn eq_refl)|]. done.
  - cbn [app class_body]. rewrite !bool_decide_eq_false_2 by done. cbn [andb orb].
    rewrite text_of_cons, <- append_assoc. rewrite <- (IH (S n)) by done.
    destruct Hb as [|low' body' ? M2|]; cbn [app]; by rewrite bool_decide_eq_false_2.
  - cbn [app class_body]. rewrite (bool_decide_eq_true_2 ("-" = "-")) by done.
    rewrite !bool_decide_eq_false_2 by done. cbn [andb orb].
    rewrite (proj2 (char_le_covers low high)) by done.
    rewrite !text_of_cons, <- !append_assoc. rewrite IH by done. by rewrite !append_assoc.
Qed.

Lemma translate_loop_sound fuel rest out out' :
  translate_loop fuel rest out = Ok out' -> pattern_ok rest /\ out' = out +:+ text_of rest.
Proof.
  revert rest out. induction fuel as [|fuel IH]; intros rest out E; destruct rest as [|c rest]; try done.
  1, 2: injection E as <-; split; [constructor|by rewrite app_empty_r].
  cbn [translate_loop] in E. destruct (decide (c = "[")) as [->|Nc].
  - rewrite bool_decide_eq_true_2 in E by done. cbn [negb] in E.
    assert (('(rest, out) ← class_body rest 0 (out +:+ "["); translate_loop fuel rest out) = Ok out'
      /\ head rest <> Some "!" /\ head rest <> Some "^") as (E' & H1 & H2).
    { destruct (head rest) as [h|]; [|done]. case_bool_decide; [done|]. case_bool_decide; [done|].
      split_and!; [done|congruence|congruence]. }
    clear E. apply bind_Ok in E' as ([rest' out1] & Eb & E).
    apply class_body_sound in Eb as (body & Hb & Hne & -> & ->). specialize (Hne eq_refl).
    apply IH in E as [Hp ->]. split.
    + constructor; try done; by destruct body.
    + rewrite text_of_cons, !text_of_app. by rewrite !append_assoc.
  - rewrite bool_decide_eq_false_2 in E by done. cbn [negb] in E. apply IH in E as [Hp ->]. split.
    + by constructor.
    + by rewrite text_of_cons, append_assoc.
Qed.

Lemma translate_loop_complete fuel rest out :
  pattern_ok rest -> (length rest <= fuel)%nat -> translate_loop fuel rest out = Ok (out +:+ text_of rest).
Proof.
  intros Hp. revert fuel out. induction Hp as [|c cs Nc Hp IH|body cs Hb Hne H1 H2 Hp IH]; intros fuel out Hf.
  - destruct fuel; cbn; by rewrite app_empty_r.
  - destruct fuel as [|fuel]; [cbn in Hf; lia|]. cbn [translate_loop]. rewrite bool_decide_eq_false_2 by done.
    cbn [negb]. rewrite IH by (cbn in Hf; lia). by rewrite text_of_cons, append_assoc.
  - destruct fuel as [|fuel]; [cbn in Hf; lia|]. cbn [translate_loop]. rewrite bool_decide_eq_true_2 by done.
    cbn [negb]. rewrite class_body_complete by done. destruct body as [|b body]; [done|].
    cbn [head] in H1, H2. cbn [app head]. rewrite !bool_decide_eq_false_2 by congruence.
    cbn [mbind result_bind]. change (b :: body ++ ["]"]) with ((b :: body) ++ ["]"]).
    rewrite IH by (cbn in Hf; rewrite length_app in Hf; cbn in Hf; lia).
    rewrite (text_of_cons "["). change (b :: body ++ "]" :: cs) with ((b :: body) ++ "]" :: cs).
    rewrite !text_of_app. by rewrite !append_assoc.
Qed.

(** C14. The globs the daemon accepts are exactly a grammar: no backslash, no
    [**], and, character by character, plain characters and classes that are not
    negated, not empty, have a dash only between two characters, and neither name
    [/] nor range over it. An accepted glob reaches the matcher unchanged. *)
Theorem translate_grammar pattern out :
  translate pattern = Ok out
  <-> out = pattern /\ contains pattern "\" = false /\ contains pattern "**" = false
      /\ pattern_ok (chars pattern).
Proof.
  unfold translate. destruct (contains pattern "\"); [naive_solver|].
  destruct (contains pattern "**"); [naive_solver|]. split.
  - intros E. apply translate_loop_sound in E as [Hp ->]. by rewrite text_of_chars.
  - intros (-> & _ & _ & Hp). rewrite translate_loop_complete by done. by rewrite text_of_chars.
Qed.

(** ** Validated globs *)

Lemma starts_with_app s p : starts_with s p = true -> exists t, s = p +:+ t.
Proof.
  unfold starts_with. revert s. induction p as [|a p IH]; intros s H; [by exists s|].
  destruct s as [|b s]; [done|]. cbn [strip_prefix] in H. case_bool_decide as Hab; [|done]. subst.
  destruct (IH s H) as [t ->]. by exists t.
Qed.

Lemma translate_id pattern out : translate pattern = Ok out -> out = pattern.
Proof.
  unfold translate. destruct (contains pattern "\"); [done|]. destruct (contains pattern "**"); [done|].
  intros E. apply translate_loop_sound in E as [_ ->]. apply text_of_chars.
Qed.

(** A glob that can only match below [/dev/]: accepted as it is written, clean,
    under [/dev/] and without a parent element. *)
Definition dev_glob (pattern : string) : Prop :=
  translate pattern = Ok pattern /\ clean pattern = pattern
  /\ (exists rest, pattern = "/dev/" +:+ rest) /\ ".." ∉ split_on SEPARATOR pattern.

Section crate.
Context {crate : GlobCrate}.

Lemma compile_translate pattern compiled :
  compile pattern = Ok compiled -> translate pattern = Ok pattern.
Proof.
  unfold compile. intros Hv. apply bind_Ok in Hv as (out & E & _). rewrite E.
  by rewrite (translate_id _ _ E).
Qed.

Lemma validate_dev patterns : validate_globs patterns = Ok tt -> Forall dev_glob patterns.
Proof.
  induction patterns as [|pattern patterns IH]; [done|]. cbn [validate_globs].
  destruct (compile pattern) as [compiled|] eqn:Ec; [|done].
  destruct (bool_decide (clean pattern = pattern)) eqn:Ecl; cbn [negb]; [|done].
  apply bool_decide_eq_true_1 in Ecl.
  destruct (starts_with pattern DEV_PREFIX) eqn:Es; cbn [negb]; [|done]. intros H.
  constructor; [|by apply IH]. apply starts_with_app in Es as [rest Er].
  split_and!; [by eapply compile_translate|done|by exists rest|].
  apply clean_rooted_no_dotdot; [by rewrite Er|done].
Qed.

Lemma parse_glob_list_dev labels label l :
  parse_glob_list labels label = Ok l -> Forall dev_glob (default [] l).
Proof.
  unfold parse_glob_list. case_bool_decide; intros E; [by injection E as <-|].
  apply bind_Ok in E as ([] & E & El). apply map_err_Ok, validate_dev in E. by injection El as <-.
Qed.

(** Every glob of a policy that exists, the daemon's or a container's, is
    read by the matcher as it is written, is a clean path under [/dev/] and has no
    [..] element: neither a config nor a label can name anything else. *)
Theorem globs_stay_in_dev mode allow deny labels g c :
  Global_new mode allow deny = Ok g -> Container_parse labels = Ok c ->
  Forall (fun l => Forall dev_glob (default [] l))
    [g.(g_device_allow); g.(g_device_deny); c.(c_device_allow); c.(c_device_deny)].
Proof.
  intros Hg Hc. unfold Global_new in Hg. apply bind_Ok in Hg as (m & _ & Hg).
  apply bind_Ok in Hg as ([] & H1 & Hg). apply bind_Ok in Hg as ([] & H2 & Hg). injection Hg as <-.
  unfold Container_parse in Hc. apply bind_Ok in Hc as (e & _ & Hc).
  apply bind_Ok in Hc as (a & H3 & Hc). apply bind_Ok in Hc as (d & H4 & Hc). injection Hc as <-.
  apply map_err_Ok, validate_dev in H1, H2. apply parse_glob_list_dev in H3, H4.
  by repeat constructor.
Qed.

(** ** Labels only narrow *)

Definition some_match (l : globs) (path : string) : Prop :=
  exists pattern, pattern ∈ default [] l /\ matches pattern path = true.

Lemma match_any_spec l path : match_any l path = true <-> some_match l path.
Proof.
  unfold match_any, some_match. rewrite existsb_exists. setoid_rewrite list_elem_of_In. done.
Qed.

(** A list that allows the path: one that names nothing allows everything. *)
Definition allows (l : globs) (path : string) : Prop := default [] l = [] \/ some_match l path.

Lemma is_empty_spec l : is_empty l = true <-> default [] l = [].
Proof. by destruct l as [[|]|]. Qed.

Lemma allows_spec l path : is_empty l || match_any l path = true <-> allows l path.
Proof. unfold allows. by rewrite orb_true_iff, is_empty_spec, match_any_spec. Qed.

Lemma authorized_spec g c path :
  authorized g c path = true <-> allows g.(g_device_allow) path /\ allows c.(c_device_allow) path.
Proof.
  rewrite <- !allows_spec. unfold authorized.
  destruct (is_empty (g_device_allow g)), (match_any (g_device_allow g) path),
    (is_empty (c_device_allow c)), (match_any (c_device_allow c) path); cbn; naive_solver.
Qed.

Lemma denied_spec g c path :
  denied g c path = true <-> some_match g.(g_device_deny) path \/ some_match c.(c_device_deny) path.
Proof. unfold denied. by rewrite orb_true_iff, !match_any_spec. Qed.

Lemma device_allowed_spec g c path :
  device_allowed g c path = true
  <-> ~ some_match g.(g_device_deny) path /\ ~ some_match c.(c_device_deny) path
      /\ allows g.(g_device_allow) path /\ allows c.(c_device_allow) path.
Proof.
  unfold device_allowed. rewrite andb_true_iff, negb_true_iff, authorized_spec.
  pose proof (denied_spec g c path) as Hd. destruct (denied g c path); naive_solver.
Qed.

Lemma explicitly_allowed_spec g c path :
  explicitly_allowed g c path = true
  <-> device_allowed g c path = true
      /\ (some_match g.(g_device_allow) path \/ some_match c.(c_device_allow) path).
Proof.
  unfold explicitly_allowed. rewrite andb_true_iff, orb_true_iff, !negb_true_iff, <- !not_true_iff_false,
    !is_empty_spec.
  assert (forall l, some_match l path -> default [] l <> []) as Hne.
  { intros l (pattern & Hp & _) E. rewrite E in Hp. by apply elem_of_nil in Hp. }
  pose proof (Hne (g_device_allow g)). pose proof (Hne (c_device_allow c)).
  split; [|naive_solver]. intros [He Ha]. split; [done|].
  apply device_allowed_spec in Ha as (_ & _ & H1 & H2). unfold allows in *. naive_solver.
Qed.

Lemma enabled_spec g c :
  enabled g c = true <-> c.(enable) = Some true \/ (g.(mode) = All /\ c.(enable) = None).
Proof. unfold enabled. destruct c.(enable) as [[]|], g.(mode); cbn; naive_solver. Qed.

(** C9. A path is allowed exactly when no deny glob of either side matches it and
    the allow list of each side names nothing or matches it. So whatever the
    labels say, they only narrow what the daemon's policy allows without them. A
    path is allowed explicitly exactly when it is allowed and an allow glob of
    one side matches it, and a container is taken in exactly when its labels
    enable it or the mode takes in all and they say nothing. *)
Theorem labels_only_narrow g c path :
  (device_allowed g c path = true
   <-> ~ some_match g.(g_device_deny) path /\ ~ some_match c.(c_device_deny) path
       /\ (default [] g.(g_device_allow) = [] \/ some_match g.(g_device_allow) path)
       /\ (default [] c.(c_device_allow) = [] \/ some_match c.(c_device_allow) path))
  /\ (device_allowed g c path = true
      <-> device_allowed g Container_default path = true
          /\ ~ some_match c.(c_device_deny) path /\ allows c.(c_device_allow) path)
  /\ (explicitly_allowed g c path = true
      <-> device_allowed g c path = true
          /\ (some_match g.(g_device_allow) path \/ some_match c.(c_device_allow) path))
  /\ (enabled g c = true <-> c.(enable) = Some true \/ (g.(mode) = All /\ c.(enable) = None)).
Proof.
  split_and!.
  - apply device_allowed_spec.
  - rewrite !device_allowed_spec. unfold Container_default. cbn [c_device_deny c_device_allow].
    assert (~ some_match None path) by (intros (? & H & _); by apply elem_of_nil in H).
    assert (allows None path) by by left. naive_solver.
  - apply explicitly_allowed_spec.
  - apply enabled_spec.
Qed.

End crate.

(** ** A policy that exists *)

Module PolicyExample.

(** A matcher of literal patterns and a trailing star that stays in its directory. *)
Definition literal_match (pattern name : string) : bool :=
  match List.rev (chars pattern) with
  | star :: prefix =>
      if bool_decide (star = "*")
      then match strip_prefix (text_of (List.rev prefix)) name with
           | Some rest => negb (contains rest "/")
           | None => false
           end
      else bool_decide (pattern = name)
  | [] => bool_decide (pattern = name)
  end.

#[local] Instance literal_crate : GlobCrate := {|
  Pattern := string; Pattern_new := Some; matches_with := fun p n _ => literal_match p n;
|}.

Definition labels : gmap string string :=
  {[ LABEL_ENABLE := "true"; LABEL_DEVICE_ALLOW := "/dev/tty*, /dev/dri/card0"; LABEL_DEVICE_DENY := "/dev/ttyS9" ]}.

Lemma globs_stay_in_dev_witness :
  exists g c, Global_new "opt-in" None (Some ["/dev/mem"]) = Ok g /\ Container_parse labels = Ok c
    /\ Forall dev_glob (default [] c.(c_device_allow))
    /\ default [] c.(c_device_allow) = ["/dev/tty*"; "/dev/dri/card0"].
Proof.
  eexists _, _. split_and!; [vm_compute; reflexivity|vm_compute; reflexivity| |reflexivity].
  refine (Forall_inv (Forall_inv_tail (Forall_inv_tail
    (globs_stay_in_dev "opt-in" None (Some ["/dev/mem"]) labels _ _ _ _)))); vm_compute; reflexivity.
Defined.

Example policy_example :
  exists g c, Global_new "opt-in" None (Some ["/dev/mem"]) = Ok g /\ Container_parse labels = Ok c
    /\ enabled g c = true
    /\ device_allowed g c <$> ["/dev/tty0"; "/dev/ttyS9"; "/dev/mem"; "/dev/dri/card0"; "/dev/sda"]
       = [true; false; false; true; false]
    /\ unknown_labels (<["swarm-device-access.enabled" := "1"]> labels) = ["swarm-device-access.enabled"].
Proof. eexists _, _. split_and!; vm_compute; reflexivity. Qed.

Example refused_globs :
  (fun p => is_ok (translate p)) <$>
    ["/dev/**"; "/dev/[!a]"; "/dev/[^a]"; "/dev/[]"; "/dev/[a-]"; "/dev/[+-9]"; "/dev/[a"; "/dev/[a-z0]x"]
  = [false; false; false; false; false; false; false; true].
Proof. reflexivity. Qed.

End PolicyExample.
