(* ===== verification/ProcCgroup.v ===== *)
(** * Where a process's device cgroup is (src/cgroup/api.rs, v1.rs, v2.rs, handle.rs)

    Parsing the [cgroup] and [mountinfo] files of a process, and the open cgroup
    directory the rules are set through. File contents are taken as text: bytes
    that are not UTF-8 would be replaced by [from_utf8_lossy], valid ones are kept.
    [device_cgroup] says on the entries themselves what the parser computes from
    their text. *)

From S2P Require Import Prelude.
From S2P Require Import Text.
From S2P Require Import TextProofs.
From S2P Require Import Lexpath.
From S2P Require Import V2.

Inductive CgroupVersion := CgroupV1 | CgroupV2.

#[global] Instance CgroupVersion_eq_dec : EqDecision CgroupVersion.
Proof. solve_decision. Defined.

Definition CgroupVersion_number (v : CgroupVersion) : Z := match v with CgroupV1 => 1 | CgroupV2 => 2 end.

Record ProcCgroup := {
  version : CgroupVersion;
  mount_prefix : string;
  mount_point : string;
  root : string;
}.

Inductive ParseError :=
  | MalformedCgroupEntry (line : string)
  | MalformedMountinfoEntry (line : string)
  | RelativeMountPrefix (prefix : string)
  | NoDeviceOrUnifiedCgroup
  | NoCgroupV1Fs
  | NoDevicesCgroup
  | NoCgroup2Fs
  | NoCgroupV2Entry
  | ReadTooLong (file : string).

Definition ParseError_text (e : ParseError) : string :=
  match e with
  | MalformedCgroupEntry line => "malformed cgroup entry: " +:+ line
  | MalformedMountinfoEntry line => "malformed mountinfo entry: " +:+ line
  | RelativeMountPrefix prefix => "relative path in mount prefix: " +:+ prefix
  | NoDeviceOrUnifiedCgroup => "no devices or unified cgroup entries found"
  | NoCgroupV1Fs => "no cgroup filesystem mounted for the devices subsytem in mountinfo file"
  | NoDevicesCgroup => "no devices cgroup entries found"
  | NoCgroup2Fs => "no cgroup2 filesystem in mountinfo file"
  | NoCgroupV2Entry => "no cgroupv2 entries in file"
  | ReadTooLong file => "read " +:+ quote file +:+ ": line longer than " +:+ pretty MAX_LINE +:+ " bytes"
  end.

Definition CGROUP_FILE : string := "cgroup".
Definition MOUNTINFO_FILE : string := "mountinfo".

(** [scan_lines]: each line, or the error that ends the iteration. *)
Definition scan_lines (data file : string) : list (result ParseError string) :=
  (fun item => match item with Line l => Ok l | LineTooLong => Err (ReadTooLong file) end) <$> lines data.

(** The loop of [scan_cgroup_version]. *)
Fixpoint scan_version_loop (items : list (result ParseError string)) (devices unified : bool)
    : result ParseError (bool * bool) :=
  match items with
  | [] => Ok (devices, unified)
  | item :: items =>
      line ← item;
      match splitn 3 (chr 58) line with
      | [_; controllers; _] =>
          scan_version_loop items (devices || bool_decide (controllers = "devices"))
            (unified || bool_decide (controllers = ""))
      | _ => Err (MalformedCgroupEntry line)
      end
  end.

Definition scan_cgroup_version (data file : string) : result ParseError CgroupVersion :=
  '(devices, unified) ← scan_version_loop (scan_lines data file) false false;
  if (devices : bool) then Ok CgroupV1
  else if (unified : bool) then Ok CgroupV2 else Err NoDeviceOrUnifiedCgroup.

(** [parts[index]], in range where the caller has checked the length. *)
Definition part (parts : list string) (i : nat) : string := default "" (parts !! i).

(** The loop of [scan_mount_info_v1] over the lines. *)
Fixpoint scan_mount_v1_loop (items : list (result ParseError string)) : result ParseError (string * string) :=
  match items with
  | [] => Err NoCgroupV1Fs
  | item :: items =>
      line ← item;
      let parts := split_on (chr 32) line in
      if (length parts <? 5)%nat then Err (MalformedMountinfoEntry line)
      else if negb (bool_decide (part parts (length parts - 3) = "cgroup")) then scan_mount_v1_loop items
      else if negb (bool_decide (base (part parts 4) = "devices")) then scan_mount_v1_loop items
      else if starts_with (part parts 3) "/.." then Err (RelativeMountPrefix (part parts 3))
      else Ok (part parts 3, part parts 4)
  end.

Definition scan_mount_info_v1 (data file : string) : result ParseError (string * string) :=
  scan_mount_v1_loop (scan_lines data file).

Fixpoint scan_mount_v2_loop (items : list (result ParseError string)) : result ParseError (string * string) :=
  match items with
  | [] => Err NoCgroup2Fs
  | item :: items =>
      line ← item;
      let parts := split_on (chr 32) line in
      if (length parts <? 5)%nat then Err (MalformedMountinfoEntry line)
      else if negb (bool_decide (part parts (length parts - 3) = "cgroup2")) then scan_mount_v2_loop items
      else if starts_with (part parts 3) "/.." then Err (RelativeMountPrefix (part parts 3))
      else Ok (part parts 3, part parts 4)
  end.

Definition scan_mount_info_v2 (data file : string) : result ParseError (string * string) :=
  scan_mount_v2_loop (scan_lines data file).

(** [if prefix == "/" { root } else { root.strip_prefix(prefix).unwrap_or(root) }]. *)
Definition below_prefix (prefix root : string) : string :=
  if bool_decide (prefix = "/") then root else default root (strip_prefix prefix root).

Fixpoint scan_proc_v1_loop (items : list (result ParseError string)) (prefix : string)
    : result ParseError string :=
  match items with
  | [] => Err NoDevicesCgroup
  | item :: items =>
      line ← item;
      match splitn 3 (chr 58) line with
      | [_; controllers; root] =>
          if negb (bool_decide (controllers = "devices")) then scan_proc_v1_loop items prefix
          else Ok (below_prefix prefix root)
      | _ => Err (MalformedCgroupEntry line)
      end
  end.

Definition scan_proc_cgroup_v1 (data file prefix : string) : result ParseError string :=
  scan_proc_v1_loop (scan_lines data file) prefix.

Fixpoint scan_proc_v2_loop (items : list (result ParseError string)) (prefix : string)
    : result ParseError string :=
  match items with
  | [] => Err NoCgroupV2Entry
  | item :: items =>
      line ← item;
      match splitn 3 (chr 58) line with
      | [_; controllers; root] =>
          if negb (bool_decide (controllers = "")) then scan_proc_v2_loop items prefix
          else Ok (below_prefix prefix root)
      | _ => Err (MalformedCgroupEntry line)
      end
  end.

Definition scan_proc_cgroup_v2 (data file prefix : string) : result ParseError string :=
  scan_proc_v2_loop (scan_lines data file) prefix.

Definition parse_proc_cgroup (cgroup mountinfo : string) : result ParseError ProcCgroup :=
  version ← scan_cgroup_version cgroup CGROUP_FILE;
  '(prefix, point, root) ←
    match version with
    | CgroupV1 =>
        '(prefix, point) ← scan_mount_info_v1 mountinfo MOUNTINFO_FILE;
        root ← scan_proc_cgroup_v1 cgroup CGROUP_FILE prefix;
        Ok (prefix, point, root)
    | CgroupV2 =>
        '(prefix, point) ← scan_mount_info_v2 mountinfo MOUNTINFO_FILE;
        root ← scan_proc_cgroup_v2 cgroup CGROUP_FILE prefix;
        Ok (prefix, point, root)
    end;
  Ok {| version := version; mount_prefix := prefix; mount_point := point; root := root |}.

(** ** The open directory (handle.rs)

    The system calls are the class [DirSys]: opening a directory, reading its
    inode, opening [cgroup.procs] relative to it and reading that to its end, each
    the errno when it fails. *)

Class DirSys (Fd : Type) := {
  open_dir : string -> result Z Fd;
  fstat_ino : Fd -> result Z Z;
  open_procs : Fd -> result Z Fd;
  read_to_end : Fd -> result Z string;
}.

Inductive HandleError :=
  | HandleOpen (path : string) (source : Z)
  | HandleStat (path : string) (source : Z)
  | OpenProcs (path : string) (source : Z)
  | ReadProcs (path : string) (source : Z).

Definition HandleError_text (io_error_text : Z -> string) (e : HandleError) : string :=
  match e with
  | HandleOpen path source => "open cgroup " +:+ quote path +:+ ": " +:+ io_error_text source
  | HandleStat path source => "stat cgroup " +:+ quote path +:+ ": " +:+ io_error_text source
  | OpenProcs path source => "open cgroup.procs of " +:+ quote path +:+ ": " +:+ io_error_text source
  | ReadProcs path source =>
      "read cgroup.procs of " +:+ quote path +:+ ": read cgroup.procs: " +:+ io_error_text source
  end.

Record CgroupHandle (Fd : Type) := { fd : Fd; identity : Identity }.
Arguments fd {Fd} _.
Arguments identity {Fd} _.

Section handle.
Context {Fd : Type} `{!DirSys Fd}.

Definition handle_open (path : string) : result HandleError (CgroupHandle Fd) :=
  fd ← map_err (HandleOpen path) (open_dir path);
  ino ← map_err (HandleStat path) (fstat_ino fd);
  Ok {| fd := fd; identity := {| V2.path := path; V2.inode := ino |} |}.

Definition has_process (h : CgroupHandle Fd) (pid : Z) : result HandleError bool :=
  let path := V2.path (identity h) in
  procs ← map_err (OpenProcs path) (open_procs (fd h));
  data ← map_err (ReadProcs path) (read_to_end procs);
  Ok (existsb (fun listed => bool_decide (listed = pretty pid)) (split_whitespace data)).

End handle.

(** ** What the parser computes *)

(** An entry of the [cgroup] file, and its line. *)
Record CgroupEntry := { hierarchy : string; controllers : string; cgroup_path : string }.

Definition entry_line (e : CgroupEntry) : string :=
  e.(hierarchy) +:+ String (chr 58) (e.(controllers) +:+ String (chr 58) e.(cgroup_path)).

Definition entry_ok (e : CgroupEntry) : bool :=
  lacks (chr 58) e.(hierarchy) && lacks (chr 58) e.(controllers) && plain_line (entry_line e).

(** A mount is the fields of its line: the root fourth, the mount point fifth and
    the type third from the end. *)
Definition mount_line (fields : list string) : string := join (of_char (chr 32)) fields.

Definition mount_ok (fields : list string) : bool :=
  (5 <=? length fields)%nat && forallb (lacks (chr 32)) fields && plain_line (mount_line fields).

Definition fs_type (fields : list string) : string := part fields (length fields - 3).

(** The first mount of the hierarchy says where it is; the root must not be above
    the visible one. *)
Definition locate (mounts : list (list string)) (is_mount : list string -> bool) (missing : ParseError)
    : result ParseError (string * string) :=
  match List.find is_mount mounts with
  | None => Err missing
  | Some m => if starts_with (part m 3) "/.." then Err (RelativeMountPrefix (part m 3)) else Ok (part m 3, part m 4)
  end.

Definition v1_mount (m : list string) : bool :=
  bool_decide (fs_type m = "cgroup") && bool_decide (base (part m 4) = "devices").
Definition v2_mount (m : list string) : bool := bool_decide (fs_type m = "cgroup2").

Definition has_controllers (c : string) (e : CgroupEntry) : bool := bool_decide (e.(controllers) = c).

(** The [devices] entry decides; without one the unified entry does. *)
Definition device_cgroup (entries : list CgroupEntry) (mounts : list (list string))
    : result ParseError ProcCgroup :=
  match List.find (has_controllers "devices") entries, List.find (has_controllers "") entries with
  | Some e, _ =>
      '(prefix, point) ← locate mounts v1_mount NoCgroupV1Fs;
      Ok {| version := CgroupV1; mount_prefix := prefix; mount_point := point;
            root := below_prefix prefix e.(cgroup_path) |}
  | None, Some e =>
      '(prefix, point) ← locate mounts v2_mount NoCgroup2Fs;
      Ok {| version := CgroupV2; mount_prefix := prefix; mount_point := point;
            root := below_prefix prefix e.(cgroup_path) |}
  | None, None => Err NoDeviceOrUnifiedCgroup
  end.

Lemma scan_lines_unlines ls file : forallb plain_line ls = true -> scan_lines (unlines ls) file = Ok <$> ls.
Proof.
  intros Hp. unfold scan_lines, lines. rewrite lines_from_unlines by done. by rewrite <- list_fmap_compose.
Qed.

Lemma entries_plain entries : forallb entry_ok entries = true -> forallb plain_line (entry_line <$> entries) = true.
Proof.
  induction entries as [|e entries IH]; [done|]. cbn. intros [He Hes]%andb_true_iff.
  apply andb_true_iff in He as [_ ->]. by apply IH.
Qed.

Lemma mounts_plain mounts : forallb mount_ok mounts = true -> forallb plain_line (mount_line <$> mounts) = true.
Proof.
  induction mounts as [|m mounts IH]; [done|]. cbn. intros [Hm Hms]%andb_true_iff.
  apply andb_true_iff in Hm as [_ ->]. by apply IH.
Qed.

Lemma split_entry e : entry_ok e = true ->
  splitn 3 (chr 58) (entry_line e) = [e.(hierarchy); e.(controllers); e.(cgroup_path)].
Proof. intros [[Hh Hc]%andb_true_iff _]%andb_true_iff. by apply splitn_three. Qed.

Lemma split_mount m : mount_ok m = true -> split_on (chr 32) (mount_line m) = m /\ (length m <? 5)%nat = false.
Proof.
  intros [[Hl Hf]%andb_true_iff _]%andb_true_iff. apply Nat.leb_le in Hl. split.
  - apply split_on_join; [intros ->; cbn in Hl; lia|]. apply Forall_forall. intros x Hx%list_elem_of_In.
    by eapply forallb_forall in Hf.
  - by apply Nat.ltb_ge.
Qed.

Lemma scan_version_entries entries d u :
  forallb entry_ok entries = true ->
  scan_version_loop (Ok <$> (entry_line <$> entries)) d u
    = Ok (d || existsb (has_controllers "devices") entries, u || existsb (has_controllers "") entries).
Proof.
  revert d u. induction entries as [|e entries IH]; intros d u Hok; cbn [forallb] in Hok.
  - by rewrite !orb_false_r.
  - apply andb_true_iff in Hok as [He Hes]. rewrite !fmap_cons. cbn [scan_version_loop].
    cbn [mbind result_bind]. rewrite split_entry by done. rewrite IH by done. by rewrite <- !orb_assoc.
Qed.

Lemma scan_mount_v1_mounts mounts :
  forallb mount_ok mounts = true ->
  scan_mount_v1_loop (Ok <$> (mount_line <$> mounts)) = locate mounts v1_mount NoCgroupV1Fs.
Proof.
  induction mounts as [|m mounts IH]; intros Hok; cbn [forallb] in Hok; [done|].
  apply andb_true_iff in Hok as [Hm Hms]. destruct (split_mount m Hm) as [Es El].
  rewrite !fmap_cons. cbn [scan_mount_v1_loop mbind result_bind]. rewrite Es, El. rewrite (IH Hms).
  unfold locate, v1_mount, fs_type. cbn [List.find].
  destruct (bool_decide (part m (length m - 3) = "cgroup")); [|done]. cbn [negb andb].
  by destruct (bool_decide (base (part m 4) = "devices")).
Qed.

Lemma scan_mount_v2_mounts mounts :
  forallb mount_ok mounts = true ->
  scan_mount_v2_loop (Ok <$> (mount_line <$> mounts)) = locate mounts v2_mount NoCgroup2Fs.
Proof.
  induction mounts as [|m mounts IH]; intros Hok; cbn [forallb] in Hok; [done|].
  apply andb_true_iff in Hok as [Hm Hms]. destruct (split_mount m Hm) as [Es El].
  rewrite !fmap_cons. cbn [scan_mount_v2_loop mbind result_bind]. rewrite Es, El. rewrite (IH Hms).
  unfold locate, v2_mount, fs_type. cbn [List.find].
  by destruct (bool_decide (part m (length m - 3) = "cgroup2")).
Qed.

Lemma scan_proc_v1_entries entries prefix :
  forallb entry_ok entries = true ->
  scan_proc_v1_loop (Ok <$> (entry_line <$> entries)) prefix
    = match List.find (has_controllers "devices") entries with
      | Some e => Ok (below_prefix prefix e.(cgroup_path)) | None => Err NoDevicesCgroup end.
Proof.
  induction entries as [|e entries IH]; intros Hok; cbn [forallb] in Hok; [done|].
  apply andb_true_iff in Hok as [He Hes]. rewrite !fmap_cons. cbn [scan_proc_v1_loop mbind result_bind].
  rewrite split_entry by done. rewrite IH by done. cbn [List.find]. unfold has_controllers at 2.
  by destruct (bool_decide _).
Qed.

Lemma scan_proc_v2_entries entries prefix :
  forallb entry_ok entries = true ->
  scan_proc_v2_loop (Ok <$> (entry_line <$> entries)) prefix
    = match List.find (has_controllers "") entries with
      | Some e => Ok (below_prefix prefix e.(cgroup_path)) | None => Err NoCgroupV2Entry end.
Proof.
  induction entries as [|e entries IH]; intros Hok; cbn [forallb] in Hok; [done|].
  apply andb_true_iff in Hok as [He Hes]. rewrite !fmap_cons. cbn [scan_proc_v2_loop mbind result_bind].
  rewrite split_entry by done. rewrite IH by done. cbn [List.find]. unfold has_controllers at 2.
  by destruct (bool_decide _).
Qed.

Lemma existsb_find {A} (p : A -> bool) l :
  existsb p l = match List.find p l with Some _ => true | None => false end.
Proof. induction l as [|x l IH]; [done|]. cbn. by destruct (p x). Qed.

(** Reading a process's two files back gives exactly what their entries say,
    errors included: a [devices] entry makes it cgroup v1, a hybrid host too, else
    a unified entry makes it v2; the first mount of that hierarchy gives prefix
    and mount point, refused when its root is above the visible one; and the
    cgroup is the entry's path below the prefix. *)
Theorem parse_proc_cgroup_printed entries mounts :
  forallb entry_ok entries = true -> forallb mount_ok mounts = true ->
  parse_proc_cgroup (unlines (entry_line <$> entries)) (unlines (mount_line <$> mounts))
    = device_cgroup entries mounts.
Proof.
  intros He Hm. unfold parse_proc_cgroup, scan_cgroup_version, scan_mount_info_v1, scan_mount_info_v2,
    scan_proc_cgroup_v1, scan_proc_cgroup_v2, device_cgroup.
  rewrite !scan_lines_unlines by (by apply entries_plain || by apply mounts_plain).
  rewrite scan_version_entries by done. cbn [orb mbind result_bind]. rewrite !existsb_find.
  rewrite scan_mount_v1_mounts, scan_mount_v2_mounts by done.
  pose proof (fun p => scan_proc_v1_entries entries p He) as H1.
  pose proof (fun p => scan_proc_v2_entries entries p He) as H2.
  destruct (List.find (has_controllers "devices") entries) as [d|]; [|destruct (List.find (has_controllers "") entries) as [u|]; [|done]].
  - cbn [mbind result_bind]. destruct (locate mounts v1_mount NoCgroupV1Fs) as [[prefix point]|]; [|done].
    cbn. rewrite H1. done.
  - cbn [mbind result_bind]. destruct (locate mounts v2_mount NoCgroup2Fs) as [[prefix point]|]; [|done].
    cbn. rewrite H2. done.
Qed.

Lemma parse_proc_cgroup_printed_witness :
  parse_proc_cgroup
    (unlines ["1:name=systemd:/x"; "0::/system.slice/docker-ab.scope"])
    (unlines ["23 28 0:22 / /proc rw - proc proc rw"; "29 23 0:26 / /sys/fs/cgroup rw - cgroup2 cgroup2 rw"])
  = Ok {| version := CgroupV2; mount_prefix := "/"; mount_point := "/sys/fs/cgroup";
          root := "/system.slice/docker-ab.scope" |}.
Proof.
  exact (parse_proc_cgroup_printed
    [{| hierarchy := "1"; controllers := "name=systemd"; cgroup_path := "/x" |};
     {| hierarchy := "0"; controllers := ""; cgroup_path := "/system.slice/docker-ab.scope" |}]
    [["23"; "28"; "0:22"; "/"; "/proc"; "rw"; "-"; "proc"; "proc"; "rw"];
     ["29"; "23"; "0:26"; "/"; "/sys/fs/cgroup"; "rw"; "-"; "cgroup2"; "cgroup2"; "rw"]] eq_refl eq_refl).
Defined.

(** The comment of [ParseError::Read] gives the text of Go's scanner; the error
    is worded by [LineTooLong]. *)
Example read_too_long_text :
  ParseError_text (ReadTooLong MOUNTINFO_FILE)
  = "read " +:+ quote "mountinfo" +:+ ": line longer than 65536 bytes".
Proof. reflexivity. Qed.
