(* ===== verification/Lifecycle.v ===== *)
(** * The runs of a container (src/processor/lifecycle.rs)

    The history of runs the processor keeps per container: which cgroup each run
    was verified in, and whether the run has ended. The state is a map from
    container to records, oldest first; an operation is a function of the state
    and of what the clock says. Times are integers; [jiff]'s parser of RFC 3339
    times and its least time are the class [Jiff]. *)

From stdpp Require Import sorting.
From S2P Require Import Prelude.
From S2P Require Import Text.
From S2P Require Import V2.
From S2P Require Import ProcCgroup.

Inductive LifecycleState := Provisional | Verified | Terminal.

#[global] Instance LifecycleState_eq_dec : EqDecision LifecycleState.
Proof. solve_decision. Defined.

Definition LifecycleState_text (s : LifecycleState) : string :=
  match s with Provisional => "provisional" | Verified => "verified" | Terminal => "terminal" end.

Definition MAX_RECORDS_PER_CONTAINER : nat := 8.

Record RunCgroup := {
  rc_identity : Identity;
  rc_version : CgroupVersion;
  privileged : bool;
}.

#[global] Instance RunCgroup_eq_dec : EqDecision RunCgroup.
Proof. solve_decision. Defined.

Class Jiff := {
  parse_timestamp : string -> option Z;
  TIMESTAMP_MIN : Z;
}.

Record LifecycleRecord := {
  container_id : string;
  started_at : string;
  cgroup : option RunCgroup;
  state : LifecycleState;
  first_seen : Z;
  observed : Z;
  revoked : bool;
}.

#[global] Instance LifecycleRecord_eq_dec : EqDecision LifecycleRecord.
Proof. solve_decision. Defined.

Definition has_identity (r : LifecycleRecord) : bool := match r.(cgroup) with Some _ => true | None => false end.

Definition record_identity (r : LifecycleRecord) : option Identity := rc_identity <$> r.(cgroup).

(** The assignments the source makes to a record's fields. *)
Definition with_state (s : LifecycleState) (r : LifecycleRecord) : LifecycleRecord :=
  {| container_id := r.(container_id); started_at := r.(started_at); cgroup := r.(cgroup); state := s;
     first_seen := r.(first_seen); observed := r.(observed); revoked := r.(revoked) |}.

Definition with_observed (t : Z) (r : LifecycleRecord) : LifecycleRecord :=
  {| container_id := r.(container_id); started_at := r.(started_at); cgroup := r.(cgroup); state := r.(state);
     first_seen := r.(first_seen); observed := t; revoked := r.(revoked) |}.

Definition with_revoked (b : bool) (r : LifecycleRecord) : LifecycleRecord :=
  {| container_id := r.(container_id); started_at := r.(started_at); cgroup := r.(cgroup); state := r.(state);
     first_seen := r.(first_seen); observed := r.(observed); revoked := b |}.

Definition with_run (started : string) (cg : RunCgroup) (r : LifecycleRecord) : LifecycleRecord :=
  {| container_id := r.(container_id); started_at := started; cgroup := Some cg; state := r.(state);
     first_seen := r.(first_seen); observed := r.(observed); revoked := r.(revoked) |}.

(** The state of [Lifecycles]. *)
Abbreviation History := (gmap string (list LifecycleRecord)).

Definition records (h : History) (id : string) : list LifecycleRecord := default [] (h !! id).

(** [all]: every record, container by container in the order of the keys. *)
Definition all_records (h : History) : list LifecycleRecord :=
  merge_sort String.le (map_to_list h).*1 ≫= records h.

(** [iter().position(p)]. *)
Fixpoint position {A} (p : A -> bool) (l : list A) : option nat :=
  match l with
  | [] => None
  | x :: l => if p x then Some O else S <$> position p l
  end.

Definition is_provisional (r : LifecycleRecord) : bool := bool_decide (r.(state) = Provisional).
Definition started_is (t : string) (r : LifecycleRecord) : bool := bool_decide (r.(started_at) = t).

(** The [while] loop of [append]; each turn drops a record. *)
Fixpoint trim_records (fuel : nat) (rs : list LifecycleRecord) : list LifecycleRecord :=
  match fuel with
  | O => rs
  | S fuel =>
      if (MAX_RECORDS_PER_CONTAINER <? length rs)%nat then
        match position (fun r => negb (has_identity r)) rs with
        | Some index => trim_records fuel (delete index rs)
        | None => rs
        end
      else rs
  end.

Definition append (h : History) (r : LifecycleRecord) : History :=
  let rs := records h r.(container_id) ++ [r] in
  <[r.(container_id) := trim_records (length rs) rs]> h.

(** [Lifecycles::provisional]. *)
Definition provisional (now : Z) (id : string) (h : History) : History :=
  match position is_provisional (records h id) with
  | Some index => <[id := alter (with_observed now) index (records h id)]> h
  | None =>
      append h {| container_id := id; started_at := ""; cgroup := None; state := Provisional;
                  first_seen := now; observed := now; revoked := false |}
  end.

(** The changes [verify] makes to the record it found. *)
Definition upgrade (started : string) (cg : RunCgroup) (r : LifecycleRecord) : LifecycleRecord :=
  let r := with_revoked false (with_run started cg r) in
  if bool_decide (r.(state) = Terminal) then r else with_state Verified r.

Section times.
Context {jiff : Jiff}.

(** [Lifecycles::verify]. *)
Definition verify (now : Z) (id started : string) (cg : RunCgroup) (h : History) : History :=
  let found := match position (started_is started) (records h id) with
               | Some index => Some index
               | None => position is_provisional (records h id)
               end in
  match found with
  | Some index => <[id := alter (upgrade started cg) index (records h id)]> h
  | None =>
      append h {| container_id := id; started_at := started; cgroup := Some cg; state := Verified;
                  first_seen := now; observed := TIMESTAMP_MIN; revoked := false |}
  end.

(** [Lifecycles::lookup]. *)
Definition lookup_run (h : History) (id started : string) : option LifecycleRecord :=
  List.find (started_is started) (records h id).

(** [Lifecycles::update]. *)
Definition update (id started : string) (change : LifecycleRecord -> LifecycleRecord) (h : History) : History :=
  match h !! id with
  | Some rs => <[id := (fun r => if started_is started r then change r else r) <$> rs]> h
  | None => h
  end.

Definition mark_terminal (id started : string) (h : History) : History := update id started (with_state Terminal) h.

Definition mark_revoked (id started : string) (h : History) : History :=
  update id started (fun r => if bool_decide (r.(state) = Terminal) then with_revoked true r else r) h.

(** [Lifecycles::release]. *)
Definition same_record (a b : LifecycleRecord) : bool :=
  bool_decide (a.(started_at) = b.(started_at)) && bool_decide (a.(first_seen) = b.(first_seen)).

Definition release (released : LifecycleRecord) (h : History) : History :=
  match h !! released.(container_id) with
  | None => h
  | Some rs =>
      let rs := filter (fun r => same_record r released = false) rs in
      if bool_decide (rs = []) then delete released.(container_id) h else <[released.(container_id) := rs]> h
  end.

(** [LifecycleRecord::started]. *)
Definition started (r : LifecycleRecord) : option Z :=
  if bool_decide (r.(started_at) = "") then None else parse_timestamp r.(started_at).

(** The loop of [terminate] over the records from [index] on. *)
Fixpoint match_run (event_time : Z) (index : nat) (rs : list LifecycleRecord) (matched : option (nat * Z))
    : option (nat * Z) :=
  match rs with
  | [] => matched
  | r :: rs =>
      let matched :=
        if is_provisional r then matched
        else match started r with
             | None => matched
             | Some s =>
                 if negb (has_identity r) || (event_time <? s) then matched
                 else match matched with
                      | None => Some (index, s)
                      | Some (_, start) => if start <? s then Some (index, s) else matched
                      end
             end in
      match_run event_time (S index) rs matched
  end.

(** [Lifecycles::terminate]: the records it returns and the state after. *)
Definition terminate (id : string) (event_time : Z) (h : History) : list LifecycleRecord * History :=
  match h !! id with
  | None => ([], h)
  | Some rs =>
      match match_run event_time 0 rs None with
      | Some (index, _) =>
          let rs := alter (with_state Terminal) index rs in
          (match rs !! index with Some r => [r] | None => [] end, <[id := rs]> h)
      | None =>
          (with_state Terminal <$> filter (fun r => is_provisional r = true) rs,
           <[id := (fun r => if is_provisional r then with_state Terminal r else r) <$> rs]> h)
      end
  end.

(** ** Sequences of operations *)

Inductive LifecycleOp :=
  | OpProvisional (now : Z) (id : string)
  | OpVerify (now : Z) (id started : string) (cg : RunCgroup)
  | OpTerminate (id : string) (event_time : Z)
  | OpMarkTerminal (id started : string)
  | OpMarkRevoked (id started : string)
  | OpRelease (r : LifecycleRecord).

Definition run_op (h : History) (op : LifecycleOp) : History :=
  match op with
  | OpProvisional now id => provisional now id h
  | OpVerify now id started cg => verify now id started cg h
  | OpTerminate id t => (terminate id t h).2
  | OpMarkTerminal id started => mark_terminal id started h
  | OpMarkRevoked id started => mark_revoked id started h
  | OpRelease r => release r h
  end.

Definition run_ops (ops : list LifecycleOp) : History := foldl run_op ∅ ops.

End times.
