(* ===== verification/LifecycleProofs.v ===== *)
(** * What the history of runs promises

    Every sequence of operations keeps the history well formed; a record that
    names a cgroup is never lost but by releasing it; and an event that ends a run
    ends the right one. *)

From stdpp Require Import sorting.
From S2P Require Import Prelude.
From S2P Require Import Text.
From S2P Require Import V2.
From S2P Require Import ProcCgroup.
From S2P Require Import Lifecycle.

(** ** Positions and trimming *)

Lemma position_found {A} (p : A -> bool) l i :
  position p l = Some i -> exists x, l !! i = Some x /\ p x = true.
Proof.
  revert i. induction l as [|x l IH]; intros i E; [done|]. cbn in E. destruct (p x) eqn:Ep.
  - injection E as <-. by exists x.
  - destruct (position p l) as [j|]; [|done]. injection E as <-. by apply IH.
Qed.

Lemma position_missing {A} (p : A -> bool) l : position p l = None -> Forall (fun x => p x = false) l.
Proof.
  induction l as [|x l IH]; intros E; [done|]. cbn in E. destruct (p x) eqn:Ep; [done|].
  destruct (position p l); [done|]. constructor; auto.
Qed.

(** How many records are provisional. *)
Fixpoint provisionals (rs : list LifecycleRecord) : nat :=
  match rs with
  | [] => 0
  | r :: rs => (if is_provisional r then 1 else 0) + provisionals rs
  end.

Lemma provisionals_sublist rs rs' : rs' `sublist_of` rs -> (provisionals rs' <= provisionals rs)%nat.
Proof. induction 1; cbn; lia. Qed.

Lemma provisionals_app a b : provisionals (a ++ b) = (provisionals a + provisionals b)%nat.
Proof. induction a as [|r a IH]; cbn; lia. Qed.

Lemma provisionals_none rs : Forall (fun r => is_provisional r = false) rs -> provisionals rs = 0%nat.
Proof. induction 1 as [|r rs Hr _ IH]; [done|]. cbn. by rewrite Hr, IH. Qed.

Lemma Forall_sublist {A} (P : A -> Prop) l l' : l' `sublist_of` l -> Forall P l -> Forall P l'.
Proof. rewrite !Forall_forall. intros Hs Hl x Hx. eapply Hl, elem_of_sublist; done. Qed.

Lemma filter_is_sublist {A} (P : A -> Prop) `{!forall x, Decision (P x)} l : filter P l `sublist_of` l.
Proof.
  induction l as [|x l IH]; [done|]. rewrite filter_cons. case_decide; [by apply sublist_skip|by apply sublist_cons].
Qed.

(** Trimming drops records without an identity only, and only over the bound. *)
Lemma trim_records_spec fuel rs :
  (length rs <= fuel)%nat ->
  let rs' := trim_records fuel rs in
  rs' `sublist_of` rs
  /\ (forall r, r ∈ rs -> has_identity r = true -> r ∈ rs')
  /\ (rs <> [] -> rs' <> [])
  /\ ((length rs' <= MAX_RECORDS_PER_CONTAINER)%nat \/ Forall (fun r => has_identity r = true) rs').
Proof.
  revert rs. induction fuel as [|fuel IH]; intros rs Hf; cbv zeta.
  { destruct rs; [|cbn in Hf; lia]. split_and!; [done..|]. left. cbn. lia. }
  cbn [trim_records]. destruct (Nat.ltb_spec MAX_RECORDS_PER_CONTAINER (length rs)) as [Hl|Hl].
  2: { split_and!; auto. }
  destruct (position _ rs) as [i|] eqn:Ep.
  - apply position_found in Ep as (x & Hx & Hi). pose proof (lookup_lt_Some _ _ _ Hx) as Hlt.
    assert (length (delete i rs) = length rs - 1)%nat as Hd.
    { rewrite length_delete by (by exists x). lia. }
    unfold MAX_RECORDS_PER_CONTAINER in Hl. destruct (IH (delete i rs)) as (H1 & H2 & H3 & H4); [lia|].
    split_and!; [|intros r Hr Hid|intros _|done].
    + etrans; [done|]. apply sublist_delete.
    + apply H2; [|done]. apply list_elem_of_lookup in Hr as [j Hj]. destruct (decide (i = j)) as [->|Hne].
      { rewrite Hx in Hj. injection Hj as ->. by rewrite Hid in Hi. }
      apply list_elem_of_lookup. destruct (decide (j < i)%nat).
      * exists j. by rewrite list_lookup_delete_lt.
      * exists (j - 1)%nat. rewrite list_lookup_delete_ge by lia. by replace (S (j - 1)) with j by lia.
    + apply H3. intros E. rewrite E in Hd. cbn in Hd. lia.
  - apply position_missing in Ep. split_and!; auto. right. eapply Forall_impl; [exact Ep|].
    intros r Hr. by apply negb_false_iff in Hr.
Qed.

(** ** The invariant *)

(** What a record of a container's history says. *)
Record record_ok (id : string) (r : LifecycleRecord) : Prop := {
  ro_id : r.(container_id) = id;
  ro_provisional : r.(state) = Provisional -> r.(cgroup) = None /\ r.(started_at) = "";
  ro_verified : r.(state) = Verified -> has_identity r = true;
  ro_revoked : r.(revoked) = true -> r.(state) = Terminal;
}.

Record list_ok (id : string) (rs : list LifecycleRecord) : Prop := {
  lo_records : Forall (record_ok id) rs;
  lo_nonempty : rs <> [];
  lo_bound : (length rs <= MAX_RECORDS_PER_CONTAINER)%nat \/ Forall (fun r => has_identity r = true) rs;
  lo_provisional : (provisionals rs <= 1)%nat;
}.

Definition history_ok (h : History) : Prop := map_Forall list_ok h.

Lemma record_ok_app id r rs :
  record_ok id r -> Forall (record_ok id) rs -> Forall (record_ok id) (rs ++ [r]).
Proof. intros Hr Hrs. apply Forall_app. split; [done|by apply Forall_singleton]. Qed.

(** A change that rewrites records one by one. *)
Record rewrites (id : string) (r r' : LifecycleRecord) : Prop := {
  rw_ok : record_ok id r -> record_ok id r';
  rw_identity : has_identity r = true -> has_identity r' = true;
  rw_provisional : is_provisional r' = true -> is_provisional r = true;
}.

Lemma rewrites_refl id r : rewrites id r r.
Proof. by split. Qed.

Lemma list_ok_rewrites id rs rs' : Forall2 (rewrites id) rs rs' -> list_ok id rs -> list_ok id rs'.
Proof.
  intros HF [H1 H2 H3 H4]. pose proof (Forall2_length _ _ _ HF) as Hlen. split.
  - clear -HF H1. induction HF as [|r r' rs rs' Hr _ IH]; [done|]. apply Forall_cons in H1 as [? ?].
    constructor; [by apply Hr|auto].
  - intros ->. apply H2. by apply nil_length_inv.
  - destruct H3 as [H3|H3]; [left; lia|right]. clear -HF H3.
    induction HF as [|r r' rs rs' Hr _ IH]; [done|]. apply Forall_cons in H3 as [Hi ?].
    constructor; [exact (rw_identity _ _ _ Hr Hi)|auto].
  - enough (provisionals rs' <= provisionals rs)%nat by lia. clear -HF.
    induction HF as [|r r' rs rs' Hr _ IH]; [done|]. cbn. pose proof (rw_provisional _ _ _ Hr) as Hp.
    destruct (is_provisional r), (is_provisional r'); [lia..| |lia]. by discriminate Hp.
Qed.

Lemma Forall2_alter {A} (R : A -> A -> Prop) f i l :
  (forall x, R x x) -> (forall x, l !! i = Some x -> R x (f x)) -> Forall2 R l (alter f i l).
Proof.
  intros Hr Hf. apply Forall2_same_length_lookup_2; [by rewrite length_alter|].
  intros j x y Hx Hy. destruct (decide (j = i)) as [->|Hne].
  - rewrite list_lookup_alter_eq, Hx in Hy. injection Hy as <-. by apply Hf.
  - rewrite list_lookup_alter_ne in Hy by done. rewrite Hx in Hy. by injection Hy as <-.
Qed.

Lemma Forall2_map_self {A} (R : A -> A -> Prop) f l :
  (forall x, x ∈ l -> R x (f x)) -> Forall2 R l (f <$> l).
Proof.
  intros Hf. apply Forall2_fmap_r. apply Forall_Forall2_diag, Forall_forall. done.
Qed.

Lemma rewrites_terminal id r : rewrites id r (with_state Terminal r).
Proof. split; [|done..]. intros [H1 H2 H3 H4]. by split. Qed.

Lemma rewrites_observed id t r : rewrites id r (with_observed t r).
Proof. split; [|done..]. intros [H1 H2 H3 H4]. by split. Qed.

Lemma rewrites_revoked id r :
  rewrites id r (if bool_decide (r.(state) = Terminal) then with_revoked true r else r).
Proof.
  case_bool_decide as Ht; [|apply rewrites_refl]. split; [|done..]. intros [H1 H2 H3 H4]. by split.
Qed.

Lemma rewrites_upgrade id started cg r : rewrites id r (upgrade started cg r).
Proof.
  unfold upgrade. cbn [state with_revoked with_run]. destruct (decide (r.(state) = Terminal)) as [Ht|Ht].
  - rewrite bool_decide_eq_true_2 by done. split; [|done|].
    + intros [H1 H2 H3 H4]. split; cbn; [done|by rewrite Ht|by rewrite Ht|done].
    + unfold is_provisional. cbn. done.
  - rewrite bool_decide_eq_false_2 by done. split; [|done..].
    intros [H1 H2 H3 H4]. by split.
Qed.

(** ** Every operation keeps it *)

Lemma records_ok h id : history_ok h -> records h id <> [] -> list_ok id (records h id).
Proof. unfold records. destruct (h !! id) as [rs|] eqn:E; [|done]. intros Hh _. by apply Hh. Qed.

Lemma history_ok_insert h id rs : history_ok h -> list_ok id rs -> history_ok (<[id := rs]> h).
Proof. intros Hh Hl. by apply map_Forall_insert_2. Qed.

Lemma position_nonempty {A} (p : A -> bool) l i : position p l = Some i -> l <> [].
Proof. by destruct l. Qed.

Lemma append_ok h r :
  history_ok h -> record_ok r.(container_id) r ->
  (provisionals (records h r.(container_id) ++ [r]) <= 1)%nat -> history_ok (append h r).
Proof.
  intros Hh Hr Hp. unfold append. apply history_ok_insert; [done|].
  set (rs := records h (container_id r) ++ [r]) in *.
  destruct (trim_records_spec (length rs) rs) as (H1 & H2 & H3 & H4); [done|].
  assert (Forall (record_ok (container_id r)) rs) as Hrs.
  { apply record_ok_app; [done|]. unfold records. destruct (h !! container_id r) as [l|] eqn:E; [|done].
    by apply Hh in E as [? _ _ _]. }
  split; [|apply H3; subst rs; by destruct (records h (container_id r))|done|].
  - by eapply Forall_sublist.
  - pose proof (provisionals_sublist _ _ H1). lia.
Qed.

Lemma records_provisionals h id : history_ok h -> (provisionals (records h id) <= 1)%nat.
Proof.
  intros Hh. unfold records. destruct (h !! id) as [rs|] eqn:E; [|cbn; lia].
  by apply Hh in E as [_ _ _ ?].
Qed.

Lemma provisional_ok now id h : history_ok h -> history_ok (provisional now id h).
Proof.
  intros Hh. unfold provisional. destruct (position is_provisional (records h id)) as [i|] eqn:Ep.
  - apply history_ok_insert; [done|]. eapply list_ok_rewrites; [|by eapply records_ok, position_nonempty].
    apply Forall2_alter; [apply rewrites_refl|]. intros. apply rewrites_observed.
  - apply append_ok; [done|by split|]. cbn [container_id]. rewrite provisionals_app.
    rewrite (provisionals_none (records h id)) by by apply position_missing. change (0 + 1 <= 1)%nat. lia.
Qed.

Lemma verify_ok {jiff : Jiff} now id started cg h : history_ok h -> history_ok (verify now id started cg h).
Proof.
  intros Hh. unfold verify. destruct (match position _ _ with Some i => Some i | None => _ end) as [i|] eqn:Ep.
  - apply history_ok_insert; [done|]. eapply list_ok_rewrites; [|eapply records_ok; [done|]].
    + apply Forall2_alter; [apply rewrites_refl|]. intros. apply rewrites_upgrade.
    + by destruct (records h id).
  - apply append_ok; [done|by split|]. cbn [container_id]. rewrite provisionals_app.
    pose proof (records_provisionals h id Hh). change (provisionals (records h id) + 0 <= 1)%nat. lia.
Qed.

Lemma update_ok id started change h :
  (forall r, rewrites id r (change r)) -> history_ok h -> history_ok (update id started change h).
Proof.
  intros Hc Hh. unfold update. destruct (h !! id) as [rs|] eqn:E; [|done].
  apply history_ok_insert; [done|]. eapply list_ok_rewrites; [|by apply Hh].
  apply Forall2_map_self. intros r _. destruct (started_is started r); [apply Hc|apply rewrites_refl].
Qed.

Lemma terminate_ok {jiff : Jiff} id t h : history_ok h -> history_ok (terminate id t h).2.
Proof.
  intros Hh. unfold terminate. destruct (h !! id) as [rs|] eqn:E; [|done]. apply Hh in E as Hrs.
  destruct (match_run t 0 rs None) as [[i s]|]; cbn [snd]; apply history_ok_insert; try done;
    (eapply list_ok_rewrites; [|exact Hrs]).
  - apply Forall2_alter; [apply rewrites_refl|]. intros. apply rewrites_terminal.
  - apply Forall2_map_self. intros r _. destruct (is_provisional r); [apply rewrites_terminal|apply rewrites_refl].
Qed.

Lemma release_ok released h : history_ok h -> history_ok (release released h).
Proof.
  intros Hh. unfold release. destruct (h !! released.(container_id)) as [rs|] eqn:E; [|done].
  apply Hh in E as [H1 H2 H3 H4]. case_bool_decide as Hrs; [by apply map_Forall_delete|].
  apply history_ok_insert; [done|]. pose proof (filter_is_sublist (fun r => same_record r released = false) rs) as Hs.
  split; [by eapply Forall_sublist|done| |].
  - destruct H3 as [H3|H3]; [left|right; by eapply Forall_sublist]. apply sublist_length in Hs. lia.
  - apply provisionals_sublist in Hs. lia.
Qed.

Lemma run_op_ok {jiff : Jiff} h op : history_ok h -> history_ok (run_op h op).
Proof.
  intros Hh. destruct op; cbn [run_op].
  - by apply provisional_ok.
  - by apply verify_ok.
  - by apply terminate_ok.
  - apply update_ok; [|done]. intros r. apply rewrites_terminal.
  - apply update_ok; [|done]. intros r. apply rewrites_revoked.
  - by apply release_ok.
Qed.

Lemma run_ops_ok {jiff : Jiff} ops : history_ok (run_ops ops).
Proof.
  unfold run_ops. assert (history_ok ∅) as H by by apply map_Forall_empty. revert H. generalize (∅ : History).
  induction ops as [|op ops IH]; intros h Hh; [done|]. cbn [foldl]. by apply IH, run_op_ok.
Qed.

(** C34. Whatever the sequence of operations, the history is well formed: each
    record is filed under its container and no list is empty; a provisional record
    names no cgroup and no start, and a container has at most one; a verified one
    names its cgroup; only an ended run is marked revoked; and a container keeps
    at most eight records, unless each of them names a cgroup still to be revoked. *)
Theorem history_invariant {jiff : Jiff} ops : history_ok (run_ops ops).
Proof. apply run_ops_ok. Qed.

(** ** Records that name a cgroup stay *)

(** The record is still there: the same run, in the same cgroup, and ended if it
    had ended. *)
Definition retained (r : LifecycleRecord) (h : History) : Prop :=
  exists r', r' ∈ records h r.(container_id)
    /\ r'.(container_id) = r.(container_id) /\ r'.(started_at) = r.(started_at)
    /\ r'.(first_seen) = r.(first_seen) /\ r'.(cgroup) = r.(cgroup)
    /\ (r.(state) = Terminal -> r'.(state) = Terminal).

(** The operations that may drop or rewrite the record's cgroup. *)
Definition spares (r : LifecycleRecord) (op : LifecycleOp) : bool :=
  match op with
  | OpRelease released => negb (bool_decide (released.(container_id) = r.(container_id)) && same_record r released)
  | OpVerify _ id started _ => negb (bool_decide (id = r.(container_id)) && bool_decide (started = r.(started_at)))
  | _ => true
  end.

(** What a pointwise change keeps of a record. *)
Definition keeps (r r' : LifecycleRecord) : Prop :=
  r'.(container_id) = r.(container_id) /\ r'.(started_at) = r.(started_at)
  /\ r'.(first_seen) = r.(first_seen) /\ r'.(cgroup) = r.(cgroup)
  /\ (r.(state) = Terminal -> r'.(state) = Terminal).

Lemma keeps_refl r : keeps r r.
Proof. by split_and!. Qed.

Lemma retained_self r h : r ∈ records h r.(container_id) -> retained r h.
Proof. intros Hr. exists r. by split_and!. Qed.

Lemma retained_Forall2 r id rs rs' h :
  r.(container_id) = id -> r ∈ rs -> Forall2 (fun x y => x = r -> keeps x y) rs rs' ->
  retained r (<[id := rs']> h).
Proof.
  intros Hid Hr HF. apply list_elem_of_lookup in Hr as [i Hi].
  destruct (Forall2_lookup_l _ _ _ _ _ HF Hi) as (r' & Hr' & Hk). exists r'.
  split; [|by apply Hk]. unfold records. rewrite Hid, lookup_insert_eq. cbn.
  by eapply list_elem_of_lookup_2.
Qed.

Lemma records_insert_ne h id id' rs : id <> id' -> records (<[id := rs]> h) id' = records h id'.
Proof. intros Hne. unfold records. by rewrite lookup_insert_ne. Qed.

(** An insertion at another container changes nothing for this one. *)
Lemma retained_other r id rs h :
  id <> r.(container_id) -> r ∈ records h r.(container_id) -> retained r (<[id := rs]> h).
Proof. intros Hne Hr. apply retained_self. by rewrite records_insert_ne. Qed.

Lemma append_retained h x r :
  r ∈ records h r.(container_id) -> has_identity r = true -> retained r (append h x).
Proof.
  intros Hr Hi. unfold append. destruct (decide (x.(container_id) = r.(container_id))) as [E|E].
  - rewrite E. set (rs := records h (container_id r) ++ [x]).
    destruct (trim_records_spec (length rs) rs) as (_ & H2 & _); [done|]. apply retained_self.
    unfold records at 1. rewrite lookup_insert_eq. apply H2; [|done]. subst rs. set_solver.
  - by apply retained_other.
Qed.

Lemma provisional_retained now id h r :
  r ∈ records h r.(container_id) -> has_identity r = true -> retained r (provisional now id h).
Proof.
  intros Hr Hi. unfold provisional. destruct (position is_provisional (records h id)) as [i|].
  - destruct (decide (id = r.(container_id))) as [->|]; [|by apply retained_other].
    eapply retained_Forall2; [done..|]. apply Forall2_alter; [intros; apply keeps_refl|]. by intros x _ _.
  - by apply append_retained.
Qed.

Lemma verify_retained {jiff : Jiff} now id started cg h r :
  history_ok h -> r ∈ records h r.(container_id) -> has_identity r = true ->
  spares r (OpVerify now id started cg) = true -> retained r (verify now id started cg h).
Proof.
  intros Hh Hr Hi Hsp. unfold verify. destruct (match position _ _ with Some i => Some i | None => _ end) as [i|] eqn:Ep.
  2: by apply append_retained.
  destruct (decide (id = r.(container_id))) as [->|]; [|by apply retained_other].
  cbn in Hsp. rewrite bool_decide_eq_true_2 in Hsp by done. cbn in Hsp.
  apply negb_true_iff, bool_decide_eq_false_1 in Hsp.
  eapply retained_Forall2; [done..|]. apply Forall2_alter; [intros; apply keeps_refl|].
  intros x Hx ->. exfalso. destruct (position (started_is started) _) as [j|] eqn:Ej.
  - injection Ep as <-. apply position_found in Ej as (y & Hy & Hs). rewrite Hx in Hy. injection Hy as <-.
    apply bool_decide_eq_true_1 in Hs. congruence.
  - apply position_found in Ep as (y & Hy & Hs). rewrite Hx in Hy. injection Hy as <-.
    apply bool_decide_eq_true_1 in Hs.
    assert (list_ok r.(container_id) (records h r.(container_id))) as [Hro _ _ _].
    { apply records_ok; [done|]. by intros E; rewrite E in Hr; apply elem_of_nil in Hr. }
    rewrite Forall_forall in Hro. apply Hro in Hr as [_ Hp _ _]. apply Hp in Hs as [Hc _].
    unfold has_identity in Hi. by rewrite Hc in Hi.
Qed.

Lemma update_retained id started change h r :
  (forall x, keeps x (change x)) -> r ∈ records h r.(container_id) -> retained r (update id started change h).
Proof.
  intros Hc Hr. unfold update. destruct (h !! id) as [rs|] eqn:E; [|by apply retained_self].
  destruct (decide (id = r.(container_id))) as [->|]; [|by apply retained_other].
  unfold records in Hr. rewrite E in Hr. eapply retained_Forall2; [done..|].
  apply Forall2_map_self. intros x _ _. destruct (started_is started x); [apply Hc|apply keeps_refl].
Qed.

Lemma keeps_terminal x : keeps x (with_state Terminal x).
Proof. by split_and!. Qed.

Lemma terminate_retained {jiff : Jiff} id t h r :
  r ∈ records h r.(container_id) -> retained r (terminate id t h).2.
Proof.
  intros Hr. unfold terminate. destruct (h !! id) as [rs|] eqn:E; [|by apply retained_self].
  destruct (decide (id = r.(container_id))) as [->|].
  2: { destruct (match_run t 0 rs None) as [[i s]|]; by apply retained_other. }
  unfold records in Hr. rewrite E in Hr.
  destruct (match_run t 0 rs None) as [[i s]|]; cbn [snd]; (eapply retained_Forall2; [done..|]).
  - apply Forall2_alter; intros; [apply keeps_refl|apply keeps_terminal].
  - apply Forall2_map_self. intros x _ _. destruct (is_provisional x); [apply keeps_terminal|apply keeps_refl].
Qed.

Lemma release_retained released h r :
  r ∈ records h r.(container_id) -> spares r (OpRelease released) = true -> retained r (release released h).
Proof.
  intros Hr Hsp. unfold release. destruct (h !! released.(container_id)) as [rs|] eqn:E; [|by apply retained_self].
  apply retained_self. cbn in Hsp. apply negb_true_iff in Hsp.
  destruct (decide (released.(container_id) = r.(container_id))) as [Ec|Ec].
  - rewrite (bool_decide_eq_true_2 _ Ec) in Hsp. cbn in Hsp. unfold records in Hr. rewrite <- Ec, E in Hr.
    assert (r ∈ filter (fun r => same_record r released = false) rs) as Hf.
    { apply list_elem_of_filter. done. }
    case_bool_decide as Hn; [rewrite Hn in Hf; by apply elem_of_nil in Hf|].
    unfold records. rewrite <- Ec, lookup_insert_eq. done.
  - clear Hsp. case_bool_decide; unfold records in *.
    + rewrite lookup_delete_ne by done. done.
    + rewrite lookup_insert_ne by done. done.
Qed.

Lemma run_op_retained {jiff : Jiff} h op r :
  history_ok h -> r ∈ records h r.(container_id) -> has_identity r = true -> spares r op = true ->
  retained r (run_op h op).
Proof.
  intros Hh Hr Hi Hs. destruct op; cbn [run_op].
  - by apply provisional_retained.
  - by apply verify_retained.
  - by apply terminate_retained.
  - apply update_retained; [apply keeps_terminal|done].
  - apply update_retained; [|done]. intros x. case_bool_decide; by split_and!.
  - by apply release_retained.
Qed.

Lemma spares_ext r r' op :
  r'.(container_id) = r.(container_id) -> r'.(started_at) = r.(started_at) -> r'.(first_seen) = r.(first_seen) ->
  spares r' op = spares r op.
Proof. intros H1 H2 H3. destruct op; cbn; try done; unfold same_record; by rewrite ?H1, ?H2, ?H3. Qed.

Lemma foldl_retained {jiff : Jiff} ops h r :
  history_ok h -> r ∈ records h r.(container_id) -> has_identity r = true ->
  Forall (fun op => spares r op = true) ops -> retained r (foldl run_op h ops).
Proof.
  revert h r. induction ops as [|op ops IH]; intros h r Hh Hr Hi Hs; [by apply retained_self|].
  apply Forall_cons in Hs as [Hop Hs]. cbn [foldl].
  destruct (run_op_retained h op r Hh Hr Hi Hop) as (r1 & Hr1 & E1 & E2 & E3 & E4 & E5).
  rewrite <- E1 in Hr1. destruct (IH (run_op h op) r1) as (r2 & Hr2 & F1 & F2 & F3 & F4 & F5).
  - by apply run_op_ok.
  - done.
  - unfold has_identity in *. by rewrite E4.
  - eapply Forall_impl; [exact Hs|]. intros op' Hop'. by rewrite (spares_ext r r1).
  - exists r2. rewrite E1 in Hr2. split_and!; [done|congruence..|auto].
Qed.

(** A run that was verified in a cgroup is not forgotten: after any further
    operations, as long as none releases its record or verifies the same run
    again, the history still names that cgroup for that run, and an ended run
    stays ended. So what was granted there can still be revoked. *)
Theorem verified_run_retained {jiff : Jiff} ops ops' r :
  r ∈ records (run_ops ops) r.(container_id) -> has_identity r = true ->
  Forall (fun op => spares r op = true) ops' ->
  retained r (run_ops (ops ++ ops')).
Proof.
  intros Hr Hi Hs. unfold run_ops. rewrite foldl_app. apply foldl_retained; try done. apply run_ops_ok.
Qed.

(** ** Which run an event ends *)

(** A run the event may have ended. *)
Definition candidate {jiff : Jiff} (event_time : Z) (r : LifecycleRecord) (s : Z) : Prop :=
  r.(state) <> Provisional /\ has_identity r = true /\ started r = Some s /\ s <= event_time.

(** The best so far over the records read. *)
Definition best {jiff : Jiff} (t : Z) (rs : list LifecycleRecord) (m : option (nat * Z)) : Prop :=
  match m with
  | Some (i, s) =>
      (exists r, rs !! i = Some r /\ candidate t r s)
      /\ forall j r' s', rs !! j = Some r' -> candidate t r' s' -> s' <= s /\ ((j < i)%nat -> s' < s)
  | None => forall j r' s', rs !! j = Some r' -> ~ candidate t r' s'
  end.

Lemma best_snoc_other {jiff : Jiff} t rs r m :
  best t rs m -> (forall s, ~ candidate t r s) -> best t (rs ++ [r]) m.
Proof.
  intros Hb Hr. destruct m as [[i s]|]; cbn in *.
  - destruct Hb as [(x & Hx & Hc) Hmax]. split.
    + exists x. split; [by apply lookup_app_l_Some|done].
    + intros j r' s' Hj Hc'. apply lookup_app_Some in Hj as [Hj|[_ Hj]]; [by eapply Hmax|].
      apply list_lookup_singleton_Some in Hj as [_ <-]. by apply Hr in Hc'.
  - intros j r' s' Hj Hc'. apply lookup_app_Some in Hj as [Hj|[_ Hj]]; [by eapply Hb|].
    apply list_lookup_singleton_Some in Hj as [_ <-]. by apply Hr in Hc'.
Qed.

Lemma candidate_unique {jiff : Jiff} t r s s' : candidate t r s -> candidate t r s' -> s' = s.
Proof. intros (_ & _ & E & _) (_ & _ & E' & _). congruence. Qed.

Lemma best_snoc {jiff : Jiff} t rs r s m :
  best t rs m -> candidate t r s ->
  best t (rs ++ [r]) (match m with
                      | None => Some (length rs, s)
                      | Some (_, start) => if start <? s then Some (length rs, s) else m
                      end).
Proof.
  intros Hb Hr.
  assert ((rs ++ [r]) !! length rs = Some r) as Hlast by by rewrite lookup_app_r, Nat.sub_diag by lia.
  assert ((forall j r' s', rs !! j = Some r' -> candidate t r' s' -> s' < s) ->
    best t (rs ++ [r]) (Some (length rs, s))) as Hnew.
  { intros Hlt. split; [by exists r|]. intros j r' s' Hj Hc'.
    apply lookup_app_Some in Hj as [Hj|[Hl Hj]].
    - pose proof (Hlt _ _ _ Hj Hc'). lia.
    - apply list_lookup_singleton_Some in Hj as [Hj <-]. rewrite (candidate_unique _ _ _ _ Hr Hc'). lia. }
  destruct m as [[i start]|].
  - destruct Hb as [(x & Hx & Hc) Hmax]. destruct (Z.ltb_spec start s) as [Hlt|Hge].
    + apply Hnew. intros j r' s' Hj Hc'. destruct (Hmax _ _ _ Hj Hc'). lia.
    + split; [exists x; split; [by apply lookup_app_l_Some|done]|]. intros j r' s' Hj Hc'.
      apply lookup_app_Some in Hj as [Hj|[Hl Hj]]; [by eapply Hmax|].
      apply list_lookup_singleton_Some in Hj as [Hj <-]. rewrite (candidate_unique _ _ _ _ Hr Hc').
      apply lookup_lt_Some in Hx. lia.
  - apply Hnew. intros j r' s' Hj Hc'. destruct (Hb _ _ _ Hj Hc').
Qed.

Lemma match_run_best {jiff : Jiff} t seen rs m :
  best t seen m -> best t (seen ++ rs) (match_run t (length seen) rs m).
Proof.
  revert seen m. induction rs as [|r rs IH]; intros seen m Hb; cbn [match_run]; [by rewrite app_nil_r|].
  assert (S (length seen) = length (seen ++ [r])) as -> by (rewrite length_app; cbn; lia).
  replace (seen ++ r :: rs) with ((seen ++ [r]) ++ rs) by by rewrite <- app_assoc.
  apply IH. unfold is_provisional. case_bool_decide as Hp.
  { apply best_snoc_other; [done|]. by intros s [? _]. }
  destruct (started r) as [s|] eqn:Es; [|apply best_snoc_other; [done|]; intros s (_ & _ & E & _); congruence].
  destruct (has_identity r) eqn:Ei; cbn [negb orb].
  2: { apply best_snoc_other; [done|]. intros s' (_ & E & _). congruence. }
  destruct (Z.ltb_spec t s) as [Hlt|Hle].
  { apply best_snoc_other; [done|]. intros s' (_ & _ & E & Hs'). rewrite Es in E. injection E as ->. lia. }
  by apply best_snoc.
Qed.

(** An event that ends a run ends the run that was going on at its time: of
    the verified runs that started by then, the latest start, the first of equals.
    Only that record changes, so a run that started after the event is never
    ended by it, however late the event arrives. With no such run, the
    provisional records of the container end instead. *)
Theorem terminate_latest {jiff : Jiff} id t h rs :
  h !! id = Some rs ->
  (exists i r s, rs !! i = Some r /\ candidate t r s
     /\ (forall j r' s', rs !! j = Some r' -> candidate t r' s' -> s' <= s /\ ((j < i)%nat -> s' < s))
     /\ terminate id t h = ([with_state Terminal r], <[id := <[i := with_state Terminal r]> rs]> h))
  \/ ((forall j r' s', rs !! j = Some r' -> ~ candidate t r' s')
     /\ terminate id t h
        = (with_state Terminal <$> filter (fun r => is_provisional r = true) rs,
           <[id := (fun r => if is_provisional r then with_state Terminal r else r) <$> rs]> h)).
Proof.
  intros E. pose proof (match_run_best t [] rs None ltac:(done)) as Hb. cbn [length app] in Hb.
  unfold terminate. rewrite E. destruct (match_run t 0 rs None) as [[i s]|].
  - left. destruct Hb as [(r & Hr & Hc) Hmax]. exists i, r, s. split_and!; [done..|].
    rewrite list_lookup_alter_eq, Hr. cbn. f_equal. f_equal.
    apply list_eq. intros j. rewrite list_lookup_alter, list_lookup_insert. pose proof (lookup_lt_Some _ _ _ Hr).
    repeat case_decide; subst; try lia; try tauto. by rewrite Hr.
  - right. done.
Qed.

(** ** An example *)

Module LifecycleExample.

#[local] Instance demo_jiff : Jiff :=
  {| parse_timestamp := fun s => if bool_decide (s = "t10") then Some 10 else if bool_decide (s = "t20") then Some 20 else None;
     TIMESTAMP_MIN := -1 |}.

Definition run_cgroup (ino : Z) : RunCgroup :=
  {| rc_identity := {| V2.path := "/sys/fs/cgroup/a"; V2.inode := ino |}; rc_version := CgroupV2; privileged := false |}.

(** A container verified, restarted under the same id and verified again. *)
Definition restart : list LifecycleOp :=
  [OpProvisional 11 "a"; OpVerify 12 "a" "t10" (run_cgroup 7); OpVerify 21 "a" "t20" (run_cgroup 8)].

Definition old_run : LifecycleRecord :=
  {| container_id := "a"; started_at := "t10"; cgroup := Some (run_cgroup 7); state := Verified;
     first_seen := 11; observed := 11; revoked := false |}.

Lemma verified_run_retained_witness :
  retained old_run (run_ops (restart ++ [OpTerminate "a" 15; OpMarkRevoked "a" "t10"; OpProvisional 30 "a"])).
Proof.
  apply (verified_run_retained restart _ old_run); [|reflexivity|by repeat constructor].
  change (records (run_ops restart) (container_id old_run)) with (records (run_ops restart) "a").
  apply list_elem_of_lookup. exists 0%nat. vm_compute. reflexivity.
Defined.

(** The event of the first run, arriving after the second started, ends the first. *)
Lemma terminate_latest_witness :
  (terminate "a" 15 (run_ops restart)).1 = [with_state Terminal old_run].
Proof.
  destruct (terminate_latest "a" 15 (run_ops restart) (records (run_ops restart) "a") ltac:(vm_compute; reflexivity))
    as [(i & r & s & _ & _ & _ & E)|[_ E]]; vm_compute in E |- *; [|discriminate E].
  vm_compute. reflexivity.
Defined.

End LifecycleExample.
