(* ===== verification/DevFs.v ===== *)
(** * The /dev the daemon sees (src/processor/devfs.rs)

    [DevFs] is the trait the rules are collected through: names under [/dev] are
    opened beneath a descriptor, and the node says what it is. It is a snapshot:
    within one collection a call gives the same answer each time. [RealDevFs] is
    the production instance, over the system calls of the class [Host]. A walk is
    a visitor threaded through the names; [dir_visits] lists the visits, and the
    walk is a fold over them that stops at [SkipAll]. *)

From stdpp Require Import sorting.
From S2P Require Import Prelude.
From S2P Require Import Text.
From S2P Require Import Lexpath.

Definition DEV_ROOT : string := "/dev".

(** The errnos the code tells apart. *)
Definition ENOENT : Z := 2.
Definition EIO : Z := 5.
Definition EXDEV : Z := 18.
Definition EINVAL : Z := 22.
Definition ENOSYS : Z := 38.

(** ** Failures *)

Record SysError := { context : string; errno : Z }.

#[global] Instance SysError_eq_dec : EqDecision SysError.
Proof. solve_decision. Defined.

Definition sys_error (context : string) (errno : Z) : SysError := {| context := context; errno := errno |}.

(** [SysError::from_io]: an [io::Error] may have no errno. *)
Definition sys_error_from_io (context : string) (error : option Z) : SysError :=
  sys_error context (default EIO error).

Definition SysError_text (errno_string : Z -> string) (e : SysError) : string :=
  if bool_decide (e.(context) = "") then errno_string e.(errno)
  else e.(context) +:+ ": " +:+ errno_string e.(errno).

(** ** Devices *)

Inductive DeviceType := CharDev | BlockDev.

#[global] Instance DeviceType_eq_dec : EqDecision DeviceType.
Proof. solve_decision. Defined.

Definition letter (t : DeviceType) : string := match t with CharDev => "c" | BlockDev => "b" end.
Definition sysfs_class (t : DeviceType) : string := match t with CharDev => "char" | BlockDev => "block" end.

Record DeviceId := { dev_kind : DeviceType; dev_major : Z; dev_minor : Z }.

#[global] Instance DeviceId_eq_dec : EqDecision DeviceId.
Proof. solve_decision. Defined.

#[global] Instance DeviceType_countable : Countable DeviceType.
Proof.
  refine (inj_countable' (fun t => match t with CharDev => true | BlockDev => false end)
    (fun b => if (b : bool) then CharDev else BlockDev) _). by intros [].
Defined.

#[global] Instance DeviceId_countable : Countable DeviceId.
Proof.
  refine (inj_countable' (fun i => (dev_kind i, dev_major i, dev_minor i))
    (fun p => {| dev_kind := p.1.1; dev_major := p.1.2; dev_minor := p.2 |}) _). by intros [].
Defined.

Definition DeviceId_text (i : DeviceId) : string :=
  letter i.(dev_kind) +:+ " " +:+ pretty i.(dev_major) +:+ ":" +:+ pretty i.(dev_minor).

Inductive NodeKind := Device (id : DeviceId) | Dir | OtherNode.

#[global] Instance NodeKind_eq_dec : EqDecision NodeKind.
Proof. solve_decision. Defined.

(** ** Walks *)

Inductive WalkControl := Continue | SkipAll.

#[global] Instance WalkControl_eq_dec : EqDecision WalkControl.
Proof. solve_decision. Defined.

(** What a visitor is called with: the path, whether it is a directory, and the
    error that stopped the walk from reading it. *)
Record Visit := { walked : string; is_dir : bool; visit_error : option SysError }.

Definition visit_of (path : string) (dir : bool) (error : option SysError) : Visit :=
  {| walked := path; is_dir := dir; visit_error := error |}.

(** A visitor with its captured state. *)
Abbreviation visitor S := (S -> Visit -> S * WalkControl).

(** Visits in order until one ends the walk. *)
Fixpoint fold_visits {S} (visit : visitor S) (s : S) (vs : list Visit) : S * WalkControl :=
  match vs with
  | [] => (s, Continue)
  | v :: vs =>
      match visit s v with
      | (s, SkipAll) => (s, SkipAll)
      | (s, Continue) => fold_visits visit s vs
      end
  end.

(** ** The trait *)

Class DevFs (Node : Type) := {
  fs_root : string;
  open_beneath : string -> result SysError Node;
  node_stat : Node -> result SysError NodeKind;
  node_resolved : Node -> string;
  read_link : string -> result SysError string;
  read_uevent : DeviceId -> result SysError string;
  walk_visits : string -> list Visit;
}.

(** [DevFs::walk]. *)
Definition walk {Node} `{!DevFs Node} {S} (base : string) (visit : visitor S) (s : S) : S :=
  (fold_visits visit s (walk_visits base)).1.

(** ** The production instance *)

Inductive FileType := CharacterDevice | BlockDevice | Directory | RegularFile | SymlinkFile | Fifo | Socket | UnknownFile.

Class Host (Fd : Type) := {
  (** [openat2] beneath the [/dev] descriptor, with [O_NOFOLLOW] or not. *)
  sys_openat2 : string -> bool -> result Z Fd;
  sys_readlinkat : Fd -> result Z string;
  (** [fstat]: the file's type and [st_rdev]. *)
  sys_fstat : Fd -> result Z (FileType * Z);
  major_of : Z -> Z;
  minor_of : Z -> Z;
  (** [/proc/self/fd/<fd>]. *)
  sys_fd_link : Fd -> option string;
  sys_open_file : string -> result (option Z) Fd;
  sys_read_file : Fd -> result (option Z) string;
  (** [symlink_metadata]: whether the path is a directory. *)
  sys_lstat : string -> result (option Z) bool;
  (** [read_dir]: what the iterator gives, an entry's name and whether it is a directory. *)
  sys_read_dir : string -> result (option Z) (list (result (option Z) (string * bool)));
  sys_metadata_ok : string -> bool;
}.

Definition relative_beneath (dir target : string) : option string :=
  if negb (starts_with target "/") then None
  else
    let dir := clean dir in
    let target := clean target in
    if bool_decide (dir = target) then Some "."
    else
      let prefix := if bool_decide (dir = "/") then "" else dir in
      strip_prefix (prefix +:+ "/") target.

(** The entries read before the first failure, and the failure. *)
Fixpoint read_entries (path : string) (reader : list (result (option Z) (string * bool)))
    : list (string * bool) * option SysError :=
  match reader with
  | [] => ([], None)
  | Err error :: _ => ([], Some (sys_error_from_io ("readdirent " +:+ path) error))
  | Ok entry :: reader => let '(entries, failure) := read_entries path reader in (entry :: entries, failure)
  end.

(** [sort_by] on the name, which is stable. *)
Definition name_le (a b : string * bool) : Prop := String.le a.1 b.1.

#[global] Instance name_le_dec a b : Decision (name_le a b).
Proof. unfold name_le. apply _. Defined.

Section host.
Context {Fd : Type} {host : Host Fd} (dir sysfs_root : string).

Definition openat2 (rel : string) (nofollow : bool) : result SysError Fd :=
  map_err (sys_error ("openat2 " +:+ rel)) (sys_openat2 rel nofollow).

Definition real_open_beneath (rel : string) : result SysError Fd := openat2 rel false.

Definition real_read_link (rel : string) : result SysError string :=
  link ← openat2 rel true;
  map_err (sys_error ("readlink " +:+ rel)) (sys_readlinkat link).

Definition uevent_path (id : DeviceId) : string :=
  join_path [sysfs_root; "dev"; sysfs_class id.(dev_kind);
             pretty id.(dev_major) +:+ ":" +:+ pretty id.(dev_minor); "uevent"].

Definition real_read_uevent (id : DeviceId) : result SysError string :=
  let path := uevent_path id in
  file ← map_err (sys_error_from_io ("read " +:+ path +:+ ": open " +:+ path)) (sys_open_file path);
  map_err (sys_error_from_io ("read " +:+ path +:+ ": read " +:+ path)) (sys_read_file file).

Definition real_stat (fd : Fd) : result SysError NodeKind :=
  '(type, rdev) ← map_err (sys_error "fstat") (sys_fstat fd);
  let id kind := Device {| dev_kind := kind; dev_major := major_of rdev; dev_minor := minor_of rdev |} in
  Ok match type with
     | CharacterDevice => id CharDev
     | BlockDevice => id BlockDev
     | Directory => Dir
     | RegularFile | SymlinkFile | Fifo | Socket | UnknownFile => OtherNode
     end.

Definition real_resolved (fd : Fd) : string :=
  match sys_fd_link fd with
  | None => ""
  | Some target => default "" ((fun rel => join_path [DEV_ROOT; rel]) <$> relative_beneath dir target)
  end.

Definition read_dir_sorted (path : string) : list (string * bool) * option SysError :=
  match sys_read_dir path with
  | Err error => ([], Some (sys_error_from_io ("open " +:+ path) error))
  | Ok reader =>
      let '(entries, failure) := read_entries path reader in (merge_sort name_le entries, failure)
  end.

(** [walk_entry] with a visitor, to a depth: a host directory tree is finite. *)
Fixpoint walk_entry {S} (fuel : nat) (visit : visitor S) (path : string) (dir : bool) (s : S) : S * WalkControl :=
  match visit s (visit_of path dir None) with
  | (s, SkipAll) => (s, SkipAll)
  | (s, Continue) =>
      if negb dir then (s, Continue)
      else
        let '(entries, error) := read_dir_sorted path in
        let '(s, control) :=
          match error with
          | Some error => visit s (visit_of path true (Some error))
          | None => (s, Continue)
          end in
        match control with
        | SkipAll => (s, SkipAll)
        | Continue =>
            match fuel with
            | O => (s, Continue)
            | Datatypes.S fuel =>
                (fix walk_children (s : S) (entries : list (string * bool)) : S * WalkControl :=
                   match entries with
                   | [] => (s, Continue)
                   | (name, entry_is_dir) :: entries =>
                       match walk_entry fuel visit (join_path [path; name]) entry_is_dir s with
                       | (s, SkipAll) => (s, SkipAll)
                       | (s, Continue) => walk_children s entries
                       end
                   end) s entries
            end
        end
  end.

Definition walk_dir {S} (fuel : nat) (root : string) (visit : visitor S) (s : S) : S :=
  match sys_lstat root with
  | Err error => (visit s (visit_of root false (Some (sys_error_from_io ("lstat " +:+ root) error)))).1
  | Ok is_dir => (walk_entry fuel visit root is_dir s).1
  end.

(** The visits of an entry and everything below it, in order. *)
Fixpoint entry_visits (fuel : nat) (path : string) (dir : bool) : list Visit :=
  visit_of path dir None ::
  if negb dir then []
  else
    let '(entries, error) := read_dir_sorted path in
    match error with Some error => [visit_of path true (Some error)] | None => [] end ++
    match fuel with
    | O => []
    | S fuel => entries ≫= fun e => entry_visits fuel (join_path [path; e.1]) e.2
    end.

Definition dir_visits (fuel : nat) (root : string) : list Visit :=
  match sys_lstat root with
  | Err error => [visit_of root false (Some (sys_error_from_io ("lstat " +:+ root) error))]
  | Ok is_dir => entry_visits fuel root is_dir
  end.

Definition sysfs_root_for (host_root : string) : string :=
  let mounted := join_path [host_root; "sys"] in
  if sys_metadata_ok (join_path [mounted; "dev"]) then mounted else "/sys".

End host.

(** [RealDevFs], its tree read to a depth. *)
Definition RealDevFs {Fd} {host : Host Fd} (fuel : nat) (dir sysfs_root : string) : DevFs Fd := {|
  fs_root := dir;
  open_beneath := real_open_beneath;
  node_stat := real_stat;
  node_resolved := real_resolved dir;
  read_link := real_read_link;
  read_uevent := real_read_uevent sysfs_root;
  walk_visits := dir_visits fuel;
|}.

(** ** The probe *)

Inductive ProbeError := Unsupported (errno : Z) | Probe (errno : Z).

Definition probe_openat2 (answer : result Z unit) : result ProbeError unit :=
  match answer with
  | Ok _ => Ok tt
  | Err errno =>
      if bool_decide (errno = ENOSYS) || bool_decide (errno = EINVAL) then Err (Unsupported errno)
      else Err (Probe errno)
  end.

Definition ProbeError_text (errno_string : Z -> string) (e : ProbeError) : string :=
  match e with
  | Unsupported errno =>
      "openat2 with RESOLVE_BENEATH is not supported; Linux 5.6 or newer is required: " +:+ errno_string errno
  | Probe errno => "probe openat2: " +:+ errno_string errno
  end.

(** ** The walk is a fold over the visits *)

Lemma fold_visits_app {S} (visit : visitor S) s vs ws :
  fold_visits visit s (vs ++ ws)
  = match fold_visits visit s vs with (s, SkipAll) => (s, SkipAll) | (s, Continue) => fold_visits visit s ws end.
Proof.
  revert s. induction vs as [|v vs IH]; intros s; [done|]. cbn. destruct (visit s v) as [s' []]; [apply IH|done].
Qed.

Lemma walk_entry_visits {Fd} {host : Host Fd} {S} fuel (visit : visitor S) path dir s :
  walk_entry fuel visit path dir s = fold_visits visit s (entry_visits fuel path dir).
Proof.
  revert path dir s. induction fuel as [|fuel IH]; intros path dir s.
  - cbn. destruct (visit s _) as [s' []]; [|done]. destruct dir; [|done]. cbn.
    destruct (read_dir_sorted path) as [entries [error|]]; [|done]. cbn. by destruct (visit s' _) as [s'' []].
  - cbn. destruct (visit s _) as [s' []]; [|done]. destruct dir; [|done]. cbn [negb].
    destruct (read_dir_sorted path) as [entries error]. rewrite fold_visits_app.
    assert (fold_visits visit s' (match error with Some error => [visit_of path true (Some error)] | None => [] end)
      = match error with Some error => visit s' (visit_of path true (Some error)) | None => (s', Continue) end) as ->.
    { destruct error as [error|]; [|done]. cbn. by destruct (visit s' _) as [? []]. }
    destruct (match error with Some error => _ | None => _ end) as [s'' []]; [|done].
    revert s''. induction entries as [|[name d] entries IHe]; intros s''; [done|].
    cbn [mbind list_bind]. rewrite fold_visits_app, <- IH. cbn [fst snd].
    destruct (walk_entry fuel visit (join_path [path; name]) d s'') as [s3 []]; [apply IHe|done].
Qed.

Lemma walk_dir_visits {Fd} {host : Host Fd} {S} fuel root (visit : visitor S) s :
  walk_dir fuel root visit s = (fold_visits visit s (dir_visits fuel root)).1.
Proof.
  unfold walk_dir, dir_visits. destruct (sys_lstat root) as [d|e].
  - by rewrite walk_entry_visits.
  - cbn. by destruct (visit s _) as [? []].
Qed.
