(* ===== verification/Rules.v ===== *)
(** * The device rules of a container (src/processor/rules.rs)

    Every name under a container's [/dev] bind mounts is opened beneath [/dev],
    identified by what its descriptor and sysfs say, judged by the policy under
    each of its names, and the votes are counted per device. Log lines are not
    modelled; the counters handed to the metrics are. *)

From S2P Require Import Prelude.
From S2P Require Import Text.
From S2P Require Import Lexpath.
From S2P Require Import Ebpf.
From S2P Require Import Policy.
From S2P Require Import DevFs.

Definition MAX_MOUNT_ENTRIES : nat := 4096.
Definition MAX_LOG_CHILDREN : nat := 32.
Definition MAX_LINK_HOPS : nat := 40.
Definition DEVICE_ACCESS_ALL : string := "rwm".
Definition BIND_MOUNT : string := "bind".

Definition SKIP_OUTSIDE_DEV : string := "outside_dev".
Definition SKIP_DANGLING : string := "dangling".
Definition SKIP_NOT_DEVICE : string := "not_device".

Record Decision := { denied_by : option string; decision_authorized : bool }.

Definition Decision_default : Decision := {| denied_by := None; decision_authorized := false |}.

Definition decision_granted (d : Decision) : bool :=
  bool_decide (d.(denied_by) = None) && d.(decision_authorized).

Record Candidate := {
  alias : string;
  resolved : string;
  canonical : string;
  kind : NodeKind;
  decision : Decision;
}.

(** ** Errors *)

Inductive BadDevname :=
  | Count (n : nat)
  | Invalid (name : string)
  | DevnameLineTooLong.

Inductive Cause :=
  | CauseSys (error : SysError)
  | CauseBadDevname (error : BadDevname)
  | TooManyLinks.

Inductive DeviceError :=
  | Unresolved (alias : string) (device : option (string * DeviceId)) (cause : Cause)
  | MountSourceGone (path : string)
  | DevOpen (cause : SysError)
  | NotDevice (path : string)
  | IncompleteWalk (name : string) (cause : SysError)
  | MountTooLarge (source : string).

Definition is_unresolved (e : DeviceError) : bool :=
  match e with Unresolved _ _ _ | MountSourceGone _ | DevOpen _ => true | _ => false end.

Definition is_incomplete_walk (e : DeviceError) : bool :=
  match e with IncompleteWalk _ _ | MountTooLarge _ => true | _ => false end.

Definition UNRESOLVED : string := "device identity could not be established".
Definition INCOMPLETE_WALK : string := "device mount enumeration incomplete".

Definition BadDevname_text (e : BadDevname) : string :=
  "uevent has no single valid DEVNAME: " +:+
  match e with
  | Count n => pretty n +:+ " DEVNAME lines"
  | Invalid name => quote name
  | DevnameLineTooLong => "a line longer than 65536 bytes"
  end.

Section texts.
Context (errno_string : Z -> string).

Definition Cause_text (c : Cause) : string :=
  match c with
  | CauseSys error => SysError_text errno_string error
  | CauseBadDevname error => BadDevname_text error
  | TooManyLinks => "too many levels of symbolic links"
  end.

Definition DeviceError_text (e : DeviceError) : string :=
  match e with
  | Unresolved alias None cause => UNRESOLVED +:+ ": " +:+ alias +:+ ": " +:+ Cause_text cause
  | Unresolved alias (Some (resolved, id)) cause =>
      UNRESOLVED +:+ ": " +:+ alias +:+ " (resolved " +:+ resolved +:+ ", " +:+ DeviceId_text id +:+ "): "
        +:+ Cause_text cause
  | MountSourceGone path =>
      UNRESOLVED +:+ ": mount source " +:+ path +:+ ": " +:+ SysError_text errno_string (sys_error "" ENOENT)
  | DevOpen cause => UNRESOLVED +:+ ": " +:+ SysError_text errno_string cause
  | NotDevice path => "device " +:+ quote path +:+ " is neither character nor block device"
  | IncompleteWalk name cause =>
      INCOMPLETE_WALK +:+ ": " +:+ name +:+ ": " +:+ SysError_text errno_string cause
  | MountTooLarge source =>
      INCOMPLETE_WALK +:+ ": " +:+ source +:+ ": mount too large; narrow the bind mount: more than "
        +:+ pretty MAX_MOUNT_ENTRIES +:+ " entries"
  end.

End texts.

(** ** What one mount gives *)

(** The skipped entries per reason. *)
Abbreviation Outcomes := (gmap string nat).

Definition count_outcome (reason : string) (n : nat) (o : Outcomes) : Outcomes :=
  <[reason := (default 0 (o !! reason) + n)%nat]> o.

Record MountResult := {
  candidates : list Candidate;
  skipped : nat;
  errs : list DeviceError;
  outcomes : Outcomes;
}.

Definition MountResult_default : MountResult := {| candidates := []; skipped := 0; errs := []; outcomes := ∅ |}.

Definition add_skip (reason : string) (r : MountResult) : MountResult :=
  {| candidates := r.(candidates); skipped := S r.(skipped); errs := r.(errs);
     outcomes := count_outcome reason 1 r.(outcomes) |}.

(** [result.errs.push] and [result.candidates.push]. *)
Definition push_err (e : DeviceError) (r : MountResult) : MountResult :=
  {| candidates := r.(candidates); skipped := r.(skipped); errs := r.(errs) ++ [e]; outcomes := r.(outcomes) |}.

Definition push_candidate (c : Candidate) (r : MountResult) : MountResult :=
  {| candidates := r.(candidates) ++ [c]; skipped := r.(skipped); errs := r.(errs); outcomes := r.(outcomes) |}.

Definition is_mount_source (path : string) : bool :=
  bool_decide (path = DEV_ROOT) || starts_with path "/dev/".

Definition under_dev (path : string) : bool := bool_decide (clean path = path) && is_mount_source path.

Definition rel_to_dev (path : string) : string :=
  if bool_decide (path = DEV_ROOT) then "." else default path (strip_prefix "/dev/" path).

Record Judge := { global : Global; container : Container }.

(** ** Naming and judging one candidate *)

Section judge.
Context {crate : GlobCrate} {Node : Type} {dev : DevFs Node}.

(** The loop over the three names: the first that is denied. *)
Fixpoint first_denied (g : Global) (c : Container) (names : list string) : option string :=
  match names with
  | [] => None
  | name :: names => if denied g c name then Some name else first_denied g c names
  end.

Definition evaluate_identity (alias resolved canonical : string) (g : Global) (c : Container) : Decision :=
  match first_denied g c [alias; resolved; canonical] with
  | Some name => {| denied_by := Some name; decision_authorized := false |}
  | None => {| denied_by := None; decision_authorized := authorized g c canonical && authorized g c resolved |}
  end.

Inductive Hop := Retry (path : string) | OutsideHop (target : string).

(** [parts[..=index]] joined and what follows, index by index. *)
Fixpoint escape_hop_from (rel : string) (before after : list string) : result SysError Hop :=
  match after with
  | [] => Ok (Retry rel)
  | part :: after =>
      let before := before ++ [part] in
      let prefix := join "/" before in
      match open_beneath prefix with
      | Ok _ => escape_hop_from rel before after
      | Err error =>
          if negb (bool_decide (errno error = EXDEV)) then Err error
          else
            target ← read_link prefix;
            let cleaned := clean target in
            if negb (starts_with target "/") || negb (under_dev cleaned) then Ok (OutsideHop target)
            else Ok (Retry (join_path (rel_to_dev cleaned :: after)))
      end
  end.

Definition escape_hop (rel : string) : result SysError Hop := escape_hop_from rel [] (split_on SEPARATOR rel).

Inductive Opened := OpenedNode (node : Node) | OpenedSkip (reason : string).

(** [for _ in 0..MAX_LINK_HOPS]. *)
Fixpoint open_hops (hops : nat) (alias rel : string) : result DeviceError Opened :=
  match hops with
  | O => Err (Unresolved alias None TooManyLinks)
  | S hops =>
      match open_beneath rel with
      | Ok node => Ok (OpenedNode node)
      | Err error =>
          if bool_decide (errno error = ENOENT) then Ok (OpenedSkip SKIP_DANGLING)
          else if negb (bool_decide (errno error = EXDEV)) then Err (Unresolved alias None (CauseSys error))
          else
            match escape_hop rel with
            | Err error => Err (Unresolved alias None (CauseSys error))
            | Ok (OutsideHop _) => Ok (OpenedSkip SKIP_OUTSIDE_DEV)
            | Ok (Retry next) => open_hops hops alias next
            end
      end
  end.

Definition open_candidate (alias : string) : result DeviceError Opened :=
  open_hops MAX_LINK_HOPS alias (rel_to_dev alias).

(** Every line as text, or the first that is too long. *)
Fixpoint collect_lines (items : list line_item) : option (list string) :=
  match items with
  | [] => Some []
  | Line l :: items => ls ← collect_lines items; Some (l :: ls)
  | LineTooLong :: _ => None
  end.

Definition devnames (uevent : list string) : list string := omap (strip_prefix "DEVNAME=") uevent.

Definition canonical_name (id : DeviceId) : result Cause string :=
  data ← map_err CauseSys (read_uevent id);
  ls ← ok_or (collect_lines (lines data)) (CauseBadDevname DevnameLineTooLong);
  match devnames ls with
  | [name] =>
      if bool_decide (name = "") || starts_with name "/" || negb (bool_decide (clean name = name))
         || bool_decide (name = "..") || starts_with name "../"
      then Err (CauseBadDevname (Invalid name))
      else Ok (DEV_ROOT +:+ "/" +:+ name)
  | names => Err (CauseBadDevname (Count (length names)))
  end.

Record Evaluated := {
  candidate : Candidate;
  skip : option string;
  err : option DeviceError;
}.

(** The fields of [found] as they are assigned on the way. *)
Definition found_skip (c : Candidate) (reason : string) : Evaluated :=
  {| candidate := c; skip := Some reason; err := None |}.
Definition found_err (c : Candidate) (e : DeviceError) : Evaluated :=
  {| candidate := c; skip := None; err := Some e |}.

Definition evaluate_candidate (alias : string) (judge : Judge) : Evaluated :=
  let blank kind resolved canonical decision :=
    {| alias := alias; resolved := resolved; canonical := canonical; kind := kind; decision := decision |} in
  let unknown := blank OtherNode "" "" Decision_default in
  if negb (under_dev alias) then found_skip unknown SKIP_OUTSIDE_DEV
  else
    match open_candidate alias with
    | Ok (OpenedSkip reason) => found_skip unknown reason
    | Err error => found_err unknown error
    | Ok (OpenedNode node) =>
        match node_stat node with
        | Err error => found_err unknown (Unresolved alias None (CauseSys error))
        | Ok kind =>
            let resolved := if bool_decide (node_resolved node = "") then alias else node_resolved node in
            match kind with
            | Dir | OtherNode => {| candidate := blank kind resolved "" Decision_default; skip := None; err := None |}
            | Device id =>
                match canonical_name id with
                | Ok canonical =>
                    let decision := evaluate_identity alias resolved canonical judge.(global) judge.(container) in
                    {| candidate := blank kind resolved canonical decision; skip := None; err := None |}
                | Err cause =>
                    let decision := evaluate_identity alias resolved resolved judge.(global) judge.(container) in
                    let excluded := {| denied_by := decision.(denied_by); decision_authorized := false |} in
                    {| candidate := blank kind resolved "" excluded; skip := None;
                       err := if decision_granted decision
                              then Some (Unresolved alias (Some (resolved, id)) cause) else None |}
                end
            end
        end
    end.

(** ** A directory mount *)

Record MountWalkState := {
  result_of : MountResult;
  policy_excluded : nat;
  children_seen : list string;
  entries : nat;
}.

Definition with_result (f : MountResult -> MountResult) (s : MountWalkState) : MountWalkState :=
  {| result_of := f s.(result_of); policy_excluded := s.(policy_excluded);
     children_seen := s.(children_seen); entries := s.(entries) |}.

Definition count_entry (s : MountWalkState) : MountWalkState :=
  {| result_of := s.(result_of); policy_excluded := s.(policy_excluded);
     children_seen := s.(children_seen); entries := S s.(entries) |}.

Definition see_child (name : string) (s : MountWalkState) : MountWalkState :=
  {| result_of := s.(result_of); policy_excluded := s.(policy_excluded);
     children_seen := if (length s.(children_seen) <? MAX_LOG_CHILDREN)%nat
                      then s.(children_seen) ++ [name] else s.(children_seen);
     entries := s.(entries) |}.

Definition count_excluded (d : Decision) (s : MountWalkState) : MountWalkState :=
  {| result_of := s.(result_of);
     policy_excluded := if decision_granted d then s.(policy_excluded) else S s.(policy_excluded);
     children_seen := s.(children_seen); entries := s.(entries) |}.

(** The tail of [visit_entry]: one name that is not a directory. *)
Definition visit_name (alias : string) (judge : Judge) (s : MountWalkState) : MountWalkState :=
  let found := evaluate_candidate alias judge in
  match found.(err), found.(skip) with
  | Some error, _ => with_result (push_err error) s
  | None, Some reason => with_result (add_skip reason) s
  | None, None =>
      match found.(candidate).(kind) with
      | Dir | OtherNode => with_result (add_skip SKIP_NOT_DEVICE) s
      | Device _ =>
          with_result (push_candidate found.(candidate)) (count_excluded found.(candidate).(decision) s)
      end
  end.

Definition alias_of (source base walked : string) : string :=
  source +:+ default walked (strip_prefix base walked).

Definition visit_entry (source base : string) (judge : Judge) (s : MountWalkState) (v : Visit)
    : MountWalkState * WalkControl :=
  let alias := alias_of source base v.(walked) in
  match v.(visit_error) with
  | Some error => (with_result (push_err (IncompleteWalk alias error)) s, Continue)
  | None =>
      if bool_decide (v.(walked) = base) then (s, Continue)
      else
        let s := count_entry s in
        if (MAX_MOUNT_ENTRIES <? s.(entries))%nat then (with_result (push_err (MountTooLarge source)) s, SkipAll)
        else if v.(is_dir) then (s, Continue)
        else (visit_name alias judge (see_child (Lexpath.base v.(walked)) s), Continue)
  end.

Definition walk_mount (source dir : string) (judge : Judge) (r : MountResult) : MountResult :=
  let base := join_path [fs_root; rel_to_dev dir] in
  let start := {| result_of := r; policy_excluded := 0; children_seen := []; entries := 0 |} in
  (walk base (visit_entry source base judge) start).(result_of).

Definition collect_mount_rules (mount_path : string) (judge : Judge) : MountResult :=
  let result := MountResult_default in
  let source := evaluate_candidate mount_path judge in
  match source.(err) with
  | Some error => push_err error result
  | None =>
      match source.(skip), source.(candidate).(kind) with
      | Some reason, _ =>
          if bool_decide (reason = SKIP_DANGLING) then push_err (MountSourceGone mount_path) result
          else add_skip reason result
      | None, Dir => walk_mount mount_path source.(candidate).(resolved) judge result
      | None, OtherNode => push_err (NotDevice mount_path) result
      | None, Device _ => push_candidate source.(candidate) result
      end
  end.

(** ** Votes per device *)

Record DeviceVotes := { vote_candidates : nat; vote_authorized : bool; vote_denied_by : option string }.

Record Aggregation := { order : list DeviceId; votes : gmap DeviceId DeviceVotes }.

Definition Aggregation_default : Aggregation := {| order := []; votes := ∅ |}.

Definition aggregation_add (a : Aggregation) (found : Candidate) : Aggregation :=
  match found.(kind) with
  | Dir | OtherNode => a
  | Device id =>
      let '(order, v) :=
        match a.(votes) !! id with
        | Some v => (a.(order), v)
        | None => (a.(order) ++ [id], {| vote_candidates := 0; vote_authorized := false; vote_denied_by := None |})
        end in
      let denied := match v.(vote_denied_by) with
                    | Some name => Some name
                    | None => found.(decision).(denied_by)
                    end in
      {| order := order;
         votes := <[id := {| vote_candidates := S v.(vote_candidates);
                             vote_authorized := v.(vote_authorized) || found.(decision).(decision_authorized);
                             vote_denied_by := denied |}]> a.(votes) |}
  end.

Definition device_rule (id : DeviceId) : DeviceRule :=
  {| allow := true; Ebpf.kind := letter id.(dev_kind); major := Some id.(dev_major); minor := Some id.(dev_minor);
     access := DEVICE_ACCESS_ALL |}.

(** The loop of [emit] over the devices in the order they were first seen. *)
Fixpoint emit_loop (votes : gmap DeviceId DeviceVotes) (order : list DeviceId) : list DeviceRule * nat :=
  match order with
  | [] => ([], 0%nat)
  | id :: order =>
      let '(rules, skipped) := emit_loop votes order in
      match votes !! id with
      | None => (rules, skipped)
      | Some v =>
          match v.(vote_denied_by), v.(vote_authorized) with
          | None, true => (device_rule id :: rules, skipped)
          | _, _ => (rules, (v.(vote_candidates) + skipped)%nat)
          end
      end
  end.

Definition aggregation_emit (a : Aggregation) : list DeviceRule * nat := emit_loop a.(votes) a.(order).

(** ** A container *)

Record MountPoint := { mount_kind : string; mount_source : string; mount_destination : string }.

Record ContainerRules := {
  granted : list DeviceRule;
  rules_skipped : nat;
  device_errs : list DeviceError;
  dev_mounts : nat;
}.

Definition is_device_mount (m : MountPoint) : bool :=
  bool_decide (m.(mount_kind) = BIND_MOUNT) && is_mount_source m.(mount_source).

(** The state of the loop over the mounts: the result, the votes and the counters
    handed to the metrics. *)
Definition collect_step (judge : Judge) (s : ContainerRules * Aggregation * Outcomes) (m : MountPoint)
    : ContainerRules * Aggregation * Outcomes :=
  let '(r, devices, metrics) := s in
  let mr := collect_mount_rules m.(mount_source) judge in
  ({| granted := r.(granted); rules_skipped := (r.(rules_skipped) + mr.(skipped))%nat;
      device_errs := r.(device_errs) ++ mr.(errs); dev_mounts := S r.(dev_mounts) |},
   foldl aggregation_add devices mr.(candidates),
   map_fold count_outcome metrics mr.(outcomes)).

Definition collect_container_rules (mounts : list MountPoint) (judge : Judge) : ContainerRules * Outcomes :=
  let start := ({| granted := []; rules_skipped := 0; device_errs := []; dev_mounts := 0 |},
                Aggregation_default, ∅) in
  let '(r, devices, metrics) := foldl (collect_step judge) start (filter (fun m => is_device_mount m = true) mounts) in
  let '(rules, excluded) := aggregation_emit devices in
  ({| granted := rules; rules_skipped := (r.(rules_skipped) + excluded)%nat; device_errs := r.(device_errs);
      dev_mounts := r.(dev_mounts) |}, metrics).

End judge.
