(* ===== verification/RulesProofs.v ===== *)
(** * Which devices a container is granted

    The votes of the candidates decide per device; a candidate's vote is the
    policy's judgement of its names; every name of a mount is accounted for. *)

From S2P Require Import Prelude.
From S2P Require Import Text.
From S2P Require Import TextProofs.
From S2P Require Import Lexpath.
From S2P Require Import LexpathProofs.
From S2P Require Import Ebpf.
From S2P Require Import Policy.
From S2P Require Import PolicyProofs.
From S2P Require Import DevFs.
From S2P Require Import Rules.

(** ** The votes *)












(** ** The rules *)






(** ** A candidate's vote *)

Section judge.
Context {crate : GlobCrate} {Node : Type} {dev : DevFs Node} (judge : Judge).

Abbreviation is_denied := (denied judge.(global) judge.(container)).
Abbreviation is_authorized := (authorized judge.(global) judge.(container)).









Lemma fold_visits_inv {S} (P : S -> Prop) (visit : visitor S) vs s :
  (forall s v, P s -> P (visit s v).1) -> P s -> P (fold_visits visit s vs).1.
Proof.
  intros Hv. revert s. induction vs as [|v vs IH]; intros s Hs; [done|]. cbn.
  specialize (Hv s v Hs). destruct (visit s v) as [s' []]; [by apply IH|done].
Qed.


(** ** A container's candidates *)





End judge.


(** ** The canonical name *)

Lemma starts_with_prefix p t : starts_with (p +:+ t) p = true.
Proof.
  unfold starts_with. induction p as [|c p IH]; [done|].
  change (String c p +:+ t) with (String c (p +:+ t)). cbn [strip_prefix]. by rewrite bool_decide_eq_true_2.
Qed.

(** A clean relative path has a parent element only at its front. *)
Lemma clean_relative_no_dotdot name :
  clean name = name -> is_rooted name = false -> name <> ".." -> starts_with name "../" = false ->
  ".." ∉ split_on SEPARATOR name.
Proof.
  intros Hc Hr Hne Hs. rewrite clean_is_ref in Hc. unfold clean_ref in Hc.
  destruct (elements_of_stack name) as (k & names & E & Hst). rewrite E, Hr in *.
  case_bool_decide as Hz; [rewrite <- Hc; by intros [?|?%elem_of_nil]%elem_of_cons|].
  destruct k as [|k].
  - rewrite <- Hc, split_render by done. cbn [app]. destruct Hst as [Hn _]. apply Forall_rev in Hn.
    rewrite rev_stack. cbn [replicate app]. destruct (rev names) as [|x l].
    { by intros [?|?%elem_of_nil]%elem_of_cons. }
    intros Hin. rewrite Forall_forall in Hn. by destruct (Hn _ Hin) as (_ & _ & ? & _).
  - exfalso. rewrite <- Hc in Hne, Hs. unfold render in Hne, Hs. rewrite rev_stack in Hne, Hs.
    cbn [replicate app] in Hne, Hs. destruct (replicate k ".." ++ rev names) as [|x l]; [by apply Hne|].
    change (join "/" (".." :: x :: l)) with (".." +:+ "/" +:+ join "/" (x :: l)) in Hs.
    change ("" +:+ ".." +:+ "/" +:+ ?t) with ("../" +:+ t) in Hs. by rewrite starts_with_prefix in Hs.
Qed.

(** The name sysfs gives a device is used only when it is safe to match: it
    is [/dev/] and a clean relative path, with no [..] element. Anything else, or
    other than one [DEVNAME] line, is an error. *)
Theorem canonical_name_in_dev {Node} {dev : DevFs Node} id canonical :
  canonical_name id = Ok canonical ->
  exists name, canonical = "/dev/" +:+ name /\ name <> "" /\ clean name = name
    /\ ".." ∉ split_on SEPARATOR canonical.
Proof.
  unfold canonical_name. intros H. apply bind_Ok in H as (data & _ & H). apply bind_Ok in H as (ls & _ & H).
  destruct (devnames ls) as [|name [|? ?]]; [done| |done].
  destruct (bool_decide (name = "")) eqn:E1; [done|]. apply bool_decide_eq_false_1 in E1.
  destruct (starts_with name "/") eqn:E2; [done|].
  destruct (bool_decide (clean name = name)) eqn:E3; [|done]. apply bool_decide_eq_true_1 in E3.
  destruct (bool_decide (name = "..")) eqn:E4; [done|]. apply bool_decide_eq_false_1 in E4.
  destruct (starts_with name "../") eqn:E5; [done|]. cbn [orb negb] in H. injection H as <-.
  exists name. split_and!; [done..|].
  assert (".." ∉ split_on SEPARATOR name) as Hn.
  { apply clean_relative_no_dotdot; try done. destruct name as [|c name]; [done|]. cbn [is_rooted].
    unfold starts_with in E2. cbn [strip_prefix] in E2. apply bool_decide_eq_false_2. intros ->.
    by rewrite bool_decide_eq_true_2 in E2. }
  change (DEV_ROOT +:+ "/" +:+ name) with ("" +:+ String SEPARATOR ("dev" +:+ String SEPARATOR name)).
  rewrite !split_on_two by done. by intros [?|[?|?]%elem_of_cons]%elem_of_cons.
Qed.

(** ** Every name is accounted for *)

Definition count_if {A} (p : A -> bool) (l : list A) : nat := length (List.filter p l).

(** The visits of names below the base, and those among them that are judged. *)
Definition visits_name (base : string) (v : Visit) : bool :=
  bool_decide (v.(visit_error) = None) && negb (bool_decide (v.(walked) = base)).
Definition visits_file (base : string) (v : Visit) : bool := visits_name base v && negb v.(is_dir).
Definition visits_error (v : Visit) : bool := negb (bool_decide (v.(visit_error) = None)).

(** How many names a result accounts for. *)
Definition accounted (r : MountResult) : nat := (length r.(candidates) + r.(skipped) + length r.(errs))%nat.

Lemma accounted_err e r : accounted (push_err e r) = S (accounted r).
Proof. unfold accounted. cbn. rewrite length_app. cbn. lia. Qed.

Lemma accounted_skip reason r : accounted (add_skip reason r) = S (accounted r).
Proof. unfold accounted. cbn. lia. Qed.

Lemma accounted_candidate c r : accounted (push_candidate c r) = S (accounted r).
Proof. unfold accounted. cbn. rewrite length_app. cbn. lia. Qed.

Create HintDb accounts.
#[local] Hint Rewrite accounted_err accounted_skip accounted_candidate : accounts.

Section accounts.
Context {crate : GlobCrate} {Node : Type} {dev : DevFs Node} (judge : Judge) (source base : string).

Lemma visit_name_accounted a s :
  accounted (visit_name a judge s).(result_of) = S (accounted s.(result_of))
  /\ (visit_name a judge s).(entries) = s.(entries).
Proof.
  unfold visit_name. destruct (err (evaluate_candidate a judge)); [|destruct (skip (evaluate_candidate a judge));
    [|destruct (kind (candidate (evaluate_candidate a judge)))]];
    cbn [result_of entries with_result count_excluded]; by autorewrite with accounts.
Qed.

Lemma fold_visits_accounted vs s :
  (s.(entries) + count_if (visits_name base) vs <= MAX_MOUNT_ENTRIES)%nat ->
  accounted (fold_visits (visit_entry source base judge) s vs).1.(result_of)
  = (accounted s.(result_of) + count_if (visits_file base) vs + count_if visits_error vs)%nat.
Proof.
  revert s. induction vs as [|v vs IH]; intros s Hs; [cbn; lia|].
  cbn [fold_visits]. unfold visit_entry at 1. unfold count_if, visits_file, visits_name, visits_error in *.
  cbn [List.filter] in Hs |- *. destruct (visit_error v) as [e|].
  - rewrite (bool_decide_eq_false_2 (Some e = None)) in Hs |- * by done. cbn [andb negb] in Hs |- *.
    rewrite IH by done. cbn [result_of with_result]. autorewrite with accounts. cbn [length]. lia.
  - rewrite (bool_decide_eq_true_2 (None = None)) in Hs |- * by done. cbn [andb negb] in Hs |- *.
    destruct (bool_decide (walked v = base)); cbn [negb andb] in Hs |- *; [by rewrite IH|].
    cbn [length] in Hs. cbn [count_entry entries].
    rewrite (proj2 (Nat.ltb_ge _ _)) by lia. destruct (is_dir v); cbn [negb andb].
    + rewrite IH by (cbn [count_entry entries]; lia). done.
    + set (s' := see_child _ _). destruct (visit_name_accounted (alias_of source base (walked v)) s') as [Ha He].
      rewrite IH by (rewrite He; cbn; lia). rewrite Ha. cbn [length]. cbn. lia.
Qed.

Lemma errs_kept vs s e :
  e ∈ s.(result_of).(errs) -> e ∈ (fold_visits (visit_entry source base judge) s vs).1.(result_of).(errs).
Proof.
  apply (fold_visits_inv (fun s => e ∈ s.(result_of).(errs))). intros s' v He. unfold visit_entry, visit_name.
  repeat (case_match; cbn [fst]; try done); cbn [errs result_of with_result push_err]; set_solver.
Qed.

Lemma fold_visits_overflow vs s :
  (s.(entries) <= MAX_MOUNT_ENTRIES < s.(entries) + count_if (visits_name base) vs)%nat ->
  MountTooLarge source ∈ (fold_visits (visit_entry source base judge) s vs).1.(result_of).(errs).
Proof.
  revert s. induction vs as [|v vs IH]; intros s Hs; [cbn in Hs; lia|].
  cbn [fold_visits]. unfold visit_entry at 1. unfold count_if, visits_name in *.
  cbn [List.filter] in Hs. destruct (visit_error v) as [e|].
  - rewrite (bool_decide_eq_false_2 (Some e = None)) in Hs by done. by apply IH.
  - rewrite (bool_decide_eq_true_2 (None = None)) in Hs by done. cbn [andb] in Hs.
    destruct (bool_decide (walked v = base)); cbn [negb] in Hs; [by apply IH|].
    cbn [length] in Hs. cbn [count_entry entries].
    destruct (Nat.ltb_spec MAX_MOUNT_ENTRIES (S (entries s))) as [Hlt|Hge].
    + cbn [fst result_of with_result errs push_err]. apply elem_of_app. right. by apply list_elem_of_singleton.
    + destruct (is_dir v).
      * apply IH. cbn [count_entry entries]. lia.
      * apply IH. rewrite (proj2 (visit_name_accounted _ _)). cbn [see_child count_entry entries]. lia.
Qed.

End accounts.

(** No name of a directory mount is passed over in silence. Up to the bound
    of entries, every name that is not a directory is a candidate, a counted skip
    or an error, and every part of the tree that could not be read is an error;
    beyond the bound the mount itself is an error, so its set is unknown. *)
Theorem mount_walk_accounts {crate : GlobCrate} {Node} {dev : DevFs Node} judge source dir :
  let base := join_path [fs_root; rel_to_dev dir] in
  let visits := walk_visits base in
  let r := walk_mount source dir judge MountResult_default in
  ((count_if (visits_name base) visits <= MAX_MOUNT_ENTRIES)%nat ->
     (length r.(candidates) + r.(skipped) + length r.(errs)
      = count_if (visits_file base) visits + count_if visits_error visits)%nat)
  /\ ((MAX_MOUNT_ENTRIES < count_if (visits_name base) visits)%nat -> MountTooLarge source ∈ r.(errs)).
Proof.
  cbv zeta. unfold walk_mount, walk. split; intros H.
  - set (base := join_path _) in *.
    pose proof (fold_visits_accounted judge source base (walk_visits base)
      {| result_of := MountResult_default; policy_excluded := 0; children_seen := []; entries := 0 |} H) as E.
    exact E.
  - apply fold_visits_overflow. cbn [entries]. lia.
Qed.

(** ** An example *)

Module RulesExample.

#[local] Existing Instance PolicyExample.literal_crate.

Definition gpu : DeviceId := {| dev_kind := CharDev; dev_major := 226; dev_minor := 0 |}.
Definition mem : DeviceId := {| dev_kind := CharDev; dev_major := 1; dev_minor := 1 |}.

(** A [/dev] with a card, a link to it by path, a link out of it, and memory. *)
#[local] Instance scripted : DevFs (string * NodeKind) := {|
  fs_root := "/host/dev";
  open_beneath := fun rel =>
    if bool_decide (rel = "dri") then Ok ("/dev/dri", Dir)
    else if bool_decide (rel = "dri/card0") || bool_decide (rel = "dri/by-path") then Ok ("/dev/dri/card0", Device gpu)
    else if bool_decide (rel = "mem") then Ok ("/dev/mem", Device mem)
    else if bool_decide (rel = "dri/log") then Err (sys_error "openat2 dri/log" EXDEV)
    else Err (sys_error "openat2" ENOENT);
  node_stat := fun n => Ok n.2;
  node_resolved := fun n => n.1;
  read_link := fun _ => Ok "/run/log";
  read_uevent := fun id =>
    Ok (unlines (if bool_decide (id = gpu) then ["MAJOR=226"; "DEVNAME=dri/card0"] else ["DEVNAME=mem"]));
  walk_visits := fun base =>
    visit_of base true None :: ((fun n => visit_of (base +:+ n) false None) <$> ["/by-path"; "/card0"; "/log"]);
|}.

Definition judge (deny : list string) : Judge :=
  {| global := {| mode := All; g_device_allow := None; g_device_deny := Some deny |}; container := Container_default |}.

Definition mounts : list MountPoint :=
  [{| mount_kind := "bind"; mount_source := "/dev/dri"; mount_destination := "/dev/dri" |};
   {| mount_kind := "bind"; mount_source := "/dev/mem"; mount_destination := "/dev/mem" |};
   {| mount_kind := "volume"; mount_source := "/dev/sda"; mount_destination := "/x" |}].

(** The card is granted once; denying it under the link's name denies it. *)
Example granted_example :
  granted (collect_container_rules mounts (judge ["/dev/mem"])).1 = [device_rule gpu]
  /\ granted (collect_container_rules mounts (judge ["/dev/mem"; "/dev/dri/by-path"])).1 = []
  /\ device_errs (collect_container_rules mounts (judge ["/dev/mem"])).1 = []
  /\ (collect_container_rules mounts (judge ["/dev/mem"])).2 = {[ SKIP_OUTSIDE_DEV := 1%nat ]}.
Proof. split_and!; vm_compute; reflexivity. Qed.

Lemma canonical_name_in_dev_witness : ".." ∉ split_on SEPARATOR "/dev/dri/card0".
Proof.
  destruct (canonical_name_in_dev (dev := scripted) gpu "/dev/dri/card0" ltac:(vm_compute; reflexivity)) as (_ & _ & _ & _ & H).
  exact H.
Defined.

End RulesExample.
