(* ===== verification/ProcError.v ===== *)
(** * Pinning a process and the processor's errors (src/processor/pin.rs, error.rs, src/docker/error.rs)

    A container's process is held by a pidfd and its cgroup read through one
    descriptor of its [/proc] directory. The errors of the processor wrap those of
    its parts, and its classifiers look through every wrap and join. *)

From S2P Require Import Prelude.
From S2P Require Import Text.
From S2P Require Import Lexpath.
From S2P Require Import Errors.
From S2P Require Import DevFs.
From S2P Require Import ProcCgroup.
From S2P Require Import Policy.
From S2P Require Import Rules.

(** ** Docker's errors *)

Inductive ErrorKind := NotFound | Conflict | Unavailable | Timeout | Cancelled | OtherKind.

#[global] Instance ErrorKind_eq_dec : EqDecision ErrorKind.
Proof. solve_decision. Defined.

Inductive ContextError := Canceled | DeadlineExceeded.

#[global] Instance ContextError_eq_dec : EqDecision ContextError.
Proof. solve_decision. Defined.

Definition ContextError_text (e : ContextError) : string :=
  match e with Canceled => "context canceled" | DeadlineExceeded => "context deadline exceeded" end.

(** [docker::Error]; the client library's error is its kind and text. *)
Inductive DockerError :=
  | Client (kind : ErrorKind) (text : string)
  | Context (done : ContextError)
  | Plain (kind : ErrorKind) (message : string).

Definition docker_kind (e : DockerError) : ErrorKind :=
  match e with
  | Client kind _ => kind
  | Context DeadlineExceeded => Timeout
  | Context Canceled => OtherKind
  | Plain kind _ => kind
  end.

Definition docker_response (status : Z) (message : string) : DockerError :=
  Plain (if status =? 404 then NotFound else if status =? 409 then Conflict else OtherKind) message.

Definition docker_is_not_found (e : DockerError) : bool := bool_decide (docker_kind e = NotFound).
Definition docker_is_canceled (e : DockerError) : bool :=
  match e with Context Canceled => true | _ => false end.

(** ** Pinning (pin.rs) *)

Definition ESRCH : Z := 3.

Inductive PinError := PinOpen (pid errno : Z) | PinGone (errno : Z).

(** The system calls on a process: opening a pidfd, polling it, and reading
    [/proc/<pid>] through a descriptor. *)
Class ProcSys (Pidfd Dirfd : Type) := {
  pidfd_open : Z -> result Z Pidfd;
  (** How many descriptors the poll found readable. *)
  pidfd_poll : Pidfd -> result Z Z;
  open_proc_dir : string -> result Z Dirfd;
  open_proc_file : Dirfd -> string -> result Z Dirfd;
  read_proc_file : Dirfd -> result (option Z) string;
}.

Inductive ProcCgroupError :=
  | OpenProcDir (path : string) (errno : Z)
  | OpenProcFile (name : string) (errno : Z)
  | ReadProcFile (name : string) (errno : Z)
  | ParseProc (pid : Z) (source : ParseError).

Section pin.
Context {Pidfd Dirfd : Type} {proc : ProcSys Pidfd Dirfd}.

Definition pin (pid : Z) : result PinError Pidfd :=
  if (0 <? pid) && (pid <? 2 ^ 31) then map_err (PinOpen pid) (pidfd_open pid)
  else Err (PinOpen pid EINVAL).

Definition alive (p : Pidfd) : result PinError unit :=
  match pidfd_poll p with
  | Ok n => if n =? 0 then Ok tt else Err (PinGone ESRCH)
  | Err errno => Err (PinGone errno)
  end.

Definition read_at (dir : Dirfd) (name : string) : result ProcCgroupError string :=
  fd ← map_err (OpenProcFile name) (open_proc_file dir name);
  map_err (fun e => ReadProcFile name (default EIO e)) (read_proc_file fd).

Definition read_proc_cgroup (proc_root : string) (pid : Z) : result ProcCgroupError ProcCgroup :=
  let dir_path := join_path [proc_root; "proc"; pretty pid] in
  dir ← map_err (OpenProcDir dir_path) (open_proc_dir dir_path);
  cgroup ← read_at dir "cgroup";
  mountinfo ← read_at dir "mountinfo";
  map_err (ParseProc pid) (parse_proc_cgroup cgroup mountinfo).

End pin.

Definition host_cgroup_path (host_root mount_point mount_prefix root : string) : string :=
  join_path [host_root; mount_point; mount_prefix; root].

(** ** The processor's errors (error.rs) *)

Inductive ProcError :=
  | InspectFailed (id : string) (source : DockerError)
  | ContainerGone (inner : ProcError)
  | JoinedErrors (errors : list ProcError)
  | PinFailed (id : string) (source : PinError)
  | ProcCgroupFailed (id : string) (source : ProcCgroupError)
  | OpenCgroup (source : HandleError)
  | SetRules (source : Error)
  | VerifyFailed (id : string) (cause : VerifyCause)
  | LifecycleChanged (id : string) (pid : Z)
  | PinnedGone (id : string) (pid : Z) (source : PinError)
  | NotInCgroup (id : string) (pid : Z)
  | RevokeOpen (id : string) (source : HandleError)
  | RevokeFailed (id path : string) (source : Error)
  | RevokeMoved (id path : string) (source : Error)
  | Retryable (id reason : string) (source : ProcError)
  | IncompleteSet (id : string) (errors : list DeviceError)
  | CanceledRun
with VerifyCause :=
  | VerifyInspect (inner : ProcError)
  | VerifyMembership (source : HandleError).

(** [Error::any]: whether [matches] accepts the error or one it wraps or joins. *)
Fixpoint any_error (matches : ProcError -> bool) (e : ProcError) : bool :=
  matches e ||
  match e with
  | ContainerGone inner | Retryable _ _ inner | VerifyFailed _ (VerifyInspect inner) => any_error matches inner
  | JoinedErrors errors => existsb (any_error matches) errors
  | _ => false
  end.

Definition is_container_gone : ProcError -> bool :=
  any_error (fun e => match e with ContainerGone _ => true | _ => false end).
Definition is_lifecycle_changed : ProcError -> bool :=
  any_error (fun e => match e with LifecycleChanged _ _ => true | _ => false end).
Definition is_pinned_process_gone : ProcError -> bool :=
  any_error (fun e => match e with PinnedGone _ _ _ => true | _ => false end).
Definition is_not_in_cgroup : ProcError -> bool :=
  any_error (fun e => match e with NotInCgroup _ _ => true | _ => false end).
Definition is_docker (k : ErrorKind) : ProcError -> bool :=
  any_error (fun e => match e with InspectFailed _ source => bool_decide (docker_kind source = k) | _ => false end).
Definition is_docker_canceled : ProcError -> bool :=
  any_error (fun e => match e with InspectFailed _ source => docker_is_canceled source | _ => false end).
Definition is_cgroup (matches : Error -> bool) : ProcError -> bool :=
  any_error (fun e => match e with
                      | SetRules source | RevokeFailed _ _ source | RevokeMoved _ _ source => matches source
                      | _ => false
                      end).
Definition is_not_found : ProcError -> bool :=
  any_error (fun e => match e with InspectFailed _ source => docker_is_not_found source | _ => false end).

(** [join]: the errors that are present. *)
Definition join_errors (errors : list (option ProcError)) : option ProcError :=
  match omap id errors with [] => None | errors => Some (JoinedErrors errors) end.

(** ** Texts *)

Section texts.
Context (errno_string io_error_text : Z -> string).

Definition docker_text (e : DockerError) : string :=
  match e with Client _ text => text | Context done => ContextError_text done | Plain _ message => message end.

Definition PinError_text (e : PinError) : string :=
  match e with
  | PinOpen pid errno => "pidfd_open(" +:+ pretty pid +:+ "): " +:+ SysError_text errno_string (sys_error "" errno)
  | PinGone errno => "pinned container process exited: " +:+ SysError_text errno_string (sys_error "" errno)
  end.

Definition ProcCgroupError_text (e : ProcCgroupError) : string :=
  match e with
  | OpenProcDir path errno => "open " +:+ quote path +:+ ": " +:+ SysError_text errno_string (sys_error "" errno)
  | OpenProcFile name errno => "open " +:+ name +:+ ": " +:+ SysError_text errno_string (sys_error "" errno)
  | ReadProcFile name errno =>
      "read " +:+ name +:+ ": read " +:+ name +:+ ": " +:+ SysError_text errno_string (sys_error "" errno)
  | ParseProc pid source => "resolve cgroup of pid " +:+ pretty pid +:+ ": " +:+ ParseError_text source
  end.

Fixpoint ProcError_text (e : ProcError) : string :=
  match e with
  | InspectFailed id source => "inspect container " +:+ quote id +:+ ": " +:+ docker_text source
  | ContainerGone inner => "container no longer exists: " +:+ ProcError_text inner
  | JoinedErrors errors => join (of_char newline) (List.map ProcError_text errors)
  | PinFailed id source => "container " +:+ quote id +:+ ": " +:+ PinError_text source
  | ProcCgroupFailed id source => "container " +:+ quote id +:+ ": " +:+ ProcCgroupError_text source
  | OpenCgroup source => "set device rules: " +:+ HandleError_text io_error_text source
  | SetRules source => "set device rules: " +:+ error_to_string errno_string source
  | VerifyFailed id cause =>
      "verify container " +:+ quote id +:+ ": " +:+
      match cause with
      | VerifyInspect inner => ProcError_text inner
      | VerifyMembership source => HandleError_text io_error_text source
      end
  | LifecycleChanged id pid =>
      "container " +:+ quote id +:+ " pid " +:+ pretty pid +:+ ": container changed between inspect and mutation"
  | PinnedGone id pid source => "container " +:+ quote id +:+ " pid " +:+ pretty pid +:+ ": " +:+ PinError_text source
  | NotInCgroup id pid =>
      "container " +:+ quote id +:+ " pid " +:+ pretty pid +:+ ": container process is not in the resolved cgroup"
  | RevokeOpen id source => "revoke container " +:+ quote id +:+ ": " +:+ HandleError_text io_error_text source
  | RevokeFailed id path source =>
      "revoke container " +:+ quote id +:+ " in " +:+ quote path +:+ ": " +:+ error_to_string errno_string source
  | RevokeMoved id path source =>
      "revoke container " +:+ quote id +:+ " in its previous cgroup " +:+ quote path +:+ ": "
        +:+ error_to_string errno_string source
  | Retryable id reason source =>
      "container " +:+ quote id +:+ " (reason " +:+ reason +:+ ", retryable): " +:+ ProcError_text source
  | IncompleteSet id errors =>
      "container " +:+ quote id +:+ " (reason incomplete_device_set, retryable): "
        +:+ join (of_char newline) (DeviceError_text errno_string <$> errors)
  | CanceledRun => ContextError_text Canceled
  end.

End texts.
