(* ===== verification/Reconcile.v ===== *)
(** * The processor (src/processor/reconcile.rs, src/config/mod.rs)

    The reconcile of a container's device grants, the revocation of ended runs, the
    sweep, and the publication of a config. Each is one transaction under the
    processor's lock: a function of the processor's state and of the outside,
    which may have changed at every call it answers. Every call that bears on a
    mutation is an event of the trace. Log lines and metrics are not modelled. *)

From S2P Require Import Prelude.
From S2P Require Import Text.
From S2P Require Import Lexpath.
From S2P Require Import Ebpf.
From S2P Require Import V2.
From S2P Require Import Ledger.
From S2P Require Import Errors.
From S2P Require Import DevFs.
From S2P Require Import ProcCgroup.
From S2P Require Import Policy.
From S2P Require Import Rules.
From S2P Require Import Lifecycle.
From S2P Require Import ProcError.

(** ** The published config (config/mod.rs) *)

Record Runtime := { dry_run : bool; policy : Global }.

Record Snapshot := { runtime : Runtime; generation : Z }.

Definition new_store (initial : Runtime) : Snapshot := {| runtime := initial; generation := 1 |}.

(** The counter is a [u64]; it is kept unbounded here, since a process does not live
    to publish 2^64 times. *)
Definition publish (r : Runtime) (s : Snapshot) : Snapshot := {| runtime := r; generation := s.(generation) + 1 |}.

(** ** What Docker reports (docker/types.rs) *)

Record ContainerState := { running : bool; pid : Z; state_started_at : string }.

Record ContainerInspect := {
  inspect_id : string;
  inspect_state : option ContainerState;
  inspect_labels : option (gmap string string);
  inspect_privileged : option bool;
  inspect_mounts : list MountPoint;
}.

(** [PROVISIONAL_TTL], in the unit of the clock: nanoseconds. *)
Definition PROVISIONAL_TTL : Z := 10 * 60 * 1000000000.

(** ** The outside *)

(** What the processor asks of the outside. [w_step] is whatever happens there
    between two calls. *)
Class World (W Fd Pidfd Dirfd Node : Type) := {
  w_inspect : string -> W -> result DockerError ContainerInspect * W;
  w_canceled : W -> bool;
  w_now : W -> Z;
  w_dirs : W -> DirSys Fd;
  w_procs : W -> ProcSys Pidfd Dirfd;
  w_dev : W -> result SysError (DevFs Node);
  (** [stat]: the inode. *)
  w_stat : string -> W -> result Z Z;
  w_step : W -> W;
}.

(** The two controllers behind [Interface], which share the ledger and the cache
    of filters. *)
Class Controllers (W Fd : Type) := {
  set_device_rules : CgroupVersion -> CgroupHandle Fd -> list DeviceRule ->
    W * Ledger * FilterCache -> result Error unit * (W * Ledger * FilterCache);
}.

(** ** The trace *)

Inductive Event :=
  (** Docker reported on the container. *)
  | Inspected (id : string) (state : option ContainerState)
  (** The pinned process answered. *)
  | Alive (pid : Z)
  (** The pid is listed in the cgroup. *)
  | Member (identity : Identity) (pid : Z)
  (** The rules were set on the cgroup, with this outcome. *)
  | SetOn (identity : Identity) (rules : list DeviceRule) (outcome : result Error unit)
  (** The cgroup is gone, or another one is at its path. *)
  | Gone (identity : Identity).

Section processor.
Context {crate : GlobCrate} {jiff : Jiff}.
Context {W Fd Pidfd Dirfd Node : Type} {outside : World W Fd Pidfd Dirfd Node} {controllers : Controllers W Fd}.
Context (host_root proc_root : string).

Record PState := {
  world : W;
  store : Snapshot;
  history : History;
  p_ledger : Ledger;
  p_cache : FilterCache;
  events : list Event;
}.

(** ** The state monad *)

Definition PM (A : Type) : Type := PState -> A * PState.

#[global] Instance PM_ret : MRet PM := fun A a s => (a, s).
#[global] Instance PM_bind : MBind PM := fun A B k m s => let '(a, s) := m s in k a s.

(** The [?] of a fallible call. *)
Definition try {E A B} (m : PM (result E A)) (k : A -> PM (result E B)) : PM (result E B) :=
  r ← m; match r with Ok a => k a | Err e => mret (Err e) end.

(** A call to the outside. *)
Definition ask {A} (op : W -> A * W) : PM A := fun s =>
  let '(a, w) := op s.(world) in
  (a, {| world := w; store := s.(store); history := s.(history); p_ledger := s.(p_ledger);
         p_cache := s.(p_cache); events := s.(events) |}).

(** A question that changes nothing itself. *)
Definition query {A} (q : W -> A) : PM A := ask (fun w => (q w, w_step w)).

Definition emit (e : Event) : PM unit := fun s =>
  (tt, {| world := s.(world); store := s.(store); history := s.(history); p_ledger := s.(p_ledger);
          p_cache := s.(p_cache); events := s.(events) ++ [e] |}).

Definition on_history {A} (f : History -> A * History) : PM A := fun s =>
  let '(a, h) := f s.(history) in
  (a, {| world := s.(world); store := s.(store); history := h; p_ledger := s.(p_ledger);
         p_cache := s.(p_cache); events := s.(events) |}).

Definition update_history (f : History -> History) : PM unit := on_history (fun h => (tt, f h)).
Definition read_history {A} (f : History -> A) : PM A := on_history (fun h => (f h, h)).

(** [self.ledger.forget] and [self.filter_cache.forget]. *)
Definition forget_identity (id : Identity) : PM unit := fun s =>
  (tt, {| world := s.(world); store := s.(store); history := s.(history);
          p_ledger := ledger_forget s.(p_ledger) id; p_cache := V2.forget s.(p_cache) id; events := s.(events) |}).

Definition load_config : PM Runtime := fun s => (s.(store).(runtime), s).

(** ** Calls *)

(** [Processor::inspect]. *)
Definition inspect (id : string) : PM (result ProcError ContainerInspect) :=
  r ← ask (w_inspect id);
  match r with
  | Ok info => _ ← emit (Inspected id info.(inspect_state)); mret (Ok info)
  | Err source => mret (Err (InspectFailed id source))
  end.

(** [CgroupHandle::open] and [has_process] on the cgroups as they are now. *)
Definition open_cgroup (path : string) : PM (result HandleError (CgroupHandle Fd)) :=
  query (fun w => @handle_open Fd (w_dirs w) path).

Definition cgroup_has_process (h : CgroupHandle Fd) (pid : Z) : PM (result HandleError bool) :=
  r ← query (fun w => @has_process Fd (w_dirs w) h pid);
  match r with
  | Ok true => _ ← emit (Member (identity h) pid); mret r
  | _ => mret r
  end.

Definition process_alive (p : Pidfd) (pid : Z) : PM (result PinError unit) :=
  r ← query (fun w => @alive Pidfd Dirfd (w_procs w) p);
  match r with
  | Ok _ => _ ← emit (Alive pid); mret r
  | Err _ => mret r
  end.

(** [self.cgroup_api(version).set_device_rules(handle, rules)]. *)
Definition set_rules (version : CgroupVersion) (h : CgroupHandle Fd) (rules : list DeviceRule)
    : PM (result Error unit) := fun s =>
  let '(r, (w, l, c)) := set_device_rules version h rules (s.(world), s.(p_ledger), s.(p_cache)) in
  (r, {| world := w; store := s.(store); history := s.(history); p_ledger := l; p_cache := c;
         events := s.(events) ++ [SetOn (identity h) rules r] |}).

(** ** Revoking *)

Inductive Recorded := OpenRecorded (h : CgroupHandle Fd) | GoneRecorded (why : string).

Definition io_not_found (e : HandleError) : bool :=
  match e with
  | HandleOpen _ source | HandleStat _ source => bool_decide (source = ENOENT)
  | OpenProcs _ _ | ReadProcs _ _ => false
  end.

Definition open_recorded (record : LifecycleRecord) (id : Identity) : PM (result ProcError Recorded) :=
  r ← open_cgroup id.(V2.path);
  match r with
  | Ok h =>
      if bool_decide (identity h = id) then mret (Ok (OpenRecorded h))
      else _ ← emit (Gone id); mret (Ok (GoneRecorded "cgroup recreated"))
  | Err e =>
      if io_not_found e then _ ← emit (Gone id); mret (Ok (GoneRecorded "cgroup removed"))
      else mret (Err (RevokeOpen record.(container_id) e))
  end.

(** [Processor::release]. *)
Definition release_record (record : LifecycleRecord) : PM unit :=
  _ ← update_history (release record);
  match record_identity record with
  | Some id => forget_identity id
  | None => mret tt
  end.

(** [revoke_at]; [may_run] of the source only chooses what is logged. *)
Definition revoke_at (record : LifecycleRecord) : PM (result ProcError unit) :=
  match record.(cgroup) with
  | None => mret (Ok tt)
  | Some cg =>
      try (open_recorded record cg.(rc_identity)) (fun opened =>
        match opened with
        | GoneRecorded _ => _ ← release_record record; mret (Ok tt)
        | OpenRecorded h =>
            r ← set_rules cg.(rc_version) h [];
            match r with
            | Err e =>
                if is_filter_missing e then
                  _ ← update_history (mark_revoked record.(container_id) record.(started_at)); mret (Ok tt)
                else mret (Err (RevokeFailed record.(container_id) cg.(rc_identity).(V2.path) e))
            | Ok _ => _ ← update_history (mark_revoked record.(container_id) record.(started_at)); mret (Ok tt)
            end
        end)
  end.

Definition revoke_moved (record : LifecycleRecord) (previous : RunCgroup) : PM (result ProcError unit) :=
  try (open_recorded record previous.(rc_identity)) (fun opened =>
    try (match opened with
         | GoneRecorded _ => mret (Ok tt)
         | OpenRecorded h =>
             r ← set_rules previous.(rc_version) h [];
             match r with
             | Err e =>
                 if negb (is_filter_missing e)
                 then mret (Err (RevokeMoved record.(container_id) previous.(rc_identity).(V2.path) e))
                 else mret (Ok tt)
             | Ok _ => mret (Ok tt)
             end
         end)
      (fun _ => _ ← forget_identity previous.(rc_identity); mret (Ok tt))).

Definition revoke_ended (id started : string) : PM (result ProcError unit) :=
  found ← read_history (fun h => lookup_run h id started);
  match found with
  | Some record =>
      if has_identity record then
        _ ← update_history (mark_terminal id started);
        revoke_at (with_state Terminal record)
      else mret (Ok tt)
  | None => mret (Ok tt)
  end.

(** The loop over the records of a container Docker cannot report on. *)
Fixpoint revoke_each (records : list LifecycleRecord) : PM (list ProcError) :=
  match records with
  | [] => mret []
  | record :: records =>
      if negb (has_identity record) then revoke_each records
      else
        r ← revoke_at record;
        errors ← revoke_each records;
        mret (match r with Err e => e :: errors | Ok _ => errors end)
  end.

Definition revoke_after_inspect_failure (id : string) (dry : bool) (inspect_error : ProcError)
    : PM (result ProcError unit) :=
  errors ← (if dry then mret []
            else
              now ← query w_now;
              _ ← update_history (provisional now id);
              rs ← read_history (fun h => records h id);
              revoke_each rs);
  if bool_decide (length errors = 0%nat) && is_not_found inspect_error
  then mret (Err (ContainerGone inspect_error))
  else mret (Err (JoinedErrors (inspect_error :: errors))).

(** ** The desired rules *)

Record Desired := {
  desired_rules : list DeviceRule;
  desired_enabled : bool;
  collected : ContainerRules;
  incomplete : option ProcError;
}.

Definition ContainerRules_default : ContainerRules :=
  {| granted := []; rules_skipped := 0; device_errs := []; dev_mounts := 0 |}.

Definition Desired_default : Desired :=
  {| desired_rules := []; desired_enabled := false; collected := ContainerRules_default; incomplete := None |}.

Definition collect_devices (mounts : list MountPoint) (judge : Judge) : PM ContainerRules :=
  if negb (existsb is_device_mount mounts) then mret ContainerRules_default
  else
    opened ← query w_dev;
    mret match opened with
         | Err e =>
             {| granted := []; rules_skipped := 0; device_errs := [DevOpen e]; dev_mounts := 1 |}
         | Ok dev => (collect_container_rules (dev := dev) mounts judge).1
         end.

Definition compute_desired (id : string) (info : ContainerInspect) (config : Runtime) : PM Desired :=
  let labels := default ∅ info.(inspect_labels) in
  match Container_parse labels with
  | Err _ => mret Desired_default
  | Ok container =>
      if negb (enabled config.(policy) container) then mret Desired_default
      else
        collected ← collect_devices info.(inspect_mounts) {| global := config.(policy); container := container |};
        if bool_decide (length collected.(device_errs) = 0%nat)
        then mret {| desired_rules := collected.(granted); desired_enabled := true; collected := collected;
                     incomplete := None |}
        else mret {| desired_rules := []; desired_enabled := true; collected := collected;
                     incomplete := Some (IncompleteSet id collected.(device_errs)) |}
  end.

Definition classify_apply_error (id : string) (privileged : bool) (e : ProcError) : option ProcError :=
  if is_cgroup is_filter_missing e && privileged then None
  else if is_cgroup is_filter_missing e then Some (Retryable id "filter_missing" e)
  else if is_cgroup is_unsupported_attach_mode e then None
  else if is_cgroup is_owned_block_conflict e then Some (Retryable id "owned_block_conflict" e)
  else if is_cgroup is_program_not_wrappable e then Some (Retryable id "program_not_wrappable" e)
  else if is_cgroup is_filters_inaccessible e then Some (Retryable id "filters_inaccessible" e)
  else Some e.

(** ** Applying *)

Definition verify_pinned (id : string) (state : ContainerState) (process : Pidfd) (h : CgroupHandle Fd)
    (grants : bool) : PM (result ProcError unit) :=
  r ← inspect id;
  match r with
  | Err e => mret (Err (VerifyFailed id (VerifyInspect e)))
  | Ok again =>
      let same := match again.(inspect_state) with
                  | Some a => a.(running) && (a.(pid) =? state.(pid))
                              && bool_decide (a.(state_started_at) = state.(state_started_at))
                  | None => false
                  end in
      if negb same then mret (Err (LifecycleChanged id state.(pid)))
      else
        a ← process_alive process state.(pid);
        match a with
        | Err source => mret (Err (PinnedGone id state.(pid) source))
        | Ok _ =>
            if negb grants then mret (Ok tt)
            else
              m ← cgroup_has_process h state.(pid);
              match m with
              | Err source => mret (Err (VerifyFailed id (VerifyMembership source)))
              | Ok member => if (member : bool) then mret (Ok tt) else mret (Err (NotInCgroup id state.(pid)))
              end
        end
  end.

(** The revocation at the recorded cgroup when the run is found in another one. *)
Definition leave_previous (id : string) (state : ContainerState) (process : Pidfd) (h : CgroupHandle Fd)
    : PM (result ProcError unit) :=
  moved ← read_history (fun hist => lookup_run hist id state.(state_started_at));
  match moved with
  | Some record =>
      match record.(cgroup) with
      | Some previous =>
          if bool_decide (previous.(rc_identity) = identity h) then mret (Ok tt)
          else try (revoke_moved record previous) (fun _ => verify_pinned id state process h true)
      | None => mret (Ok tt)
      end
  | None => mret (Ok tt)
  end.

Definition non_empty {A} (l : list A) : bool := match l with [] => false | _ :: _ => true end.

Definition apply_pinned (id : string) (state : ContainerState) (privileged : bool) (rules : list DeviceRule)
    : PM (result ProcError unit) :=
  p ← query (fun w => @pin Pidfd Dirfd (w_procs w) state.(pid));
  match p with
  | Err source => mret (Err (PinFailed id source))
  | Ok process =>
      r ← query (fun w => @read_proc_cgroup Pidfd Dirfd (w_procs w) proc_root state.(pid));
      match r with
      | Err source => mret (Err (ProcCgroupFailed id source))
      | Ok resolved =>
          let path := host_cgroup_path host_root resolved.(mount_point) resolved.(mount_prefix) resolved.(root) in
          o ← open_cgroup path;
          match o with
          | Err e => mret (Err (OpenCgroup e))
          | Ok h =>
              try (verify_pinned id state process h (non_empty rules)) (fun _ =>
                try (leave_previous id state process h) (fun _ =>
                  now ← query w_now;
                  _ ← update_history (verify now id state.(state_started_at)
                        {| rc_identity := identity h; rc_version := resolved.(version); privileged := privileged |});
                  r ← set_rules resolved.(version) h rules;
                  mret (map_err SetRules r)))
          end
      end
  end.

(** ** The transactions *)

Definition reconcile_locked (id : string) (inspected : result ProcError ContainerInspect)
    : PM (result ProcError unit) :=
  config ← load_config;
  match inspected with
  | Err e =>
      canceled ← query w_canceled;
      if (canceled : bool) then mret (Err e)
      else revoke_after_inspect_failure id config.(dry_run) e
  | Ok info =>
      match info.(inspect_state) with
      | Some state =>
          if state.(running) && negb (state.(pid) =? 0) then
            desired ← compute_desired id info config;
            if config.(dry_run) then
              mret (match desired.(incomplete) with None => Ok tt | Some e => Err e end)
            else
              let privileged := default false info.(inspect_privileged) in
              applied ← apply_pinned id state privileged desired.(desired_rules);
              mret match applied with
                   | Err e =>
                       match join_errors [classify_apply_error id privileged e; desired.(incomplete)] with
                       | None => Ok tt
                       | Some e => Err e
                       end
                   | Ok _ => match desired.(incomplete) with None => Ok tt | Some e => Err e end
                   end
          else if config.(dry_run) then mret (Ok tt)
          else revoke_ended id state.(state_started_at)
      | None => if config.(dry_run) then mret (Ok tt) else revoke_ended id ""
      end
  end.

(** [join] of what revoking each ended run gave. *)
Definition terminate_locked (id : string) (event_time : Z) : PM (result ProcError unit) :=
  ended ← on_history (Lifecycle.terminate id event_time);
  config ← load_config;
  if config.(dry_run) then mret (Ok tt)
  else
    errors ← revoke_each ended;
    mret (match errors with [] => Ok tt | _ => Err (JoinedErrors errors) end).

Definition cgroup_gone (id : Identity) : PM (result Z bool) :=
  r ← query (w_stat id.(V2.path));
  match r with
  | Ok ino => if ino =? id.(V2.inode) then mret (Ok false) else _ ← emit (Gone id); mret (Ok true)
  | Err errno => if errno =? ENOENT then _ ← emit (Gone id); mret (Ok true) else mret (Err errno)
  end.

(** One turn of the sweep's loop: how many records it released. *)
Definition sweep_record (now : Z) (dry : bool) (record : LifecycleRecord) : PM nat :=
  match record.(cgroup) with
  | None =>
      let last_seen := Z.max record.(first_seen) record.(observed) in
      if bool_decide (record.(state) = Terminal) || (PROVISIONAL_TTL <? now - last_seen)
      then _ ← update_history (release record); mret 1%nat
      else mret 0%nat
  | Some cg =>
      gone ← cgroup_gone cg.(rc_identity);
      match gone with
      | Err _ => mret 0%nat
      | Ok true => _ ← release_record record; mret 1%nat
      | Ok false =>
          if bool_decide (record.(state) = Terminal) && negb record.(revoked) && negb dry
          then _ ← revoke_at record; mret 0%nat
          else mret 0%nat
      end
  end.

Fixpoint sweep_loop (now : Z) (dry : bool) (records : list LifecycleRecord) : PM nat :=
  match records with
  | [] => mret 0%nat
  | record :: records =>
      n ← sweep_record now dry record;
      m ← sweep_loop now dry records;
      mret (n + m)%nat
  end.

Definition sweep_locked : PM nat :=
  now ← query w_now;
  config ← load_config;
  rs ← read_history all_records;
  sweep_loop now config.(dry_run) rs.

Definition publish_locked (r : Runtime) : PM Z := fun s =>
  let store := publish r s.(store) in
  (store.(generation),
   {| world := s.(world); store := store; history := s.(history); p_ledger := s.(p_ledger);
      p_cache := s.(p_cache); events := s.(events) |}).

(** What runs under the lock, one after the other; a reconcile is given what an
    inspect before it, outside the lock, answered. *)
Inductive Transaction :=
  | TReconcile (id : string) (inspected : result ProcError ContainerInspect)
  | TTerminate (id : string) (event_time : Z)
  | TSweep
  | TPublish (r : Runtime).

Definition run_transaction (t : Transaction) : PM unit :=
  match t with
  | TReconcile id inspected => _ ← reconcile_locked id inspected; mret tt
  | TTerminate id event_time => _ ← terminate_locked id event_time; mret tt
  | TSweep => _ ← sweep_locked; mret tt
  | TPublish r => _ ← publish_locked r; mret tt
  end.

Fixpoint run_transactions (ts : list Transaction) (s : PState) : PState :=
  match ts with
  | [] => s
  | t :: ts => run_transactions ts (run_transaction t s).2
  end.

End processor.
