(* ===== verification/ReconcileProofs.v ===== *)
(** * What the processor's transactions do to cgroups

    A dry run sets nothing; what is set beyond the empty set was verified in the
    three calls before it and is what the policy in force grants. An error of a
    controller that applying rules ends with was the answer of a call it made. *)

From S2P Require Import Prelude.
From S2P Require Import Text.
From S2P Require Import Ebpf.
From S2P Require Import V2.
From S2P Require Import Ledger.
From S2P Require Import Errors.
From S2P Require Import DevFs.
From S2P Require Import ProcCgroup.
From S2P Require Import Policy.
From S2P Require Import Rules.
From S2P Require Import Lifecycle.
From S2P Require Import ProcError.
From S2P Require Import Reconcile.

(** The events that set rules, and those that grant some. *)
Definition is_set (e : Event) : bool := match e with SetOn _ _ _ => true | _ => false end.
Definition is_grant (e : Event) : bool := match e with SetOn _ (_ :: _) _ => true | _ => false end.

Abbreviation no_set := (fun e => negb (is_set e)).
Abbreviation no_grant := (fun e => negb (is_grant e)).

(** ** Computations that respect a preorder on states *)

Section respects.
Context {W : Type} (R : PState (W := W) -> PState (W := W) -> Prop).

Definition respects {A} (m : PM (W := W) A) : Prop := forall s, R s (m s).2.

Context {po : PreOrder R}.

Lemma respects_ret {A} (a : A) : respects (mret a).
Proof. intros s. reflexivity. Qed.

Lemma respects_bind {A B} (m : PM (W := W) A) (k : A -> PM (W := W) B) :
  respects m -> (forall a, respects (k a)) -> respects (m ≫= k).
Proof.
  intros Hm Hk s. unfold mbind, PM_bind. specialize (Hm s). destruct (m s) as [a s']. cbn in Hm.
  etrans; [exact Hm|apply Hk].
Qed.

Lemma respects_try {E A B} (m : PM (W := W) (result E A)) (k : A -> PM (W := W) (result E B)) :
  respects m -> (forall a, respects (k a)) -> respects (try m k).
Proof. intros Hm Hk. apply respects_bind; [done|]. intros [a|e]; [apply Hk|apply respects_ret]. Qed.

End respects.

Create HintDb steps.

(** Walks through a computation, one call after the other. *)
Ltac walk_steps :=
  repeat match goal with
  | |- respects _ (mret _) => apply respects_ret; apply _
  | |- respects _ (_ ≫= _) => apply respects_bind; [apply _| |intros ?]
  | |- respects _ (try _ _) => apply respects_try; [apply _| |intros ?]
  | |- respects _ (match ?x with _ => _ end) => destruct x
  | |- respects _ (let _ := _ in _) => cbv zeta
  | |- _ => solve [eauto with steps]
  end.

Section processor.
Context {crate : GlobCrate} {jiff : Jiff}.
Context {W Fd Pidfd Dirfd Node : Type} {outside : World W Fd Pidfd Dirfd Node} {controllers : Controllers W Fd}.
Context (host_root proc_root : string).

Abbreviation PS := (PState (W := W)).
Abbreviation M := (PM (W := W)).

(** A step that appends events of a kind, and keeps the config. *)
Definition appends (p : Event -> bool) (s s' : PS) : Prop :=
  store s' = store s /\ exists es, events s' = events s ++ es /\ forallb p es = true.

#[local] Instance appends_preorder p : PreOrder (appends p).
Proof.
  split.
  - intros s. split; [done|]. exists []. by rewrite app_nil_r.
  - intros s1 s2 s3 [E1 (es1 & F1 & H1)] [E2 (es2 & F2 & H2)]. split; [congruence|].
    exists (es1 ++ es2). rewrite F2, F1, app_assoc, forallb_app, H1, H2. done.
Qed.

Lemma appends_none p s s' : store s' = store s -> events s' = events s -> appends p s s'.
Proof. intros H1 H2. split; [done|]. exists []. by rewrite app_nil_r. Qed.

Section appends.
Context (p : Event -> bool).

Lemma ask_appends {A} (op : W -> A * W) : respects (appends p) (ask op).
Proof. intros s. unfold ask. destruct (op (world s)). by apply appends_none. Qed.

Lemma query_appends {A} (q : W -> A) : respects (appends p) (query q).
Proof. apply ask_appends. Qed.

Lemma emit_appends e : p e = true -> respects (appends p) (emit e).
Proof. intros He s. split; [done|]. exists [e]. cbn. by rewrite He. Qed.

Lemma history_appends {A} (f : History -> A * History) : respects (appends p) (on_history f).
Proof. intros s. unfold on_history. destruct (f (history s)). by apply appends_none. Qed.

Lemma update_appends (f : History -> History) : respects (appends p) (update_history f).
Proof. apply history_appends. Qed.

Lemma read_appends {A} (f : History -> A) : respects (appends p) (read_history f).
Proof. apply history_appends. Qed.

Lemma forget_appends id : respects (appends p) (forget_identity id).
Proof. intros s. by apply appends_none. Qed.

Lemma load_appends : respects (appends p) load_config.
Proof. intros s. by apply appends_none. Qed.

Lemma set_rules_appends v h rules :
  (forall r, p (SetOn (identity h) rules r) = true) -> respects (appends p) (set_rules v h rules).
Proof.
  intros Hp s. unfold set_rules. destruct (set_device_rules v h rules _) as [r [[w l] c]].
  split; [done|]. exists [SetOn (identity h) rules r]. cbn. by rewrite Hp.
Qed.

End appends.

#[local] Hint Resolve ask_appends query_appends emit_appends history_appends update_appends read_appends
  forget_appends load_appends : steps.
#[local] Hint Extern 1 (PreOrder _) => apply appends_preorder : steps.

(** ** Dry runs *)

Lemma inspect_steps p id :
  (forall st, p (Inspected id st) = true) -> respects (appends p) (inspect id).
Proof. intros Hp. unfold inspect. walk_steps. Qed.

Lemma compute_desired_steps p id info config : respects (appends p) (compute_desired id info config).
Proof. unfold compute_desired, collect_devices. walk_steps. Qed.

Lemma open_recorded_steps p r id : p (Gone id) = true -> respects (appends p) (open_recorded r id).
Proof. intros Hp. unfold open_recorded, open_cgroup. walk_steps. Qed.

Lemma release_record_steps p r : respects (appends p) (release_record r).
Proof. unfold release_record. walk_steps. Qed.

Lemma cgroup_gone_steps p id : p (Gone id) = true -> respects (appends p) (cgroup_gone id).
Proof. intros Hp. unfold cgroup_gone. walk_steps. Qed.
#[local] Hint Resolve inspect_steps compute_desired_steps open_recorded_steps release_record_steps
  cgroup_gone_steps : steps.

Lemma sweep_dry now rs : respects (appends no_set) (sweep_loop now true rs).
Proof.
  induction rs as [|r rs IH]; cbn [sweep_loop]; [walk_steps|]. apply respects_bind; [apply _| |intros n; walk_steps].
  unfold sweep_record. destruct (cgroup r) as [cg|]; [|walk_steps].
  apply respects_bind; [apply _|eauto with steps|]. intros [[]|]; [walk_steps| |walk_steps].
  rewrite andb_false_r. walk_steps.
Qed.

(** ** Revocations grant nothing *)

Lemma revoke_at_steps r : respects (appends no_grant) (revoke_at r).
Proof.
  unfold revoke_at. destruct (cgroup r) as [cg|]; [|walk_steps].
  apply respects_try; [apply _|eauto with steps|intros opened]. destruct opened as [h|why]; [|walk_steps].
  apply respects_bind; [apply _|by apply set_rules_appends|]. intros r'. walk_steps.
Qed.
#[local] Hint Resolve revoke_at_steps : steps.

Lemma revoke_each_steps rs : respects (appends no_grant) (revoke_each rs).
Proof. induction rs as [|r rs IH]; cbn [revoke_each]; walk_steps. Qed.
#[local] Hint Resolve revoke_each_steps : steps.

Lemma revoke_after_steps id dry e : respects (appends no_grant) (revoke_after_inspect_failure id dry e).
Proof. unfold revoke_after_inspect_failure. walk_steps. Qed.

Lemma revoke_after_dry id e : respects (appends no_set) (revoke_after_inspect_failure id true e).
Proof. unfold revoke_after_inspect_failure. walk_steps. Qed.

Lemma revoke_ended_steps id t : respects (appends no_grant) (revoke_ended id t).
Proof. unfold revoke_ended. walk_steps. Qed.

Lemma revoke_moved_steps r previous : respects (appends no_grant) (revoke_moved r previous).
Proof.
  unfold revoke_moved. apply respects_try; [apply _|eauto with steps|intros opened].
  apply respects_try; [apply _| |intros ?; walk_steps]. destruct opened as [h|why]; [|walk_steps].
  apply respects_bind; [apply _|by apply set_rules_appends|]. intros r'. walk_steps.
Qed.

Lemma sweep_steps now dry rs : respects (appends no_grant) (sweep_loop now dry rs).
Proof.
  induction rs as [|r rs IH]; cbn [sweep_loop]; [walk_steps|]. apply respects_bind; [apply _| |intros n; walk_steps].
  unfold sweep_record. walk_steps.
Qed.
#[local] Hint Resolve revoke_after_steps revoke_ended_steps revoke_moved_steps sweep_steps : steps.

Lemma load_bind {A} (k : Runtime -> M A) s : (load_config ≫= k) s = k (runtime (store s)) s.
Proof. done. Qed.

Lemma reconcile_dry id inspected (s : PS) :
  dry_run (runtime (store s)) = true -> appends no_set s (reconcile_locked host_root proc_root id inspected s).2.
Proof.
  intros Hdry. unfold reconcile_locked. rewrite load_bind, Hdry. revert s Hdry.
  enough (forall config, respects (appends no_set)
    (match inspected with
     | Ok info =>
         match inspect_state info with
         | Some state =>
             if running state && negb (pid state =? 0)
             then desired ← compute_desired id info config;
                  mret (match incomplete desired with Some e => Err e | None => Ok () end)
             else mret (Ok ())
         | None => mret (Ok ())
         end
     | Err e =>
         canceled ← query w_canceled;
         if (canceled : bool) then mret (Err e) else revoke_after_inspect_failure id true e
     end)) as H.
  { intros s _. apply (H (runtime (store s))). }
  intros config. pose proof revoke_after_dry. walk_steps.
Qed.

Lemma terminate_dry id t (s : PS) :
  dry_run (runtime (store s)) = true -> appends no_set s (terminate_locked id t s).2.
Proof.
  intros Hdry. unfold terminate_locked. pose proof (history_appends no_set (Lifecycle.terminate id t) s) as Ha.
  unfold mbind at 1, PM_bind at 1. destruct (on_history (Lifecycle.terminate id t) s) as [ended s'].
  cbn in Ha. rewrite load_bind. destruct Ha as [Hs Ha]. rewrite Hs, Hdry. by split.
Qed.

Lemma sweep_locked_dry (s : PS) :
  dry_run (runtime (store s)) = true -> appends no_set s (sweep_locked s).2.
Proof.
  intros Hdry. unfold sweep_locked. pose proof (query_appends no_set w_now s) as Ha.
  unfold mbind at 1, PM_bind at 1. destruct (query w_now s) as [now s']. cbn in Ha. rewrite load_bind.
  assert (dry_run (runtime (store s')) = true) as -> by by rewrite (proj1 Ha). etrans; [exact Ha|].
  assert (respects (appends no_set) (rs ← read_history all_records; sweep_loop now true rs)) as H.
  { pose proof sweep_dry. walk_steps. }
  apply H.
Qed.

Lemma run_snd {A} (m : M A) s : ((_ ← m; mret tt) s).2 = (m s).2.
Proof. unfold mbind, PM_bind. by destruct (m s). Qed.

Lemma no_set_filter es : forallb no_set es = true -> filter (fun e => is_set e = true) es = [].
Proof.
  intros Hes. apply elem_of_nil_inv. intros e [He Hin]%list_elem_of_filter. apply list_elem_of_In in Hin.
  eapply forallb_forall in Hes; [|exact Hin]. cbv beta in Hes. by rewrite He in Hes.
Qed.

(** A dry run never touches a cgroup: whatever the transaction, with a
    dry-run config in force no rules are set anywhere, the empty set included. *)
Theorem dry_run_sets_nothing t (s : PS) :
  dry_run (runtime (store s)) = true ->
  filter (fun e => is_set e = true) (events (run_transaction host_root proc_root t s).2)
  = filter (fun e => is_set e = true) (events s).
Proof.
  intros Hdry.
  assert (exists es, events (run_transaction host_root proc_root t s).2 = events s ++ es
    /\ forallb no_set es = true) as (es & -> & Hes).
  { destruct t as [id inspected|id t| |r]; cbn [run_transaction]; rewrite run_snd.
    - by apply reconcile_dry.
    - by apply terminate_dry.
    - by apply sweep_locked_dry.
    - exists []. by rewrite app_nil_r. }
  by rewrite filter_app, (no_set_filter es Hes), app_nil_r.
Qed.

(** ** Grants are verified *)

(** The second inspect reports the run the rules were computed for. *)
Definition same_run (again state : ContainerState) : Prop :=
  again.(running) = true /\ again.(pid) = state.(pid) /\ again.(state_started_at) = state.(state_started_at).

(** The checks that precede a grant. *)
Definition checks (id : string) (again : ContainerState) (h : CgroupHandle Fd) : list Event :=
  [Inspected id (Some again); Alive again.(pid); Member (identity h) again.(pid)].

(** The state with the outside moved on and some events more. *)
Definition moved_on (s : PS) (w : W) (es : list Event) : PS :=
  {| world := w; store := store s; history := history s; p_ledger := p_ledger s; p_cache := p_cache s;
     events := events s ++ es |}.

(** The state after a question. *)
Definition stepped (s : PS) : PS :=
  {| world := w_step (world s); store := store s; history := history s; p_ledger := p_ledger s;
     p_cache := p_cache s; events := events s |}.

Lemma query_run {A} (q : W -> A) s : query q s = (q (world s), stepped s).
Proof. done. Qed.

Lemma process_alive_run p n (s : PS) :
  exists r w, process_alive p n s = (r, moved_on s w (match r with Ok _ => [Alive n] | Err _ => [] end)).
Proof.
  unfold process_alive, query, ask, emit, moved_on, mbind, PM_bind. cbn [world].
  destruct (@alive Pidfd Dirfd (w_procs (world s)) p) as [u|e].
  - by exists (Ok u), (w_step (world s)).
  - exists (Err e), (w_step (world s)). by rewrite app_nil_r.
Qed.

Lemma has_process_run h n (s : PS) :
  exists r w, cgroup_has_process h n s
    = (r, moved_on s w (match r with Ok true => [Member (identity h) n] | _ => [] end)).
Proof.
  unfold cgroup_has_process, query, ask, emit, moved_on, mbind, PM_bind. cbn [world].
  destruct (@has_process Fd (w_dirs (world s)) h n) as [[]|e].
  - by exists (Ok true), (w_step (world s)).
  - exists (Ok false), (w_step (world s)). by rewrite app_nil_r.
  - exists (Err e), (w_step (world s)). by rewrite app_nil_r.
Qed.

Lemma inspect_run id (s : PS) :
  exists r w, inspect id s = (r, moved_on s w (match r with Ok info => [Inspected id (inspect_state info)] | Err _ => [] end)).
Proof.
  unfold inspect, ask, emit, moved_on, mbind, PM_bind. destruct (w_inspect id (world s)) as [[info|e] w].
  - by exists (Ok info), w.
  - exists (Err (InspectFailed id e)), w. by rewrite app_nil_r.
Qed.

Lemma bind_run {A B} (m : M A) (k : A -> M B) s a s' : m s = (a, s') -> (m ≫= k) s = k a s'.
Proof. intros E. unfold mbind, PM_bind. by rewrite E. Qed.

Lemma try_run {E A B} (m : M (result E A)) (k : A -> M (result E B)) s r s' :
  m s = (r, s') -> try m k s = match r with Ok a => k a s' | Err e => (Err e, s') end.
Proof. intros Em. unfold try. rewrite (bind_run _ _ _ _ _ Em). by destruct r. Qed.

Lemma verify_pinned_run id state p h grants (s : PS) :
  exists r w es, verify_pinned id state p h grants s = (r, moved_on s w es) /\ forallb no_set es = true
    /\ (r = Ok tt -> grants = true -> exists again, same_run again state /\ es = checks id again h).
Proof.
  unfold verify_pinned. destruct (inspect_run id s) as (r1 & w1 & E1). rewrite (bind_run _ _ _ _ _ E1). clear E1.
  destruct r1 as [info|e]; [|by eexists _, w1, []].
  destruct (inspect_state info) as [a|] eqn:Ea; [|by eexists _, w1, _]. cbv zeta.
  destruct (running a) eqn:Er; [|by eexists _, w1, _]. destruct (Z.eqb_spec (pid a) (pid state)) as [Ep|]; [|by eexists _, w1, _].
  destruct (bool_decide (state_started_at a = state_started_at state)) eqn:Es; [|by eexists _, w1, _].
  apply bool_decide_eq_true_1 in Es. cbn [andb negb].
  destruct (process_alive_run p (pid state) (moved_on s w1 [Inspected id (Some a)])) as (r2 & w2 & E2).
  rewrite (bind_run _ _ _ _ _ E2). clear E2.
  destruct r2 as [[]|e]; [|eexists _, w2, _; unfold moved_on; cbn [events store history p_ledger p_cache]; by rewrite <- app_assoc].
  unfold moved_on. cbn [events store history p_ledger p_cache]. rewrite <- app_assoc.
  destruct grants; cbn [negb]; [|by eexists _, w2, _].
  set (s2 := {| world := w2; store := _; history := _; p_ledger := _; p_cache := _; events := _ |}).
  destruct (has_process_run h (pid state) s2) as (r3 & w3 & E3). rewrite (bind_run _ _ _ _ _ E3). clear E3.
  subst s2. unfold moved_on. cbn [events store history p_ledger p_cache]. rewrite <- app_assoc.
  destruct r3 as [[]|e]; eexists _, w3, _; (split; [reflexivity|]; split; [done|]); [|done..].
  intros _ _. exists a. split; [done|]. unfold checks. by rewrite Ep.
Qed.

Lemma no_set_no_grant es : forallb no_set es = true -> forallb no_grant es = true.
Proof.
  induction es as [|e es IH]; [done|]. cbn. intros [He Hes]%andb_true_iff. rewrite IH by done.
  rewrite andb_true_r. by destruct e.
Qed.

Lemma leave_previous_run id state p h (s : PS) :
  exists r s' es, leave_previous id state p h s = (r, s') /\ store s' = store s /\ events s' = events s ++ es
    /\ forallb no_grant es = true
    /\ (r = Ok tt -> es = [] \/ exists pre again, same_run again state /\ es = pre ++ checks id again h).
Proof.
  unfold leave_previous. erewrite bind_run by reflexivity.
  set (s1 := {| world := _; store := _; history := _; p_ledger := _; p_cache := _; events := _ |}).
  assert (forall r : result ProcError unit, exists r' s' es, (mret r : M _) s1 = (r', s') /\ store s' = store s /\ events s' = events s ++ es
    /\ forallb no_grant es = true
    /\ (r' = Ok tt -> es = [] \/ exists pre again, same_run again state /\ es = pre ++ checks id again h)) as Hret.
  { intros r. exists r, s1, []. split_and!; [done|done|by rewrite app_nil_r|done|by left]. }
  destruct (lookup_run (history s) id (state_started_at state)) as [record|]; [|apply Hret].
  destruct (cgroup record) as [previous|]; [|apply Hret]. case_bool_decide; [apply Hret|]. clear Hret.
  pose proof (revoke_moved_steps record previous s1) as [Hs (es1 & He & Hg)].
  destruct (revoke_moved record previous s1) as [r1 s2] eqn:E1. cbn in Hs, He.
  rewrite (try_run _ _ _ _ _ E1). destruct r1 as [[]|e].
  - destruct (verify_pinned_run id state p h true s2) as (r2 & w & es2 & -> & H2 & Hok).
    eexists r2, _, (es1 ++ es2). split; [reflexivity|]. split; [done|]. cbn [moved_on events store].
    rewrite He, app_assoc. split; [done|]. split.
    + rewrite forallb_app, Hg. by apply no_set_no_grant.
    + intros Hr. destruct (Hok Hr eq_refl) as (again & Hsame & ->). right. by exists es1, again.
  - exists (Err e), s2, es1. split_and!; done.
Qed.

(** What applying the rules adds to the trace: no grant, or one, last, right after
    the checks. *)
Definition grant_checked (id : string) (state : ContainerState) (rules : list DeviceRule) (es : list Event) : Prop :=
  forallb no_grant es = true
  \/ exists pre again h out, same_run again state /\ forallb no_grant pre = true
       /\ es = pre ++ checks id again h ++ [SetOn (identity h) rules out].

Lemma set_last id state rules pre (h : CgroupHandle Fd) r :
  forallb no_grant pre = true ->
  (non_empty rules = true -> exists pre' again, same_run again state /\ pre = pre' ++ checks id again h) ->
  grant_checked id state rules (pre ++ [SetOn (identity h) rules r]).
Proof.
  intros Hpre Hchecks. destruct rules as [|rule rules].
  - left. rewrite forallb_app, Hpre. done.
  - right. destruct (Hchecks eq_refl) as (pre' & again & Hsame & ->). exists pre', again, h, r.
    rewrite forallb_app in Hpre. apply andb_true_iff in Hpre as [Hpre _]. split_and!; [done..|].
    by rewrite <- app_assoc.
Qed.

Lemma apply_pinned_run id state priv rules (s : PS) :
  exists r s' es, apply_pinned host_root proc_root id state priv rules s = (r, s')
    /\ store s' = store s /\ events s' = events s ++ es /\ grant_checked id state rules es.
Proof.
  assert (forall (r : result ProcError unit) s1, store s1 = store s -> events s1 = events s ->
    exists r' s' es, (mret r : M _) s1 = (r', s') /\ store s' = store s /\ events s' = events s ++ es
      /\ grant_checked id state rules es) as Hret.
  { intros r s1 H1 H2. exists r, s1, []. rewrite app_nil_r. split_and!; [done..|]. by left. }
  unfold apply_pinned. erewrite bind_run by apply query_run.
  destruct (pin (pid state)) as [process|e]; [|by apply Hret].
  erewrite bind_run by apply query_run. cbv zeta.
  destruct (read_proc_cgroup proc_root (pid state)) as [resolved|e]; [|by apply Hret].
  unfold open_cgroup. erewrite bind_run by apply query_run. set (s3 := stepped (stepped (stepped s))).
  destruct (handle_open _) as [h|e]; [|by apply Hret]. clear Hret.
  assert (store s3 = store s /\ events s3 = events s) as [Hs3 He3] by done. clearbody s3.
  destruct (verify_pinned_run id state process h (non_empty rules) s3) as (r1 & w1 & es1 & E1 & H1 & Hok1).
  rewrite (try_run _ _ _ _ _ E1). destruct r1 as [[]|e].
  2: { eexists _, _, es1. split; [reflexivity|]. cbn [moved_on store events]. rewrite He3.
       split_and!; [done..|]. left. by apply no_set_no_grant. }
  destruct (leave_previous_run id state process h (moved_on s3 w1 es1)) as (r2 & s4 & es2 & E2 & Hs4 & He4 & H2 & Hok2).
  cbn [moved_on store events] in Hs4, He4. rewrite He3 in He4. rewrite <- app_assoc in He4.
  assert (forallb no_grant (es1 ++ es2) = true) as H12.
  { rewrite forallb_app, H2, no_set_no_grant; done. }
  rewrite (try_run _ _ _ _ _ E2). destruct r2 as [[]|e].
  2: { eexists _, _, (es1 ++ es2). split; [reflexivity|]. split_and!; [congruence|done|by left]. }
  do 2 erewrite bind_run by reflexivity. unfold set_rules. unfold mbind, PM_bind.
  cbn [world p_ledger p_cache store events history].
  destruct (set_device_rules (version resolved) h rules _) as [r [[w l] c]].
  eexists _, _, ((es1 ++ es2) ++ [SetOn (identity h) rules r]). split; [reflexivity|]. cbn [store events].
  rewrite He4, <- !app_assoc. split_and!; [congruence|done|].
  rewrite app_assoc. apply set_last; [done|]. intros Hne.
  destruct (Hok2 eq_refl) as [->|(pre & again & Hsame & ->)].
  - destruct (Hok1 eq_refl Hne) as (again & Hsame & ->). exists [], again. by rewrite app_nil_r.
  - exists (es1 ++ pre), again. by rewrite app_assoc.
Qed.

(** The rules are what the policy grants, established without a single error. *)
Definition policy_grants (config : Runtime) (info : ContainerInspect) (rules : list DeviceRule) : Prop :=
  exists c (dev : DevFs Node), Container_parse (default ∅ info.(inspect_labels)) = Ok c
    /\ enabled config.(policy) c = true
    /\ let r := (collect_container_rules (dev := dev) info.(inspect_mounts)
                    {| global := config.(policy); container := c |}).1 in
       rules = r.(granted) /\ r.(device_errs) = [].

Lemma compute_desired_run id info config (s : PS) :
  exists d s', compute_desired id info config s = (d, s') /\ store s' = store s /\ events s' = events s
    /\ (d.(desired_rules) <> [] -> policy_grants config info d.(desired_rules)).
Proof.
  unfold compute_desired. destruct (Container_parse (default ∅ (inspect_labels info))) as [c|e] eqn:Ec.
  2: { by exists Desired_default, s. }
  destruct (enabled (policy config) c) eqn:Een; cbn [negb]; [|by exists Desired_default, s].
  unfold collect_devices. destruct (existsb is_device_mount (inspect_mounts info)); cbn [negb].
  2: { eexists _, s. split; [reflexivity|]. by split_and!. }
  unfold mbind, PM_bind. rewrite query_run. destruct (w_dev (world s)) as [dev|e].
  - cbn [mret PM_ret]. set (r := (collect_container_rules _ _).1).
    destruct (decide (length (device_errs r) = 0%nat)) as [Hz|Hz].
    + rewrite (bool_decide_eq_true_2 _ Hz). eexists _, (stepped s). split; [reflexivity|]. split_and!; [done..|].
      intros _. exists c, dev. split; [done|]. split; [done|]. split; [done|by apply nil_length_inv].
    + rewrite (bool_decide_eq_false_2 _ Hz). eexists _, (stepped s). split; [reflexivity|]. by split_and!.
  - eexists _, (stepped s). split; [reflexivity|]. by split_and!.
Qed.

(** What a transaction's events say of a grant: it is the last one, what the
    policy in force grants, and verified in the three events before it. *)
Definition grant_justified (s : PS) (t : Transaction) (es : list Event) : Prop :=
  forallb no_grant es = true
  \/ exists id info state pre again h rules out,
       t = TReconcile id (Ok info) /\ info.(inspect_state) = Some state /\ same_run again state
       /\ dry_run (runtime (store s)) = false /\ policy_grants (runtime (store s)) info rules
       /\ forallb no_grant pre = true /\ es = pre ++ checks id again h ++ [SetOn (identity h) rules out].

Lemma grantless_justified {A} (m : M A) s t :
  respects (appends no_grant) m -> exists es, events (m s).2 = events s ++ es /\ grant_justified s t es /\ store (m s).2 = store s.
Proof. intros Hm. destruct (Hm s) as [Hs (es & He & Hg)]. exists es. split_and!; [done|by left|done]. Qed.

Lemma reconcile_justified id inspected (s : PS) :
  exists es, events (reconcile_locked host_root proc_root id inspected s).2 = events s ++ es
    /\ grant_justified s (TReconcile id inspected) es
    /\ store (reconcile_locked host_root proc_root id inspected s).2 = store s.
Proof.
  unfold reconcile_locked. rewrite load_bind. destruct inspected as [info|e].
  2: { apply grantless_justified. walk_steps. }
  destruct (inspect_state info) as [state|] eqn:Est; [|apply grantless_justified; walk_steps].
  destruct (running state && negb (pid state =? 0)); [|apply grantless_justified; walk_steps].
  destruct (compute_desired_run id info (runtime (store s)) s) as (d & s1 & E1 & Hs1 & He1 & Hd).
  rewrite (bind_run _ _ _ _ _ E1). destruct (dry_run (runtime (store s))) eqn:Edry.
  { exists []. rewrite app_nil_r. split_and!; [done|by left|done]. }
  cbv zeta. destruct (apply_pinned_run id state (default false (inspect_privileged info)) (desired_rules d) s1)
    as (r & s2 & es & E2 & Hs2 & He2 & Hg).
  rewrite (bind_run _ _ _ _ _ E2). exists es. split; [cbn [snd mret PM_ret]; congruence|].
  split; [|cbn [snd mret PM_ret]; congruence].
  destruct Hg as [Hg|(pre & again & h & out & Hsame & Hpre & ->)]; [by left|].
  destruct (desired_rules d) as [|rule rules] eqn:Er.
  - left. rewrite !forallb_app, Hpre. done.
  - right. exists id, info, state, pre, again, h, (rule :: rules), out. split_and!; try done.
    rewrite <- Er in *. by apply Hd; rewrite Er.
Qed.

(** The config in force after a transaction. *)
Definition store_after (t : Transaction) (s : Snapshot) : Snapshot :=
  match t with TPublish r => publish r s | _ => s end.

Lemma transaction_justified t (s : PS) :
  exists es, events (run_transaction host_root proc_root t s).2 = events s ++ es /\ grant_justified s t es
    /\ store (run_transaction host_root proc_root t s).2 = store_after t (store s).
Proof.
  destruct t as [id inspected|id t| |r]; cbn [run_transaction]; rewrite run_snd.
  - apply reconcile_justified.
  - apply grantless_justified. unfold terminate_locked. walk_steps.
  - apply grantless_justified. unfold sweep_locked. walk_steps.
  - exists []. rewrite app_nil_r. split_and!; [done|by left|done].
Qed.

(** C4. A cgroup is granted devices only by a reconcile, as its last act, with
    exactly the rules the policy in force grants the container, every device of
    which resolved, and only right after three checks in that order: Docker still
    reports the same run with the same pid, the pinned process is alive, and the
    pid is listed in that very cgroup. So neither a recycled pid, nor a restarted
    container, nor a config replaced meanwhile can direct rules elsewhere. *)
Theorem grants_are_verified t (s : PS) :
  exists es, events (run_transaction host_root proc_root t s).2 = events s ++ es /\ grant_justified s t es.
Proof. destruct (transaction_justified t s) as (es & He & Hj & _). by exists es. Qed.

End processor.

(** ** The errors of applying rules

    Which errors [apply_pinned] ends with: one that wraps an error of a cgroup
    controller comes from a call to the controller in the same transaction. *)

Section errors.
Context {crate : GlobCrate} {jiff : Jiff}.
Context {W Fd Pidfd Dirfd Node : Type} {outside : World W Fd Pidfd Dirfd Node} {controllers : Controllers W Fd}.
Context (host_root proc_root : string).

Abbreviation PS := (PState (W := W)).
Abbreviation M := (PM (W := W)).

(** The controller's error that [e] wraps is the answer to one of the calls. *)
Definition answered_in (es : list Event) (e : ProcError) : Prop :=
  forall p, is_cgroup p e = true -> exists i rules source, SetOn i rules (Err source) ∈ es /\ p source = true.

(** What a computation adds to the trace accounts for the error it ends with. *)
Definition blamed {A} (m : M (result ProcError A)) : Prop :=
  forall s : PS, exists es, events (m s).2 = events s ++ es
    /\ match (m s).1 with Ok _ => True | Err e => answered_in es e end.

Lemma answered_more es es' e : answered_in es e -> answered_in (es' ++ es) e.
Proof.
  intros H p Hp. destruct (H p Hp) as (i & rules & source & Hin & Hs). exists i, rules, source.
  split; [apply elem_of_app; by right|done].
Qed.

Lemma blamed_ok {A} (a : A) : blamed (mret (Ok a)).
Proof. intros s. exists []. by rewrite app_nil_r. Qed.

Lemma blamed_err {A} e : (forall p, is_cgroup p e = false) -> blamed (mret (Err e) : M (result ProcError A)).
Proof. intros H s. exists []. rewrite app_nil_r. split; [done|]. intros p Hp. by rewrite H in Hp. Qed.

Lemma blamed_bind {A B} (m : M A) (k : A -> M (result ProcError B)) :
  respects (appends (fun _ => true)) m -> (forall a, blamed (k a)) -> blamed (m ≫= k).
Proof.
  intros Hm Hk s. destruct (Hm s) as [_ (es & He & _)]. unfold mbind, PM_bind. destruct (m s) as [a s1].
  destruct (Hk a s1) as (es' & He' & Hr). cbn in He. exists (es ++ es'). rewrite He', He, app_assoc. split; [done|].
  destruct (k a s1).1; [done|by apply answered_more].
Qed.

Lemma blamed_try {A B} (m : M (result ProcError A)) (k : A -> M (result ProcError B)) :
  blamed m -> (forall a, blamed (k a)) -> blamed (try m k).
Proof.
  intros Hm Hk s. destruct (Hm s) as (es & He & Hr). unfold try, mbind, PM_bind. destruct (m s) as [r s1].
  cbn in He, Hr. destruct r as [a|e]; [|by exists es].
  destruct (Hk a s1) as (es' & He' & Hr'). exists (es ++ es'). rewrite He', He, app_assoc. split; [done|].
  destruct (k a s1).1; [done|by apply answered_more].
Qed.

Lemma blamed_inspect {A} id (k : result ProcError ContainerInspect -> M (result ProcError A)) :
  (forall info, blamed (k (Ok info))) -> (forall source, blamed (k (Err (InspectFailed id source)))) ->
  blamed (inspect id ≫= k).
Proof.
  intros Ho He s. unfold inspect, ask, mbind, PM_bind. destruct (w_inspect id (world s)) as [[info|source] w].
  - cbn. match goal with |- context [k _ ?s1] => destruct (Ho info s1) as (es & E & Hr) end. cbn in E.
    eexists. rewrite E, <- app_assoc. split; [done|]. destruct (k _ _).1; [done|by apply answered_more].
  - cbn. match goal with |- context [k _ ?s1] => apply (He source s1) end.
Qed.

(** The rules are set, and an error of the controller is wrapped or passed over. *)
Lemma blamed_set {A} v (h : CgroupHandle Fd) rules (k : result Error unit -> M (result ProcError A)) :
  (forall r, (exists a, k r = mret (Ok a)) \/ exists source e, r = Err source /\ k r = mret (Err e)
     /\ forall p, is_cgroup p e = true -> p source = true) ->
  blamed (set_rules v h rules ≫= k).
Proof.
  intros Hk s. unfold set_rules, mbind, PM_bind. destruct (set_device_rules v h rules _) as [r [[w l] c]]. cbn.
  destruct (Hk r) as [(a & ->)|(source & e & -> & -> & Hp)]; cbn; eexists; (split; [done|]); [done|].
  intros p Hpe. exists (identity h), rules, source. split; [by left|by apply Hp].
Qed.

(** Every call appends to the trace. *)
Abbreviation logs := (respects (appends (W := W) (fun _ => true))).

#[local] Instance logs_preorder : PreOrder (appends (W := W) (fun _ => true)) := appends_preorder _.

Lemma query_logs {A} (q : W -> A) : logs (query q).
Proof. apply query_appends. Qed.

Lemma emit_logs e : logs (emit e).
Proof. by apply emit_appends. Qed.

Lemma history_logs {A} (f : History -> A * History) : logs (on_history f).
Proof. apply history_appends. Qed.

Lemma forget_logs id : logs (forget_identity id).
Proof. apply forget_appends. Qed.

#[local] Hint Resolve query_logs emit_logs history_logs forget_logs : steps.

Lemma alive_logs (p : Pidfd) n : logs (process_alive p n).
Proof. unfold process_alive. walk_steps. Qed.

Lemma member_logs (h : CgroupHandle Fd) n : logs (cgroup_has_process h n).
Proof. unfold cgroup_has_process. walk_steps. Qed.

#[local] Hint Resolve alive_logs member_logs : steps.

(** Case by case; an error at the end wraps none of a controller. *)
Ltac walk_blame :=
  repeat match goal with
  | |- blamed (mret (Ok _)) => apply blamed_ok
  | |- blamed (mret (Err _)) => apply blamed_err; done
  | |- blamed (inspect _ ≫= _) => apply blamed_inspect; intros ?
  | |- blamed (try _ _) => apply blamed_try; [|intros ?]
  | |- blamed (set_rules _ _ _ ≫= _) => fail 1
  | |- blamed (_ ≫= _) => apply blamed_bind; [by eauto with steps|intros ?]
  | |- blamed (match ?x with _ => _ end) => destruct x
  | |- blamed (let _ := _ in _) => cbv zeta
  end.

Lemma verify_pinned_blamed id state (p : Pidfd) h grants : blamed (verify_pinned id state p h grants).
Proof. unfold verify_pinned. walk_blame. Qed.

Lemma open_recorded_blamed record id : blamed (open_recorded record id).
Proof. unfold open_recorded, open_cgroup. walk_blame. Qed.

Lemma revoke_moved_blamed record previous : blamed (revoke_moved record previous).
Proof.
  unfold revoke_moved. apply blamed_try; [apply open_recorded_blamed|]. intros opened. apply blamed_try.
  - destruct opened as [h|why]; [|walk_blame]. apply blamed_set. intros [?|e]; [left; by eexists|].
    destruct (negb (is_filter_missing e)); [right|left; by eexists]. do 2 eexists. split_and!; [done..|].
    cbn. intros p. by rewrite orb_false_r.
  - intros _. walk_blame.
Qed.

Lemma leave_previous_blamed id state (p : Pidfd) h : blamed (leave_previous id state p h).
Proof.
  unfold leave_previous, read_history. apply blamed_bind; [by eauto with steps|]. intros [record|]; [|walk_blame].
  destruct (cgroup record) as [previous|]; [|walk_blame]. destruct (bool_decide _); [walk_blame|].
  apply blamed_try; [apply revoke_moved_blamed|]. intros _. apply verify_pinned_blamed.
Qed.

Lemma apply_pinned_blamed id state priv rules : blamed (apply_pinned host_root proc_root id state priv rules).
Proof.
  unfold apply_pinned, open_cgroup, update_history. walk_blame.
  - apply verify_pinned_blamed.
  - apply leave_previous_blamed.
  - apply blamed_set. intros [?|e]; [left; by eexists|right]. do 2 eexists. split_and!; [done..|].
    cbn. intros p. by rewrite orb_false_r.
Qed.

End errors.
