(* ===== verification/RevokeProofs.v ===== *)
(** * What was granted can be revoked

    A cgroup that may hold grants is always named by a record of the history, over
    any sequence of transactions: the invariant behind revoking the grants of a
    container that is gone, that Docker does not know, or that moved. *)

From stdpp Require Import sorting.
From S2P Require Import Prelude.
From S2P Require Import Text.
From S2P Require Import Ebpf.
From S2P Require Import V2.
From S2P Require Import Ledger.
From S2P Require Import Errors.
From S2P Require Import DevFs.
From S2P Require Import ProcCgroup.
From S2P Require Import Policy.
From S2P Require Import PolicyProofs.
From S2P Require Import Rules.
From S2P Require Import RulesProofs.
From S2P Require Import Lifecycle.
From S2P Require Import LifecycleProofs.
From S2P Require Import ProcError.
From S2P Require Import Reconcile.
From S2P Require Import ReconcileProofs.

(** ** Exposed cgroups *)

(** A cgroup may hold grants from the first set of rules on it, whatever its
    outcome, until the empty set succeeded there, its filter was missing, or it was
    seen gone. *)
Definition expose (x : gset Identity) (e : Event) : gset Identity :=
  match e with
  | SetOn i [] (Ok _) => x ∖ {[i]}
  | SetOn i [] (Err e) => if is_filter_missing e then x ∖ {[i]} else x
  | SetOn i (_ :: _) _ => {[i]} ∪ x
  | Gone i => x ∖ {[i]}
  | Inspected _ _ | Alive _ | Member _ _ => x
  end.

Definition exposed (es : list Event) : gset Identity := foldl expose ∅ es.

Lemma exposed_snoc es e : exposed (es ++ [e]) = expose (exposed es) e.
Proof. unfold exposed. by rewrite foldl_app. Qed.

Lemma exposed_quiet es es' : forallb no_set es' = true -> exposed (es ++ es') ⊆ exposed es.
Proof.
  revert es. induction es' as [|e es' IH]; intros es; [by rewrite app_nil_r|].
  cbn. intros [He Hes]%andb_true_iff. replace (es ++ e :: es') with ((es ++ [e]) ++ es') by by rewrite <- app_assoc.
  etrans; [by apply IH|]. rewrite exposed_snoc. destruct e; cbn in He |- *; try done; set_solver.
Qed.

(** ** Histories where a run has one record *)

(** Two records of a container that name a cgroup are of different runs. *)
Definition apart (r r' : LifecycleRecord) : Prop :=
  has_identity r = true -> has_identity r' = true -> r.(started_at) <> r'.(started_at).

Fixpoint pairwise_apart (rs : list LifecycleRecord) : Prop :=
  match rs with [] => True | r :: rs => Forall (apart r) rs /\ pairwise_apart rs end.

Record runs_ok (rs : list LifecycleRecord) : Prop := {
  runs_apart : pairwise_apart rs;
  runs_started : Forall (fun r => has_identity r = true <-> r.(started_at) <> "") rs;
}.

Definition history_wf (h : History) : Prop := history_ok h /\ map_Forall (fun _ rs => runs_ok rs) h.

Lemma apart_sym r r' : apart r r' -> apart r' r.
Proof. intros H H1 H2 E. by apply H. Qed.

Lemma pairwise_sublist rs rs' : rs' `sublist_of` rs -> pairwise_apart rs -> pairwise_apart rs'.
Proof.
  induction 1 as [|x l1 l2 Hs IH|x l1 l2 Hs IH]; cbn; [done| |tauto]. intros [H1 H2]. split; [|auto].
  by eapply Forall_sublist.
Qed.

Lemma runs_ok_sublist rs rs' : rs' `sublist_of` rs -> runs_ok rs -> runs_ok rs'.
Proof. intros Hs [H1 H2]. split; [by eapply pairwise_sublist|by eapply Forall_sublist]. Qed.

Lemma runs_ok_snoc rs r :
  runs_ok rs -> Forall (fun x => apart x r) rs -> (has_identity r = true <-> r.(started_at) <> "") ->
  runs_ok (rs ++ [r]).
Proof.
  intros [H1 H2] Ha Hr. split.
  - clear H2. induction rs as [|x rs IH]; cbn in *; [done|]. destruct H1 as [H1 H1'].
    apply Forall_cons in Ha as [Hx Ha]. split; [|auto]. apply Forall_app. split; [done|by apply Forall_singleton].
  - apply Forall_app. split; [done|by apply Forall_singleton].
Qed.

(** A change of records that keeps which runs name a cgroup. *)
Definition keeps_key (r r' : LifecycleRecord) : Prop :=
  r'.(started_at) = r.(started_at) /\ has_identity r' = has_identity r.

(** And in which cgroup. *)
Definition keeps_run (r r' : LifecycleRecord) : Prop := r'.(started_at) = r.(started_at) /\ r'.(cgroup) = r.(cgroup).

Lemma keeps_run_key r r' : keeps_run r r' -> keeps_key r r'.
Proof. intros [E1 E2]. split; [done|]. unfold has_identity. by rewrite E2. Qed.

Lemma keeps_run_refl r : keeps_run r r.
Proof. done. Qed.

Lemma runs_ok_keeps rs rs' : Forall2 keeps_key rs rs' -> runs_ok rs -> runs_ok rs'.
Proof.
  intros HF [H1 H2]. split.
  - clear H2. induction HF as [|r r' rs rs' Hr HF IH]; cbn in *; [done|]. destruct H1 as [H1 H1']. split; [|auto].
    clear IH H1'. induction HF as [|x x' rs rs' Hx HF IH]; [done|]. apply Forall_cons in H1 as [Ha H1].
    constructor; [|auto]. destruct Hr as [Er1 Er2], Hx as [Ex1 Ex2]. unfold apart.
    rewrite Er1, Er2, Ex1, Ex2. exact Ha.
  - clear H1. induction HF as [|r r' rs rs' [Hr1 Hr2] HF IH]; [done|]. apply Forall_cons in H2 as [Ha H2].
    constructor; [|auto]. rewrite Hr1, Hr2. done.
Qed.

Lemma runs_ok_run rs rs' : Forall2 keeps_run rs rs' -> runs_ok rs -> runs_ok rs'.
Proof. intros HF. apply runs_ok_keeps. eapply Forall2_impl; [exact HF|apply keeps_run_key]. Qed.

Lemma runs_ok_alter rs i f x :
  runs_ok rs -> rs !! i = Some x -> Forall (apart (f x)) rs ->
  (has_identity (f x) = true <-> (f x).(started_at) <> "") -> runs_ok (alter f i rs).
Proof.
  intros [H1 H2] Hi Ha Hx. split.
  - clear H2. revert i Hi. induction rs as [|r rs IH]; intros i Hi; [done|]. destruct H1 as [H1 H1'].
    apply Forall_cons in Ha as [Hr Ha]. destruct i as [|i].
    + injection Hi as ->. done.
    + cbn. split; [|by apply IH]. clear IH H1'. revert i Hi.
      induction rs as [|y rs IH]; intros i Hi; [done|]. apply Forall_cons in H1 as [Hy H1]. destruct i as [|i].
      * injection Hi as ->. constructor; [by apply apart_sym|done].
      * apply Forall_cons in Ha as [_ Ha]. constructor; [done|by apply IH].
  - clear H1 Ha. revert i Hi. induction rs as [|r rs IH]; intros i Hi; [done|]. apply Forall_cons in H2 as [Hr H2].
    destruct i as [|i]; [injection Hi as ->; by constructor|]. constructor; [done|by apply IH].
Qed.

(** Of the records of a container, one names the cgroup of a run. *)
Lemma runs_unique rs r r' :
  runs_ok rs -> r ∈ rs -> r' ∈ rs -> has_identity r = true -> has_identity r' = true ->
  r.(started_at) = r'.(started_at) -> r = r'.
Proof.
  intros [H _]. induction rs as [|x rs IH]; [by intros ?%elem_of_nil|]. destruct H as [Hx H].
  rewrite Forall_forall in Hx. intros [->|Hr]%elem_of_cons [->|Hr']%elem_of_cons Hi Hi' E; [done| | |by apply IH].
  - by destruct (Hx _ Hr' Hi Hi').
  - by destruct (Hx _ Hr Hi' Hi).
Qed.

(** ** Every operation keeps them *)

Lemma records_runs h id : history_wf h -> runs_ok (records h id).
Proof.
  intros [_ Hr]. unfold records. destruct (h !! id) as [rs|] eqn:E; [|by split].
  exact (Hr _ _ E).
Qed.

Lemma wf_insert h id rs : history_ok (<[id := rs]> h) -> history_wf h -> runs_ok rs -> history_wf (<[id := rs]> h).
Proof. intros Hok [_ Hr] Hrs. split; [done|]. by apply map_Forall_insert_2. Qed.

Lemma append_wf h r :
  history_ok (append h r) -> history_wf h -> runs_ok (records h r.(container_id) ++ [r]) -> history_wf (append h r).
Proof.
  intros Hok Hh Hr. apply wf_insert; [done..|]. eapply runs_ok_sublist; [|exact Hr].
  apply (trim_records_spec (length (records h (container_id r) ++ [r])) (records h (container_id r) ++ [r])). done.
Qed.

Lemma provisional_wf now id h : history_wf h -> history_wf (provisional now id h).
Proof.
  intros Hh. pose proof (provisional_ok now id h (proj1 Hh)) as Hok. unfold provisional in *.
  destruct (position is_provisional (records h id)) as [i|].
  - apply wf_insert; [done..|]. eapply runs_ok_run; [|by apply records_runs].
    apply Forall2_alter; [apply keeps_run_refl|done].
  - apply append_wf; [done..|]. apply runs_ok_snoc; [by apply records_runs| |done].
    apply Forall_forall. by intros x _ _.
Qed.

Lemma upgrade_key started cg r :
  has_identity (upgrade started cg r) = true /\ (upgrade started cg r).(started_at) = started
  /\ (upgrade started cg r).(cgroup) = Some cg.
Proof. unfold upgrade. by case_bool_decide. Qed.

(** No record of the container is of this run. *)
Lemma not_started_apart rs started x :
  position (started_is started) rs = None -> x.(started_at) = started -> Forall (apart x) rs.
Proof.
  intros Hp Hx. apply position_missing in Hp. eapply Forall_impl; [exact Hp|]. intros r Hr _ _ E.
  apply bool_decide_eq_false_1 in Hr. congruence.
Qed.

Lemma verify_wf {jiff : Jiff} now id started cg h :
  started <> "" -> history_wf h -> history_wf (verify now id started cg h).
Proof.
  intros Hs Hh. pose proof (verify_ok now id started cg h (proj1 Hh)) as Hok. unfold verify in *.
  pose proof (records_runs h id Hh) as Hr.
  destruct (position (started_is started) (records h id)) as [i|] eqn:Ei.
  - apply wf_insert; [done..|]. eapply runs_ok_keeps; [|exact Hr].
    apply Forall2_alter; [done|]. intros x Hx. apply position_found in Ei as (y & Hy & Hys). rewrite Hx in Hy.
    injection Hy as <-. apply bool_decide_eq_true_1 in Hys. destruct (upgrade_key started cg x) as (E1 & E2 & _).
    split; [congruence|]. rewrite E1. symmetry. destruct Hr as [_ Hr]. rewrite Forall_forall in Hr.
    apply (Hr x); [by eapply list_elem_of_lookup_2|congruence].
  - destruct (position is_provisional (records h id)) as [i|] eqn:Ep.
    + apply wf_insert; [done..|]. apply position_found in Ep as (x & Hx & _).
      destruct (upgrade_key started cg x) as (E1 & E2 & _).
      eapply runs_ok_alter; [exact Hr|exact Hx| |by rewrite E1, E2].
      by eapply not_started_apart.
    + apply append_wf; [done..|]. apply runs_ok_snoc; [done| |done].
      eapply Forall_impl; [eapply (not_started_apart _ started {| started_at := started |}); done|].
      intros x Hx. by apply apart_sym.
Qed.

Lemma update_wf id started change h :
  (forall r, rewrites id r (change r)) -> (forall r, keeps_run r (change r)) ->
  history_wf h -> history_wf (update id started change h).
Proof.
  intros H1 H2 Hh. pose proof (update_ok id started change h H1 (proj1 Hh)) as Hok. unfold update in *.
  destruct (h !! id) as [rs|] eqn:E; [|done]. apply wf_insert; [done..|].
  eapply runs_ok_run; [|exact (proj2 Hh _ _ E)]. apply Forall2_map_self. intros r _.
  by destruct (started_is started r).
Qed.

Lemma release_wf r h : history_wf h -> history_wf (release r h).
Proof.
  intros Hh. pose proof (release_ok r h (proj1 Hh)) as Hok. unfold release in *.
  destruct (h !! container_id r) as [rs|] eqn:E; [|done]. case_bool_decide.
  - split; [done|]. apply map_Forall_delete, Hh.
  - apply wf_insert; [done..|]. eapply runs_ok_sublist; [apply filter_is_sublist|exact (proj2 Hh _ _ E)].
Qed.

Lemma terminate_wf {jiff : Jiff} id t h : history_wf h -> history_wf (Lifecycle.terminate id t h).2.
Proof.
  intros Hh. pose proof (terminate_ok id t h (proj1 Hh)) as Hok. unfold Lifecycle.terminate in *.
  destruct (h !! id) as [rs|] eqn:E; [|done].
  destruct (match_run t 0 rs None) as [[i s]|]; cbn [snd] in *; (apply wf_insert; [done..|]);
    (eapply runs_ok_run; [|exact (proj2 Hh _ _ E)]).
  - by apply Forall2_alter.
  - apply Forall2_map_self. intros r _. by destruct (is_provisional r).
Qed.

(** ** Names *)

(** Some record names the cgroup. *)
Definition named (h : History) (i : Identity) : Prop :=
  exists r, r ∈ records h r.(container_id) /\ record_identity r = Some i.

Lemma identity_has r i : record_identity r = Some i -> has_identity r = true.
Proof. unfold record_identity, has_identity. by destruct (cgroup r). Qed.

Lemma retained_named h h' i :
  (forall r, r ∈ records h r.(container_id) -> record_identity r = Some i -> retained r h') ->
  named h i -> named h' i.
Proof.
  intros H (r & Hr & Hi). destruct (H r Hr Hi) as (r' & Hr' & E1 & _ & _ & E2 & _). exists r'.
  rewrite E1. split; [done|]. unfold record_identity in *. by rewrite E2.
Qed.

(** What names a cgroup in [h'] did so in [h]. *)
Definition history_sub (h' h : History) : Prop :=
  forall key r', r' ∈ records h' key -> has_identity r' = true ->
    exists r, r ∈ records h key /\ has_identity r = true /\ keeps_run r r'.

#[global] Instance history_sub_preorder : PreOrder history_sub.
Proof.
  split.
  - intros h key r' Hr' Hi. by exists r'.
  - intros h1 h2 h3 H12 H23 key r1 Hr1 Hi1. destruct (H12 _ _ Hr1 Hi1) as (r2 & Hr2 & Hi2 & [E1 E2]).
    destruct (H23 _ _ Hr2 Hi2) as (r3 & Hr3 & Hi3 & [E3 E4]). exists r3. split_and!; [done..|].
    split; congruence.
Qed.

Lemma Forall2_elem_r {A B} (R : A -> B -> Prop) l k y : Forall2 R l k -> y ∈ k -> exists x, x ∈ l /\ R x y.
Proof.
  intros HF Hy. apply list_elem_of_lookup in Hy as [i Hi]. destruct (Forall2_lookup_r _ _ _ _ _ HF Hi) as (x & Hx & HR).
  exists x. split; [by eapply list_elem_of_lookup_2|done].
Qed.

Lemma sub_insert h id rs rs' :
  h !! id = Some rs -> (forall r', r' ∈ rs' -> exists r, r ∈ rs /\ keeps_run r r') ->
  history_sub (<[id := rs']> h) h.
Proof.
  intros E Hrs key r' Hr' Hi. unfold records in *. destruct (decide (id = key)) as [->|Hne].
  - rewrite lookup_insert_eq in Hr'. rewrite E. destruct (Hrs r' Hr') as (r & Hr & Hk). exists r.
    split_and!; [done| |done]. apply keeps_run_key in Hk as [_ <-]. done.
  - rewrite lookup_insert_ne in Hr' by done. by exists r'.
Qed.

Lemma update_sub id started change h :
  (forall r, keeps_run r (change r)) -> history_sub (update id started change h) h.
Proof.
  intros Hc. unfold update. destruct (h !! id) as [rs|] eqn:E; [|reflexivity].
  eapply sub_insert; [exact E|]. intros r' (r & -> & Hr)%list_elem_of_fmap. exists r. split; [done|].
  by destruct (started_is started r).
Qed.

Lemma release_sub r h : history_sub (release r h) h.
Proof.
  unfold release. destruct (h !! container_id r) as [rs|] eqn:E; [|reflexivity]. case_bool_decide.
  - intros key r' Hr' Hi. unfold records in *. destruct (decide (container_id r = key)) as [<-|Hne].
    + rewrite lookup_delete_eq in Hr'. by apply elem_of_nil in Hr'.
    + rewrite lookup_delete_ne in Hr' by done. by exists r'.
  - eapply sub_insert; [exact E|]. intros r' [_ Hr']%list_elem_of_filter. by exists r'.
Qed.

Lemma mark_revoked_keeps r :
  keeps_run r (if bool_decide (r.(state) = Terminal) then with_revoked true r else r).
Proof. by case_bool_decide. Qed.

(** ** Copies of records *)

(** A copy of a record taken in this transaction: what the history has of the
    same run is what it has. *)
Definition agrees (h : History) (c : LifecycleRecord) : Prop :=
  (has_identity c = false -> c.(started_at) = "")
  /\ forall r, r ∈ records h c.(container_id) -> has_identity r = true ->
       r.(started_at) = c.(started_at) -> r.(cgroup) = c.(cgroup).

Lemma agrees_sub h h' c : history_sub h' h -> agrees h c -> agrees h' c.
Proof.
  intros Hs [H1 H2]. split; [done|]. intros r Hr Hi E. destruct (Hs _ _ Hr Hi) as (r0 & Hr0 & Hi0 & [E1 E2]).
  rewrite E2. apply H2; congruence.
Qed.

Lemma agrees_self h c c' :
  history_wf h -> c ∈ records h c.(container_id) -> keeps_run c c' -> c'.(container_id) = c.(container_id) ->
  agrees h c'.
Proof.
  intros Hh Hc [E1 E2] E3. pose proof (records_runs h (container_id c) Hh) as Hr. split.
  - intros Hi. destruct Hr as [_ Hr]. rewrite Forall_forall in Hr. specialize (Hr c Hc).
    assert (has_identity c = false) as Hci by (unfold has_identity in *; by rewrite <- E2).
    rewrite Hci in Hr. rewrite E1. destruct (decide (started_at c = "")); [done|]. by apply Hr in n.
  - intros r Hrr Hi E. rewrite E3 in Hrr. rewrite E2.
    assert (has_identity c = true) as Hci.
    { destruct Hr as [_ Hr]. rewrite Forall_forall in Hr. apply (Hr c Hc).
      rewrite <- E1, <- E. by apply (Hr r Hrr). }
    by rewrite (runs_unique _ r c Hr Hrr Hc Hi Hci) by congruence.
Qed.

Lemma records_id h key r : history_ok h -> r ∈ records h key -> r.(container_id) = key.
Proof.
  intros Hh Hr. unfold records in Hr. destruct (h !! key) as [rs|] eqn:E; [|by apply elem_of_nil in Hr].
  apply Hh in E as [Ho _ _ _]. rewrite Forall_forall in Ho. by apply Ho in Hr as [? _ _ _].
Qed.

(** Releasing a copy keeps every name but the copy's own. *)
Lemma release_named h c i :
  agrees h c -> history_wf h -> record_identity c <> Some i -> named h i -> named (release c h) i.
Proof.
  intros [Hc1 Hc2] Hh Hne. apply retained_named. intros r Hr Hi. apply release_retained; [done|]. cbn.
  apply negb_true_iff, not_true_iff_false. intros [Ec%bool_decide_eq_true_1 Hs]%andb_true_iff.
  apply andb_true_iff in Hs as [Es%bool_decide_eq_true_1 _]. pose proof (identity_has _ _ Hi) as Hri.
  apply Hne. rewrite <- Hi. unfold record_identity. f_equal. symmetry. apply Hc2; [|done|done].
  by rewrite Ec.
Qed.

(** ** The invariant *)

Section processor.
Context {crate : GlobCrate} {jiff : Jiff}.
Context {W Fd Pidfd Dirfd Node : Type} {outside : World W Fd Pidfd Dirfd Node} {controllers : Controllers W Fd}.
Context (host_root proc_root : string).

Abbreviation PS := (PState (W := W)).
Abbreviation M := (PM (W := W)).

Definition accountable (s : PS) : Prop :=
  history_wf (history s) /\ forall i, i ∈ exposed (events s) -> named (history s) i.

(** Nothing was set and the history is as it was. *)
Definition still (s s' : PS) : Prop := history s' = history s /\ exposed (events s') ⊆ exposed (events s).

#[local] Instance still_preorder : PreOrder still.
Proof. split; [done|]. intros s1 s2 s3 [E1 H1] [E2 H2]. split; [congruence|set_solver]. Qed.

Lemma still_accountable s s' : still s s' -> accountable s -> accountable s'.
Proof. intros [E H] [Hw Hn]. split; rewrite E; [done|]. intros i Hi. apply Hn. set_solver. Qed.

Lemma ask_still {A} (op : W -> A * W) : respects still (ask op).
Proof. intros s. unfold ask. by destruct (op (world s)). Qed.

Lemma query_still {A} (q : W -> A) : respects still (query q).
Proof. apply ask_still. Qed.

Lemma emit_still e : negb (is_set e) = true -> respects still (emit e).
Proof. intros He s. split; [done|]. apply exposed_quiet. cbn. by rewrite He. Qed.

Lemma forget_still id : respects still (forget_identity id).
Proof. done. Qed.

Lemma load_still : respects still load_config.
Proof. done. Qed.

Lemma read_still {A} (f : History -> A) : respects still (read_history f).
Proof. done. Qed.
#[local] Hint Resolve ask_still query_still emit_still forget_still load_still read_still : steps.
#[local] Hint Extern 1 (PreOrder _) => apply still_preorder : steps.

Lemma inspect_still id : respects still (inspect id).
Proof. unfold inspect. walk_steps. Qed.
#[local] Hint Resolve inspect_still : steps.

Lemma verify_pinned_still id state p h grants : respects still (verify_pinned id state p h grants).
Proof. unfold verify_pinned, process_alive, cgroup_has_process. walk_steps. Qed.

Lemma compute_desired_still id info config : respects still (compute_desired id info config).
Proof. unfold compute_desired, collect_devices. walk_steps. Qed.
#[local] Hint Resolve verify_pinned_still compute_desired_still : steps.

Lemma open_recorded_run c i (s : PS) :
  exists r s', open_recorded c i s = (r, s') /\ still s s'
    /\ match r with
       | Ok (OpenRecorded h) => identity h = i
       | Ok (GoneRecorded _) => i ∉ exposed (events s')
       | Err _ => True
       end.
Proof.
  unfold open_recorded, open_cgroup. erewrite bind_run by apply query_run.
  assert (forall (r : result ProcError (Recorded (Fd := Fd))), exists s', (_ ← emit (Gone i); mret r : M _) (stepped s) = (r, s')
    /\ still s s' /\ i ∉ exposed (events s')) as Hgone.
  { intros r. eexists. split; [reflexivity|]. split.
    - split; [done|]. by apply exposed_quiet.
    - cbn [events stepped]. rewrite exposed_snoc. cbn. set_solver. }
  destruct (handle_open (V2.path i)) as [h|e].
  - case_bool_decide; [by eexists _, (stepped s)|]. destruct (Hgone (Ok (GoneRecorded "cgroup recreated"))) as (s' & -> & H1 & H2).
    by eexists _, s'.
  - destruct (io_not_found e); [|by eexists _, (stepped s)].
    destruct (Hgone (Ok (GoneRecorded "cgroup removed"))) as (s' & -> & H1 & H2). by eexists _, s'.
Qed.

Lemma set_rules_run v h rules (s : PS) :
  exists r s', set_rules v h rules s = (r, s') /\ history s' = history s
    /\ events s' = events s ++ [SetOn (identity h) rules r].
Proof.
  unfold set_rules. destruct (set_device_rules v h rules _) as [r [[w l] c]]. by eexists _, _.
Qed.

(** The empty set narrows what is exposed, and clears the cgroup when it worked
    or there was no filter. *)
Definition cleared (r : result Error unit) : bool := match r with Ok _ => true | Err e => is_filter_missing e end.

Lemma set_empty_run v h (s : PS) :
  exists r s', set_rules v h [] s = (r, s') /\ still s s' /\ (cleared r = true -> identity h ∉ exposed (events s')).
Proof.
  destruct (set_rules_run v h [] s) as (r & s' & E & Eh & Ee). exists r, s'. split; [done|].
  unfold still. rewrite Ee, exposed_snoc. cbn. destruct r as [u|e]; cbn; [|destruct (is_filter_missing e)]; set_solver.
Qed.

(** A transaction's step: the invariant stays, and no new run is named. *)
Definition narrows (s s' : PS) : Prop := accountable s' /\ history_sub (history s') (history s).

Lemma narrows_still s s' : accountable s -> still s s' -> narrows s s'.
Proof. intros Ha Hs. split; [by eapply still_accountable|]. by rewrite (proj1 Hs). Qed.

Lemma narrows_trans s1 s2 s3 : narrows s1 s2 -> (accountable s2 -> narrows s2 s3) -> narrows s1 s3.
Proof. intros [Ha Hs] H. destruct (H Ha) as [Ha3 Hs3]. split; [done|]. by etrans. Qed.

Lemma release_narrows c s s' :
  accountable s -> agrees (history s) c ->
  (forall i, record_identity c = Some i -> i ∉ exposed (events s)) ->
  history s' = release c (history s) -> events s' = events s -> narrows s s'.
Proof.
  intros [Hw Hn] Hc Hi E1 E2. unfold narrows, accountable. rewrite E1, E2. split; [|apply release_sub].
  split; [by apply release_wf|]. intros i Hx. apply release_named; [done..| |by apply Hn].
  intros E. by apply (Hi i E).
Qed.

Lemma release_record_narrows c s :
  accountable s -> agrees (history s) c ->
  (forall i, record_identity c = Some i -> i ∉ exposed (events s)) -> narrows s (release_record c s).2.
Proof.
  intros Ha Hc Hi. pose proof (fun s' => release_narrows c s s' Ha Hc Hi) as H. clear Hi.
  unfold release_record, update_history, on_history, mbind, PM_bind. cbn [fst snd].
  destruct (record_identity c); by apply H.
Qed.

Lemma mark_revoked_narrows id t s :
  accountable s -> narrows s (update_history (mark_revoked id t) s).2.
Proof.
  intros [Hw Hn]. split; [split|]; cbn.
  - apply update_wf; [intros r; apply rewrites_revoked|intros r; apply mark_revoked_keeps|done].
  - intros i Hi. eapply retained_named; [|by apply Hn]. intros r Hr _. apply update_retained; [|done].
    intros x. case_bool_decide; by split_and!.
  - apply update_sub. intros r. apply mark_revoked_keeps.
Qed.

Lemma snd_bind_ret {A B} (m : M A) (b : B) s : ((_ ← m; mret b) s).2 = (m s).2.
Proof. unfold mbind, PM_bind. by destruct (m s). Qed.

Lemma snd_bind_map {A B} (m : M A) (f : A -> B) s : ((a ← m; mret (f a)) s).2 = (m s).2.
Proof. unfold mbind, PM_bind. by destruct (m s). Qed.

Lemma revoke_at_narrows c s :
  accountable s -> agrees (history s) c -> narrows s (revoke_at c s).2.
Proof.
  intros Ha Hc. unfold revoke_at. destruct (cgroup c) as [cg|] eqn:Ecg; [|by apply narrows_still].
  destruct (open_recorded_run c (rc_identity cg) s) as (r & s1 & E & Hs & Hr). rewrite (try_run _ _ _ _ _ E).
  eapply narrows_trans; [by apply narrows_still|]. intros Ha1.
  assert (agrees (history s1) c) as Hc1 by by rewrite (proj1 Hs).
  destruct r as [[h|why]|e]; [| |by apply narrows_still].
  - destruct (set_empty_run (rc_version cg) h s1) as (r2 & s2 & E2 & Hs2 & _). rewrite (bind_run _ _ _ _ _ E2).
    eapply narrows_trans; [by apply narrows_still|]. intros Ha2.
    destruct r2 as [u|e]; [|destruct (is_filter_missing e); [|by apply narrows_still]]; rewrite snd_bind_ret;
      by apply mark_revoked_narrows.
  - rewrite snd_bind_ret. apply release_record_narrows; [done..|]. intros i Hi. unfold record_identity in Hi.
    rewrite Ecg in Hi. by injection Hi as <-.
Qed.

Lemma revoke_each_narrows cs s :
  accountable s -> Forall (agrees (history s)) cs -> narrows s (revoke_each cs s).2.
Proof.
  revert s. induction cs as [|c cs IH]; intros s Ha Hcs; [by apply narrows_still|].
  apply Forall_cons in Hcs as [Hc Hcs]. cbn [revoke_each]. destruct (has_identity c); cbn [negb]; [|by apply IH].
  pose proof (revoke_at_narrows c s Ha Hc) as Hn. destruct (revoke_at c s) as [r s1] eqn:E1. cbn in Hn.
  rewrite (bind_run _ _ _ _ _ E1). eapply narrows_trans; [exact Hn|]. intros Ha1.
  unfold mbind, PM_bind. specialize (IH s1 Ha1).
  assert (Forall (agrees (history s1)) cs) as Hcs1.
  { eapply Forall_impl; [exact Hcs|]. intros c' Hc'. eapply agrees_sub; [apply Hn|done]. }
  specialize (IH Hcs1). destruct (revoke_each cs s1) as [errors s2]. exact IH.
Qed.

(** Copies read from the history agree with it. *)
Lemma records_agree h id : history_wf h -> Forall (agrees h) (records h id).
Proof.
  intros Hh. apply Forall_forall. intros c Hc. pose proof (records_id _ _ _ (proj1 Hh) Hc) as Eid.
  eapply agrees_self; [done| |apply keeps_run_refl|done]. by rewrite Eid.
Qed.

Lemma terminate_agrees id t h :
  history_wf h -> let '(ended, h') := Lifecycle.terminate id t h in Forall (agrees h') ended.
Proof.
  intros Hh. pose proof (terminate_wf id t h Hh) as Hw. unfold Lifecycle.terminate in *.
  destruct (h !! id) as [rs|] eqn:E; [|done].
  destruct (match_run t 0 rs None) as [[i s]|]; cbn [snd] in Hw.
  - destruct (alter (with_state Terminal) i rs !! i) as [r|] eqn:Er; [|done]. apply Forall_singleton.
    set (h' := <[id := alter (with_state Terminal) i rs]> h) in *.
    assert (r ∈ records h' id) as Hr.
    { unfold records, h'. rewrite lookup_insert_eq. by eapply list_elem_of_lookup_2. }
    pose proof (records_id _ _ _ (proj1 Hw) Hr) as Eid. eapply agrees_self; [done| |done|done]. by rewrite Eid.
  - set (h' := <[id := _]> h) in *. apply Forall_forall. intros r (x & -> & Hx)%list_elem_of_fmap.
    apply list_elem_of_filter in Hx as [Hp Hx].
    assert (with_state Terminal x ∈ records h' id) as Hr.
    { unfold records, h'. rewrite lookup_insert_eq. cbn. apply list_elem_of_fmap. exists x.
      split; [by rewrite Hp|done]. }
    pose proof (records_id _ _ _ (proj1 Hw) Hr) as Eid. eapply agrees_self; [done| |done|done]. by rewrite Eid.
Qed.

Lemma terminate_accountable id t s : accountable s -> accountable (terminate_locked id t s).2.
Proof.
  intros [Hw Hn]. unfold terminate_locked. pose proof (terminate_wf id t (history s) Hw) as Hw'.
  pose proof (terminate_agrees id t (history s) Hw) as Hag.
  assert (forall i, named (history s) i -> named (Lifecycle.terminate id t (history s)).2 i) as Hnm.
  { intros i. apply retained_named. intros r Hr _. by apply terminate_retained. }
  destruct (Lifecycle.terminate id t (history s)) as [ended h'] eqn:E. cbn [snd] in *.
  unfold on_history, mbind at 1, PM_bind at 1. rewrite E, load_bind.
  set (s1 := {| world := _; store := _; history := h'; p_ledger := _; p_cache := _; events := _ |}).
  assert (accountable s1) as Ha1 by (split; cbn; auto).
  destruct (dry_run _); [done|]. pose proof (revoke_each_narrows ended s1 Ha1 Hag) as [Hr _].
  unfold mbind, PM_bind. destruct (revoke_each ended s1). exact Hr.
Qed.

Lemma provisional_accountable now id s :
  accountable s -> accountable (update_history (provisional now id) s).2.
Proof.
  intros [Hw Hn]. split; cbn; [by apply provisional_wf|]. intros i Hi. eapply retained_named; [|by apply Hn].
  intros r Hr Hri. apply provisional_retained; [done|]. by eapply identity_has.
Qed.

Lemma revoke_after_accountable id dry e s :
  accountable s -> accountable (revoke_after_inspect_failure id dry e s).2.
Proof.
  intros Ha. unfold revoke_after_inspect_failure.
  match goal with |- accountable ((?m ≫= _) s).2 => assert (accountable (m s).2) as Hm end.
  { destruct dry; [done|]. erewrite bind_run by apply query_run.
    assert (accountable (stepped s)) as Hs by exact Ha.
    pose proof (provisional_accountable (w_now (world s)) id _ Hs) as Hp. cbn [update_history] in *.
    do 2 (erewrite bind_run by reflexivity). cbn in Hp.
    apply revoke_each_narrows; [exact Hp|]. apply records_agree. apply Hp. }
  unfold mbind at 1, PM_bind at 1. destruct (if dry then _ else _) as [errors s'] eqn:E. cbn in Hm.
  by destruct (bool_decide _ && _).
Qed.

Lemma lookup_run_Some h id started c :
  lookup_run h id started = Some c -> c ∈ records h id /\ c.(started_at) = started.
Proof.
  intros E. apply List.find_some in E as [Hc Hs]. apply bool_decide_eq_true_1 in Hs.
  split; [by apply list_elem_of_In|done].
Qed.

Lemma revoke_ended_accountable id started s :
  accountable s -> accountable (revoke_ended id started s).2.
Proof.
  intros [Hw Hn]. unfold revoke_ended. erewrite bind_run by reflexivity. cbn [history].
  destruct (lookup_run (history s) id started) as [c|] eqn:El; [|done].
  destruct (has_identity c); [|done]. erewrite bind_run by reflexivity. cbn [history].
  apply lookup_run_Some in El as [Hc Es]. pose proof (records_id _ _ _ (proj1 Hw) Hc) as Eid.
  apply revoke_at_narrows.
  - split; cbn.
    + apply update_wf; [intros r; apply rewrites_terminal|done|done].
    + intros i Hi. eapply retained_named; [|by apply Hn]. intros r Hr _. apply update_retained; [apply keeps_terminal|done].
  - cbn. eapply agrees_sub; [by apply update_sub|]. eapply (agrees_self _ c); [done| |done|done]. by rewrite Eid.
Qed.

Lemma cgroup_gone_run i (s : PS) :
  exists r s', cgroup_gone i s = (r, s') /\ still s s' /\ (r = Ok true -> i ∉ exposed (events s')).
Proof.
  unfold cgroup_gone. erewrite bind_run by apply query_run.
  assert (forall r : result Z bool, exists s', (_ ← emit (Gone i); mret r : M _) (stepped s) = (r, s')
    /\ still s s' /\ i ∉ exposed (events s')) as Hgone.
  { intros r. eexists. split; [reflexivity|]. split.
    - split; [done|]. by apply exposed_quiet.
    - cbn [events stepped]. rewrite exposed_snoc. cbn. set_solver. }
  destruct (w_stat (V2.path i) (world s)) as [ino|errno].
  - destruct (ino =? V2.inode i); [by eexists _, (stepped s)|]. destruct (Hgone (Ok true)) as (s' & -> & H1 & H2). by eexists _, s'.
  - destruct (errno =? ENOENT); [|by eexists _, (stepped s)]. destruct (Hgone (Ok true)) as (s' & -> & H1 & H2). by eexists _, s'.
Qed.

Lemma sweep_record_narrows now dry c s :
  accountable s -> agrees (history s) c -> narrows s (sweep_record now dry c s).2.
Proof.
  intros Ha Hc. unfold sweep_record. destruct (cgroup c) as [cg|] eqn:Ecg.
  - destruct (cgroup_gone_run (rc_identity cg) s) as (r & s1 & E & Hs & Hr). rewrite (bind_run _ _ _ _ _ E).
    eapply narrows_trans; [by apply narrows_still|]. intros Ha1.
    assert (agrees (history s1) c) as Hc1 by by rewrite (proj1 Hs).
    destruct r as [[]|e]; [| |by apply narrows_still].
    + rewrite snd_bind_ret. apply release_record_narrows; [done..|]. intros i Hi. unfold record_identity in Hi.
      rewrite Ecg in Hi. injection Hi as <-. by apply Hr.
    + destruct (bool_decide _ && _ && _); [|by apply narrows_still]. rewrite snd_bind_ret. by apply revoke_at_narrows.
  - cbv zeta. destruct (bool_decide _ || _); [|by apply narrows_still]. rewrite snd_bind_ret.
    apply (release_narrows c); [done..| |done|done]. intros i Hi. unfold record_identity in Hi. by rewrite Ecg in Hi.
Qed.

Lemma sweep_loop_narrows now dry cs s :
  accountable s -> Forall (agrees (history s)) cs -> narrows s (sweep_loop now dry cs s).2.
Proof.
  revert s. induction cs as [|c cs IH]; intros s Ha Hcs; [by apply narrows_still|].
  apply Forall_cons in Hcs as [Hc Hcs]. cbn [sweep_loop].
  pose proof (sweep_record_narrows now dry c s Ha Hc) as Hn. destruct (sweep_record now dry c s) as [r s1] eqn:E1.
  cbn in Hn. rewrite (bind_run _ _ _ _ _ E1). eapply narrows_trans; [exact Hn|]. intros Ha1.
  assert (Forall (agrees (history s1)) cs) as Hcs1.
  { eapply Forall_impl; [exact Hcs|]. intros c' Hc'. eapply agrees_sub; [apply Hn|done]. }
  specialize (IH s1 Ha1 Hcs1). unfold mbind, PM_bind. destruct (sweep_loop now dry cs s1). exact IH.
Qed.

Lemma all_records_agree h : history_wf h -> Forall (agrees h) (all_records h).
Proof.
  intros Hh. apply Forall_forall. intros c Hc. unfold all_records in Hc. apply list_elem_of_bind in Hc as (key & Hc & _).
  pose proof (records_agree h key Hh) as Ha. rewrite Forall_forall in Ha. by apply Ha.
Qed.

Lemma sweep_accountable s : accountable s -> accountable (sweep_locked s).2.
Proof.
  intros Ha. unfold sweep_locked. erewrite bind_run by apply query_run. rewrite load_bind.
  erewrite bind_run by reflexivity. apply sweep_loop_narrows; [done|]. apply all_records_agree, Ha.
Qed.

(** ** Applying *)

Lemma revoke_moved_run c previous (s : PS) :
  exists r s', revoke_moved c previous s = (r, s') /\ still s s'
    /\ (r = Ok tt -> rc_identity previous ∉ exposed (events s')).
Proof.
  unfold revoke_moved. destruct (open_recorded_run c (rc_identity previous) s) as (r & s1 & E & Hs & Hr).
  rewrite (try_run _ _ _ _ _ E). destruct r as [[h|why]|e]; [| |by eexists _, s1].
  - destruct (set_empty_run (rc_version previous) h s1) as (r2 & s2 & E2 & Hs2 & Hc2).
    assert (still s s2) as Hs12 by by etrans. rewrite Hr in Hc2.
    destruct (cleared r2) eqn:Ec.
    + eexists (Ok tt), _. split.
      { unfold try. rewrite (bind_run _ _ _ (Ok tt) s2); [reflexivity|]. rewrite (bind_run _ _ _ _ _ E2).
        destruct r2 as [u|e]; cbn in Ec; [done|]. by rewrite Ec. }
      split; [exact Hs12|intros _; exact (Hc2 eq_refl)].
    + destruct r2 as [u|e]; [done|]. cbn in Ec. eexists (Err _), s2. split; [|by split].
      unfold try. erewrite bind_run; [|rewrite (bind_run _ _ _ _ _ E2); rewrite Ec; reflexivity]. done.
  - eexists (Ok tt), _. split; [reflexivity|]. by split.
Qed.

Lemma leave_previous_safe id state p h (s : PS) :
  exists r s', leave_previous id state p h s = (r, s') /\ still s s'
    /\ (r = Ok tt -> forall c i, lookup_run (history s) id (state_started_at state) = Some c ->
        record_identity c = Some i -> i = identity h \/ i ∉ exposed (events s')).
Proof.
  unfold leave_previous. erewrite bind_run by reflexivity. cbn [history].
  destruct (lookup_run (history s) id (state_started_at state)) as [c|]; [|by eexists _, _].
  destruct (cgroup c) as [previous|] eqn:Ec.
  2: { eexists _, _. split; [reflexivity|]. split; [done|]. intros _ c' i [= <-] Hi. unfold record_identity in Hi. by rewrite Ec in Hi. }
  assert (forall i, record_identity c = Some i -> i = rc_identity previous) as Hi.
  { intros i Hi. unfold record_identity in Hi. rewrite Ec in Hi. by injection Hi as <-. }
  case_bool_decide as Hid.
  { eexists _, _. split; [reflexivity|]. split; [done|]. intros _ c' i [= <-] Hci. left. by rewrite (Hi i Hci). }
  match goal with |- context [try (revoke_moved c previous) _ ?s1] =>
    destruct (revoke_moved_run c previous s1) as (r & s2 & E & Hs & Hr) end.
  rewrite (try_run _ _ _ _ _ E). destruct r as [[]|e].
  - pose proof (verify_pinned_still id state p h true s2) as Hv. destruct (verify_pinned id state p h true s2) as [r3 s3].
    cbn in Hv. exists r3, s3. split; [done|]. split; [etrans; [exact Hs|exact Hv]|].
    intros _ c' i [= <-] Hci. right. rewrite (Hi i Hci). specialize (Hr eq_refl). destruct Hv as [_ Hv]. set_solver.
  - eexists _, s2. split; [reflexivity|]. split; [exact Hs|done].
Qed.

(** Recording a verified run keeps its cgroup, and names it. *)
Lemma verify_records now id started cg h :
  exists r, r ∈ records (verify now id started cg h) id /\ cgroup r = Some cg.
Proof.
  unfold verify. destruct (match position _ _ with Some i => Some i | None => _ end) as [i|] eqn:Ep.
  - assert (exists x, records h id !! i = Some x) as [x Hx].
    { destruct (position (started_is started) (records h id)) as [j|] eqn:Ej.
      - injection Ep as <-. apply position_found in Ej as (x & Hx & _). by exists x.
      - apply position_found in Ep as (x & Hx & _). by exists x. }
    exists (upgrade started cg x). split; [|apply (upgrade_key started cg x)].
    unfold records at 1. rewrite lookup_insert_eq. cbn. apply list_elem_of_lookup. exists i.
    by rewrite list_lookup_alter_eq, Hx.
  - eexists {| container_id := id; started_at := started; cgroup := Some cg; state := Verified; first_seen := now;
       observed := TIMESTAMP_MIN; revoked := false |}. split; [|done].
    unfold append, records at 1. cbn [container_id]. rewrite lookup_insert_eq. cbn [default].
    set (rs := records h id ++ _). destruct (trim_records_spec (length rs) rs) as (_ & H & _); [done|].
    apply H; [|done]. subst rs. apply elem_of_app. right. by apply list_elem_of_singleton.
Qed.

Lemma verify_names now id started cg h :
  history_wf h -> named (verify now id started cg h) (rc_identity cg).
Proof.
  intros [Hok _]. destruct (verify_records now id started cg h) as (r & Hr & Hc).
  exists r. rewrite (records_id _ _ _ (verify_ok now id started cg h Hok) Hr). split; [done|].
  unfold record_identity. by rewrite Hc.
Qed.

Lemma verify_accountable now id started cg s :
  started <> "" -> accountable s ->
  (forall c i, lookup_run (history s) id started = Some c -> record_identity c = Some i ->
     i = rc_identity cg \/ i ∉ exposed (events s)) ->
  accountable (update_history (verify now id started cg) s).2.
Proof.
  intros Hst [Hw Hn] Hprev. split; cbn; [by apply verify_wf|]. intros i Hi.
  destruct (decide (i = rc_identity cg)) as [->|Hne]; [by apply verify_names|].
  eapply retained_named; [|by apply Hn]. intros r Hr Hri. pose proof (identity_has _ _ Hri) as Hid.
  apply verify_retained; [apply Hw|done|done|]. cbn. apply negb_true_iff, not_true_iff_false.
  intros [->%bool_decide_eq_true_1 Es%bool_decide_eq_true_1]%andb_true_iff.
  destruct (lookup_run (history s) (container_id r) started) as [c|] eqn:El.
  2: { apply list_elem_of_In in Hr. apply (List.find_none _ _ El r), bool_decide_eq_false_1 in Hr. congruence. }
  pose proof (lookup_run_Some _ _ _ _ El) as [Hc Ecs]. pose proof (records_runs _ (container_id r) Hw) as Hruns.
  assert (has_identity c = true) as Hci.
  { destruct Hruns as [_ Hs]. rewrite Forall_forall in Hs. apply (Hs c Hc). congruence. }
  assert (c = r) as -> by (apply (runs_unique _ _ _ Hruns); congruence).
  by destruct (Hprev r i eq_refl Hri).
Qed.

Lemma set_rules_accountable v h rules s :
  accountable s -> named (history s) (identity h) -> accountable (set_rules v h rules s).2.
Proof.
  intros [Hw Hn] Hh. destruct (set_rules_run v h rules s) as (r & s' & -> & Eh & Ee). cbn [snd].
  split; rewrite Eh; [done|]. intros i Hi. rewrite Ee, exposed_snoc in Hi. cbn in Hi.
  assert (i = identity h \/ i ∈ exposed (events s)) as [->|?]; [|done|by apply Hn].
  destruct rules; [destruct r as [u|e]; [|destruct (is_filter_missing e)]|]; set_solver.
Qed.

Lemma still_done s s' : accountable s -> still s s' -> accountable s'.
Proof. intros Ha Hs. by eapply still_accountable. Qed.

Lemma apply_pinned_accountable id state priv rules s :
  state_started_at state <> "" -> accountable s ->
  accountable (apply_pinned host_root proc_root id state priv rules s).2.
Proof.
  intros Hst Ha. unfold apply_pinned. erewrite bind_run by apply query_run.
  destruct (pin (pid state)) as [process|e]; [|exact Ha]. erewrite bind_run by apply query_run. cbv zeta.
  destruct (read_proc_cgroup proc_root (pid state)) as [resolved|e]; [|exact Ha].
  unfold open_cgroup. erewrite bind_run by apply query_run.
  destruct (handle_open _) as [h|e]; [|exact Ha].
  assert (accountable (stepped (stepped (stepped s)))) as Ha3 by exact Ha. revert Ha3.
  generalize (stepped (stepped (stepped s))). clear s Ha. intros s Ha.
  pose proof (verify_pinned_still id state process h (non_empty rules) s) as Hv.
  destruct (verify_pinned id state process h (non_empty rules) s) as [r1 s1] eqn:E1. cbn in Hv.
  rewrite (try_run _ _ _ _ _ E1). pose proof (still_done _ _ Ha Hv) as Ha1. destruct r1 as [[]|e]; [|exact Ha1].
  destruct (leave_previous_safe id state process h s1) as (r2 & s2 & E2 & Hs2 & Hprev).
  rewrite (try_run _ _ _ _ _ E2). pose proof (still_done _ _ Ha1 Hs2) as Ha2. destruct r2 as [[]|e]; [|exact Ha2].
  erewrite bind_run by apply query_run.
  set (cg := {| rc_identity := identity h; rc_version := version resolved; privileged := priv |}).
  assert (accountable (update_history (verify (w_now (world s2)) id (state_started_at state) cg) (stepped s2)).2) as Ha4.
  { apply verify_accountable; [done|exact Ha2|]. cbn [history events stepped]. rewrite (proj1 Hs2). by apply Hprev. }
  erewrite bind_run by reflexivity. rewrite snd_bind_map.
  apply set_rules_accountable; [exact Ha4|]. apply (verify_names _ _ _ cg). apply Ha2.
Qed.

Lemma compute_bind {A} id info config (k : Desired -> M A) s :
  exists d s', (compute_desired id info config ≫= k) s = k d s' /\ still s s'.
Proof.
  pose proof (compute_desired_still id info config s) as H.
  destruct (compute_desired id info config s) as [d s'] eqn:E. exists d, s'. split; [|exact H].
  by rewrite (bind_run _ _ _ _ _ E).
Qed.

(** A running container has a start time. *)
Definition has_start (t : Transaction) : Prop :=
  match t with
  | TReconcile _ (Ok info) =>
      match info.(inspect_state) with
      | Some state => state.(running) = true -> state.(state_started_at) <> ""
      | None => True
      end
  | _ => True
  end.

Lemma reconcile_accountable id inspected s :
  has_start (TReconcile id inspected) -> accountable s ->
  accountable (reconcile_locked host_root proc_root id inspected s).2.
Proof.
  intros Hst Ha. unfold reconcile_locked. rewrite load_bind. destruct inspected as [info|e].
  - cbn in Hst. destruct (inspect_state info) as [state|].
    2: { destruct (dry_run _); [done|by apply revoke_ended_accountable]. }
    destruct (running state); cbn [andb]; [destruct (negb (pid state =? 0))|].
    2,3: destruct (dry_run _); [done|by apply revoke_ended_accountable].
    match goal with |- context [(compute_desired id info _ ≫= ?k) s] =>
      destruct (compute_bind id info (runtime (store s)) k s) as (d & s1 & -> & Hs1) end.
    pose proof (still_done _ _ Ha Hs1) as Ha1. cbv beta.
    destruct (dry_run _); [exact Ha1|]. cbv zeta. rewrite snd_bind_map.
    apply apply_pinned_accountable; [by apply Hst|exact Ha1].
  - erewrite bind_run by apply query_run. destruct (w_canceled (world s)); [exact Ha|].
    by apply revoke_after_accountable.
Qed.

Lemma transaction_accountable t s :
  has_start t -> accountable s -> accountable (run_transaction host_root proc_root t s).2.
Proof.
  intros Hst Ha. destruct t as [id inspected|id t| |r]; cbn [run_transaction]; rewrite run_snd.
  - by apply reconcile_accountable.
  - by apply terminate_accountable.
  - by apply sweep_accountable.
  - exact Ha.
Qed.

(** The processor as it starts. *)
Definition initial (w : W) (config : Runtime) : PS :=
  {| world := w; store := new_store config; history := ∅; p_ledger := ∅; p_cache := ∅; events := [] |}.

Lemma initial_accountable w config : accountable (initial w config).
Proof.
  split; [split; apply map_Forall_empty|]. intros i Hi. by apply elem_of_empty in Hi.
Qed.

Lemma transactions_accountable ts s :
  Forall has_start ts -> accountable s -> accountable (run_transactions host_root proc_root ts s).
Proof.
  revert s. induction ts as [|t ts IH]; intros s Hts Ha; [done|]. apply Forall_cons in Hts as [Ht Hts].
  cbn [run_transactions]. apply IH; [done|]. by apply transaction_accountable.
Qed.

(** C8. Whatever transactions the processor runs, in whatever order, and whatever
    Docker, the kernel and the controllers answer, a cgroup that may hold grants is
    named by a record of the history: grants on it were attempted, and since then
    the empty set has not succeeded there, its filter was not found missing, and it
    was not seen gone. So the grants of a run that ended, moved to another cgroup or
    is unknown to Docker can still be found and revoked. Docker is taken to report a
    start time for a running container. *)
Theorem grants_stay_accountable ts w config i :
  Forall has_start ts ->
  let s := run_transactions host_root proc_root ts (initial w config) in
  i ∈ exposed (events s) -> named (history s) i.
Proof.
  intros Hts s. apply (transactions_accountable ts (initial w config) Hts (initial_accountable w config)).
Qed.

End processor.

(** ** An example *)

Module ProcessorExample.

#[local] Existing Instance PolicyProofs.PolicyExample.literal_crate.
#[local] Existing Instance LifecycleExample.demo_jiff.

#[local] Instance demo_dirs : DirSys string := {|
  open_dir := fun path => Ok path;
  fstat_ino := fun _ => Ok 77;
  open_procs := fun fd => Ok fd;
  read_to_end := fun _ => Ok (unlines ["7"]);
|}.

#[local] Instance demo_procs : ProcSys Z string := {|
  pidfd_open := fun pid => Ok pid;
  pidfd_poll := fun _ => Ok 0;
  open_proc_dir := fun path => Ok path;
  open_proc_file := fun _ name => Ok name;
  read_proc_file := fun name =>
    Ok (if bool_decide (name = "cgroup") then unlines ["0::/docker-a.scope"]
        else unlines ["29 23 0:26 / /sys/fs/cgroup rw - cgroup2 cgroup2 rw"]);
|}.

(** Container [a] runs as pid 7, opted in, with the card of [/dev/dri] mounted. *)
Definition state_a : ContainerState := {| running := true; pid := 7; state_started_at := "t10" |}.

Definition info_a : ContainerInspect :=
  {| inspect_id := "a"; inspect_state := Some state_a; inspect_labels := Some {[ LABEL_ENABLE := "true" ]};
     inspect_privileged := None; inspect_mounts := RulesProofs.RulesExample.mounts |}.

#[local] Instance demo_world : World unit string Z string (string * NodeKind) := {|
  w_inspect := fun _ w => (Ok info_a, w);
  w_canceled := fun _ => false;
  w_now := fun _ => 100;
  w_dirs := fun _ => demo_dirs;
  w_procs := fun _ => demo_procs;
  w_dev := fun _ => Ok RulesProofs.RulesExample.scripted;
  w_stat := fun _ _ => Ok 77;
  w_step := id;
|}.

#[local] Instance demo_controllers : Controllers unit string := {|
  set_device_rules := fun _ _ _ s => (Ok tt, s);
|}.

Definition config (dry : bool) : Runtime :=
  {| dry_run := dry; policy := {| mode := OptIn; g_device_allow := None; g_device_deny := Some ["/dev/mem"] |} |}.

Definition cgroup_a : Identity := {| V2.path := "/host/sys/fs/cgroup/docker-a.scope"; V2.inode := 77 |}.

Definition start_a : list Transaction := [TReconcile "a" (Ok info_a)].

(** The reconcile checks the run and sets the card's rule. *)
Example reconcile_example :
  events (run_transactions "/host" "/" start_a (initial tt (config false)))
  = [Inspected "a" (Some state_a); Alive 7; Member cgroup_a 7;
     SetOn cgroup_a [device_rule RulesProofs.RulesExample.gpu] (Ok tt)].
Proof. vm_compute. reflexivity. Qed.

(** The run ends: its grants are revoked, and the cgroup is no longer exposed. *)
Example terminate_example :
  exposed (events (run_transactions "/host" "/" (start_a ++ [TTerminate "a" 50]) (initial tt (config false)))) = ∅.
Proof. vm_compute. reflexivity. Qed.

Lemma grants_stay_accountable_witness :
  named (history (run_transactions "/host" "/" start_a (initial tt (config false)))) cgroup_a.
Proof.
  apply (grants_stay_accountable "/host" "/" start_a tt (config false) cgroup_a).
  - by repeat constructor.
  - apply (bool_decide_unpack _). vm_compute. exact I.
Defined.

Lemma dry_run_sets_nothing_witness :
  filter (fun e => is_set e = true)
    (events (run_transaction "/host" "/" (TReconcile "a" (Ok info_a)) (initial tt (config true))).2) = [].
Proof. exact (dry_run_sets_nothing "/host" "/" (TReconcile "a" (Ok info_a)) (initial tt (config true)) eq_refl). Defined.

(** The run was recorded in another cgroup, where the controller now refuses the attach
    mode: the reconcile ends well, though that cgroup is still exposed and the one the
    container is in was not looked at. *)
Definition cgroup_old : Identity := {| V2.path := "/host/sys/fs/cgroup/old.scope"; V2.inode := 77 |}.

Definition refusing_controllers : Controllers unit string := {|
  set_device_rules := fun _ h _ s =>
    (if bool_decide (identity h = cgroup_old) then Err (UnsupportedAttachMode 0) else Ok tt, s);
|}.

Definition moved : PState :=
  {| world := tt; store := new_store (config false);
     history := verify 50 "a" "t10" {| rc_identity := cgroup_old; rc_version := CgroupV2; privileged := false |} ∅;
     p_ledger := ∅; p_cache := ∅; events := [] |}.

Example moved_run_skipped :
  let '(r, s) := reconcile_locked (controllers := refusing_controllers) "/host" "/" "a" (Ok info_a) moved in
  r = Ok tt /\ filter (fun e => is_set e = true) (events s) = [SetOn cgroup_old [] (Err (UnsupportedAttachMode 0))].
Proof. vm_compute. split; reflexivity. Qed.

End ProcessorExample.
