(* ===== verification/Coordinator.v ===== *)
(** * The coordinator of reconciliation passes

    src/daemon/coordinator.rs: the state behind the coordinator's lock and every
    operation on it, then the tasks that call them: the loop of [run], the holds
    of reserved containers, and the callers that handle events.

    Each critical section of the lock is one function, and one step of the
    transition system at the end of the file runs at most one of them, so that
    the tasks interleave as the lock lets them. What the outside decides is in
    the label of a step: clock readings, the list of containers, the outcome of
    a reconcile, the arrival of requests and events, the cancellation.

    The error type of the reconciler and its classifier are the class
    [Reconciler]; times are nanoseconds, wall clock and monotonic alike. The
    fields of [Config] below [requesters] are history variables: no step reads
    them. *)

From stdpp Require Import sorting.
From S2P Require Import Prelude.

(** [MIN_BACKOFF] and [MAX_BACKOFF] of src/daemon/mod.rs. *)
Definition SECOND : Z := 1000000000.
Definition MIN_BACKOFF : Z := 1 * SECOND.
Definition MAX_BACKOFF : Z := 30 * SECOND.
Definition PROCESSED_TTL : Z := 60 * SECOND.

Definition ACTION_DIE : string := "die".
Definition ACTION_DESTROY : string := "destroy".

Class Reconciler := {
  RError : Type;
  is_gone : RError -> bool;
}.

(** [Timestamp::from_nanosecond] of the jiff crate. *)
Class JiffNano := {
  from_nanosecond : Z -> option Z;
}.

(** ** Data *)

Record PassKey := { generation : Z; epoch : Z }.

#[global] Instance PassKey_eq_dec : EqDecision PassKey.
Proof. solve_decision. Defined.

Definition default_key : PassKey := {| generation := 0; epoch := 0 |}.

Record PendingEntry := { pe_key : PassKey; pe_backoff : Z; pe_due : Z }.

Record Inspected := { insp_at : Z; insp_monotonic : Z }.

Inductive PassOutcome := Done | ListFailed | Superseded.

Record Reservation := {
  apply_start : option Z;
  running : bool;
  queued_reconcile : bool;
  queued_terminate : option Z;
}.

Record State := {
  latest : PassKey;
  dirty : bool;
  incomplete : bool;
  announced : PassKey;
  pending : gmap string PendingEntry;
  processed : gmap string Inspected;
  in_flight : gmap string Reservation;
}.

Definition default_state : State :=
  {| latest := default_key; dirty := false; incomplete := false; announced := default_key;
     pending := ∅; processed := ∅; in_flight := ∅ |}.

Definition set_dirty (b : bool) (s : State) : State :=
  {| latest := latest s; dirty := b; incomplete := incomplete s; announced := announced s;
     pending := pending s; processed := processed s; in_flight := in_flight s |}.
Definition set_incomplete (b : bool) (s : State) : State :=
  {| latest := latest s; dirty := dirty s; incomplete := b; announced := announced s;
     pending := pending s; processed := processed s; in_flight := in_flight s |}.
Definition set_announced (k : PassKey) (s : State) : State :=
  {| latest := latest s; dirty := dirty s; incomplete := incomplete s; announced := k;
     pending := pending s; processed := processed s; in_flight := in_flight s |}.
Definition set_pending (p : gmap string PendingEntry) (s : State) : State :=
  {| latest := latest s; dirty := dirty s; incomplete := incomplete s; announced := announced s;
     pending := p; processed := processed s; in_flight := in_flight s |}.
Definition set_processed (p : gmap string Inspected) (s : State) : State :=
  {| latest := latest s; dirty := dirty s; incomplete := incomplete s; announced := announced s;
     pending := pending s; processed := p; in_flight := in_flight s |}.
Definition set_in_flight (f : gmap string Reservation) (s : State) : State :=
  {| latest := latest s; dirty := dirty s; incomplete := incomplete s; announced := announced s;
     pending := pending s; processed := processed s; in_flight := f |}.

(** [Coordinator]: the locked state, the permit of the [wake] notification, the
    [first_pass] token and the two gauges of the metrics it maintains. *)
Record Coordinator := {
  state : State;
  wake : bool;
  first_pass : bool;
  gauge_incomplete : bool;
  gauge_pending : Z;
}.

Definition new_coordinator : Coordinator :=
  {| state := default_state; wake := false; first_pass := false; gauge_incomplete := false;
     gauge_pending := 0 |}.

(** An operation that only changes the locked state. *)
Definition on_state (f : State -> State) (c : Coordinator) : Coordinator :=
  {| state := f (state c); wake := wake c; first_pass := first_pass c;
     gauge_incomplete := gauge_incomplete c; gauge_pending := gauge_pending c |}.

(** [self.wake.notify_one()], the permit taken by [notified()], and
    [mark_first_pass_ended]. *)
Definition set_wake (b : bool) (c : Coordinator) : Coordinator :=
  {| state := state c; wake := b; first_pass := first_pass c;
     gauge_incomplete := gauge_incomplete c; gauge_pending := gauge_pending c |}.
Definition notify_one (c : Coordinator) : Coordinator := set_wake true c.
Definition mark_first_pass_ended (c : Coordinator) : Coordinator :=
  {| state := state c; wake := wake c; first_pass := true;
     gauge_incomplete := gauge_incomplete c; gauge_pending := gauge_pending c |}.
Definition set_reload_incomplete (b : bool) (c : Coordinator) : Coordinator :=
  {| state := state c; wake := wake c; first_pass := first_pass c;
     gauge_incomplete := b; gauge_pending := gauge_pending c |}.
Definition set_pending_containers (n : Z) (c : Coordinator) : Coordinator :=
  {| state := state c; wake := wake c; first_pass := first_pass c;
     gauge_incomplete := gauge_incomplete c; gauge_pending := n |}.

(** ** Requests *)

Definition retag (k : PassKey) (e : PendingEntry) : PendingEntry :=
  {| pe_key := k; pe_backoff := pe_backoff e; pe_due := pe_due e |}.

Definition request_state (gen : Z) (s : State) : State :=
  let k := {| generation := Z.max (generation (latest s)) gen;
              epoch := wrapu 64 (epoch (latest s) + 1) |} in
  {| latest := k; dirty := true; incomplete := true; announced := announced s;
     pending := retag k <$> pending s; processed := processed s; in_flight := in_flight s |}.

(** [request] up to the end of its critical section; [notify_one] follows. *)
Definition request (gen : Z) (c : Coordinator) : Coordinator :=
  set_reload_incomplete true (on_state (request_state gen) c).

Definition request_reenumeration (c : Coordinator) : Coordinator := request 0 c.

Definition take_request (s : State) : option PassKey * State :=
  if dirty s then (Some (latest s), set_dirty false s) else (None, s).

Definition redo (s : State) : State := set_dirty true s.

Definition superseded (key : PassKey) (s : State) : bool := negb (bool_decide (latest s = key)).

Definition current (s : State) : PassKey := latest s.

(** ** Completion *)

Definition busy (r : Reservation) : bool := queued_reconcile r || running r.

Definition announce_locked (s : State) : State :=
  if incomplete s || negb (bool_decide (pending s = ∅)) || bool_decide (announced s = latest s)
  then s
  else if existsb (fun held : string * Reservation => busy held.2) (map_to_list (in_flight s))
  then s
  else set_announced (latest s) s.

Definition report_locked (s : State) : State :=
  if incomplete s || negb (bool_decide (pending s = ∅)) then s else announce_locked s.

Definition warn_incomplete (s : State) : State := report_locked s.

Definition finish_pass (key : PassKey) (c : Coordinator) : Coordinator :=
  on_state report_locked
    (if bool_decide (key = latest (state c))
     then set_reload_incomplete false (on_state (set_incomplete false) c) else c).

(** ** Reservations *)

Definition option_newer (t : Z) (queued : option Z) : bool :=
  match queued with None => true | Some q => bool_decide (q < t) end.

Definition set_queued_terminate (t : Z) (r : Reservation) : Reservation :=
  {| apply_start := apply_start r; running := running r;
     queued_reconcile := queued_reconcile r; queued_terminate := Some t |}.
Definition set_queued_reconcile (r : Reservation) : Reservation :=
  {| apply_start := apply_start r; running := running r;
     queued_reconcile := true; queued_terminate := queued_terminate r |}.

Definition new_reservation (now : Z) (terminal : bool) : Reservation :=
  {| apply_start := if terminal then None else Some now; running := negb terminal;
     queued_reconcile := false; queued_terminate := None |}.

(** What a request leaves with the holder of the container. *)
Definition leave_to_holder (event_time : option Z) (terminal : bool) (held : Reservation)
    : Reservation :=
  if terminal then
    match event_time with
    | Some t => if option_newer t (queued_terminate held) then set_queued_terminate t held else held
    | None => held
    end
  else
    match event_time, apply_start held with
    | Some t, Some start => if bool_decide (start < t) then set_queued_reconcile held else held
    | _, _ => set_queued_reconcile held
    end.

Definition reserve (now : Z) (id : string) (event_time : option Z) (terminal : bool) (s : State)
    : bool * State :=
  match in_flight s !! id with
  | None => (true, set_in_flight (<[id := new_reservation now terminal]> (in_flight s)) s)
  | Some held =>
      (false, set_in_flight (<[id := leave_to_holder event_time terminal held]> (in_flight s)) s)
  end.

Definition next (now : Z) (id : string) (c : Coordinator) : (bool * option Z) * Coordinator :=
  match in_flight (state c) !! id with
  | None => ((false, None), c)
  | Some held =>
      if queued_reconcile held || bool_decide (is_Some (queued_terminate held)) then
        let r := {| apply_start := if queued_reconcile held then Some now else None;
                    running := queued_reconcile held; queued_reconcile := false;
                    queued_terminate := None |} in
        ((queued_reconcile held, queued_terminate held),
         on_state (fun s => set_in_flight (<[id := r]> (in_flight s)) s) c)
      else
        let c1 := on_state (fun s => set_in_flight (delete id (in_flight s)) s) c in
        let c2 := if bool_decide (is_Some (pending (state c1) !! id)) then notify_one c1 else c1 in
        ((false, None), on_state announce_locked c2)
  end.

Section reconciler.
Context {reconciler : Reconciler}.

Definition settled (error : option RError) : bool :=
  match error with None => true | Some e => is_gone e end.

Definition settle_pending (now : Z) (id : string) (key k : PassKey) (error : option RError)
    (p : gmap string PendingEntry) : gmap string PendingEntry :=
  match p !! id with
  | Some entry =>
      if settled error then
        if bool_decide (pe_key entry = key) then delete id p
        else <[id := {| pe_key := pe_key entry; pe_backoff := pe_backoff entry; pe_due := now |}]> p
      else
        let backoff := Z.min (pe_backoff entry * 2) MAX_BACKOFF in
        <[id := {| pe_key := pe_key entry; pe_backoff := backoff; pe_due := now + backoff |}]> p
  | None =>
      if settled error then p
      else <[id := {| pe_key := k; pe_backoff := MIN_BACKOFF; pe_due := now + MIN_BACKOFF |}]> p
  end.

Definition settle (now : Z) (id : string) (key : PassKey) (error : option RError) (c : Coordinator)
    : Coordinator :=
  let p := settle_pending now id key (latest (state c)) error (pending (state c)) in
  set_pending_containers (Z.of_nat (size p)) (on_state (set_pending p) c).

End reconciler.

(** ** Retries *)

Definition min_due (a b : option Z) : option Z :=
  match a, b with Some x, Some y => Some (Z.min x y) | None, o => o | o, None => o end.

Definition free_pending (s : State) : gmap string PendingEntry :=
  filter (fun kv : string * PendingEntry => in_flight s !! kv.1 = None) (pending s).

Definition next_due (s : State) : option Z :=
  foldr (fun kv : string * PendingEntry => min_due (Some (pe_due kv.2))) None
    (map_to_list (free_pending s)).

Definition due_ids (now : Z) (s : State) : list string :=
  merge_sort String.le
    (map_to_list (filter (fun kv : string * PendingEntry => pe_due kv.2 <= now) (free_pending s))).*1.

(** ** Start events an enumeration covered *)

Definition expired (now : Z) (i : Inspected) : bool :=
  bool_decide (PROCESSED_TTL < Z.max 0 (now - insp_monotonic i)).

Definition mark_processed (id : string) (i : Inspected) (s : State) : State :=
  set_processed (<[id := i]> (processed s)) s.

Definition skip_event (now : Z) (id : string) (event_time : Z) (s : State) : bool * State :=
  match processed s !! id with
  | None => (false, s)
  | Some i =>
      (if expired now i then false else bool_decide (event_time <= insp_at i),
       set_processed (delete id (processed s)) s)
  end.

Definition arm_prune (now : Z) (armed : option Z) (s : State) : option Z :=
  match armed with
  | Some d => Some d
  | None => if bool_decide (processed s = ∅) then None else Some (now + PROCESSED_TTL)
  end.

Definition prune_processed (now : Z) (s : State) : State :=
  set_processed (filter (fun kv : string * Inspected => expired now kv.2 = false) (processed s)) s.

Section events.
Context {jiff : JiffNano}.

Definition event_time (time_nano : Z) : Z := default 0 (from_nanosecond time_nano).

End events.

(** The fields of [Event] the coordinator reads. *)
Record Event := { ev_action : string; ev_actor : string; ev_time_nano : Z }.

(** ** The tasks *)

(** The loop of [run] and the calls it makes, by what it does next. [Listing],
    [Passing], [Reserving] and [Visiting] are inside [pass]: waiting for the
    list, about to look at the next container, about to reserve it, and waiting
    for the hold of it. [Arming] and [Pruning] are about to read the next retry
    and the prune deadline. [Due], [Retrying] and [RetryAwait] are inside
    [retry_due]. *)
Inductive Runner :=
  | Top
  | Arming
  | Pruning (retry : option Z)
  | Listing (key : PassKey)
  | Passing (key : PassKey) (rest : list string)
  | Reserving (key : PassKey) (id : string) (rest : list string)
  | Visiting (key : PassKey) (rest : list string)
  | Selecting (retry : option Z)
  | Due
  | Retrying (ids : list string)
  | RetryAwait (ids : list string)
  | Returned.

(** The local variables of [run]. *)
Record RunVars := { list_backoff : Z; list_retry : option Z; prune : option Z }.

Definition initial_vars : RunVars :=
  {| list_backoff := MIN_BACKOFF; list_retry := None; prune := None |}.

(** What [run] does with the outcome of a pass. *)
Definition after_pass (now : Z) (outcome : PassOutcome) (v : RunVars) : RunVars :=
  match outcome with
  | ListFailed => {| list_backoff := Z.min (list_backoff v * 2) MAX_BACKOFF;
                     list_retry := Some (now + list_backoff v); prune := prune v |}
  | Done => {| list_backoff := MIN_BACKOFF; list_retry := None; prune := prune v |}
  | Superseded => v
  end.

(** [Work], without the text of its log line. *)
Record Work := { w_reconcile : bool; w_terminate_at : option Z; w_enumerated : bool }.

(** Who awaits a hold: the loop of [run], an event that reconciles, or an event
    that ends a run. *)
Inductive Owner := ByRun | ByEvent | ByEnd.

Inductive Phase :=
  | Starting
  | Processing (key : PassKey) (started : Inspected)
  | Marking (started : Inspected)
  | Ending.

Section tasks.
Context {reconciler : Reconciler} {jiff : JiffNano}.

(** The locals of [hold] and where it is in its loop. *)
Record Hold := {
  h_container : string;
  h_phase : Phase;
  h_reconcile : bool;
  h_terminate : option Z;
  h_enumerated : bool;
  h_owner : Owner;
  h_error : option RError;
}.

Definition new_hold (id : string) (w : Work) (owner : Owner) : Hold :=
  {| h_container := id; h_phase := Starting; h_reconcile := w_reconcile w;
     h_terminate := w_terminate_at w; h_enumerated := w_enumerated w; h_owner := owner;
     h_error := None |}.

Definition set_phase (p : Phase) (h : Hold) : Hold :=
  {| h_container := h_container h; h_phase := p; h_reconcile := h_reconcile h;
     h_terminate := h_terminate h; h_enumerated := h_enumerated h; h_owner := h_owner h;
     h_error := h_error h |}.

Definition set_error (e : option RError) (h : Hold) : Hold :=
  {| h_container := h_container h; h_phase := h_phase h; h_reconcile := h_reconcile h;
     h_terminate := h_terminate h; h_enumerated := h_enumerated h; h_owner := h_owner h;
     h_error := e |}.

Definition again (work : bool * option Z) (h : Hold) : Hold :=
  {| h_container := h_container h; h_phase := Starting; h_reconcile := work.1;
     h_terminate := work.2; h_enumerated := h_enumerated h; h_owner := h_owner h;
     h_error := h_error h |}.

(** The whole daemon side: [callers] are the event handlers between
    [skip_event] and [reserve], [notices] those whose hold ended with an error
    and who have not woken the loop yet, [requesters] the requests that have not
    woken it yet. *)
Record Config := {
  co : Coordinator;
  cancelled : bool;
  runner : Runner;
  vars : RunVars;
  callers : list (string * Z);
  holds : gmap nat Hold;
  tickets : nat;
  notices : nat;
  requesters : nat;
  (* history: the number of requests; the last list, the request it was for and
     the containers the pass went on to; the last settled reconcile of each
     container, by the request it began under and whether it settled *)
  requests : Z;
  pass_key : PassKey;
  listed : list string;
  visited : gset string;
  outcome : gmap string (PassKey * bool);
}.

Definition initial : Config :=
  {| co := new_coordinator; cancelled := false; runner := Top; vars := initial_vars;
     callers := []; holds := ∅; tickets := 0; notices := 0; requesters := 0; requests := 0;
     pass_key := default_key; listed := []; visited := ∅; outcome := ∅ |}.

Definition with_co (c : Coordinator) (g : Config) : Config :=
  {| co := c; cancelled := cancelled g; runner := runner g; vars := vars g;
     callers := callers g; holds := holds g; tickets := tickets g; notices := notices g;
     requesters := requesters g; requests := requests g; pass_key := pass_key g;
     listed := listed g; visited := visited g;
     outcome := outcome g |}.
Definition with_state (s : State) (g : Config) : Config := with_co (on_state (fun _ => s) (co g)) g.
Definition with_run (r : Runner) (v : RunVars) (g : Config) : Config :=
  {| co := co g; cancelled := cancelled g; runner := r; vars := v;
     callers := callers g; holds := holds g; tickets := tickets g; notices := notices g;
     requesters := requesters g; requests := requests g; pass_key := pass_key g;
     listed := listed g; visited := visited g;
     outcome := outcome g |}.
Definition with_runner (r : Runner) (g : Config) : Config := with_run r (vars g) g.
Definition with_callers (l : list (string * Z)) (n : nat) (g : Config) : Config :=
  {| co := co g; cancelled := cancelled g; runner := runner g; vars := vars g;
     callers := l; holds := holds g; tickets := tickets g; notices := n;
     requesters := requesters g; requests := requests g; pass_key := pass_key g;
     listed := listed g; visited := visited g;
     outcome := outcome g |}.
Definition with_holds (m : gmap nat Hold) (n : nat) (g : Config) : Config :=
  {| co := co g; cancelled := cancelled g; runner := runner g; vars := vars g;
     callers := callers g; holds := m; tickets := n; notices := notices g;
     requesters := requesters g; requests := requests g; pass_key := pass_key g;
     listed := listed g; visited := visited g;
     outcome := outcome g |}.
Definition cancel (g : Config) : Config :=
  {| co := co g; cancelled := true; runner := runner g; vars := vars g;
     callers := callers g; holds := holds g; tickets := tickets g; notices := notices g;
     requesters := requesters g; requests := requests g; pass_key := pass_key g;
     listed := listed g; visited := visited g;
     outcome := outcome g |}.
Definition with_requesters (n : nat) (g : Config) : Config :=
  {| co := co g; cancelled := cancelled g; runner := runner g; vars := vars g;
     callers := callers g; holds := holds g; tickets := tickets g; notices := notices g;
     requesters := n; requests := requests g; pass_key := pass_key g;
     listed := listed g; visited := visited g; outcome := outcome g |}.
Definition count_request (g : Config) : Config :=
  {| co := co g; cancelled := cancelled g; runner := runner g; vars := vars g;
     callers := callers g; holds := holds g; tickets := tickets g; notices := notices g;
     requesters := S (requesters g); requests := requests g + 1; pass_key := pass_key g; listed := listed g;
     visited := visited g; outcome := outcome g |}.
Definition note_list (key : PassKey) (ids : list string) (g : Config) : Config :=
  {| co := co g; cancelled := cancelled g; runner := runner g; vars := vars g;
     callers := callers g; holds := holds g; tickets := tickets g; notices := notices g;
     requesters := requesters g;
     requests := requests g; pass_key := key; listed := ids; visited := ∅;
     outcome := outcome g |}.
Definition note_visit (id : string) (g : Config) : Config :=
  {| co := co g; cancelled := cancelled g; runner := runner g; vars := vars g;
     callers := callers g; holds := holds g; tickets := tickets g; notices := notices g;
     requesters := requesters g; requests := requests g; pass_key := pass_key g;
     listed := listed g;
     visited := {[ id ]} ∪ visited g; outcome := outcome g |}.
Definition note_outcome (id : string) (key : PassKey) (ok : bool) (g : Config) : Config :=
  {| co := co g; cancelled := cancelled g; runner := runner g; vars := vars g;
     callers := callers g; holds := holds g; tickets := tickets g; notices := notices g;
     requesters := requesters g; requests := requests g; pass_key := pass_key g;
     listed := listed g; visited := visited g;
     outcome := <[id := (key, ok)]> (outcome g) |}.

(** [spawn_hold]: a task of its own for the hold. *)
Definition spawn_hold (h : Hold) (g : Config) : Config :=
  with_holds (<[tickets g := h]> (holds g)) (S (tickets g)) g.

(** [reconcile_container] and [terminate_container] up to the hold: the
    reservation, and the hold when it was got. *)
Definition reserve_and_hold (now : Z) (id : string) (event_time : option Z) (terminal : bool)
    (w : Work) (owner : Owner) (g : Config) : bool * Config :=
  let '(got, s) := reserve now id event_time terminal (state (co g)) in
  (got, if got then spawn_hold (new_hold id w owner) (with_state s g) else with_state s g).

Definition reconcile_container (now : Z) (id : string) (event_time : option Z) (owner : Owner)
    (g : Config) : bool * Config :=
  reserve_and_hold now id event_time false
    {| w_reconcile := true; w_terminate_at := None;
       w_enumerated := bool_decide (event_time = None) |} owner g.

Definition terminate_container (now : Z) (id : string) (t : Z) (g : Config) : Config :=
  (reserve_and_hold now id (Some t) true
     {| w_reconcile := false; w_terminate_at := Some t; w_enumerated := false |} ByEnd g).2.

(** *** The loop of [run] *)

(** The head of the loop: the cancellation, a request, the deadlines. *)
Definition run_top (g : Config) : Config :=
  if cancelled g then with_runner Returned g
  else match take_request (state (co g)) with
  | (Some key, s) => with_runner (Listing key) (with_state s g)
  | (None, s) => with_runner Arming g
  end.

Definition set_prune (p : option Z) (v : RunVars) : RunVars :=
  {| list_backoff := list_backoff v; list_retry := list_retry v; prune := p |}.
Definition clear_list_retry (v : RunVars) : RunVars :=
  {| list_backoff := list_backoff v; list_retry := None; prune := prune v |}.

Definition run_head (now : Z) (g : Config) : option Config :=
  match runner g with
  | Top => Some (run_top g)
  | Arming => Some (with_runner (Pruning (next_due (state (co g)))) g)
  | Pruning retry =>
      Some (with_run (Selecting retry)
              (set_prune (arm_prune now (prune (vars g)) (state (co g))) (vars g)) g)
  | _ => None
  end.

(** The end of [pass], back in [run]. *)
Definition end_pass (now : Z) (o : PassOutcome) (g : Config) : Config :=
  with_run Top (after_pass now o (vars g)) (with_co (mark_first_pass_ended (co g)) g).

(** [list_and_reconcile]: the answer of the list. *)
Definition list_answer (now : Z) (key : PassKey) (ids : option (list string)) (g : Config)
    : Config :=
  match ids with
  | None => end_pass now ListFailed (with_state (warn_incomplete (state (co g))) g)
  | Some ids => with_runner (Passing key ids) (note_list key ids g)
  end.

(** The loop over the containers, and its end. *)
Definition pass_step (now : Z) (key : PassKey) (rest : list string) (g : Config) : Config :=
  match rest with
  | [] => end_pass now Done (with_co (finish_pass key (co g)) g)
  | id :: rest =>
      if cancelled g || superseded key (state (co g)) then end_pass now Superseded g
      else with_runner (Reserving key id rest) g
  end.

Definition pass_reserve (now : Z) (key : PassKey) (id : string) (rest : list string) (g : Config)
    : Config :=
  let '(got, g') := reconcile_container now id None ByRun (note_visit id g) in
  with_runner (if got then Visiting key rest else Passing key rest) g'.

(** The loop of [retry_due], and its end. *)
Definition retry_step (now : Z) (ids : list string) (g : Config) : Config :=
  match ids with
  | [] => with_runner Top (with_state (report_locked (state (co g))) g)
  | id :: ids =>
      if cancelled g then with_runner Top g
      else
        let '(got, g') := reconcile_container now id None ByRun g in
        with_runner (if got then RetryAwait ids else Retrying ids) g'
  end.

(** The branches of the select. *)
Inductive Branch := BCancelled | BWake | BList | BRetry | BPrune | BSweep.

Definition fires (now : Z) (deadline : option Z) : bool :=
  match deadline with Some d => bool_decide (d <= now) | None => false end.

Definition select (b : Branch) (now : Z) (retry : option Z) (g : Config) : option Config :=
  match b with
  | BCancelled => if cancelled g then Some (with_runner Returned g) else None
  | BWake => if wake (co g) then Some (with_runner Top (with_co (set_wake false (co g)) g)) else None
  | BList =>
      if fires now (list_retry (vars g)) then
        Some (with_run Top (clear_list_retry (vars g)) (with_state (redo (state (co g))) g))
      else None
  | BRetry => if fires now retry then Some (with_runner Due g) else None
  | BPrune =>
      if fires now (prune (vars g)) then
        Some (with_run Top (set_prune None (vars g))
                (with_state (prune_processed now (state (co g))) g))
      else None
  | BSweep => Some (with_runner Top g)
  end.

(** *** Holds *)

(** The end of a hold, seen by whoever awaits it. *)
Definition resume (r : Runner) : Runner :=
  match r with
  | Visiting key rest => Passing key rest
  | RetryAwait ids => Retrying ids
  | r => r
  end.

Definition hold_ended (h : Hold) (g : Config) : Config :=
  match h_owner h with
  | ByRun => with_runner (resume (runner g)) g
  | ByEvent =>
      if h_error h then with_callers (callers g) (S (notices g)) g else g
  | ByEnd => g
  end.

Definition put_hold (t : nat) (h : Hold) (g : Config) : Config :=
  with_holds (<[t := h]> (holds g)) (tickets g) g.

(** One step of [hold]: the termination and the start of a reconcile, its
    outcome and the settling of it, the mark, and the question for more work. *)
Inductive HoldInput :=
  | Begin (started : Inspected)
  | Outcome (now : Z) (error : option RError)
  | Mark
  | Next (now : Z).

Definition hold_step (t : nat) (h : Hold) (i : HoldInput) (g : Config) : option Config :=
  match i, h_phase h with
  | Begin started, Starting =>
      Some (put_hold t (set_phase (if h_reconcile h
              then Processing (current (state (co g))) started else Ending) h) g)
  | Outcome now error, Processing key started =>
      let c := settle now (h_container h) key error (co g) in
      let p := if bool_decide (is_Some error) then Ending
               else if h_enumerated h then Marking started else Ending in
      Some (note_outcome (h_container h) key (settled error)
              (put_hold t (set_phase p (set_error error h)) (with_co c g)))
  | Mark, Marking started =>
      Some (put_hold t (set_phase Ending h)
              (with_state (mark_processed (h_container h) started (state (co g))) g))
  | Next now, Ending =>
      let '(work, c) := next now (h_container h) (co g) in
      if work.1 || bool_decide (is_Some work.2)
      then Some (put_hold t (again work h) (with_co c g))
      else Some (hold_ended h (with_holds (delete t (holds g)) (tickets g) (with_co c g)))
  | _, _ => None
  end.

(** *** Events *)

(** [handle_event] up to its first critical section. *)
Definition handle_event (wall now : Z) (e : Event) (g : Config) : Config :=
  let t := event_time (ev_time_nano e) in
  if bool_decide (ev_action e = ACTION_DIE) || bool_decide (ev_action e = ACTION_DESTROY)
  then terminate_container wall (ev_actor e) t g
  else
    let '(skip, s) := skip_event now (ev_actor e) t (state (co g)) in
    with_callers (if skip then callers g else callers g ++ [(ev_actor e, t)]) (notices g)
      (with_state s g).

(** *** Steps *)

Inductive Label :=
  | LRequest (gen : Z)
  | LNotify
  | LCancel
  | LEvent (wall now : Z) (e : Event)
  | LEventReserve (n : nat) (wall : Z)
  | LNotice
  | LDropped
  | LTop (now : Z)
  | LList (now : Z) (ids : option (list string))
  | LPass (now : Z)
  | LSelect (b : Branch) (now : Z)
  | LDue (now : Z)
  | LRetry (now : Z)
  | LHold (t : nat) (i : HoldInput).

Definition step (l : Label) (g : Config) : option Config :=
  match l with
  | LRequest gen => Some (count_request (with_co (request gen (co g)) g))
  | LNotify =>
      match requesters g with
      | O => None
      | S n => Some (with_requesters n (with_co (notify_one (co g)) g))
      end
  | LCancel => Some (cancel g)
  | LEvent wall now e => Some (handle_event wall now e g)
  | LEventReserve n wall =>
      '(id, t) ← callers g !! n;
      Some (reconcile_container wall id (Some t) ByEvent
              (with_callers (delete n (callers g)) (notices g) g)).2
  | LNotice =>
      match notices g with
      | O => None
      | S n => Some (with_callers (callers g) n (with_co (notify_one (co g)) g))
      end
  | LDropped =>
      match notices g with O => None | S n => Some (with_callers (callers g) n g) end
  | LTop now => run_head now g
  | LList now ids =>
      match runner g with Listing key => Some (list_answer now key ids g) | _ => None end
  | LPass now =>
      match runner g with
      | Passing key rest => Some (pass_step now key rest g)
      | Reserving key id rest => Some (pass_reserve now key id rest g)
      | _ => None
      end
  | LSelect b now => match runner g with Selecting retry => select b now retry g | _ => None end
  | LDue now =>
      match runner g with
      | Due => Some (with_runner (Retrying (due_ids now (state (co g)))) g)
      | _ => None
      end
  | LRetry now => match runner g with Retrying ids => Some (retry_step now ids g) | _ => None end
  | LHold t i => h ← holds g !! t; hold_step t h i g
  end.

Inductive reachable : Config -> Prop :=
  | reach_initial : reachable initial
  | reach_step g l g' : reachable g -> step l g = Some g' -> reachable g'.

(** A schedule, run from a configuration. *)
Fixpoint steps (ls : list Label) (g : Config) : option Config :=
  match ls with [] => Some g | l :: ls => g' ← step l g; steps ls g' end.

End tasks.
