(* ===== verification/CoordinatorProofs.v ===== *)
(** * What the coordinator keeps

    Invariants of the transition system of [Coordinator], by induction on
    reachability: at most one hold per container, what the control flow of the
    loop says about the requests, and how fresh the outcomes of the containers
    of a pass are. *)

From S2P Require Import Prelude.
From S2P Require Import Coordinator.

Section proofs.
Context {reconciler : Reconciler} {jiff : JiffNano}.

(** ** The operations, field by field *)

Lemma announce_locked_spec s :
  (announce_locked s = s \/
   incomplete s = false /\ pending s = ∅ /\
   (forall id r, in_flight s !! id = Some r -> busy r = false) /\
   announce_locked s = set_announced (latest s) s).
Proof.
  unfold announce_locked. destruct (incomplete s); [by left|]. cbn.
  case_bool_decide as Hp; [|by left]. cbn. case_bool_decide; [by left|].
  destruct (existsb _ _) eqn:Hb; [by left|]. right. split_and!; try done.
  intros id r Hr. apply not_true_is_false. intros Hbusy.
  apply not_true_iff_false in Hb. destruct Hb. apply existsb_exists. exists (id, r).
  split; [|done]. apply list_elem_of_In. by apply elem_of_map_to_list.
Qed.

Lemma report_locked_spec s : report_locked s = s \/ report_locked s = announce_locked s.
Proof. unfold report_locked. case_match; auto. Qed.

(** Announcing and reporting only set [announced]. *)
Lemma announce_locked_set s : exists k, announce_locked s = set_announced k s.
Proof.
  destruct (announce_locked_spec s) as [->|(_ & _ & _ & ->)]; [|by eexists].
  exists (announced s). by destruct s.
Qed.
Lemma report_locked_set s : exists k, report_locked s = set_announced k s.
Proof.
  destruct (report_locked_spec s) as [-> | ->]; [|apply announce_locked_set].
  exists (announced s). by destruct s.
Qed.

(** Once nothing is left, announcing reaches the latest request. *)
Lemma announce_locked_done s :
  incomplete s = false -> pending s = ∅ -> in_flight s = ∅ ->
  announced (announce_locked s) = latest s.
Proof.
  intros Hi Hp Hf. unfold announce_locked. rewrite Hi, Hp, Hf, map_to_list_empty. cbn.
  rewrite bool_decide_eq_true_2 by done. cbn. by case_bool_decide.
Qed.
Lemma report_locked_done s :
  incomplete s = false -> pending s = ∅ -> in_flight s = ∅ ->
  announced (report_locked s) = latest s.
Proof.
  intros Hi Hp Hf. unfold report_locked. rewrite Hi, Hp. cbn.
  rewrite bool_decide_eq_true_2 by done. by apply announce_locked_done.
Qed.

(** What [reserve] does to the map of reservations. *)
Lemma reserve_spec now id et terminal s got s' :
  reserve now id et terminal s = (got, s') ->
  exists r, s' = set_in_flight (<[id := r]> (in_flight s)) s /\
    match in_flight s !! id with
    | None => got = true /\ r = new_reservation now terminal
    | Some held => got = false /\ r = leave_to_holder et terminal held
    end.
Proof. unfold reserve. destruct (in_flight s !! id); intros [= <- <-]; eauto. Qed.

Lemma leave_running et terminal r : running (leave_to_holder et terminal r) = running r.
Proof. unfold leave_to_holder. by repeat case_match. Qed.

Lemma leave_queued et terminal r :
  queued_reconcile r = true -> queued_reconcile (leave_to_holder et terminal r) = true.
Proof. unfold leave_to_holder. by repeat case_match. Qed.

(** A pass or a retry always leaves a reconcile behind. *)
Lemma leave_enumerated r : queued_reconcile (leave_to_holder None false r) = true.
Proof. done. Qed.

(** ** One hold per container *)

Definition processing (p : Phase) : bool :=
  match p with Processing _ _ | Marking _ => true | _ => false end.

Definition hold_ok (f : gmap string Reservation) (h : Hold) : Prop :=
  exists r, f !! h_container h = Some r /\ running r = h_reconcile h /\
    (processing (h_phase h) = true -> h_reconcile h = true).

Record Excl (f : gmap string Reservation) (m : gmap nat Hold) (n : nat) : Prop := {
  ex_hold t h : m !! t = Some h -> hold_ok f h;
  ex_res id r : f !! id = Some r -> exists t h, m !! t = Some h /\ h_container h = id;
  ex_inj t1 t2 h1 h2 :
    m !! t1 = Some h1 -> m !! t2 = Some h2 -> h_container h1 = h_container h2 -> t1 = t2;
  ex_ticket t h : m !! t = Some h -> (t < n)%nat;
}.

Lemma Excl_spawn f m n id r h :
  Excl f m n -> f !! id = None -> h_container h = id -> h_phase h = Starting ->
  running r = h_reconcile h -> Excl (<[id := r]> f) (<[n := h]> m) (S n).
Proof.
  intros [Hh Hr Hi Ht] Hid Hc Hp Hrun.
  assert (Hn : m !! n = None).
  { destruct (m !! n) eqn:E; [|done]. apply Ht in E. lia. }
  assert (Hother : forall t h', m !! t = Some h' -> h_container h' <> id).
  { intros t h' E <-. destruct (Hh _ _ E) as (r' & E' & _). congruence. }
  split.
  - intros t h' [[<- <-]|[Hne E]]%lookup_insert_Some.
    + exists r. rewrite Hc, lookup_insert_eq, Hp. done.
    + destruct (Hh _ _ E) as (r' & E' & ? & ?). exists r'.
      rewrite lookup_insert_ne by (intros He; by eapply Hother). done.
  - intros id' r' [[<- <-]|[Hne E]]%lookup_insert_Some.
    + exists n, h. by rewrite lookup_insert_eq.
    + destruct (Hr _ _ E) as (t & h' & E' & Hc'). exists t, h'.
      rewrite lookup_insert_ne; [done|]. intros <-. congruence.
  - intros t1 t2 h1 h2 [[<- <-]|[Hne1 E1]]%lookup_insert_Some
      [[<- <-]|[Hne2 E2]]%lookup_insert_Some He; [done| | |by eauto].
    + exfalso. eapply Hother; [exact E2|congruence].
    + exfalso. eapply Hother; [exact E1|congruence].
  - intros t h' [[<- <-]|[_ E]]%lookup_insert_Some; [lia|]. apply Ht in E. lia.
Qed.

Lemma Excl_held f m n id r r' :
  Excl f m n -> f !! id = Some r -> running r' = running r -> Excl (<[id := r']> f) m n.
Proof.
  intros [Hh Hr Hi Ht] Hid Hrun. split; [| |done|done].
  - intros t h E. destruct (Hh _ _ E) as (x & E' & Hx & Hp).
    destruct (decide (h_container h = id)) as [Heq|Hne].
    + exists r'. rewrite Heq, lookup_insert_eq. split_and!; [done|congruence|done].
    + exists x. by rewrite lookup_insert_ne.
  - intros id' x [[<- <-]|[_ E]]%lookup_insert_Some; eauto.
Qed.

(** A hold goes on, with the reservation its work asks for. *)
Lemma Excl_put f m n t h h' r' :
  Excl f m n -> m !! t = Some h -> h_container h' = h_container h ->
  running r' = h_reconcile h' -> (processing (h_phase h') = true -> h_reconcile h' = true) ->
  Excl (<[h_container h := r']> f) (<[t := h']> m) n.
Proof.
  intros [Hh Hr Hi Ht] E Hc Hrun Hp. split.
  - intros t' x [[<- <-]|[Hne E']]%lookup_insert_Some.
    + exists r'. by rewrite Hc, lookup_insert_eq.
    + destruct (Hh _ _ E') as (y & Ey & ? & ?). exists y.
      rewrite lookup_insert_ne; [done|]. intros Heq. by apply Hne, (Hi _ _ _ _ E E').
  - intros id x [[<- <-]|[Hne E']]%lookup_insert_Some.
    + exists t, h'. by rewrite lookup_insert_eq.
    + destruct (Hr _ _ E') as (t' & y & Ey & Hy).
      exists t', y. rewrite lookup_insert_ne; [done|]. intros <-. congruence.
  - intros t1 t2 h1 h2 [[<- <-]|[Hne1 E1]]%lookup_insert_Some
      [[<- <-]|[Hne2 E2]]%lookup_insert_Some He; [done| | |by eauto].
    + apply (Hi _ _ _ _ E E2). congruence.
    + apply (Hi _ _ _ _ E1 E). congruence.
  - intros t' x [[<- <-]|[_ E']]%lookup_insert_Some; eauto.
Qed.

Lemma Excl_phase f m n t h h' :
  Excl f m n -> m !! t = Some h -> h_container h' = h_container h ->
  h_reconcile h' = h_reconcile h -> (processing (h_phase h') = true -> h_reconcile h = true) ->
  Excl f (<[t := h']> m) n.
Proof.
  intros HE E Hc Hr Hp. destruct (ex_hold _ _ _ HE _ _ E) as (r & Er & Hrun & _).
  rewrite <- (insert_id f _ _ Er). eapply Excl_put; [done..|congruence|].
  intros ?. rewrite Hr. auto.
Qed.

Lemma Excl_delete f m n t h :
  Excl f m n -> m !! t = Some h -> Excl (delete (h_container h) f) (delete t m) n.
Proof.
  intros [Hh Hr Hi Ht] E. split.
  - intros t' x [Hne E']%lookup_delete_Some. destruct (Hh _ _ E') as (y & Ey & ? & ?).
    exists y. rewrite lookup_delete_ne; [done|]. intros Heq. by apply Hne, (Hi _ _ _ _ E E').
  - intros id x [Hne E']%lookup_delete_Some. destruct (Hr _ _ E') as (t' & y & Ey & Hy).
    exists t', y. rewrite lookup_delete_ne; [done|]. intros <-. congruence.
  - intros t1 t2 h1 h2 [_ E1]%lookup_delete_Some [_ E2]%lookup_delete_Some. eauto.
  - intros t' x [_ E']%lookup_delete_Some. eauto.
Qed.

(** ** Reservations and holds of a configuration *)

Lemma reserve_and_hold_spec now id et terminal w owner g got g' :
  reserve_and_hold now id et terminal w owner g = (got, g') ->
  let s := state (co g) in
  let g1 r := with_state (set_in_flight (<[id := r]> (in_flight s)) s) g in
  (got = true /\ in_flight s !! id = None /\
   g' = spawn_hold (new_hold id w owner) (g1 (new_reservation now terminal))) \/
  (got = false /\ exists held, in_flight s !! id = Some held /\
   g' = g1 (leave_to_holder et terminal held)).
Proof.
  unfold reserve_and_hold. destruct (reserve _ _ _ _ _) as [b s'] eqn:E.
  apply reserve_spec in E as (r & -> & Hr). intros [= <- <-]. cbn.
  destruct (in_flight (state (co g)) !! id) eqn:Ef; destruct Hr as [-> ->].
  - right. split; [done|]. by eexists.
  - by left.
Qed.

Lemma next_spec now id c work c' held :
  in_flight (state c) !! id = Some held -> next now id c = (work, c') ->
  (work = (queued_reconcile held, queued_terminate held) /\
   (queued_reconcile held || bool_decide (is_Some (queued_terminate held))) = true /\
   exists r, running r = queued_reconcile held /\ queued_reconcile r = false /\
     c' = on_state (fun s => set_in_flight (<[id := r]> (in_flight s)) s) c) \/
  (work = (false, None) /\ queued_reconcile held = false /\
   exists w, (wake c = true -> w = true) /\
     (is_Some (pending (state c) !! id) -> w = true) /\
     c' = set_wake w (on_state (fun s =>
            announce_locked (set_in_flight (delete id (in_flight s)) s)) c)).
Proof.
  unfold next. intros ->. destruct (_ || _) eqn:E; intros [= <- <-].
  - left. split_and!; [done..|]. eexists. split_and!; [| |reflexivity]; done.
  - right. apply orb_false_iff in E as [Hq _]. split_and!; [done..|]. cbn.
    exists (wake c || bool_decide (is_Some (pending (state c) !! id))). split_and!.
    + intros ->. done.
    + intros Hp. rewrite (bool_decide_eq_true_2 _ Hp). apply orb_true_r.
    + unfold notify_one, on_state, set_wake. case_bool_decide; cbn; [|by rewrite orb_false_r].
      by rewrite orb_true_r.
Qed.

Definition excl (g : Config) : Prop :=
  Excl (in_flight (state (co g))) (holds g) (tickets g).

Lemma excl_reserve now id et terminal w owner g got g' :
  reserve_and_hold now id et terminal w owner g = (got, g') ->
  w_reconcile w = negb terminal -> excl g -> excl g'.
Proof.
  intros Hr Hw HE. apply reserve_and_hold_spec in Hr as [(_ & Hn & ->)|(_ & held & Hs & ->)];
    unfold excl; cbn.
  - by apply Excl_spawn.
  - eapply Excl_held; [done..|apply leave_running].
Qed.

Lemma excl_hold t h i g g' :
  holds g !! t = Some h -> hold_step t h i g = Some g' -> excl g -> excl g'.
Proof.
  intros Ht Hs HE. destruct (ex_hold _ _ _ HE _ _ Ht) as (r & Er & Hrun & Hp).
  unfold hold_step in Hs. destruct i, (h_phase h) eqn:Eph; try done.
  - simplify_eq. eapply Excl_phase; [done..|]. by destruct (h_reconcile h).
  - simplify_eq. eapply Excl_phase; [done..|]. auto.
  - simplify_eq. eapply Excl_phase; [done..|]. done.
  - destruct (next _ _ _) as [work c] eqn:En.
    destruct (next_spec _ _ _ _ _ _ Er En)
      as [(-> & Hb & r' & Hr' & _ & ->)|(-> & _ & w & _ & _ & ->)].
    + cbn [fst snd] in Hs. rewrite Hb in Hs. simplify_eq. eapply Excl_put; done.
    + cbn in Hs. simplify_eq.
      destruct (announce_locked_set (set_in_flight (delete (h_container h)
        (in_flight (state (co g)))) (state (co g)))) as [k Hk].
      unfold excl, hold_ended. repeat case_match; cbn; rewrite Hk; cbn; by apply Excl_delete.
Qed.

Lemma skip_event_spec now id t s skip s' :
  skip_event now id t s = (skip, s') -> exists p, s' = set_processed p s.
Proof.
  unfold skip_event. case_match; intros [= <- <-]; [by eexists|].
  exists (processed s). by destruct s.
Qed.

Lemma take_request_spec s o s' :
  take_request s = (o, s') ->
  (o = None /\ dirty s = false /\ s' = s) \/
  (o = Some (latest s) /\ dirty s = true /\ s' = set_dirty false s).
Proof. unfold take_request. destruct (dirty s) eqn:E; intros [= <- <-]; auto. Qed.

Lemma finish_pass_spec key c :
  exists k, finish_pass key c =
    (if bool_decide (key = latest (state c))
     then set_reload_incomplete false (on_state (fun s => set_announced k (set_incomplete false s)) c)
     else on_state (set_announced k) c).
Proof.
  unfold finish_pass. case_bool_decide; unfold on_state; cbn;
    match goal with |- context [report_locked ?s] => destruct (report_locked_set s) as [k Hk] end;
    exists k; by rewrite Hk.
Qed.

(** The effects a step can have, by the task that takes it. *)
Inductive moved (g : Config) : Config -> Prop :=
  | mv_request gen : moved g (count_request (with_co (request gen (co g)) g))
  | mv_notify n :
      requesters g = S n -> moved g (with_requesters n (with_co (notify_one (co g)) g))
  | mv_cancel : moved g (cancel g)
  | mv_dropped n : moved g (with_callers (callers g) n g)
  | mv_notice n : moved g (with_callers (callers g) n (with_co (notify_one (co g)) g))
  | mv_skip p l :
      moved g (with_callers l (notices g) (with_state (set_processed p (state (co g))) g))
  | mv_end now id t got g1 :
      reserve_and_hold now id (Some t) true
        {| w_reconcile := false; w_terminate_at := Some t; w_enumerated := false |} ByEnd g
        = (got, g1) -> moved g g1
  | mv_event now id t l got g1 :
      reserve_and_hold now id (Some t) false
        {| w_reconcile := true; w_terminate_at := None; w_enumerated := false |} ByEvent
        (with_callers l (notices g) g) = (got, g1) -> moved g g1
  | mv_returned : cancelled g = true -> moved g (with_runner Returned g)
  | mv_take :
      runner g = Top -> cancelled g = false -> dirty (state (co g)) = true ->
      moved g (with_runner (Listing (latest (state (co g))))
                 (with_state (set_dirty false (state (co g))) g))
  | mv_idle :
      runner g = Top -> cancelled g = false -> dirty (state (co g)) = false ->
      moved g (with_runner Arming g)
  | mv_arm : runner g = Arming -> moved g (with_runner (Pruning (next_due (state (co g)))) g)
  | mv_select r p :
      runner g = Pruning r -> moved g (with_run (Selecting r) (set_prune p (vars g)) g)
  | mv_list_failed key now :
      runner g = Listing key ->
      moved g (end_pass now ListFailed (with_state (report_locked (state (co g))) g))
  | mv_listed key ids :
      runner g = Listing key -> moved g (with_runner (Passing key ids) (note_list key ids g))
  | mv_done key now :
      runner g = Passing key [] ->
      moved g (end_pass now Done (with_co (finish_pass key (co g)) g))
  | mv_superseded key rest now :
      runner g = Passing key rest -> cancelled g = true \/ latest (state (co g)) <> key ->
      moved g (end_pass now Superseded g)
  | mv_reserving key id rest :
      runner g = Passing key (id :: rest) -> moved g (with_runner (Reserving key id rest) g)
  | mv_visit key id rest now got g1 :
      runner g = Reserving key id rest ->
      reserve_and_hold now id None false
        {| w_reconcile := true; w_terminate_at := None; w_enumerated := true |} ByRun
        (note_visit id g) = (got, g1) ->
      moved g (with_runner (if got then Visiting key rest else Passing key rest) g1)
  | mv_wake r :
      runner g = Selecting r -> moved g (with_runner Top (with_co (set_wake false (co g)) g))
  | mv_redo r :
      runner g = Selecting r -> is_Some (list_retry (vars g)) ->
      moved g (with_run Top (clear_list_retry (vars g))
                 (with_state (set_dirty true (state (co g))) g))
  | mv_prune r p :
      runner g = Selecting r ->
      moved g (with_run Top (set_prune None (vars g))
                 (with_state (set_processed p (state (co g))) g))
  | mv_sweep r : runner g = Selecting r -> moved g (with_runner Top g)
  | mv_due r : runner g = Selecting r -> moved g (with_runner Due g)
  | mv_ids ids : runner g = Due -> moved g (with_runner (Retrying ids) g)
  | mv_retry_end :
      runner g = Retrying [] ->
      moved g (with_runner Top (with_state (report_locked (state (co g))) g))
  | mv_retry_cancel ids :
      runner g = Retrying ids -> cancelled g = true -> moved g (with_runner Top g)
  | mv_retry id ids now got g1 :
      runner g = Retrying (id :: ids) ->
      reserve_and_hold now id None false
        {| w_reconcile := true; w_terminate_at := None; w_enumerated := true |} ByRun g
        = (got, g1) ->
      moved g (with_runner (if got then RetryAwait ids else Retrying ids) g1)
  | mv_hold t h i g' :
      holds g !! t = Some h -> hold_step t h i g = Some g' -> moved g g'.

Lemma fires_some now d : fires now d = true -> is_Some d.
Proof. by destruct d. Qed.

Lemma run_head_moved now g g' : run_head now g = Some g' -> moved g g'.
Proof.
  unfold run_head, run_top. intros Hs. destruct (runner g) eqn:Er; simplify_eq.
  - destruct (cancelled g) eqn:Ec; [by constructor|].
    destruct (take_request _) as [o s'] eqn:Et.
    destruct (take_request_spec _ _ _ Et) as [(-> & ? & ->)|(-> & ? & ->)]; by constructor.
  - by constructor.
  - by constructor.
Qed.

Lemma select_moved b now r g g' : runner g = Selecting r -> select b now r g = Some g' -> moved g g'.
Proof.
  intros Hr Hs. unfold select in Hs. destruct b.
  - destruct (cancelled g) eqn:E; simplify_eq. by constructor.
  - destruct (wake (co g)); simplify_eq. by eapply mv_wake.
  - destruct (fires _ _) eqn:E; simplify_eq. eapply mv_redo; [done|by eapply fires_some].
  - destruct (fires _ _); simplify_eq. by eapply mv_due.
  - destruct (fires _ _); simplify_eq. by eapply mv_prune.
  - simplify_eq. by eapply mv_sweep.
Qed.

Lemma handle_event_moved wall now e g : moved g (handle_event wall now e g).
Proof.
  unfold handle_event. case_match.
  - unfold terminate_container. destruct (reserve_and_hold _ _ _ _ _ _ _) as [got g1] eqn:E.
    by eapply mv_end.
  - destruct (skip_event _ _ _ _) as [skip s'] eqn:E.
    apply skip_event_spec in E as [p ->]. apply mv_skip.
Qed.

Lemma pass_moved now key rest g : runner g = Passing key rest -> moved g (pass_step now key rest g).
Proof.
  intros Hr. unfold pass_step. destruct rest as [|id rest]; [by constructor|].
  destruct (cancelled g || superseded _ _) eqn:E; [|by constructor].
  eapply mv_superseded; [done|]. apply orb_true_iff in E as [?|Hs]; [by left|right].
  unfold superseded in Hs. by case_bool_decide.
Qed.

Lemma step_moved l g g' : step l g = Some g' -> moved g g'.
Proof.
  intros Hs. destruct l; cbn in Hs.
  - simplify_eq. constructor.
  - destruct (requesters g) eqn:E; simplify_eq. by constructor.
  - simplify_eq. constructor.
  - simplify_eq. apply handle_event_moved.
  - destruct (callers g !! n) as [[id t]|]; simplify_eq. cbn in Hs. simplify_eq.
    unfold reconcile_container. destruct (reserve_and_hold _ _ _ _ _ _ _) as [got g1] eqn:E.
    by eapply mv_event.
  - destruct (notices g); simplify_eq. constructor.
  - destruct (notices g); simplify_eq. constructor.
  - by eapply run_head_moved.
  - destruct (runner g) eqn:Er; simplify_eq. destruct ids; by econstructor.
  - destruct (runner g) eqn:Er; simplify_eq; [by apply pass_moved|].
    unfold pass_reserve, reconcile_container.
    destruct (reserve_and_hold _ _ _ _ _ _ _) as [got g1] eqn:E. by eapply mv_visit.
  - destruct (runner g) eqn:Er; simplify_eq. by eapply select_moved.
  - destruct (runner g) eqn:Er; simplify_eq. by constructor.
  - destruct (runner g) as [| | | | | | | | |ids| |] eqn:Er; simplify_eq.
    unfold retry_step. destruct ids as [|id ids]; [by constructor|].
    destruct (cancelled g) eqn:Ec; [by eapply mv_retry_cancel|].
    unfold reconcile_container. destruct (reserve_and_hold _ _ _ _ _ _ _) as [got g1] eqn:E.
    by eapply mv_retry.
  - destruct (holds g !! t) as [h|] eqn:Eh; simplify_eq. by eapply mv_hold.
Qed.

Lemma excl_step g g' : moved g g' -> excl g -> excl g'.
Proof.
  intros Hm HE. destruct Hm as [| | | | | |???? g1 Hr|????? g1 Hr| | | | | | | |key now| | |
    ????? g1 _ Hr| | | | | | | | |???? g1 _ Hr|t h i g' Ht Hs]; try exact HE.
  - exact (excl_reserve _ _ _ _ _ _ _ _ _ Hr eq_refl HE).
  - exact (excl_reserve _ _ _ _ _ _ _ _ _ Hr eq_refl HE).
  - unfold excl. cbn. by destruct (report_locked_set (state (co g))) as [k ->].
  - unfold excl. cbn -[finish_pass]. destruct (finish_pass_spec key (co g)) as [k ->].
    by destruct (bool_decide _).
  - exact (excl_reserve _ _ _ _ _ _ _ _ _ Hr eq_refl HE).
  - unfold excl. cbn. by destruct (report_locked_set (state (co g))) as [k ->].
  - exact (excl_reserve _ _ _ _ _ _ _ _ _ Hr eq_refl HE).
  - by eapply excl_hold.
Qed.

(** ** The bookkeeping of requests and retries *)

Record Tagged (c : Coordinator) (n : Z) : Prop := {
  tg_count : 0 <= n;
  tg_epoch : epoch (latest (state c)) = wrapu 64 n;
  tg_keys id e : pending (state c) !! id = Some e -> pe_key e = latest (state c);
  tg_backoff id e : pending (state c) !! id = Some e -> MIN_BACKOFF <= pe_backoff e <= MAX_BACKOFF;
  tg_pending : gauge_pending c = Z.of_nat (size (pending (state c)));
  tg_incomplete : gauge_incomplete c = incomplete (state c);
}.

Definition tagged (g : Config) : Prop := Tagged (co g) (requests g).

Lemma Tagged_request gen c n : Tagged c n -> Tagged (request gen c) (n + 1).
Proof.
  intros [Hn He Hk Hb Hp Hi]. split; cbn; [lia| | | | |done].
  - unfold wrapu in *. rewrite He, Zplus_mod_idemp_l. done.
  - intros id e. rewrite lookup_fmap. intros (e' & _ & ->)%fmap_Some. done.
  - intros id e. rewrite lookup_fmap. intros (e' & Hl & ->)%fmap_Some. exact (Hb _ _ Hl).
  - by rewrite map_size_fmap.
Qed.

(** An operation that keeps what [Tagged] speaks of. *)
Lemma Tagged_frame c c' n :
  latest (state c') = latest (state c) -> incomplete (state c') = incomplete (state c) ->
  pending (state c') = pending (state c) -> gauge_pending c' = gauge_pending c ->
  gauge_incomplete c' = gauge_incomplete c -> Tagged c n -> Tagged c' n.
Proof.
  intros Hl Hi Hp Hgp Hgi [Hn He Hk Hb Hgp' Hgi']. by split; rewrite ?Hl, ?Hi, ?Hp, ?Hgp, ?Hgi.
Qed.

Lemma settle_pending_other now id key k error p id' :
  id' <> id -> settle_pending now id key k error p !! id' = p !! id'.
Proof.
  intros Hne. unfold settle_pending.
  repeat case_match; rewrite ?lookup_insert_ne, ?lookup_delete_ne by done; done.
Qed.

Lemma Tagged_settle now id key error c n : Tagged c n -> Tagged (settle now id key error c) n.
Proof.
  intros [Hn He Hk Hb Hp Hi]. unfold MIN_BACKOFF, MAX_BACKOFF, SECOND in Hb.
  split; cbn; try done; intros id' e;
    (destruct (decide (id' = id)) as [->|Hne];
      [|rewrite settle_pending_other by done; eauto]);
    unfold settle_pending; destruct (pending (state c) !! id) as [e0|] eqn:E;
    [pose proof (Hk _ _ E) as Hk0|idtac|pose proof (Hb _ _ E) as Hb0|idtac];
    repeat case_match;
    rewrite ?lookup_insert_eq, ?lookup_delete_eq; intros; simplify_eq; cbn; try done;
    unfold MIN_BACKOFF, MAX_BACKOFF, SECOND; try lia; eauto.
Qed.

Lemma tagged_hold t h i g g' : hold_step t h i g = Some g' -> tagged g -> tagged g'.
Proof.
  intros Hs HT. unfold hold_step in Hs. destruct i, (h_phase h); try done; simplify_eq; try (revert HT; by apply Tagged_frame).
  - by apply Tagged_settle.
  - destruct (next _ _ _) as [work c] eqn:En.
    assert (Tagged c (requests g)).
    { destruct (in_flight (state (co g)) !! h_container h) as [held|] eqn:Ef.
      - destruct (next_spec _ _ _ _ _ _ Ef En) as [(_ & _ & r & _ & _ & ->)|(_ & _ & w & _ & _ & ->)];
          [revert HT; by apply Tagged_frame|].
        revert HT. apply Tagged_frame; cbn; try done;
          match goal with |- context [announce_locked ?s] =>
            by destruct (announce_locked_set s) as [k ->] end.
      - unfold next in En. rewrite Ef in En. by simplify_eq. }
    case_match; simplify_eq; [done|]. unfold hold_ended. by repeat case_match.
Qed.

Lemma tagged_reserve now id et terminal w owner g got g' :
  reserve_and_hold now id et terminal w owner g = (got, g') -> tagged g -> tagged g'.
Proof.
  intros [(_ & _ & ->)|(_ & held & _ & ->)]%reserve_and_hold_spec HT;
    revert HT; by apply Tagged_frame.
Qed.

Lemma tagged_step g g' : moved g g' -> tagged g -> tagged g'.
Proof.
  intros Hm HT. destruct Hm as [| | | | | |???? g1 Hr|????? g1 Hr| | | | | | | |key now| | |
    ????? g1 _ Hr| | | | | | | | |???? g1 _ Hr|t h i g' Ht Hs];
    try (revert HT; by apply Tagged_frame).
  - by apply Tagged_request.
  - exact (tagged_reserve _ _ _ _ _ _ _ _ _ Hr HT).
  - exact (tagged_reserve _ _ _ _ _ _ _ _ _ Hr HT).
  - revert HT. apply Tagged_frame; cbn; try done;
      by destruct (report_locked_set (state (co g))) as [k ->].
  - unfold tagged. cbn -[finish_pass]. destruct (finish_pass_spec key (co g)) as [k ->].
    destruct HT as [Hn He Hk Hb Hp Hi]. by case_bool_decide; split.
  - exact (tagged_reserve _ _ _ _ _ _ _ _ _ Hr HT).
  - revert HT. apply Tagged_frame; cbn; try done;
      by destruct (report_locked_set (state (co g))) as [k ->].
  - exact (tagged_reserve _ _ _ _ _ _ _ _ _ Hr HT).
  - by eapply tagged_hold.
Qed.

End proofs.
