(* ===== verification/CoordinatorTheorems.v ===== *)
(** * What the coordinator promises

    The loop never sleeps past work that is left, and it announces a request
    only once every container its pass listed has settled under it. *)

From S2P Require Import Prelude.
From S2P Require Import Coordinator.
From S2P Require Import CoordinatorProofs.

Section theorems.
Context {reconciler : Reconciler} {jiff : JiffNano}.

(** ** What the control flow of the loop says *)

Definition in_pass (r : Runner) : option PassKey :=
  match r with
  | Listing k | Passing k _ | Reserving k _ _ | Visiting k _ => Some k
  | _ => None
  end.

Definition asleep (r : Runner) : option (option Z) :=
  match r with Pruning d | Selecting d => Some d | _ => None end.

Definition waits (r : Runner) : bool :=
  match r with Arming | Pruning _ | Selecting _ => true | _ => false end.

Definition remaining (r : Runner) : option (list string) :=
  match r with
  | Passing _ rest | Visiting _ rest => Some rest
  | Reserving _ id rest => Some (id :: rest)
  | _ => None
  end.

(** Every pending container that is not held is retried: by a wake-up that is
    due, or by the deadline the loop sleeps until. *)
Definition retried (wake : bool) (retry : option Z) (s : State) : Prop :=
  forall id e, pending s !! id = Some e -> in_flight s !! id = None ->
    wake = true \/ exists d, retry = Some d /\ d <= pe_due e.

Record Control (g : Config) : Prop := {
  ct_dirty : dirty (state (co g)) = true -> incomplete (state (co g)) = true;
  ct_pass k : in_pass (runner g) = Some k -> incomplete (state (co g)) = true;
  ct_list : is_Some (list_retry (vars g)) -> incomplete (state (co g)) = true;
  ct_key k :
    in_pass (runner g) = Some k -> dirty (state (co g)) = false -> k = latest (state (co g));
  ct_stale k :
    in_pass (runner g) = Some k ->
    epoch k <= requests g /\ (dirty (state (co g)) = true -> epoch k < requests g);
  ct_bound : epoch (pass_key g) <= requests g;
  ct_work :
    cancelled g = false -> incomplete (state (co g)) = true ->
    dirty (state (co g)) = true \/ is_Some (in_pass (runner g)) \/ is_Some (list_retry (vars g));
  ct_wake :
    waits (runner g) = true -> dirty (state (co g)) = true ->
    wake (co g) = true \/ (0 < requesters g)%nat;
  ct_retry d : asleep (runner g) = Some d -> retried (wake (co g)) d (state (co g));
  ct_announced :
    incomplete (state (co g)) = false -> pending (state (co g)) = ∅ ->
    in_flight (state (co g)) = ∅ -> announced (state (co g)) = latest (state (co g));
  ct_done :
    incomplete (state (co g)) = false ->
    pass_key g = latest (state (co g)) /\ forall x, x ∈ listed g -> x ∈ visited g;
  ct_cover rest :
    remaining (runner g) = Some rest ->
    in_pass (runner g) = Some (pass_key g) /\
    forall x, x ∈ listed g -> x ∈ visited g \/ x ∈ rest;
}.

Lemma next_due_le s id e :
  pending s !! id = Some e -> in_flight s !! id = None ->
  exists d, next_due s = Some d /\ d <= pe_due e.
Proof.
  intros Hp Hf. unfold next_due.
  assert ((id, e) ∈ map_to_list (free_pending s)) as Hin.
  { apply elem_of_map_to_list, map_lookup_filter_Some. done. }
  induction (map_to_list (free_pending s)) as [|[id' e'] l IH]; [by apply not_elem_of_nil in Hin|].
  cbn. apply elem_of_cons in Hin as [[= <- <-]|Hin].
  - destruct (foldr _ _ _); cbn; eexists; split; [done|lia|done|lia].
  - destruct (IH Hin) as (d & -> & Hd). cbn. eexists. split; [done|]. lia.
Qed.

Lemma Control_initial : Control initial.
Proof.
  split; cbn; try done; try by intros [].
  intros _. split; [done|]. by intros x ?%not_elem_of_nil.
Qed.

(** A step of another task, which leaves the loop where it is. *)
Lemma Control_frame g g' :
  runner g' = runner g -> vars g' = vars g -> pass_key g' = pass_key g -> listed g' = listed g ->
  visited g' = visited g -> requests g' = requests g ->
  (cancelled g' = false -> cancelled g = false) ->
  latest (state (co g')) = latest (state (co g)) -> dirty (state (co g')) = dirty (state (co g)) ->
  incomplete (state (co g')) = incomplete (state (co g)) ->
  (wake (co g) = true \/ (0 < requesters g)%nat ->
   wake (co g') = true \/ (0 < requesters g')%nat) ->
  (forall d, retried (wake (co g)) d (state (co g)) -> retried (wake (co g')) d (state (co g'))) ->
  (incomplete (state (co g)) = false -> pending (state (co g')) = ∅ -> in_flight (state (co g')) = ∅ ->
   announced (state (co g')) = latest (state (co g))) ->
  Control g -> Control g'.
Proof.
  intros Hr Hv Hpk Hl Hvis Hn Hc HL Hd Hi Hw Hret Ha [].
  split; rewrite ?Hr, ?Hv, ?Hpk, ?Hl, ?Hvis, ?Hn, ?HL, ?Hd, ?Hi; auto.
Qed.

(** A step that keeps the locked state up to the processed map. *)
Lemma Control_same g g' p :
  runner g' = runner g -> vars g' = vars g -> pass_key g' = pass_key g -> listed g' = listed g ->
  visited g' = visited g -> requests g' = requests g ->
  (cancelled g' = false -> cancelled g = false) ->
  state (co g') = set_processed p (state (co g)) ->
  (wake (co g) = true -> wake (co g') = true) ->
  ((0 < requesters g)%nat -> wake (co g') = true \/ (0 < requesters g')%nat) ->
  Control g -> Control g'.
Proof.
  intros Hr Hv Hpk Hl Hvis Hn Hc Hs Hw Hq HC. pose proof (ct_announced _ HC) as Ha.
  revert HC. apply Control_frame; rewrite ?Hs; cbn; try done.
  - naive_solver.
  - intros d Hret id e Hp Hf. destruct (Hret id e Hp Hf); auto.
Qed.

(** ** Steps of the other tasks *)

Lemma retried_reserved w d id r s :
  retried w d s -> retried w d (set_in_flight (<[id := r]> (in_flight s)) s).
Proof. intros Hret id' e Hp Hf. cbn in Hp, Hf. apply lookup_insert_None in Hf as [Hf _]. eauto. Qed.

Lemma Control_reserve now id et terminal w owner g got g' :
  reserve_and_hold now id et terminal w owner g = (got, g') -> Control g -> Control g'.
Proof.
  intros [(_ & Hn & ->)|(_ & held & Hs & ->)]%reserve_and_hold_spec;
    apply Control_frame; cbn; try done.
  - intros d. apply retried_reserved.
  - intros _ _ Hf. by apply insert_non_empty in Hf.
  - intros d. apply retried_reserved.
  - intros _ _ Hf. by apply insert_non_empty in Hf.
Qed.

(** What a hold leaves of the control: everything but the wait of its owner. *)
Lemma Control_settle t h now error key p g :
  is_Some (in_flight (state (co g)) !! h_container h) -> Control g ->
  Control (note_outcome (h_container h) key (settled error)
    (put_hold t p (with_co (settle now (h_container h) key error (co g)) g))).
Proof.
  intros [r Hr]. apply Control_frame; cbn; try done.
  - intros d Hret id e Hp Hf. cbn in Hp, Hf. apply (Hret id e); [|done]. rewrite <- Hp.
    symmetry. apply settle_pending_other. congruence.
  - intros _ _ Hf. by rewrite Hf in Hr.
Qed.

Lemma Control_release t h w g :
  (wake (co g) = true -> w = true) ->
  (is_Some (pending (state (co g)) !! h_container h) -> w = true) -> Control g ->
  Control (with_holds (delete t (holds g)) (tickets g)
    (with_co (set_wake w (on_state (fun s =>
       announce_locked (set_in_flight (delete (h_container h) (in_flight s)) s)) (co g))) g)).
Proof.
  intros Hw Hp.
  set (s := set_in_flight (delete (h_container h) (in_flight (state (co g)))) (state (co g))).
  destruct (announce_locked_set s) as [k Hk]. pose proof (announce_locked_done s) as Hdone.
  apply Control_frame; cbn; fold s; rewrite ?Hk; cbn; try done.
  - intros [?|?]; auto.
  - intros d Hret id e He Hf. cbn in He, Hf.
    apply lookup_delete_None in Hf as [<-|Hf]; [left; eauto|].
    destruct (Hret id e He Hf); auto.
  - rewrite Hk in Hdone. auto.
Qed.

Lemma Control_resume g : Control g -> Control (with_runner (resume (runner g)) g).
Proof.
  intros []. split; cbn; try done; destruct (runner g); cbn in *; eauto; done.
Qed.

Lemma Control_callers l n g : Control g -> Control (with_callers l n g).
Proof.
  apply (Control_same _ _ (processed (state (co g)))); cbn; auto. by destruct (state (co g)).
Qed.

Lemma Control_hold t h i g g' :
  excl g -> holds g !! t = Some h -> hold_step t h i g = Some g' -> Control g -> Control g'.
Proof.
  intros HE Ht Hs HC. destruct (ex_hold _ _ _ HE _ _ Ht) as (r & Er & _).
  unfold hold_step in Hs. destruct i, (h_phase h); try done; simplify_eq.
  - revert HC. apply (Control_same _ _ (processed (state (co g)))); cbn; auto.
    by destruct (state (co g)).
  - by apply Control_settle.
  - revert HC. by eapply Control_same; cbn; auto.
  - destruct (next _ _ _) as [work c] eqn:En.
    destruct (next_spec _ _ _ _ _ _ Er En)
      as [(-> & Hb & r' & _ & _ & ->)|(-> & _ & w & Hw & Hp & ->)];
      [cbn [fst snd] in Hs; rewrite Hb in Hs|cbn in Hs]; simplify_eq.
    + revert HC. apply Control_frame; cbn; try done.
      * intros d. apply retried_reserved.
      * intros _ _ Hf. by apply insert_non_empty in Hf.
    + pose proof (Control_release t h w g Hw Hp HC) as HC'.
      unfold hold_ended. destruct (h_owner h); [by apply Control_resume| |done].
      destruct (h_error h); [|done]. by apply Control_callers.
Qed.

Lemma Control_request gen g :
  Control g -> Control (count_request (with_co (request gen (co g)) g)).
Proof.
  intros []. split; cbn; try done; eauto.
  - intros k Hk. destruct (ct_stale0 k Hk). lia.
  - lia.
  - intros. right. lia.
  - intros d Hd id e He Hf. cbn in He, Hf. rewrite lookup_fmap in He.
    apply fmap_Some in He as (e' & He & ->). exact (ct_retry0 d Hd id e' He Hf).
Qed.

(** ** Steps of the loop *)

Lemma remaining_in_pass r rest : remaining r = Some rest -> is_Some (in_pass r).
Proof. destruct r; cbn; intros; simplify_eq; eauto. Qed.

(** The loop goes to a place outside of a pass. *)
Lemma Control_goto g g' :
  in_pass (runner g') = None ->
  pass_key g' = pass_key g -> listed g' = listed g -> visited g' = visited g ->
  requests g' = requests g ->
  latest (state (co g')) = latest (state (co g)) ->
  incomplete (state (co g')) = incomplete (state (co g)) ->
  (incomplete (state (co g)) = false -> pending (state (co g')) = ∅ -> in_flight (state (co g')) = ∅ ->
   announced (state (co g')) = latest (state (co g))) ->
  (dirty (state (co g')) = true -> incomplete (state (co g)) = true) ->
  (is_Some (list_retry (vars g')) -> incomplete (state (co g)) = true) ->
  (cancelled g' = false -> incomplete (state (co g)) = true ->
   dirty (state (co g')) = true \/ is_Some (list_retry (vars g'))) ->
  (waits (runner g') = true -> dirty (state (co g')) = true ->
   wake (co g') = true \/ (0 < requesters g')%nat) ->
  (forall d, asleep (runner g') = Some d -> retried (wake (co g')) d (state (co g'))) ->
  Control g -> Control g'.
Proof.
  intros Hr Hk Hl Hv Hn HL Hi Ha Hd Hlr Hw Hwk Hret [].
  split; rewrite ?Hr, ?Hk, ?Hl, ?Hv, ?Hn, ?HL, ?Hi; try done.
  - intros Hc Hi'. destruct (Hw Hc Hi'); auto.
  - intros rest Hrest. apply remaining_in_pass in Hrest as [? Hx]. congruence.
Qed.

(** The loop outside of a pass, the locked state kept. *)
Lemma Control_loop g r v :
  in_pass (runner g) = None \/ cancelled g = true -> in_pass r = None ->
  list_retry v = list_retry (vars g) ->
  (waits r = true -> dirty (state (co g)) = true ->
   wake (co g) = true \/ (0 < requesters g)%nat) ->
  (forall d, asleep r = Some d -> retried (wake (co g)) d (state (co g))) ->
  Control g -> Control (with_run r v g).
Proof.
  intros Hp Hr Hv Hw Hret HC. pose proof HC as []. revert HC.
  apply Control_goto; cbn; rewrite ?Hv; try done.
  intros Hc Hi. destruct (ct_work0 Hc Hi) as [?|[[? Hx]|?]]; auto.
  destruct Hp; congruence.
Qed.

Lemma Control_take g :
  epoch (latest (state (co g))) <= requests g -> dirty (state (co g)) = true -> Control g ->
  Control (with_runner (Listing (latest (state (co g))))
             (with_state (set_dirty false (state (co g))) g)).
Proof. intros He Hd []. split; cbn; eauto; try done; naive_solver. Qed.

Lemma Control_listed key ids g :
  runner g = Listing key -> Control g ->
  Control (with_runner (Passing key ids) (note_list key ids g)).
Proof.
  intros Hr []. rewrite Hr in *. split; cbn in *; eauto; try done.
  - by destruct (ct_stale0 key).
  - intros Hi. rewrite (ct_pass0 key) in Hi; done.
  - intros rest [= <-]. auto.
Qed.

(** The end of a pass whose list failed, or that was superseded. *)
Lemma Control_failed now key g :
  in_pass (runner g) = Some key -> Control g ->
  Control (end_pass now ListFailed (with_state (report_locked (state (co g))) g)).
Proof.
  intros Hr HC. pose proof HC as []. pose proof (ct_pass0 _ Hr) as Hi. revert HC.
  destruct (report_locked_set (state (co g))) as [k Hk].
  apply Control_goto; cbn; rewrite ?Hk; cbn; try done; eauto. congruence.
Qed.

Lemma Control_superseded now key g :
  in_pass (runner g) = Some key -> cancelled g = true \/ latest (state (co g)) <> key ->
  Control g -> Control (end_pass now Superseded g).
Proof.
  intros Hr Hx HC. pose proof HC as []. revert HC. apply Control_goto; cbn; try done.
  intros Hc Hi. left. apply not_false_is_true. intros Hd. destruct Hx as [?|Hne]; [congruence|].
  apply Hne. symmetry. by apply ct_key0.
Qed.

Lemma Control_done now key g :
  runner g = Passing key [] -> epoch (latest (state (co g))) = requests g -> Control g ->
  Control (end_pass now Done (with_co (finish_pass key (co g)) g)).
Proof.
  intros Hr He HC. pose proof HC as []. rewrite Hr in *. cbn in ct_pass0, ct_key0, ct_cover0, ct_stale0.
  pose proof (ct_pass0 _ eq_refl) as Hi. unfold finish_pass. case_bool_decide as Hk.
  - set (s := set_incomplete false (state (co g))).
    destruct (report_locked_set s) as [k Hs]. pose proof (report_locked_done s eq_refl) as Hd.
    assert (Hdirty : dirty (state (co g)) = false).
    { apply not_true_is_false. intros Hd'. destruct (ct_stale0 _ eq_refl) as [_ Hlt].
      rewrite Hk in Hlt. specialize (Hlt Hd'). lia. }
    split; cbn; fold s; rewrite ?Hs; cbn; try done; eauto; try (by intros []).
    + intros _. rewrite Hs in Hd. exact Hd.
    + intros _. destruct (ct_cover0 [] eq_refl) as [[= Hk'] Hcov]. split; [congruence|].
      intros x Hx. by destruct (Hcov x Hx) as [?|?%not_elem_of_nil].
  - revert HC. destruct (report_locked_set (state (co g))) as [k Hs].
    apply Control_goto; cbn; rewrite ?Hs; cbn; try done; try congruence; try (by intros []).
    intros _ _. left. apply not_false_is_true. intros Hd. apply Hk. by apply ct_key0.
Qed.

(** The loop goes on to the next container of the pass. *)
Lemma Control_onward r g :
  in_pass r = in_pass (runner g) -> asleep r = None -> waits r = false ->
  (forall rest, remaining r = Some rest -> is_Some (remaining (runner g)) /\
    forall rest' x, remaining (runner g) = Some rest' -> x ∈ rest' -> x ∈ visited g \/ x ∈ rest) ->
  Control g -> Control (with_runner r g).
Proof.
  intros Hp Ha Hw Hrest []. split; cbn; rewrite ?Hp, ?Ha, ?Hw; try done.
  intros rest Hr. destruct (Hrest rest Hr) as [[rest' Hr'] Hsub].
  destruct (ct_cover0 _ Hr') as [? Hcov]. split; [done|]. intros x Hx.
  destruct (Hcov x Hx); eauto.
Qed.

Lemma Control_note_visit id g : Control g -> Control (note_visit id g).
Proof.
  intros []. split; cbn; try done.
  - intros Hi. destruct (ct_done0 Hi) as [? Hl]. split; [done|]. intros x Hx.
    apply elem_of_union. right. auto.
  - intros rest Hr. destruct (ct_cover0 _ Hr) as [? Hl]. split; [done|]. intros x Hx.
    destruct (Hl x Hx); [|by right]. left. apply elem_of_union. by right.
Qed.

(** A reservation leaves the loop's own fields alone. *)
Lemma reserve_keeps now id et terminal w owner g got g' :
  reserve_and_hold now id et terminal w owner g = (got, g') ->
  runner g' = runner g /\ visited g' = visited g.
Proof. by intros [(_ & _ & ->)|(_ & held & _ & ->)]%reserve_and_hold_spec. Qed.

Lemma Control_visit key id rest now w got g g1 :
  runner g = Reserving key id rest ->
  reserve_and_hold now id None false w ByRun (note_visit id g) = (got, g1) ->
  Control g -> Control (with_runner (if got then Visiting key rest else Passing key rest) g1).
Proof.
  intros Hr Hres HC. destruct (reserve_keeps _ _ _ _ _ _ _ _ _ Hres) as [Hr1 Hv1].
  cbn in Hr1, Hv1. rewrite Hr in Hr1.
  apply Control_onward; rewrite ?Hr1; cbn; try by destruct got.
  - intros rest' Hrest. split; [by eexists|].
    assert (rest' = rest) as -> by (destruct got; cbn in Hrest; congruence).
    intros l x [= <-] [->|?]%elem_of_cons; [|by right]. left. rewrite Hv1. set_solver.
  - eapply Control_reserve; [done|]. by apply Control_note_visit.
Qed.


(** Outside of a pass, work that is left was requested or its list is retried. *)
Lemma work_outside g :
  Control g -> in_pass (runner g) = None -> cancelled g = false ->
  incomplete (state (co g)) = true ->
  dirty (state (co g)) = true \/ is_Some (list_retry (vars g)).
Proof.
  intros HC Hr Hc Hi. destruct (ct_work _ HC Hc Hi) as [?|[[k Hk]|?]]; auto. congruence.
Qed.

Lemma Control_notify g : Control g -> Control (with_co (notify_one (co g)) g).
Proof.
  apply (Control_same _ _ (processed (state (co g)))); cbn; auto. by destruct (state (co g)).
Qed.

(** The loop arms its deadlines, and keeps them while it sleeps. *)
Lemma Control_arm g :
  runner g = Arming -> Control g -> Control (with_runner (Pruning (next_due (state (co g)))) g).
Proof.
  intros Hr HC. apply Control_loop; auto; try done; [by left; rewrite Hr| |].
  - intros _. apply (ct_wake _ HC). by rewrite Hr.
  - intros d [= <-] id e Hp Hf. right. exact (next_due_le _ _ _ Hp Hf).
Qed.

Lemma Control_sleep r p g :
  runner g = Pruning r -> Control g -> Control (with_run (Selecting r) (set_prune p (vars g)) g).
Proof.
  intros Hr HC. apply Control_loop; auto; try done; [by left; rewrite Hr| |].
  - intros _. apply (ct_wake _ HC). by rewrite Hr.
  - intros d [= <-]. apply (ct_retry _ HC). by rewrite Hr.
Qed.

Lemma Control_retried g :
  runner g = Retrying [] -> Control g ->
  Control (with_runner Top (with_state (report_locked (state (co g))) g)).
Proof.
  intros Hr HC. pose proof (report_locked_done (state (co g))) as Hd.
  pose proof (work_outside g HC) as Hw. rewrite Hr in Hw. pose proof HC as []. revert HC.
  destruct (report_locked_set (state (co g))) as [k Hk]. rewrite Hk in Hd.
  apply Control_goto; cbn; rewrite ?Hk; cbn; auto; done.
Qed.

Lemma Control_step g g' :
  excl g -> epoch (latest (state (co g))) = requests g -> moved g g' -> Control g -> Control g'.
Proof.
  intros HE He Hm HC. destruct Hm as [| | | | | |???? g1 Hr|????? g1 Hr| | | | | | | |key now| | |
    ????? g1 Hv Hr| | | | | | | | |???? g1 Hv Hr|t h i g' Ht Hs].
  - by apply Control_request.
  - revert HC. apply (Control_same _ _ (processed (state (co g)))); cbn; auto.
    by destruct (state (co g)).
  - revert HC. apply (Control_same _ _ (processed (state (co g)))); cbn; auto; try done.
    by destruct (state (co g)).
  - by apply Control_callers.
  - by apply Control_callers, Control_notify.
  - apply Control_callers. revert HC. by eapply Control_same; cbn; auto.
  - exact (Control_reserve _ _ _ _ _ _ _ _ _ Hr HC).
  - apply (Control_reserve _ _ _ _ _ _ _ _ _ Hr). by apply Control_callers.
  - by apply Control_loop; auto.
  - apply Control_take; [lia|done..].
  - apply Control_loop; auto; try done; [by left; rewrite H|congruence].
  - by apply Control_arm.
  - by apply Control_sleep.
  - by eapply Control_failed; [rewrite H|].
  - by eapply Control_listed.
  - by apply Control_done.
  - by eapply Control_superseded; [rewrite H| |].
  - apply Control_onward; rewrite ?H; cbn; try done. intros ? [= <-]. split; [by eexists|].
    intros ? x [= <-] ?. by right.
  - by eapply Control_visit.
  - pose proof (work_outside g HC ltac:(by rewrite H)). pose proof HC as []. revert HC.
    apply Control_goto; cbn; auto; done.
  - pose proof HC as []. revert HC. apply Control_goto; cbn; auto; done.
  - pose proof (work_outside g HC ltac:(by rewrite H)). pose proof HC as []. revert HC.
    apply Control_goto; cbn; auto; done.
  - apply Control_loop; auto; try done. left. by rewrite H.
  - apply Control_loop; auto; try done. left. by rewrite H.
  - apply Control_loop; auto; try done. left. by rewrite H.
  - by apply Control_retried.
  - apply Control_loop; auto; done.
  - destruct (reserve_keeps _ _ _ _ _ _ _ _ _ Hr) as [Hr1 _].
    apply Control_loop; [left; by rewrite Hr1, Hv|by destruct got|done|by destruct got|
      by destruct got|by eapply Control_reserve].
  - by eapply Control_hold.
Qed.

(** ** How fresh the outcomes of a pass are *)

(** The last settled reconcile of the container began under the latest request
    and succeeded (or the container is gone), or it is still to be retried. *)
Definition good (L : PassKey) (p : gmap string PendingEntry)
    (out : gmap string (PassKey * bool)) (id : string) : Prop :=
  out !! id = Some (L, true) \/ is_Some (p !! id).

Definition hold_fresh (L : PassKey) (ok : Prop) (h : Hold) : Prop :=
  match h_phase h with
  | Starting => h_reconcile h = true \/ ok
  | Processing k _ => k = L
  | Marking _ | Ending => ok
  end.

Definition Fresh (s : State) (m : gmap nat Hold) (out : gmap string (PassKey * bool))
    (id : string) : Prop :=
  let ok := good (latest s) (pending s) out id in
  match in_flight s !! id with
  | None => ok
  | Some r => queued_reconcile r = true \/
      forall t h, m !! t = Some h -> h_container h = id -> hold_fresh (latest s) ok h
  end.

Definition fresh (g : Config) : Prop :=
  pass_key g = latest (state (co g)) ->
  forall id, id ∈ visited g -> Fresh (state (co g)) (holds g) (outcome g) id.

Lemma hold_fresh_mono L (P Q : Prop) h : (P -> Q) -> hold_fresh L P h -> hold_fresh L Q h.
Proof. intros HPQ. unfold hold_fresh. destruct (h_phase h); naive_solver. Qed.

(** What happens to other containers does not matter. *)
Lemma Fresh_frame s s' m m' out out' id :
  latest s' = latest s -> in_flight s' !! id = in_flight s !! id ->
  (forall t h, m' !! t = Some h -> h_container h = id -> m !! t = Some h) ->
  (good (latest s) (pending s) out id -> good (latest s) (pending s') out' id) ->
  Fresh s m out id -> Fresh s' m' out' id.
Proof.
  intros HL Hf Hm Hg. unfold Fresh. rewrite HL, Hf. destruct (in_flight s !! id); [|done].
  intros [?|Hh]; [by left|right]. intros t h Ht Hc. eapply hold_fresh_mono; eauto.
Qed.

Lemma fresh_reserve now id et terminal w owner g got g' :
  reserve_and_hold now id et terminal w owner g = (got, g') ->
  w_reconcile w = negb terminal -> excl g ->
  (forall c, c ∈ visited g -> pass_key g = latest (state (co g)) -> c <> id \/ et <> None ->
    Fresh (state (co g)) (holds g) (outcome g) c) ->
  (et = None -> terminal = false) -> fresh g'.
Proof.
  intros [(_ & Hn & ->)|(_ & held & Hs & ->)]%reserve_and_hold_spec Hw HE HF Het HL c Hc;
    cbn in HL, Hc; cbn; destruct (decide (c = id)) as [->|Hne].
  - unfold Fresh. cbn. rewrite lookup_insert_eq. right.
    intros t h [[<- <-]|[_ Ht]]%lookup_insert_Some Hid; cbn.
    + rewrite Hw. destruct terminal; [|by left]. right.
      assert (Fresh (state (co g)) (holds g) (outcome g) id) as Hf.
      { apply HF; [done..|]. right. intros ->. by specialize (Het eq_refl). }
      unfold Fresh in Hf. by rewrite Hn in Hf.
    + destruct (ex_hold _ _ _ HE _ _ Ht) as (r & Er & _). congruence.
  - eapply Fresh_frame, HF; cbn; auto; [by rewrite lookup_insert_ne|].
    intros t h [[<- <-]|[_ Ht]]%lookup_insert_Some Hid; [|done]. by destruct Hne.
  - unfold Fresh. cbn. rewrite lookup_insert_eq. destruct et as [t|].
    + assert (Fresh (state (co g)) (holds g) (outcome g) id) as Hf by (apply HF; auto).
      unfold Fresh in Hf. rewrite Hs in Hf. destruct Hf; [left; by apply leave_queued|by right].
    + rewrite Het by done. by left.
  - eapply Fresh_frame, HF; cbn; auto. by rewrite lookup_insert_ne.
Qed.

Lemma settle_pending_failed now id key k error p :
  settled error = false -> is_Some (settle_pending now id key k error p !! id).
Proof. unfold settle_pending. intros ->. case_match; rewrite lookup_insert_eq; eauto. Qed.

(** The hold of a container is the only one to look at. *)
Lemma hold_fresh_put f m n t h h' L ok :
  Excl f m n -> m !! t = Some h -> hold_fresh L ok h' ->
  forall t' x, <[t := h']> m !! t' = Some x -> h_container x = h_container h -> hold_fresh L ok x.
Proof.
  intros HE Ht Hh t' x [[<- <-]|[Hne Hx]]%lookup_insert_Some Hc; [done|].
  destruct Hne. by eapply ex_inj.
Qed.

(** A step of a hold, seen from the containers of the other holds. *)
Lemma Fresh_other t h h' s s' m out out' id :
  m !! t = Some h -> h_container h' = h_container h -> id <> h_container h ->
  latest s' = latest s -> in_flight s' !! id = in_flight s !! id ->
  pending s' !! id = pending s !! id -> out' !! id = out !! id ->
  Fresh s m out id -> Fresh s' (<[t := h']> m) out' id.
Proof.
  intros Ht Hc Hne HL Hf Hp Ho. apply Fresh_frame; [done|done| |].
  - intros t' x [[<- <-]|[_ Hx]]%lookup_insert_Some Hid; [congruence|done].
  - unfold good. by rewrite Hp, Ho.
Qed.

(** A step of a hold keeps what it says of its container. *)
Lemma Fresh_own t h h' s s' m n out out' :
  Excl (in_flight s) m n -> m !! t = Some h -> h_container h' = h_container h ->
  latest s' = latest s -> in_flight s' = in_flight s ->
  (hold_fresh (latest s) (good (latest s) (pending s) out (h_container h)) h ->
   hold_fresh (latest s) (good (latest s) (pending s') out' (h_container h)) h') ->
  Fresh s m out (h_container h) -> Fresh s' (<[t := h']> m) out' (h_container h).
Proof.
  intros HE Ht Hc HL Hf Hh. unfold Fresh. rewrite HL, Hf.
  destruct (ex_hold _ _ _ HE _ _ Ht) as (r & -> & _). intros [?|Hold]; [by left|right].
  eapply hold_fresh_put; [done..|]. apply Hh. by apply (Hold t).
Qed.

Lemma fresh_begin t h started g :
  holds g !! t = Some h -> h_phase h = Starting -> excl g -> fresh g ->
  fresh (put_hold t (set_phase (if h_reconcile h
    then Processing (current (state (co g))) started else Ending) h) g).
Proof.
  intros Ht Hp HE HF HL id Hid. specialize (HF HL id Hid). cbn.
  destruct (decide (id = h_container h)) as [->|Hne].
  - eapply Fresh_own; [exact HE|exact Ht|done..| |exact HF]. unfold hold_fresh. rewrite Hp. cbn.
    destruct (h_reconcile h); [done|]. by intros [?|?].
  - eapply (Fresh_other _ _ _ (state (co g)) _ _ (outcome g)); [exact Ht|done..|exact HF].
Qed.

Lemma fresh_outcome t h now error key started p g :
  holds g !! t = Some h -> h_phase h = Processing key started -> p = Ending \/ (exists i, p = Marking i) ->
  excl g -> fresh g ->
  fresh (note_outcome (h_container h) key (settled error)
    (put_hold t (set_phase p (set_error error h))
      (with_co (settle now (h_container h) key error (co g)) g))).
Proof.
  intros Ht Hp Hph HE HF HL id Hid. specialize (HF HL id Hid). cbn.
  destruct (decide (id = h_container h)) as [->|Hne].
  - eapply Fresh_own; [exact HE|exact Ht|done..| |exact HF]. intros Hk. unfold hold_fresh in Hk. rewrite Hp in Hk.
    subst key. unfold hold_fresh. cbn.
    assert (good (latest (state (co g)))
      (settle_pending now (h_container h) (latest (state (co g))) (latest (state (co g))) error
         (pending (state (co g))))
      (<[h_container h := (latest (state (co g)), settled error)]> (outcome g)) (h_container h)).
    { unfold good. destruct (settled error) eqn:Es.
      - left. by rewrite lookup_insert_eq.
      - right. by apply settle_pending_failed. }
    by destruct Hph as [->|[? ->]].
  - eapply (Fresh_other _ _ _ (state (co g)) _ _ (outcome g)); [exact Ht|done..| | |exact HF]; cbn.
    + by rewrite settle_pending_other.
    + by rewrite lookup_insert_ne.
Qed.

Lemma fresh_mark t h started g :
  holds g !! t = Some h -> h_phase h = Marking started -> excl g -> fresh g ->
  fresh (put_hold t (set_phase Ending h)
    (with_state (mark_processed (h_container h) started (state (co g))) g)).
Proof.
  intros Ht Hp HE HF HL id Hid. specialize (HF HL id Hid). cbn.
  destruct (decide (id = h_container h)) as [->|Hne].
  - eapply Fresh_own; [exact HE|exact Ht|done..| |exact HF]. unfold hold_fresh. by rewrite Hp.
  - eapply (Fresh_other _ _ _ (state (co g)) _ _ (outcome g)); [exact Ht|done..|exact HF].
Qed.

(** The end of the work of a hold leaves its container good, or with a follow-up. *)
Lemma ending_good t h r g :
  holds g !! t = Some h -> h_phase h = Ending ->
  in_flight (state (co g)) !! h_container h = Some r ->
  Fresh (state (co g)) (holds g) (outcome g) (h_container h) ->
  queued_reconcile r = true \/
  good (latest (state (co g))) (pending (state (co g))) (outcome g) (h_container h).
Proof.
  intros Ht Hp Hr. unfold Fresh. rewrite Hr. intros [?|Hf]; [by left|right].
  specialize (Hf _ _ Ht eq_refl). unfold hold_fresh in Hf. by rewrite Hp in Hf.
Qed.

Lemma fresh_next t h now g g' :
  holds g !! t = Some h -> h_phase h = Ending -> hold_step t h (Next now) g = Some g' ->
  excl g -> fresh g -> fresh g'.
Proof.
  intros Ht Hp Hs HE HF. destruct (ex_hold _ _ _ HE _ _ Ht) as (r & Er & _).
  unfold hold_step in Hs. rewrite Hp in Hs. destruct (next _ _ _) as [work c] eqn:En.
  destruct (next_spec _ _ _ _ _ _ Er En)
    as [(-> & Hb & r' & _ & Hq & ->)|(-> & Hq & w & _ & _ & ->)];
    [cbn [fst snd] in Hs; rewrite Hb in Hs|cbn in Hs]; simplify_eq.
  - intros HL id Hid. specialize (HF HL id Hid). cbn.
    destruct (decide (id = h_container h)) as [->|Hne].
    + unfold Fresh. cbn. rewrite lookup_insert_eq. right.
      eapply hold_fresh_put; [done..|]. cbn. by eapply ending_good.
    + eapply (Fresh_other _ _ _ (state (co g)) _ _ (outcome g)); [exact Ht|done..| |done|done|exact HF]. cbn. by rewrite lookup_insert_ne.
  - set (s := set_in_flight (delete (h_container h) (in_flight (state (co g)))) (state (co g))).
    destruct (announce_locked_set s) as [k Hk].
    enough (fresh (with_holds (delete t (holds g)) (tickets g) (with_state s g))) as Hf.
    { unfold hold_ended, fresh in *. destruct (h_owner h); [|destruct (h_error h)|];
        cbn in *; fold s; rewrite Hk; exact Hf. }
    intros HL id Hid. specialize (HF HL id Hid). unfold Fresh. cbn.
    destruct (decide (id = h_container h)) as [->|Hne].
    + rewrite lookup_delete_eq. destruct (ending_good _ _ _ _ Ht Hp Er HF); [congruence|done].
    + revert HF. apply (Fresh_frame _ s); cbn; auto; [by rewrite lookup_delete_ne|].
      by intros t' x [_ Hx]%lookup_delete_Some.
Qed.

Lemma fresh_hold t h i g g' :
  holds g !! t = Some h -> hold_step t h i g = Some g' -> excl g -> fresh g -> fresh g'.
Proof.
  intros Ht Hs HE HF. destruct i, (h_phase h) eqn:Hp; unfold hold_step in Hs; rewrite Hp in Hs;
    try done; simplify_eq.
  - by apply fresh_begin.
  - eapply fresh_outcome; [done..| |done|done]. repeat case_match; eauto.
  - by eapply fresh_mark.
  - eapply fresh_next; [done..| |done|done]. unfold hold_step. by rewrite Hp.
Qed.

(** A step that keeps what [fresh] speaks of. *)
Lemma fresh_same g g' :
  pass_key g' = pass_key g -> visited g' = visited g -> holds g' = holds g ->
  outcome g' = outcome g -> latest (state (co g')) = latest (state (co g)) ->
  in_flight (state (co g')) = in_flight (state (co g)) ->
  pending (state (co g')) = pending (state (co g)) -> fresh g -> fresh g'.
Proof.
  intros Hk Hv Hh Ho HL Hf Hp HF. unfold fresh, Fresh. by rewrite Hk, Hv, Hh, Ho, HL, Hf, Hp.
Qed.

Lemma fresh_request gen g :
  tagged g -> epoch (pass_key g) <= requests g -> requests g + 1 < 2 ^ 64 ->
  fresh (count_request (with_co (request gen (co g)) g)).
Proof.
  intros HT Hb Hn HL. exfalso. pose proof (tg_epoch _ _ (Tagged_request gen _ _ HT)) as He.
  cbn in HL, He. rewrite HL in Hb. cbn in Hb. rewrite He in Hb.
  pose proof (tg_count _ _ HT). unfold wrapu in Hb. rewrite Z.mod_small in Hb; lia.
Qed.

Lemma fresh_visit key id rest now got g g1 :
  reserve_and_hold now id None false
    {| w_reconcile := true; w_terminate_at := None; w_enumerated := true |} ByRun
    (note_visit id g) = (got, g1) ->
  excl g -> fresh g ->
  fresh (with_runner (if got then Visiting key rest else Passing key rest) g1).
Proof.
  intros Hr HE HF. eapply (fresh_same g1); [done..|].
  eapply fresh_reserve; [done|done|exact HE| |done]. cbn. intros c Hc HL [Hne|?]; [|done].
  apply (HF HL). set_solver.
Qed.

Lemma fresh_step g g' :
  excl g -> tagged g -> epoch (pass_key g) <= requests g -> requests g' < 2 ^ 64 ->
  moved g g' -> fresh g -> fresh g'.
Proof.
  intros HE HT Hb Hn Hm HF. destruct Hm as [| | | | | |???? g1 Hr|????? g1 Hr| | | | | | | |key now| | |
    ????? g1 Hv Hr| | | | | | | | |???? g1 Hv Hr|t h i g' Ht Hs];
    try (revert HF; by apply fresh_same).
  - by apply fresh_request.
  - eapply fresh_reserve; [done|done|done| |done]. intros c Hc HL _. by apply HF.
  - eapply fresh_reserve; [done|done|exact HE| |done]. intros c Hc HL _. by apply HF.
  - revert HF. destruct (report_locked_set (state (co g))) as [k Hk].
    apply fresh_same; cbn; rewrite ?Hk; done.
  - intros _ id Hid. cbn in Hid. set_solver.
  - revert HF. destruct (finish_pass_spec key (co g)) as [k Hk].
    apply fresh_same; cbn -[finish_pass]; rewrite ?Hk; by case_bool_decide.
  - by eapply fresh_visit.
  - revert HF. destruct (report_locked_set (state (co g))) as [k Hk].
    apply fresh_same; cbn; rewrite ?Hk; done.
  - eapply (fresh_same g1); [done..|].
    eapply fresh_reserve; [done|done|exact HE| |done]. intros c Hc HL _. by apply HF.
  - by eapply fresh_hold.
Qed.

(** ** The invariant *)

Record Inv (g : Config) : Prop := {
  inv_excl : excl g;
  inv_tagged : tagged g;
  inv_control : Control g;
  inv_fresh : fresh g;
}.

Lemma hold_requests t h i g g' : hold_step t h i g = Some g' -> requests g' = requests g.
Proof.
  unfold hold_step, hold_ended. intros Hs. destruct i, (h_phase h); try done; simplify_eq; try done.
  destruct (next _ _ _) as [work c]. repeat case_match; by simplify_eq.
Qed.

Lemma moved_requests g g' : moved g g' -> requests g <= requests g'.
Proof.
  intros Hm.
  assert (Hres : forall now id et terminal w owner g got g',
    reserve_and_hold now id et terminal w owner g = (got, g') -> requests g' = requests g).
  { intros. by destruct (reserve_and_hold_spec _ _ _ _ _ _ _ _ _ H) as [(_ & _ & ->)|(_ & ? & _ & ->)]. }
  destruct Hm; cbn; try lia;
    try (match goal with H : reserve_and_hold _ _ _ _ _ _ _ = _ |- _ => apply Hres in H end; cbn in *; lia).
  erewrite (hold_requests _ _ _ _ g'); [|done]. lia.
Qed.

Lemma Inv_initial : Inv initial.
Proof.
  split.
  - by split; cbn; intros *; rewrite ?lookup_empty.
  - split; cbn; try done; intros *; by rewrite ?lookup_empty.
  - apply Control_initial.
  - intros _ id Hid. cbn in Hid. set_solver.
Qed.

Lemma Inv_step g g' : moved g g' -> requests g' < 2 ^ 64 -> Inv g -> Inv g'.
Proof.
  intros Hm Hn [HE HT HC HF]. pose proof (moved_requests _ _ Hm).
  assert (epoch (latest (state (co g))) = requests g) as He.
  { rewrite (tg_epoch _ _ HT). pose proof (tg_count _ _ HT). apply Z.mod_small. lia. }
  split.
  - by eapply excl_step.
  - by eapply tagged_step.
  - by eapply Control_step.
  - eapply fresh_step; [done..| |done|done|done]. apply (ct_bound _ HC).
Qed.

Lemma reachable_Inv g : reachable g -> requests g < 2 ^ 64 -> Inv g.
Proof.
  induction 1 as [|g l g' _ IH Hs]; intros Hn; [apply Inv_initial|].
  apply step_moved in Hs. pose proof (moved_requests _ _ Hs). eapply Inv_step; [done..|].
  apply IH. lia.
Qed.

(** ** Completion *)

Definition nothing_left (s : State) : Prop :=
  incomplete s = false /\ pending s = ∅ /\ announced s = latest s /\
  forall id r, in_flight s !! id = Some r -> busy r = false.

Lemma announce_changed s :
  announced (announce_locked s) <> announced s -> nothing_left (announce_locked s).
Proof. by destruct (announce_locked_spec s) as [->|(? & ? & ? & ->)]. Qed.

Lemma report_changed s :
  announced (report_locked s) <> announced s -> nothing_left (report_locked s).
Proof. destruct (report_locked_spec s) as [-> | ->]; [done|apply announce_changed]. Qed.

Lemma hold_announced t h i g g' :
  excl g -> holds g !! t = Some h -> hold_step t h i g = Some g' ->
  announced (state (co g')) <> announced (state (co g)) -> nothing_left (state (co g')).
Proof.
  intros HE Ht Hs. destruct (ex_hold _ _ _ HE _ _ Ht) as (r & Er & _).
  unfold hold_step in Hs. destruct i, (h_phase h); try done; simplify_eq; try done.
  destruct (next _ _ _) as [work c] eqn:En.
  destruct (next_spec _ _ _ _ _ _ Er En)
    as [(-> & Hb & r' & _ & _ & ->)|(-> & _ & w & _ & _ & ->)];
    [cbn [fst snd] in Hs; rewrite Hb in Hs|cbn in Hs]; simplify_eq; [done|].
  unfold hold_ended. destruct (h_owner h); [|destruct (h_error h)|];
    exact (announce_changed (set_in_flight _ _)).
Qed.

Lemma moved_announced g g' :
  excl g -> moved g g' -> announced (state (co g')) <> announced (state (co g)) ->
  nothing_left (state (co g')).
Proof.
  intros HE Hm Hne. destruct Hm as [| | | | | |???? g1 Hr|????? g1 Hr| | | | | | | |key now| | |
    ????? g1 Hv Hr| | | | | | | | |???? g1 Hv Hr|t h i g' Ht Hs]; try done;
    try (apply reserve_and_hold_spec in Hr as [(_ & _ & ->)|(_ & ? & _ & ->)]; done).
  - by apply report_changed.
  - cbn -[finish_pass] in *. unfold finish_pass in *.
    destruct (bool_decide _); by apply report_changed.
  - by apply report_changed.
  - by eapply hold_announced.
Qed.

(** When nothing is left, the containers of the last pass have settled. *)
Lemma nothing_left_settled g :
  Inv g -> nothing_left (state (co g)) ->
  pass_key g = latest (state (co g)) /\
  forall id, id ∈ listed g -> outcome g !! id = Some (latest (state (co g)), true).
Proof.
  intros [HE _ HC HF] (Hi & Hp & _ & Hb). destruct (ct_done _ HC Hi) as [Hk Hv].
  split; [done|]. intros id Hid. specialize (HF Hk id (Hv id Hid)). unfold Fresh in HF.
  assert (Hgood : good (latest (state (co g))) (pending (state (co g))) (outcome g) id).
  { destruct (in_flight (state (co g)) !! id) as [r|] eqn:Er; [|done].
    pose proof (Hb _ _ Er) as Hr. unfold busy in Hr. apply orb_false_iff in Hr as [Hq Hrun].
    destruct HF as [?|HF]; [congruence|].
    destruct (ex_res _ _ _ HE _ _ Er) as (t & h & Ht & <-). specialize (HF t h Ht eq_refl).
    destruct (ex_hold _ _ _ HE _ _ Ht) as (r' & Er' & Hr' & Hpr).
    assert (h_reconcile h = false) as Hrec by congruence.
    unfold hold_fresh in HF. destruct (h_phase h); [|by rewrite Hrec in Hpr; specialize (Hpr eq_refl)|done..].
    destruct HF; [congruence|done]. }
  destruct Hgood as [?|[e He]]; [done|]. rewrite Hp in He. by rewrite lookup_empty in He.
Qed.

(** At the step that announces a request, every container of its list has settled. *)
Lemma announced_all_settled g l g' :
  reachable g -> step l g = Some g' -> requests g' < 2 ^ 64 ->
  announced (state (co g')) <> announced (state (co g)) ->
  announced (state (co g')) = latest (state (co g')) /\
  pass_key g' = latest (state (co g')) /\
  forall id, id ∈ listed g' -> outcome g' !! id = Some (latest (state (co g')), true).
Proof.
  intros Hr Hs Hn Hne. pose proof (step_moved _ _ _ Hs) as Hm.
  pose proof (moved_requests _ _ Hm). pose proof (reachable_Inv g Hr ltac:(lia)) as HI.
  pose proof (moved_announced _ _ (inv_excl _ HI) Hm Hne) as Hleft.
  split; [apply Hleft|]. apply nothing_left_settled; [|done]. by eapply Inv_step.
Qed.

(** C5. Completion is never announced early: at the step that announces a
    request, the request is the latest one, the last list was made for it, and
    the last reconcile of every container it listed began under that request and
    settled, as a success or because the container is gone. *)
Theorem announced_settled g l g' :
  reachable g -> step l g = Some g' -> requests g' < 2 ^ 64 ->
  announced (state (co g')) <> announced (state (co g)) ->
  announced (state (co g')) = latest (state (co g')) /\
  pass_key g' = latest (state (co g')) /\
  forall id, id ∈ listed g' -> outcome g' !! id = Some (latest (state (co g')), true).
Proof. apply announced_all_settled. Qed.

Lemma reachable_excl g : reachable g -> excl g /\ tagged g.
Proof.
  induction 1 as [|g l g' _ [HE HT] Hs]; [by destruct Inv_initial|].
  apply step_moved in Hs. split; [by eapply excl_step|by eapply tagged_step].
Qed.

(** C28. A container is handled by one hold at a time, which is there exactly
    while the container is reserved; every pending entry is tagged with the
    latest request and backs off within its bounds; the gauges say what the
    state does. *)
Theorem one_hold_per_container g :
  reachable g ->
  (forall t1 t2 h1 h2, holds g !! t1 = Some h1 -> holds g !! t2 = Some h2 ->
    h_container h1 = h_container h2 -> t1 = t2) /\
  (forall id, is_Some (in_flight (state (co g)) !! id) <->
    exists t h, holds g !! t = Some h /\ h_container h = id) /\
  (forall id e, pending (state (co g)) !! id = Some e ->
    pe_key e = latest (state (co g)) /\ MIN_BACKOFF <= pe_backoff e <= MAX_BACKOFF) /\
  gauge_pending (co g) = Z.of_nat (size (pending (state (co g)))) /\
  gauge_incomplete (co g) = incomplete (state (co g)).
Proof.
  intros [HE HT]%reachable_excl.
  split_and!; [apply HE| |split; by eapply HT|apply HT..]. intros id. split.
  - intros [r Hf]. exact (ex_res _ _ _ HE _ _ Hf).
  - intros (t & h & Ht & <-). destruct (ex_hold _ _ _ HE _ _ Ht) as (r & Er & _). by eexists.
Qed.

Lemma no_holds g : excl g -> holds g = ∅ -> in_flight (state (co g)) = ∅.
Proof.
  intros HE Hh. apply map_empty. intros id.
  destruct (in_flight (state (co g)) !! id) eqn:Ef; [|done].
  destruct (ex_res _ _ _ HE _ _ Ef) as (t & h & Ht & _). rewrite Hh in Ht.
  by rewrite lookup_empty in Ht.
Qed.

(** C27. The loop never sleeps past work that is left: asleep with no wake-up on
    its way, no deadline armed and no hold running, it has announced the latest
    request, nothing is pending, and every container of the last list settled
    under that request. *)
Theorem quiescent_complete g :
  reachable g -> requests g < 2 ^ 64 -> cancelled g = false -> runner g = Selecting None ->
  wake (co g) = false -> requesters g = O -> list_retry (vars g) = None -> holds g = ∅ ->
  announced (state (co g)) = latest (state (co g)) /\ pending (state (co g)) = ∅ /\
  forall id, id ∈ listed g -> outcome g !! id = Some (latest (state (co g)), true).
Proof.
  intros Hr Hn Hc Hrun Hw Hq Hl Hh. pose proof (reachable_Inv g Hr Hn) as HI.
  destruct HI as [HE HT HC HF] eqn:E. clear E.
  pose proof (no_holds _ HE Hh) as Hf.
  assert (Hp : pending (state (co g)) = ∅).
  { apply map_empty. intros id. destruct (pending (state (co g)) !! id) as [e|] eqn:Ep; [|done].
    destruct (ct_retry _ HC None) with id e as [?|(d & [=] & _)]; try congruence.
    - by rewrite Hrun.
    - rewrite Hf. apply lookup_empty. }
  assert (Hi : incomplete (state (co g)) = false).
  { apply not_true_is_false. intros Hi. destruct (ct_work _ HC Hc Hi) as [Hd|[[k Hk]|[d Hd]]].
    - destruct (ct_wake _ HC) as [?|?]; [by rewrite Hrun|done|congruence|lia].
    - by rewrite Hrun in Hk.
    - congruence. }
  pose proof (ct_announced _ HC Hi Hp Hf) as Ha. split_and!; [done..|].
  apply nothing_left_settled; [done|]. split_and!; [done..|]. intros id r Hr'.
  rewrite Hf in Hr'. by rewrite lookup_empty in Hr'.
Qed.

End theorems.
