(* ===== verification/CoordinatorProgress.v ===== *)
(** * The coordinator can always complete

    From every reachable configuration the coordinator's own steps lead to the
    announcement of the latest request, if lists and reconciles succeed from
    there on: no interleaving of requests, events, passes, retries and holds
    leaves it stuck. *)

From stdpp Require Import sorting.
From S2P Require Import Prelude.
From S2P Require Import Coordinator.
From S2P Require Import CoordinatorProofs.
From S2P Require Import CoordinatorTheorems.

Section progress.
Context {reconciler : Reconciler} {jiff : JiffNano}.

(** ** A loop that waits for a hold has one *)

Definition awaiting (r : Runner) : bool :=
  match r with Visiting _ _ | RetryAwait _ => true | _ => false end.

Definition awaited (g : Config) : Prop :=
  awaiting (runner g) = true -> exists t h, holds g !! t = Some h /\ h_owner h = ByRun.

Lemma awaiting_resume r : awaiting (resume r) = false.
Proof. by destruct r. Qed.

Lemma awaited_put t h h' g :
  holds g !! t = Some h -> h_owner h' = h_owner h -> awaited g -> awaited (put_hold t h' g).
Proof.
  intros Ht Ho Ha Hr. cbn in Hr. destruct (Ha Hr) as (t' & x & Hx & Hox). cbn.
  destruct (decide (t = t')) as [<-|Hne].
  - exists t, h'. rewrite lookup_insert_eq. split; congruence.
  - exists t', x. by rewrite lookup_insert_ne.
Qed.

Lemma awaited_hold t h i g g' :
  holds g !! t = Some h -> hold_step t h i g = Some g' -> awaited g -> awaited g'.
Proof.
  intros Ht Hs Ha. unfold hold_step in Hs. destruct i, (h_phase h); try done; simplify_eq.
  - by eapply awaited_put.
  - by apply (awaited_put t h _ (with_co _ g)).
  - by apply (awaited_put t h _ (with_state _ g)).
  - destruct (next _ _ _) as [work c]. case_match; simplify_eq.
    + by apply (awaited_put t h _ (with_co _ g)).
    + unfold hold_ended. destruct (h_owner h) eqn:Ho.
      { intros Hr. cbn in Hr. by rewrite awaiting_resume in Hr. }
      all: assert (Hd : awaited (with_holds (delete t (holds g)) (tickets g) (with_co c g)));
        [intros Hr; destruct (Ha Hr) as (t' & x & Hx & Hox); exists t', x; cbn;
         rewrite lookup_delete_ne by congruence; done|].
      * by destruct (h_error h).
      * done.
Qed.

Lemma awaited_reserve now id et terminal w owner g got g' :
  reserve_and_hold now id et terminal w owner g = (got, g') -> excl g -> awaited g -> awaited g'.
Proof.
  intros [(_ & _ & ->)|(_ & ? & _ & ->)]%reserve_and_hold_spec HE Ha Hr; [|by apply Ha].
  destruct (Ha Hr) as (t & h & Ht & Ho). exists t, h. cbn. rewrite lookup_insert_ne; [done|].
  apply (ex_ticket _ _ _ HE) in Ht. lia.
Qed.

(** The loop awaits the hold it was given. *)
Lemma awaited_by_run now id w g got g1 r r' :
  reserve_and_hold now id None false w ByRun g = (got, g1) -> awaiting r' = false ->
  awaited (with_runner (if got then r else r') g1).
Proof.
  intros [(-> & _ & ->)|(-> & ? & _ & ->)]%reserve_and_hold_spec Hr' Hr.
  - exists (tickets g), (new_hold id w ByRun). cbn. by rewrite lookup_insert_eq.
  - cbn in Hr. congruence.
Qed.

Lemma awaited_step g g' : excl g -> moved g g' -> awaited g -> awaited g'.
Proof.
  intros HE Hm Ha. destruct Hm as [| | | | | |???? g1 Hr|????? g1 Hr| | | | | | | |key now| | |
    ????? g1 Hv Hr| | | | | | | | |???? g1 Hv Hr|t h i g' Ht Hs]; try exact Ha; try done.
  - exact (awaited_reserve _ _ _ _ _ _ _ _ _ Hr HE Ha).
  - exact (awaited_reserve _ _ _ _ _ _ _ _ _ Hr HE Ha).
  - by eapply awaited_by_run.
  - by eapply awaited_by_run.
  - by eapply awaited_hold.
Qed.

(** A loop that has returned was cancelled. *)
Definition returned (g : Config) : Prop := runner g = Returned -> cancelled g = true.

Lemma returned_hold t h i g g' : hold_step t h i g = Some g' -> returned g -> returned g'.
Proof.
  intros Hs Hr. unfold hold_step in Hs. destruct i, (h_phase h); try done; simplify_eq; try exact Hr.
  destruct (next _ _ _) as [work c]. case_match; simplify_eq; [exact Hr|].
  unfold hold_ended. destruct (h_owner h); [|by destruct (h_error h)|exact Hr].
  intros Hx. apply Hr. cbn in Hx. by destruct (runner g).
Qed.

Lemma returned_step g g' : moved g g' -> returned g -> returned g'.
Proof.
  intros Hm Hr. destruct Hm as [| | | | | |???? g1 Hr1|????? g1 Hr1| | | | | | | | | | |
    ????? g1 Hv Hr1| | | | | | | | |???? g1 Hv Hr1|t h i g' Ht Hs]; try exact Hr; try done.
  - by destruct (reserve_and_hold_spec _ _ _ _ _ _ _ _ _ Hr1) as [(_ & _ & ->)|(_ & ? & _ & ->)].
  - by destruct (reserve_and_hold_spec _ _ _ _ _ _ _ _ _ Hr1) as [(_ & _ & ->)|(_ & ? & _ & ->)].
  - intros _. done.
  - intros Hx. cbn in Hx. by case_match.
  - intros Hx. cbn in Hx. by case_match.
  - by eapply returned_hold.
Qed.

(** ** Paths of quiet steps *)

Section paths.
Context (ids : list string).

(** The coordinator's own steps, under a Docker that lists [ids] and reconciles
    that succeed. *)
Definition quiet (l : Label) : bool :=
  match l with
  | LRequest _ | LCancel | LEvent _ _ _ | LEventReserve _ _ => false
  | LList _ answer => bool_decide (answer = Some ids)
  | LHold _ (Outcome _ error) => bool_decide (~ is_Some error)
  | _ => true
  end.

Record Ready (g : Config) : Prop := {
  rd_inv : Inv g;
  rd_awaited : awaited g;
  rd_returned : returned g;
  rd_bound : requests g < 2 ^ 64;
  rd_alive : cancelled g = false;
}.

Record quietly (g g' : Config) : Prop := {
  qt_steps : exists ls, forallb quiet ls = true /\ steps ls g = Some g';
  qt_latest : latest (state (co g')) = latest (state (co g));
  qt_requests : requests g' = requests g;
  qt_cancelled : cancelled g' = cancelled g;
}.

(** A path that adds no work. *)
Record path (g g' : Config) : Prop := {
  pt_quietly : quietly g g';
  pt_dirty : dirty (state (co g)) = false -> dirty (state (co g')) = false;
  pt_incomplete : incomplete (state (co g)) = false -> incomplete (state (co g')) = false;
  pt_pending id : pending (state (co g)) !! id = None -> pending (state (co g')) !! id = None;
}.

Lemma path_refl g : path g g.
Proof. split; auto. split; auto. by exists []. Qed.

Lemma steps_app ls1 ls2 g g' g'' :
  steps ls1 g = Some g' -> steps ls2 g' = Some g'' -> steps (ls1 ++ ls2) g = Some g''.
Proof.
  revert g. induction ls1 as [|l ls1 IH]; cbn; intros g Hs; [by simplify_eq|].
  destruct (step l g) as [g1|]; [|done]. cbn in *. auto.
Qed.

Lemma quietly_trans g1 g2 g3 : quietly g1 g2 -> quietly g2 g3 -> quietly g1 g3.
Proof.
  intros [(ls1 & Hq1 & Hs1) L1 R1 C1] [(ls2 & Hq2 & Hs2) L2 R2 C2].
  split; [|congruence..]. exists (ls1 ++ ls2). split.
  - by rewrite forallb_app, Hq1, Hq2.
  - by eapply steps_app.
Qed.

Lemma path_trans g1 g2 g3 : path g1 g2 -> path g2 g3 -> path g1 g3.
Proof. intros [] []. split; [by eapply quietly_trans|auto..]. Qed.

Lemma quietly_step l g g' :
  step l g = Some g' -> quiet l = true ->
  latest (state (co g')) = latest (state (co g)) -> requests g' = requests g ->
  cancelled g' = cancelled g -> quietly g g'.
Proof. intros Hs Hq. split; auto. exists [l]. cbn. by rewrite Hq, Hs. Qed.

Lemma path_step l g g' :
  step l g = Some g' -> quiet l = true ->
  latest (state (co g')) = latest (state (co g)) -> requests g' = requests g ->
  cancelled g' = cancelled g ->
  (dirty (state (co g)) = false -> dirty (state (co g')) = false) ->
  (incomplete (state (co g)) = false -> incomplete (state (co g')) = false) ->
  (forall id, pending (state (co g)) !! id = None -> pending (state (co g')) !! id = None) ->
  path g g'.
Proof. intros Hs Hq. split; auto. by eapply quietly_step. Qed.

(** What holds along every path. *)
Lemma Ready_steps ls g g' :
  steps ls g = Some g' -> requests g' < 2 ^ 64 -> Inv g -> awaited g -> returned g ->
  Inv g' /\ awaited g' /\ returned g'.
Proof.
  revert g. induction ls as [|l ls IH]; cbn; intros g Hs Hn HI HA HB; [by simplify_eq|].
  destruct (step l g) as [g1|] eqn:E; [|done]. cbn in Hs. apply step_moved in E.
  assert (Hmono : requests g1 <= requests g').
  { clear -Hs. revert g1 Hs. induction ls as [|l ls IH]; cbn; intros g1 Hs; [simplify_eq; lia|].
    destruct (step l g1) as [g2|] eqn:E; [|done]. apply step_moved, moved_requests in E.
    apply IH in Hs. lia. }
  apply (IH g1); [done..| | |].
  - eapply Inv_step; [done| |done]. lia.
  - eapply awaited_step; [apply HI|done..].
  - by eapply returned_step.
Qed.

Lemma Ready_quietly g g' : quietly g g' -> Ready g -> Ready g'.
Proof.
  intros [(ls & _ & Hs) _ Hr Hc] [HI HA HB Hn Hal].
  destruct (Ready_steps _ _ _ Hs) as (? & ? & ?); [lia|done..|]. split; [done..|lia|congruence].
Qed.
Lemma Ready_path g g' : path g g' -> Ready g -> Ready g'.
Proof. intros []. by apply Ready_quietly. Qed.

(** ** Draining the holds *)

Lemma settle_pending_none now id key k p id' :
  p !! id' = None -> settle_pending now id key k None p !! id' = None.
Proof.
  intros Hp. unfold settle_pending. cbn. destruct (p !! id) as [e|] eqn:E; [|done].
  case_bool_decide.
  - by rewrite lookup_delete_None; right.
  - rewrite lookup_insert_ne; [done|]. intros <-. congruence.
Qed.

(** The rest of a hold after its work, up to the question for more. *)
Definition finished (g g' : Config) (t : nat) (h : Hold) : Prop :=
  path g g' /\ runner g' = runner g /\ in_flight (state (co g')) = in_flight (state (co g)) /\
  exists h', holds g' = <[t := h']> (holds g) /\ h_phase h' = Ending /\
    h_container h' = h_container h /\ h_owner h' = h_owner h.

Lemma finished_trans g g1 g2 t h h1 :
  path g g1 -> runner g1 = runner g -> in_flight (state (co g1)) = in_flight (state (co g)) ->
  holds g1 = <[t := h1]> (holds g) -> h_container h1 = h_container h -> h_owner h1 = h_owner h ->
  finished g1 g2 t h1 -> finished g g2 t h.
Proof.
  intros Hp Hr Hf Hh Hc Ho (Hp2 & Hr2 & Hf2 & h' & Hh2 & He & Hc2 & Ho2).
  split_and!; [by eapply path_trans|congruence..|].
  exists h'. split_and!; [|congruence..]. rewrite Hh2, Hh. apply insert_insert_eq.
Qed.

Lemma finish_marking t h i g :
  holds g !! t = Some h -> h_phase h = Marking i -> exists g', finished g g' t h.
Proof.
  intros Ht Hp. eexists. split_and!.
  - apply (path_step (LHold t Mark)); [cbn; rewrite Ht; cbn; by rewrite Hp|done..].
  - done.
  - done.
  - by eexists.
Qed.

Lemma finish_processing t h k i g :
  holds g !! t = Some h -> h_phase h = Processing k i ->
  exists g', finished g g' t h /\
    (k = latest (state (co g)) -> tagged g -> pending (state (co g')) !! h_container h = None).
Proof.
  intros Ht Hp. set (p := if h_enumerated h then Marking i else Ending).
  set (h1 := set_phase p (set_error None h)).
  set (g1 := note_outcome (h_container h) k true
    (put_hold t h1 (with_co (settle 0 (h_container h) k None (co g)) g))).
  assert (Hs : step (LHold t (Outcome 0 None)) g = Some g1).
  { cbn. rewrite Ht. cbn. by rewrite Hp. }
  assert (Hpath : path g g1).
  { apply (path_step _ _ _ Hs); cbn; try done. intros id. apply settle_pending_none. }
  assert (Hn : k = latest (state (co g)) -> tagged g ->
    pending (state (co g1)) !! h_container h = None).
  { intros -> HT. cbn. unfold settle_pending. cbn.
    destruct (pending (state (co g)) !! h_container h) as [e|] eqn:E; [|done].
    rewrite bool_decide_eq_true_2 by by eapply tg_keys. apply lookup_delete_eq. }
  destruct (h_enumerated h) eqn:He.
  - destruct (finish_marking t h1 i g1) as [g2 Hfin]; [cbn; apply lookup_insert_eq|done|].
    exists g2. split; [by eapply finished_trans; [exact Hpath|..|exact Hfin]|]. intros Hk HT.
    apply (pt_pending _ _ (proj1 Hfin)). auto.
  - exists g1. split; [|done]. split_and!; [done..|]. by eexists.
Qed.

Lemma finish_hold t h g :
  holds g !! t = Some h -> tagged g ->
  exists g', finished g g' t h /\
    (h_phase h = Starting -> h_reconcile h = true ->
     pending (state (co g')) !! h_container h = None).
Proof.
  intros Ht HT. destruct (h_phase h) as [|k i|i|] eqn:Hp.
  - set (i := {| insp_at := 0; insp_monotonic := 0 |}).
    set (p := if h_reconcile h then Processing (current (state (co g))) i else Ending).
    set (g1 := put_hold t (set_phase p h) g).
    assert (Hs : step (LHold t (Begin i)) g = Some g1).
    { cbn. rewrite Ht. cbn. rewrite Hp. reflexivity. }
    assert (Hpath : path g g1) by (by apply (path_step _ _ _ Hs)).
    destruct (h_reconcile h) eqn:Hrec.
    + edestruct (finish_processing t (set_phase (Processing (current (state (co g))) i) h)
        (current (state (co g))) i g1) as (g2 & Hfin & Hn); [cbn; apply lookup_insert_eq|done|].
      exists g2. split; [|intros _ _; by apply Hn].
      by eapply finished_trans; [exact Hpath|..|exact Hfin].
    + exists g1. split; [|done]. split_and!; [done..|]. by eexists.
  - destruct (finish_processing t h k i g Ht Hp) as (g' & ? & _). by exists g'.
  - destruct (finish_marking t h i g Ht Hp) as (g' & ?). by exists g'.
  - exists g. split; [|done]. split_and!; [apply path_refl|done..|]. exists h.
    by rewrite insert_id.
Qed.

(** The loop when a hold has ended. *)
Definition after_hold (h : Hold) (r : Runner) : Runner :=
  match h_owner h with ByRun => resume r | _ => r end.

Definition no_queue (r : Reservation) : Prop :=
  queued_reconcile r = false /\ queued_terminate r = None.

Lemma release_hold t h r g :
  holds g !! t = Some h -> h_phase h = Ending ->
  in_flight (state (co g)) !! h_container h = Some r -> no_queue r ->
  exists g', path g g' /\ holds g' = delete t (holds g) /\ runner g' = after_hold h (runner g).
Proof.
  intros Ht Hp Hr [Hq Hqt]. destruct (next 0 (h_container h) (co g)) as [work c] eqn:En.
  destruct (next_spec _ _ _ _ _ _ Hr En) as [(_ & Hb & _)|(-> & _ & w & _ & _ & Hc)].
  { by rewrite Hq, Hqt in Hb. }
  set (g1 := with_holds (delete t (holds g)) (tickets g) (with_co c g)).
  assert (Hs : step (LHold t (Next 0)) g = Some (hold_ended h g1)).
  { cbn. rewrite Ht. cbn. by rewrite Hp, En. }
  set (s := set_in_flight (delete (h_container h) (in_flight (state (co g)))) (state (co g))).
  destruct (announce_locked_set s) as [k Hk].
  assert (Hco : state c = set_announced k s) by (subst c; exact Hk).
  exists (hold_ended h g1). split_and!.
  - apply (path_step _ _ _ Hs); unfold hold_ended; destruct (h_owner h);
      try destruct (h_error h); cbn; rewrite ?Hco; cbn; auto.
  - unfold hold_ended. by destruct (h_owner h); try destruct (h_error h).
  - unfold hold_ended, after_hold. by destruct (h_owner h); try destruct (h_error h).
Qed.

Lemma requeue_hold t h r g :
  holds g !! t = Some h -> h_phase h = Ending ->
  in_flight (state (co g)) !! h_container h = Some r -> ~ no_queue r ->
  exists g' h' r', path g g' /\ holds g' = <[t := h']> (holds g) /\ runner g' = runner g /\
    h_container h' = h_container h /\ h_owner h' = h_owner h /\
    in_flight (state (co g')) !! h_container h = Some r' /\ no_queue r'.
Proof.
  intros Ht Hp Hr Hq.
  assert (Hb : queued_reconcile r || bool_decide (is_Some (queued_terminate r)) = true).
  { apply not_false_is_true. intros [Hb1 Hb2%bool_decide_eq_false]%orb_false_iff.
    apply Hq. split; [done|]. by apply eq_None_not_Some. }
  destruct (next 0 (h_container h) (co g)) as [work c] eqn:En.
  pose proof En as En'. unfold next in En'. rewrite Hr, Hb in En'. injection En' as <- <-.
  eassert (Hs : step (LHold t (Next 0)) g = Some (put_hold t (again _ h) (with_co _ g))).
  { cbn. rewrite Ht. cbn. rewrite Hp, En. cbn [fst snd]. by rewrite Hb. }
  eexists _, _, _. split_and!; [apply (path_step _ _ _ Hs); cbn; auto|done..|cbn; apply lookup_insert_eq|].
  by split.
Qed.

Lemma drain_hold t h g :
  holds g !! t = Some h -> Ready g ->
  exists g', path g g' /\ holds g' = delete t (holds g) /\ runner g' = after_hold h (runner g) /\
    (h_phase h = Starting -> h_reconcile h = true ->
     pending (state (co g')) !! h_container h = None).
Proof.
  intros Ht HR. pose proof (rd_inv _ HR) as HI.
  destruct (finish_hold t h g Ht (inv_tagged _ HI))
    as (g1 & (Hp1 & Hr1 & Hf1 & h1 & Hh1 & He1 & Hc1 & Ho1) & Hn1).
  pose proof (Ready_path _ _ Hp1 HR) as HR1.
  destruct (ex_hold _ _ _ (inv_excl _ HI) _ _ Ht) as (r & Er & _). rewrite <- Hf1, <- Hc1 in Er.
  assert (Ht1 : holds g1 !! t = Some h1) by (rewrite Hh1; apply lookup_insert_eq).
  destruct (decide (queued_reconcile r = false /\ queued_terminate r = None)) as [Hq|Hq].
  - destruct (release_hold t h1 r g1 Ht1 He1 Er Hq) as (g2 & Hp2 & Hh2 & Hr2).
    exists g2. split_and!; [by eapply path_trans|by rewrite Hh2, Hh1, delete_insert_eq| |].
    + by rewrite Hr2, Hr1; unfold after_hold; rewrite Ho1.
    + intros ??. apply (pt_pending _ _ Hp2). auto.
  - destruct (requeue_hold t h1 r g1 Ht1 He1 Er Hq)
      as (g2 & h2 & r2 & Hp2 & Hh2 & Hr2 & Hc2 & Ho2 & Er2 & Hq2).
    assert (Ht2 : holds g2 !! t = Some h2) by (rewrite Hh2; apply lookup_insert_eq).
    pose proof (Ready_path _ _ Hp2 HR1) as HR2.
    destruct (finish_hold t h2 g2 Ht2 (inv_tagged _ (rd_inv _ HR2)))
      as (g3 & (Hp3 & Hr3 & Hf3 & h3 & Hh3 & He3 & Hc3 & Ho3) & _).
    assert (Ht3 : holds g3 !! t = Some h3) by (rewrite Hh3; apply lookup_insert_eq).
    rewrite <- Hf3, <- Hc2, <- Hc3 in Er2.
    destruct (release_hold t h3 r2 g3 Ht3 He3 Er2 Hq2) as (g4 & Hp4 & Hh4 & Hr4).
    assert (Hp : path g1 g4) by eauto using path_trans.
    exists g4. split_and!; [by eapply path_trans| | |].
    + rewrite Hh4, Hh3, delete_insert_eq, Hh2, delete_insert_eq, Hh1. apply delete_insert_eq.
    + by rewrite Hr4, Hr3, Hr2, Hr1; unfold after_hold; rewrite Ho3, Ho2, Ho1.
    + intros ??. apply (pt_pending _ _ Hp). auto.
Qed.

(** All holds end. *)
Lemma drain_all g :
  Ready g -> exists g', path g g' /\ holds g' = ∅ /\
    (runner g' = runner g \/ runner g' = resume (runner g)).
Proof.
  remember (size (holds g)) as n eqn:Hn. revert g Hn.
  induction n as [|n IH]; intros g Hn HR.
  { exists g. split_and!; [apply path_refl| |by left]. by apply map_size_empty_inv. }
  destruct (map_choose (holds g)) as (t & h & Ht).
  { intros He. rewrite He, map_size_empty in Hn. lia. }
  destruct (drain_hold t h g Ht HR) as (g1 & Hp1 & Hh1 & Hr1 & _).
  destruct (IH g1) as (g2 & Hp2 & Hh2 & Hr2).
  - rewrite Hh1, map_size_delete, Ht. cbn. lia.
  - by eapply Ready_path.
  - exists g2. split_and!; [by eapply path_trans|done|]. unfold after_hold in Hr1.
    destruct (h_owner h), Hr2 as [Hr2|Hr2]; rewrite Hr2, Hr1; auto; try (by left); try (by right).
    right. by destruct (runner g).
Qed.

(** ** Passes and retries *)

(** With no hold running the loop gets the container, and waits for its hold. *)
Lemma run_hold id r r' l g g0 :
  Ready g -> holds g = ∅ -> awaiting r = true -> quiet l = true ->
  co g0 = co g -> holds g0 = holds g -> cancelled g0 = cancelled g -> requests g0 = requests g ->
  step l g = Some (let '(got, g1) := reconcile_container 0 id None ByRun g0 in
                   with_runner (if got then r else r') g1) ->
  exists g', path g g' /\ holds g' = ∅ /\ runner g' = resume r /\
    pending (state (co g')) !! id = None.
Proof.
  intros HR Hh Hr Hq Hco Hh0 Hc Hn Hs.
  pose proof (no_holds _ (inv_excl _ (rd_inv _ HR)) Hh) as Hf.
  destruct (reconcile_container _ _ _ _ _) as [got g1] eqn:E. unfold reconcile_container in E.
  destruct (reserve_and_hold_spec _ _ _ _ _ _ _ _ _ E) as [(-> & _ & ->)|(_ & held & Hs' & _)].
  2:{ rewrite Hco, Hf in Hs'. by rewrite lookup_empty in Hs'. }
  match type of Hs with _ = Some ?x => set (g2 := x) in Hs end.
  assert (Hp : path g g2) by (apply (path_step _ _ _ Hs); cbn; rewrite ?Hco; auto).
  set (h := new_hold id _ ByRun) in g2.
  assert (Ht : holds g2 !! tickets g0 = Some h) by (cbn; apply lookup_insert_eq).
  destruct (drain_hold _ _ _ Ht (Ready_path _ _ Hp HR)) as (g3 & Hp3 & Hh3 & Hr3 & Hn3).
  exists g3. split_and!; [by eapply path_trans| |done|by apply Hn3].
  rewrite Hh3. cbn. rewrite delete_insert_eq, Hh0, Hh. apply delete_empty.
Qed.

Lemma pass_container key id rest g :
  Ready g -> holds g = ∅ -> runner g = Reserving key id rest ->
  exists g', path g g' /\ holds g' = ∅ /\ runner g' = Passing key rest.
Proof.
  intros HR Hh Hr.
  destruct (run_hold id (Visiting key rest) (Passing key rest) (LPass 0) g (note_visit id g))
    as (g' & ? & ? & ? & _); try done; [|by exists g'].
  cbn -[reconcile_container]. by rewrite Hr.
Qed.

Lemma retry_container id l g :
  Ready g -> holds g = ∅ -> runner g = Retrying (id :: l) ->
  exists g', path g g' /\ holds g' = ∅ /\ runner g' = Retrying l /\
    pending (state (co g')) !! id = None.
Proof.
  intros HR Hh Hr. apply (run_hold id (RetryAwait l) (Retrying l) (LRetry 0) g g); try done.
  cbn -[reconcile_container]. rewrite Hr. cbn -[reconcile_container].
  by rewrite (rd_alive _ HR).
Qed.

Lemma pass_all key rest g :
  Ready g -> holds g = ∅ -> runner g = Passing key rest ->
  exists g', path g g' /\ holds g' = ∅ /\ runner g' = Top /\
    (dirty (state (co g)) = false -> incomplete (state (co g')) = false).
Proof.
  revert g. induction rest as [|id rest IH]; intros g HR Hh Hr.
  - assert (Hs : step (LPass 0) g
      = Some (end_pass 0 Done (with_co (finish_pass key (co g)) g))).
    { cbn -[finish_pass end_pass]. by rewrite Hr. }
    destruct (finish_pass_spec key (co g)) as [k Hk].
    eexists. split_and!; [apply (path_step _ _ _ Hs)|..]; try done;
      cbn -[finish_pass]; rewrite ?Hk; case_bool_decide as Hl; cbn; auto.
    intros Hd. destruct Hl. apply (ct_key _ (inv_control _ (rd_inv _ HR))); [by rewrite Hr|done].
  - destruct (superseded key (state (co g))) eqn:Es.
    + assert (Hs : step (LPass 0) g = Some (end_pass 0 Superseded g)).
      { cbn -[end_pass]. rewrite Hr. cbn -[end_pass]. by rewrite Es, orb_true_r. }
      eexists. split_and!; [apply (path_step _ _ _ Hs); cbn; auto|done..|].
      intros Hd. unfold superseded in Es. rewrite bool_decide_eq_true_2 in Es; [done|].
      symmetry. apply (ct_key _ (inv_control _ (rd_inv _ HR))); [by rewrite Hr|done].
    + assert (Hs : step (LPass 0) g = Some (with_runner (Reserving key id rest) g)).
      { cbn. rewrite Hr. cbn. by rewrite Es, (rd_alive _ HR). }
      assert (Hp : path g (with_runner (Reserving key id rest) g))
        by (apply (path_step _ _ _ Hs); cbn; auto).
      destruct (pass_container key id rest _ (Ready_path _ _ Hp HR)) as (g1 & Hp1 & Hh1 & Hr1);
        [done..|].
      pose proof (path_trans _ _ _ Hp Hp1) as Hp'.
      destruct (IH g1) as (g2 & Hp2 & Hh2 & Hr2 & Hi2); [by eapply Ready_path|done..|].
      exists g2. split_and!; [by eapply path_trans|done..|]. intros Hd.
      apply Hi2. by apply (pt_dirty _ _ Hp').
Qed.

Lemma retry_all l g :
  Ready g -> holds g = ∅ -> runner g = Retrying l ->
  exists g', path g g' /\ holds g' = ∅ /\ runner g' = Top /\
    forall id, id ∈ l -> pending (state (co g')) !! id = None.
Proof.
  revert g. induction l as [|id l IH]; intros g HR Hh Hr.
  - assert (Hs : step (LRetry 0) g
      = Some (with_runner Top (with_state (report_locked (state (co g))) g))).
    { cbn -[report_locked]. by rewrite Hr. }
    destruct (report_locked_set (state (co g))) as [k Hk].
    eexists. split_and!; [apply (path_step _ _ _ Hs)|..]; try done; cbn; rewrite ?Hk; cbn; auto.
    by intros id ?%not_elem_of_nil.
  - destruct (retry_container id l g HR Hh Hr) as (g1 & Hp1 & Hh1 & Hr1 & Hn1).
    destruct (IH g1) as (g2 & Hp2 & Hh2 & Hr2 & Hn2); [by eapply Ready_path|done..|].
    exists g2. split_and!; [by eapply path_trans|done..|].
    intros x [->|Hx]%elem_of_cons; [|by apply Hn2]. by apply (pt_pending _ _ Hp2).
Qed.

(** ** Reaching the announcement *)

(** From the head of the loop to its select. *)
Lemma to_select g :
  Ready g -> runner g = Top -> dirty (state (co g)) = false ->
  exists g', path g g' /\ state (co g') = state (co g) /\ holds g' = holds g /\
    runner g' = Selecting (next_due (state (co g))) /\
    list_retry (vars g') = list_retry (vars g).
Proof.
  intros HR Hr Hd. set (r := next_due (state (co g))).
  assert (H1 : step (LTop 0) g = Some (with_runner Arming g)).
  { cbn. unfold run_head, run_top, take_request. by rewrite Hr, (rd_alive _ HR), Hd. }
  assert (H2 : step (LTop 0) (with_runner Arming g) = Some (with_runner (Pruning r) g)) by done.
  set (g3 := with_run (Selecting r)
    (set_prune (arm_prune 0 (prune (vars g)) (state (co g))) (vars g)) g).
  assert (H3 : step (LTop 0) (with_runner (Pruning r) g) = Some g3) by done.
  exists g3. split_and!; [|done..].
  eapply path_trans; [apply (path_step _ _ _ H1); cbn; auto|].
  eapply path_trans; [apply (path_step _ _ _ H2); cbn; auto|].
  apply (path_step _ _ _ H3); cbn; auto.
Qed.

Lemma due_bound (p : gmap string PendingEntry) :
  exists m, forall id e, p !! id = Some e -> pe_due e <= m.
Proof.
  induction p as [|id e p _ IH] using map_ind; [by exists 0|].
  destruct IH as [m Hm]. exists (Z.max m (pe_due e)).
  intros id' e' [[_ <-]|[_ He]]%lookup_insert_Some; [lia|]. apply Hm in He. lia.
Qed.

Lemma elem_of_due_ids now id e s :
  pending s !! id = Some e -> in_flight s !! id = None -> pe_due e <= now -> id ∈ due_ids now s.
Proof.
  intros Hp Hf Hd. unfold due_ids. rewrite merge_sort_Permutation.
  apply list_elem_of_fmap. exists (id, e). split; [done|]. apply elem_of_map_to_list.
  by do 2 (apply map_lookup_filter_Some; split; [|done]).
Qed.

(** What is pending is retried, which completes a pass that is done. *)
Lemma complete_clean g :
  Ready g -> holds g = ∅ -> runner g = Top -> dirty (state (co g)) = false ->
  incomplete (state (co g)) = false ->
  exists g', quietly g g' /\ announced (state (co g')) = latest (state (co g')).
Proof.
  intros HR Hh Hr Hd Hi.
  assert (Hdone : forall g', path g g' -> holds g' = ∅ -> pending (state (co g')) = ∅ ->
    announced (state (co g')) = latest (state (co g'))).
  { intros g' Hp Hh' Hpend. pose proof (rd_inv _ (Ready_path _ _ Hp HR)) as [HE _ HC _].
    apply (ct_announced _ HC); [by apply (pt_incomplete _ _ Hp)|done|by apply no_holds]. }
  destruct (decide (pending (state (co g)) = ∅)) as [He|He].
  { exists g. pose proof (path_refl g) as Hp. split; [apply Hp|]. by apply Hdone. }
  pose proof (no_holds _ (inv_excl _ (rd_inv _ HR)) Hh) as Hf.
  destruct (map_choose _ He) as (id0 & e0 & He0).
  destruct (next_due_le _ _ _ He0) as (d & Hnd & _); [by rewrite Hf, lookup_empty|].
  destruct (to_select g HR Hr Hd) as (g1 & Hp1 & Hs1 & Hh1 & Hr1 & _). rewrite Hnd in Hr1.
  destruct (due_bound (pending (state (co g)))) as [m Hm].
  assert (H2 : step (LSelect BRetry d) g1 = Some (with_runner Due g1)).
  { cbn. rewrite Hr1. cbn. by rewrite bool_decide_eq_true_2. }
  set (l := due_ids m (state (co g1))).
  assert (H3 : step (LDue m) (with_runner Due g1) = Some (with_runner (Retrying l) g1)) by done.
  assert (Hp3 : path g (with_runner (Retrying l) g1)).
  { eapply path_trans; [exact Hp1|].
    eapply path_trans; [apply (path_step _ _ _ H2); cbn; auto|].
    apply (path_step _ _ _ H3); cbn; auto. }
  destruct (retry_all l _ (Ready_path _ _ Hp3 HR)) as (g4 & Hp4 & Hh4 & _ & Hn4);
    [cbn; congruence|done|].
  assert (Hp : path g g4) by (by eapply path_trans). exists g4. split; [apply Hp|].
  apply Hdone; [done..|]. apply map_empty. intros id.
  destruct (pending (state (co g)) !! id) as [e|] eqn:E; [|by apply (pt_pending _ _ Hp)].
  apply Hn4. unfold l. rewrite Hs1.
  by eapply elem_of_due_ids; [|rewrite Hf; apply lookup_empty|eapply Hm].
Qed.

(** A request is taken, and its pass ends. *)
Lemma complete_dirty g :
  Ready g -> holds g = ∅ -> runner g = Top -> dirty (state (co g)) = true ->
  exists g', quietly g g' /\ announced (state (co g')) = latest (state (co g')).
Proof.
  intros HR Hh Hr Hd. set (key := latest (state (co g))).
  set (g1 := with_runner (Listing key) (with_state (set_dirty false (state (co g))) g)).
  assert (H1 : step (LTop 0) g = Some g1).
  { cbn. unfold run_head, run_top, take_request. by rewrite Hr, (rd_alive _ HR), Hd. }
  set (g2 := with_runner (Passing key ids) (note_list key ids g1)).
  assert (H2 : step (LList 0 (Some ids)) g1 = Some g2) by done.
  assert (Hp2 : path g g2).
  { eapply path_trans; [apply (path_step _ _ _ H1); cbn; auto|].
    apply (path_step _ _ _ H2); cbn; auto. by apply bool_decide_eq_true_2. }
  destruct (pass_all key ids g2 (Ready_path _ _ Hp2 HR)) as (g3 & Hp3 & Hh3 & Hr3 & Hi3); [done..|].
  pose proof (path_trans _ _ _ Hp2 Hp3) as Hp.
  destruct (complete_clean g3) as (g4 & Hq4 & Ha4); [by eapply Ready_path|done..| |by apply Hi3|].
  - by apply (pt_dirty _ _ Hp3).
  - exists g4. split; [|done]. eapply quietly_trans; [apply Hp|done].
Qed.

(** A list that failed is made again. *)
Lemma complete_top g :
  Ready g -> holds g = ∅ -> runner g = Top ->
  exists g', quietly g g' /\ announced (state (co g')) = latest (state (co g')).
Proof.
  intros HR Hh Hr. destruct (dirty (state (co g))) eqn:Hd; [by apply complete_dirty|].
  destruct (incomplete (state (co g))) eqn:Hi; [|by apply complete_clean].
  destruct (ct_work _ (inv_control _ (rd_inv _ HR)) (rd_alive _ HR) Hi)
    as [?|[[k Hk]|[d Hl]]]; [congruence|by rewrite Hr in Hk|].
  destruct (to_select g HR Hr Hd) as (g1 & Hp1 & Hs1 & Hh1 & Hr1 & Hl1). rewrite Hl in Hl1.
  set (g2 := with_run Top (clear_list_retry (vars g1)) (with_state (redo (state (co g1))) g1)).
  assert (H2 : step (LSelect BList d) g1 = Some g2).
  { cbn. rewrite Hr1. cbn. rewrite Hl1. cbn. by rewrite bool_decide_eq_true_2. }
  assert (Hq2 : quietly g g2).
  { eapply quietly_trans; [apply Hp1|]. apply (quietly_step _ _ _ H2); done. }
  destruct (complete_dirty g2 (Ready_quietly _ _ Hq2 HR)) as (g3 & Hq3 & Ha3);
    [cbn; congruence|done..|].
  exists g3. split; [by eapply quietly_trans|done].
Qed.

(** Wherever the loop is, it comes back to its head. *)
Lemma to_top g :
  Ready g -> holds g = ∅ -> exists g', quietly g g' /\ holds g' = ∅ /\ runner g' = Top.
Proof.
  intros HR Hh.
  assert (Hsel : forall r v, quietly g (with_run (Selecting r) v g) ->
    exists g', quietly g g' /\ holds g' = ∅ /\ runner g' = Top).
  { intros r v Hq. exists (with_run Top v g). split_and!; [|done..].
    eapply quietly_trans; [exact Hq|]. by apply (quietly_step (LSelect BSweep 0)). }
  assert (Hpass : forall key rest g1, path g g1 -> holds g1 = ∅ -> runner g1 = Passing key rest ->
    exists g', quietly g g' /\ holds g' = ∅ /\ runner g' = Top).
  { intros key rest g1 Hp Hh1 Hr1.
    destruct (pass_all key rest g1 (Ready_path _ _ Hp HR) Hh1 Hr1) as (g2 & Hp2 & ? & ? & _).
    exists g2. split_and!; [|done..]. by eapply path_trans. }
  assert (Hno : awaiting (runner g) = false).
  { apply not_true_is_false. intros Ha. destruct (rd_awaited _ HR Ha) as (t & h & Ht & _).
    rewrite Hh in Ht. by rewrite lookup_empty in Ht. }
  pose proof (rd_returned _ HR) as Hret. pose proof (rd_alive _ HR) as Hal.
  destruct (runner g) as [| |r|key|key rest|key id rest|key rest|r| |l|l|] eqn:Hr; try done.
  - by exists g; split_and!; [apply path_refl|..].
  - set (r := next_due (state (co g))).
    apply (Hsel r (set_prune (arm_prune 0 (prune (vars g)) (state (co g))) (vars g))).
    apply (quietly_trans _ (with_runner (Pruning r) g)).
    + apply (quietly_step (LTop 0)); try done. cbn. unfold run_head. by rewrite Hr.
    + by apply (quietly_step (LTop 0)).
  - apply (Hsel r (set_prune (arm_prune 0 (prune (vars g)) (state (co g))) (vars g))).
    apply (quietly_step (LTop 0)); try done. cbn. unfold run_head. by rewrite Hr.
  - apply (Hpass key ids (with_runner (Passing key ids) (note_list key ids g))); [|done..].
    apply (path_step (LList 0 (Some ids))); cbn; auto; [by rewrite Hr|].
    by apply bool_decide_eq_true_2.
  - by apply (Hpass key rest g); [apply path_refl|..].
  - destruct (pass_container key id rest g HR Hh Hr) as (g1 & ? & ? & ?). by eapply Hpass.
  - exists (with_runner Top g). split_and!; [|done..].
    apply (quietly_step (LSelect BSweep 0)); try done. cbn. by rewrite Hr.
  - set (g1 := with_runner (Retrying (due_ids 0 (state (co g)))) g).
    assert (Hp : path g g1).
    { apply (path_step (LDue 0)); cbn; auto. by rewrite Hr. }
    destruct (retry_all _ g1 (Ready_path _ _ Hp HR) Hh eq_refl) as (g2 & Hp2 & ? & ? & _).
    exists g2. split_and!; [|done..]. by eapply path_trans.
  - destruct (retry_all l g HR Hh Hr) as (g2 & Hp2 & ? & ? & _).
    exists g2. split_and!; [apply Hp2|done..].
  - specialize (Hret Hr). congruence.
Qed.

Lemma reachable_Ready g :
  reachable g -> requests g < 2 ^ 64 -> cancelled g = false -> Ready g.
Proof.
  intros Hr Hn Hc. split; [by apply reachable_Inv| | |done..]; clear Hn Hc.
  - induction Hr as [|g l g' Hr IH Hs]; [done|].
    eapply awaited_step; [by apply reachable_excl|by eapply step_moved|done].
  - induction Hr as [|g l g' Hr IH Hs]; [done|].
    eapply returned_step; [by eapply step_moved|done].
Qed.

End paths.

(** C10. As long as the coordinator is not cancelled and fewer than 2^64 requests were
    made, whatever requests, events, passes, retries and holds were interleaved
    before, it can complete: if Docker answers the next lists and
    the reconciles succeed, steps of its own lead to the announcement of the
    latest request. *)
Theorem completion_reachable ids g :
  reachable g -> requests g < 2 ^ 64 -> cancelled g = false ->
  exists ls g', forallb (quiet ids) ls = true /\ steps ls g = Some g' /\
    latest (state (co g')) = latest (state (co g)) /\
    announced (state (co g')) = latest (state (co g)).
Proof.
  intros Hr Hn Hc. pose proof (reachable_Ready g Hr Hn Hc) as HR.
  destruct (drain_all ids g HR) as (g1 & Hp1 & Hh1 & _).
  destruct (to_top ids g1) as (g2 & Hq2 & Hh2 & Hr2); [by eapply Ready_path|done|].
  assert (Hq : quietly ids g g2) by (eapply quietly_trans; [apply Hp1|done]).
  destruct (complete_top ids g2) as (g3 & Hq3 & Ha); [by eapply Ready_quietly|done..|].
  destruct (quietly_trans _ _ _ _ Hq Hq3) as [(ls & Hls & Hs) HL _ _].
  exists ls, g3. split_and!; [done..|congruence].
Qed.

End progress.

(** ** A run *)

Module CoordinatorExample.

Definition reconciler : Reconciler := {| RError := unit; is_gone := fun _ => false |}.
Definition jiff : JiffNano := {| from_nanosecond := Some |}.

Definition now : Inspected := {| insp_at := 5; insp_monotonic := 5 |}.

(** A request, and a pass over one container whose first reconcile fails. *)
Definition schedule : list (@Label reconciler) :=
  [LRequest 1; LTop 0; LList 0 (Some ["a"]); LPass 0; LPass 0;
   LHold 0 (Begin now); LHold 0 (@Outcome reconciler 7 (Some tt)); LHold 0 (Next 8); LPass 9].

(** Its retry succeeds, and the loop goes to sleep. *)
Definition retry : list (@Label reconciler) :=
  [LNotify; LTop 9; LTop 9; LTop 9; LSelect BRetry 2000000000; LDue 2000000000; LRetry 2000000000;
   LHold 1 (Begin now); LHold 1 (@Outcome reconciler 9 None); LHold 1 Mark].

Definition sleep : list (@Label reconciler) :=
  [LHold 1 (Next 10); LRetry 2000000000; LTop 11; LTop 11; LTop 11; LSelect BWake 11; LTop 11; LTop 11; LTop 11].

Definition at_end (ls : list (@Label reconciler)) : @Config reconciler :=
  default initial (@steps reconciler jiff ls initial).

Lemma reachable_steps {r : Reconciler} {j : JiffNano} ls g g' :
  reachable g -> steps ls g = Some g' -> reachable g'.
Proof.
  revert g. induction ls as [|l ls IH]; cbn; intros g Hr Hs; [by simplify_eq|].
  destruct (step l g) as [g1|] eqn:E; [|done]. apply (IH g1); [|done]. by eapply reach_step.
Qed.

(** Before and after the end of the retry. *)
Definition before : @Config reconciler := at_end (schedule ++ retry).
Definition after : @Config reconciler := at_end (schedule ++ retry ++ [LHold 1 (Next 10)]).
Definition quiescent : @Config reconciler := at_end (schedule ++ retry ++ sleep).

Lemma reachable_at_end ls :
  @steps reconciler jiff ls initial = Some (at_end ls) -> @reachable reconciler jiff (at_end ls).
Proof. apply reachable_steps. constructor. Qed.

Lemma before_reachable : @reachable reconciler jiff before.
Proof. apply reachable_at_end. vm_compute. reflexivity. Qed.
Lemma quiescent_reachable : @reachable reconciler jiff quiescent.
Proof. apply reachable_at_end. vm_compute. reflexivity. Qed.

#[local] Existing Instances reconciler jiff.

Lemma announced_settled_witness :
  announced (state (co before)) <> announced (state (co after)) /\
  announced (state (co after)) = latest (state (co after)) /\
  pass_key after = latest (state (co after)) /\
  forall id, id ∈ listed after -> outcome after !! id = Some (latest (state (co after)), true).
Proof.
  split; [by vm_compute|].
  apply (announced_settled before (LHold 1 (Next 10)) after before_reachable);
    [vm_compute; reflexivity|vm_compute; reflexivity|by vm_compute].
Defined.

Lemma one_hold_per_container_witness :
  gauge_pending (co before) = Z.of_nat (size (pending (state (co before)))) /\
  is_Some (in_flight (state (co before)) !! "a").
Proof.
  split; [|by vm_compute; eexists].
  apply (one_hold_per_container before before_reachable).
Defined.

Lemma quiescent_complete_witness :
  announced (state (co quiescent)) = latest (state (co quiescent)) /\
  pending (state (co quiescent)) = ∅ /\
  forall id, id ∈ listed quiescent ->
    outcome quiescent !! id = Some (latest (state (co quiescent)), true).
Proof.
  apply (quiescent_complete quiescent quiescent_reachable); vm_compute; reflexivity.
Defined.

Lemma completion_reachable_witness :
  exists ls g', forallb (quiet ["b"; "a"]) ls = true /\ steps ls before = Some g' /\
    latest (state (co g')) = latest (state (co before)) /\
    announced (state (co g')) = latest (state (co before)).
Proof.
  apply (completion_reachable ["b"; "a"] before before_reachable); vm_compute; reflexivity.
Defined.

End CoordinatorExample.
