(* ===== verification/Listener.v ===== *)
(** * The Docker event loop

    src/daemon/events.rs: subscribing to the event stream, draining it into the
    coordinator, and reconnecting. What the loop waits for is the input of a
    step: the answers of Docker, the items of the stream, whether the context is
    done when it is asked, the clock. What it does to the rest of the daemon is
    recorded in order: events handed to the coordinator, re-enumerations asked
    of it, and the subscriptions made. *)

From S2P Require Import Prelude.
From S2P Require Import Text.
From S2P Require Import ProcError.
From S2P Require Import Coordinator.

Definition EVENT_ACTIONS : list string := ["start"; "unpause"; "die"; "destroy"].

(** [event_filters]: the terms of the filter, each with the set of its values. *)
Definition event_filters : gmap string (gset string) :=
  {[ "event" := list_to_set EVENT_ACTIONS ]}.

Definition next_backoff (current : Z) : Z :=
  Z.min (Z.min (current * 2) DURATION_MAX) MAX_BACKOFF.

(** ** How a stream ends (src/docker/error.rs) *)

Inductive StreamErrorKind := Eof | UnexpectedEof | Decode | Closed.

#[global] Instance StreamErrorKind_eq_dec : EqDecision StreamErrorKind.
Proof. solve_decision. Defined.

Record StreamError := { stream_kind : StreamErrorKind; stream_message : string }.

Inductive Subscription := Open | Refused (error : DockerError).

Inductive StreamEnd := StreamFailed (error : StreamError) | StreamRefused (error : DockerError).

Definition is_undecodable (e : StreamEnd) : bool :=
  match e with StreamFailed error => bool_decide (stream_kind error = Decode) | _ => false end.

Definition is_closed (e : StreamEnd) : bool :=
  match e with StreamFailed error => bool_decide (stream_kind error = Closed) | _ => false end.

Definition StreamEnd_text (e : StreamEnd) : string :=
  match e with
  | StreamFailed error => stream_message error
  | StreamRefused error => docker_text error
  end.

(** [Subscription::next], on what an open stream delivers. *)
Definition subscription_next (s : Subscription) (item : result StreamError Event)
    : result StreamEnd Event :=
  match s with
  | Open => map_err StreamFailed item
  | Refused error => Err (StreamRefused error)
  end.

(** ** Subscribing *)

Inductive SubscribeError :=
  | SubPing (error : DockerError)
  | SubTimeout
  | SubCanceled (why : ContextError).

Definition SubscribeError_text (e : SubscribeError) : string :=
  match e with
  | SubPing error => "ping docker: " +:+ docker_text error
  | SubTimeout => "docker event stream not established before timeout"
  | SubCanceled why => "subscribe to docker events: " +:+ ContextError_text why
  end.

(** The race of the [events] call with the timer and the context. *)
Inductive Race :=
  | Established (stream : result DockerError unit)
  | TimerFired
  | ContextDone (why : ContextError).

Definition subscribe (ping : result DockerError unit) (race : Race)
    : result SubscribeError Subscription :=
  _ ← map_err SubPing ping;
  match race with
  | Established (Ok _) => Ok Open
  | Established (Err error) => Ok (Refused error)
  | TimerFired => Err SubTimeout
  | ContextDone why => Err (SubCanceled why)
  end.

(** ** The loop *)

Inductive Action :=
  | Subscribed (since : Z)
  | Reenumerate
  | Handle (e : Event).

(** Where [listen_events] is: at the head of its loop, with the stream it may
    have, or inside [consume_events]. *)
Inductive Place := Head (stream : option Subscription) | Consuming (s : Subscription) | Ended.

Record Listener := {
  backoff : Z;
  last_event_nano : Z;
  ready : bool;
  place : Place;
  actions : list Action;
}.

Definition listen_start (stream : option Subscription) : Listener :=
  {| backoff := MIN_BACKOFF; last_event_nano := 0; ready := false; place := Head stream;
     actions := [] |}.

Definition goto (p : Place) (l : Listener) : Listener :=
  {| backoff := backoff l; last_event_nano := last_event_nano l; ready := ready l; place := p;
     actions := actions l |}.
Definition set_ready (b : bool) (l : Listener) : Listener :=
  {| backoff := backoff l; last_event_nano := last_event_nano l; ready := b; place := place l;
     actions := actions l |}.
Definition set_backoff (d : Z) (l : Listener) : Listener :=
  {| backoff := d; last_event_nano := last_event_nano l; ready := ready l; place := place l;
     actions := actions l |}.
Definition seen (t : Z) (l : Listener) : Listener :=
  {| backoff := backoff l; last_event_nano := Z.max (last_event_nano l) t; ready := ready l;
     place := place l; actions := actions l |}.
Definition act (a : Action) (l : Listener) : Listener :=
  {| backoff := backoff l; last_event_nano := last_event_nano l; ready := ready l;
     place := place l; actions := actions l ++ [a] |}.

Definition retry_after (l : Listener) : Listener :=
  set_backoff (next_backoff (backoff l)) (set_ready false l).

Definition is_open (s : Subscription) : bool := match s with Open => true | _ => false end.

Section listener.
Context {jiff : JiffNano} (since : Z).

Definition resubscribe_since (last : Z) : Z :=
  if bool_decide (last = 0) then since else default since (from_nanosecond (last + 1)).

(** The readiness and the entry into [consume_events]. *)
Definition follow (s : Subscription) (l : Listener) : Listener :=
  goto (Consuming s) (if is_open s then set_ready true l else l).

(** The head of [listen_events]: [done] is whether the context is done, and
    [done_after] whether it is once the subscription failed. *)
Definition listen_head (done : bool) (answer : result SubscribeError Subscription)
    (done_after : bool) (stream : option Subscription) (l : Listener) : Listener :=
  if done then goto Ended l
  else match stream with
  | Some s => follow s l
  | None =>
      let l := act (Subscribed (resubscribe_since (last_event_nano l))) l in
      match answer with
      | Ok s => follow s (if is_open s then act Reenumerate l else l)
      | Err _ =>
          if done_after then goto Ended l else goto (Head None) (retry_after l)
      end
  end.

(** The end of [consume_events], back in [listen_events]. *)
Definition disconnect (done : bool) (l : Listener) : Listener :=
  if done then goto Ended l else goto (Head None) (set_ready false l).

(** One turn of [consume_events] that received [item]: [done] is whether the
    context is done by then, [done_after] whether it is after the backoff, [now]
    the wall clock as an [i128] of nanoseconds. *)
Definition consume_item (s : Subscription) (item : result StreamError Event) (done done_after : bool)
    (now : Z) (l : Listener) : Listener :=
  match subscription_next s item with
  | Ok e =>
      act (Handle e) (seen (ev_time_nano e) (set_backoff MIN_BACKOFF l))
  | Err e =>
      if done then goto Ended l
      else if is_closed e then disconnect done_after (retry_after l)
      else
        let l := if is_undecodable e
                 then seen (if bool_decide (is_i 64 now) then now else 2 ^ 63 - 1) l else l in
        disconnect done_after (retry_after l)
  end.

(** What the loop waits for next. [Stop] is the context done before an item. *)
Inductive Input :=
  | AtHead (done : bool) (answer : result SubscribeError Subscription) (done_after : bool)
  | Stop
  | AtItem (item : result StreamError Event) (done done_after : bool) (now : Z).

Definition listen_step (l : Listener) (i : Input) : Listener :=
  match i, place l with
  | AtHead done answer done_after, Head stream => listen_head done answer done_after stream l
  | Stop, Consuming _ => goto Ended l
  | AtItem item done done_after now, Consuming s => consume_item s item done done_after now l
  | _, _ => l
  end.

Definition listen_events (stream : option Subscription) (inputs : list Input) : Listener :=
  foldl listen_step (listen_start stream) inputs.

End listener.

(** ** What the loop keeps *)

Section keeps.
Context {jiff : JiffNano} (since : Z).

(** Every [i64] of nanoseconds, plus one, is a time. *)
Context (nano : forall n, is_i 64 n -> from_nanosecond (n + 1) = Some (n + 1)).

(** The times of the events are [i64]s, as the engine sends them. *)
Definition timed (i : Input) : Prop :=
  match i with AtItem (Ok e) _ _ _ => is_i 64 (ev_time_nano e) | _ => True end.

(** A subscription starts after every event received before it. *)
Definition no_replay (l : list Action) : Prop :=
  forall before t after e, l = before ++ Subscribed t :: after -> Handle e ∈ before ->
    0 < ev_time_nano e -> ev_time_nano e < t.

Record Listening (l : Listener) : Prop := {
  li_backoff : MIN_BACKOFF <= backoff l <= MAX_BACKOFF;
  li_ready : ready l = true -> place l = Consuming Open \/ place l = Ended;
  li_last : 0 <= last_event_nano l < 2 ^ 63;
  li_seen e : Handle e ∈ actions l -> ev_time_nano e <= last_event_nano l;
  li_replay : no_replay (actions l);
}.

Lemma no_replay_snoc l a :
  no_replay l ->
  (forall t, a = Subscribed t -> forall e, Handle e ∈ l -> 0 < ev_time_nano e -> ev_time_nano e < t) ->
  no_replay (l ++ [a]).
Proof.
  intros Hl Ha before t after e Heq He Hpos.
  destruct after as [|x after _] using rev_ind.
  - apply app_inj_tail in Heq as [<- ->]. eauto.
  - rewrite app_comm_cons, app_assoc in Heq. apply app_inj_tail in Heq as [-> _]. by eapply Hl.
Qed.

Lemma elem_of_snoc (e : Event) l a : Handle e ∈ l ++ [a] -> Handle e ∈ l \/ a = Handle e.
Proof. intros [?|?%list_elem_of_singleton]%elem_of_app; auto. Qed.

(** The operations of the loop, one field at a time. *)
Lemma Listening_move l p :
  Listening l -> (ready l = true -> p = Consuming Open \/ p = Ended) -> Listening (goto p l).
Proof. intros [] Hp. by split. Qed.

Lemma Listening_ended l : Listening l -> Listening (goto Ended l).
Proof. intros H. apply Listening_move; auto. Qed.

Lemma Listening_retry l : Listening l -> Listening (retry_after l) /\ ready (retry_after l) = false.
Proof.
  intros []. split; [|done]. split; cbn; try done.
  unfold next_backoff, MIN_BACKOFF, MAX_BACKOFF, SECOND, DURATION_MAX in *. lia.
Qed.

Lemma Listening_disconnect done l : Listening l -> ready l = false -> Listening (disconnect done l).
Proof.
  intros HL Hr. unfold disconnect. destruct done; [by apply Listening_ended|].
  destruct HL. split; cbn; auto; done.
Qed.

Lemma Listening_seen t l : Listening l -> t < 2 ^ 63 -> Listening (seen t l).
Proof.
  intros [] Ht. split; cbn; auto; [lia|]. intros e He. specialize (li_seen0 e He). lia.
Qed.

Lemma Listening_subscribed l :
  Listening l -> Listening (act (Subscribed (resubscribe_since since (last_event_nano l))) l).
Proof.
  intros []. split; cbn; auto.
  - intros e [?|?]%elem_of_snoc; [auto|done].
  - apply no_replay_snoc; [done|]. intros t [= <-] e He Hpos. specialize (li_seen0 e He).
    unfold resubscribe_since. rewrite bool_decide_eq_false_2 by lia.
    rewrite nano by (unfold is_i; lia). cbn. lia.
Qed.

Lemma Listening_reenumerate l : Listening l -> Listening (act Reenumerate l).
Proof.
  intros []. split; cbn; auto.
  - intros e [?|?]%elem_of_snoc; [auto|done].
  - by apply no_replay_snoc.
Qed.

Lemma Listening_handle e l :
  Listening l -> ev_time_nano e <= last_event_nano l -> Listening (act (Handle e) l).
Proof.
  intros [] He. split; cbn; auto.
  - intros e' [?|[= <-]]%elem_of_snoc; auto.
  - by apply no_replay_snoc.
Qed.

Lemma Listening_follow s l : Listening l -> ready l = false -> Listening (follow s l).
Proof.
  intros [] Hr. unfold follow. destruct s; split; cbn; auto. congruence.
Qed.

Lemma Listening_head done answer done_after stream l :
  place l = Head stream -> Listening l ->
  Listening (listen_head since done answer done_after stream l).
Proof.
  intros Hp HL. unfold listen_head. destruct done; [by apply Listening_ended|].
  assert (Hr : ready l = false).
  { apply not_true_is_false. intros Hr. destruct (li_ready _ HL Hr); congruence. }
  destruct stream as [s|]; [by apply Listening_follow|].
  pose proof (Listening_subscribed _ HL) as HS. destruct answer as [s|e].
  - destruct (is_open s); apply Listening_follow; auto. by apply Listening_reenumerate.
  - destruct done_after; [by apply Listening_ended|].
    destruct (Listening_retry _ HS). apply Listening_move; congruence.
Qed.

Lemma Listening_item s item done done_after now l :
  place l = Consuming s -> timed (AtItem item done done_after now) -> Listening l ->
  Listening (consume_item s item done done_after now l).
Proof.
  intros Hp Ht HL. unfold consume_item. destruct (subscription_next s item) as [e|e] eqn:En.
  - assert (Hi : is_i 64 (ev_time_nano e)).
    { destruct s, item; cbn in En; by simplify_eq. }
    apply Listening_handle; [|cbn; lia]. apply Listening_seen; [|unfold is_i in Hi; lia].
    destruct HL. split; cbn; auto. unfold MIN_BACKOFF, MAX_BACKOFF, SECOND. lia.
  - destruct done; [by apply Listening_ended|]. destruct (is_closed e).
    { destruct (Listening_retry _ HL). by apply Listening_disconnect. }
    destruct (is_undecodable e).
    + apply Listening_disconnect; [|done]. apply Listening_retry, Listening_seen; [done|].
      case_bool_decide as Hb; unfold is_i in *; lia.
    + apply Listening_disconnect; [|done]. by apply Listening_retry.
Qed.

Lemma Listening_step i l : timed i -> Listening l -> Listening (listen_step since l i).
Proof.
  intros Ht HL. unfold listen_step. destruct i, (place l) eqn:Hp; try done.
  - by apply Listening_head.
  - by apply Listening_ended.
  - by apply Listening_item.
Qed.

Lemma listening_events stream inputs : Forall timed inputs -> Listening (listen_events since stream inputs).
Proof.
  intros Ht. unfold listen_events. assert (H0 : Listening (listen_start stream)).
  { split; cbn; try done. intros e He. by apply not_elem_of_nil in He.
    intros before t after e He. by destruct before. }
  revert Ht H0. generalize (listen_start stream) as l0.
  induction inputs as [|i inputs IH]; intros l0 Ht H0; [done|].
  apply Forall_cons in Ht as [Hi Ht]. apply IH; [done|]. by apply Listening_step.
Qed.

(** An open stream that is followed has made the daemon ready. *)
Lemma open_ready_step i l :
  (place l = Consuming Open -> ready l = true) ->
  place (listen_step since l i) = Consuming Open -> ready (listen_step since l i) = true.
Proof.
  unfold listen_step. destruct i as [dn answer dn'| |item dn dn' now], (place l) as [stream|s|] eqn:Ep;
    intros Ho; rewrite ?Ep; cbn [goto place]; try discriminate; try assumption.
  - unfold listen_head, follow. destruct dn; [done|]. destruct stream as [[]|]; [done..|].
    destruct answer as [[]|]; [done..|]. by destruct dn'.
  - unfold consume_item, disconnect. destruct (subscription_next s item) as [e|e]; cbn; [by rewrite Ep|].
    destruct dn; [done|]. destruct (is_closed e), dn'; done.
Qed.

Definition ended (l : Listener) : Prop := place l = Ended.

#[local] Instance ended_dec l : Decision (ended l).
Proof. unfold ended. destruct (place l); [right|right|left]; done. Defined.

Lemma ended_stays i l : ended l -> listen_step since l i = l.
Proof. unfold ended, listen_step. intros ->. by destruct i. Qed.

(** The context is done by the input. *)
Definition stops (i : Input) : Prop :=
  match i with Stop => True | AtItem (Err _) done _ _ => done = true | _ => False end.

(** Only a loop that was stopped while it followed an open stream ends ready. *)
Lemma ended_ready_step i l :
  Listening l -> place l <> Ended -> place (listen_step since l i) = Ended -> ready (listen_step since l i) = true ->
  place l = Consuming Open /\ stops i.
Proof.
  intros HL Hn. pose proof (li_ready _ HL) as Hr. unfold listen_step.
  destruct i as [dn answer dn'| |item dn dn' now], (place l) as [stream|s|] eqn:Ep; rewrite ?Ep; try done.
  - unfold listen_head, follow. destruct dn; [naive_solver|]. destruct stream; [done|].
    destruct answer; [done|]. destruct dn'; [|done]. cbn. naive_solver.
  - cbn. naive_solver.
  - unfold consume_item, disconnect. destruct (subscription_next s item) as [e|e] eqn:En; cbn; [by rewrite Ep|].
    destruct dn; [|by destruct (is_closed e), (is_undecodable e), dn']. cbn. intros _ Hrd.
    destruct (Hr Hrd) as [[= ->]|]; [|done]. by destruct item.
Qed.

(** C36. Over any answers of Docker, until the listener ends the daemon is ready exactly
    while it follows an open stream, and it has ended ready only if the context was done
    while it followed one: the flag is then left as it is. The backoff stays within its
    bounds. Where the times of events are [i64]s, and each of them plus one is a time to
    subscribe from, every re-subscription starts after each event with a positive time
    received before it, so that none of these is replayed. *)
Theorem listener_keeps stream inputs :
  Forall timed inputs ->
  let l := listen_events since stream inputs in
  (place l <> Ended -> (ready l = true <-> place l = Consuming Open)) /\
  (place l = Ended -> ready l = true -> exists before i after, inputs = before ++ i :: after /\
    place (listen_events since stream before) = Consuming Open /\ stops i) /\
  MIN_BACKOFF <= backoff l <= MAX_BACKOFF /\
  no_replay (actions l).
Proof.
  intros Ht l. destruct (listening_events stream inputs Ht) as [Hb Hr _ _ Hn]. fold l in Hb, Hr, Hn.
  split; [|split; [|done]].
  - intros Hp. split; [by intros [|]%Hr|]. subst l. clear. induction inputs as [|i inputs IH] using rev_ind; [done|].
    unfold listen_events in *. rewrite foldl_snoc. by apply open_ready_step.
  - subst l. clear Hb Hr Hn. induction inputs as [|i inputs IH] using rev_ind; [done|].
    apply Forall_app in Ht as [Ht _]. specialize (IH Ht). pose proof (listening_events stream inputs Ht) as HL.
    unfold listen_events in *. rewrite foldl_snoc. set (l := foldl _ _ inputs) in *. intros Hp Hr.
    destruct (decide (ended l)) as [He|He].
    + rewrite (ended_stays i l He) in Hr. destruct (IH He Hr) as (before & j & after & -> & Hj).
      exists before, j, (after ++ [i]). by rewrite <- app_assoc.
    + exists inputs, i, []. split; [done|]. by apply ended_ready_step.
Qed.

End keeps.

(** ** A run *)

Module ListenerExample.

Definition jiff : JiffNano := {| from_nanosecond := Some |}.
#[local] Existing Instance jiff.

(** Two events, a record that is no event, and a new subscription. *)
Definition inputs : list Input :=
  [AtHead false (Err SubTimeout) false;
   AtItem (Ok {| ev_action := "start"; ev_actor := "a"; ev_time_nano := 70 |}) false false 0;
   AtItem (Ok {| ev_action := "die"; ev_actor := "a"; ev_time_nano := 60 |}) false false 0;
   AtItem (Err {| stream_kind := Eof; stream_message := "EOF" |}) false false 100;
   AtHead false (Ok Open) false].

Lemma inputs_actions :
  actions (listen_events 5 (Some Open) inputs) =
  [Handle {| ev_action := "start"; ev_actor := "a"; ev_time_nano := 70 |};
   Handle {| ev_action := "die"; ev_actor := "a"; ev_time_nano := 60 |};
   Subscribed 71; Reenumerate].
Proof. vm_compute. reflexivity. Qed.

(** The daemon that is stopped while it follows a stream stays ready. *)
Example stopped_ready :
  let l := listen_events 5 (Some Open) (inputs ++ [AtHead false (Ok Open) false; Stop]) in
  place l = Ended /\ ready l = true.
Proof. vm_compute. done. Qed.

Lemma listener_keeps_witness :
  place (listen_events 5 (Some Open) inputs) = Consuming Open /\
  ready (listen_events 5 (Some Open) inputs) = true /\
  no_replay (actions (listen_events 5 (Some Open) inputs)).
Proof.
  split; [vm_compute; reflexivity|]. split; [vm_compute; reflexivity|].
  apply (@listener_keeps jiff 5 (fun n _ => eq_refl) (Some Open) inputs).
  repeat constructor; cbn; lia.
Defined.

End ListenerExample.
