(* ===== verification/Settings.v ===== *)
(** * Settings and their reload

    src/cli/settings.rs, with the schema of the config file and the enumerated
    values of src/config/mod.rs: the command line over the file over the
    defaults, the checks before anything uses the result, and the reload on
    SIGHUP. What the file said is an argument of the reload; what the reload
    does to the rest of the daemon (the logger configured, a runtime published)
    is recorded in order. *)

From S2P Require Import Prelude.
From S2P Require Import Text.
From S2P Require Import Policy.
From S2P Require Import Reconcile.

(** ** The config file's schema and enumerated values (config/mod.rs) *)

Definition LOG_FORMATS : list string := ["text"; "json"].
Definition LOG_LEVELS : list string := ["debug"; "info"; "warn"; "error"].

Record FileSchema := {
  f_log_format : string;
  f_log_level : string;
  f_log_time : option bool;
  f_docker_socket : string;
  f_dry_run : option bool;
  f_policy_mode : string;
  f_device_allow : option (list string);
  f_device_deny : option (list string);
  f_metrics_addr : string;
  f_debug_addr : string;
}.

Definition FileSchema_default : FileSchema :=
  {| f_log_format := ""; f_log_level := ""; f_log_time := None; f_docker_socket := "";
     f_dry_run := None; f_policy_mode := ""; f_device_allow := None; f_device_deny := None;
     f_metrics_addr := ""; f_debug_addr := "" |}.

Inductive EnumProblem :=
  | UnknownValue (value : string) (accepted : list string)
  | PolicyMode (source : PolicyError).

Record EnumError := { e_source : string; e_key : string; e_problem : EnumProblem }.

Definition EnumError_text (e : EnumError) : string :=
  e_source e +:+ " " +:+ quote (e_key e) +:+ ": " +:+
  match e_problem e with
  | UnknownValue value accepted =>
      "unknown value " +:+ quote value +:+ ", must be one of [" +:+ String.concat " " accepted +:+ "]"
  | PolicyMode source => PolicyError_text source
  end.

Definition validate_enums (log_format log_level policy_mode source : string)
    : result EnumError unit :=
  let error key problem := {| e_source := source; e_key := key; e_problem := problem |} in
  if bool_decide (log_format <> "" /\ log_format ∉ LOG_FORMATS)
  then Err (error "log-format" (UnknownValue log_format LOG_FORMATS))
  else if bool_decide (log_level <> "" /\ log_level ∉ LOG_LEVELS)
  then Err (error "log-level" (UnknownValue log_level LOG_LEVELS))
  else if bool_decide (policy_mode <> "")
  then _ ← map_err (fun source => error "policy-mode" (PolicyMode source)) (parse_mode policy_mode);
       Ok tt
  else Ok tt.

(** [refuse_debug_addr] of src/server.rs. *)
Definition DebugAddrRefused_text (address : string) : string :=
  "debug-addr " +:+ quote address +:+
  ": the pprof debug server was removed in 2.0; leave debug-addr empty".

Definition refuse_debug_addr (address : string) : result string unit :=
  if bool_decide (address = "") then Ok tt else Err address.

(** ** Settings *)

Record Settings := {
  log_format : string;
  log_level : string;
  log_time : bool;
  docker_socket : string;
  metrics_addr : string;
  debug_addr : string;
  s_dry_run : bool;
  policy_mode : string;
  s_device_allow : option (list string);
  s_device_deny : option (list string);
}.

(** [merge]. *)
Definition merge (defaults : Settings) (cli_set : gset string) (file : FileSchema) : Settings :=
  let from_file name := bool_decide (name ∉ cli_set) in
  let string name value target :=
    if from_file name && negb (bool_decide (value = "")) then value else target in
  let value {A} name (value : option A) (target : A) :=
    match value with Some v => if from_file name then v else target | None => target end in
  let list name (value : option (list String.string)) target :=
    match value with Some v => if from_file name then Some v else target | None => target end in
  {| log_format := string "log-format" (f_log_format file) (log_format defaults);
     log_level := string "log-level" (f_log_level file) (log_level defaults);
     log_time := value "log-time" (f_log_time file) (log_time defaults);
     docker_socket := string "docker-socket" (f_docker_socket file) (docker_socket defaults);
     metrics_addr := string "metrics-addr" (f_metrics_addr file) (metrics_addr defaults);
     debug_addr := string "debug-addr" (f_debug_addr file) (debug_addr defaults);
     s_dry_run := value "dry-run" (f_dry_run file) (s_dry_run defaults);
     policy_mode := string "policy-mode" (f_policy_mode file) (policy_mode defaults);
     s_device_allow := list "device-allow" (f_device_allow file) (s_device_allow defaults);
     s_device_deny := list "device-deny" (f_device_deny file) (s_device_deny defaults) |}.

Definition cold_changes (current next : Settings) : list string :=
  let changed (key a b : string) := if bool_decide (a = b) then [] else [key] in
  changed "docker-socket" (docker_socket current) (docker_socket next) ++
  changed "metrics-addr" (metrics_addr current) (metrics_addr next) ++
  changed "debug-addr" (debug_addr current) (debug_addr next) ++
  (if bool_decide (log_time current = log_time next) then [] else ["log-time"]).

Definition err_text {E A} (text : E -> string) (r : result E A) : list string :=
  match r with Ok _ => [] | Err e => [text e] end.

Section crate.
Context {crate : GlobCrate}.

(** [validate]; an error is the text of every check that failed. *)
Definition validate (s : Settings) : result string Runtime :=
  let enums := validate_enums (log_format s) (log_level s) (policy_mode s) "setting" in
  let policy := Global_new (policy_mode s) (s_device_allow s) (s_device_deny s) in
  let debug := refuse_debug_addr (debug_addr s) in
  let failures := err_text EnumError_text enums ++ err_text PolicyError_text policy
                  ++ err_text DebugAddrRefused_text debug in
  let joined := match failures with
                | [] => None
                | _ => Some (String.concat (String (chr 10) EmptyString) failures)
                end in
  match joined, policy with
  | None, Ok p => Ok {| dry_run := s_dry_run s; policy := p |}
  | Some text, _ => Err text
  | None, Err error => Err (PolicyError_text error)
  end.

(** ** Reload *)

Context {LoadError : Type} (LoadError_text : LoadError -> string).

Definition DRY_RUN_ENABLE : string :=
  "dry-run cannot be enabled on a running daemon; to stop enforcing, " +:+
  "restart the daemon live with a narrower policy, or restart the affected containers".

Inductive ReloadError :=
  | ReloadLoad (error : LoadError)
  | ReloadInvalid (text : string)
  | ReloadDryRun
  | ReloadCanceled.

Definition ReloadError_text (e : ReloadError) : string :=
  match e with
  | ReloadLoad error => "config reload failed: " +:+ LoadError_text error
  | ReloadInvalid error => "config reload: invalid setting: " +:+ error
  | ReloadDryRun => "config reload: " +:+ DRY_RUN_ENABLE
  | ReloadCanceled => "config reload failed: context canceled"
  end.

Record Reloader := {
  flags : Settings;
  cli_set : gset string;
  current : Settings;
}.

(** What a reload does to the rest of the daemon. *)
Inductive Effect :=
  | ConfigureLogger (format level : string)
  | PublishAndReconcile (r : Runtime).

(** The merged settings with the restart-only ones of [now]. *)
Definition keep_cold (now next : Settings) : Settings :=
  {| log_format := log_format next; log_level := log_level next; log_time := log_time now;
     docker_socket := docker_socket now; metrics_addr := metrics_addr now;
     debug_addr := debug_addr now; s_dry_run := s_dry_run next; policy_mode := policy_mode next;
     s_device_allow := s_device_allow next; s_device_deny := s_device_deny next |}.

Definition set_current (s : Settings) (r : Reloader) : Reloader :=
  {| flags := flags r; cli_set := cli_set r; current := s |}.

(** [reload]: [loaded] is what loading the file gave, or nothing when the runtime
    shut down before. *)
Definition reload (loaded : option (result LoadError FileSchema)) (r : Reloader)
    : result ReloadError unit * (Reloader * list Effect) :=
  match loaded with
  | None => (Err ReloadCanceled, (r, []))
  | Some (Err error) => (Err (ReloadLoad error), (r, []))
  | Some (Ok file) =>
      let next := merge (flags r) (cli_set r) file in
      match validate next with
      | Err text => (Err (ReloadInvalid text), (r, []))
      | Ok runtime =>
          if s_dry_run next && negb (s_dry_run (current r)) then (Err ReloadDryRun, (r, []))
          else
            let next := keep_cold (current r) next in
            (Ok tt, (set_current next r,
                     [ConfigureLogger (log_format next) (log_level next);
                      PublishAndReconcile runtime]))
      end
  end.

(** [watch_sighup]: a reload per signal, the rejected ones only logged. *)
Fixpoint watch_sighup (loads : list (option (result LoadError FileSchema))) (r : Reloader)
    : Reloader * list Effect :=
  match loads with
  | [] => (r, [])
  | loaded :: loads =>
      let '(_, (r, effects)) := reload loaded r in
      let '(r, later) := watch_sighup loads r in
      (r, effects ++ later)
  end.

(** ** What reloads keep *)

Definition cold (s : Settings) : bool * string * string * string :=
  (log_time s, docker_socket s, metrics_addr s, debug_addr s).

(** The runtimes published, in order. *)
Definition published (effects : list Effect) : list Runtime :=
  effects ≫= fun e => match e with PublishAndReconcile r => [r] | _ => [] end.

(** A runtime is what the settings in force say. *)
Definition in_force (s : Settings) (r : Runtime) : Prop :=
  dry_run r = s_dry_run s /\
  Global_new (policy_mode s) (s_device_allow s) (s_device_deny s) = Ok (policy r).

Lemma err_text_nil {E A} (text : E -> string) (r : result E A) :
  err_text text r = [] -> exists a, r = Ok a.
Proof. destruct r; [by eexists|done]. Qed.

Lemma validate_ok s r :
  validate s = Ok r ->
  in_force s r /\ debug_addr s = "" /\
  validate_enums (log_format s) (log_level s) (policy_mode s) "setting" = Ok tt.
Proof.
  unfold validate. destruct (err_text EnumError_text _ ++ _) as [|x l] eqn:E; [|done].
  apply app_eq_nil in E as [[[] He]%err_text_nil [[p Hp]%err_text_nil [? Hd]%err_text_nil]%app_eq_nil].
  rewrite Hp. intros [= <-]. split_and!; [done..| |done].
  unfold refuse_debug_addr in Hd. by case_bool_decide.
Qed.

(** One reload: rejected, it changes nothing; accepted, it publishes the runtime
    of the settings it puts in force. *)
Lemma reload_spec loaded r res r' effects :
  reload loaded r = (res, (r', effects)) ->
  (is_ok res = false /\ r' = r /\ effects = []) \/
  (exists file runtime, res = Ok tt /\ loaded = Some (Ok file) /\
    validate (merge (flags r) (cli_set r) file) = Ok runtime /\
    published effects = [runtime] /\ in_force (current r') runtime /\
    cold (current r') = cold (current r) /\ flags r' = flags r /\ cli_set r' = cli_set r /\
    (s_dry_run (current r) = false -> s_dry_run (current r') = false)).
Proof.
  unfold reload. destruct loaded as [[file|e]|]; [|intros [= <- <- <-]; by left..].
  destruct (validate _) as [runtime|text] eqn:Ev; [|intros [= <- <- <-]; by left].
  destruct (_ && _) eqn:Ed; intros [= <- <- <-]; [by left|right].
  pose proof (validate_ok _ _ Ev) as (Hf & _ & _).
  exists file, runtime. split_and!; try done. cbn. intros Hc. rewrite Hc in Ed.
  by rewrite andb_true_r in Ed.
Qed.

(** C29. Over any sequence of reloads the restart-only settings stay what they
    were at the start; a live daemon never goes back to dry-run; every runtime
    published passed validation; and the last one published is what the settings
    in force say. A rejected reload changes nothing. *)
Theorem reloads_keep loads r r' effects :
  watch_sighup loads r = (r', effects) ->
  cold (current r') = cold (current r) /\
  (s_dry_run (current r) = false ->
    s_dry_run (current r') = false /\ Forall (fun rt => dry_run rt = false) (published effects)) /\
  Forall (fun rt => exists file, Some (Ok file) ∈ loads /\
    validate (merge (flags r) (cli_set r) file) = Ok rt) (published effects) /\
  match last (published effects) with
  | Some rt => in_force (current r') rt
  | None => current r' = current r
  end.
Proof.
  revert r r' effects. induction loads as [|loaded loads IH]; cbn; intros r r' effects.
  { intros [= <- <-]. by repeat constructor. }
  destruct (reload loaded r) as [res [r1 e1]] eqn:E1.
  destruct (watch_sighup loads r1) as [r2 e2] eqn:E2. intros [= <- <-].
  destruct (IH _ _ _ E2) as (Hc & Hd & Hv & Hl).
  assert (Hpub : published (e1 ++ e2) = published e1 ++ published e2)
    by apply bind_app. rewrite Hpub.
  assert (Hv' : flags r1 = flags r -> cli_set r1 = cli_set r ->
    Forall (fun rt => exists file, Some (Ok file) ∈ loaded :: loads /\
      validate (merge (flags r) (cli_set r) file) = Ok rt) (published e2)).
  { intros Hfl Hcli. rewrite <- Hfl, <- Hcli. eapply Forall_impl; [exact Hv|].
    intros rt (file & Hin & Hval). exists file. split; [by right|done]. }
  destruct (reload_spec _ _ _ _ _ E1) as
    [(_ & -> & ->)|(file & runtime & _ & -> & Hval & -> & Hin & Hc1 & Hfl & Hcli & Hd1)]; cbn.
  { by auto. }
  split_and!.
  - congruence.
  - intros Hlive. destruct (Hd (Hd1 Hlive)) as [? Hall]. split; [done|].
    constructor; [|done]. destruct Hin as [-> _]. auto.
  - constructor; [|auto]. exists file. split; [by left|done].
  - rewrite last_cons. destruct (last (published e2)); [done|]. by rewrite Hl.
Qed.

End crate.

(** ** A run *)

Module SettingsExample.

#[local] Instance any_crate : GlobCrate := {|
  Pattern := string; Pattern_new := Some; matches_with := fun p n _ => bool_decide (p = n);
|}.

Definition defaults : Settings :=
  {| log_format := "text"; log_level := "info"; log_time := false;
     docker_socket := "/var/run/docker.sock"; metrics_addr := ":9090"; debug_addr := "";
     s_dry_run := false; policy_mode := "opt-in"; s_device_allow := None; s_device_deny := None |}.

Definition reloader : Reloader :=
  {| flags := defaults; cli_set := {[ "metrics-addr" ]}; current := defaults |}.

(** A file that narrows the policy and moves the metrics, then one that asks for
    dry-run, then one whose mode is unknown. *)
Definition narrowed : FileSchema :=
  {| f_log_format := "json"; f_log_level := ""; f_log_time := Some true; f_docker_socket := "";
     f_dry_run := None; f_policy_mode := "all"; f_device_allow := Some ["/dev/tty*"];
     f_device_deny := None; f_metrics_addr := ":1"; f_debug_addr := "" |}.
Definition dry : FileSchema :=
  {| f_log_format := ""; f_log_level := ""; f_log_time := None; f_docker_socket := "";
     f_dry_run := Some true; f_policy_mode := ""; f_device_allow := None; f_device_deny := None;
     f_metrics_addr := ""; f_debug_addr := "" |}.
Definition unknown : FileSchema :=
  {| f_log_format := ""; f_log_level := ""; f_log_time := None; f_docker_socket := "";
     f_dry_run := None; f_policy_mode := "none"; f_device_allow := None; f_device_deny := None;
     f_metrics_addr := ""; f_debug_addr := "" |}.

Definition loads : list (option (result string FileSchema)) :=
  [Some (Ok narrowed); Some (Ok dry); Some (Ok unknown); Some (Err "no such file")].

Lemma watch_effects :
  (watch_sighup loads reloader).2 =
  [ConfigureLogger "json" "info";
   PublishAndReconcile {| dry_run := false;
     policy := {| mode := All; g_device_allow := Some ["/dev/tty*"]; g_device_deny := None |} |}].
Proof. vm_compute. reflexivity. Qed.

Lemma reloads_keep_witness :
  cold (current (watch_sighup loads reloader).1) = cold defaults /\
  s_dry_run (current (watch_sighup loads reloader).1) = false.
Proof.
  destruct (watch_sighup loads reloader) as [r' effects] eqn:E.
  destruct (reloads_keep loads reloader r' effects E) as (Hc & Hd & _).
  split; [exact Hc|]. exact (proj1 (Hd eq_refl)).
Defined.

End SettingsExample.
