(* ===== verification/Resolve.v ===== *)
(** * Scalars of the configuration file

    src/config/resolve.rs: which plain scalars of a YAML document are strings,
    and what the others are, with the decoding of [!!binary]. A scalar is its
    bytes. Numbers and times carry no value, as in the source; whether a decimal
    is a finite [f64] is decided on the exact value, against the least decimal
    that rounds to infinity. *)

From Stdlib Require Import Ascii.
From S2P Require Import Prelude.
From S2P Require Import Text.

Definition NULL_TAG : string := "!!null".
Definition BOOL_TAG : string := "!!bool".
Definition STR_TAG : string := "!!str".
Definition INT_TAG : string := "!!int".
Definition FLOAT_TAG : string := "!!float".
Definition TIMESTAMP_TAG : string := "!!timestamp".
Definition SEQ_TAG : string := "!!seq".
Definition MAP_TAG : string := "!!map".
Definition BINARY_TAG : string := "!!binary".
Definition MERGE_TAG : string := "!!merge".

Definition LONG_TAG_PREFIX : string := "tag:yaml.org,2002:".

Inductive Resolved :=
  | Null
  | Bool (b : bool)
  | Text (text : string)
  | Int
  | Uint
  | Float
  | Timestamp.

#[global] Instance Resolved_eq_dec : EqDecision Resolved.
Proof. solve_decision. Defined.

Definition short_tag (tag : string) : string :=
  match strip_prefix LONG_TAG_PREFIX tag with Some suffix => "!!" +:+ suffix | None => tag end.

Definition RESOLVABLE : list string :=
  [""; STR_TAG; BOOL_TAG; INT_TAG; FLOAT_TAG; NULL_TAG; TIMESTAMP_TAG].

Definition resolvable_tag (tag : string) : bool := bool_decide (tag ∈ RESOLVABLE).

Definition TRUE_TEXTS : list string := ["true"; "True"; "TRUE"].
Definition FALSE_TEXTS : list string := ["false"; "False"; "FALSE"].
Definition NULL_TEXTS : list string := [""; "~"; "null"; "Null"; "NULL"].
Definition FLOAT_TEXTS : list string :=
  [".nan"; ".NaN"; ".NAN"; ".inf"; ".Inf"; ".INF"; "+.inf"; "+.Inf"; "+.INF"; "-.inf"; "-.Inf";
   "-.INF"].

Definition resolve_map (input : string) : option (string * Resolved) :=
  if bool_decide (input ∈ TRUE_TEXTS) then Some (BOOL_TAG, Bool true)
  else if bool_decide (input ∈ FALSE_TEXTS) then Some (BOOL_TAG, Bool false)
  else if bool_decide (input ∈ NULL_TEXTS) then Some (NULL_TAG, Null)
  else if bool_decide (input ∈ FLOAT_TEXTS) then Some (FLOAT_TAG, Float)
  else if bool_decide (input = "<<") then Some (MERGE_TAG, Text input)
  else None.

Inductive Hint := HintN | HintS | HintD | HintM | HintDot.

Definition is_sign (c : Ascii.ascii) : bool := bool_decide (c = "+"%char) || bool_decide (c = "-"%char).

Definition MAP_FIRST : list Ascii.ascii :=
  ["y"; "Y"; "n"; "N"; "t"; "T"; "f"; "F"; "o"; "O"; "~"]%char.

Definition hint (input : string) : option Hint :=
  match input with
  | EmptyString => Some HintN
  | String c _ =>
      if is_sign c then Some HintS
      else if is_digit c then Some HintD
      else if bool_decide (c ∈ MAP_FIRST) then Some HintM
      else if bool_decide (c = "."%char) then Some HintDot
      else None
  end.

(** ** Numbers *)

(** The sign [from_str_radix] reads, and the rest. *)
Definition split_sign (s : string) : bool * string :=
  match s with
  | String c rest => if is_sign c then (bool_decide (c = "-"%char), rest) else (false, s)
  | EmptyString => (false, s)
  end.

Fixpoint radix_value (base : Z) (s : string) (acc : Z) : option Z :=
  match s with
  | EmptyString => Some acc
  | String c s =>
      let d := Z.of_nat (ord c) - 48 in
      if bool_decide (0 <= d < base) then radix_value base s (acc * base + d) else None
  end.

(** [i64::from_str_radix(s, base).is_ok()] and [u64::from_str_radix], for bases
    up to ten. *)
Definition i64_radix (base : Z) (s : string) : bool :=
  let '(negative, digits) := split_sign s in
  if bool_decide (digits = "") then false
  else match radix_value base digits 0 with
       | Some v => bool_decide (is_i 64 (if negative then - v else v))
       | None => false
       end.

Definition u64_radix (base : Z) (s : string) : bool :=
  let digits := match s with
                | String c rest => if bool_decide (c = "+"%char) then rest else s
                | EmptyString => s
                end in
  if bool_decide (digits = "") then false
  else match radix_value base digits 0 with Some v => bool_decide (is_u 64 v) | None => false end.

Definition integer (digits : string) (base : Z) : option (string * Resolved) :=
  if i64_radix base digits then Some (INT_TAG, Int)
  else if u64_radix base digits then Some (INT_TAG, Uint)
  else None.

Definition skip_sign (s : string) : string := (split_sign s).2.

(** An optional exponent [[eE][-+]?[0-9]+], and whether nothing follows it. *)
Definition exponent_end (s : string) : bool :=
  match s with
  | String c rest =>
      if bool_decide (c = "e"%char) || bool_decide (c = "E"%char) then
        let '(exponent, rest) := span_digits (skip_sign rest) in
        negb (bool_decide (exponent = "")) && bool_decide (rest = "")
      else false
  | EmptyString => true
  end.

Definition yaml_style_float (text : string) : bool :=
  match skip_sign text with
  | String c rest as s =>
      if bool_decide (c = "."%char) then
        let '(fraction, rest) := span_digits rest in
        negb (bool_decide (fraction = "")) && exponent_end rest
      else
        let '(integer, rest) := span_digits s in
        if bool_decide (integer = "") then false
        else match rest with
             | String c rest' =>
                 if bool_decide (c = "."%char) then exponent_end (span_digits rest').2
                 else exponent_end rest
             | EmptyString => true
             end
  | EmptyString => false
  end.

(** The decimal a Rust float literal denotes, [m * 10^e], sign dropped. *)
Definition parse_decimal (text : string) : option (Z * Z) :=
  let '(int, rest) := span_digits (skip_sign text) in
  let '(frac, rest) := match rest with
                       | String c rest' => if bool_decide (c = "."%char) then span_digits rest' else ("", rest)
                       | EmptyString => ("", rest)
                       end in
  if bool_decide (int +:+ frac = "") then None
  else
    let m := Text.digits_value (int +:+ frac) 0 in
    let scale := - Z.of_nat (String.length frac) in
    match rest with
    | EmptyString => Some (m, scale)
    | String c rest =>
        if bool_decide (c = "e"%char) || bool_decide (c = "E"%char) then
          let '(negative, rest) := split_sign rest in
          let '(exponent, rest) := span_digits rest in
          if bool_decide (exponent = "") || negb (bool_decide (rest = "")) then None
          else let e := Text.digits_value exponent 0 in
               Some (m, scale + (if negative then - e else e))
        else None
    end.

(** The least positive number that rounds to infinity in [f64]. *)
Definition F64_INFINITE : Z := 2 ^ 1024 - 2 ^ 970.

Definition decimal_is_finite (text : string) : bool :=
  match parse_decimal text with
  | Some (m, e) =>
      if 0 <=? e then m * 10 ^ e <? F64_INFINITE else m <? F64_INFINITE * 10 ^ (- e)
  | None => false
  end.

(** The digits and the point [go_float_syntax] skips: whether there was a digit,
    and the rest. *)
Fixpoint float_digits (digits seen_point : bool) (s : string) : bool * string :=
  match s with
  | String c rest =>
      if is_digit c then float_digits true seen_point rest
      else if bool_decide (c = "."%char) && negb seen_point then float_digits digits true rest
      else (digits, s)
  | EmptyString => (digits, s)
  end.

Definition go_float_syntax (text : string) : bool :=
  let '(digits, rest) := float_digits false false (skip_sign text) in
  digits && exponent_end rest && decimal_is_finite text.

(** ** Timestamps *)

(** [getnum(s, false)]: one or two digits. *)
Definition get_number (s : string) : option (Z * string) :=
  match s with
  | String a (String b rest) =>
      if is_digit a then
        if is_digit b then Some (Text.digits_value (String a (of_char b)) 0, rest)
        else Some (Text.digits_value (of_char a) 0, String b rest)
      else None
  | String a EmptyString =>
      if is_digit a then Some (Text.digits_value (of_char a) 0, EmptyString) else None
  | EmptyString => None
  end.

Definition days_in (month year : Z) : Z :=
  if month =? 2 then
    if (year mod 4 =? 0) && (negb (year mod 100 =? 0) || (year mod 400 =? 0)) then 29 else 28
  else if bool_decide (month ∈ [4; 6; 9; 11]) then 30 else 31.

(** [year] are the four digits already split off. *)
Definition parse_date (year rest : string) : option (Z * Z * Z * string) :=
  rest ← strip_prefix "-" rest;
  '(month, rest) ← get_number rest;
  if bool_decide (1 <= month <= 12) then
    rest ← strip_prefix "-" rest;
    '(day, rest) ← get_number rest;
    Some (Text.digits_value year 0, month, day, rest)
  else None.

Definition skip_fraction (rest : string) : string :=
  match rest with
  | String p (String d _ as fraction) =>
      if (bool_decide (p = "."%char) || bool_decide (p = ","%char)) && is_digit d
      then (span_digits fraction).2 else rest
  | _ => rest
  end.

Definition parse_time (s : string) : option string :=
  '(hour, rest) ← get_number s;
  rest ← strip_prefix ":" rest;
  '(minute, rest) ← get_number rest;
  rest ← strip_prefix ":" rest;
  '(second, rest) ← get_number rest;
  if (24 <=? hour) || (60 <=? minute) || (60 <=? second) then None
  else Some (skip_fraction rest).

Definition parse_zone (s : string) : bool :=
  match s with
  | String z EmptyString => bool_decide (z = "Z"%char)
  | String sign (String h1 (String h2 (String colon (String m1 (String m2 EmptyString))))) =>
      is_sign sign && bool_decide (colon = ":"%char)
      && is_digit h1 && is_digit h2 && is_digit m1 && is_digit m2
      && (Text.digits_value (String h1 (of_char h2)) 0 <=? 24)
      && (Text.digits_value (String m1 (of_char m2)) 0 <=? 60)
  | _ => false
  end.

Definition is_timestamp (text : string) : bool :=
  let '(year, rest) := span_digits text in
  if negb ((String.length year =? 4)%nat && starts_with rest "-") then false
  else match parse_date year rest with
  | None => false
  | Some (year, month, day, rest) =>
      if (day <? 1) || (days_in month year <? day) then false
      else match rest with
      | EmptyString => true
      | String c time =>
          if bool_decide (c = "T"%char) || bool_decide (c = "t"%char)
          then match parse_time time with Some zone => parse_zone zone | None => false end
          else if bool_decide (c = " "%char)
          then bool_decide (parse_time time = Some "")
          else false
      end
  end.

(** ** Resolution *)

Definition from_first {A} (a b : option A) : option A := match a with Some x => Some x | None => b end.

Definition based (prefix negative_prefix : string) (base : Z) (plain : string)
    : option (string * Resolved) :=
  match strip_prefix prefix plain with
  | Some digits => integer digits base
  | None =>
      match strip_prefix negative_prefix plain with
      | Some digits => if i64_radix base ("-" +:+ digits) then Some (INT_TAG, Int) else None
      | None => None
      end
  end.

Definition resolve_number (tag input : string) : option (string * Resolved) :=
  if (bool_decide (tag = "") || bool_decide (tag = TIMESTAMP_TAG)) && is_timestamp input
  then Some (TIMESTAMP_TAG, Timestamp)
  else match integer input 10 with
  | Some found => Some found
  | None =>
      if yaml_style_float input && decimal_is_finite input then Some (FLOAT_TAG, Float)
      else from_first (based "0b" "-0b" 2 input) (based "0o" "-0o" 8 input)
  end.

Definition resolve_resolvable (tag input : string) : string * Resolved :=
  let text := (STR_TAG, Text input) in
  match hint input with
  | None => text
  | Some h =>
      if bool_decide (tag = STR_TAG) then text
      else match resolve_map input with
      | Some found => found
      | None =>
          match h with
          | HintDot => if go_float_syntax input then (FLOAT_TAG, Float) else text
          | HintD | HintS => default text (resolve_number tag input)
          | HintN | HintM => text
          end
      end
  end.

Definition cannot_decode (resolved_tag input tag : string) : string :=
  "cannot decode " +:+ short_tag resolved_tag +:+ " `" +:+ input +:+ "` as a " +:+ short_tag tag.

Definition resolve (tag input : string) : result string (string * Resolved) :=
  let tag := short_tag tag in
  if negb (resolvable_tag tag) then Ok (tag, Text input)
  else
    let '(resolved_tag, resolved) := resolve_resolvable tag input in
    resolved_tag ←
      (if bool_decide (tag = "") || bool_decide (tag = resolved_tag) || bool_decide (tag = STR_TAG)
       then Ok resolved_tag
       else if bool_decide (tag = FLOAT_TAG) && bool_decide (resolved = Int) then Ok FLOAT_TAG
       else Err (cannot_decode resolved_tag input tag));
    Ok (resolved_tag,
        if bool_decide (resolved_tag = FLOAT_TAG) && bool_decide (resolved = Int) then Float
        else resolved).

(** ** Base64 *)

Definition base64_value (c : Ascii.ascii) : option Z :=
  let b := Z.of_nat (ord c) in
  if bool_decide (65 <= b <= 90) then Some (b - 65)
  else if bool_decide (97 <= b <= 122) then Some (b - 97 + 26)
  else if bool_decide (48 <= b <= 57) then Some (b - 48 + 52)
  else if b =? 43 then Some 62
  else if b =? 47 then Some 63
  else None.

Definition PAD : Ascii.ascii := "="%char.

Fixpoint leading_pads (l : list Ascii.ascii) : nat :=
  match l with c :: l => if bool_decide (c = PAD) then S (leading_pads l) else O | [] => O end.

(** The [=] at the end of a quad. *)
Definition padding (quad : list Ascii.ascii) : nat := leading_pads (reverse quad).

(** Six bits per symbol; a quad has twenty-four, so the [u32] does not overflow. *)
Fixpoint quad_bits (bits : Z) (symbols : list Ascii.ascii) : option Z :=
  match symbols with
  | [] => Some bits
  | c :: symbols => v ← base64_value c; quad_bits (Z.shiftl bits 6 .| v) symbols
  end.

(** The bytes 1, 2 and 3 of a big-endian [u32]. *)
Definition low_bytes (bits : Z) : list Z :=
  [Z.shiftr bits 16 .& 255; Z.shiftr bits 8 .& 255; bits .& 255].

Definition decode_quad (is_last : bool) (quad : list Ascii.ascii) : option (list Z) :=
  let pad := padding quad in
  if (2 <? pad)%nat || ((0 <? pad)%nat && negb is_last) then None
  else
    bits ← quad_bits 0 (take (4 - pad) quad);
    Some (take (3 - pad) (low_bytes (Z.shiftl bits (6 * Z.of_nat pad)))).

Fixpoint decode_quads (symbols : list Ascii.ascii) : option (list Z) :=
  match symbols with
  | a :: b :: c :: d :: rest =>
      bytes ← decode_quad (match rest with [] => true | _ => false end) [a; b; c; d];
      more ← decode_quads rest;
      Some (bytes ++ more)
  | [] => Some []
  | _ => None
  end.

Definition line_break (c : Ascii.ascii) : Prop := c = return_char \/ c = newline.

Definition decode_base64 (text : string) : option (list Z) :=
  let symbols := filter (fun c => ~ line_break c) (String.list_ascii_of_string text) in
  if negb (length symbols mod 4 =? 0)%nat then None else decode_quads symbols.

(** ** What a scalar resolves to *)

(** The tag and the value agree. *)
Definition tagged_as (input tag : string) (v : Resolved) : Prop :=
  match v with
  | Null => tag = NULL_TAG /\ input ∈ NULL_TEXTS
  | Bool b => tag = BOOL_TAG /\ input ∈ (if b then TRUE_TEXTS else FALSE_TEXTS)
  | Int | Uint => tag = INT_TAG
  | Float => tag = FLOAT_TAG
  | Timestamp => tag = TIMESTAMP_TAG /\ is_timestamp input = true
  | Text t => t = input /\ (tag = STR_TAG \/ resolvable_tag tag = false)
  end.

Lemma resolve_map_tagged input h t v :
  hint input = Some h -> resolve_map input = Some (t, v) -> tagged_as input t v.
Proof.
  unfold resolve_map. intros Hh. repeat case_bool_decide; intros [= <- <-]; try done.
  by subst.
Qed.

Lemma integer_tagged input digits base t v : integer digits base = Some (t, v) -> tagged_as input t v.
Proof. unfold integer. repeat case_match; by intros [= <- <-]. Qed.

Lemma based_tagged input p n base t v : based p n base input = Some (t, v) -> tagged_as input t v.
Proof.
  unfold based. repeat case_match; try done; [apply integer_tagged|by intros [= <- <-]].
Qed.

Lemma resolve_number_tagged tag input t v :
  resolve_number tag input = Some (t, v) -> tagged_as input t v.
Proof.
  unfold resolve_number. destruct (_ && is_timestamp input) eqn:E.
  { intros [= <- <-]. by apply andb_true_iff in E as [_ ?]. }
  destruct (integer input 10) as [[t' v']|] eqn:Ei.
  { intros [= <- <-]. by eapply integer_tagged. }
  case_match; [by intros [= <- <-]|]. unfold from_first. case_match; [|apply based_tagged].
  intros [= ->]. by eapply based_tagged.
Qed.

Lemma resolve_resolvable_tagged tag input t v :
  resolve_resolvable tag input = (t, v) -> tagged_as input t v.
Proof.
  unfold resolve_resolvable. assert (Htext : tagged_as input STR_TAG (Text input)) by (split; [done|by left]).
  destruct (hint input) as [h|] eqn:Hh; [|by intros [= <- <-]].
  case_bool_decide; [by intros [= <- <-]|].
  destruct (resolve_map input) as [[t' v']|] eqn:Em.
  { intros [= <- <-]. by eapply resolve_map_tagged. }
  destruct h; try (by intros [= <- <-]).
  - destruct (resolve_number tag input) as [[t' v']|] eqn:En; intros [= <- <-]; [|done].
    by eapply resolve_number_tagged.
  - destruct (resolve_number tag input) as [[t' v']|] eqn:En; intros [= <- <-]; [|done].
    by eapply resolve_number_tagged.
  - case_match; by intros [= <- <-].
Qed.

(** Whatever tag a scalar carries, what it resolves to has the tag of its
    value: text is the scalar itself, a boolean or a null is one of the listed
    spellings, and an explicit core tag is kept. A scalar with no tag always
    resolves, and one whose first byte starts no other spelling is a string. *)
Theorem resolve_tagged tag input :
  match resolve tag input with
  | Ok (t, v) =>
      tagged_as input t v /\
      (resolvable_tag (short_tag tag) = true -> short_tag tag <> "" -> short_tag tag <> STR_TAG ->
       t = short_tag tag) /\
      (hint input = None -> short_tag tag = "" -> v = Text input)
  | Err _ => short_tag tag <> "" /\ short_tag tag <> STR_TAG
  end.
Proof.
  unfold resolve. destruct (resolvable_tag (short_tag tag)) eqn:Hr; cbn [negb].
  2:{ split_and!; [by split; [|right]|done|done]. }
  destruct (resolve_resolvable (short_tag tag) input) as [t v] eqn:E.
  pose proof (resolve_resolvable_tagged _ _ _ _ E) as Ht.
  assert (Hstr : hint input = None -> v = Text input).
  { unfold resolve_resolvable in E. intros Hh. rewrite Hh in E. by simplify_eq. }
  destruct (bool_decide (short_tag tag = "") || _ || _) eqn:Eb; cbn [mbind result_bind].
  - assert (Hv : bool_decide (t = FLOAT_TAG) && bool_decide (v = Int) = false).
    { apply andb_false_iff. destruct (decide (v = Int)) as [->|]; [left|right];
        apply bool_decide_eq_false_2; [|done]. cbn in Ht. by subst. }
    rewrite Hv. split_and!; [done| |auto]. intros _ He Hs.
    apply orb_true_iff in Eb as [[?%bool_decide_eq_true|?%bool_decide_eq_true]%orb_true_iff
      |?%bool_decide_eq_true]; done.
  - apply orb_false_iff in Eb as [[He%bool_decide_eq_false Hn%bool_decide_eq_false]%orb_false_iff
      Hs%bool_decide_eq_false].
    destruct (bool_decide (short_tag tag = FLOAT_TAG) && bool_decide (v = Int)) eqn:Ef;
      cbn [mbind result_bind]; [|done].
    apply andb_true_iff in Ef as [Hf%bool_decide_eq_true ->%bool_decide_eq_true].
    cbn. done.
Qed.

(** ** Base64 round trip *)

Definition base64_symbol (v : Z) : Ascii.ascii :=
  chr (Z.to_nat (if v <? 26 then v + 65 else if v <? 52 then v + 71 else if v <? 62 then v - 4
                 else if v =? 62 then 43 else 47)).

Fixpoint encode_symbols (bytes : list Z) : list Ascii.ascii :=
  match bytes with
  | [] => []
  | [a] => (base64_symbol <$> [a / 4; a mod 4 * 16]) ++ [PAD; PAD]
  | [a; b] => (base64_symbol <$> [a / 4; a mod 4 * 16 + b / 16; b mod 16 * 4]) ++ [PAD]
  | a :: b :: c :: rest =>
      (base64_symbol <$> [a / 4; a mod 4 * 16 + b / 16; b mod 16 * 4 + c / 64; c mod 64])
      ++ encode_symbols rest
  end.

Definition encode_base64 (bytes : list Z) : string :=
  String.string_of_list_ascii (encode_symbols bytes).

Definition sextet (v : Z) : Prop := 0 <= v < 64.

(** The symbols are those of the alphabet, by enumeration. *)
Lemma base64_symbols :
  forallb (fun v => bool_decide (base64_value (base64_symbol v) = Some v /\
    base64_symbol v <> PAD /\ ~ line_break (base64_symbol v))) (seqZ 0 64) = true.
Proof. vm_compute. reflexivity. Qed.

Lemma base64_symbol_spec v :
  sextet v -> base64_value (base64_symbol v) = Some v /\ base64_symbol v <> PAD /\
    ~ line_break (base64_symbol v).
Proof.
  intros Hv. pose proof base64_symbols as Hall. rewrite forallb_forall in Hall.
  eapply bool_decide_eq_true, Hall. apply list_elem_of_In, elem_of_seqZ.
  unfold sextet in Hv. lia.
Qed.

Lemma quad_bits_symbols bits vs :
  Forall sextet vs ->
  quad_bits bits (base64_symbol <$> vs) = Some (foldl (fun bits v => bits * 64 + v) bits vs).
Proof.
  intros Hvs. revert bits. induction Hvs as [|v vs Hv _ IH]; intros bits; [done|].
  cbn. destruct (base64_symbol_spec v Hv) as [-> _]. cbn.
  rewrite (lor_shiftl_add _ _ 6) by done. apply IH.
Qed.

Lemma padding_symbols vs pads :
  Forall sextet vs -> vs <> [] -> padding ((base64_symbol <$> vs) ++ replicate pads PAD) = pads.
Proof.
  intros Hvs Hne. unfold padding. rewrite reverse_app, reverse_replicate.
  induction pads as [|pads IH]; cbn.
  - destruct vs as [|v vs _] using rev_ind; [done|]. rewrite fmap_app, reverse_app. cbn.
    apply Forall_app in Hvs as [_ [Hv _]%Forall_cons].
    destruct (base64_symbol_spec v Hv) as (_ & Hp & _). by rewrite bool_decide_eq_false_2.
  - rewrite IH. by rewrite bool_decide_eq_true_2.
Qed.

(** A quad of [4 - pads] symbols. *)
Lemma decode_quad_symbols is_last vs pads :
  Forall sextet vs -> (length vs + pads = 4)%nat -> (pads <= 2)%nat -> pads = O \/ is_last = true ->
  decode_quad is_last ((base64_symbol <$> vs) ++ replicate pads PAD) =
  Some (take (3 - pads)
    (low_bytes (foldl (fun bits v => bits * 64 + v) 0 vs * 64 ^ Z.of_nat pads))).
Proof.
  intros Hvs Hlen Hp Hl. unfold decode_quad. rewrite padding_symbols; [|done|].
  2:{ intros ->. cbn in Hlen. lia. }
  replace ((2 <? pads)%nat || ((0 <? pads)%nat && negb is_last)) with false.
  2:{ destruct (Nat.ltb_spec 2 pads); [lia|]. destruct Hl as [-> | ->]; [done|].
      by rewrite andb_false_r. }
  rewrite take_app_length' by (rewrite length_fmap; lia). rewrite quad_bits_symbols by done. cbn.
  rewrite Z.shiftl_mul_pow2 by lia. rewrite Z.pow_mul_r by lia. done.
Qed.

Lemma low_bytes_eq n :
  low_bytes n = [n / 65536 mod 256; n / 256 mod 256; n mod 256].
Proof.
  unfold low_bytes. rewrite !Z.shiftr_div_pow2 by lia.
  change 255 with (Z.ones 8). by rewrite !Z.land_ones by lia.
Qed.

Lemma decode_quads_cons a b c d rest :
  decode_quads (a :: b :: c :: d :: rest) =
  (bytes ← decode_quad (match rest with [] => true | _ => false end) [a; b; c; d];
   more ← decode_quads rest; Some (bytes ++ more)).
Proof. done. Qed.

(** The bytes of a group, from its sextets. *)
Lemma group_bytes a b c :
  u8 a -> u8 b -> u8 c ->
  low_bytes (((a / 4 * 64 + (a mod 4 * 16 + b / 16)) * 64 + (b mod 16 * 4 + c / 64)) * 64 + c mod 64)
  = [a; b; c].
Proof.
  unfold is_u. intros Ha Hb Hc. rewrite low_bytes_eq. change (2 ^ 8) with 256 in *.
  repeat f_equal; Z.to_euclidean_division_equations; lia.
Qed.

Lemma sextets a b c :
  u8 a -> u8 b -> u8 c ->
  sextet (a / 4) /\ sextet (a mod 4 * 16 + b / 16) /\ sextet (b mod 16 * 4 + c / 64) /\ sextet (c mod 64).
Proof.
  unfold is_u, sextet. change (2 ^ 8) with 256. intros Ha Hb Hc.
  split_and!; Z.to_euclidean_division_equations; lia.
Qed.

Ltac sextet_list := repeat (apply Forall_cons_2; [done|]); apply Forall_nil_2.

(** The quads of a whole group, and of the rest of one or two bytes. *)
Lemma decode_group is_last a b c :
  u8 a -> u8 b -> u8 c ->
  decode_quad is_last (base64_symbol <$> [a / 4; a mod 4 * 16 + b / 16; b mod 16 * 4 + c / 64; c mod 64])
  = Some [a; b; c].
Proof.
  intros Ha Hb Hc. destruct (sextets a b c Ha Hb Hc) as (S1 & S2 & S3 & S4).
  pose proof (decode_quad_symbols is_last
    [a / 4; a mod 4 * 16 + b / 16; b mod 16 * 4 + c / 64; c mod 64] 0) as Hq.
  rewrite app_nil_r in Hq. rewrite Hq; [|sextet_list|done|lia|by left].
  change (3 - 0)%nat with 3%nat. change (64 ^ Z.of_nat 0) with 1. rewrite Z.mul_1_r.
  cbn [foldl]. rewrite Z.mul_0_l, Z.add_0_l, group_bytes by done. done.
Qed.

Lemma decode_group2 a b :
  u8 a -> u8 b ->
  decode_quad true ((base64_symbol <$> [a / 4; a mod 4 * 16 + b / 16; b mod 16 * 4]) ++ [PAD])
  = Some [a; b].
Proof.
  intros Ha Hb. destruct (sextets a b 0 Ha Hb ltac:(done)) as (S1 & S2 & S3 & _).
  rewrite Z.div_0_l, Z.add_0_r in S3 by done.
  change [PAD] with (replicate 1 PAD).
  rewrite (decode_quad_symbols true [a / 4; a mod 4 * 16 + b / 16; b mod 16 * 4] 1);
    [|sextet_list|done|lia|by right].
  pose proof (group_bytes a b 0 Ha Hb ltac:(done)) as Hg.
  rewrite Z.div_0_l, Z.mod_0_l, !Z.add_0_r in Hg by done.
  cbn [foldl]. change (64 ^ Z.of_nat 1) with 64. rewrite Z.mul_0_l, Z.add_0_l, Hg. done.
Qed.

Lemma decode_group1 a :
  u8 a ->
  decode_quad true ((base64_symbol <$> [a / 4; a mod 4 * 16]) ++ [PAD; PAD]) = Some [a].
Proof.
  intros Ha. destruct (sextets a 0 0 Ha ltac:(done) ltac:(done)) as (S1 & S2 & _).
  rewrite Z.div_0_l, Z.add_0_r in S2 by done.
  change [PAD; PAD] with (replicate 2 PAD).
  rewrite (decode_quad_symbols true [a / 4; a mod 4 * 16] 2);
    [|sextet_list|done|lia|by right].
  pose proof (group_bytes a 0 0 Ha ltac:(done) ltac:(done)) as Hg.
  rewrite !Z.div_0_l, !Z.mod_0_l, Z.mul_0_l, !Z.add_0_r in Hg by done.
  cbn [foldl]. change (64 ^ Z.of_nat 2) with (64 * 64). rewrite Z.mul_0_l, Z.add_0_l, Z.mul_assoc, Hg.
  done.
Qed.

Lemma decode_encode_symbols bytes :
  bytes_ok bytes -> decode_quads (encode_symbols bytes) = Some bytes.
Proof.
  remember (length bytes) as n eqn:Hn. revert bytes Hn.
  induction n as [n IH] using lt_wf_ind. intros bytes -> Hb.
  destruct bytes as [|a [|b [|c rest]]]; [done|..].
  - apply Forall_cons in Hb as [Ha _].
    change (encode_symbols [a]) with ((base64_symbol <$> [a / 4; a mod 4 * 16]) ++ [PAD; PAD]).
    transitivity (bytes ← decode_quad true ((base64_symbol <$> [a / 4; a mod 4 * 16]) ++ [PAD; PAD]);
      more ← Some []; Some (bytes ++ more)); [done|]. by rewrite decode_group1.
  - apply Forall_cons in Hb as [Ha [Hb _]%Forall_cons].
    transitivity (bytes ← decode_quad true
        ((base64_symbol <$> [a / 4; a mod 4 * 16 + b / 16; b mod 16 * 4]) ++ [PAD]);
      more ← Some []; Some (bytes ++ more)); [done|]. by rewrite decode_group2.
  - apply Forall_cons in Hb as [Ha [Hb [Hc Hrest]%Forall_cons]%Forall_cons].
    transitivity (bytes ← decode_quad (match encode_symbols rest with [] => true | _ => false end)
        (base64_symbol <$> [a / 4; a mod 4 * 16 + b / 16; b mod 16 * 4 + c / 64; c mod 64]);
      more ← decode_quads (encode_symbols rest); Some (bytes ++ more)); [done|].
    rewrite decode_group by done. cbn [mbind option_bind].
    rewrite (IH (length rest)) by (cbn; lia || done). done.
Qed.

(** The encoding is whole quads, and has no line break. *)
Lemma encode_symbols_shape bytes :
  bytes_ok bytes ->
  (length (encode_symbols bytes) mod 4 = 0)%nat /\
  Forall (fun c => ~ line_break c) (encode_symbols bytes).
Proof.
  remember (length bytes) as n eqn:Hn. revert bytes Hn.
  induction n as [n IH] using lt_wf_ind. intros bytes -> Hb.
  assert (H0 : u8 0) by done. assert (Hpad : ~ line_break PAD) by (by intros [|]).
  assert (Hs : forall v, sextet v -> ~ line_break (base64_symbol v)).
  { intros v Hv. by destruct (base64_symbol_spec v Hv) as (_ & _ & ?). }
  destruct bytes as [|a [|b [|c rest]]]; [by split|..].
  - apply Forall_cons in Hb as [Ha _]. destruct (sextets a 0 0 Ha H0 H0) as (S1 & S2 & _).
    rewrite Z.div_0_l, Z.add_0_r in S2 by done. split; [done|].
    repeat (apply Forall_cons_2; [by auto|]); apply Forall_nil_2.
  - apply Forall_cons in Hb as [Ha [Hb _]%Forall_cons].
    destruct (sextets a b 0 Ha Hb H0) as (S1 & S2 & S3 & _).
    rewrite Z.div_0_l, Z.add_0_r in S3 by done. split; [done|].
    repeat (apply Forall_cons_2; [by auto|]); apply Forall_nil_2.
  - apply Forall_cons in Hb as [Ha [Hb [Hc Hrest]%Forall_cons]%Forall_cons].
    destruct (sextets a b c Ha Hb Hc) as (S1 & S2 & S3 & S4).
    destruct (IH (length rest)) with rest as [Hl Hf]; [cbn; lia|done..|]. split.
    + change (length (encode_symbols (a :: b :: c :: rest)))
        with (4 + length (encode_symbols rest))%nat.
      rewrite Nat.Div0.add_mod, Hl. done.
    + repeat (apply Forall_cons_2; [by auto|]); done.
Qed.

Lemma filter_Forall {A} (P : A -> Prop) `{!forall x, Decision (P x)} l : Forall P l -> filter P l = l.
Proof. induction 1; [done|]. rewrite filter_cons_True by done. by f_equal. Qed.

(** Decoding gives back what was encoded. *)
Theorem base64_roundtrip bytes :
  bytes_ok bytes -> decode_base64 (encode_base64 bytes) = Some bytes.
Proof.
  intros Hb. unfold decode_base64, encode_base64.
  rewrite String.list_ascii_of_string_of_list_ascii.
  destruct (encode_symbols_shape bytes Hb) as [Hl Hf].
  rewrite filter_Forall by done. rewrite Hl. by apply decode_encode_symbols.
Qed.

(** ** The scalars of the source's own tests *)

Example plain_scalars :
  Forall (fun '(input, tag) => fst <$> resolve "" input = Ok tag)
    [("", NULL_TAG); ("~", NULL_TAG); ("Null", NULL_TAG); ("nULL", STR_TAG); ("True", BOOL_TAG);
     ("tRUE", STR_TAG); ("yes", STR_TAG); ("on", STR_TAG); ("<<", STR_TAG); ("9090", INT_TAG);
     ("1_000", STR_TAG); ("0x10", STR_TAG); ("0o17", INT_TAG); ("0777", INT_TAG); ("09", INT_TAG);
     ("0b101", INT_TAG); ("-0b101", INT_TAG); ("18446744073709551615", INT_TAG);
     ("18446744073709551616", FLOAT_TAG); ("1.5", FLOAT_TAG); ("1e999", STR_TAG);
     (".5", FLOAT_TAG); (".5_5", STR_TAG); ("._5", STR_TAG); (".inf", FLOAT_TAG);
     (".iNf", STR_TAG); ("0x1p-2", STR_TAG); ("2026-01-02", TIMESTAMP_TAG);
     ("2026-1-2", TIMESTAMP_TAG); ("2026-02-29", STR_TAG); ("2024-02-29", TIMESTAMP_TAG);
     ("2026-13-01", STR_TAG); ("2026-01-02T03:04:05Z", TIMESTAMP_TAG);
     ("2026-01-02t3:4:5.123+01:00", TIMESTAMP_TAG); ("2026-01-02 03:04:05.5", TIMESTAMP_TAG);
     ("2026-01-02 03:04:05Z", STR_TAG); ("2026-01-02T24:00:00Z", STR_TAG); (":9090", STR_TAG);
     ("127.0.0.1:6060", STR_TAG); ("/dev/sda", STR_TAG)].
Proof. repeat (apply Forall_cons_2; [vm_compute; reflexivity|]). apply Forall_nil_2. Qed.

Example explicit_tags :
  resolve "tag:yaml.org,2002:bool" "true" = Ok (BOOL_TAG, Bool true) /\
  resolve "!!bool" "yes" = Err "cannot decode !!str `yes` as a !!bool" /\
  resolve "!!float" "1" = Ok (FLOAT_TAG, Float) /\
  resolve "!!float" "18446744073709551615"
    = Err "cannot decode !!int `18446744073709551615` as a !!float" /\
  resolve "!custom" "x" = Ok ("!custom", Text "x") /\
  resolve "!!str" "true" = Ok (STR_TAG, Text "true").
Proof. split_and!; vm_compute; reflexivity. Qed.

Example base64_texts :
  decode_base64 <$> ["aGk="; "aGk"; "a=k="; "aGk=aGk="; ""]
  = [Some [104; 105]; None; None; None; Some []].
Proof. vm_compute. reflexivity. Qed.
