(* ===== verification/Systemd.v ===== *)
(** * The watcher of systemd reloads

    src/systemd.rs: recognising the completion of a daemon-reload among the
    signals of the bus, running the callback one run at a time, and keeping a
    watcher subscribed. The watcher and the thread that runs the callback are one
    transition system, each critical section of the coalescer's lock a step; the
    supervisor is a function of what its attempts met. The bus itself (the zbus
    crate) is outside: a message is what its accessors give. Times are in
    nanoseconds. *)

From Stdlib Require Import Ascii.
From S2P Require Import Prelude.
From S2P Require Import Text.
From S2P Require Import Utf8.

Definition SYSTEMD_BUS_NAME : string := "org.freedesktop.systemd1".
Definition SYSTEMD_OBJECT_PATH : string := "/org/freedesktop/systemd1".
Definition RELOADING_INTERFACE : string := "org.freedesktop.systemd1.Manager".
Definition RELOADING_MEMBER : string := "Reloading".
Definition RELOADING_FULL_NAME : string := "org.freedesktop.systemd1.Manager.Reloading".
Definition BUS_DAEMON_NAME : string := "org.freedesktop.DBus".
Definition BUS_DAEMON_PATH : string := "/org/freedesktop/DBus".
Definition NAME_OWNER_CHANGED_MEMBER : string := "NameOwnerChanged".
Definition NAME_OWNER_CHANGED_FULL_NAME : string := "org.freedesktop.DBus.NameOwnerChanged".
Definition DEFAULT_SYSTEM_BUS_ADDRESS : string := "unix:path=/var/run/dbus/system_bus_socket".

(** ** The address of the bus *)

(** [env::var] filtered and defaulted, of [open]. *)
Definition bus_address (env : option string) : string :=
  match env with
  | Some address => if bool_decide (address = "") then DEFAULT_SYSTEM_BUS_ADDRESS else address
  | None => DEFAULT_SYSTEM_BUS_ADDRESS
  end.

(** [u8::from_str_radix(digits, 16)] of two bytes: a leading [+] is a sign. *)
Definition hex_byte (a b : Ascii.ascii) : option Z :=
  if bool_decide (a = "+"%char) then hex_value b
  else high ← hex_value a; low ← hex_value b; Some (high * 16 + low).

(** The loop of [unix_path]: the escapes undone, byte by byte. *)
Fixpoint unescape (s : string) : option string :=
  match s with
  | EmptyString => Some EmptyString
  | String c s =>
      if bool_decide (c = "%"%char) then
        match s with
        | String a (String b s) =>
            v ← hex_byte a b; rest ← unescape s; Some (String (chr (Z.to_nat v)) rest)
        | _ => None
        end
      else rest ← unescape s; Some (String c rest)
  end.

Definition unix_path (address : string) : option string :=
  escaped ← strip_prefix "unix:path=" address;
  if contains escaped "," || contains escaped ";" then None
  else path ← unescape escaped; from_utf8 path.

(** ** Signals *)

Inductive Arg := ArgBool (b : bool) | ArgStr (s : string) | ArgOther.

#[global] Instance Arg_eq_dec : EqDecision Arg.
Proof. solve_decision. Defined.

Record Signal := { sender : string; sig_path : string; sig_name : string; sig_body : list Arg }.

#[global] Instance Signal_eq_dec : EqDecision Signal.
Proof. solve_decision. Defined.

(** What the accessors of a message give: the header's fields as text, and the
    body's fields when it is a structure. *)
Inductive Variant := VBool (b : bool) | VStr (s : string) | VOther.

Record Message := {
  m_interface : option string;
  m_member : option string;
  m_sender : option string;
  m_path : option string;
  m_fields : option (list Variant);
}.

Definition from_variant (v : Variant) : Arg :=
  match v with VBool b => ArgBool b | VStr s => ArgStr s | VOther => ArgOther end.

Definition from_message (m : Message) : Signal :=
  let text := default "" in
  {| sender := text (m_sender m); sig_path := text (m_path m);
     sig_name := text (m_interface m) +:+ "." +:+ text (m_member m);
     sig_body := default [] (map from_variant <$> m_fields m) |}.

(** A match rule of [subscribe]. *)
Record MatchRule := {
  rule_sender : string; rule_path : string; rule_interface : string; rule_member : string;
  rule_arg0 : option string;
}.

Definition rule (sender path interface member : string) (arg0 : option string) : MatchRule :=
  {| rule_sender := sender; rule_path := path; rule_interface := interface;
     rule_member := member; rule_arg0 := arg0 |}.

Definition reloading_rule : MatchRule :=
  rule SYSTEMD_BUS_NAME SYSTEMD_OBJECT_PATH RELOADING_INTERFACE RELOADING_MEMBER None.

Definition owner_changed_rule : MatchRule :=
  rule BUS_DAEMON_NAME BUS_DAEMON_PATH BUS_DAEMON_NAME NAME_OWNER_CHANGED_MEMBER
    (Some SYSTEMD_BUS_NAME).

Definition from_systemd (s : Signal) (owner : string) : bool :=
  negb (bool_decide (owner = "")) && bool_decide (sender s = owner)
  && bool_decide (sig_path s = SYSTEMD_OBJECT_PATH).

Definition owner_change (s : Signal) : option string :=
  if negb (bool_decide (sig_name s = NAME_OWNER_CHANGED_FULL_NAME))
     || negb (bool_decide (sender s = BUS_DAEMON_NAME))
     || negb (bool_decide (sig_path s = BUS_DAEMON_PATH))
  then None
  else match sig_body s with
  | [ArgStr name; _; ArgStr new_owner] =>
      if bool_decide (name = SYSTEMD_BUS_NAME) then Some new_owner else None
  | _ => None
  end.

Definition is_reload_completed (s : Signal) : bool :=
  bool_decide (sig_name s = RELOADING_FULL_NAME) && bool_decide (head (sig_body s) = Some (ArgBool false)).

(** ** The coalescer

    Where the thread of the latest run is: spawned or back at the head of its
    loop, inside the callback, or about to take the lock after it. *)
Inductive Phase := Starting | Running | Checking.

#[global] Instance Phase_eq_dec : EqDecision Phase.
Proof. solve_decision. Defined.

Record Coalescer := { running : bool; pending : bool; task : option Phase }.

Definition Coalescer_new : Coalescer := {| running := false; pending := false; task := None |}.

(** [trigger]. *)
Definition trigger (c : Coalescer) : Coalescer :=
  if running c then {| running := true; pending := true; task := task c |}
  else {| running := true; pending := pending c; task := Some Starting |}.

Definition in_phase (p : Phase) (c : Coalescer) : Coalescer :=
  {| running := running c; pending := pending c; task := Some p |}.

(** The critical section of the thread after a run. *)
Definition check_pending (c : Coalescer) : Coalescer :=
  if negb (pending c) then {| running := false; pending := pending c; task := None |}
  else {| running := running c; pending := false; task := Some Starting |}.

(** ** The watcher *)

Inductive Stage := Receiving | Draining | Returned.

#[global] Instance Stage_eq_dec : EqDecision Stage.
Proof. solve_decision. Defined.

(** What happened, in order. *)
Inductive Happening := Trigger (s : Signal) | RunStarts | RunEnds.

#[global] Instance Happening_eq_dec : EqDecision Happening.
Proof. solve_decision. Defined.

Record Watch := { owner : string; runs : Coalescer; stage : Stage; history : list Happening }.

Definition watch_start (owner : string) : Watch :=
  {| owner := owner; runs := Coalescer_new; stage := Receiving; history := [] |}.

Definition set_owner (o : string) (w : Watch) : Watch :=
  {| owner := o; runs := runs w; stage := stage w; history := history w |}.
Definition set_stage (s : Stage) (w : Watch) : Watch :=
  {| owner := owner w; runs := runs w; stage := s; history := history w |}.
Definition set_runs (c : Coalescer) (hs : list Happening) (w : Watch) : Watch :=
  {| owner := owner w; runs := c; stage := stage w; history := history w ++ hs |}.

(** The body of the loop of [watch], on a signal. *)
Definition on_signal (s : Signal) (w : Watch) : Watch :=
  match owner_change s with
  | Some new_owner => set_owner new_owner w
  | None =>
      if negb (from_systemd s (owner w)) || negb (is_reload_completed s) then w
      else set_runs (trigger (runs w)) [Trigger s] w
  end.

(** The steps of the watcher's task and of the thread of the runs. *)
Inductive Label :=
  | Received (s : Signal)
  | ChannelClosed
  | CancelFired
  | RunStart
  | RunEnd
  | LockTaken
  | Awaited.

(** A step, when it can be taken. *)
Definition watch_step (w : Watch) (l : Label) : option Watch :=
  match l, stage w, task (runs w) with
  | Received s, Receiving, _ => Some (on_signal s w)
  | ChannelClosed, Receiving, _ | CancelFired, Receiving, _ => Some (set_stage Draining w)
  | RunStart, _, Some Starting => Some (set_runs (in_phase Running (runs w)) [RunStarts] w)
  | RunEnd, _, Some Running => Some (set_runs (in_phase Checking (runs w)) [RunEnds] w)
  | LockTaken, _, Some Checking => Some (set_runs (check_pending (runs w)) [] w)
  | Awaited, Draining, None => Some (set_stage Returned w)
  | _, _, _ => None
  end.

Fixpoint watch_steps (w : Watch) (ls : list Label) : option Watch :=
  match ls with
  | [] => Some w
  | l :: ls => w ← watch_step w l; watch_steps w ls
  end.

(** ** The supervisor *)

Definition SETUP_TIMEOUT : Z := 10 * 1000000000.
Definition MIN_RETRY : Z := 1 * 1000000000.
Definition MAX_RETRY : Z := 300 * 1000000000.

Section supervisor.

(** Why an attempt failed; the bus's own errors are of type [E]. *)
Context {E : Type}.

Inductive ConnectError := Dial (path : string) (errno : Z) | Bus (e : E).

Inductive WatchError :=
  | ConnectFailed (e : ConnectError)
  | AddMatch (signal : string) (e : E)
  | ResolveOwner (e : E)
  | SetupTimedOut.

Context (io_error_text : Z -> string) (bus_error_text : E -> string).

Definition ConnectError_text (e : ConnectError) : string :=
  match e with
  | Dial path errno => "dial unix " +:+ path +:+ ": connect: " +:+ io_error_text errno
  | Bus e => bus_error_text e
  end.

Definition WatchError_text (e : WatchError) : string :=
  match e with
  | ConnectFailed e => "connect system bus: " +:+ ConnectError_text e
  | AddMatch signal e => "add match signal " +:+ signal +:+ ": " +:+ bus_error_text e
  | ResolveOwner e =>
      "resolve the owner of " +:+ SYSTEMD_BUS_NAME +:+ ": " +:+ bus_error_text e
  | SetupTimedOut => "connecting to the system bus timed out"
  end.

(** What [subscribe] asks of the bus, in order, each with its answer. *)
Definition subscribe (add_match : MatchRule -> result E unit) (get_name_owner : result E string)
    : result WatchError string :=
  _ ← map_err (AddMatch RELOADING_FULL_NAME) (add_match reloading_rule);
  _ ← map_err (AddMatch NAME_OWNER_CHANGED_FULL_NAME) (add_match owner_changed_rule);
  map_err ResolveOwner get_name_owner.

(** [connect]: the dial of a path, or the crate's own reading of the address. *)
Definition connect (dial : string -> result Z unit) (build_stream build_address : result E unit)
    (address : string) : result ConnectError unit :=
  match unix_path address with
  | Some path => _ ← map_err (Dial path) (dial path); map_err Bus build_stream
  | None => map_err Bus build_address
  end.

Definition open_at (dial : string -> result Z unit) (build_stream build_address : result E unit)
    (add_match : MatchRule -> result E unit) (get_name_owner : result E string) (address : string)
    : result WatchError string :=
  _ ← map_err ConnectFailed (connect dial build_stream build_address address);
  subscribe add_match get_name_owner.

(** What an attempt meets: the cancellation before the open ended, the timer, or
    the open's answer with how long the watcher then held. *)
Inductive Attempt :=
  | CancelledFirst
  | TimerFirst
  | OpenFailed (e : WatchError)
  | Watched (owner : string) (signals : list Label) (held : Z).

(** What the supervisor does, in order. *)
Inductive Effect :=
  | AvailableAgain
  | OnSubscribed
  | Session (owner : string) (signals : list Label)
  | Unavailable (e : WatchError) (retry_in : Z)
  | StillUnavailable (e : WatchError) (retry_in : Z)
  | Disconnected (retry_in : Z)
  | Sleep (retry : Z).

Record Timings := { min_retry : Z; max_retry : Z }.
Context (t : Timings).

Record Supervisor := { retry : Z; failures : Z; stopped : bool; effects : list Effect }.

Definition supervise_start : Supervisor :=
  {| retry := min_retry t; failures := 0; stopped := false; effects := [] |}.

Definition emit (es : list Effect) (s : Supervisor) : Supervisor :=
  {| retry := retry s; failures := failures s; stopped := stopped s; effects := effects s ++ es |}.
Definition set_failures (n : Z) (s : Supervisor) : Supervisor :=
  {| retry := retry s; failures := n; stopped := stopped s; effects := effects s |}.
Definition set_retry (d : Z) (s : Supervisor) : Supervisor :=
  {| retry := d; failures := failures s; stopped := stopped s; effects := effects s |}.
Definition set_stopped (s : Supervisor) : Supervisor :=
  {| retry := retry s; failures := failures s; stopped := true; effects := effects s |}.

(** The closure [run] gives to [attempt]. *)
Definition subscribed (s : Supervisor) : Supervisor :=
  emit [OnSubscribed]
    (set_failures 0 (if 0 <? failures s then emit [AvailableAgain] s else s)).

Definition attempt (a : Attempt) (s : Supervisor) : result WatchError Z * Supervisor :=
  match a with
  | CancelledFirst => (Ok 0, s)
  | TimerFirst => (Err SetupTimedOut, s)
  | OpenFailed e => (Err e, s)
  | Watched owner signals held => (Ok held, emit [Session owner signals] (subscribed s))
  end.

(** The doubling of the pause, [Duration::saturating_mul]. *)
Definition next_retry (d : Z) : Z := Z.min (Z.min (d * 2) DURATION_MAX) (max_retry t).

(** How [run] answers the outcome of an attempt. *)
Definition judge (outcome : result WatchError Z) (s : Supervisor) : Supervisor :=
  match outcome with
  | Err e =>
      let line := if failures s =? 0 then Unavailable e (retry s) else StillUnavailable e (retry s) in
      set_failures (wrapu 32 (failures s + 1)) (emit [line] s)
  | Ok held =>
      let s := if max_retry t <=? held then set_retry (min_retry t) s else s in
      emit [Disconnected (retry s)] s
  end.

(** One turn of the loop of [run]: [cancelled] is whether the token had fired
    when the attempt ended, [cancelled_asleep] whether it fires during the pause. *)
Definition supervise_turn (s : Supervisor) (turn : Attempt * bool * bool) : Supervisor :=
  let '(a, cancelled, cancelled_asleep) := turn in
  if stopped s then s
  else
    let '(outcome, s) := attempt a s in
    if cancelled then set_stopped s
    else
      let s := judge outcome s in
      let s := emit [Sleep (retry s)] s in
      if cancelled_asleep then set_stopped s else set_retry (next_retry (retry s)) s.

Definition supervise (turns : list (Attempt * bool * bool)) : Supervisor :=
  foldl supervise_turn supervise_start turns.

End supervisor.
