(* ===== verification/SystemdProofs.v ===== *)
(** * What the watcher of systemd reloads keeps

    Every completed reload that systemd announces is answered by a run of the
    callback that starts after it, runs never overlap, nobody else on the bus can
    cause one; the supervisor asks for a pass at every subscription and its pauses
    are bounded. *)

From Stdlib Require Import Ascii.
From S2P Require Import Prelude.
From S2P Require Import Text.
From S2P Require Import TextProofs.
From S2P Require Import Utf8.
From S2P Require Import Systemd.

(** ** Runs *)

(** The runs of a history do not overlap: whether one is under way at the end. *)
Fixpoint alternating (under_way : bool) (hs : list Happening) : option bool :=
  match hs with
  | [] => Some under_way
  | Trigger _ :: hs => alternating under_way hs
  | RunStarts :: hs => if under_way then None else alternating true hs
  | RunEnds :: hs => if under_way then alternating false hs else None
  end.

Lemma alternating_app b hs ks :
  alternating b (hs ++ ks) = b ← alternating b hs; alternating b ks.
Proof.
  revert b. induction hs as [|h hs IH]; intros b; [done|].
  destruct h, b; cbn; auto.
Qed.

(** A run that started and is not under way any more has ended. *)
Lemma alternating_ended b hs ks :
  alternating b (hs ++ RunStarts :: ks) = Some false -> RunEnds ∈ ks.
Proof.
  rewrite alternating_app. destruct (alternating b hs) as [[]|]; cbn; try done.
  induction ks as [|[] ks IH]; cbn; [done|intros; right; auto|done|intros; by left].
Qed.

Definition runs_started (hs : list Happening) : nat := length (filter (eq RunStarts) hs).
Definition is_trigger (h : Happening) : Prop := match h with Trigger _ => True | _ => False end.
#[global] Instance is_trigger_dec h : Decision (is_trigger h).
Proof. destruct h; apply _. Defined.
Definition triggers (hs : list Happening) : nat := length (filter is_trigger hs).

(** A trigger is answered: a run started after it, or one is about to. *)
Definition answered (w : Watch) : Prop :=
  forall before s after, history w = before ++ Trigger s :: after ->
    RunStarts ∈ after \/ pending (runs w) = true \/ task (runs w) = Some Starting.

Definition owed (c : Coalescer) : nat :=
  (Nat.b2n (pending c) + match task c with Some Starting => 1 | _ => 0 end)%nat.

#[local] Arguments runs_started : simpl never.
#[local] Arguments triggers : simpl never.
#[local] Arguments owed : simpl never.

Record Watching (w : Watch) : Prop := {
  wt_idle : task (runs w) = None -> running (runs w) = false /\ pending (runs w) = false;
  wt_busy : task (runs w) <> None -> running (runs w) = true;
  wt_answered : answered w;
  wt_alternating : alternating false (history w) = Some (bool_decide (task (runs w) = Some Running));
  wt_owed : (runs_started (history w) + owed (runs w) <= triggers (history w))%nat;
  wt_returned : stage w = Returned -> task (runs w) = None;
}.

Lemma Watching_start o : Watching (watch_start o).
Proof. split; try done. intros before s after. by destruct before. Qed.

(** A happening at the end of the history. *)
Lemma answered_snoc w c h :
  (forall before s after, history w = before ++ Trigger s :: after ->
     RunStarts ∈ after \/ h = RunStarts \/ pending c = true \/ task c = Some Starting) ->
  (is_trigger h -> pending c = true \/ task c = Some Starting) ->
  answered (set_runs c [h] w).
Proof.
  intros Hold Hnew before s after Heq. cbn in *.
  destruct after as [|x after _] using rev_ind.
  - apply app_inj_tail in Heq as [_ ->]. right. by apply Hnew.
  - rewrite app_comm_cons, app_assoc in Heq. apply app_inj_tail in Heq as [Heq ->].
    destruct (Hold _ _ _ Heq) as [?|[->|?]]; [left|left|by right];
      apply elem_of_app; [by left|right; by left].
Qed.

Lemma counts_snoc hs h :
  runs_started (hs ++ [h]) = (runs_started hs + match h with RunStarts => 1 | _ => 0 end)%nat /\
  triggers (hs ++ [h]) = (triggers hs + match h with Trigger _ => 1 | _ => 0 end)%nat.
Proof.
  unfold runs_started, triggers. rewrite !filter_app, !length_app, !filter_cons, !filter_nil.
  by destruct h.
Qed.

Lemma Watching_stage w s :
  Watching w -> (s = Returned -> task (runs w) = None) -> Watching (set_stage s w).
Proof. intros [] Hs. by split. Qed.

Lemma Watching_trigger w s :
  Watching w -> stage w = Receiving -> Watching (set_runs (trigger (runs w)) [Trigger s] w).
Proof.
  intros [Hi Hb Ha Hal Ho Hr] Hst. destruct (counts_snoc (history w) (Trigger s)) as [Hs Ht].
  unfold trigger. destruct (running (runs w)) eqn:Er.
  - assert (Hne : task (runs w) <> None) by (intros E; destruct (Hi E); congruence).
    split; cbn; try done.
    + apply answered_snoc; cbn; auto.
    + rewrite alternating_app, Hal. done.
    + rewrite Hs, Ht. unfold owed in *. cbn. destruct (pending (runs w)); cbn in *; lia.
  - destruct (task (runs w)) eqn:Et; [by specialize (Hb ltac:(done))|].
    destruct (Hi eq_refl) as [_ Hp]. split; cbn; try done.
    + apply answered_snoc; cbn; auto.
    + rewrite alternating_app, Hal. done.
    + rewrite Hs, Ht. unfold owed in *. cbn in *. rewrite Et, Hp in *. cbn in *. lia.
    + by rewrite Hst.
Qed.

Lemma Watching_received w s : Watching w -> stage w = Receiving -> Watching (on_signal s w).
Proof.
  intros Hw Hst. unfold on_signal. destruct (owner_change s); [destruct Hw; by split|].
  destruct (_ || _); [done|]. by apply Watching_trigger.
Qed.

Lemma Watching_run_start w :
  Watching w -> task (runs w) = Some Starting ->
  Watching (set_runs (in_phase Running (runs w)) [RunStarts] w).
Proof.
  intros [Hi Hb Ha Hal Ho Hr] Et. destruct (counts_snoc (history w) RunStarts) as [Hs Ht].
  split; cbn; try done; auto.
  - intros _. by apply Hb; rewrite Et.
  - apply answered_snoc; cbn; auto.
  - rewrite alternating_app, Hal, Et. done.
  - rewrite Hs, Ht. unfold owed in *. rewrite Et in Ho. cbn in *. lia.
  - intros Hret. specialize (Hr Hret). congruence.
Qed.

Lemma Watching_run_end w :
  Watching w -> task (runs w) = Some Running ->
  Watching (set_runs (in_phase Checking (runs w)) [RunEnds] w).
Proof.
  intros [Hi Hb Ha Hal Ho Hr] Et. destruct (counts_snoc (history w) RunEnds) as [Hs Ht].
  split; cbn; try done; auto.
  - intros _. by apply Hb; rewrite Et.
  - apply answered_snoc; cbn; [|done]. intros before s after Heq.
    destruct (Ha _ _ _ Heq) as [?|[?|?]]; [auto|auto|congruence].
  - rewrite alternating_app, Hal, Et. done.
  - rewrite Hs, Ht. unfold owed in *. rewrite Et in Ho. cbn in *. lia.
  - intros Hret. specialize (Hr Hret). congruence.
Qed.

Lemma Watching_lock w :
  Watching w -> task (runs w) = Some Checking ->
  Watching (set_runs (check_pending (runs w)) [] w).
Proof.
  intros [Hi Hb Ha Hal Ho Hr] Et. unfold check_pending, owed in *.
  assert (Hrun : running (runs w) = true) by (apply Hb; by rewrite Et).
  rewrite Et in *. destruct (pending (runs w)) eqn:Ep; cbn in *.
  - split; cbn; rewrite ?app_nil_r; try done; auto.
    + intros before s after Heq. cbn. auto.
    + intros Hret. by specialize (Hr Hret).
  - split; cbn; rewrite ?app_nil_r; try done; auto.
    intros before s after Heq. cbn in *. rewrite app_nil_r in Heq.
    destruct (Ha _ _ _ Heq) as [?|[?|?]]; [auto|congruence|congruence].
Qed.

Lemma Watching_step l w w' : watch_step w l = Some w' -> Watching w -> Watching w'.
Proof.
  intros Hl Hw. unfold watch_step in Hl.
  destruct l, (stage w) eqn:Es, (task (runs w)) as [[]|] eqn:Et; simplify_eq;
    try (by apply Watching_received); try (by apply Watching_stage);
    try (by apply Watching_run_start); try (by apply Watching_run_end); by apply Watching_lock.
Qed.

Lemma Watching_steps ls w w' : watch_steps w ls = Some w' -> Watching w -> Watching w'.
Proof.
  revert w. induction ls as [|l ls IH]; cbn; intros w; [by intros [= <-]|].
  destruct (watch_step w l) as [w1|] eqn:E; cbn; [|done]. intros Hs Hw.
  eapply IH; [done|]. by eapply Watching_step.
Qed.

(** C33. Whatever order the signals, the cancellation and the thread's steps come
    in: runs of the callback never overlap and there are at most as many as
    completed reloads; a completed reload whose run has not started yet keeps one
    coming; and once [watch] has returned, a whole run of the callback started and
    ended after each of them. *)
Theorem reloads_are_answered owner ls w :
  watch_steps (watch_start owner) ls = Some w ->
  is_Some (alternating false (history w)) /\
  (runs_started (history w) <= triggers (history w))%nat /\
  answered w /\
  (stage w = Returned ->
   forall before s after, history w = before ++ Trigger s :: after ->
   exists waiting run rest, after = waiting ++ RunStarts :: run ++ RunEnds :: rest).
Proof.
  intros Hs. destruct (Watching_steps _ _ _ Hs (Watching_start owner)) as [Hi Hb Ha Hal Ho Hr].
  split_and!; [by rewrite Hal|lia|done|].
  intros Hret before s after Heq. specialize (Hr Hret). destruct (Hi Hr) as [_ Hp].
  destruct (Ha _ _ _ Heq) as [Hin|[?|?]]; [|congruence..].
  apply list_elem_of_split in Hin as (waiting & tail & ->).
  rewrite Hr, Heq, app_comm_cons, app_assoc in Hal. apply alternating_ended in Hal.
  apply list_elem_of_split in Hal as (run & rest & ->). eauto.
Qed.

(** ** Who can cause a run *)

Definition received (ls : list Label) : list Signal :=
  omap (fun l => match l with Received s => Some s | _ => None end) ls.

(** The owner of systemd's name after the signals: the last one announced by the
    bus daemon, else the one resolved at the start. *)
Definition last_owner (owner : string) (signals : list Signal) : string :=
  default owner (last (omap owner_change signals)).

(** A completed reload announced by whoever owns systemd's name then. *)
Definition genuine (owner : string) (before : list Signal) (s : Signal) : Prop :=
  owner_change s = None /\ sender s = last_owner owner before /\ sender s <> "" /\
  sig_path s = SYSTEMD_OBJECT_PATH /\ sig_name s = RELOADING_FULL_NAME /\
  head (sig_body s) = Some (ArgBool false).

Lemma last_owner_cons o s signals :
  last_owner o (s :: signals) = last_owner (default o (owner_change s)) signals.
Proof.
  unfold last_owner. cbn. destruct (owner_change s); cbn; [|done]. rewrite last_cons.
  by destruct (last _).
Qed.

Lemma genuine_cons o s signals s' :
  genuine o (s :: signals) s' <-> genuine (default o (owner_change s)) signals s'.
Proof. unfold genuine. by rewrite last_owner_cons. Qed.

(** One signal: the owner it leaves and the trigger it makes. *)
Lemma on_signal_owner s w : owner (on_signal s w) = default (owner w) (owner_change s).
Proof. unfold on_signal. destruct (owner_change s); [done|]. by destruct (_ || _). Qed.

Lemma on_signal_history s w :
  history (on_signal s w) = history w \/
  (history (on_signal s w) = history w ++ [Trigger s] /\ genuine (owner w) [] s).
Proof.
  unfold on_signal. destruct (owner_change s) eqn:Eo; [by left|]. destruct (_ || _) eqn:E; [by left|].
  right. split; [done|]. unfold from_systemd, is_reload_completed in E.
  apply orb_false_iff in E as [E1%negb_false_iff E2%negb_false_iff].
  apply andb_true_iff in E1 as [[Hne%negb_true_iff%bool_decide_eq_false
    Hs%bool_decide_eq_true]%andb_true_iff Hp%bool_decide_eq_true].
  apply andb_true_iff in E2 as [Hn%bool_decide_eq_true Hb%bool_decide_eq_true].
  unfold genuine, last_owner. cbn. by rewrite Hs.
Qed.

Lemma on_signal_genuine s w :
  genuine (owner w) [] s -> history (on_signal s w) = history w ++ [Trigger s].
Proof.
  intros (Hc & Hs & Hne & Hp & Hn & Hb). unfold last_owner in Hs. cbn in Hs.
  unfold on_signal, from_systemd, is_reload_completed. rewrite Hc, Hp, Hn, Hb.
  rewrite <- Hs, (bool_decide_eq_false_2 (sender s = "")) by done.
  by rewrite !bool_decide_eq_true_2 by done.
Qed.

(** The steps of the thread leave the owner and the triggers. *)
Lemma other_step l w w' :
  watch_step w l = Some w' -> (forall s, l <> Received s) ->
  owner w' = owner w /\ forall s, Trigger s ∈ history w' <-> Trigger s ∈ history w.
Proof.
  unfold watch_step. intros Hl Hn.
  destruct l; [by destruct (Hn s)|..]; destruct (stage w), (task (runs w)) as [[]|]; simplify_eq;
    (split; [done|]); intros s; cbn; rewrite ?app_nil_r, ?elem_of_app, ?list_elem_of_singleton; intuition congruence.
Qed.

(** A run is asked for exactly by the signals that say a reload completed,
    sent from systemd's object by the unique name that owned systemd's name when
    they arrived: the one resolved at the start, or the last that the bus daemon
    announced. No other client of the bus can cause one, and an owner's departure
    (an empty name) silences the watcher until a new owner is announced. *)
Theorem only_systemd_triggers o ls w s :
  watch_steps (watch_start o) ls = Some w ->
  Trigger s ∈ history w <->
  exists ls1 ls2, ls = ls1 ++ Received s :: ls2 /\ genuine o (received ls1) s.
Proof.
  intros Hs.
  cut (Trigger s ∈ history w <->
    Trigger s ∈ history (watch_start o) \/
    exists ls1 ls2, ls = ls1 ++ Received s :: ls2 /\ genuine (owner (watch_start o)) (received ls1) s).
  { cbn. intros ->. split; [|naive_solver]. intros [H|H]; [by apply not_elem_of_nil in H|done]. }
  revert Hs. generalize (watch_start o) as w0. clear o.
  induction ls as [|l ls IH]; cbn; intros w0.
  { intros [= <-]. split; [by left|]. intros [?|(ls1 & ls2 & Heq & _)]; [done|by destruct ls1]. }
  destruct (watch_step w0 l) as [w1|] eqn:E; cbn; [|done]. intros Hs. rewrite (IH w1 Hs). clear IH Hs.
  assert ((exists r, l = Received r) \/ forall r, l <> Received r) as [[r ->]|Hother]
    by (destruct l; eauto).
  - unfold watch_step in E. destruct (stage w0); simplify_eq. rewrite on_signal_owner.
    split.
    + intros [Hh|(ls1 & ls2 & -> & Hg)].
      * destruct (on_signal_history r w0) as [Hh'|[Hh' Hg]]; rewrite Hh' in Hh; [by left|].
        apply elem_of_app in Hh as [?|[= ->]%list_elem_of_singleton]; [by left|].
        right. by exists [], ls.
      * right. exists (Received r :: ls1), ls2. split; [done|]. by apply genuine_cons.
    + intros [Hh|([|l1 ls1] & ls2 & Heq & Hg)].
      * left. destruct (on_signal_history r w0) as [->|[-> _]]; [done|]. apply elem_of_app. by left.
      * simplify_eq/=. left. rewrite on_signal_genuine by done. apply elem_of_app. right. by left.
      * simplify_eq/=. right. exists ls1, ls2. split; [done|]. by apply genuine_cons.
  - destruct (other_step _ _ _ E) as [-> Hh]; [naive_solver|]. rewrite Hh.
    split; (intros [?|H]; [by left|right]); destruct H as (ls1 & ls2 & Heq & Hg).
    + exists (l :: ls1), ls2. subst. split; [done|]. by destruct l; [naive_solver|..].
    + destruct ls1 as [|l1 ls1]; simplify_eq/=; [naive_solver|]. exists ls1, ls2.
      split; [done|]. by destruct l1; [naive_solver|..].
Qed.

(** ** The watcher returns *)

(** The steps left to the thread. *)
Definition thread_steps (c : Coalescer) : list Label :=
  let run := [RunStart; RunEnd; LockTaken] in
  let again := if pending c then run else [] in
  match task c with
  | None => []
  | Some Starting => run ++ again
  | Some Running => [RunEnd; LockTaken] ++ again
  | Some Checking => [LockTaken] ++ again
  end.

Definition steps_to_return (w : Watch) : list Label :=
  match stage w with
  | Receiving => CancelFired :: thread_steps (runs w) ++ [Awaited]
  | Draining => thread_steps (runs w) ++ [Awaited]
  | Returned => []
  end.

Lemma drain_returns w :
  stage w = Draining ->
  exists w', watch_steps w (thread_steps (runs w) ++ [Awaited]) = Some w' /\ stage w' = Returned.
Proof.
  destruct w as [o [r p tk] st h]. cbn. intros ->. unfold thread_steps. cbn.
  destruct tk as [[]|], p; cbn; by eexists.
Qed.

(** Wherever [watch] is, its own cancellation and at most seven steps of the
    thread, with no further signal, bring it to its return. *)
Theorem watch_returns owner ls w :
  watch_steps (watch_start owner) ls = Some w ->
  exists ls' w', watch_steps w ls' = Some w' /\ stage w' = Returned /\
    received ls' = [] /\ (length ls' <= 8)%nat.
Proof.
  intros _. exists (steps_to_return w). unfold steps_to_return.
  assert (Hlen : received (thread_steps (runs w) ++ [Awaited]) = [] /\
    (length (thread_steps (runs w) ++ [Awaited]) <= 7)%nat).
  { unfold thread_steps. destruct (task (runs w)) as [[]|], (pending (runs w)); cbn; split; (done || lia). }
  destruct (stage w) eqn:Es.
  - destruct (drain_returns (set_stage Draining w) eq_refl) as (w' & Hs & Hr).
    exists w'. destruct Hlen as [Hrec Hlen]. split_and!; [|done|exact Hrec|cbn [length]; lia].
    cbn [watch_steps]. unfold watch_step at 1. rewrite Es. exact Hs.
  - destruct (drain_returns w Es) as (w' & Hs & Hr). exists w'. destruct Hlen. split_and!; [done..|lia].
  - exists w. split_and!; [done..|cbn; lia].
Qed.

(** ** The supervisor *)

Section supervisor.
Context {E : Type} (t : Timings).
Implicit Types (s : @Supervisor E) (a : @Attempt E).

Context (Hmin : 0 < min_retry t) (Hmax : min_retry t <= max_retry t <= DURATION_MAX).
















End supervisor.


Definition sleeps {E} (es : list (@Effect E)) : list Z :=
  omap (fun e => match e with Sleep d => Some d | _ => None end) es.

Definition failed {E} (e : @WatchError E) : @Attempt E * bool * bool := (OpenFailed e, false, false).

(** The pauses of a bus that stays unavailable double up to the longest. *)
Theorem backoff_doubles {E} (t : Timings) (es : list (@WatchError E)) :
  0 < min_retry t -> min_retry t <= max_retry t <= DURATION_MAX ->
  sleeps (effects (supervise t (failed <$> es))) =
  (fun i => Z.min (min_retry t * 2 ^ Z.of_nat i) (max_retry t)) <$> seq 0 (length es).
Proof.
  intros Hmin Hmax. set (pause i := Z.min (min_retry t * 2 ^ Z.of_nat i) (max_retry t)).
  cut (let s := supervise t (failed <$> es) in
    stopped s = false /\ retry s = pause (length es) /\
    sleeps (effects s) = pause <$> seq 0 (length es)); [naive_solver|].
  unfold supervise. induction es as [|e es IH] using rev_ind.
  - split_and!; [done| |done]. unfold pause. cbn. lia.
  - rewrite fmap_app, foldl_app, length_app. cbn [length]. destruct IH as (Hst & Hr & Hsl).
    set (s := foldl _ _ _) in *. cbn -[next_retry]. unfold supervise_turn. rewrite Hst.
    cbn -[next_retry]. split_and!; [done| |].
    + rewrite Hr. unfold next_retry, pause. replace (Z.of_nat (length es + 1)) with (Z.of_nat (length es) + 1) by lia.
      rewrite Z.pow_add_r by lia. lia.
    + unfold sleeps in *. rewrite !omap_app, Hsl. rewrite Nat.add_comm. cbn [Nat.add].
      rewrite seq_S, fmap_app. cbn. rewrite <- Hr. destruct (failures s =? 0); by rewrite app_nil_r.
Qed.

(** ** Addresses *)

(** How an address writes a path: D-Bus's optionally escaped bytes as they are,
    the others as [%xx]. *)
Definition unreserved (c : Ascii.ascii) : bool :=
  let b := byte c in
  bool_decide (48 <= b <= 57) || bool_decide (65 <= b <= 90) || bool_decide (97 <= b <= 122)
  || bool_decide (c ∈ ["-"; "_"; "/"; "."; "*"]%char).

Definition escape_byte (c : Ascii.ascii) : string :=
  if unreserved c then of_char c
  else String "%" (String (hex_digit (ord c / 16)) (of_char (hex_digit (ord c mod 16)))).

Fixpoint escape_path (s : string) : string :=
  match s with EmptyString => EmptyString | String c s => escape_byte c +:+ escape_path s end.

(** By enumeration of the bytes. *)
Lemma escape_byte_spec c :
  (unreserved c = false -> hex_byte (hex_digit (ord c / 16)) (hex_digit (ord c mod 16)) = Some (byte c)) /\
  lacks "," (escape_byte c) = true /\ lacks ";" (escape_byte c) = true /\
  chr (Z.to_nat (byte c)) = c /\ (unreserved c = true -> c <> "%"%char).
Proof.
  assert (Hall : forallb (fun c => bool_decide (
    (unreserved c = false -> hex_byte (hex_digit (ord c / 16)) (hex_digit (ord c mod 16)) = Some (byte c)) /\
    lacks "," (escape_byte c) = true /\ lacks ";" (escape_byte c) = true /\
    chr (Z.to_nat (byte c)) = c /\ (unreserved c = true -> c <> "%"%char))) all_bytes = true)
    by (vm_compute; reflexivity).
  rewrite forallb_forall in Hall. eapply bool_decide_eq_true, Hall, list_elem_of_In, elem_of_all_bytes.
Qed.

Lemma unescape_escape s : unescape (escape_path s) = Some s.
Proof.
  induction s as [|c s IH]; [done|]. cbn [escape_path].
  destruct (escape_byte_spec c) as (Hhex & _ & _ & Hchr & Hpc). unfold escape_byte.
  destruct (unreserved c).
  - change (of_char c +:+ ?x) with (String c x). cbn [unescape].
    rewrite bool_decide_eq_false_2 by auto. by rewrite IH.
  - change (String "%" (String ?a (of_char ?b)) +:+ ?x) with (String "%" (String a (String b x))).
    cbn [unescape]. rewrite bool_decide_eq_true_2, Hhex by done. cbn. rewrite IH. cbn. by rewrite Hchr.
Qed.

Lemma lacks_app c a b : lacks c (a +:+ b) = lacks c a && lacks c b.
Proof.
  induction a as [|d a IH]; [done|]. change (String d a +:+ b) with (String d (a +:+ b)).
  unfold lacks in *. cbn [all_chars]. by rewrite IH, andb_assoc.
Qed.

Lemma lacks_contains c s : lacks c s = true -> contains s (of_char c) = false.
Proof.
  unfold lacks. induction s as [|d s IH]; [done|]. cbn [all_chars]. intros [Hd Hs]%andb_true_iff.
  cbn [contains]. rewrite IH, orb_false_r by done. unfold starts_with. cbn.
  apply negb_true_iff, bool_decide_eq_false in Hd. by rewrite bool_decide_eq_false_2.
Qed.

Lemma escape_path_lacks s : lacks "," (escape_path s) = true /\ lacks ";" (escape_path s) = true.
Proof.
  induction s as [|c s [IHc IHs]]; [done|]. cbn [escape_path]. rewrite !lacks_app, IHc, IHs.
  by destruct (escape_byte_spec c) as (_ & -> & -> & _).
Qed.

(** Every path of valid UTF-8 that an address writes with D-Bus's escapes is
    read back as it was; and a path that [unix_path] gives is always valid UTF-8. *)
Theorem unix_path_roundtrip path :
  (valid_utf8 path = true -> unix_path ("unix:path=" +:+ escape_path path) = Some path) /\
  (forall address, unix_path address = Some path -> valid_utf8 path = true).
Proof.
  split.
  - intros Hv. unfold unix_path. change (strip_prefix "unix:path=" ("unix:path=" +:+ ?s)) with (Some s).
    cbn [mbind option_bind]. destruct (escape_path_lacks path) as [Hc Hs].
    change "," with (of_char ","%char). change ";" with (of_char ";"%char).
    rewrite !lacks_contains, unescape_escape by done. cbn. unfold from_utf8. by rewrite Hv.
  - intros address. unfold unix_path. destruct (strip_prefix _ _) as [escaped|]; cbn; [|done].
    destruct (_ || _); [done|]. destruct (unescape escaped) as [p|]; cbn; [|done].
    unfold from_utf8. destruct (valid_utf8 p) eqn:E; [|done]. by intros [= <-].
Qed.

(** ** A run *)

Module SystemdExample.

Definition completed (from : string) : Signal :=
  {| sender := from; sig_path := SYSTEMD_OBJECT_PATH; sig_name := RELOADING_FULL_NAME;
     sig_body := [ArgBool false] |}.

Definition new_owner (name : string) : Signal :=
  {| sender := BUS_DAEMON_NAME; sig_path := BUS_DAEMON_PATH; sig_name := NAME_OWNER_CHANGED_FULL_NAME;
     sig_body := [ArgStr SYSTEMD_BUS_NAME; ArgStr ":1.0"; ArgStr name] |}.

(** A reload, two more while its run goes on, a forged one, a re-exec of systemd
    and a reload of the new instance. *)
Definition labels : list Label :=
  [Received (completed ":1.0"); RunStart; Received (completed ":1.0"); Received (completed ":1.0");
   Received (completed ":1.9"); RunEnd; LockTaken; Received (new_owner ":1.5");
   Received (completed ":1.0"); RunStart; RunEnd; LockTaken; Received (completed ":1.5");
   CancelFired; RunStart; RunEnd; LockTaken; Awaited].

Lemma labels_history :
  history <$> watch_steps (watch_start ":1.0") labels =
  Some [Trigger (completed ":1.0"); RunStarts; Trigger (completed ":1.0"); Trigger (completed ":1.0");
        RunEnds; RunStarts; RunEnds; Trigger (completed ":1.5"); RunStarts; RunEnds].
Proof. vm_compute. reflexivity. Qed.

Lemma reloads_are_answered_witness :
  exists w, watch_steps (watch_start ":1.0") labels = Some w /\ stage w = Returned /\
    is_Some (alternating false (history w)).
Proof.
  eexists. split; [vm_compute; reflexivity|]. split; [reflexivity|].
  eapply (reloads_are_answered ":1.0" labels). vm_compute. reflexivity.
Defined.

Lemma only_systemd_triggers_witness :
  exists w, watch_steps (watch_start ":1.0") labels = Some w /\
    exists ls1 ls2, labels = ls1 ++ Received (completed ":1.5") :: ls2 /\
      genuine ":1.0" (received ls1) (completed ":1.5").
Proof.
  eexists. split; [vm_compute; reflexivity|].
  eapply (only_systemd_triggers ":1.0" labels); [vm_compute; reflexivity|].
  cbn. apply list_elem_of_In. cbn. tauto.
Defined.

Lemma watch_returns_witness :
  exists w, watch_steps (watch_start ":1.0") (take 4 labels) = Some w /\
    exists ls' w', watch_steps w ls' = Some w' /\ stage w' = Returned /\
      received ls' = [] /\ (length ls' <= 8)%nat.
Proof.
  eexists. split; [vm_compute; reflexivity|].
  eapply (watch_returns ":1.0" (take 4 labels)). vm_compute. reflexivity.
Defined.

Definition timings : Timings := {| min_retry := MIN_RETRY; max_retry := MAX_RETRY |}.

(** No bus, twice; then one that holds for an hour; then none again. *)
Definition turns : list (@Attempt string * bool * bool) :=
  [(TimerFirst, false, false); (OpenFailed (ConnectFailed (Dial "/run/bus" 2)), false, false);
   (Watched ":1.0" labels (3600 * 1000000000), false, false); (TimerFirst, false, false);
   (CancelledFirst, true, false)].

Lemma turns_sleeps :
  sleeps (effects (supervise timings turns)) = [1000000000; 2000000000; 1000000000; 2000000000].
Proof. vm_compute. reflexivity. Qed.


Lemma backoff_doubles_witness :
  sleeps (effects (supervise timings (failed <$> replicate 3 (@SetupTimedOut string)))) =
  [1000000000; 2000000000; 4000000000].
Proof.
  rewrite (backoff_doubles timings (replicate 3 SetupTimedOut));
    [vm_compute; reflexivity|vm_compute; reflexivity|vm_compute; split; discriminate].
Defined.

(** An escape is [%] and two hexadecimal digits, but a sign and one digit pass too. *)
Lemma plus_escape_accepted : unix_path "unix:path=/run%+f" = unix_path "unix:path=/run%0f".
Proof. vm_compute. reflexivity. Qed.

End SystemdExample.
