(* ===== verification/SelfId.v ===== *)
(** * The launcher's own container ID

    src/launcher/self_id.rs: the ID in the roots of the mounts Docker makes at
    /etc/hostname, /etc/hosts and /etc/resolv.conf, from the bytes of the mount
    table. *)

From Stdlib Require Import Ascii.
From S2P Require Import Prelude.
From S2P Require Import Text.
From S2P Require Import TextProofs.
From S2P Require Import Utf8.

Definition SELF_MOUNTINFO : string := "/proc/self/mountinfo".
Definition CONTAINER_FILE_TARGETS : list string := ["/etc/hostname"; "/etc/hosts"; "/etc/resolv.conf"].
Definition CONTAINER_FILES : list string := ["hostname"; "hosts"; "resolv.conf"].
Definition MOUNTINFO_FIELDS : nat := 5.
Definition CONTAINER_ID_LEN : nat := 64.
Definition MAX_SCAN_TOKEN_SIZE : Z := 64 * 1024.

Inductive SelfIdError :=
  | SelfIdOpen (errno : Z)
  | SelfIdRead (cause : string)
  | SelfIdNotFound
  | SelfIdAmbiguous.

#[global] Instance SelfIdError_eq_dec : EqDecision SelfIdError.
Proof. solve_decision. Defined.

Definition SelfIdError_text (io_error_text : Z -> string) (e : SelfIdError) : string :=
  match e with
  | SelfIdOpen errno =>
      "open " +:+ SELF_MOUNTINFO +:+ ": open " +:+ SELF_MOUNTINFO +:+ ": " +:+ io_error_text errno
  | SelfIdRead cause => "read mount table: " +:+ cause
  | SelfIdNotFound =>
      "no Docker container ID in the mount table; is the launcher running in a container?"
  | SelfIdAmbiguous => "more than one Docker container ID in the mount table"
  end.

(** [scan_lines]; a line takes a byte, so the table's length bounds the turns. *)
Fixpoint scan_from (fuel : nat) (rest : string) : result SelfIdError (list string) :=
  match rest, fuel with
  | EmptyString, _ | _, O => Ok []
  | _, S fuel =>
      let '(line, after) := split_newline rest in
      if MAX_SCAN_TOKEN_SIZE <=? Z.of_nat (String.length line)
      then Err (SelfIdRead "bufio.Scanner: token too long")
      else
        lines ← match after with Some rest => scan_from fuel rest | None => Ok [] end;
        Ok (strip_return line :: lines)
  end.

Definition scan_lines (table : string) : result SelfIdError (list string) :=
  scan_from (String.length table) table.

(** [str::split_whitespace] of a Rust string, by characters. *)
Definition push_word (word : string) (words : list string) : list string :=
  match word with EmptyString => words | _ => word :: words end.

Fixpoint char_words (chars : list string) : string * list string :=
  match chars with
  | [] => (EmptyString, [])
  | c :: chars =>
      let '(word, words) := char_words chars in
      if char_whitespace c then (EmptyString, push_word word words) else (c +:+ word, words)
  end.

Definition words (text : string) : list string :=
  let '(word, words) := char_words (utf8_chars text) in push_word word words.

Definition is_hex_lower (c : Ascii.ascii) : bool :=
  is_digit c || ((97 <=? ord c) && (ord c <=? 102))%nat.

Definition is_container_id (id : string) : bool :=
  (String.length id =? CONTAINER_ID_LEN)%nat && all_chars is_hex_lower id.

(** [container_file_owner]: [rsplitn(4, '/')] gives the fields from the right, the
    fourth one being whatever precedes. *)
Definition container_file_owner (root : string) : option string :=
  match reverse (split_on "/"%char root) with
  | file :: id :: containers :: _ :: _ =>
      if bool_decide (file ∈ CONTAINER_FILES) && bool_decide (containers = "containers")
         && is_container_id id
      then Some id else None
  | _ => None
  end.

(** The container a line of the table names, when it is one of Docker's mounts. *)
Definition line_owner (line : string) : option string :=
  let fields := words (from_utf8_lossy line) in
  if (length fields <? MOUNTINFO_FIELDS)%nat then None
  else
    target ← fields !! 4%nat;
    if negb (bool_decide (target ∈ CONTAINER_FILE_TARGETS)) then None
    else root ← fields !! 3%nat; container_file_owner root.

(** The loop of [parse_self_id]. *)
Fixpoint find_owner (found : option string) (lines : list string) : result SelfIdError string :=
  match lines with
  | [] => ok_or found SelfIdNotFound
  | line :: lines =>
      match line_owner line with
      | None => find_owner found lines
      | Some id =>
          match found with
          | Some earlier => if bool_decide (earlier <> id) then Err SelfIdAmbiguous
                            else find_owner (Some id) lines
          | None => find_owner (Some id) lines
          end
      end
  end.

Definition parse_self_id (table : string) : result SelfIdError string :=
  lines ← scan_lines table; find_owner None lines.

(** [self_id_from_mountinfo]: the open and the read are the system's. *)
Definition self_id_from_mountinfo (io_error_text : Z -> string) (opened : result Z unit)
    (read : result Z string) : result SelfIdError string :=
  _ ← map_err SelfIdOpen opened;
  table ← map_err (fun errno =>
      SelfIdRead ("read " +:+ SELF_MOUNTINFO +:+ ": " +:+ io_error_text errno)) read;
  parse_self_id table.

(** ** What it finds *)

Definition owners (lines : list string) : list string := omap line_owner lines.

Lemma container_file_owner_id root id : container_file_owner root = Some id -> is_container_id id = true.
Proof.
  unfold container_file_owner. destruct (reverse _) as [|a [|b [|c [|d l]]]]; try done.
  destruct (_ && is_container_id b) eqn:E; [|done]. intros [= <-]. by apply andb_true_iff in E as [_ ?].
Qed.

Lemma line_owner_id line id : line_owner line = Some id -> is_container_id id = true.
Proof.
  unfold line_owner. intros H. repeat (case_match; try done).
  destruct (words _ !! 4%nat) as [target|]; cbn in H; [|done]. destruct (negb _); [done|].
  destruct (words _ !! 3%nat) as [root|]; cbn in H; [|done]. by eapply container_file_owner_id.
Qed.

(** The loop looks at the owners only. *)
Lemma find_owner_spec found lines :
  find_owner found lines =
  match found, owners lines with
  | None, [] => Err SelfIdNotFound
  | Some id, [] => Ok id
  | Some id, ids | None, id :: ids =>
      if forallb (fun id' => bool_decide (id' = id)) ids then Ok id else Err SelfIdAmbiguous
  end.
Proof.
  revert found. induction lines as [|line lines IH]; intros found; [by destruct found|].
  cbn [find_owner]. unfold owners in *. cbn [omap list_omap].
  destruct (line_owner line) as [id|]; [|by rewrite IH].
  destruct found as [earlier|]; [case_bool_decide as Hne|]; cbn [forallb].
  - by rewrite bool_decide_eq_false_2.
  - subst. rewrite IH, bool_decide_eq_true_2 by done.
    by destruct (omap line_owner lines).
  - rewrite IH. by destruct (omap line_owner lines).
Qed.

(** The launcher takes an ID exactly when every line of its mount table fits
    and the lines that name a container all name that one, which is then 64
    lowercase hexadecimal digits; it reports an ambiguity exactly when two lines
    name different containers, and nothing found exactly when none does. It never
    guesses. *)
Theorem self_id_exact table lines :
  scan_lines table = Ok lines ->
  (forall id, parse_self_id table = Ok id <->
     id ∈ owners lines /\ forall id', id' ∈ owners lines -> id' = id) /\
  (parse_self_id table = Err SelfIdAmbiguous <->
     exists id id', id ∈ owners lines /\ id' ∈ owners lines /\ id' <> id) /\
  (parse_self_id table = Err SelfIdNotFound <-> owners lines = []) /\
  (forall id, parse_self_id table = Ok id -> is_container_id id = true).
Proof.
  intros Hl. unfold parse_self_id. rewrite Hl. cbn. rewrite find_owner_spec.
  assert (Hids : forall id, id ∈ owners lines -> is_container_id id = true).
  { intros id (line & _ & Ho)%list_elem_of_omap. by eapply line_owner_id. }
  destruct (owners lines) as [|id ids].
  { split_and!; [|split; [done|]|done|done].
    - intros id. split; [done|]. intros [H _]. by apply not_elem_of_nil in H.
    - intros (id & id' & H & _). by apply not_elem_of_nil in H. }
  destruct (forallb _ ids) eqn:E.
  - assert (Hall : forall id', id' ∈ id :: ids -> id' = id).
    { intros id' [->|Hin]%elem_of_cons; [done|]. rewrite forallb_forall in E.
      by apply list_elem_of_In, E, bool_decide_eq_true in Hin. }
    split_and!; [|split; [done|]|done|].
    + intros x. split; [intros [= <-]|]; [split; [by left|done]|].
      intros [Hx _]. f_equal. symmetry. auto.
    + intros (a & b & Ha & Hb & Hne). apply Hall in Ha, Hb. congruence.
    + intros x [= <-]. apply Hids. by left.
  - apply not_true_iff_false in E. rewrite forallb_forall in E.
    assert (Hex : Exists (fun id' => id' <> id) ids).
    { apply not_Forall_Exists; [apply _|]. intros HF. apply E. intros x Hx%list_elem_of_In.
      rewrite Forall_forall in HF. apply bool_decide_eq_true. auto. }
    apply Exists_exists in Hex as (id' & Hin & Hne). split_and!; [|split; [|done]|done|done].
    + intros x. split; [done|]. intros [_ Hall]. exfalso. apply Hne.
      rewrite (Hall id' ltac:(by right)). symmetry. apply Hall. by left.
    + intros _. exists id, id'. split_and!; [by left|by right|done].
Qed.

(** The table is cut into lines as every other file the daemon reads. *)
Definition collect_line (item : line_item) (lines : result SelfIdError (list string))
    : result SelfIdError (list string) :=
  match item with
  | Line l => lines ← lines; Ok (l :: lines)
  | LineTooLong => Err (SelfIdRead "bufio.Scanner: token too long")
  end.

Lemma scan_lines_lines table : scan_lines table = foldr collect_line (Ok []) (lines table).
Proof.
  unfold scan_lines, lines. generalize (String.length table) as fuel. intros fuel. revert table.
  induction fuel as [|fuel IH]; intros table; [by destruct table|].
  destruct table as [|c table]; [done|]. cbn [scan_from lines_from].
  destruct (split_newline (String c table)) as [line after]. unfold MAX_SCAN_TOKEN_SIZE.
  fold MAX_LINE. rewrite Z.ltb_antisym. destruct (MAX_LINE <=? _); [done|]. cbn [negb foldr collect_line].
  destruct after; [|done]. by rewrite IH.
Qed.

Lemma scan_lines_of_lines ls : forallb plain_line ls = true -> scan_lines (unlines ls) = Ok ls.
Proof.
  intros Hp. rewrite scan_lines_lines. unfold lines. rewrite lines_from_unlines by done.
  clear Hp. induction ls as [|l ls IH]; [done|]. cbn. by rewrite IH.
Qed.

Module SelfIdExample.

Definition id : string := "0123456789abcdef0123456789abcdef0123456789abcdef0123456789abcdef".

Definition table : string := unlines
  ["500 480 0:51 / / rw,relatime - overlay overlay rw";
   "510 500 8:1 /docker/containers/" +:+ id +:+ "/resolv.conf /etc/resolv.conf rw - ext4 /dev/sda1 rw";
   "511 500 8:1 /docker/containers/" +:+ id +:+ "/hostname /etc/hostname rw - ext4 /dev/sda1 rw";
   "512 500 8:1 /docker/containers/ffff/hosts /mnt/hosts rw - ext4 /dev/sda1 rw"].

Lemma table_id : parse_self_id table = Ok id.
Proof. vm_compute. reflexivity. Qed.

Lemma self_id_exact_witness :
  exists lines, scan_lines table = Ok lines /\ is_container_id id = true /\ id ∈ owners lines.
Proof.
  eexists. split; [vm_compute; reflexivity|].
  destruct (self_id_exact table _ eq_refl) as (Hok & _ & _ & Hid).
  split; [apply Hid; vm_compute; reflexivity|]. apply Hok. vm_compute. reflexivity.
Defined.

End SelfIdExample.
