(* ===== verification/LaunchSpec.v ===== *)
(** * The daemon container of a launcher

    src/launcher/spec.rs: the container the launcher creates and the body of its
    create request, written by hand. Literals of the body have single quotes here,
    which [dq] turns into the double quotes of the source. *)

From Stdlib Require Import Ascii.
From S2P Require Import Prelude.
From S2P Require Import Text.
From S2P Require Import Utf8.

Definition DAEMON_NAME : string := "swarm-device-access".
Definition LABEL_ROLE : string := "io.github.leinardi.swarm-device-access.role".
Definition LABEL_LAUNCHER : string := "io.github.leinardi.swarm-device-access.launcher".
Definition ROLE_DAEMON : string := "daemon".
Definition DEFAULT_HOST_DOCKER_SOCKET : string := "/var/run/docker.sock".
Definition CONTAINER_DOCKER_SOCKET : string := "/var/run/docker.sock".
Definition CONTAINER_CONFIG_DIR : string := "/etc/swarm-device-access".
(** In seconds. *)
Definition STOP_TIMEOUT : Z := 10.
Definition HOST_SYSFS : string := "/sys".
Definition CONTAINER_SYSFS : string := "/host/sys".
Definition DEV_PATH : string := "/dev".
Definition HOST_DBUS_SOCKET : string := "/run/dbus/system_bus_socket".
Definition CONTAINER_DBUS_SOCKET : string := "/var/run/dbus/system_bus_socket".
Definition HOST_MODE : string := "host".
Definition NETWORK_NONE : string := "none".

Record Options := {
  host_docker_socket : string;
  dbus : bool;
  config_dir : string;
  host_network : bool;
  daemon_args : option (list string);
}.

Record Mount := { source : string; target : string; read_only : bool }.

#[global] Instance Mount_eq_dec : EqDecision Mount.
Proof. solve_decision. Defined.

(** The labels are a [BTreeMap]: the pairs in the order of their keys. *)
Record DaemonSpec := {
  image : string;
  cmd : option (list string);
  labels : list (string * string);
  stop_timeout : Z;
  privileged : bool;
  cgroupns_mode : string;
  pid_mode : string;
  userns_mode : string;
  network_mode : string;
  auto_remove : bool;
  mounts : list Mount;
}.

#[global] Instance DaemonSpec_eq_dec : EqDecision DaemonSpec.
Proof. solve_decision. Defined.

(** [BTreeMap::insert] on strings. *)
Fixpoint btree_insert (key value : string) (m : list (string * string)) : list (string * string) :=
  match m with
  | [] => [(key, value)]
  | (k, v) :: m' =>
      match String.compare key k with
      | Lt => (key, value) :: m
      | Eq => (key, value) :: m'
      | Gt => (k, v) :: btree_insert key value m'
      end
  end.

Definition btree_from (l : list (string * string)) : list (string * string) :=
  foldl (fun m '(k, v) => btree_insert k v m) [] l.

Definition bind (source target : string) (read_only : bool) : Mount :=
  {| source := source; target := target; read_only := read_only |}.

Definition daemon_spec (o : Options) (image_id launcher_id : string) : DaemonSpec :=
  let mounts :=
    [bind (host_docker_socket o) CONTAINER_DOCKER_SOCKET false; bind HOST_SYSFS CONTAINER_SYSFS false;
     bind DEV_PATH DEV_PATH false]
    ++ (if dbus o then [bind HOST_DBUS_SOCKET CONTAINER_DBUS_SOCKET false] else [])
    ++ (if negb (bool_decide (config_dir o = "")) then [bind (config_dir o) CONTAINER_CONFIG_DIR true]
        else []) in
  {| image := image_id; cmd := daemon_args o;
     labels := btree_from [(LABEL_ROLE, ROLE_DAEMON); (LABEL_LAUNCHER, launcher_id)];
     stop_timeout := STOP_TIMEOUT; privileged := true; cgroupns_mode := HOST_MODE;
     pid_mode := HOST_MODE; userns_mode := HOST_MODE;
     network_mode := if host_network o then HOST_MODE else NETWORK_NONE;
     auto_remove := true; mounts := mounts |}.

(** ** JSON *)

Definition QUOTE : Ascii.ascii := chr 34.
Definition BACKSLASH : Ascii.ascii := chr 92.

Fixpoint dq (s : string) : string :=
  match s with
  | EmptyString => EmptyString
  | String c s => String (if bool_decide (c = "'"%char) then QUOTE else c) (dq s)
  end.

(** [\u{:04x}] of a character below U+0100. *)
Definition unicode_escape (n : nat) : string :=
  String BACKSLASH ("u00" +:+ of_char (hex_digit (n / 16)) +:+ of_char (hex_digit (n mod 16))).

Definition LINE_SEPARATOR : string := utf8_3 226 128 168.
Definition PARAGRAPH_SEPARATOR : string := utf8_3 226 128 169.

(** The bytes pushed for a character. *)
Definition json_char (character : string) : string :=
  match character with
  | String c EmptyString =>
      let n := ord c in
      if bool_decide (c = QUOTE \/ c = BACKSLASH) then String BACKSLASH (of_char c)
      else if (n =? 10)%nat then String BACKSLASH "n"
      else if (n =? 13)%nat then String BACKSLASH "r"
      else if (n =? 9)%nat then String BACKSLASH "t"
      else if (n =? 8)%nat then String BACKSLASH "b"
      else if (n =? 12)%nat then String BACKSLASH "f"
      else if bool_decide (c ∈ ["<"; ">"; "&"]%char) || (n <? 32)%nat then unicode_escape n
      else character
  | _ =>
      if bool_decide (character = LINE_SEPARATOR) then String BACKSLASH "u2028"
      else if bool_decide (character = PARAGRAPH_SEPARATOR) then String BACKSLASH "u2029"
      else character
  end.

Definition push_json_string (text : string) : string :=
  of_char QUOTE +:+ concat_all (json_char <$> utf8_chars text) +:+ of_char QUOTE.

(** The loops that put a comma before every element but the first. *)
Definition comma_separated {A} (f : A -> string) (l : list A) : string := join "," (f <$> l).

Definition push_json_strings (values : list string) : string :=
  "[" +:+ comma_separated push_json_string values +:+ "]".

Definition json_bool (b : bool) : string := if b then "true" else "false".

Definition push_mount (m : Mount) : string :=
  dq "{'Type':'bind','Source':" +:+ push_json_string (source m) +:+
  dq ",'Target':" +:+ push_json_string (target m) +:+
  (if read_only m then dq ",'ReadOnly':true" else "") +:+ "}".

Definition push_label (kv : string * string) : string :=
  push_json_string kv.1 +:+ ":" +:+ push_json_string kv.2.

Definition body (s : DaemonSpec) : string :=
  dq "{'Hostname':'','Domainname':'','User':'','AttachStdin':false,'AttachStdout':false,'AttachStderr':false,'Tty':false,'OpenStdin':false,'StdinOnce':false,'Env':null,'Cmd':" +:+
  match cmd s with None => "null" | Some args => push_json_strings args end +:+
  dq ",'Image':" +:+ push_json_string (image s) +:+
  dq ",'Volumes':null,'WorkingDir':'','Entrypoint':null,'Labels':{" +:+
  comma_separated push_label (labels s) +:+
  dq "},'StopTimeout':" +:+ pretty (stop_timeout s) +:+
  dq ",'HostConfig':{'Binds':null,'ContainerIDFile':'','LogConfig':{'Type':'','Config':null},'NetworkMode':" +:+
  push_json_string (network_mode s) +:+
  dq ",'PortBindings':null,'RestartPolicy':{'Name':'','MaximumRetryCount':0},'AutoRemove':" +:+
  json_bool (auto_remove s) +:+
  dq ",'VolumeDriver':'','VolumesFrom':null,'ConsoleSize':[0,0],'CapAdd':null,'CapDrop':null,'CgroupnsMode':" +:+
  push_json_string (cgroupns_mode s) +:+
  dq ",'Dns':null,'DnsOptions':null,'DnsSearch':null,'ExtraHosts':null,'GroupAdd':null,'IpcMode':'','Cgroup':'','Links':null,'OomScoreAdj':0,'PidMode':" +:+
  push_json_string (pid_mode s) +:+
  dq ",'Privileged':" +:+ json_bool (privileged s) +:+
  dq ",'PublishAllPorts':false,'ReadonlyRootfs':false,'SecurityOpt':null,'UTSMode':'','UsernsMode':" +:+
  push_json_string (userns_mode s) +:+
  dq ",'ShmSize':0,'Isolation':'','CpuShares':0,'Memory':0,'NanoCpus':0,'CgroupParent':'','BlkioWeight':0,'BlkioWeightDevice':null,'BlkioDeviceReadBps':null,'BlkioDeviceWriteBps':null,'BlkioDeviceReadIOps':null,'BlkioDeviceWriteIOps':null,'CpuPeriod':0,'CpuQuota':0,'CpuRealtimePeriod':0,'CpuRealtimeRuntime':0,'CpusetCpus':'','CpusetMems':'','Devices':null,'DeviceCgroupRules':null,'DeviceRequests':null,'MemoryReservation':0,'MemorySwap':0,'MemorySwappiness':null,'OomKillDisable':null,'PidsLimit':null,'Ulimits':null,'CpuCount':0,'CpuPercent':0,'IOMaximumIOps':0,'IOMaximumBandwidth':0,'Mounts':[" +:+
  comma_separated push_mount (mounts s) +:+
  dq "],'MaskedPaths':null,'ReadonlyPaths':null}}".
