(* ===== verification/LaunchSpecProofs.v ===== *)
(** * The create request is the document it means to be

    JSON documents and a reader of them that shares nothing with the code and
    accepts JSON (RFC 8259) only, in its compact form: from what the launcher
    writes by hand it gets the document that has the fields of the specification,
    whatever the arguments, paths and IDs in it contain. [render], made of the
    code's own strings, is a step of the proof. *)

From Stdlib Require Import Ascii.
From S2P Require Import Prelude.
From S2P Require Import Text.
From S2P Require Import TextProofs.
From S2P Require Import Utf8.
From S2P Require Import LaunchSpec.

(** ** Documents *)

Inductive json :=
  | JNull
  | JBool (b : bool)
  | JNum (digits : string)
  | JStr (s : string)
  | JArr (items : list json)
  | JObj (members : list (string * json)).

(** A document before [k], with the strings as the launcher writes them. *)
Fixpoint render (j : json) (k : string) : string :=
  match j with
  | JNull => "null" +:+ k
  | JBool b => json_bool b +:+ k
  | JNum digits => digits +:+ k
  | JStr s => push_json_string s +:+ k
  | JArr items =>
      "[" +:+ (fix go (items : list json) : string :=
        match items with
        | [] => "]" +:+ k
        | [j] => render j ("]" +:+ k)
        | j :: items => render j ("," +:+ go items)
        end) items
  | JObj members =>
      "{" +:+ (fix go (members : list (string * json)) : string :=
        match members with
        | [] => "}" +:+ k
        | [(key, j)] => push_json_string key +:+ ":" +:+ render j ("}" +:+ k)
        | (key, j) :: members => push_json_string key +:+ ":" +:+ render j ("," +:+ go members)
        end) members
  end.

Fixpoint render_items (items : list json) (k : string) : string :=
  match items with
  | [] => "]" +:+ k
  | [j] => render j ("]" +:+ k)
  | j :: items => render j ("," +:+ render_items items k)
  end.

Fixpoint render_members (members : list (string * json)) (k : string) : string :=
  match members with
  | [] => "}" +:+ k
  | [(key, j)] => push_json_string key +:+ ":" +:+ render j ("}" +:+ k)
  | (key, j) :: members => push_json_string key +:+ ":" +:+ render j ("," +:+ render_members members k)
  end.

Lemma render_arr items k : render (JArr items) k = "[" +:+ render_items items k.
Proof.
  cbn [render]. f_equal. induction items as [|j [|j' items] IH]; [done..|].
  exact (f_equal (fun x => render j ("," +:+ x)) IH).
Qed.

Lemma render_obj members k : render (JObj members) k = "{" +:+ render_members members k.
Proof.
  cbn [render]. f_equal. induction members as [|[key j] [|[key' j'] members] IH]; [done..|].
  exact (f_equal (fun x => push_json_string key +:+ ":" +:+ render j ("," +:+ x)) IH).
Qed.

(** ** The reader *)

(** The bytes of a code point below U+10000. *)
Definition utf8_encode (v : Z) : string :=
  let c z := chr (Z.to_nat z) in
  if v <? 128 then of_char (c v)
  else if v <? 2048 then String (c (192 + v / 64)) (of_char (c (128 + v mod 64)))
  else String (c (224 + v / 4096)) (String (c (128 + v / 64 mod 64)) (of_char (c (128 + v mod 64)))).

Definition short_escape (c : Ascii.ascii) : option string :=
  if bool_decide (c ∈ [QUOTE; BACKSLASH; "/"%char]) then Some (of_char c)
  else if bool_decide (c = "n"%char) then Some (of_char (chr 10))
  else if bool_decide (c = "r"%char) then Some (of_char (chr 13))
  else if bool_decide (c = "t"%char) then Some (of_char (chr 9))
  else if bool_decide (c = "b"%char) then Some (of_char (chr 8))
  else if bool_decide (c = "f"%char) then Some (of_char (chr 12))
  else None.

(** The text up to the closing quote, and what follows it. A control character
    is only accepted as an escape. *)
Fixpoint read_text (s : string) : option (string * string) :=
  match s with
  | EmptyString => None
  | String c s =>
      if bool_decide (c = QUOTE) then Some (EmptyString, s)
      else if bool_decide (c = BACKSLASH) then
        match s with
        | String u s' =>
            if bool_decide (u = "u"%char) then
              match s' with
              | String a (String b (String d (String e s''))) =>
                  a ← hex_value a; b ← hex_value b; d ← hex_value d; e ← hex_value e;
                  '(text, rest) ← read_text s'';
                  Some (utf8_encode (((a * 16 + b) * 16 + d) * 16 + e) +:+ text, rest)
              | _ => None
              end
            else x ← short_escape u; '(text, rest) ← read_text s'; Some (x +:+ text, rest)
        | EmptyString => None
        end
      else if (ord c <? 32)%nat then None
      else '(text, rest) ← read_text s; Some (String c text, rest)
  end.

(** A string in quotes. Its text is UTF-8: no byte out of place and no half of a
    surrogate pair; an escaped pair is refused too. *)
Definition read_string (s : string) : option (string * string) :=
  s ← strip_prefix (of_char QUOTE) s;
  '(text, rest) ← read_text s;
  if valid_utf8 text then Some (text, rest) else None.

(** An integer as JSON writes it: digits, none before them that is zero. *)
Definition number (digits : string) : bool :=
  negb (bool_decide (digits = "")) && all_chars is_digit digits &&
  (bool_decide (digits = "0") || negb (starts_with digits "0")).

Fixpoint read (fuel : nat) (s : string) : option (json * string) :=
  match fuel with
  | O => None
  | S fuel =>
      match s with
      | EmptyString => None
      | String c rest =>
          if bool_decide (c = "n"%char) then s ← strip_prefix "null" s; Some (JNull, s)
          else if bool_decide (c = "t"%char) then s ← strip_prefix "true" s; Some (JBool true, s)
          else if bool_decide (c = "f"%char) then s ← strip_prefix "false" s; Some (JBool false, s)
          else if bool_decide (c = QUOTE) then '(text, s) ← read_string s; Some (JStr text, s)
          else if bool_decide (c = "["%char) then
            '(items, s) ← read_items fuel true rest; Some (JArr items, s)
          else if bool_decide (c = "{"%char) then
            '(members, s) ← read_members fuel true rest; Some (JObj members, s)
          else let '(digits, s) := span_digits s in
               if number digits then Some (JNum digits, s) else None
      end
  end
with read_items (fuel : nat) (first : bool) (s : string) : option (list json * string) :=
  match fuel with
  | O => None
  | S fuel =>
      match strip_prefix "]" s with
      | Some s => if first then Some ([], s) else None
      | None =>
          '(j, s) ← read fuel s;
          match s with
          | String c s =>
              if bool_decide (c = "]"%char) then Some ([j], s)
              else if bool_decide (c = ","%char) then
                '(items, s) ← read_items fuel false s; Some (j :: items, s)
              else None
          | EmptyString => None
          end
      end
  end
with read_members (fuel : nat) (first : bool) (s : string) : option (list (string * json) * string) :=
  match fuel with
  | O => None
  | S fuel =>
      match strip_prefix "}" s with
      | Some s => if first then Some ([], s) else None
      | None =>
          '(key, s) ← read_string s;
          s ← strip_prefix ":" s;
          '(j, s) ← read fuel s;
          match s with
          | String c s =>
              if bool_decide (c = "}"%char) then Some ([(key, j)], s)
              else if bool_decide (c = ","%char) then
                '(members, s) ← read_members fuel false s; Some ((key, j) :: members, s)
              else None
          | EmptyString => None
          end
      end
  end.

(** A document takes at most its length in turns ([need_length]). *)
Definition read_json (s : string) : option json :=
  match read (String.length s) s with Some (j, EmptyString) => Some j | _ => None end.

(** ** Strings *)

(** A character of UTF-8 is one ASCII byte, or bytes above it. *)
Definition high (c : Ascii.ascii) : bool := negb (is_ascii c).
Definition one_char (s : string) : Prop :=
  (exists c, s = of_char c /\ is_ascii c = true) \/ (s <> "" /\ all_chars high s = true).

Definition whole_one (c : Chunk) : Prop := match c with Whole s => one_char s | Broken _ => True end.

Definition under_way (expected : list (Z * Z)) (piece : string) : Prop :=
  piece = "" /\ expected = [] \/ one_char piece /\ expected = [] \/
  piece <> "" /\ all_chars high piece = true /\ Forall (fun r => 128 <= r.1) expected.

Lemma closed_one expected piece : under_way expected piece -> Forall whole_one (closed expected piece).
Proof.
  intros Hu. unfold closed. destruct piece as [|c piece]; [done|].
  destruct expected; (constructor; [|done]); [|done]. cbn.
  destruct Hu as [[? _]|[[? _]|(? & ? & _)]]; [done|done|by right].
Qed.

Lemma tails_high first expected :
  0 <= first -> tails first = Some expected -> first < 128 /\ expected = [] \/
    128 <= first /\ Forall (fun r => 128 <= r.1) expected.
Proof.
  unfold tails, tail_byte. intros Hf. destruct (Z.ltb_spec first 128); [intros [= <-]; by left|].
  repeat (case_match || case_bool_decide); intros [= <-]; right; (split; [lia|]);
    repeat constructor; cbn; lia.
Qed.

Lemma high_byte c : 128 <= byte c -> high c = true.
Proof. unfold high, is_ascii, byte. intros. destruct (Nat.ltb_spec (ord c) 128); [lia|done]. Qed.

Lemma chunks_one expected piece s :
  under_way expected piece -> Forall whole_one (utf8_chunks expected piece s).
Proof.
  revert expected piece. induction s as [|c s IH]; intros expected piece Hu; [by apply closed_one|].
  assert (Hstart : Forall whole_one (closed expected piece ++
    match tails (byte c) with
    | Some expected => utf8_chunks expected (of_char c) s
    | None => Broken (of_char c) :: utf8_chunks [] EmptyString s
    end)).
  { apply Forall_app. split; [by apply closed_one|]. destruct (tails (byte c)) as [exp|] eqn:Et.
    - apply IH. apply tails_high in Et as [[Hc ->]|[Hc Hexp]]; [|..|unfold byte; lia].
      + right. left. split; [|done]. left. exists c. split; [done|]. unfold is_ascii, byte in *.
        apply Nat.ltb_lt. lia.
      + right. right. split_and!; [done| |done]. cbn. by rewrite high_byte.
    - constructor; [done|]. apply IH. by left. }
  cbn [utf8_chunks]. destruct expected as [|r expected]; [done|]. destruct (within r c) eqn:Ew; [|done].
  destruct Hu as [[_ ?]|[[_ ?]|(Hne & Hh & [Hr Hexp]%Forall_cons)]]; [done..|].
  apply IH. right. right. split_and!; [by destruct piece| |done].
  rewrite all_chars_app, Hh. cbn. rewrite high_byte; [done|]. unfold within in Ew.
  apply andb_true_iff in Ew as [?%Z.leb_le _]. lia.
Qed.

Lemma utf8_chars_one s : valid_utf8 s = true -> Forall one_char (utf8_chars s).
Proof.
  intros Hv. unfold utf8_chars. assert (Hc : Forall whole_one (chunks s)) by (apply chunks_one; by left).
  unfold valid_utf8 in Hv. induction (chunks s) as [|x l IH]; cbn; [done|].
  apply Forall_cons in Hc as [Hx Hc]. cbn in Hv. apply andb_true_iff in Hv as [Hw Hv].
  constructor; [by destruct x|auto].
Qed.

(** Bytes that are read as they are. *)
Definition as_it_is (c : Ascii.ascii) : bool :=
  negb (bool_decide (c = QUOTE)) && negb (bool_decide (c = BACKSLASH)) && negb (ord c <? 32)%nat.

Lemma read_text_plain s k :
  all_chars as_it_is s = true ->
  read_text (s +:+ k) = '(text, rest) ← read_text k; Some (s +:+ text, rest).
Proof.
  induction s as [|c s IH]; cbn [all_chars]; intros Hs.
  { change ("" +:+ k) with k. destruct (read_text k) as [[text rest]|]; done. }
  apply andb_true_iff in Hs as [[[Hq%negb_true_iff Hb%negb_true_iff]%andb_true_iff Hc%negb_true_iff]%andb_true_iff Hs].
  change (String c s +:+ k) with (String c (s +:+ k)). cbn [read_text]. rewrite Hq, Hb, Hc, (IH Hs).
  destruct (read_text k) as [[text rest]|]; done.
Qed.

Lemma high_plain s : all_chars high s = true -> all_chars as_it_is s = true.
Proof.
  induction s as [|c s IH]; [done|]. cbn [all_chars]. intros [Hc Hs]%andb_true_iff. rewrite IH by done.
  rewrite andb_true_r. by destruct c as [[] [] [] [] [] [] [] []].
Qed.

(** An ASCII character, by enumeration. *)
Lemma read_text_ascii c k :
  is_ascii c = true ->
  read_text (json_char (of_char c) +:+ k) = '(text, rest) ← read_text k; Some (of_char c +:+ text, rest).
Proof. destruct c as [[] [] [] [] [] [] [] []]; intros Hc; (discriminate Hc || reflexivity). Qed.

Lemma json_char_high s : all_chars high s = true -> s <> LINE_SEPARATOR -> s <> PARAGRAPH_SEPARATOR ->
  json_char s = s.
Proof.
  intros Hh Hl Hp. destruct s as [|c [|d s]]; [done| |].
  - cbn in Hh. rewrite andb_true_r in Hh. by destruct c as [[] [] [] [] [] [] [] []].
  - unfold json_char. by rewrite !bool_decide_eq_false_2.
Qed.

Lemma read_text_char c k :
  one_char c ->
  read_text (json_char c +:+ k) = '(text, rest) ← read_text k; Some (c +:+ text, rest).
Proof.
  intros [(a & -> & Ha)|[Hne Hh]]; [by apply read_text_ascii|].
  destruct (decide (c = LINE_SEPARATOR)) as [->|Hl]; [reflexivity|].
  destruct (decide (c = PARAGRAPH_SEPARATOR)) as [->|Hp]; [reflexivity|].
  rewrite json_char_high by done. by apply read_text_plain, high_plain.
Qed.

Lemma read_text_chars l k :
  Forall one_char l ->
  read_text (concat_all (json_char <$> l) +:+ String QUOTE k) = Some (concat_all l, k).
Proof.
  induction 1 as [|c l Hc _ IH]; [done|]. cbn [fmap list_fmap concat_all].
  by rewrite append_assoc, read_text_char, IH.
Qed.

(** A string is read back, whatever it holds. *)
Lemma read_string_push s k :
  valid_utf8 s = true -> read_string (push_json_string s +:+ k) = Some (s, k).
Proof.
  intros Hv. unfold push_json_string, read_string.
  change ((of_char QUOTE +:+ ?x) +:+ k) with (String QUOTE (x +:+ k)).
  change (strip_prefix (of_char QUOTE) (String QUOTE ?x)) with (Some x). cbn [mbind option_bind].
  rewrite append_assoc. change (of_char QUOTE +:+ k) with (String QUOTE k).
  rewrite read_text_chars by (by apply utf8_chars_one). rewrite utf8_chars_valid by done.
  cbn [mbind option_bind]. by rewrite Hv.
Qed.

(** ** Documents are read back *)

Fixpoint json_ok (j : json) : Prop :=
  match j with
  | JNull | JBool _ => True
  | JNum digits => number digits = true
  | JStr s => valid_utf8 s = true
  | JArr items => (fix go l := match l with [] => True | j :: l => json_ok j /\ go l end) items
  | JObj members =>
      (fix go l := match l with
                   | [] => True
                   | (key, j) :: l => valid_utf8 key = true /\ json_ok j /\ go l
                   end) members
  end.

Definition items_ok (l : list json) : Prop := Forall json_ok l.
Definition members_ok (l : list (string * json)) : Prop :=
  Forall (fun kj => valid_utf8 kj.1 = true /\ json_ok kj.2) l.

Lemma json_ok_arr l : json_ok (JArr l) <-> items_ok l.
Proof.
  unfold items_ok. induction l as [|j l IH]; [done|].
  rewrite Forall_cons, <- IH. done.
Qed.

Lemma json_ok_obj l : json_ok (JObj l) <-> members_ok l.
Proof.
  unfold members_ok. induction l as [|[key j] l IH]; [done|].
  rewrite Forall_cons, <- IH. cbn. tauto.
Qed.

(** The turns a document takes. *)
Fixpoint need (j : json) : nat :=
  match j with
  | JArr items => S ((fix go l := match l with [] => 1 | j :: l => S (Nat.max (need j) (go l)) end) items)
  | JObj members =>
      S ((fix go l := match l with [] => 1 | (_, j) :: l => S (Nat.max (need j) (go l)) end) members)
  | _ => 1
  end%nat.

Definition needs (l : list json) : nat := foldr (fun j n => S (Nat.max (need j) n)) 1%nat l.

Lemma need_arr l : need (JArr l) = S (needs l).
Proof. done. Qed.

Lemma need_obj l : need (JObj l) = S (needs l.*2).
Proof. cbn. f_equal. induction l as [|[key j] l IH]; [done|]. cbn. by rewrite IH. Qed.

(** What follows a document. *)
Definition no_digit (k : string) : Prop := match k with String c _ => is_digit c = false | "" => True end.

Lemma span_digits_append digits k :
  all_chars is_digit digits = true -> no_digit k -> span_digits (digits +:+ k) = (digits, k).
Proof.
  induction digits as [|c digits IH]; cbn [all_chars]; intros Hd Hk.
  - change ("" +:+ k) with k. destruct k; [done|]. cbn in Hk |- *. by rewrite Hk.
  - apply andb_true_iff in Hd as [Hc Hd]. change (String c digits +:+ k) with (String c (digits +:+ k)).
    cbn [span_digits]. by rewrite Hc, (IH Hd Hk).
Qed.

Lemma number_digits digits :
  number digits = true -> digits <> "" /\ all_chars is_digit digits = true.
Proof. unfold number. intros [[Hn Hd]%andb_true_iff _]%andb_true_iff. case_bool_decide; done. Qed.

(** The first byte of a document opens no end. *)
Definition opens (j : json) (c : Ascii.ascii) : Prop :=
  forall k, exists rest, render j k = String c rest.

Lemma render_head j : json_ok j -> exists c, opens j c /\ c <> "]"%char /\ c <> "}"%char.
Proof.
  intros Hj. destruct j as [|[]|digits|s|items|members].
  - exists "n"%char. split_and!; [by eexists|done..].
  - exists "t"%char. split_and!; [by eexists|done..].
  - exists "f"%char. split_and!; [by eexists|done..].
  - apply number_digits in Hj as [Hne Hd]. destruct digits as [|c digits]; [done|]. exists c.
    cbn in Hd. apply andb_true_iff in Hd as [Hc _]. split_and!; [by eexists|by intros ->..].
  - exists QUOTE. split_and!; [by eexists|done..].
  - exists "["%char. split_and!; [by eexists|done..].
  - exists "{"%char. split_and!; [by eexists|done..].
Qed.

Lemma digit_atom c :
  is_digit c = true -> c <> "n"%char /\ c <> "t"%char /\ c <> "f"%char /\ c <> QUOTE /\ c <> "["%char /\
    c <> "{"%char.
Proof. intros Hc. split_and!; by intros ->. Qed.

Lemma read_atom f j k :
  json_ok j -> no_digit k -> (forall l, j <> JArr l) -> (forall l, j <> JObj l) ->
  read (S f) (render j k) = Some (j, k).
Proof.
  intros Hj Hk Harr Hobj. destruct j as [|[]|digits|s|items|members]; try done.
  - destruct (number_digits _ Hj) as [Hne Hd]. pose proof (span_digits_append digits k Hd Hk) as Hs.
    destruct digits as [|c digits]; [done|]. cbn [render].
    change (String c digits +:+ k) with (String c (digits +:+ k)) in *.
    cbn [all_chars] in Hd. apply andb_true_iff in Hd as [Hc _].
    destruct (digit_atom c Hc) as (? & ? & ? & ? & ? & ?). cbn [read].
    rewrite !bool_decide_eq_false_2, Hs by done. by rewrite Hj.
  - cbn [render]. pose proof (read_string_push s k Hj) as Hs.
    destruct (push_json_string s +:+ k) as [|c rest] eqn:E; [done|].
    assert (c = QUOTE) as -> by (by injection E). cbn [read]. by rewrite Hs.
  - by destruct (Harr items).
  - by destruct (Hobj members).
Qed.

(** Arrays and objects, one more turn of fuel. *)
Definition reads (f : nat) : Prop :=
  forall j k, json_ok j -> no_digit k -> (need j <= f)%nat -> read f (render j k) = Some (j, k).
Definition reads_items (f : nat) : Prop :=
  forall l k first, items_ok l -> (first = true \/ l <> []) -> (needs l <= f)%nat ->
    read_items f first (render_items l k) = Some (l, k).
Definition reads_members (f : nat) : Prop :=
  forall l k first, members_ok l -> (first = true \/ l <> []) -> (needs l.*2 <= f)%nat ->
    read_members f first (render_members l k) = Some (l, k).

Lemma strip_one c d rest : c <> d -> strip_prefix (of_char d) (String c rest) = None.
Proof. intros Hne. cbn. by rewrite bool_decide_eq_false_2. Qed.

Lemma reads_items_step f : reads f -> reads_items f -> reads_items (S f).
Proof.
  intros Hread Hitems l k first Hl Hfirst Hn. destruct l as [|j l].
  { destruct Hfirst as [->|]; done. }
  apply Forall_cons in Hl as [Hj Hl]. cbn [needs foldr] in Hn.
  destruct (render_head j Hj) as (c & Hc & Hb & _).
  assert (Hr : forall k, no_digit k -> read f (render j k) = Some (j, k)) by (intros; apply Hread; [done..|lia]).
  destruct l as [|j' l].
  - cbn [render_items read_items]. destruct (Hc ("]" +:+ k)) as [rest E]. rewrite E.
    change "]" with (of_char "]"%char) at 1. rewrite strip_one by done. rewrite <- E, Hr by done. done.
  - change (render_items (j :: j' :: l) k) with (render j ("," +:+ render_items (j' :: l) k)).
    cbn [read_items]. destruct (Hc ("," +:+ render_items (j' :: l) k)) as [rest E]. rewrite E.
    change "]" with (of_char "]"%char) at 1. rewrite strip_one by done. rewrite <- E, Hr by done.
    change ("," +:+ ?x) with (String "," x). cbn [mbind option_bind].
    rewrite Hitems; [done|done|by right|]. cbn [needs foldr] in *. lia.
Qed.

Lemma reads_members_step f : reads f -> reads_members f -> reads_members (S f).
Proof.
  intros Hread Hmembers l k first Hl Hfirst Hn. destruct l as [|[key j] l].
  { destruct Hfirst as [->|]; done. }
  apply Forall_cons in Hl as [[Hkey Hj] Hl]. cbn in Hkey, Hj. cbn [fmap list_fmap needs foldr snd] in Hn.
  assert (Hr : forall k, no_digit k -> read f (render j k) = Some (j, k)) by (intros; apply Hread; [done..|lia]).
  assert (Hstrip : forall x, strip_prefix "}" (push_json_string key +:+ x) = None) by done.
  assert (Hcolon : forall x, strip_prefix ":" (":" +:+ x) = Some x) by done.
  destruct l as [|[key' j'] l].
  - cbn [render_members read_members].
    rewrite Hstrip, read_string_push by done. cbn [mbind option_bind]. rewrite Hcolon. cbn [mbind option_bind].
    rewrite Hr by done. done.
  - change (render_members ((key, j) :: (key', j') :: l) k)
      with (push_json_string key +:+ ":" +:+ render j ("," +:+ render_members ((key', j') :: l) k)).
    cbn [read_members].
    rewrite Hstrip, read_string_push by done. cbn [mbind option_bind]. rewrite Hcolon. cbn [mbind option_bind].
    rewrite Hr by done. change ("," +:+ ?x) with (String "," x). cbn [mbind option_bind].
    rewrite Hmembers; [done|done|by right|]. cbn [fmap list_fmap needs foldr snd] in *. lia.
Qed.

Lemma reads_step f : reads_items f -> reads_members f -> reads (S f).
Proof.
  intros Hitems Hmembers j k Hj Hk Hn.
  destruct j as [| | | |items|members]; try (by apply read_atom).
  - apply json_ok_arr in Hj. rewrite need_arr in Hn. rewrite render_arr.
    change ("[" +:+ ?x) with (String "[" x). cbn [read]. rewrite Hitems; [done|done|by left|lia].
  - apply json_ok_obj in Hj. rewrite need_obj in Hn. rewrite render_obj.
    change ("{" +:+ ?x) with (String "{" x). cbn [read]. rewrite Hmembers; [done|done|by left|lia].
Qed.

Lemma reads_all f : reads f /\ reads_items f /\ reads_members f.
Proof.
  induction f as [|f (Hr & Hi & Hm)].
  - split_and!.
    + intros j k _ _ Hn. destruct j; cbn in Hn; lia.
    + intros l k first _ _ Hn. destruct l; cbn in Hn; lia.
    + intros l k first _ _ Hn. destruct l; cbn in Hn; lia.
  - split_and!; auto using reads_step, reads_items_step, reads_members_step.
Qed.


(** Induction over documents. *)
Section json_ind.
Context (P : json -> Prop).
Context (Hatom : forall j, (forall l, j <> JArr l) -> (forall l, j <> JObj l) -> P j).
Context (Harr : forall l, Forall P l -> P (JArr l)).
Context (Hobj : forall l, Forall P l.*2 -> P (JObj l)).

Fixpoint json_ind' (j : json) : P j :=
  match j with
  | JArr l => Harr l ((fix go l : Forall P l :=
      match l with [] => Forall_nil_2 P | j :: l => Forall_cons_2 P j l (json_ind' j) (go l) end) l)
  | JObj l => Hobj l ((fix go l : Forall P l.*2 :=
      match l with [] => Forall_nil_2 P | (_, j) :: l => Forall_cons_2 P j l.*2 (json_ind' j) (go l) end) l)
  | JNull => Hatom JNull ltac:(done) ltac:(done)
  | JBool b => Hatom (JBool b) ltac:(done) ltac:(done)
  | JNum d => Hatom (JNum d) ltac:(done) ltac:(done)
  | JStr s => Hatom (JStr s) ltac:(done) ltac:(done)
  end.
End json_ind.

(** The length of a rendering is enough. *)
Definition long_enough (j : json) : Prop :=
  json_ok j -> forall k, (need j + String.length k <= String.length (render j k))%nat.

Lemma items_length l k :
  Forall long_enough l -> items_ok l -> (needs l + String.length k <= String.length (render_items l k))%nat.
Proof.
  intros HF. induction HF as [|j l Hj _ IH]; intros Hl; [done|]. apply Forall_cons in Hl as [Hok Hl].
  specialize (IH Hl). destruct l as [|j' l].
  - cbn [render_items needs foldr]. specialize (Hj Hok ("]" +:+ k)). rewrite length_append in Hj. cbn in Hj.
    assert (1 <= need j)%nat by (destruct j; cbn; lia). lia.
  - change (render_items (j :: j' :: l) k) with (render j ("," +:+ render_items (j' :: l) k)).
    specialize (Hj Hok ("," +:+ render_items (j' :: l) k)). rewrite length_append in Hj.
    change (needs (j :: j' :: l)) with (S (Nat.max (need j) (needs (j' :: l)))).
    assert (1 <= need j)%nat by (destruct j; cbn; lia). change (String.length ",") with 1%nat in Hj. lia.
Qed.

Lemma members_length l k :
  Forall long_enough l.*2 -> members_ok l ->
  (needs l.*2 + String.length k <= String.length (render_members l k))%nat.
Proof.
  induction l as [|[key j] l IH]; intros HF Hl; [done|].
  apply Forall_cons in Hl as [[_ Hok] Hl]. cbn in HF. apply Forall_cons in HF as [Hj HF].
  specialize (IH HF Hl). assert (1 <= need j)%nat by (destruct j; cbn; lia). destruct l as [|[key' j'] l].
  - cbn [render_members]. specialize (Hj Hok ("}" +:+ k)). rewrite !length_append in *.
    cbn [fmap list_fmap needs foldr snd] in *. cbn [String.length] in *. lia.
  - change (render_members ((key, j) :: (key', j') :: l) k)
      with (push_json_string key +:+ ":" +:+ render j ("," +:+ render_members ((key', j') :: l) k)).
    specialize (Hj Hok ("," +:+ render_members ((key', j') :: l) k)). rewrite !length_append in *.
    cbn [fmap list_fmap needs foldr snd] in *. change (String.length ",") with 1%nat in Hj. lia.
Qed.

Lemma need_length j : long_enough j.
Proof.
  induction j as [j Harr Hobj|l IH|l IH] using json_ind'; intros Hok k.
  - destruct j as [|[]|digits|s| |]; cbn [render need json_bool]; rewrite ?length_append; cbn [String.length]; try lia.
    + apply number_digits in Hok as [Hne _]. destruct digits; [done|]. cbn. lia.
    + unfold push_json_string. rewrite length_append. cbn. lia.
    + by destruct (Harr items).
    + by destruct (Hobj members).
  - rewrite need_arr, render_arr, length_append. apply json_ok_arr in Hok.
    pose proof (items_length l k IH Hok). cbn [String.length]. lia.
  - rewrite need_obj, render_obj, length_append. apply json_ok_obj in Hok.
    pose proof (members_length l k IH Hok). cbn [String.length]. lia.
Qed.

(** A rendered document is read as itself. *)
Lemma read_json_render j : json_ok j -> read_json (render j "") = Some j.
Proof.
  intros Hok. unfold read_json. destruct (reads_all (String.length (render j ""))) as [Hr _].
  rewrite Hr; [done|done|done|]. pose proof (need_length j Hok ""). cbn in *. lia.
Qed.

(** ** The document of a specification *)

Definition mount_json (m : Mount) : json :=
  JObj ([("Type", JStr "bind"); ("Source", JStr (source m)); ("Target", JStr (target m))]
        ++ (if read_only m then [("ReadOnly", JBool true)] else [])).

Definition host_config_fields (s : DaemonSpec) : list (string * json) :=
  [
    ("Binds", JNull); ("ContainerIDFile", JStr "");
    ("LogConfig", JObj [("Type", JStr ""); ("Config", JNull)]);
    ("NetworkMode", JStr (network_mode s)); ("PortBindings", JNull);
    ("RestartPolicy", JObj [("Name", JStr ""); ("MaximumRetryCount", JNum "0")]);
    ("AutoRemove", JBool (auto_remove s)); ("VolumeDriver", JStr ""); ("VolumesFrom", JNull);
    ("ConsoleSize", JArr [JNum "0"; JNum "0"]); ("CapAdd", JNull); ("CapDrop", JNull);
    ("CgroupnsMode", JStr (cgroupns_mode s)); ("Dns", JNull); ("DnsOptions", JNull);
    ("DnsSearch", JNull); ("ExtraHosts", JNull); ("GroupAdd", JNull); ("IpcMode", JStr "");
    ("Cgroup", JStr ""); ("Links", JNull); ("OomScoreAdj", JNum "0");
    ("PidMode", JStr (pid_mode s)); ("Privileged", JBool (privileged s));
    ("PublishAllPorts", JBool false); ("ReadonlyRootfs", JBool false); ("SecurityOpt", JNull);
    ("UTSMode", JStr ""); ("UsernsMode", JStr (userns_mode s)); ("ShmSize", JNum "0");
    ("Isolation", JStr ""); ("CpuShares", JNum "0"); ("Memory", JNum "0"); ("NanoCpus", JNum "0");
    ("CgroupParent", JStr ""); ("BlkioWeight", JNum "0"); ("BlkioWeightDevice", JNull);
    ("BlkioDeviceReadBps", JNull); ("BlkioDeviceWriteBps", JNull); ("BlkioDeviceReadIOps", JNull);
    ("BlkioDeviceWriteIOps", JNull); ("CpuPeriod", JNum "0"); ("CpuQuota", JNum "0");
    ("CpuRealtimePeriod", JNum "0"); ("CpuRealtimeRuntime", JNum "0"); ("CpusetCpus", JStr "");
    ("CpusetMems", JStr ""); ("Devices", JNull); ("DeviceCgroupRules", JNull);
    ("DeviceRequests", JNull); ("MemoryReservation", JNum "0"); ("MemorySwap", JNum "0");
    ("MemorySwappiness", JNull); ("OomKillDisable", JNull); ("PidsLimit", JNull);
    ("Ulimits", JNull); ("CpuCount", JNum "0"); ("CpuPercent", JNum "0");
    ("IOMaximumIOps", JNum "0"); ("IOMaximumBandwidth", JNum "0");
    ("Mounts", JArr (mount_json <$> mounts s)); ("MaskedPaths", JNull); ("ReadonlyPaths", JNull)
  ].

Definition spec_json (s : DaemonSpec) : json :=
  JObj [
    ("Hostname", JStr ""); ("Domainname", JStr ""); ("User", JStr "");
    ("AttachStdin", JBool false); ("AttachStdout", JBool false); ("AttachStderr", JBool false);
    ("Tty", JBool false); ("OpenStdin", JBool false); ("StdinOnce", JBool false); ("Env", JNull);
    ("Cmd", match cmd s with None => JNull | Some args => JArr (JStr <$> args) end);
    ("Image", JStr (image s)); ("Volumes", JNull); ("WorkingDir", JStr ""); ("Entrypoint", JNull);
    ("Labels", JObj ((fun kv => (kv.1, JStr kv.2)) <$> labels s));
    ("StopTimeout", JNum (pretty (stop_timeout s))); ("HostConfig", JObj (host_config_fields s))
  ].

Lemma join_cons sep x y l : join sep (x :: y :: l) = x +:+ sep +:+ join sep (y :: l).
Proof. done. Qed.

(** The loops of the source render lists. *)
Lemma render_items_comma {A} (f : A -> string) (g : A -> json) l k :
  (forall x k, render (g x) k = f x +:+ k) ->
  render_items (g <$> l) k = comma_separated f l +:+ "]" +:+ k.
Proof.
  intros Hfg. unfold comma_separated. induction l as [|x [|y l] IH]; [done|apply Hfg|].
  change (render_items (g <$> (x :: y :: l)) k) with (render (g x) ("," +:+ render_items (g <$> (y :: l)) k)).
  rewrite Hfg, IH. cbn [fmap list_fmap]. by rewrite join_cons, !append_assoc.
Qed.

Lemma render_labels l k :
  render_members ((fun kv => (kv.1, JStr kv.2)) <$> l) k = comma_separated push_label l +:+ "}" +:+ k.
Proof.
  unfold comma_separated. induction l as [|[a b] [|[c d] l] IH]; [done| |].
  - cbn. unfold push_label. by rewrite !append_assoc.
  - change (render_members ((fun kv => (kv.1, JStr kv.2)) <$> ((a, b) :: (c, d) :: l)) k)
      with (push_json_string a +:+ ":" +:+ push_json_string b +:+ "," +:+
            render_members ((fun kv => (kv.1, JStr kv.2)) <$> ((c, d) :: l)) k).
    rewrite IH. cbn [fmap list_fmap]. rewrite join_cons.
    change (push_label (a, b)) with (push_json_string a +:+ ":" +:+ push_json_string b).
    by rewrite !append_assoc.
Qed.

Lemma render_mount m k : render (mount_json m) k = push_mount m +:+ k.
Proof.
  destruct m as [src tgt []]; unfold mount_json, push_mount; rewrite render_obj;
    cbn [source target read_only app render_members render];
    generalize (push_json_string src) as a, (push_json_string tgt) as b; intros a b;
    rewrite !append_assoc; reflexivity.
Qed.

Definition command_text (s : DaemonSpec) : string :=
  match cmd s with None => "null" | Some args => push_json_strings args end.

Lemma render_command s k :
  render (match cmd s with None => JNull | Some args => JArr (JStr <$> args) end) k = command_text s +:+ k.
Proof.
  unfold command_text. destruct (cmd s) as [args|]; [|done]. rewrite render_arr.
  rewrite (render_items_comma push_json_string) by done. unfold push_json_strings. by rewrite !append_assoc.
Qed.

(** What the source writes by hand is the rendering of the document. *)
Lemma body_render s : body s = render (spec_json s) "".
Proof.
  unfold spec_json, host_config_fields, body.
  pose proof (render_command s) as Hc. fold (command_text s).
  assert (Hl : forall k, render (JObj ((fun kv => (kv.1, JStr kv.2)) <$> labels s)) k =
    "{" +:+ comma_separated push_label (labels s) +:+ "}" +:+ k).
  { intros k. by rewrite render_obj, render_labels. }
  assert (Hm : forall k, render (JArr (mount_json <$> mounts s)) k =
    "[" +:+ comma_separated push_mount (mounts s) +:+ "]" +:+ k).
  { intros k. by rewrite render_arr, (render_items_comma push_mount) by apply render_mount. }
  revert Hc Hl Hm. generalize (JObj ((fun kv => (kv.1, JStr kv.2)) <$> labels s)) as jl.
  generalize (JArr (mount_json <$> mounts s)) as jm.
  generalize (match cmd s with None => JNull | Some args => JArr (JStr <$> args) end) as jc.
  generalize (comma_separated push_label (labels s)) as tl, (comma_separated push_mount (mounts s)) as tm,
    (command_text s) as tc.
  intros tl tm tc jc jm jl Hc Hl Hm. rewrite !render_obj. cbn [render_members]. rewrite Hc, Hl, !render_obj.
  cbn [render_members]. rewrite Hm. cbn [render].
  generalize (push_json_string (image s)) as ti, (push_json_string (network_mode s)) as tn,
    (json_bool (auto_remove s)) as ta, (json_bool (privileged s)) as tp,
    (push_json_string (cgroupns_mode s)) as tg, (push_json_string (pid_mode s)) as td,
    (push_json_string (userns_mode s)) as tu, (pretty (stop_timeout s)) as tt.
  intros. reflexivity.
Qed.

(** Every text in a specification is a Rust string. *)
Definition spec_ok (s : DaemonSpec) : Prop :=
  valid_utf8 (image s) = true /\
  (forall args, cmd s = Some args -> Forall (fun a => valid_utf8 a = true) args) /\
  Forall (fun kv => valid_utf8 kv.1 = true /\ valid_utf8 kv.2 = true) (labels s) /\
  number (pretty (stop_timeout s)) = true /\
  Forall (fun m => valid_utf8 m = true) [cgroupns_mode s; pid_mode s; userns_mode s; network_mode s] /\
  Forall (fun m => valid_utf8 (source m) = true /\ valid_utf8 (target m) = true) (mounts s).

Lemma spec_json_ok s : spec_ok s -> json_ok (spec_json s).
Proof.
  intros (Hi & Hc & Hl & Ht & Hmodes & Hm). rewrite !Forall_cons in Hmodes.
  destruct Hmodes as (H1 & H2 & H3 & H4 & _).
  assert (Hcmd : json_ok match cmd s with None => JNull | Some args => JArr (JStr <$> args) end).
  { destruct (cmd s) as [args|]; [|done]. apply json_ok_arr, Forall_fmap. by apply Hc. }
  assert (Hlab : json_ok (JObj ((fun kv => (kv.1, JStr kv.2)) <$> labels s))).
  { apply json_ok_obj, Forall_fmap. eapply Forall_impl; [exact Hl|]. by intros []. }
  assert (Hmnt : json_ok (JArr (mount_json <$> mounts s))).
  { apply json_ok_arr, Forall_fmap. eapply Forall_impl; [exact Hm|]. intros [src tgt ro] [Hs Htg].
    apply json_ok_obj. unfold members_ok. cbn. destruct ro; repeat constructor; done. }
  assert (Hstop : json_ok (JNum (pretty (stop_timeout s)))) by done.
  apply json_ok_obj. unfold members_ok. repeat (apply Forall_cons_2; [by split|]). done.
Qed.

(** The texts the launcher puts into a specification. *)
Definition options_ok (o : Options) : Prop :=
  valid_utf8 (host_docker_socket o) = true /\ valid_utf8 (config_dir o) = true /\
  (forall args, daemon_args o = Some args -> Forall (fun a => valid_utf8 a = true) args).

Lemma daemon_spec_ok o image_id launcher_id :
  options_ok o -> valid_utf8 image_id = true -> valid_utf8 launcher_id = true ->
  spec_ok (daemon_spec o image_id launcher_id).
Proof.
  intros (Hs & Hd & Ha) Hi Hl. split_and!; [done|done| |done| |].
  - change (labels (daemon_spec o image_id launcher_id))
      with [(LABEL_LAUNCHER, launcher_id); (LABEL_ROLE, ROLE_DAEMON)].
    repeat constructor; done.
  - cbn. destruct (host_network o); repeat constructor.
  - cbn. destruct (dbus o), (negb _); repeat constructor; done.
Qed.

(** ** What [json.Marshal] escapes for HTML *)

Definition html_safe (c : Ascii.ascii) : bool :=
  negb (ord c <? 32)%nat && negb (bool_decide (c ∈ ["<"; ">"; "&"]%char)).

Abbreviation safe := (fun s => all_chars html_safe s = true).

Lemma safe_app a b : safe a -> safe b -> safe (a +:+ b).
Proof. cbn. intros Ha Hb. by rewrite all_chars_app, Ha, Hb. Qed.

Lemma safe_char c : one_char c -> safe (json_char c).
Proof.
  intros [(a & -> & Ha)|[Hne Hh]]; [by destruct a as [[] [] [] [] [] [] [] []]|].
  destruct (decide (c = LINE_SEPARATOR)) as [->|Hl]; [reflexivity|].
  destruct (decide (c = PARAGRAPH_SEPARATOR)) as [->|Hp]; [reflexivity|].
  rewrite json_char_high by done. clear -Hh. induction c as [|d c IH]; [done|]. cbn [all_chars] in *.
  apply andb_true_iff in Hh as [Hd Hh]. rewrite (IH Hh), andb_true_r. by destruct d as [[] [] [] [] [] [] [] []].
Qed.

Lemma safe_string s : valid_utf8 s = true -> safe (push_json_string s).
Proof.
  intros Hv%utf8_chars_one. unfold push_json_string. apply safe_app; [done|]. apply safe_app; [|done].
  induction Hv as [|c l Hc _ IH]; [done|]. cbn [fmap list_fmap concat_all]. by apply safe_app; [apply safe_char|].
Qed.

Lemma safe_comma {A} (f : A -> string) l : Forall (fun x => safe (f x)) l -> safe (comma_separated f l).
Proof.
  unfold comma_separated. induction 1 as [|x l Hx Hl IH]; [done|]. destruct l as [|y l]; [done|].
  cbn [fmap list_fmap]. rewrite join_cons. apply safe_app; [done|]. by apply safe_app.
Qed.

Lemma safe_number digits : number digits = true -> safe digits.
Proof.
  intros [_ Hd]%number_digits. induction digits as [|c digits IH]; [done|]. cbn [all_chars] in *.
  apply andb_true_iff in Hd as [Hc Hd]. rewrite (IH Hd), andb_true_r. by destruct c as [[] [] [] [] [] [] [] []].
Qed.

Lemma safe_bool b : safe (json_bool b).
Proof. by destruct b. Qed.

(** A piece that was shown to be safe, or one of the source's literals. *)
Ltac safe_piece :=
  lazymatch goal with |- all_chars _ ?x = true => tryif is_var x then assumption else (vm_compute; reflexivity) end.

Lemma safe_body s : spec_ok s -> safe (body s).
Proof.
  intros (Hi & Hc & Hl & Ht & Hmodes & Hm). rewrite !Forall_cons in Hmodes. destruct Hmodes as (H1 & H2 & H3 & H4 & _).
  assert (safe (match cmd s with None => "null" | Some args => push_json_strings args end)) as Hcmd.
  { destruct (cmd s) as [args|]; [|done]. unfold push_json_strings. apply safe_app; [done|]. apply safe_app; [|done].
    apply safe_comma. eapply Forall_impl; [by apply Hc|]. apply safe_string. }
  assert (safe (comma_separated push_label (labels s))) as Hlab.
  { apply safe_comma. eapply Forall_impl; [exact Hl|]. intros [a b] [Ha Hb]. unfold push_label.
    apply safe_app; [by apply safe_string|]. by apply safe_app; [|apply safe_string]. }
  assert (safe (comma_separated push_mount (mounts s))) as Hmnt.
  { apply safe_comma. eapply Forall_impl; [exact Hm|]. intros [a b ro] [Ha Hb]. unfold push_mount.
    repeat (apply safe_app; [first [by apply safe_string|by destruct ro|done]|]). done. }
  pose proof (safe_string _ Hi) as Si. pose proof (safe_string _ H1) as S1. pose proof (safe_string _ H2) as S2.
  pose proof (safe_string _ H3) as S3. pose proof (safe_string _ H4) as S4. pose proof (safe_number _ Ht) as St.
  pose proof (safe_bool (auto_remove s)) as Sa. pose proof (safe_bool (privileged s)) as Sp.
  unfold body. clear Hi Hc Hl Ht Hm H1 H2 H3 H4. revert Hcmd Hlab Hmnt Si S1 S2 S3 S4 St Sa Sp.
  generalize (match cmd s with None => "null" | Some args => push_json_strings args end),
    (comma_separated push_label (labels s)), (comma_separated push_mount (mounts s)), (push_json_string (image s)),
    (push_json_string (cgroupns_mode s)), (push_json_string (pid_mode s)), (push_json_string (userns_mode s)),
    (push_json_string (network_mode s)), (pretty (stop_timeout s)), (json_bool (auto_remove s)), (json_bool (privileged s)).
  intros. repeat (apply safe_app; [safe_piece|]). safe_piece.
Qed.

(** C35. Whatever the arguments, the paths and the IDs hold, a strict reader of JSON
    gets from the create request the launcher writes by hand exactly the document
    with the fields of its specification, so that nothing in an argument or a path
    can add a field or change one; and, as [json.Marshal] has it, no control
    character and none of [<], [>] and [&] is left in the request. *)
Theorem create_request_is_document o image_id launcher_id :
  options_ok o -> valid_utf8 image_id = true -> valid_utf8 launcher_id = true ->
  let s := daemon_spec o image_id launcher_id in
  read_json (body s) = Some (spec_json s) /\ all_chars html_safe (body s) = true.
Proof.
  intros Ho Hi Hl s. assert (spec_ok s) as Hs by by apply daemon_spec_ok. split; [|by apply safe_body].
  rewrite body_render. by apply read_json_render, spec_json_ok.
Qed.

Module SpecExample.

(** Arguments that try to close the string they are in. *)
Definition options : Options :=
  {| host_docker_socket := DEFAULT_HOST_DOCKER_SOCKET; dbus := true; config_dir := "/srv/sda";
     host_network := false;
     daemon_args := Some ["-dry-run"; dq "','Privileged':false,'x':'"; String (chr 10) "<&>\"] |}.

(** What the reader refuses: a raw control character, a byte that is not UTF-8,
    half of a surrogate pair, a leading zero, a comma too many, text after the end. *)
Example refused_json :
  (fun s => bool_decide (is_Some (read_json s))) <$>
    [dq "'a" +:+ String (chr 10) (dq "b'"); dq "'" +:+ String (chr 255) (dq "'"); dq "'\ud800'"; "01"; "[0,]"; "{}x";
     dq "{'a':[0,10,null],'b':'\u00e9\n'}"]
  = [false; false; false; false; false; false; true].
Proof. vm_compute. reflexivity. Qed.

Lemma command_escaped :
  command_text (daemon_spec options "sha256:ab" "cd") =
  dq "['-dry-run'," +:+ of_char QUOTE +:+ "\" +:+ dq "',\'Privileged\':false,\'x\':\'" +:+
  dq "','\n\u003c\u0026\u003e\\']".
Proof. vm_compute. reflexivity. Qed.

Lemma create_request_is_document_witness :
  options_ok options /\
  read_json (body (daemon_spec options "sha256:ab" "cd")) = Some (spec_json (daemon_spec options "sha256:ab" "cd")).
Proof.
  assert (Ho : options_ok options).
  { split_and!; [reflexivity|reflexivity|]. intros args [= <-]. repeat constructor. }
  split; [exact Ho|]. exact (proj1 (create_request_is_document options "sha256:ab" "cd" Ho eq_refl eq_refl)).
Defined.

End SpecExample.
