(* ===== verification/Launch.v ===== *)
(** * The launcher

    src/launcher/mod.rs, stale.rs and error.rs: identifying the launcher, removing
    the daemon a previous one left, creating, attaching to, waiting for and
    starting a new one, and supervising it to its end. The Docker engine is
    outside: each of its answers, the end of a stream, of the output, of a budget
    or of the launcher's own context, is an arbitrary function of what happened
    before. A call that its context ends answers with the context's error, so the
    answers cover [with_context] and [establish]. What happened is the trace,
    every call with its answer. *)

From S2P Require Import Prelude.
From S2P Require Import Text.
From S2P Require Import Utf8.
From S2P Require Import ProcError.
From S2P Require Import SelfId.
From S2P Require Import LaunchSpec.

(** ** The engine's data (src/launcher/engine.rs) *)

Record Inspected := { i_image : string; i_running : option bool }.
Record Summary := { sum_id : string; sum_labels : gmap string string }.
Record Created := { created_id : string; created_warnings : list string }.
Record WaitResponse := { status_code : Z; wait_error : option string }.

Definition REMOVED_STATUS : Z := 1.

(** A wait that finds the container already removed. *)
Definition already_removed (error : string) : WaitResponse :=
  {| status_code := REMOVED_STATUS;
     wait_error := Some ("container already removed, exit status unknown: " +:+ error) |}.

(** ** Errors *)

Inductive StaleError :=
  | Foreign (id : string)
  | NoOwner (id : string)
  | InspectOwner (owner id : string) (source : DockerError)
  | OwnerState (owner id : string)
  | OwnedByRunningLauncher (owner : string).

Record RemoveError := { rm_id : string; rm_source : DockerError }.

Inductive EstablishError :=
  | EstablishTimeout
  | EstablishCanceled (why : ContextError)
  | EstablishFailed (source : DockerError).

(** The budget, in nanoseconds. *)
Record BudgetExceeded := { budget : Z; last_inspect : option DockerError }.

Inductive LaunchError :=
  | Identify (cause : SelfIdError)
  | InspectSelf (launcher : string) (source : DockerError)
  | NoImageId (image : string)
  | ListFailed (source : DockerError)
  | Stale (cause : StaleError)
  | RemoveStale (id : string) (source : RemoveError)
  | CreateFailed (source : DockerError)
  | AttachFailed (cause : EstablishError)
  | WaitFailed (cause : EstablishError)
  | StartFailed (source : DockerError)
  | Abandoned (cause : LaunchError) (remove : RemoveError)
  | LogStream (copy : string) (shutdown : option LaunchError)
  | WaitStream (wait : string) (removal : option BudgetExceeded)
  | Budget (exceeded : BudgetExceeded).

Definition SHORT_ID_LEN : nat := 12.

(** [str::is_char_boundary] at a position inside the text. *)
Definition is_char_boundary (s : string) (n : nat) : bool :=
  match String.get n s with
  | Some c => (ord c <? 128)%nat || (192 <=? ord c)%nat
  | None => (n =? String.length s)%nat
  end.

Definition short_id (full_id : string) : string :=
  if (SHORT_ID_LEN <=? String.length full_id)%nat && is_char_boundary full_id SHORT_ID_LEN
  then String.substring 0 SHORT_ID_LEN full_id else full_id.

(** [{:?}] of a [Duration]: the largest unit that is not zero, and the fraction
    without its trailing zeros. *)
Fixpoint fraction_digits (width : nat) (n : Z) : string :=
  match width with
  | O => EmptyString
  | S width =>
      if n =? 0 then EmptyString
      else of_char (chr (48 + Z.to_nat (n / 10 ^ Z.of_nat width)))
           +:+ fraction_digits width (n mod 10 ^ Z.of_nat width)
  end.

Definition decimal (int frac : Z) (width : nat) (suffix : string) : string :=
  pretty int +:+ (if frac =? 0 then EmptyString else "." +:+ fraction_digits width frac) +:+ suffix.

Definition duration_text (d : Z) : string :=
  if 1000000000 <=? d then decimal (d / 1000000000) (d mod 1000000000) 9 "s"
  else if 1000000 <=? d then decimal (d / 1000000) (d mod 1000000) 6 "ms"
  else if 1000 <=? d then decimal (d / 1000) (d mod 1000) 3 "µs"
  else decimal d 0 0 "ns".

(** [write_joined]. *)
Definition joined (parts : list (option string)) : string := join (of_char newline) (omap id parts).

Section texts.
Context (docker_text : DockerError -> string) (io_error_text : Z -> string).

Definition StaleError_text (e : StaleError) : string :=
  match e with
  | Foreign id =>
      DAEMON_NAME +:+ " (" +:+ short_id id +:+ "): container is not a swarm-device-access daemon"
  | NoOwner id => DAEMON_NAME +:+ " (" +:+ short_id id +:+ "): daemon container has no launcher label"
  | InspectOwner owner id source =>
      "inspect launcher " +:+ short_id owner +:+ " of daemon " +:+ short_id id +:+ ": " +:+ docker_text source
  | OwnerState owner id =>
      "launcher " +:+ short_id owner +:+ " of daemon " +:+ short_id id +:+ ": inspect reported no state"
  | OwnedByRunningLauncher owner => "daemon owned by running launcher " +:+ short_id owner
  end.

Definition RemoveError_text (e : RemoveError) : string :=
  "remove container " +:+ short_id (rm_id e) +:+ ": " +:+ docker_text (rm_source e).

Definition EstablishError_text (e : EstablishError) : string :=
  match e with
  | EstablishTimeout => "not established before timeout"
  | EstablishCanceled why => "canceled: " +:+ ContextError_text why
  | EstablishFailed source => docker_text source
  end.

Definition BudgetExceeded_text (e : BudgetExceeded) : string :=
  joined [Some ("daemon not removed within the shutdown budget (" +:+ duration_text (budget e) +:+ ")");
          (fun source => "last inspect of daemon: " +:+ docker_text source) <$> last_inspect e].

Fixpoint LaunchError_text (e : LaunchError) : string :=
  match e with
  | Identify cause => "identify launcher container: " +:+ SelfIdError_text io_error_text cause
  | InspectSelf launcher source =>
      "inspect launcher container " +:+ short_id launcher +:+ ": " +:+ docker_text source
  | NoImageId image => "launcher container has no content-addressed image ID: " +:+ quote image
  | ListFailed source => "list " +:+ DAEMON_NAME +:+ " containers: " +:+ docker_text source
  | Stale cause => StaleError_text cause
  | RemoveStale id source => "remove stale daemon " +:+ short_id id +:+ ": " +:+ RemoveError_text source
  | CreateFailed source => "create daemon container: " +:+ docker_text source
  | AttachFailed cause => "attach to daemon container: " +:+ EstablishError_text cause
  | WaitFailed cause => "wait for daemon container: " +:+ EstablishError_text cause
  | StartFailed source => "start daemon container: " +:+ docker_text source
  | Abandoned cause remove => joined [Some (LaunchError_text cause); Some (RemoveError_text remove)]
  | LogStream copy shutdown =>
      joined [Some ("daemon log stream lost while the daemon was running: " +:+ copy);
              match shutdown with Some e => Some (LaunchError_text e) | None => None end]
  | WaitStream wait removal =>
      joined [Some ("daemon wait stream failed: " +:+ wait); BudgetExceeded_text <$> removal]
  | Budget exceeded => BudgetExceeded_text exceeded
  end.

End texts.

(** ** The trace and the engine *)

Inductive Event :=
  | EInspect (id : string) (answer : result DockerError Inspected)
  | EList (answer : result DockerError (list Summary))
  | ERemove (id : string) (answer : result DockerError unit)
  | ECreate (spec : DaemonSpec) (answer : result DockerError Created)
  | EAttach (id : string) (answer : result EstablishError unit)
  | EWait (id : string) (answer : result EstablishError unit)
  | EStart (id : string) (answer : result DockerError unit)
  | EStop (id : string) (seconds : Z) (answer : result DockerError unit)
  (** What the supervision woke up for: the wait's answer, the end of the copy of
      the output, the launcher's own stop. *)
  | EWaited (answer : result string WaitResponse)
  | ECopied (outcome : result string unit)
  | EStopped
  (** The budget of a shutdown, or the deadline of a drain, ended. *)
  | EBudget
  | EDrained (outcome : option (result string unit)).

Abbreviation Trace := (list Event).

Inductive Wake := WaitAnswered (answer : result string WaitResponse) | ContextDone.
Inductive WakeOrCopy := Woke (w : Wake) | Copied (outcome : result string unit).

(** The engine, the streams and the clock. *)
Class Outside := {
  o_inspect : string -> Trace -> result DockerError Inspected;
  o_list_daemons : Trace -> result DockerError (list Summary);
  o_remove : string -> Trace -> result DockerError unit;
  o_create : DaemonSpec -> Trace -> result DockerError Created;
  o_attach : string -> Trace -> result EstablishError unit;
  o_wait_removed : string -> Trace -> result EstablishError unit;
  o_start : string -> Trace -> result DockerError unit;
  o_stop : string -> Z -> Trace -> result DockerError unit;
  (** The [select!] of [supervise] while the copy runs, and once it has ended. *)
  o_wake_or_copy : Trace -> WakeOrCopy;
  o_wake : Trace -> Wake;
  (** The [select!] of [shutdown]; [None] is the budget. *)
  o_wait_or_budget : Trace -> option (result string WaitResponse);
  (** How many ticks of the poll come before the budget ends. *)
  o_ticks : Trace -> nat;
  (** The [select!] of [drain]; [None] is the deadline. *)
  o_drain : Trace -> option (result string unit);
}.

(** ** The monad *)

Definition LM (A : Type) : Type := Trace -> A * Trace.

#[global] Instance LM_ret : MRet LM := fun A a tr => (a, tr).
#[global] Instance LM_bind : MBind LM := fun A B k m tr => let '(a, tr) := m tr in k a tr.

(** The [?] of a fallible call. *)
Definition attempt {E A B} (m : LM (result E A)) (k : A -> LM (result E B)) : LM (result E B) :=
  r ← m; match r with Ok a => k a | Err e => mret (Err e) end.

Notation "'let?' x ':=' m 'in' k" := (attempt m (fun x => k))
  (at level 200, x pattern, m at level 200, k at level 200, only parsing) : sda_scope.

(** Ask the outside, and record the answer. *)
Definition call {A} (ask : Trace -> A) (e : A -> Event) : LM A := fun tr =>
  let a := ask tr in (a, tr ++ [e a]).

Definition failing {E F A} (f : E -> F) (m : LM (result E A)) : LM (result F A) := fun tr =>
  let '(r, tr) := m tr in (map_err f r, tr).

Section launch.
Context {outside : Outside}.

Definition inspect (id : string) : LM (result DockerError Inspected) := call (o_inspect id) (EInspect id).
Definition list_daemons : LM (result DockerError (list Summary)) := call o_list_daemons EList.
Definition remove (id : string) : LM (result DockerError unit) := call (o_remove id) (ERemove id).
Definition create (s : DaemonSpec) : LM (result DockerError Created) := call (o_create s) (ECreate s).
Definition attach (id : string) : LM (result EstablishError unit) := call (o_attach id) (EAttach id).
Definition wait_removed (id : string) : LM (result EstablishError unit) := call (o_wait_removed id) (EWait id).
Definition start (id : string) : LM (result DockerError unit) := call (o_start id) (EStart id).
Definition stop_call (id : string) (seconds : Z) : LM (result DockerError unit) :=
  call (o_stop id seconds) (EStop id seconds).

(** ** Stale daemons (stale.rs) *)

Definition LABEL_IMAGE_TITLE : string := "org.opencontainers.image.title".
Definition IMAGE_TITLE : string := "swarm-device-access".

(** [remove_by_id]. *)
Definition remove_by_id (id : string) : LM (result RemoveError unit) :=
  removed ← remove id;
  mret match removed with
       | Err source =>
           if negb (docker_is_not_found source) then Err {| rm_id := id; rm_source := source |} else Ok tt
       | Ok _ => Ok tt
       end.

Definition check_stale (stale : Summary) (launcher_id : string) : LM (result StaleError unit) :=
  let label key := default "" (sum_labels stale !! key) in
  if negb (bool_decide (label LABEL_ROLE = ROLE_DAEMON)) then
    if bool_decide (label LABEL_IMAGE_TITLE = IMAGE_TITLE) then mret (Ok tt)
    else mret (Err (Foreign (sum_id stale)))
  else
    let owner := label LABEL_LAUNCHER in
    if bool_decide (owner = "") then mret (Err (NoOwner (sum_id stale)))
    else if bool_decide (owner = launcher_id) then mret (Ok tt)
    else
      inspected ← inspect owner;
      mret match inspected with
           | Err source =>
               if docker_is_not_found source then Ok tt
               else Err (InspectOwner owner (sum_id stale) source)
           | Ok i =>
               match i_running i with
               | None => Err (OwnerState owner (sum_id stale))
               | Some true => Err (OwnedByRunningLauncher owner)
               | Some false => Ok tt
               end
           end.

(** The loop of [remove_stale]. *)
Fixpoint remove_each (launcher_id : string) (listed : list Summary) : LM (result LaunchError unit) :=
  match listed with
  | [] => mret (Ok tt)
  | stale :: listed =>
      let? _ := failing Stale (check_stale stale launcher_id) in
      let? _ := failing (RemoveStale (sum_id stale)) (remove_by_id (sum_id stale)) in
      remove_each launcher_id listed
  end.

Definition remove_stale (launcher_id : string) : LM (result LaunchError unit) :=
  let? listed := failing ListFailed list_daemons in remove_each launcher_id listed.

(** ** Setting up *)

Definition IMAGE_ID_PREFIX : string := "sha256:".

Definition identify (self_id : result SelfIdError string) : LM (result LaunchError (string * string)) :=
  let? launcher_id := mret (map_err Identify self_id) in
  let? inspected := failing (InspectSelf launcher_id) (inspect launcher_id) in
  if negb (starts_with (i_image inspected) IMAGE_ID_PREFIX) then mret (Err (NoImageId (i_image inspected)))
  else mret (Ok (launcher_id, i_image inspected)).

Definition abandon (id : string) (cause : LaunchError) : LM LaunchError :=
  removed ← remove_by_id id;
  mret match removed with Ok _ => cause | Err remove => Abandoned cause remove end.

Definition prepare (id : string) : LM (result LaunchError unit) :=
  let? _ := failing AttachFailed (attach id) in
  failing WaitFailed (wait_removed id).

(** ** Supervision *)

(** The session: the daemon's ID and the copy's outcome once it has ended. *)
Record Session := { ses_id : string; pump : option (result string unit) }.

Definition end_pump (outcome : result string unit) (s : Session) : Session :=
  {| ses_id := ses_id s; pump := Some outcome |}.

Definition drain (s : Session) : LM Session :=
  match pump s with
  | Some _ => mret s
  | None =>
      drained ← call o_drain EDrained;
      mret match drained with Some outcome => end_pump outcome s | None => s end
  end.

Definition finish (s : Session) (response : WaitResponse) : LM Z :=
  _ ← drain s; mret (status_code response).

Context (shutdown_budget : Z).

Definition budget_exceeded (last : option DockerError) : BudgetExceeded :=
  {| budget := shutdown_budget; last_inspect := last |}.

(** The loop of [await_removal], over the ticks left. *)
Fixpoint poll_removal (ticks : nat) (id : string) : LM (result BudgetExceeded unit) :=
  inspected ← inspect id;
  let go_on (last : option DockerError) : LM (result BudgetExceeded unit) :=
    match ticks with
    | S ticks => poll_removal ticks id
    | O => _ ← call (fun _ => tt) (fun _ => EBudget); mret (Err (budget_exceeded last))
    end in
  match inspected with
  | Err error => if docker_is_not_found error then mret (Ok tt) else go_on (Some error)
  | Ok _ => go_on None
  end.

Definition await_removal (id : string) : LM (result BudgetExceeded unit) := fun tr =>
  poll_removal (o_ticks tr) id tr.

(** [stop]: its error is only logged. *)
Definition stop (id : string) : LM unit := _ ← stop_call id STOP_TIMEOUT; mret tt.

Definition err {E A} (r : result E A) : option E := match r with Ok _ => None | Err e => Some e end.

(** The wait of [shutdown] for the removal: its error, or how the shutdown ended. *)
Definition wait_or_budget (s : Session) : LM (string + result LaunchError Z) :=
  fun tr =>
    match o_wait_or_budget tr with
    | Some (Ok response) =>
        let '(status, tr) := finish s response (tr ++ [EWaited (Ok response)]) in (inr (Ok status), tr)
    | Some (Err wait_error) => (inl wait_error, tr ++ [EWaited (Err wait_error)])
    | None => (inr (Err (Budget (budget_exceeded None))), tr ++ [EBudget])
    end.

Definition shutdown (s : Session) (wait_error : option string) : LM (result LaunchError Z) :=
  _ ← stop (ses_id s);
  waited ← match wait_error with Some e => mret (inl e) | None => wait_or_budget s end;
  match waited with
  | inr ended => mret ended
  | inl wait_error =>
      removal ← await_removal (ses_id s);
      _ ← drain s;
      mret (Err (WaitStream wait_error (err removal)))
  end.

(** The branches of [supervise] on the wait and on the context. *)
Definition on_wake (s : Session) (w : Wake) : LM (result LaunchError Z) := fun tr =>
  match w with
  | WaitAnswered (Ok response) =>
      let '(status, tr) := finish s response (tr ++ [EWaited (Ok response)]) in (Ok status, tr)
  | WaitAnswered (Err wait_error) => shutdown s (Some wait_error) (tr ++ [EWaited (Err wait_error)])
  | ContextDone => shutdown s None (tr ++ [EStopped])
  end.

(** [supervise]: the copy can end once, and its good end goes round the loop. *)
Definition supervise (s : Session) : LM (result LaunchError Z) := fun tr =>
  match o_wake_or_copy tr with
  | Woke w => on_wake s w tr
  | Copied (Ok _) =>
      let tr := tr ++ [ECopied (Ok tt)] in on_wake (end_pump (Ok tt) s) (o_wake tr) tr
  | Copied (Err copy_error) =>
      let '(ended, tr) := shutdown (end_pump (Err copy_error) s) None (tr ++ [ECopied (Err copy_error)]) in
      (Err (LogStream copy_error (err ended)), tr)
  end.

(** ** The launch *)

Definition launch (options : Options) (self_id : result SelfIdError string) : LM (result LaunchError Z) :=
  let? (launcher_id, image_id) := identify self_id in
  let? _ := remove_stale launcher_id in
  let? created := failing CreateFailed (create (daemon_spec options image_id launcher_id)) in
  let id := created_id created in
  prepared ← prepare id;
  match prepared with
  | Err cause => e ← abandon id cause; mret (Err e)
  | Ok _ =>
      started ← start id;
      match started with
      | Err source => e ← abandon id (StartFailed source); mret (Err e)
      | Ok _ => supervise {| ses_id := id; pump := None |}
      end
  end.

End launch.
