(* ===== verification/LaunchProofs.v ===== *)
(** * What a launch does to the containers

    Over any answers of the engine: which containers the launcher removes and why,
    in which order it sets the daemon up, and that a launcher that fails has
    removed or stopped the daemon it created. *)

From S2P Require Import Prelude.
From S2P Require Import Text.
From S2P Require Import ProcError.
From S2P Require Import SelfId.
From S2P Require Import LaunchSpec.
From S2P Require Import Launch.

(** ** What each event needs *)

Definition label_of (s : Summary) (key : string) : string := default "" (sum_labels s !! key).

(** The owner was seen gone, or seen stopped. *)
Definition seen_gone (owner : string) (before : Trace) : Prop :=
  (exists e, EInspect owner (Err e) ∈ before /\ docker_is_not_found e = true) \/
  (exists image, EInspect owner (Ok {| i_image := image; i_running := Some false |}) ∈ before).

(** A container that a launcher may remove before it creates its own. *)
Definition orphan (launcher : string) (before : Trace) (s : Summary) : Prop :=
  (label_of s LABEL_ROLE <> ROLE_DAEMON /\ label_of s LABEL_IMAGE_TITLE = IMAGE_TITLE) \/
  (label_of s LABEL_ROLE = ROLE_DAEMON /\ label_of s LABEL_LAUNCHER <> "" /\
   (label_of s LABEL_LAUNCHER = launcher \/ seen_gone (label_of s LABEL_LAUNCHER) before)).

Definition created_here (id : string) (before : Trace) : Prop :=
  exists spec c, ECreate spec (Ok c) ∈ before /\ created_id c = id.

(** A removal that left nothing: done, or already so. *)
Definition removed (id : string) (before : Trace) : Prop :=
  exists answer, ERemove id answer ∈ before /\
    match answer with Ok _ => True | Err e => docker_is_not_found e = true end.

Definition allowed (options : Options) (launcher : string) (before : Trace) (e : Event) : Prop :=
  match e with
  | ERemove id _ =>
      created_here id before \/
      exists listed s, EList (Ok listed) ∈ before /\ s ∈ listed /\ sum_id s = id /\ orphan launcher before s
  | ECreate spec _ =>
      (forall spec' answer', ECreate spec' answer' ∉ before) /\
      (exists image running,
        EInspect launcher (Ok {| i_image := image; i_running := running |}) ∈ before /\
        starts_with image IMAGE_ID_PREFIX = true /\ spec = daemon_spec options image launcher) /\
      (exists listed, EList (Ok listed) ∈ before /\ forall s, s ∈ listed -> removed (sum_id s) before)
  | EAttach id _ => created_here id before
  | EWait id _ => EAttach id (Ok tt) ∈ before
  | EStart id _ => created_here id before /\ EAttach id (Ok tt) ∈ before /\ EWait id (Ok tt) ∈ before
  | EStop id seconds _ => EStart id (Ok tt) ∈ before /\ seconds = STOP_TIMEOUT
  | _ => True
  end.

Definition guarded (options : Options) (launcher : string) (tr : Trace) : Prop :=
  forall before e after, tr = before ++ e :: after -> allowed options launcher before e.

Section launch.
Context {outside : Outside} (options : Options) (launcher : string).

Abbreviation G := (guarded options launcher).

Lemma guarded_snoc tr e : G tr -> allowed options launcher tr e -> G (tr ++ [e]).
Proof.
  intros HG He before e' after Heq. destruct after as [|x after _] using rev_ind.
  - by apply app_inj_tail in Heq as [<- <-].
  - rewrite app_comm_cons, app_assoc in Heq. apply app_inj_tail in Heq as [Heq _]. by eapply HG.
Qed.

(** ** The logic: a run keeps the trace guarded and ends in [Q] *)

Definition ok {A} (m : LM A) (tr : Trace) (Q : A -> Trace -> Prop) : Prop :=
  G tr -> exists a tr', m tr = (a, tr') /\ tr `prefix_of` tr' /\ G tr' /\ Q a tr'.

Lemma ok_ret {A} (a : A) tr (Q : A -> Trace -> Prop) : Q a tr -> ok (mret a) tr Q.
Proof. intros HQ HG. by exists a, tr. Qed.

Lemma ok_bind {A B} (m : LM A) (k : A -> LM B) tr Q :
  ok m tr (fun a tr' => tr `prefix_of` tr' -> ok (k a) tr' Q) -> ok (m ≫= k) tr Q.
Proof.
  intros Hm HG. destruct (Hm HG) as (a & tr1 & E1 & P1 & G1 & Hk).
  destruct (Hk P1 G1) as (b & tr2 & E2 & P2 & G2 & HQ). exists b, tr2.
  split_and!; [|by etrans|done|done]. unfold mbind, LM_bind. by rewrite E1.
Qed.

Lemma ok_mono {A} (m : LM A) tr (Q Q' : A -> Trace -> Prop) :
  ok m tr Q -> (forall a tr', tr `prefix_of` tr' -> Q a tr' -> Q' a tr') -> ok m tr Q'.
Proof. intros Hm HQ HG. destruct (Hm HG) as (a & tr' & E & P & G' & H). exists a, tr'. auto. Qed.

Lemma ok_call {A} (ask : Trace -> A) (e : A -> Event) tr Q :
  (forall a, allowed options launcher tr (e a)) -> (forall a, Q a (tr ++ [e a])) -> ok (call ask e) tr Q.
Proof.
  intros Ha HQ HG. exists (ask tr), (tr ++ [e (ask tr)]). split_and!; [done|by apply prefix_app_r| |done].
  by apply guarded_snoc.
Qed.

Lemma ok_attempt {E A B} (m : LM (result E A)) (k : A -> LM (result E B)) tr Q :
  ok m tr (fun r tr' => tr `prefix_of` tr' ->
    match r with Ok a => ok (k a) tr' Q | Err e => Q (Err e) tr' end) ->
  ok (attempt m k) tr Q.
Proof.
  intros Hm. apply ok_bind. eapply ok_mono; [exact Hm|]. intros [a|e] tr' P H P'; [auto|].
  by apply ok_ret, H.
Qed.

Lemma ok_failing {E F A} (f : E -> F) (m : LM (result E A)) tr Q :
  ok m tr (fun r tr' => Q (map_err f r) tr') -> ok (failing f m) tr Q.
Proof.
  intros Hm HG. destruct (Hm HG) as (r & tr' & E1 & P & G' & HQ). exists (map_err f r), tr'.
  split_and!; [|done..]. unfold failing. by rewrite E1.
Qed.

(** Facts about a trace stay true of a longer one. *)
Lemma prefix_elem (e : Event) tr tr' : tr `prefix_of` tr' -> e ∈ tr -> e ∈ tr'.
Proof. intros [es ->] He. apply elem_of_app. by left. Qed.

Lemma last_elem (e : Event) tr : e ∈ tr ++ [e].
Proof. apply elem_of_app. right. by left. Qed.

Lemma created_here_mono id tr tr' : tr `prefix_of` tr' -> created_here id tr -> created_here id tr'.
Proof. intros P (spec & c & H & E). exists spec, c. split; [by eapply prefix_elem|done]. Qed.

Lemma removed_mono id tr tr' : tr `prefix_of` tr' -> removed id tr -> removed id tr'.
Proof. intros P (a & H & E). exists a. split; [by eapply prefix_elem|done]. Qed.

(** Nothing was created in between. *)
Definition calm (tr tr' : Trace) : Prop :=
  tr `prefix_of` tr' /\ forall spec answer, ECreate spec answer ∈ tr' -> ECreate spec answer ∈ tr.

#[local] Instance calm_preorder : PreOrder calm.
Proof.
  split; [by split|]. intros tr1 tr2 tr3 [P1 H1] [P2 H2]. split; [by etrans|auto].
Qed.

Lemma calm_snoc tr e : (forall spec answer, e <> ECreate spec answer) -> calm tr (tr ++ [e]).
Proof.
  intros He. split; [by apply prefix_app_r|]. intros spec answer [?|H%list_elem_of_singleton]%elem_of_app; [done|].
  by destruct (He spec answer).
Qed.

#[local] Hint Resolve prefix_elem last_elem created_here_mono removed_mono : sda.

(** ** Stale daemons *)

Lemma ok_remove_by_id id tr Q :
  (forall r, allowed options launcher tr (ERemove id r)) ->
  (forall a, Q (match a with
                | Err source => if negb (docker_is_not_found source)
                                then Err {| rm_id := id; rm_source := source |} else Ok tt
                | Ok _ => Ok tt
                end) (tr ++ [ERemove id a])) ->
  ok (remove_by_id id) tr Q.
Proof.
  intros Ha HQ. unfold remove_by_id. apply ok_bind, ok_call; [done|]. intros a _. by apply ok_ret.
Qed.

(** A daemon passes the check only with the evidence that it is an orphan, and the
    check changes nothing. *)
Lemma ok_check_stale s tr Q :
  (forall tr', orphan launcher tr' s -> calm tr tr' -> Q (Ok tt) tr') ->
  (forall tr' e, calm tr tr' -> Q (Err e) tr') ->
  ok (check_stale s launcher) tr Q.
Proof.
  intros Hok Herr. unfold check_stale. fold (label_of s LABEL_ROLE) (label_of s LABEL_IMAGE_TITLE)
    (label_of s LABEL_LAUNCHER).
  case_bool_decide as Hrole; cbn [negb].
  2:{ case_bool_decide as Htitle; apply ok_ret; [|by apply Herr]. apply Hok; [by left|done]. }
  case_bool_decide as Hne; [apply ok_ret; by apply Herr|].
  case_bool_decide as Hown; [apply ok_ret; apply Hok; [|done]; right; auto|].
  apply ok_bind, ok_call; [done|]. intros a _. apply ok_ret.
  pose proof (calm_snoc tr (EInspect (label_of s LABEL_LAUNCHER) a) ltac:(done)) as C.
  destruct a as [[image [[]|]]|e]; cbn [i_running].
  - by apply Herr.
  - apply Hok; [|done]. right. split_and!; [done..|]. right. right. exists image. auto with sda.
  - by apply Herr.
  - destruct (docker_is_not_found e) eqn:Ee; [|by apply Herr]. apply Hok; [|done].
    right. split_and!; [done..|]. right. left. exists e. auto with sda.
Qed.

Lemma ok_remove_each all gone listed tr Q :
  EList (Ok all) ∈ tr -> all = gone ++ listed -> (forall s, s ∈ gone -> removed (sum_id s) tr) ->
  (forall tr', (forall s, s ∈ all -> removed (sum_id s) tr') -> calm tr tr' -> Q (Ok tt) tr') ->
  (forall tr' e, calm tr tr' -> Q (Err e) tr') ->
  ok (remove_each launcher listed) tr Q.
Proof.
  intros Hin. revert gone tr Hin. induction listed as [|s listed IH]; intros gone tr Hin Hall Hdone Hok Herr.
  { apply ok_ret, Hok; [|done]. rewrite Hall, app_nil_r. done. }
  cbn [remove_each]. apply ok_attempt, ok_failing, ok_check_stale; [|intros; by apply Herr].
  intros tr1 Horph C1 P1. cbn [map_err]. apply ok_attempt, ok_failing, ok_remove_by_id.
  { intros r. right. exists all, s. split_and!; [by eapply prefix_elem| |done|done].
    rewrite Hall. apply elem_of_app. right. by left. }
  intros a _. assert (C : calm tr (tr1 ++ [ERemove (sum_id s) a]))
    by (etrans; [done|by apply calm_snoc]). pose proof (proj1 C) as P.
  destruct (match a with Ok _ => Ok tt | Err _ => _ end) as [[]|e] eqn:Ea; cbn [map_err]; [|by apply Herr].
  apply (IH (gone ++ [s])).
  - by eapply prefix_elem.
  - by rewrite <- app_assoc.
  - intros s' [Hs'| ->%list_elem_of_singleton]%elem_of_app; [by eapply removed_mono; [|apply Hdone]|].
    exists a. split; [apply last_elem|]. destruct a as [|e]; [done|]. by destruct (docker_is_not_found e).
  - intros tr' Hr C'. apply Hok; [done|by etrans].
  - intros tr' e C'. apply Herr. by etrans.
Qed.

(** ** Supervision *)

Definition asked_to_stop (id : string) (tr : Trace) : Prop := exists answer, EStop id STOP_TIMEOUT answer ∈ tr.

Definition reported (status : Z) (tr : Trace) : Prop :=
  exists response, EWaited (Ok response) ∈ tr /\ status = status_code response.

(** How the supervision of a started daemon ends. *)
Definition ended (id : string) (r : result LaunchError Z) (tr : Trace) : Prop :=
  match r with Ok status => reported status tr | Err _ => asked_to_stop id tr end.

Lemma asked_mono id tr tr' : tr `prefix_of` tr' -> asked_to_stop id tr -> asked_to_stop id tr'.
Proof. intros P [a H]. exists a. by eapply prefix_elem. Qed.

Lemma reported_mono st tr tr' : tr `prefix_of` tr' -> reported st tr -> reported st tr'.
Proof. intros P (r & H & E). exists r. split; [by eapply prefix_elem|done]. Qed.

Lemma ok_drain s tr (Q : Session -> Trace -> Prop) :
  (forall s' tr', tr `prefix_of` tr' -> Q s' tr') -> ok (drain s) tr Q.
Proof.
  intros HQ. unfold drain. destruct (pump s); [by apply ok_ret, HQ|].
  apply ok_bind, ok_call; [done|]. intros a P. by apply ok_ret, HQ.
Qed.

Lemma ok_finish s response tr Q :
  (forall tr', tr `prefix_of` tr' -> Q (status_code response) tr') -> ok (finish s response) tr Q.
Proof. intros HQ. unfold finish. apply ok_bind, ok_drain. intros s' tr' P _. by apply ok_ret, HQ. Qed.

(** A step that first records an event nothing guards. *)
Lemma ok_after {A} (m : LM A) e tr Q :
  allowed options launcher tr e -> (tr `prefix_of` tr ++ [e] -> ok m (tr ++ [e]) Q) ->
  ok (fun tr => m (tr ++ [e])) tr Q.
Proof.
  intros Ha Hm HG. assert (P : tr `prefix_of` tr ++ [e]) by (by apply prefix_app_r).
  destruct (Hm P (guarded_snoc _ _ HG Ha)) as (a & tr' & E & P' & G' & HQ).
  exists a, tr'. split_and!; [done|by etrans|done|done].
Qed.

Lemma ok_poll_removal budget ticks id tr Q :
  (forall r tr', tr `prefix_of` tr' -> Q r tr') -> ok (poll_removal budget ticks id) tr Q.
Proof.
  revert tr. induction ticks as [|ticks IH]; intros tr HQ; cbn [poll_removal];
    (apply ok_bind, ok_call; [done|]); intros a P.
  - assert (Hb : forall last, ok (_ ← call (fun _ : Trace => tt) (fun _ => EBudget);
      mret (Err (budget_exceeded budget last))) (tr ++ [EInspect id a]) Q).
    { intros last. apply ok_bind, ok_call; [done|]. intros _ P'. apply ok_ret, HQ. by etrans. }
    destruct a as [i|e]; [apply Hb|]. destruct (docker_is_not_found e); [by apply ok_ret, HQ|apply Hb].
  - assert (Hb : ok (poll_removal budget ticks id) (tr ++ [EInspect id a]) Q).
    { apply IH. intros r tr' P'. apply HQ. by etrans. }
    destruct a as [i|e]; [done|]. destruct (docker_is_not_found e); [by apply ok_ret, HQ|done].
Qed.

Lemma ok_wait_or_budget budget s tr (Q : string + result LaunchError Z -> Trace -> Prop) :
  (forall x tr', tr `prefix_of` tr' -> (forall st, x = inr (Ok st) -> reported st tr') -> Q x tr') ->
  ok (wait_or_budget budget s) tr Q.
Proof.
  intros HQ HG. unfold wait_or_budget. destruct (o_wait_or_budget tr) as [[response|e]|].
  - destruct (ok_after (finish s response) (EWaited (Ok response)) tr
      (fun st tr' => st = status_code response /\ reported st tr')) as (st & tr' & E & P & G' & Hst & Hr); [done| |done|].
    { intros _. apply ok_finish. intros tr' P. split; [done|]. exists response.
      split; [eapply prefix_elem, last_elem; done|done]. }
    cbn in E. rewrite E. exists (inr (Ok st)), tr'. split_and!; [done..|].
    apply HQ; [done|]. by intros ? [= <-].
  - eexists _, _. split_and!; [done|by apply prefix_app_r|by apply guarded_snoc|].
    apply HQ; [by apply prefix_app_r|done].
  - eexists _, _. split_and!; [done|by apply prefix_app_r|by apply guarded_snoc|].
    apply HQ; [by apply prefix_app_r|done].
Qed.

Lemma ok_shutdown budget s wait_error tr Q :
  EStart (ses_id s) (Ok tt) ∈ tr ->
  (forall r tr', tr `prefix_of` tr' -> asked_to_stop (ses_id s) tr' -> ended (ses_id s) r tr' -> Q r tr') ->
  ok (shutdown budget s wait_error) tr Q.
Proof.
  intros Hst HQ. unfold shutdown, stop. apply ok_bind, ok_bind, ok_call; [by split|].
  intros a P. apply ok_ret. intros _. set (tr1 := tr ++ [_]) in *.
  assert (Hs1 : asked_to_stop (ses_id s) tr1) by (exists a; apply last_elem).
  assert (Hfail : forall e tr2, tr1 `prefix_of` tr2 ->
    ok (removal ← await_removal budget (ses_id s); _ ← drain s; mret (Err (WaitStream e (err removal)))) tr2 Q).
  { intros e tr2 P2. apply ok_bind. unfold await_removal. intros HG. revert HG. apply ok_poll_removal.
    intros r tr3 P3 _. apply ok_bind, ok_drain. intros s' tr4 P4 _. apply ok_ret.
    assert (P14 : tr1 `prefix_of` tr4) by (etrans; [done|by etrans]).
    pose proof (asked_mono _ _ _ P14 Hs1). apply HQ; [by etrans|done|done]. }
  apply ok_bind. destruct wait_error as [e|]; [apply ok_ret; intros _; by apply Hfail|].
  apply ok_wait_or_budget. intros x tr2 P2 Hx _. destruct x as [e|r]; [by apply Hfail|].
  apply ok_ret. pose proof (asked_mono _ _ _ P2 Hs1). apply HQ; [by etrans|done|].
  destruct r; [by apply Hx|done].
Qed.

Lemma ok_on_wake budget s w tr Q :
  EStart (ses_id s) (Ok tt) ∈ tr ->
  (forall r tr', tr `prefix_of` tr' -> ended (ses_id s) r tr' -> Q r tr') ->
  ok (on_wake budget s w) tr Q.
Proof.
  intros Hst HQ. destruct w as [[response|e]|].
  - intros HG. cbn. destruct (ok_after (finish s response) (EWaited (Ok response)) tr
      (fun st tr' => st = status_code response /\ reported st tr')) as (st & tr' & E & P & G' & Hs & Hr); [done| |done|].
    { intros _. apply ok_finish. intros tr' P. split; [done|]. exists response.
      split; [eapply prefix_elem, last_elem; done|done]. }
    cbn in E. rewrite E. exists (Ok st), tr'. split_and!; [done..|]. by apply HQ.
  - apply (ok_after (shutdown budget s (Some e)) (EWaited (Err e))); [done|]. intros P.
    apply ok_shutdown; [by eapply prefix_elem|]. intros r tr' P' _ Hr. apply HQ; [by etrans|done].
  - apply (ok_after (shutdown budget s None) EStopped); [done|]. intros P.
    apply ok_shutdown; [by eapply prefix_elem|]. intros r tr' P' _ Hr. apply HQ; [by etrans|done].
Qed.

Lemma ok_supervise budget s tr Q :
  EStart (ses_id s) (Ok tt) ∈ tr ->
  (forall r tr', tr `prefix_of` tr' -> ended (ses_id s) r tr' -> Q r tr') ->
  ok (supervise budget s) tr Q.
Proof.
  intros Hst HQ HG. unfold supervise. destruct (o_wake_or_copy tr) as [w|[[]|e]].
  - revert HG. by apply ok_on_wake.
  - revert HG. apply (ok_after (fun tr => on_wake budget (end_pump (Ok tt) s) (o_wake tr) tr) (ECopied (Ok tt))); [done|].
    intros P. eapply (ok_on_wake budget (end_pump (Ok tt) s)); [by eapply prefix_elem|].
    intros r tr' P' Hr. apply HQ; [by etrans|done].
  - destruct (ok_after (shutdown budget (end_pump (Err e) s) None) (ECopied (Err e)) tr
      (fun _ tr' => asked_to_stop (ses_id s) tr')) as (r & tr' & E & P & G' & Hs); [done| |done|].
    { intros P. apply ok_shutdown; [by eapply prefix_elem|]. by intros. }
    cbn in E. rewrite E. eexists _, tr'. split_and!; [done..|]. by apply HQ.
Qed.

(** ** The launch *)

(** What is left of the daemon when the launcher returns. *)
Definition settled (r : result LaunchError Z) (tr : Trace) : Prop :=
  match r with
  | Ok status => reported status tr /\ exists id, created_here id tr /\ EStart id (Ok tt) ∈ tr
  | Err e =>
      forall spec c, ECreate spec (Ok c) ∈ tr ->
        (EStart (created_id c) (Ok tt) ∈ tr /\ asked_to_stop (created_id c) tr) \/
        (exists answer, last tr = Some (ERemove (created_id c) answer) /\
          (removed (created_id c) tr \/
           exists cause source, e = Abandoned cause {| rm_id := created_id c; rm_source := source |}))
  end.

(** Only one container is ever created. *)
Lemma created_once tr spec a spec' a' :
  G tr -> ECreate spec a ∈ tr -> ECreate spec' a' ∈ tr -> ECreate spec a = ECreate spec' a'.
Proof.
  intros HG H1 H2. apply list_elem_of_split in H1 as (l & k & ->).
  apply elem_of_app in H2 as [H2|[->|H2]%elem_of_cons]; [|done|].
  - destruct (HG l (ECreate spec a) k eq_refl) as [Hn _]. by destruct (Hn spec' a').
  - apply list_elem_of_split in H2 as (k1 & k2 & ->).
    destruct (HG (l ++ ECreate spec a :: k1) (ECreate spec' a') k2) as [Hn _]; [by rewrite <- app_assoc|].
    destruct (Hn spec a). apply elem_of_app. right. by left.
Qed.

(** Nothing created yet. *)
Definition none_created (tr : Trace) : Prop := forall spec answer, ECreate spec answer ∉ tr.

Lemma calm_none tr tr' : calm tr tr' -> none_created tr -> none_created tr'.
Proof. intros [_ H] Hn spec answer Hin. by destruct (Hn spec answer); apply H. Qed.

Lemma settled_none e tr : none_created tr -> settled (Err e) tr.
Proof. intros Hn spec c Hin. by destruct (Hn spec (Ok c)). Qed.

Lemma ok_identify self_id tr Q :
  (forall image running, self_id = Ok launcher ->
     starts_with image IMAGE_ID_PREFIX = true ->
     Q (Ok (launcher, image))
       (tr ++ [EInspect launcher (Ok {| i_image := image; i_running := running |})])) ->
  (forall e tr', calm tr tr' -> Q (Err e) tr') ->
  (forall id, self_id = Ok id -> id = launcher) ->
  ok (identify self_id) tr Q.
Proof.
  intros Hok Herr Hid. unfold identify. apply ok_attempt, ok_ret. intros _.
  destruct self_id as [id|e]; cbn [map_err]; [|by apply Herr]. rewrite (Hid id eq_refl) in *.
  apply ok_attempt, ok_failing, ok_call; [done|].
  intros [[image running]|e] _; cbn [map_err]; [|apply Herr; by apply calm_snoc]. cbn [i_image].
  destruct (starts_with image IMAGE_ID_PREFIX) eqn:Ep; cbn [negb]; apply ok_ret; [by apply Hok|].
  apply Herr. by apply calm_snoc.
Qed.

(** The end of a setup that failed. *)
Lemma ok_abandon spec c cause tr Q :
  ECreate spec (Ok c) ∈ tr ->
  (forall r tr', tr `prefix_of` tr' -> (G tr' -> settled r tr') -> Q r tr') ->
  ok (e ← abandon (created_id c) cause; mret (Err e)) tr Q.
Proof.
  intros Hc HQ. apply ok_bind. unfold abandon. apply ok_bind, ok_remove_by_id.
  { intros r. left. by exists spec, c. }
  intros a P. apply ok_ret. intros _. apply ok_ret, HQ; [done|]. intros HG' spec' c' Hc'.
  assert (c' = c) as ->.
  { assert (Heq : ECreate spec' (Ok c') = ECreate spec (Ok c)); [|by simplify_eq].
    eapply created_once; [done..|]. by eapply prefix_elem. }
  right. exists a. rewrite last_snoc. split; [done|]. unfold removed.
  destruct a as [u|e]; [left; exists (Ok u); auto with sda|].
  destruct (docker_is_not_found e) eqn:Ee; cbn [negb]; [left; exists (Err e); auto with sda|].
  right. by exists cause, e.
Qed.

(** After the create: the streams, the start and the supervision. *)
Lemma ok_run_created budget spec c tr Q :
  ECreate spec (Ok c) ∈ tr ->
  (forall r tr', tr `prefix_of` tr' -> (G tr' -> settled r tr') -> Q r tr') ->
  ok (prepared ← prepare (created_id c);
      match prepared with
      | Err cause => e ← abandon (created_id c) cause; mret (Err e)
      | Ok _ =>
          started ← start (created_id c);
          match started with
          | Err source => e ← abandon (created_id c) (StartFailed source); mret (Err e)
          | Ok _ => supervise budget {| ses_id := created_id c; pump := None |}
          end
      end) tr Q.
Proof.
  intros Hc HQ. assert (Hh : created_here (created_id c) tr) by (by exists spec, c).
  assert (Habandon : forall cause tr1, tr `prefix_of` tr1 ->
    ok (e ← abandon (created_id c) cause; mret (Err e)) tr1 Q).
  { intros cause tr1 P. eapply ok_abandon; [by eapply prefix_elem|]. intros r tr' P' Hs. apply HQ; [by etrans|done]. }
  apply ok_bind. unfold prepare. apply ok_attempt, ok_failing, ok_call; [done|].
  intros [[]|e] P1; cbn [map_err]; [|intros P2; by apply Habandon].
  set (tr1 := tr ++ [_]) in *. apply ok_failing, ok_call; [intros; apply last_elem|].
  intros [[]|e] P2; cbn [map_err]; [|by apply Habandon]. set (tr2 := tr1 ++ [_]) in *.
  assert (P12 : tr1 `prefix_of` tr2) by (by apply prefix_app_r).
  apply ok_bind, ok_call.
  { intros a. split_and!; [eapply created_here_mono; [exact P2|done]| |apply last_elem].
    eapply prefix_elem; [done|apply last_elem]. }
  intros [[]|e] P3; [|apply Habandon; by etrans]. set (tr3 := tr2 ++ [_]) in *.
  assert (P : tr `prefix_of` tr3) by (by etrans).
  apply ok_supervise; [apply last_elem|]. cbn [ses_id]. intros r tr' P' Hr.
  assert (Hst : EStart (created_id c) (Ok tt) ∈ tr') by (eapply prefix_elem; [done|apply last_elem]).
  apply HQ; [by etrans|]. intros HG'. destruct r as [status|e].
  - split; [done|]. exists (created_id c). split; [|done]. eapply created_here_mono; [|exact Hh]. by etrans.
  - intros spec' c' Hc'. left. assert (c' = c) as ->; [|done].
    assert (Heq : ECreate spec' (Ok c') = ECreate spec (Ok c)); [|by simplify_eq].
    eapply created_once; [done..|]. eapply prefix_elem; [|exact Hc]. by etrans.
Qed.

Lemma ok_launch budget self_id :
  (forall id, self_id = Ok id -> id = launcher) ->
  ok (launch budget options self_id) [] (fun r tr => G tr -> settled r tr).
Proof.
  intros Hid. assert (Hnone : none_created []) by (intros spec a H; by apply not_elem_of_nil in H).
  unfold launch. apply ok_attempt, ok_identify; [|intros e tr' C _ _; by eapply settled_none, calm_none|done].
  intros image running _ Himg _. set (tr0 := [] ++ [_]).
  assert (C0 : calm [] tr0) by (by apply calm_snoc).
  apply ok_attempt. unfold remove_stale. apply ok_attempt, ok_failing, ok_call; [done|].
  intros [listed|e] P1; cbn [map_err].
  2:{ intros _ _. eapply settled_none, calm_none; [|exact Hnone]. etrans; [exact C0|by apply calm_snoc]. }
  set (tr1 := tr0 ++ [_]) in *. assert (C1 : calm tr0 tr1) by (by apply calm_snoc).
  apply (ok_remove_each listed []); [apply last_elem|done|intros s H; by apply not_elem_of_nil in H| |].
  2:{ intros tr' e C2 _ _. eapply settled_none, calm_none; [|exact Hnone]. etrans; [exact C0|by etrans]. }
  intros tr2 Hremoved C2 P2. assert (C02 : calm tr0 tr2) by (by etrans).
  assert (N2 : none_created tr2) by (eapply calm_none, Hnone; by etrans).
  apply ok_attempt, ok_failing, ok_call.
  { intros a. split_and!; [done| |].
    - exists image, running. split_and!; [|done|done]. eapply prefix_elem; [exact (proj1 C02)|apply last_elem].
    - exists listed. split; [|done]. eapply prefix_elem; [exact (proj1 C2)|apply last_elem]. }
  intros [c|e] P3; cbn [map_err].
  - eapply ok_run_created; [apply last_elem|]. auto.
  - intros _ spec c [Hin|Hin%list_elem_of_singleton]%elem_of_app; [by destruct (N2 spec (Ok c))|done].
Qed.

End launch.

(** C30. Over any answers of the engine, the calls of a launch that knows its own ID
    are justified by what happened before them. A container is removed only if this
    launch created it, or if it was listed under the daemon's name and is one of two
    kinds: a container with another role label or none and the program's image title,
    as the old wrapper left it, whoever owns it; or one with the daemon's role that
    names a launcher, which is this one, was not found, or was seen stopped. The
    daemon is created once, from the image the launcher itself runs, after every
    listed container was removed; it is started only with its output attached and
    its wait registered; and only a started daemon of this launch is stopped. *)
Theorem launch_is_justified {outside : Outside} budget options launcher :
  guarded options launcher (launch budget options (Ok launcher) []).2.
Proof.
  destruct (ok_launch options launcher budget (Ok launcher)) as (r & tr & E & _ & HG & _).
  - by intros id [= <-].
  - intros before e after H. by destruct before.
  - by rewrite E.
Qed.

(** C31. However a launch ends, it leaves no daemon behind on its own: a status is
    one that the wait reported for the daemon it started; after a failure the
    daemon it had created was started and asked to stop, or its removal was the
    last call, and an error that says so when that failed too. *)
Theorem launch_leaves_nothing {outside : Outside} budget options self_id :
  let '(r, tr) := launch budget options self_id [] in settled r tr.
Proof.
  destruct (ok_launch options (match self_id with Ok id => id | Err _ => "" end) budget self_id)
    as (r & tr & E & _ & HG & Hs).
  - by intros id ->.
  - intros before e after H. by destruct before.
  - rewrite E. auto.
Qed.

(** ** A restart *)

Module LaunchExample.

Definition options : Options :=
  {| host_docker_socket := DEFAULT_HOST_DOCKER_SOCKET; dbus := false; config_dir := "";
     host_network := false; daemon_args := Some [] |}.

(** The daemon the launcher [old] left, under the labels of its specification. *)
Definition left_behind : Summary :=
  {| sum_id := "d0"; sum_labels := list_to_map (labels (daemon_spec options "sha256:0" "old")) |}.

(** An engine on which [old] is [state]; the new daemon [d1] fails to start. *)
#[local] Instance engine (state : result DockerError Inspected) : Outside := {|
  o_inspect id _ := if bool_decide (id = "old") then state
                    else Ok {| i_image := "sha256:1"; i_running := Some true |};
  o_list_daemons _ := Ok [left_behind];
  o_remove _ _ := Ok tt;
  o_create _ _ := Ok {| created_id := "d1"; created_warnings := [] |};
  o_attach _ _ := Ok tt;
  o_wait_removed _ _ := Ok tt;
  o_start _ _ := Err (Plain OtherKind "no such device");
  o_stop _ _ _ := Ok tt;
  o_wake_or_copy _ := Woke ContextDone;
  o_wake _ := ContextDone;
  o_wait_or_budget _ := None;
  o_ticks _ := 0%nat;
  o_drain _ := None;
|}.

(** A running owner keeps its daemon; a stopped one does not, and the daemon that
    did not start is removed. *)
Lemma running_owner_kept :
  launch (outside := engine (Ok {| i_image := "sha256:0"; i_running := Some true |})) 0 options (Ok "new") [] =
  (Err (Stale (OwnedByRunningLauncher "old")),
   [EInspect "new" (Ok {| i_image := "sha256:1"; i_running := Some true |}); EList (Ok [left_behind]);
    EInspect "old" (Ok {| i_image := "sha256:0"; i_running := Some true |})]).
Proof. reflexivity. Qed.

Lemma stopped_owner_removed :
  let '(r, tr) := launch (outside := engine (Ok {| i_image := "sha256:0"; i_running := Some false |}))
    0 options (Ok "new") [] in
  r = Err (StartFailed (Plain OtherKind "no such device")) /\
  ERemove "d0" (Ok tt) ∈ tr /\ last tr = Some (ERemove "d1" (Ok tt)).
Proof.
  cbn. split; [reflexivity|]. split; [|reflexivity].
  apply list_elem_of_In. cbn. tauto.
Qed.

End LaunchExample.
