(* ===== verification/LaunchErrors.v ===== *)
(** * Why a launch fails

    Every error of a launch (src/launcher/error.rs) names what went wrong: an answer of the
    engine, of the wait or of the copy, or the end of the budget, that is in the trace of
    the run, over any answers of the engine. *)

From S2P Require Import Prelude.
From S2P Require Import Text.
From S2P Require Import ProcError.
From S2P Require Import SelfId.
From S2P Require Import LaunchSpec.
From S2P Require Import Launch.

(** ** What an error is blamed on *)

(** A listed container of the daemon's name, with these labels. *)
Definition listed (id : string) (labels : gmap string string) (tr : Trace) : Prop :=
  exists l s, EList (Ok l) ∈ tr /\ s ∈ l /\ sum_id s = id /\ sum_labels s = labels.

Definition label_in (labels : gmap string string) (key : string) : string := default "" (labels !! key).

Definition stale_blamed (tr : Trace) (e : StaleError) : Prop :=
  match e with
  | Foreign id => exists labels, listed id labels tr /\
      label_in labels LABEL_ROLE <> ROLE_DAEMON /\ label_in labels LABEL_IMAGE_TITLE <> IMAGE_TITLE
  | NoOwner id => exists labels, listed id labels tr /\ label_in labels LABEL_LAUNCHER = ""
  | InspectOwner owner id source => EInspect owner (Err source) ∈ tr /\ docker_is_not_found source = false /\
      exists labels, listed id labels tr /\ label_in labels LABEL_LAUNCHER = owner
  | OwnerState owner id => (exists i, EInspect owner (Ok i) ∈ tr /\ i_running i = None) /\
      exists labels, listed id labels tr /\ label_in labels LABEL_LAUNCHER = owner
  | OwnedByRunningLauncher owner => (exists i, EInspect owner (Ok i) ∈ tr /\ i_running i = Some true) /\
      exists id labels, listed id labels tr /\ label_in labels LABEL_LAUNCHER = owner
  end.

Definition remove_blamed (tr : Trace) (e : RemoveError) : Prop :=
  ERemove (rm_id e) (Err (rm_source e)) ∈ tr /\ docker_is_not_found (rm_source e) = false.

(** The budget ended, and the last inspect said what it is quoted with. *)
Definition budget_blamed (tr : Trace) (e : BudgetExceeded) : Prop :=
  EBudget ∈ tr /\ forall source, last_inspect e = Some source -> exists id, EInspect id (Err source) ∈ tr.

Fixpoint blamed (self_id : result SelfIdError string) (tr : Trace) (e : LaunchError) : Prop :=
  match e with
  | Identify cause => self_id = Err cause
  | InspectSelf launcher source => self_id = Ok launcher /\ EInspect launcher (Err source) ∈ tr
  | NoImageId image => exists launcher i, self_id = Ok launcher /\ EInspect launcher (Ok i) ∈ tr /\
      i_image i = image /\ starts_with image IMAGE_ID_PREFIX = false
  | ListFailed source => EList (Err source) ∈ tr
  | Stale cause => stale_blamed tr cause
  | RemoveStale id source => rm_id source = id /\ remove_blamed tr source
  | CreateFailed source => exists spec, ECreate spec (Err source) ∈ tr
  | AttachFailed cause => exists id, EAttach id (Err cause) ∈ tr
  | WaitFailed cause => exists id, EWait id (Err cause) ∈ tr
  | StartFailed source => exists id, EStart id (Err source) ∈ tr
  | Abandoned cause remove => blamed self_id tr cause /\ remove_blamed tr remove
  | LogStream copy shutdown => ECopied (Err copy) ∈ tr /\
      match shutdown with Some e => blamed self_id tr e | None => True end
  | WaitStream wait removal => EWaited (Err wait) ∈ tr /\
      match removal with Some e => budget_blamed tr e | None => True end
  | Budget exceeded => budget_blamed tr exceeded
  end.

Section blame.
Context {outside : Outside} (self_id : result SelfIdError string).

(** ** The logic: the trace grows, and [Q] holds at the end *)

Definition ends {A} (m : LM A) (tr : Trace) (Q : A -> Trace -> Prop) : Prop :=
  tr `prefix_of` (m tr).2 /\ Q (m tr).1 (m tr).2.

Lemma ends_here {A} (a : A) tr (Q : A -> Trace -> Prop) : Q a tr -> ends (mret a) tr Q.
Proof. by split. Qed.

Lemma ends_seq {A B} (m : LM A) (k : A -> LM B) tr Q :
  ends m tr (fun a tr' => tr `prefix_of` tr' -> ends (k a) tr' Q) -> ends (m ≫= k) tr Q.
Proof.
  unfold ends, mbind, LM_bind. destruct (m tr) as [a tr1]. cbn. intros [P1 Hk]. destruct (Hk P1) as [P2 HQ].
  split; [by etrans|done].
Qed.

Lemma ends_mono {A} (m : LM A) tr (Q Q' : A -> Trace -> Prop) :
  ends m tr Q -> (forall a tr', tr `prefix_of` tr' -> Q a tr' -> Q' a tr') -> ends m tr Q'.
Proof. intros [P HQ] H. split; auto. Qed.

Lemma ends_call {A} (ask : Trace -> A) (e : A -> Event) tr Q : (forall a, Q a (tr ++ [e a])) -> ends (call ask e) tr Q.
Proof. intros HQ. split; [by apply prefix_app_r|apply HQ]. Qed.

Lemma ends_attempt {E A B} (m : LM (result E A)) (k : A -> LM (result E B)) tr Q :
  ends m tr (fun r tr' => tr `prefix_of` tr' -> match r with Ok a => ends (k a) tr' Q | Err e => Q (Err e) tr' end) ->
  ends (attempt m k) tr Q.
Proof.
  intros Hm. apply ends_seq. eapply ends_mono; [exact Hm|]. intros [a|e] tr' P H P'; [auto|]. by apply ends_here, H.
Qed.

Lemma ends_failing {E F A} (f : E -> F) (m : LM (result E A)) tr Q :
  ends m tr (fun r tr' => Q (map_err f r) tr') -> ends (failing f m) tr Q.
Proof. unfold ends, failing. by destruct (m tr). Qed.

(** A run after an event. *)
Lemma ends_after {A} (m : LM A) tr e Q : ends m (tr ++ [e]) Q -> ends (fun tr => m (tr ++ [e])) tr Q.
Proof. intros [P HQ]. split; [|done]. etrans; [|exact P]. by apply prefix_app_r. Qed.

(** ** Blame stays *)

Lemma in_prefix (e : Event) tr tr' : tr `prefix_of` tr' -> e ∈ tr -> e ∈ tr'.
Proof. intros [es ->] He. apply elem_of_app. by left. Qed.

Lemma in_last (e : Event) tr : e ∈ tr ++ [e].
Proof. apply elem_of_app. right. by left. Qed.

Lemma listed_mono id labels tr tr' : tr `prefix_of` tr' -> listed id labels tr -> listed id labels tr'.
Proof. intros P (l & s & Hl & H). exists l, s. split; [by eapply in_prefix|done]. Qed.

Lemma stale_mono e tr tr' : tr `prefix_of` tr' -> stale_blamed tr e -> stale_blamed tr' e.
Proof.
  intros P. destruct e; cbn; naive_solver eauto using in_prefix, listed_mono.
Qed.

Lemma remove_mono e tr tr' : tr `prefix_of` tr' -> remove_blamed tr e -> remove_blamed tr' e.
Proof. intros P [H1 H2]. split; [by eapply in_prefix|done]. Qed.

Lemma budget_mono e tr tr' : tr `prefix_of` tr' -> budget_blamed tr e -> budget_blamed tr' e.
Proof.
  intros P [H1 H2]. split; [by eapply in_prefix|]. intros source (id & H)%H2. exists id. by eapply in_prefix.
Qed.

Lemma blamed_mono e tr tr' : tr `prefix_of` tr' -> blamed self_id tr e -> blamed self_id tr' e.
Proof.
  intros P. revert e. fix IH 1. intros e. destruct e as [| | | | | | | | | |cause remove|copy [e|]|wait [e|]|exceeded]; cbn.
  - done.
  - intros []. split; [done|by eapply in_prefix].
  - intros (launcher & i & ? & ? & ?). exists launcher, i. split_and!; [done|by eapply in_prefix|tauto..].
  - by apply in_prefix.
  - by apply stale_mono.
  - intros []. split; [done|by eapply remove_mono].
  - intros [x ?]. exists x. by eapply in_prefix.
  - intros [x ?]. exists x. by eapply in_prefix.
  - intros [x ?]. exists x. by eapply in_prefix.
  - intros [x ?]. exists x. by eapply in_prefix.
  - intros []. split; [by apply IH|by eapply remove_mono].
  - intros []. split; [by eapply in_prefix|by apply IH].
  - intros []. split; [by eapply in_prefix|done].
  - intros []. split; [by eapply in_prefix|by eapply budget_mono].
  - intros []. split; [by eapply in_prefix|done].
  - by apply budget_mono.
Qed.

Definition fails {A} (r : result LaunchError A) (tr : Trace) : Prop :=
  match r with Err e => blamed self_id tr e | Ok _ => True end.

(** ** Stale daemons *)

Lemma ends_remove_by_id id tr (Q : result RemoveError unit -> Trace -> Prop) :
  (forall tr', tr `prefix_of` tr' -> Q (Ok tt) tr') ->
  (forall e tr', tr `prefix_of` tr' -> rm_id e = id -> remove_blamed tr' e -> Q (Err e) tr') ->
  ends (remove_by_id id) tr Q.
Proof.
  intros Hok Herr. apply ends_seq, ends_call. intros [[]|source] P; apply ends_here; [by apply Hok|].
  destruct (docker_is_not_found source) eqn:E; cbn; [by apply Hok|]. apply Herr; [done..|]. split; [apply in_last|done].
Qed.

Lemma ends_check_stale s l launcher tr :
  EList (Ok l) ∈ tr -> s ∈ l ->
  ends (check_stale s launcher) tr (fun r tr' => match r with Err e => stale_blamed tr' e | Ok _ => True end).
Proof.
  intros Hl Hs. assert (forall tr', tr `prefix_of` tr' -> listed (sum_id s) (sum_labels s) tr') as Hlist.
  { intros tr' P. exists l, s. split_and!; [by eapply in_prefix|done..]. }
  unfold check_stale. case_bool_decide as Hrole; cbn [negb].
  - case_bool_decide as Hnone.
    { apply ends_here. cbn. by exists (sum_labels s); auto. }
    case_bool_decide; [by apply ends_here|].
    apply ends_seq, ends_call. intros answer P. apply ends_here.
    assert (listed (sum_id s) (sum_labels s) (tr ++ [EInspect (default "" (sum_labels s !! LABEL_LAUNCHER)) answer])) as HL
      by (by apply Hlist).
    destruct answer as [i|source].
    + destruct (i_running i) as [[]|] eqn:Er; [|done|].
      * cbn. split; [exists i; split; [apply in_last|done]|]. by exists (sum_id s), (sum_labels s).
      * cbn. split; [exists i; split; [apply in_last|done]|]. by exists (sum_labels s).
    + destruct (docker_is_not_found source) eqn:En; [done|]. cbn. split_and!; [apply in_last|done|]. by exists (sum_labels s).
  - case_bool_decide; apply ends_here; [done|]. cbn. by exists (sum_labels s); auto.
Qed.

Lemma ends_remove_each launcher l rest tr :
  EList (Ok l) ∈ tr -> (forall s, s ∈ rest -> s ∈ l) -> ends (remove_each launcher rest) tr fails.
Proof.
  revert tr. induction rest as [|s rest IH]; intros tr Hl Hin; cbn [remove_each]; [by apply ends_here|].
  apply ends_attempt, ends_failing. eapply ends_mono; [apply (ends_check_stale s l); [done|apply Hin; by left]|].
  intros [[]|e] tr1 P1 H1 _; [|exact H1]. apply ends_attempt, ends_failing. apply ends_remove_by_id.
  - intros tr2 P2 _. apply IH; [|intros; apply Hin; by right]. eapply in_prefix; [|exact Hl]. by etrans.
  - intros e tr2 P2 E2 H2 _. by split.
Qed.

(** ** The end of a daemon *)

Lemma ends_drain s tr (Q : Session -> Trace -> Prop) :
  (forall s' tr', tr `prefix_of` tr' -> Q s' tr') -> ends (drain s) tr Q.
Proof.
  intros HQ. unfold drain. destruct (pump s); [by apply ends_here, HQ|].
  apply ends_seq, ends_call. intros d P. by apply ends_here, HQ.
Qed.

Lemma ends_finish s response tr (Q : Z -> Trace -> Prop) :
  (forall status tr', Q status tr') -> ends (finish s response) tr Q.
Proof. intros HQ. apply ends_seq, ends_drain. intros s' tr' P _. by apply ends_here. Qed.

Lemma ends_poll_removal budget ticks id tr :
  ends (poll_removal budget ticks id) tr (fun r tr' => match r with Err e => budget_blamed tr' e | Ok _ => True end).
Proof.
  revert tr. induction ticks as [|ticks IH]; intros tr; cbn [poll_removal]; apply ends_seq, ends_call; intros [i|source] P.
  - apply ends_seq, ends_call. intros u P'. apply ends_here. split; [apply in_last|]. by intros source [=].
  - destruct (docker_is_not_found source); [by apply ends_here|].
    apply ends_seq, ends_call. intros u P'. apply ends_here. split; [apply in_last|].
    intros source' [= <-]. exists id. eapply in_prefix; [exact P'|apply in_last].
  - apply IH.
  - destruct (docker_is_not_found source); [by apply ends_here|apply IH].
Qed.

Context (budget : Z).

Lemma ends_wait_or_budget s tr :
  ends (wait_or_budget budget s) tr (fun r tr' => match r with
    | inl e => EWaited (Err e) ∈ tr'
    | inr r => fails r tr'
    end).
Proof.
  unfold wait_or_budget. destruct (o_wait_or_budget tr) as [[response|e]|] eqn:E; unfold ends; rewrite E.
  - destruct (ends_finish s response (tr ++ [EWaited (Ok response)]) (fun _ _ => True)) as [P _]; [done|].
    destruct (finish s response _) as [status tr']. split; [|done]. etrans; [|exact P]. by apply prefix_app_r.
  - split; [by apply prefix_app_r|apply in_last].
  - split; [by apply prefix_app_r|]. split; [apply in_last|]. by intros source [=].
Qed.

Lemma ends_shutdown s wait_error tr :
  (forall e, wait_error = Some e -> EWaited (Err e) ∈ tr) -> ends (shutdown budget s wait_error) tr fails.
Proof.
  intros Hw. apply ends_seq, ends_seq, ends_call. intros a P. apply ends_here. intros _. apply ends_seq.
  assert (forall (w : string + result LaunchError Z) tr1, match w with inl e => EWaited (Err e) ∈ tr1 | inr r => fails r tr1 end ->
    ends (match w with
          | inr ended => mret ended
          | inl wait_error =>
              removal ← await_removal budget (ses_id s); _ ← drain s; mret (Err (WaitStream wait_error (err removal)))
          end) tr1 fails) as Hend.
  { intros [e|r] tr1 H1; [|by apply ends_here]. apply ends_seq.
    eapply ends_mono; [apply (ends_poll_removal budget (o_ticks tr1) (ses_id s) tr1)|].
    intros removal tr2 P2 H2 _. apply ends_seq, ends_drain. intros s' tr3 P3 _. apply ends_here. cbn.
    split; [eapply in_prefix; [|exact H1]; by etrans|]. destruct removal as [u|b]; cbn; [done|]. by eapply budget_mono. }
  destruct wait_error as [e|].
  - apply ends_here. intros _. apply (Hend (inl e)). eapply in_prefix; [exact P|]. by apply Hw.
  - eapply ends_mono; [apply ends_wait_or_budget|]. intros w tr1 _ H1 _. by apply Hend.
Qed.

Lemma ends_on_wake s w tr : ends (on_wake budget s w) tr fails.
Proof.
  destruct w as [[response|e]|].
  - destruct (ends_finish s response (tr ++ [EWaited (Ok response)]) (fun _ _ => True)) as [P _]; [done|].
    unfold ends, on_wake. destruct (finish s response _) as [status tr']. split; [|done]. etrans; [|exact P]. by apply prefix_app_r.
  - apply ends_after, ends_shutdown. intros e' [= <-]. apply in_last.
  - by apply ends_after, ends_shutdown.
Qed.

Lemma ends_supervise s tr : ends (supervise budget s) tr fails.
Proof.
  unfold ends, supervise. destruct (o_wake_or_copy tr) as [w|[[]|copy]].
  - apply ends_on_wake.
  - destruct (ends_on_wake (end_pump (Ok tt) s) (o_wake (tr ++ [ECopied (Ok tt)])) (tr ++ [ECopied (Ok tt)])) as [P HQ].
    split; [|done]. etrans; [|exact P]. by apply prefix_app_r.
  - destruct (ends_shutdown (end_pump (Err copy) s) None (tr ++ [ECopied (Err copy)])) as [P HQ]; [done|].
    destruct (shutdown budget _ None _) as [ended tr']. cbn in *. split; [etrans; [|exact P]; by apply prefix_app_r|].
    split; [eapply in_prefix; [exact P|apply in_last]|]. by destruct ended.
Qed.

(** ** The launch *)

Lemma ends_abandon id cause tr :
  blamed self_id tr cause -> ends (abandon id cause) tr (fun e tr' => blamed self_id tr' e).
Proof.
  intros Hc. apply ends_seq, ends_remove_by_id; [intros tr' P _|intros e tr' P Hid He _]; apply ends_here;
    [by eapply blamed_mono|]. split; [by eapply blamed_mono|done].
Qed.

Lemma ends_identify tr :
  ends (identify self_id) tr fails.
Proof.
  unfold identify. apply ends_attempt, ends_here. intros _. destruct self_id as [launcher|e] eqn:Eid; cbn; [|exact Eid].
  apply ends_attempt, ends_failing, ends_call. intros [i|source] P; cbn.
  - destruct (starts_with (i_image i) IMAGE_ID_PREFIX) eqn:Es; cbn; apply ends_here; [done|].
    exists launcher, i. split_and!; [exact Eid|apply in_last|done..].
  - split; [exact Eid|apply in_last].
Qed.

Lemma ends_launch options : ends (launch budget options self_id) [] fails.
Proof.
  unfold launch. apply ends_attempt. eapply ends_mono; [apply ends_identify|].
  intros [[launcher image]|e] tr1 _ H1 _; [|exact H1]. apply ends_attempt. unfold remove_stale.
  apply ends_attempt, ends_failing, ends_call. intros [l|source] P2; cbn; [|intros _; apply in_last].
  eapply ends_mono; [apply (ends_remove_each launcher l l); [apply in_last|done]|].
  intros [[]|e] tr3 _ H3 _; [|exact H3]. apply ends_attempt, ends_failing, ends_call.
  intros [c|source] P4; cbn; [|eexists; apply in_last]. apply ends_seq. unfold prepare.
  apply ends_attempt, ends_failing, ends_call. intros [[]|cause] P5; cbn.
  - apply ends_failing, ends_call. intros [[]|cause] P6; cbn.
    + apply ends_seq, ends_call. intros [[]|source] P7; [apply ends_supervise|].
      apply ends_seq. eapply ends_mono; [apply ends_abandon; eexists; apply in_last|].
      intros e tr8 _ H8 _. by apply ends_here.
    + apply ends_seq. eapply ends_mono; [apply ends_abandon; eexists; apply in_last|].
      intros e tr8 _ H8 _. by apply ends_here.
  - intros _. apply ends_seq. eapply ends_mono; [apply ends_abandon; eexists; apply in_last|].
    intros e tr8 _ H8 _. by apply ends_here.
Qed.

End blame.

(** C32. A launch that fails says why: each error it returns is one the trace of the run bears
    out (the answer of the call it names, the container and the labels it was listed with,
    the wait's or the copy's own error, the end of the budget), and so is the cause inside an
    error that wraps another. *)
Theorem launch_errors_blamed {outside : Outside} budget options self_id :
  let '(r, tr) := launch budget options self_id [] in
  match r with Ok _ => True | Err e => blamed self_id tr e end.
Proof. destruct (ends_launch self_id budget options) as [_ H]. by destruct (launch budget options self_id []). Qed.
