(* ===== verification/CallContext.v ===== *)
(** * The context of a Docker call (src/docker/context.rs)

    A context is a cancellation and an optional deadline, and a child shares its
    parent's: the contexts of the program are a store, a context its place in it, so
    that cancelling a parent is seen by its children. Times are in nanoseconds on
    one clock. A token of tokio is cancelled with its own context or any above it.

    The recursion of [done_at] through the parents has a flat reference: a context
    is done by its own deadline or by the first cancellation of it or a context
    above it, whichever was first, and by the deadline at the same instant. From it
    follow the laws that the callers rely on. *)

From S2P Require Import Prelude.
From S2P Require Import ProcError.

(** ** The contexts *)

Record CallContext := {
  deadline : option Z;
  cancelled_at : option Z;
  parent : option nat;
}.

Abbreviation Contexts := (list CallContext).

(** A new context, at the end of the store. *)
Definition new (s : Contexts) : nat * Contexts :=
  (length s, s ++ [{| deadline := None; cancelled_at := None; parent := None |}]).

Definition with_deadline (i : nat) (at_ : Z) (s : Contexts) : nat * Contexts :=
  let own := c ← s !! i; deadline c in
  (length s,
   s ++ [{| deadline := Some (match own with Some d => Z.min d at_ | None => at_ end);
            cancelled_at := None; parent := Some i |}]).

Definition with_timeout (i : nat) (now timeout : Z) (s : Contexts) : nat * Contexts :=
  with_deadline i (now + timeout) s.

(** [OnceLock::set]: the first time stays. *)
Definition set_cancelled (now : Z) (c : CallContext) : CallContext :=
  {| deadline := deadline c; cancelled_at := Some (default now (cancelled_at c)); parent := parent c |}.

Definition cancel (i : nat) (now : Z) (s : Contexts) : Contexts := alter (set_cancelled now) i s.

(** [Iterator::min_by_key]: the first of the least. *)
Definition earlier {A} (a b : option (Z * A)) : option (Z * A) :=
  match a, b with
  | Some (t, x), Some (t', y) => if t' <? t then Some (t', y) else Some (t, x)
  | Some x, None => Some x
  | None, b => b
  end.

(** A walk up the parents; a parent is older than its child, so a context's place
    is fuel enough. *)
Fixpoint done_from (fuel : nat) (s : Contexts) (now : Z) (i : nat) : option (Z * ContextError) :=
  match fuel, s !! i with
  | S fuel, Some c =>
      let passed := d ← deadline c; if d <=? now then Some (d, DeadlineExceeded) else None in
      let cancelled := (fun at_ => (at_, Canceled)) <$> cancelled_at c in
      let inherited := p ← parent c; done_from fuel s now p in
      earlier (earlier passed cancelled) inherited
  | _, _ => None
  end.

Definition done_at (s : Contexts) (now : Z) (i : nat) : option (Z * ContextError) := done_from (S i) s now i.

Definition err (s : Contexts) (now : Z) (i : nat) : option ContextError := snd <$> done_at s now i.

(** Whether the token of a context, and one [cancellation] gave of it, is cancelled. *)
Fixpoint token_from (fuel : nat) (s : Contexts) (i : nat) : bool :=
  match fuel, s !! i with
  | S fuel, Some c =>
      match cancelled_at c with
      | Some _ => true
      | None => match parent c with Some p => token_from fuel s p | None => false end
      end
  | _, _ => false
  end.

Definition token_cancelled (s : Contexts) (i : nat) : bool := token_from (S i) s i.

(** [done] at an instant: nothing yet, or why it resolves. *)
Definition done (s : Contexts) (now : Z) (i : nat) : option ContextError :=
  let passed := match d ← s !! i; deadline d with Some d => d <=? now | None => false end in
  if token_cancelled s i || passed then Some (default Canceled (err s now i)) else None.

(** [with_context] at an instant: the call's answer is looked at first. *)
Definition with_context {A} (s : Contexts) (now : Z) (i : nat) (call : option (result DockerError A))
    : option (result DockerError A) :=
  match call with
  | Some answer => Some answer
  | None => (fun why => Err (Context why)) <$> done s now i
  end.

(** ** The store over time *)

Inductive Op := New | WithDeadline (i : nat) (at_ : Z) | Cancel (i : nat).

#[global] Instance Op_eq_dec : EqDecision Op.
Proof. solve_decision. Defined.

Definition step (s : Contexts) (now : Z) (op : Op) : Contexts :=
  match op with
  | New => (new s).2
  | WithDeadline i at_ => if bool_decide (is_Some (s !! i)) then (with_deadline i at_ s).2 else s
  | Cancel i => cancel i now s
  end.

Fixpoint steps (s : Contexts) (ops : list (Z * Op)) : Contexts :=
  match ops with [] => s | (now, op) :: ops => steps (step s now op) ops end.

(** The times of the operations, from [now] on, up to [till]. *)
Fixpoint in_order (now : Z) (ops : list (Z * Op)) (till : Z) : Prop :=
  match ops with [] => now <= till | (t, _) :: ops => now <= t /\ in_order t ops till end.

(** ** The reference *)

(** The first cancellation of a context or one above it. *)
Fixpoint first_cancel_from (fuel : nat) (s : Contexts) (i : nat) : option Z :=
  match fuel, s !! i with
  | S fuel, Some c =>
      match cancelled_at c, p ← parent c; first_cancel_from fuel s p with
      | Some t, Some t' => Some (Z.min t t')
      | Some t, None | None, Some t => Some t
      | None, None => None
      end
  | _, _ => None
  end.

Definition first_cancel (s : Contexts) (i : nat) : option Z := first_cancel_from (S i) s i.

(** By a deadline and a cancellation, whichever was first. *)
Definition first_of (now : Z) (d c : option Z) : option (Z * ContextError) :=
  match d, c with
  | Some d, Some c => if (d <=? now) && (d <=? c) then Some (d, DeadlineExceeded) else Some (c, Canceled)
  | Some d, None => if d <=? now then Some (d, DeadlineExceeded) else None
  | None, c => (fun c => (c, Canceled)) <$> c
  end.

(** What the store keeps: parents are older, a child's deadline is not after its
    parent's, and no cancellation is in the future. *)
Record ok_at (s : Contexts) (now : Z) (i : nat) (c : CallContext) : Prop := {
  ok_parent p : parent c = Some p -> (p < i)%nat /\ exists c', s !! p = Some c' /\
    forall d', deadline c' = Some d' -> exists d, deadline c = Some d /\ d <= d';
  ok_cancelled t : cancelled_at c = Some t -> t <= now;
}.

Definition ok (s : Contexts) (now : Z) : Prop := forall i c, s !! i = Some c -> ok_at s now i c.

(** ** The walk computes the reference *)

(** Comparing instants, case by case. *)
Ltac instants :=
  unfold first_of, earlier;
  repeat (case_match; simplify_eq/=); try done; solve [repeat f_equal; lia | exfalso; lia].

Lemma first_of_earlier now d c inherited d' c' :
  (forall t, c = Some t -> t <= now) ->
  inherited = first_of now d' c' -> (forall x, d' = Some x -> exists y, d = Some y /\ y <= x) ->
  earlier (earlier (first_of now d None) ((fun at_ => (at_, Canceled)) <$> c)) inherited =
  first_of now d (match c, c' with
                  | Some t, Some t' => Some (Z.min t t')
                  | Some t, None | None, Some t => Some t
                  | None, None => None
                  end).
Proof.
  intros Hc -> Hd. destruct d' as [x|]; [destruct (Hd x eq_refl) as (y & -> & Hy)|clear Hd; destruct d as [y|]];
    (destruct c as [t|]; [specialize (Hc t eq_refl)|clear Hc]); destruct c' as [t'|]; cbn; instants.
Qed.

Lemma done_from_spec s now fuel i c :
  ok s now -> s !! i = Some c -> (i < fuel)%nat ->
  done_from fuel s now i = first_of now (deadline c) (first_cancel_from fuel s i).
Proof.
  intros Hok. revert i c. induction fuel as [|fuel IH]; intros i c Hc Hlt; [lia|].
  pose proof (Hok i c Hc) as [Hp Ht]. cbn. rewrite Hc.
  change (d ← deadline c; if d <=? now then Some (d, DeadlineExceeded) else None)
    with (first_of now (deadline c) None).
  destruct (parent c) as [p|]; cbn.
  - destruct (Hp p eq_refl) as (Hpi & c' & Hc' & Hdl). apply (first_of_earlier _ _ _ _ (deadline c')); [done| |done].
    apply IH; [done|lia].
  - apply (first_of_earlier _ _ _ _ None None); done.
Qed.

Lemma done_at_spec s now i c :
  ok s now -> s !! i = Some c -> done_at s now i = first_of now (deadline c) (first_cancel s i).
Proof. intros Hok Hc. apply done_from_spec; [done..|lia]. Qed.

Lemma token_spec fuel s i : token_from fuel s i = bool_decide (is_Some (first_cancel_from fuel s i)).
Proof.
  revert i. induction fuel as [|fuel IH]; intros i; cbn; [done|]. destruct (s !! i) as [c|]; [|done].
  destruct (cancelled_at c) as [t|]; cbn.
  - rewrite bool_decide_eq_true_2; [done|]. by destruct (parent c ≫= _).
  - destruct (parent c) as [p|]; cbn; [|done]. rewrite IH. by destruct (first_cancel_from fuel s p).
Qed.

(** ** Steps *)

(** A context keeps its deadline and its parent. *)
Lemma step_lookup s now op i c :
  s !! i = Some c -> exists c', step s now op !! i = Some c' /\ deadline c' = deadline c /\ parent c' = parent c /\
    cancelled_at c' = if bool_decide (op = Cancel i) then Some (default now (cancelled_at c)) else cancelled_at c.
Proof.
  intros Hc. destruct op as [|j at_|j]; cbn.
  - exists c. rewrite lookup_app_l by (by eapply lookup_lt_Some). by case_bool_decide.
  - exists c. rewrite (bool_decide_eq_false_2 (_ = Cancel _)) by done. split; [|done].
    case_bool_decide; [|done]. cbn. by rewrite lookup_app_l by (by eapply lookup_lt_Some).
  - unfold cancel. destruct (decide (i = j)) as [->|Hij].
    + rewrite list_lookup_alter_eq, Hc. exists (set_cancelled now c). cbn. by rewrite bool_decide_eq_true_2.
    + rewrite list_lookup_alter_ne by done. exists c. by rewrite bool_decide_eq_false_2 by congruence.
Qed.

Lemma ok_at_kept s s' now now' i c c' :
  now <= now' -> ok_at s now i c -> deadline c' = deadline c -> parent c' = parent c ->
  (forall t, cancelled_at c' = Some t -> t <= now') ->
  (forall p cp, s !! p = Some cp -> exists cp', s' !! p = Some cp' /\ deadline cp' = deadline cp) ->
  ok_at s' now' i c'.
Proof.
  intros Hn [Hp _] Hd Hpa Ht Hs. split; [|done]. intros p Hp'. rewrite Hpa in Hp'.
  destruct (Hp p Hp') as (Hlt & cp & Hcp & Hdl). split; [done|].
  destruct (Hs _ _ Hcp) as (cp' & Hcp' & Hd'). exists cp'. split; [done|]. intros d' Hx. rewrite Hd' in Hx.
  rewrite Hd. by apply Hdl.
Qed.

Lemma ok_step s now0 now op : ok s now0 -> now0 <= now -> ok (step s now op) now.
Proof.
  intros Hok Hn i c' Hc'.
  assert (Hs : forall p cp, s !! p = Some cp -> exists cp', step s now op !! p = Some cp' /\ deadline cp' = deadline cp).
  { intros p cp Hcp. destruct (step_lookup s now op p cp Hcp) as (cp' & ? & ? & _). by exists cp'. }
  destruct (s !! i) as [c|] eqn:Hc.
  - destruct (step_lookup s now op i c Hc) as (c'' & Hc'' & Hd & Hp & Ht). rewrite Hc' in Hc''. injection Hc'' as <-.
    eapply ok_at_kept; [done|by apply Hok|done..| |done]. intros t. rewrite Ht.
    destruct (cancelled_at c) as [t0|] eqn:E; [pose proof (ok_cancelled _ _ _ _ (Hok i c Hc) t0 E)|];
      case_bool_decide; cbn; intros [= <-]; lia.
  - assert (Hi : (length s <= i)%nat) by (by apply lookup_ge_None).
    destruct op as [|j at_|j]; cbn in Hc'.
    + rewrite lookup_app_r in Hc' by done. destruct (i - length s)%nat; [|done]. injection Hc' as <-. by split.
    + case_bool_decide as Hj; cbn in Hc'; [|congruence]. rewrite lookup_app_r in Hc' by done.
      destruct (i - length s)%nat; [|done]. injection Hc' as <-. destruct Hj as [cp Hcp]. split; [|done].
      intros p [= <-]. split; [apply lookup_lt_Some in Hcp; lia|]. destruct (Hs _ _ Hcp) as (cp' & Hcp' & Hd').
      exists cp'. split; [done|]. intros d' E. rewrite Hd' in E. rewrite Hcp. cbn. rewrite E. eexists. split; [done|]. lia.
    + unfold cancel in Hc'. apply lookup_lt_Some in Hc'. rewrite length_alter in Hc'. lia.
Qed.

(** A new cancellation is later than those before it. *)
Lemma first_cancel_step s now0 now op fuel i c :
  ok s now0 -> now0 <= now -> s !! i = Some c ->
  (forall t, first_cancel_from fuel s i = Some t -> t <= now) /\
  (first_cancel_from fuel (step s now op) i = first_cancel_from fuel s i \/
   (first_cancel_from fuel s i = None /\ first_cancel_from fuel (step s now op) i = Some now)).
Proof.
  intros Hok Hn. revert i c. induction fuel as [|fuel IH]; intros i c Hc; [by split; [|left]|].
  destruct (step_lookup s now op i c Hc) as (c' & Hc' & _ & Hp & Ht). cbn. rewrite Hc, Hc', Hp, Ht.
  pose proof (Hok i c Hc) as [Hpar Hcan].
  assert (Hup : forall x y : option Z, (x = p ← parent c; first_cancel_from fuel s p) ->
    (y = p ← parent c; first_cancel_from fuel (step s now op) p) ->
    (forall t, x = Some t -> t <= now) /\ (y = x \/ (x = None /\ y = Some now))).
  { intros x y -> ->. destruct (parent c) as [p|]; cbn; [|by split; [|left]].
    destruct (Hpar p eq_refl) as (_ & cp & Hcp & _). by eapply IH. }
  destruct (Hup _ _ eq_refl eq_refl) as [Hx Hy]. clear Hup.
  destruct (p ← parent c; first_cancel_from fuel s p) as [x|];
    destruct (p ← parent c; first_cancel_from fuel (step s now op) p) as [y|];
    destruct (cancelled_at c) as [t|]; try specialize (Hx x eq_refl); try specialize (Hcan t eq_refl);
    destruct Hy as [Hy|[Hy1 Hy2]]; simplify_eq; case_bool_decide; cbn;
    (split; [intros ? [= <-]; lia|]); first [by left | left; f_equal; lia | right; split; [done|f_equal; lia]].
Qed.

Lemma ok_later s now now' : ok s now -> now <= now' -> ok s now'.
Proof. intros Hok Hn i c Hc. eapply ok_at_kept; eauto. intros t E. pose proof (ok_cancelled _ _ _ _ (Hok i c Hc) t E). lia. Qed.

Lemma ok_steps ops s now till : ok s now -> in_order now ops till -> ok (steps s ops) till.
Proof.
  revert s now. induction ops as [|[t op] ops IH]; intros s now Hok Hin; cbn in *; [by eapply ok_later|].
  destruct Hin as [Hn Hin]. eapply IH; [|done]. by eapply ok_step.
Qed.

Lemma done_at_later s now now' i c x :
  ok s now -> now <= now' -> s !! i = Some c -> done_at s now i = Some x -> done_at s now' i = Some x.
Proof.
  intros Hok Hn Hc. rewrite (done_at_spec s now i c), (done_at_spec s now' i c) by eauto using ok_later.
  destruct (deadline c) as [d|], (first_cancel s i) as [t|] eqn:E; cbn; try done; repeat case_match; try done; try lia.
  intros _. exfalso. pose proof (proj1 (first_cancel_step s now now New (S i) i c Hok (Z.le_refl _) Hc) t E). lia.
Qed.

Lemma done_at_step s now0 now op i c x :
  ok s now0 -> now0 <= now -> s !! i = Some c -> done_at s now i = Some x -> done_at (step s now op) now i = Some x.
Proof.
  intros Hok Hn Hc. destruct (step_lookup s now op i c Hc) as (c' & Hc' & Hd & _).
  rewrite (done_at_spec s now i c), (done_at_spec (step s now op) now i c') by eauto using ok_later, ok_step.
  rewrite Hd. unfold first_cancel. destruct (first_cancel_step s now0 now op (S i) i c Hok Hn Hc) as [_ [->|[-> ->]]]; [done|].
  destruct (deadline c) as [d|]; cbn; [|done]. destruct (d <=? now) eqn:E; cbn; [|done]. done.
Qed.

Lemma done_at_steps ops s now till i c x :
  ok s now -> in_order now ops till -> s !! i = Some c -> done_at s now i = Some x ->
  done_at (steps s ops) till i = Some x.
Proof.
  revert s now c. induction ops as [|[t op] ops IH]; intros s now c Hok Hin Hc Hx; cbn in *; [by eapply done_at_later|].
  destruct Hin as [Hn Hin]. destruct (step_lookup s t op i c Hc) as (c' & Hc' & _).
  eapply IH; [by eapply ok_step|done..|]. eapply done_at_step; [done..|]. by eapply done_at_later.
Qed.

(** [j] is [i] or a context above it. *)
Inductive above (s : Contexts) (j : nat) : nat -> Prop :=
  | above_here : above s j j
  | above_parent i c p : s !! i = Some c -> parent c = Some p -> above s j p -> above s j i.

Lemma cancel_elsewhere s j now now' fuel i :
  ~ above s j i -> done_from fuel (cancel j now s) now' i = done_from fuel s now' i.
Proof.
  revert i. induction fuel as [|fuel IH]; intros i Hn; [done|]. cbn. unfold cancel.
  rewrite list_lookup_alter_ne by (intros <-; apply Hn; constructor).
  destruct (s !! i) as [c|] eqn:Hc; [|done]. destruct (parent c) as [p|] eqn:Hp; [|done].
  cbn. rewrite IH; [done|]. intros Ha. apply Hn. by eapply above_parent.
Qed.

(** The fuel is enough. *)
Lemma done_from_enough s now now' fuel fuel' i :
  ok s now' -> (i < fuel)%nat -> (i < fuel')%nat -> done_from fuel s now i = done_from fuel' s now i.
Proof.
  intros Hok. revert fuel' i. induction fuel as [|fuel IH]; intros fuel' i Hi Hi'; [lia|].
  destruct fuel' as [|fuel']; [lia|]. cbn. destruct (s !! i) as [c|] eqn:Hc; [|done].
  destruct (parent c) as [p|] eqn:Hp; [|done]. cbn.
  destruct (ok_parent _ _ _ _ (Hok i c Hc) p Hp) as [Hlt _]. by rewrite (IH fuel' p) by lia.
Qed.

Lemma earlier_le {A} (a : option (Z * A)) x : exists t y, earlier a (Some x) = Some (t, y) /\ t <= x.1.
Proof. destruct a as [[t y]|], x as [t' y']; cbn; [case_match|]; eexists _, _; (split; [done|cbn; lia]). Qed.

(** ** Theorems *)

(** A context is done exactly by its deadline, which is never after that of a
    context above it, or by the first cancellation of it or a context above it,
    whichever was first, and by the deadline when both were at the same instant;
    [done] resolves exactly then, with that reason. *)
Theorem context_done_by start ops now i c :
  in_order start ops now -> steps [] ops !! i = Some c ->
  let s := steps [] ops in
  done_at s now i = first_of now (deadline c) (first_cancel s i) /\
  done s now i = err s now i /\
  forall p, parent c = Some p -> exists c', s !! p = Some c' /\
    forall d', deadline c' = Some d' -> exists d, deadline c = Some d /\ d <= d'.
Proof.
  intros Hin Hc s. assert (Hok : ok s now) by (eapply ok_steps; [|done]; intros j cj Hj; by rewrite lookup_nil in Hj).
  pose proof (done_at_spec s now i c Hok Hc) as Hd. split; [done|]. split.
  - unfold done, err. rewrite Hd, (Hc : s !! i = Some c). unfold token_cancelled. rewrite token_spec. fold (first_cancel s i). cbn.
    destruct (deadline c) as [d|], (first_cancel s i) as [t|]; cbn; try done; by repeat case_match.
  - intros p Hp. destruct (ok_parent _ _ _ _ (Hok i c Hc) p Hp) as (_ & c' & Hc' & H). by exists c'.
Qed.

(** Once done, a context stays done, by the same instant and reason, whatever is
    created or cancelled later; a context beneath a done one is done, no later;
    and cancelling a context reaches only it and those beneath it. *)
Theorem context_stays_done start ops now later till i c x :
  in_order start ops now -> in_order now later till -> steps [] ops !! i = Some c ->
  let s := steps [] ops in
  done_at s now i = Some x ->
  done_at (steps s later) till i = Some x /\
  (forall k ck, s !! k = Some ck -> parent ck = Some i -> exists t why, done_at s now k = Some (t, why) /\ t <= x.1) /\
  (forall j at_ now', ~ above s j i -> done_at (cancel j at_ s) now' i = done_at s now' i).
Proof.
  intros Hin Hlater Hc s Hx.
  assert (Hok : ok s now) by (eapply ok_steps; [|done]; intros j cj Hj; by rewrite lookup_nil in Hj).
  split_and!; [by eapply done_at_steps| |intros; by apply cancel_elsewhere].
  intros k ck Hk Hp. destruct (ok_parent _ _ _ _ (Hok k ck Hk) i Hp) as [Hlt _].
  unfold done_at. cbn [done_from]. rewrite Hk, Hp. cbn [mbind option_bind].
  rewrite (done_from_enough s now now k (S i) i) by (auto with lia). fold (done_at s now i). rewrite Hx.
  apply earlier_le.
Qed.

Module ContextExample.

(** A root, a call of ten seconds under it made at 1, one of five under that, and the
    root cancelled at 4. *)
Definition ops : list (Z * Op) := [(0, New); (1, WithDeadline 0 11); (2, WithDeadline 1 7); (4, Cancel 0)].

Lemma context_done_by_witness :
  done (steps [] ops) 5 2 = Some Canceled /\ done_at (steps [] ops) 5 2 = Some (4, Canceled).
Proof.
  destruct (context_done_by 0 ops 5 2 {| deadline := Some 7; cancelled_at := None; parent := Some 1%nat |})
    as (H1 & H2 & _); [cbn; lia|reflexivity|].
  split; [rewrite H2; reflexivity|rewrite H1; reflexivity].
Defined.

(** The deadline of the innermost passes after the cancellation, and changes nothing. *)
Lemma context_stays_done_witness :
  done_at (steps (steps [] ops) [(6, Cancel 2)]) 20 2 = Some (4, Canceled).
Proof.
  destruct (context_stays_done 0 ops 5 [(6, Cancel 2)] 20 2
    {| deadline := Some 7; cancelled_at := None; parent := Some 1%nat |} (4, Canceled)) as (H & _);
    [cbn; lia|cbn; lia|reflexivity|reflexivity|exact H].
Defined.

(** A deadline that passed first stays the reason. *)
Lemma deadline_first : err (steps [] [(0, New); (1, WithDeadline 0 3); (4, Cancel 0)]) 5 1 = Some DeadlineExceeded.
Proof. reflexivity. Qed.

End ContextExample.
