(* ===== verification/Yaml.v ===== *)
(** * The tree of the configuration file

    src/config/yaml.rs, first part: the reader that builds a document's nodes from
    the events of the YAML parser, and the shape pass over them. The parser (the
    saphyr-parser crate) is outside: it is the list of what it answers, event or
    error, in order, and nothing after its end. Its positions are in characters,
    the text is sliced in bytes. A slice whose ends are out of order panics in the
    source and is [Panicked] here. *)

From Stdlib Require Import Ascii.
From S2P Require Import Prelude.
From S2P Require Import Text.
From S2P Require Import Utf8.
From S2P Require Import Resolve.

(** ** What the parser gives *)

(** Lines are 1-based, indices 0-based in characters. *)
Record Marker := { m_line : Z; m_index : nat }.
Record Span := { span_start : Marker; span_end : Marker }.

Definition Marker_default : Marker := {| m_line := 0; m_index := 0 |}.
Definition Span_default : Span := {| span_start := Marker_default; span_end := Marker_default |}.

Record ScanError := { scan_marker : Marker; scan_info : string }.
Record Tag := { handle : string; suffix : string }.

Inductive ScalarStyle := Plain | SingleQuoted | DoubleQuoted | Literal | Folded.

#[global] Instance ScalarStyle_eq_dec : EqDecision ScalarStyle.
Proof. solve_decision. Defined.

Inductive YEvent :=
  | Nothing | StreamStart | StreamEnd | DocumentStart | DocumentEnd
  | Alias (anchor : N)
  | Scalar (value : string) (style : ScalarStyle) (anchor : N) (tag : option Tag)
  | SequenceStart (anchor : N) (tag : option Tag)
  | SequenceEnd
  | MappingStart (anchor : N) (tag : option Tag)
  | MappingEnd.

Abbreviation Parser := (list (result ScanError (YEvent * Span))).

(** ** Errors *)

Record SyntaxError := { syntax_message : string; unknown_anchor : option string }.

Definition plain (message : string) : SyntaxError :=
  {| syntax_message := message; unknown_anchor := None |}.
Definition scan_line (line : Z) (message : string) : SyntaxError :=
  plain ("line " +:+ pretty line +:+ ": " +:+ message).
Definition scan (e : ScanError) : SyntaxError := scan_line (m_line (scan_marker e)) (scan_info e).
Definition unknown_anchor_error (name : string) : SyntaxError :=
  {| syntax_message := "unknown anchor '" +:+ name +:+ "' referenced"; unknown_anchor := Some name |}.
Definition invalid_utf8 : SyntaxError := plain "invalid UTF-8".
Definition parser_error (line : Z) (message : string) : SyntaxError :=
  if line =? 0 then plain message else plain ("line " +:+ pretty line +:+ ": " +:+ message).

Definition SyntaxError_text (e : SyntaxError) : string := "yaml: " +:+ syntax_message e.

Inductive Shape := ShapeBool | NonEmptyString | ShapeString | NonEmptyStringList.

#[global] Instance Shape_eq_dec : EqDecision Shape.
Proof. solve_decision. Defined.

Definition Shape_text (s : Shape) : string :=
  match s with
  | ShapeBool => "a boolean (true or false)"
  | NonEmptyString => "a non-empty string"
  | ShapeString => "a string (empty disables it)"
  | NonEmptyStringList => "a list of non-empty strings"
  end.

Inductive ShapeError :=
  | NotAMapping
  | MergeKey
  | AliasCycle (key : option string)
  | WrongShape (key : string) (shape : Shape).

Definition ShapeError_text (e : ShapeError) : string :=
  match e with
  | NotAMapping => "the document must be a mapping"
  | MergeKey => "YAML merge keys are not supported"
  | AliasCycle None => "alias cycle"
  | AliasCycle (Some key) => "key " +:+ quote key +:+ ": alias cycle"
  | WrongShape key shape => "key " +:+ quote key +:+ " must be " +:+ Shape_text shape +:+ ": wrong shape"
  end.

Definition KEYS : list (string * Shape) :=
  [("log-format", NonEmptyString); ("log-level", NonEmptyString); ("log-time", ShapeBool);
   ("docker-socket", NonEmptyString); ("dry-run", ShapeBool); ("policy-mode", NonEmptyString);
   ("device-allow", NonEmptyStringList); ("device-deny", NonEmptyStringList);
   ("metrics-addr", ShapeString); ("debug-addr", ShapeString)].

(** ** Nodes *)

Inductive Kind := KDocument | KSequence | KMapping | KScalar | KAlias.

#[global] Instance Kind_eq_dec : EqDecision Kind.
Proof. solve_decision. Defined.

Record Node := {
  kind : Kind;
  tag : string;
  value : string;
  quoted : bool;
  line : Z;
  content : list nat;
  alias : option nat;
}.

Record Tree := { nodes : list Node; document : option nat }.

Definition Tree_default : Tree := {| nodes := []; document := None |}.

(** A node by its index; out of range, where the source would panic, it is none of
    the kinds the passes accept. No tree the reader builds has such an index. *)
Definition no_node : Node :=
  {| kind := KDocument; tag := ""; value := ""; quoted := false; line := 0; content := []; alias := None |}.
Definition node (t : Tree) (i : nat) : Node := default no_node (nodes t !! i).

Definition new_node (k : Kind) (tag : string) (line : Z) : Node :=
  {| kind := k; tag := tag; value := ""; quoted := false; line := line; content := []; alias := None |}.

(** [Tree::push], with the fields the caller sets on the new node right after. *)
Definition push (n : Node) (t : Tree) : nat * Tree :=
  (length (nodes t), {| nodes := nodes t ++ [n]; document := document t |}).

Definition add_child (child : nat) (n : Node) : Node :=
  {| kind := kind n; tag := tag n; value := value n; quoted := quoted n; line := line n;
     content := content n ++ [child]; alias := alias n |}.

(** [self.nodes[parent].content.push(child)]. *)
Definition push_content (parent child : nat) (t : Tree) : Tree :=
  {| nodes := alter (add_child child) parent (nodes t); document := document t |}.

Definition root (t : Tree) : option nat := d ← document t; head (content (node t d)).

Definition is_empty_document (t : Tree) : bool :=
  match root t with
  | None => true
  | Some r => let n := node t r in
      bool_decide (kind n = KScalar) && bool_decide (tag n = NULL_TAG) && bool_decide (value n = "")
  end.

(** ** Tags *)

Definition explicit_tag (tag : option Tag) : option string :=
  tag ← tag;
  let full := handle tag +:+ suffix tag in
  if bool_decide (full = "") || bool_decide (full = "!") then None else Some (short_tag full).

Definition plain_tag (value : string) : string :=
  match resolve "" value with Ok (tag, _) => tag | Err _ => STR_TAG end.

Definition scalar_tag (explicit : option string) (quoted : bool) (value : string) : string :=
  match explicit with
  | Some tag => tag
  | None => if quoted then STR_TAG else if bool_decide (value = "<<") then MERGE_TAG else plain_tag value
  end.

(** ** Text *)

(** [char::is_whitespace] or a flow indicator. *)
Definition is_anchor_end (character : string) : bool :=
  char_whitespace character || bool_decide (character ∈ [","; "["; "]"; "{"; "}"]).

Fixpoint take_until (stop : string -> bool) (chars : list string) : string :=
  match chars with
  | [] => EmptyString
  | c :: chars => if stop c then EmptyString else c +:+ take_until stop chars
  end.

Fixpoint count_char (c : Ascii.ascii) (s : string) : Z :=
  match s with
  | EmptyString => 0
  | String d s => (if bool_decide (d = c) then 1 else 0) + count_char c s
  end.

(** U+FEFF. *)
Definition BYTE_ORDER_MARK : string := utf8_3 239 187 191.
Definition strip_bom (s : string) : string := default s (strip_prefix BYTE_ORDER_MARK s).

Definition is_blank (c : Ascii.ascii) : bool := bool_decide (c ∈ [" "%char; chr 9]).

(** [starts_with([' ', '\t'])]. *)
Definition starts_blank (s : string) : bool :=
  match s with String c _ => is_blank c | EmptyString => false end.

(** A line that is blank, a comment or a directive. *)
Definition skipped_line (l : string) : bool :=
  let content := trim_start is_blank l in
  bool_decide (content = "") || starts_with content "#" || starts_with l "%".

Fixpoint check_first_line (index : Z) (ls : list string) : result SyntaxError unit :=
  match ls with
  | [] => Ok tt
  | l :: ls =>
      if skipped_line l then check_first_line (index + 1) ls
      else match strip_prefix "..." l with
      | Some rest =>
          if bool_decide (rest = "") || starts_blank rest
          then Err (parser_error index "did not find expected node content") else Ok tt
      | None => Ok tt
      end
  end.

Definition check_leading_document_end (input : string) : result SyntaxError unit :=
  check_first_line 0 (strip_return <$> str_lines (strip_bom input)).

(** ** The reader *)

Inductive Stop := Syntax (e : SyntaxError) | Panicked.

Definition DIRECTIVE_AFTER_IMPLICIT_END : string :=
  "missing explicit document end marker before directive".
Definition UNKNOWN_ANCHOR : string := "while parsing node, found unknown anchor".
Definition MAX_DEPTH : Z := 10000.

Record Reader := {
  parser : Parser;
  anchors : gmap N nat;
  boundary : nat;
  documents : Z;
  directives_after_implicit_end : option nat;
}.

Section reader.
Context (input : string).

(** [Reader::offset]: the bytes of the characters before an index. *)
Definition offset (index : nat) : nat := String.length (concat_all (take index (utf8_chars input))).

(** [Reader::new]. *)
Definition Reader_new (events : Parser) : result SyntaxError Reader :=
  _ ← check_leading_document_end input;
  Ok {| parser := events; anchors := ∅; boundary := 0; documents := 0;
        directives_after_implicit_end := None |}.

Definition scan_error (e : ScanError) : SyntaxError :=
  if bool_decide (scan_info e = UNKNOWN_ANCHOR) then
    let start := offset (m_index (scan_marker e) + 1) in
    unknown_anchor_error (take_until is_anchor_end (utf8_chars (drop_bytes start input)))
  else scan e.

(** The version a [%YAML] line names, when it is such a directive. *)
Definition directive_version (l : string) : option string :=
  let l := strip_bom (trim_end (fun c => bool_decide (c ∈ [newline; return_char])) l) in
  version ← strip_prefix "%YAML" l;
  if starts_blank version then
    Some (take_until (fun c => bool_decide (c ∈ [" "; of_char (chr 9); "#"]))
            (utf8_chars (trim_start is_blank version)))
  else None.

(** The loop of [check_directives] over the lines, from a byte position; only the
    first line may start inside a line of the text. *)
Fixpoint check_lines (at_line_start : bool) (number : Z) (ls : list string) : result SyntaxError unit :=
  match ls with
  | [] => Ok tt
  | l :: ls =>
      let next := check_lines (ends_line l) (number + if ends_line l then 1 else 0) ls in
      if negb at_line_start then next
      else match directive_version l with
      | Some version =>
          if bool_decide (version <> "1.1")
          then Err (parser_error number "found incompatible YAML document") else next
      | None => next
      end
  end.

Definition check_directives (start stop : nat) : result Stop unit :=
  if (stop <? start)%nat then Err Panicked
  else
    let before := take_bytes start input in
    let at_line_start := (start =? 0)%nat || ends_line before in
    map_err Syntax (check_lines at_line_start (count_char newline before)
                      (split_inclusive (take_bytes (stop - start) (drop_bytes start input)))).

(** The bytes from the last [|] or [>] on. *)
Fixpoint from_indicator (s : string) : option string :=
  match s with
  | EmptyString => None
  | String c s' =>
      match from_indicator s' with
      | Some r => Some r
      | None => if bool_decide (c ∈ ["|"; ">"]%char) then Some s else None
      end
  end.

Definition scalar_line (style : ScalarStyle) (span : Span) : Z :=
  let line := m_line (span_start span) in
  match style with
  | Literal | Folded =>
      let before := take_bytes (offset (m_index (span_start span))) input in
      match from_indicator before with
      | Some rest => Z.max 0 (line - count_char newline rest)
      | None => line
      end
  | _ => line
  end.

Definition alias_name (span : Span) : string :=
  let start := offset (m_index (span_start span) + 1) in
  let stop := offset (m_index (span_end span)) in
  if (stop <? start)%nat then "" else take_bytes (stop - start) (drop_bytes start input).

(** [Reader::anchor]. *)
Definition anchor (id : N) (index : nat) (m : gmap N nat) : gmap N nat :=
  if bool_decide (id = 0%N) then m else <[id := index]> m.

(** The node of an event of a document, its tree and anchors after it, and whether
    it opens a collection. *)
Definition node_of (e : YEvent) (span : Span) (t : Tree) (m : gmap N nat)
    : result SyntaxError (nat * bool * Tree * gmap N nat) :=
  let l := m_line (span_start span) in
  match e with
  | Scalar value style id tag =>
      let quoted := negb (bool_decide (style = Plain)) in
      let n := {| kind := KScalar; tag := scalar_tag (explicit_tag tag) quoted value; value := value;
                  quoted := quoted; line := scalar_line style span; content := []; alias := None |} in
      let '(index, t) := push n t in Ok (index, false, t, anchor id index m)
  | Alias id =>
      let name := alias_name span in
      match m !! id with
      | None => Err (unknown_anchor_error name)
      | Some target =>
          let n := {| kind := KAlias; tag := ""; value := name; quoted := false; line := l; content := [];
                      alias := Some target |} in
          let '(index, t) := push n t in Ok (index, false, t, m)
      end
  | SequenceStart id tag =>
      let '(index, t) := push (new_node KSequence (default SEQ_TAG (explicit_tag tag)) l) t in
      Ok (index, true, t, anchor id index m)
  | MappingStart id tag =>
      let '(index, t) := push (new_node KMapping (default MAP_TAG (explicit_tag tag)) l) t in
      Ok (index, true, t, anchor id index m)
  | _ => Err (plain "did not find expected node content")
  end.

(** [Reader::build]: an event a turn, [open] the collections under way, innermost
    first. *)
Fixpoint build (events : Parser) (t : Tree) (m : gmap N nat) (open : list nat)
    : result SyntaxError (nat * Tree * gmap N nat * Parser) :=
  match events with
  | [] => Err (plain "did not find expected node content")
  | Err error :: _ => Err (scan_error error)
  | Ok (e, span) :: events =>
      match e with
      | SequenceEnd | MappingEnd =>
          match open with
          | [] => Err (plain "did not find expected node content")
          | [closed] => Ok (closed, t, m, events)
          | _ :: open => build events t m open
          end
      | _ =>
          '(index, opens, t, m) ← node_of e span t m;
          let t := match open with parent :: _ => push_content parent index t | [] => t end in
          if bool_decide (open = []) && negb opens then Ok (index, t, m, events)
          else if opens then
            if MAX_DEPTH <? Z.of_nat (S (length open))
            then Err (scan_line (m_line (span_start span)) "exceeded max depth of 10000")
            else build events t m (index :: open)
          else build events t m open
      end
  end.

Definition set_document (d : nat) (t : Tree) : Tree := {| nodes := nodes t; document := Some d |}.

(** The end of a document: what the parser answers next. *)
Definition document_end (t : Tree) (m : gmap N nat) (events : Parser) (r : Reader) (d : nat)
    : result Stop (Tree * Reader) :=
  let finish events boundary directives :=
    Ok (set_document d t,
        {| parser := events; anchors := m; boundary := boundary; documents := documents r + 1;
           directives_after_implicit_end := directives |}) in
  match events with
  | [] => finish [] (boundary r) (directives_after_implicit_end r)
  | Ok (_, span) :: events =>
      finish events (offset (m_index (span_start span))) (directives_after_implicit_end r)
  | Err error :: events =>
      if bool_decide (scan_info error = DIRECTIVE_AFTER_IMPLICIT_END) then
        let at_ := offset (m_index (scan_marker error)) in finish events at_ (Some at_)
      else Err (Syntax (scan_error error))
  end.

(** [Reader::document], over the events left. *)
Fixpoint document_from (events : Parser) (r : Reader) : result Stop (Tree * Reader) :=
  let at_end := {| parser := []; anchors := anchors r; boundary := boundary r; documents := documents r;
                   directives_after_implicit_end := directives_after_implicit_end r |} in
  match events with
  | [] => Ok (Tree_default, at_end)
  | Err error :: _ => Err (Syntax (scan_error error))
  | Ok (e, span) :: events =>
      match e with
      | StreamStart | Nothing => document_from events r
      | StreamEnd =>
          Ok (Tree_default,
              {| parser := events; anchors := anchors r; boundary := boundary r; documents := documents r;
                 directives_after_implicit_end := directives_after_implicit_end r |})
      | DocumentStart =>
          _ ← check_directives (boundary r) (offset (m_index (span_start span)));
          let '(d, t) := push (new_node KDocument "" (m_line (span_start span))) Tree_default in
          '(top, t, m, events) ← map_err Syntax (build events t ∅ []);
          document_end (push_content d top t) m events r d
      | _ => Err (Syntax (plain "did not find expected <document start>"))
      end
  end.

Definition read_document (r : Reader) : result Stop (Tree * Reader) := document_from (parser r) r.

(** ** After the first document *)

Definition white_end (s : string) : bool := forallb char_whitespace (utf8_chars s).

(** The bytes of the lines [directives_then_document] passes over. *)
Fixpoint directive_lines (ls : list string) : nat :=
  match ls with
  | [] => 0
  | l :: ls =>
      let content := trim_start is_blank l in
      if starts_with l "%" || white_end content || starts_with content "#"
      then (String.length l + directive_lines ls)%nat else 0
  end%nat.

Definition directives_then_document (start : nat) : result Stop bool :=
  let stop := (start + directive_lines (split_inclusive (drop_bytes start input)))%nat in
  _ ← check_directives start stop;
  match strip_prefix "---" (drop_bytes stop input) with
  | Some rest =>
      if match utf8_chars rest with [] => true | c :: _ => char_whitespace c end then Ok false
      else Err (Syntax (plain "did not find expected <document start>"))
  | None => Err (Syntax (plain "did not find expected <document start>"))
  end.

(** Whether a match of [pattern] that ends within [left] bytes is followed by the
    end of an anchor; matches do not overlap, [skip] bytes belong to the last. *)
Fixpoint anchored (pattern : string) (skip left : nat) (s : string) : bool :=
  match s with
  | EmptyString => false
  | String _ s' =>
      match skip with
      | S skip => anchored pattern skip (left - 1) s'
      | O =>
          match strip_prefix pattern s with
          | Some rest =>
              if (String.length pattern <=? left)%nat then
                match utf8_chars rest with [] => true | c :: _ => is_anchor_end c end
                || anchored pattern (String.length pattern - 1) (left - 1) s'
              else anchored pattern 0 (left - 1) s'
          | None => anchored pattern 0 (left - 1) s'
          end
      end
  end.

Definition anchored_before (name : string) (stop : nat) : bool := anchored ("&" +:+ name) 0 stop input.

(** [Reader::at_end]. *)
Definition at_end (r : Reader) : result Stop bool :=
  match directives_after_implicit_end r with
  | Some start => directives_then_document start
  | None =>
      match read_document r with
      | Ok (t, _) => Ok (match document t with None => true | Some _ => false end)
      | Err Panicked => Err Panicked
      | Err (Syntax error) =>
          match unknown_anchor error with
          | Some name => if anchored_before name (boundary r) then Ok false else Err (Syntax error)
          | None => Err (Syntax error)
          end
      end
  end.

End reader.

(** ** The shape pass *)

(** [Tree::deref]: the visited list bounds the turns. *)
Fixpoint deref_from (fuel : nat) (t : Tree) (visited : list nat) (i : nat) : option nat :=
  if bool_decide (kind (node t i) = KAlias) then
    if bool_decide (i ∈ visited) then None
    else match fuel with
    | O => None
    | S fuel => target ← alias (node t i); deref_from fuel t (i :: visited) target
    end
  else Some i.

Definition deref (t : Tree) (i : nat) : option nat := deref_from (S (length (nodes t))) t [] i.

Fixpoint has_shape_depth (depth : nat) (t : Tree) (i : nat) (s : Shape) : bool :=
  let n := node t i in
  let is_str := bool_decide (kind n = KScalar) && bool_decide (tag n = STR_TAG) in
  match s with
  | ShapeBool => bool_decide (kind n = KScalar) && bool_decide (tag n = BOOL_TAG)
  | NonEmptyString => is_str && negb (bool_decide (value n = ""))
  | ShapeString => is_str
  | NonEmptyStringList =>
      bool_decide (kind n = KSequence) &&
      match depth with
      | O => false
      | S depth =>
          forallb (fun item => match deref t item with
                               | Some item => has_shape_depth depth t item NonEmptyString
                               | None => false
                               end) (content n)
      end
  end.

(** [Tree::has_shape]: a list calls it once more, for its items. *)
Definition has_shape (t : Tree) (i : nat) (s : Shape) : bool := has_shape_depth 1 t i s.

(** [slice::chunks(2)], the pairs of a mapping. *)
Fixpoint pairs {A} (l : list A) : list (A * A) :=
  match l with a :: b :: l => (a, b) :: pairs l | _ => [] end.

Definition find_key (name : string) : option (string * Shape) :=
  head (filter (fun '(known, _) => known = name) KEYS).

Definition check_pair (t : Tree) (pair : nat * nat) : result ShapeError unit :=
  let key := node t pair.1 in
  if bool_decide (tag key = MERGE_TAG) || bool_decide (value key = "<<") then Err MergeKey
  else match find_key (value key) with
  | None => Ok tt
  | Some (name, shape) =>
      v ← ok_or (deref t pair.2) (AliasCycle (Some name));
      if has_shape t v shape then Ok tt else Err (WrongShape name shape)
  end.

Fixpoint check_pairs (t : Tree) (ps : list (nat * nat)) : result ShapeError unit :=
  match ps with
  | [] => Ok tt
  | p :: ps => _ ← check_pair t p; check_pairs t ps
  end.

Definition check_shapes (t : Tree) : result ShapeError unit :=
  r ← ok_or (root t) NotAMapping;
  r ← ok_or (deref t r) (AliasCycle None);
  if negb (bool_decide (kind (node t r) = KMapping)) then Err NotAMapping
  else check_pairs t (pairs (content (node t r))).
