(* ===== verification/YamlDecode.v ===== *)
(** * The strict decode of the configuration file

    src/config/yaml.rs, second part, and [load_file] of src/config/mod.rs: the
    decode of a tree into the schema, with the checks around it. A target is the
    place a value goes to with what it holds; the decoder's state is its errors,
    the aliases it is inside of and its counts. Nested calls take fuel, of which
    [DECODE_DEPTH] is enough. The counts are compared as [f64]s, on the
    specification of IEEE 754 of the standard library. *)

From Stdlib Require Import Floats.SpecFloat.
From S2P Require Import Prelude.
From S2P Require Import Text.
From S2P Require Import Utf8.
From S2P Require Import Resolve.
From S2P Require Import Policy.
From S2P Require Import Settings.
From S2P Require Import Yaml.

(** ** Errors *)

Inductive DecodeError := Unmarshal (errors : list string) | Fail (message : string).

Definition DecodeError_text (e : DecodeError) : string :=
  match e with
  | Unmarshal errors =>
      "yaml: unmarshal errors:" +:+ of_char newline +:+ "  " +:+ join (of_char newline +:+ "  ") errors
  | Fail message => "yaml: " +:+ message
  end.

Definition SCHEMA_TYPE : string := "config.FileSchema".

(** ** Targets *)

Inductive Target :=
  | TSchema (s : FileSchema)
  | TString (s : string)
  | TBool (b : bool)
  | TOptionalBool (b : option bool)
  | TList (l : option (list string)).

Definition type_name (t : Target) : string :=
  match t with
  | TSchema _ => SCHEMA_TYPE
  | TString _ => "string"
  | TBool _ => "bool"
  | TOptionalBool _ => "*bool"
  | TList _ => "[]string"
  end.

(** [FileSchema::field], and the field written back. *)
Definition field (s : FileSchema) (index : nat) : Target :=
  match index with
  | 0 => TString (f_log_format s)
  | 1 => TString (f_log_level s)
  | 2 => TOptionalBool (f_log_time s)
  | 3 => TString (f_docker_socket s)
  | 4 => TOptionalBool (f_dry_run s)
  | 5 => TString (f_policy_mode s)
  | 6 => TList (f_device_allow s)
  | 7 => TList (f_device_deny s)
  | 8 => TString (f_metrics_addr s)
  | _ => TString (f_debug_addr s)
  end%nat.

Definition as_string (t : Target) : string := match t with TString s => s | _ => "" end.
Definition as_bool (t : Target) : option bool := match t with TOptionalBool b => b | _ => None end.
Definition as_list (t : Target) : option (list string) := match t with TList l => l | _ => None end.

Definition set_field (s : FileSchema) (index : nat) (v : Target) : FileSchema :=
  {| f_log_format := if (index =? 0)%nat then as_string v else f_log_format s;
     f_log_level := if (index =? 1)%nat then as_string v else f_log_level s;
     f_log_time := if (index =? 2)%nat then as_bool v else f_log_time s;
     f_docker_socket := if (index =? 3)%nat then as_string v else f_docker_socket s;
     f_dry_run := if (index =? 4)%nat then as_bool v else f_dry_run s;
     f_policy_mode := if (index =? 5)%nat then as_string v else f_policy_mode s;
     f_device_allow := if (index =? 6)%nat then as_list v else f_device_allow s;
     f_device_deny := if (index =? 7)%nat then as_list v else f_device_deny s;
     f_metrics_addr := if (index =? 8)%nat then as_string v else f_metrics_addr s;
     f_debug_addr := if (9 <=? index)%nat then as_string v else f_debug_addr s |}.

(** ** The counts *)

Definition f64 (z : Z) : spec_float := binary_normalize 53 1024 z 0 false.
Definition F099 : spec_float := S754_finite false 8917127262193582 (-53).
Definition F010 : spec_float := S754_finite false 7205759403792794 (-56).
Definition F089 : spec_float := S754_finite false 8016407336719483 (-53).

Definition excessive_aliasing (alias_count decode_count : Z) : bool :=
  let LOW := 400000 in
  let HIGH := 4000000 in
  let allowed :=
    if decode_count <=? LOW then F099
    else if HIGH <=? decode_count then F010
    else
      let scaled := SFdiv 53 1024 (f64 (decode_count - LOW)) (f64 (HIGH - LOW)) in
      SFsub 53 1024 F099 (SFmul 53 1024 F089 scaled) in
  SFltb allowed (SFdiv 53 1024 (f64 alias_count) (f64 decode_count)).

(** ** The decoder *)

Record Decoder := {
  errors : list string;
  active_aliases : list nat;
  decode_count : Z;
  alias_count : Z;
  alias_depth : nat;
}.

Definition Decoder_new : Decoder :=
  {| errors := []; active_aliases := []; decode_count := 0; alias_count := 0; alias_depth := 0 |}.

(** A decode fails with yaml.v3's message, or the fuel ran out. *)
Inductive Failure := Failed (message : string) | OutOfFuel.

Definition DM (A : Type) : Type := Decoder -> result Failure (A * Decoder).

#[global] Instance DM_ret : MRet DM := fun A a d => Ok (a, d).
#[global] Instance DM_bind : MBind DM := fun A B k m d =>
  match m d with Ok (a, d) => k a d | Err e => Err e end.

Definition fail {A} (message : string) : DM A := fun _ => Err (Failed message).

Definition push_error (text : string) : DM unit := fun d =>
  Ok (tt, {| errors := errors d ++ [text]; active_aliases := active_aliases d;
             decode_count := decode_count d; alias_count := alias_count d; alias_depth := alias_depth d |}).

(** [Decoder::count]. *)
Definition count : DM unit := fun d =>
  let decodes := wrapu 64 (decode_count d + 1) in
  let aliases := if (0 <? alias_depth d)%nat then wrapu 64 (alias_count d + 1) else alias_count d in
  if (100 <? aliases) && (1000 <? decodes) && excessive_aliasing aliases decodes
  then Err (Failed "document contains excessive aliasing")
  else Ok (tt, {| errors := errors d; active_aliases := active_aliases d; decode_count := decodes;
                  alias_count := aliases; alias_depth := alias_depth d |}).

Definition enter_alias (i : nat) : DM unit := fun d =>
  Ok (tt, {| errors := errors d; active_aliases := i :: active_aliases d; decode_count := decode_count d;
             alias_count := alias_count d; alias_depth := S (alias_depth d) |}).

Definition leave_alias (i : nat) : DM unit := fun d =>
  Ok (tt, {| errors := errors d; active_aliases := filter (fun j => j <> i) (active_aliases d);
             decode_count := decode_count d; alias_count := alias_count d;
             alias_depth := Nat.pred (alias_depth d) |}).

Definition is_active (i : nat) : DM bool := fun d => Ok (bool_decide (i ∈ active_aliases d), d).

Definition indicated_string (n : Node) : bool :=
  bool_decide (kind n = KScalar)
  && (bool_decide (tag n = STR_TAG) || (bool_decide (tag n = "") && quoted n)).

(** [null]: whether the null was taken, and the target after it. *)
Definition null (t : Target) : bool * Target :=
  match t with
  | TOptionalBool _ => (true, TOptionalBool None)
  | TList _ => (true, TList None)
  | t => (false, t)
  end.

Definition TRUE_1_1 : list string := ["y"; "Y"; "yes"; "Yes"; "YES"; "on"; "On"; "ON"].
Definition FALSE_1_1 : list string := ["n"; "N"; "no"; "No"; "NO"; "off"; "Off"; "OFF"].

Definition yaml_1_1_bool (text : string) : option bool :=
  if bool_decide (text ∈ TRUE_1_1) then Some true
  else if bool_decide (text ∈ FALSE_1_1) then Some false else None.

(** The bytes of a decoded [!!binary] as text. *)
Definition string_of_bytes (bytes : list Z) : string :=
  concat_all ((fun b => of_char (chr (Z.to_nat b))) <$> bytes).

Section decode.
Context (t : Tree).

(** [Decoder::short_tag], of a node that is no alias to an alias. *)
Definition node_short_tag (i : nat) : string :=
  let n := node t i in
  if indicated_string n then STR_TAG
  else match kind n with
  | KAlias =>
      match alias n with
      | None => ""
      | Some target =>
          if indicated_string (node t target) then STR_TAG else tag (node t target)
      end
  | _ => tag n
  end.

Definition shown_value (tag value : string) : string :=
  if bool_decide (tag = SEQ_TAG) || bool_decide (tag = MAP_TAG) then ""
  else if (10 <? String.length value)%nat
  then " `" +:+ from_utf8_lossy (take_bytes 7 value) +:+ "...`"
  else " `" +:+ value +:+ "`".

(** [Decoder::type_error]. *)
Definition type_error (i : nat) (resolved_tag : string) (target : Target) : DM unit :=
  let n := node t i in
  let tag := if bool_decide (tag n = "") then resolved_tag else tag n in
  push_error ("line " +:+ pretty (line n) +:+ ": cannot unmarshal " +:+ short_tag tag
              +:+ shown_value tag (value n) +:+ " into " +:+ type_name target).

(** The tag and value [Decoder::scalar] works with. *)
Definition resolve_node (n : Node) : result Failure (option (string * Resolved)) :=
  if indicated_string n then Ok (Some (STR_TAG, Text (value n)))
  else
    '(tag, resolved) ← map_err Failed (resolve (tag n) (value n));
    if bool_decide (tag = BINARY_TAG) then
      match resolved with
      | Text encoded =>
          match decode_base64 encoded with
          | Some bytes => Ok (Some (tag, Text (from_utf8_lossy (string_of_bytes bytes))))
          | None => Err (Failed "!!binary value contains invalid base64 data")
          end
      | _ => Ok None
      end
    else Ok (Some (tag, resolved)).

Definition scalar (i : nat) (target : Target) : DM (bool * Target) :=
  let n := node t i in
  resolved ← (fun d => match resolve_node n with Ok r => Ok (r, d) | Err e => Err e end);
  match resolved with
  | None => mret (false, target)
  | Some (tag, resolved) =>
      let refuse := (_ ← type_error i tag target; mret (false, target)) in
      match target, resolved with
      | _, Null => mret (null target)
      | TString _, Text text =>
          mret (true, TString (if bool_decide (tag = BINARY_TAG) then text else value n))
      | TString _, _ => mret (true, TString (value n))
      | TBool _, Bool flag => mret (true, TBool flag)
      | TBool _, Text text =>
          match yaml_1_1_bool text with
          | Some flag => mret (true, TBool flag)
          | None => refuse
          end
      | _, _ => refuse
      end
  end.

(** The duplicate keys [Decoder::mapping] reports, in its order. *)
Definition duplicates_of (first : nat) (rest : list nat) : list string :=
  let a := node t first in
  omap (fun second =>
    let b := node t second in
    if bool_decide (kind a = kind b) && bool_decide (value a = value b)
    then Some ("line " +:+ pretty (line b) +:+ ": mapping key " +:+ quote (value b)
               +:+ " already defined at line " +:+ pretty (line a))
    else None) rest.

Fixpoint duplicate_keys (keys : list nat) : list string :=
  match keys with [] => [] | k :: keys => duplicates_of k keys ++ duplicate_keys keys end.

(** [iter().step_by(2)]. *)
Fixpoint every_other {A} (l : list A) : list A :=
  match l with a :: _ :: l => a :: every_other l | [a] => [a] | [] => [] end.

Fixpoint push_errors (texts : list string) : DM unit :=
  match texts with [] => mret tt | e :: texts => _ ← push_error e; push_errors texts end.

Definition key_index (name : string) : option nat :=
  fst <$> list_find (fun known => known.1 = name) KEYS.

Section nested.
Context (unmarshal : nat -> Target -> DM (bool * Target)).

(** The loop of [Decoder::sequence]. *)
Fixpoint sequence_items (items : list nat) : DM (list string) :=
  match items with
  | [] => mret []
  | item :: items =>
      _ ← count;
      '(set, text) ← unmarshal item (TString "");
      rest ← sequence_items items;
      mret (if (set : bool) then as_string text :: rest else rest)
  end.

Definition sequence (i : nat) (target : Target) : DM (bool * Target) :=
  match target with
  | TList _ => items ← sequence_items (content (node t i)); mret (true, TList (Some items))
  | _ => _ ← type_error i SEQ_TAG target; mret (false, target)
  end.

(** The loop of [Decoder::mapping_struct]; [done] are the fields set. *)
Fixpoint mapping_fields (ps : list (nat * nat)) (seen : list nat) (s : FileSchema) : DM FileSchema :=
  match ps with
  | [] => mret s
  | (key, v) :: ps =>
      _ ← count;
      '(set, text) ← unmarshal key (TString "");
      if negb set then mapping_fields ps seen s
      else
        let name := as_string text in
        let at_line := "line " +:+ pretty (line (node t key)) +:+ ": field " +:+ name in
        match key_index name with
        | None =>
            _ ← push_error (at_line +:+ " not found in type " +:+ SCHEMA_TYPE); mapping_fields ps seen s
        | Some index =>
            if bool_decide (index ∈ seen) then
              _ ← push_error (at_line +:+ " already set in type " +:+ SCHEMA_TYPE); mapping_fields ps seen s
            else
              _ ← count;
              '(_, target) ← unmarshal v (field s index);
              mapping_fields ps (index :: seen) (set_field s index target)
        end
  end.

Definition mapping (i : nat) (target : Target) : DM (bool * Target) :=
  let n := node t i in
  match duplicate_keys (every_other (content n)) with
  | [] =>
      match target with
      | TSchema s => s ← mapping_fields (pairs (content n)) [] s; mret (true, TSchema s)
      | _ => _ ← type_error i MAP_TAG target; mret (false, target)
      end
  | duplicates => _ ← push_errors duplicates; mret (false, target)
  end.

Definition unmarshal_value (i : nat) (target : Target) : DM (bool * Target) :=
  match kind (node t i) with
  | KScalar => scalar i target
  | KSequence => sequence i target
  | KMapping => mapping i target
  | KDocument | KAlias => mret (false, target)
  end.

(** [Decoder::alias]; a failure leaves no state behind. *)
Definition unmarshal_alias (i : nat) (target : Target) : DM (bool * Target) :=
  active ← is_active i;
  if (active : bool) then fail ("anchor '" +:+ value (node t i) +:+ "' value contains itself")
  else match alias (node t i) with
  | None => mret (false, target)
  | Some aliased =>
      _ ← enter_alias i; _ ← count; r ← unmarshal aliased target; _ ← leave_alias i; mret r
  end.

(** A pointer is allocated and followed unless the node is null. *)
Definition unmarshal_plain (i : nat) (target : Target) : DM (bool * Target) :=
  match target with
  | TOptionalBool _ =>
      if bool_decide (node_short_tag i = NULL_TAG) then unmarshal_value i target
      else
        '(set, v) ← unmarshal_value i (TBool false);
        mret (set : bool, TOptionalBool (Some (match v with TBool b => b | _ => false end)))
  | _ => unmarshal_value i target
  end.

End nested.

(** [Decoder::unmarshal]. *)
Fixpoint unmarshal (fuel : nat) (i : nat) (target : Target) : DM (bool * Target) :=
  match fuel with
  | O => fun _ => Err OutOfFuel
  | S fuel =>
      match kind (node t i) with
      | KDocument =>
          match content (node t i) with
          | [] => mret (false, target)
          | top :: _ => _ ← count; '(_, target) ← unmarshal fuel top target; mret (true, target)
          end
      | KAlias => unmarshal_alias (unmarshal fuel) i target
      | _ => unmarshal_plain (unmarshal fuel) i target
      end
  end.

End decode.

(** The document, an alias, its mapping, an alias of a value, its list, an alias of
    an item and its string: no call is nested deeper ([decode_enough]). *)
Definition DECODE_DEPTH : nat := 7.

(** [Tree::decode]. *)
Definition decode (t : Tree) : result Failure (result DecodeError FileSchema) :=
  match document t with
  | None => Ok (Ok FileSchema_default)
  | Some d =>
      '((_, target), decoder) ←
        (_ ← count; unmarshal t DECODE_DEPTH d (TSchema FileSchema_default)) Decoder_new;
      Ok (match errors decoder with
          | [] => Ok (match target with TSchema s => s | _ => FileSchema_default end)
          | errors => Err (Unmarshal errors)
          end)
  end.

(** ** Loading the file (config/mod.rs) *)

Inductive FileError :=
  | FileShape (e : ShapeError)
  | FileDecode (e : DecodeError)
  | TrailingContent (e : SyntaxError)
  | MultipleDocuments
  | FileEnum (e : EnumError).

Definition FileError_text (e : FileError) : string :=
  match e with
  | FileShape e => ShapeError_text e
  | FileDecode e => "decode: " +:+ DecodeError_text e
  | TrailingContent e => "parse trailing content: " +:+ SyntaxError_text e
  | MultipleDocuments => "multiple YAML documents"
  | FileEnum e => EnumError_text e
  end.

(** [LoadPanicked] is a panic of the source or the fuel of the decode. *)
Inductive LoadError :=
  | ReadFailed (path operation : string) (errno : Z)
  | ParseFailed (path : string) (e : SyntaxError)
  | FileRefused (path : string) (e : FileError)
  | LoadPanicked.

Definition LoadError_text (io_error_text : Z -> string) (e : LoadError) : string :=
  match e with
  | ReadFailed path operation errno =>
      "read config file " +:+ quote path +:+ ": " +:+ operation +:+ " " +:+ path +:+ ": " +:+ io_error_text errno
  | ParseFailed path e => "parse config file " +:+ quote path +:+ ": " +:+ SyntaxError_text e
  | FileRefused path e => "config file " +:+ quote path +:+ ": " +:+ FileError_text e
  | LoadPanicked => ""
  end.

(** [read_file]: the open and the read are the system's. *)
Definition read_file (path : string) (opened : result Z unit) (read : result Z string)
    : result LoadError string :=
  _ ← map_err (ReadFailed path "open") opened; map_err (ReadFailed path "read") read.

Section load.
Context (events : string -> Parser).

Definition stopped (f : SyntaxError -> LoadError) (s : Stop) : LoadError :=
  match s with Syntax e => f e | Panicked => LoadPanicked end.

Definition single_document (path input : string) (r : Reader) : result LoadError unit :=
  match at_end input r with
  | Ok true => Ok tt
  | Ok false => Err (FileRefused path MultipleDocuments)
  | Err e => Err (stopped (fun e => FileRefused path (TrailingContent e)) e)
  end.

Definition decode_document (path : string) (t : Tree) : result LoadError FileSchema :=
  match decode t with
  | Ok (Ok schema) => Ok schema
  | Ok (Err e) => Err (FileRefused path (FileDecode e))
  | Err (Failed message) => Err (FileRefused path (FileDecode (Fail message)))
  | Err OutOfFuel => Err LoadPanicked
  end.

Definition load_file (path : string) (opened : result Z unit) (read : result Z string)
    : result LoadError FileSchema :=
  if bool_decide (path = "") then Ok FileSchema_default
  else
    data ← read_file path opened read;
    text ← ok_or (from_utf8 data) (ParseFailed path invalid_utf8);
    reader ← map_err (ParseFailed path) (Reader_new text (events text));
    '(t, reader) ← map_err (stopped (ParseFailed path)) (read_document text reader);
    if is_empty_document t then
      _ ← single_document path text reader; Ok FileSchema_default
    else
      _ ← map_err (fun e => FileRefused path (FileShape e)) (check_shapes t);
      schema ← decode_document path t;
      _ ← single_document path text reader;
      _ ← map_err (fun e => FileRefused path (FileEnum e))
        (validate_enums (f_log_format schema) (f_log_level schema) (f_policy_mode schema) "key");
      Ok schema.

End load.
