(* ===== verification/YamlProofs.v ===== *)
(** * What the reader of the configuration file builds and accepts

    Every tree the reader builds is well formed: its indices are in range and an
    alias leads in one step to a node that is no alias. On such a tree the passes
    always end, and what they accept together sets each field exactly as the file
    says, as long as the keys are strings. *)

From S2P Require Import Prelude.
From S2P Require Import Text.
From S2P Require Import Utf8.
From S2P Require Import Resolve.
From S2P Require Import Settings.
From S2P Require Import Yaml.
From S2P Require Import YamlDecode.

(** ** Well-formed trees *)

Definition valid (t : Tree) (i : nat) : Prop :=
  (i < length (nodes t))%nat /\ kind (node t i) <> KDocument.

(** What an anchor names. *)
Definition anchorable (t : Tree) (i : nat) : Prop := valid t i /\ kind (node t i) <> KAlias.

Record node_ok (t : Tree) (n : Node) : Prop := {
  no_content : Forall (valid t) (content n);
  no_alias : kind n = KAlias -> exists a, alias n = Some a /\ anchorable t a;
}.

Definition nodes_ok (t : Tree) : Prop := Forall (node_ok t) (nodes t).

Record tree_ok (t : Tree) : Prop := {
  to_nodes : nodes_ok t;
  to_document d : document t = Some d ->
    (d < length (nodes t))%nat /\ kind (node t d) = KDocument /\ exists top, content (node t d) = [top];
}.

(** A tree that only got more nodes and more contents. *)
Definition grown (t t' : Tree) : Prop :=
  (length (nodes t) <= length (nodes t'))%nat /\
  forall i, (i < length (nodes t))%nat -> kind (node t' i) = kind (node t i).

#[local] Instance grown_preorder : PreOrder grown.
Proof.
  split; [by split|]. intros t1 t2 t3 [L1 K1] [L2 K2]. split; [lia|].
  intros i Hi. rewrite K2, K1; [done|lia|lia].
Qed.

Lemma valid_grown t t' i : grown t t' -> valid t i -> valid t' i.
Proof. intros [L K] [Hi Hk]. split; [lia|by rewrite K]. Qed.

Lemma anchorable_grown t t' i : grown t t' -> anchorable t i -> anchorable t' i.
Proof. intros G [Hv Hk]. split; [by eapply valid_grown|]. destruct G as [_ K]. by rewrite K by apply Hv. Qed.

Lemma node_ok_grown t t' n : grown t t' -> node_ok t n -> node_ok t' n.
Proof.
  intros G [Hc Ha]. split.
  - eapply Forall_impl; [exact Hc|]. intros i. by apply valid_grown.
  - intros Hk. destruct (Ha Hk) as (a & E & H). exists a. split; [done|]. by eapply anchorable_grown.
Qed.

Lemma push_grown n t : grown t (push n t).2.
Proof.
  split; cbn; [rewrite length_app; lia|]. intros i Hi. unfold node. cbn. by rewrite lookup_app_l.
Qed.

Lemma push_node n t : node (push n t).2 (push n t).1 = n.
Proof. unfold node. cbn. by rewrite lookup_app_r, Nat.sub_diag. Qed.

Lemma push_ok n t : nodes_ok t -> node_ok (push n t).2 n -> nodes_ok (push n t).2.
Proof.
  intros Ht Hn. unfold nodes_ok. cbn. apply Forall_app. split; [|by constructor].
  eapply Forall_impl; [exact Ht|]. intros x. apply node_ok_grown, push_grown.
Qed.

Lemma lookup_node t i n : nodes t !! i = Some n -> node t i = n.
Proof. unfold node. by intros ->. Qed.

Lemma push_content_node parent child t i :
  node (push_content parent child t) i =
  if bool_decide (i = parent) then
    match nodes t !! i with Some n => add_child child n | None => no_node end
  else node t i.
Proof.
  unfold node, push_content. cbn. case_bool_decide as Hi.
  - subst. rewrite list_lookup_alter_eq. by destruct (nodes t !! parent).
  - by rewrite list_lookup_alter_ne.
Qed.

Lemma push_content_grown parent child t : grown t (push_content parent child t).
Proof.
  split; [unfold push_content; cbn; by rewrite length_alter|]. intros i Hi. rewrite push_content_node.
  case_bool_decide; [|done]. unfold node. by destruct (nodes t !! i) eqn:E.
Qed.

Lemma push_content_ok parent child t :
  nodes_ok t -> valid t child -> nodes_ok (push_content parent child t).
Proof.
  intros Ht Hc. pose proof (push_content_grown parent child t) as G.
  unfold nodes_ok. apply Forall_lookup. intros i n Hn. unfold push_content in Hn. cbn in Hn.
  rewrite list_lookup_alter in Hn. case_decide as Hi.
  - destruct (nodes t !! parent) as [n'|] eqn:Hn'; cbn in Hn; [|done]. injection Hn as <-. rename Hn' into Hn.
    destruct (Forall_lookup_1 _ _ _ _ Ht Hn) as [Hcont Ha]. split; cbn.
    + apply Forall_app. split; [|constructor; [by eapply valid_grown|done]].
      eapply Forall_impl; [exact Hcont|]. intros j. by apply valid_grown.
    + intros Hk. destruct (Ha Hk) as (a & E & H). exists a. split; [done|]. by eapply anchorable_grown.
  - eapply node_ok_grown; [done|]. by eapply Forall_lookup_1 in Ht.
Qed.

(** ** Building *)

Definition anchors_ok (t : Tree) (m : gmap N nat) : Prop := forall id a, m !! id = Some a -> anchorable t a.

Lemma anchors_grown t t' m : grown t t' -> anchors_ok t m -> anchors_ok t' m.
Proof. intros G H id a Ha. by eapply anchorable_grown, H. Qed.

Lemma anchor_ok t id i m : anchors_ok t m -> anchorable t i -> anchors_ok t (anchor id i m).
Proof.
  intros Hm Hi. unfold anchor. case_bool_decide; [done|]. intros id' a.
  destruct (decide (id = id')) as [->|]; [rewrite lookup_insert_eq; by intros [= <-]|].
  rewrite lookup_insert_ne by done. apply Hm.
Qed.

Lemma pushed_valid n t : kind n <> KDocument -> valid (push n t).2 (push n t).1.
Proof. intros Hk. split; [cbn; rewrite length_app; cbn; lia|]. by rewrite push_node. Qed.

Lemma pushed_anchorable n t : kind n <> KDocument -> kind n <> KAlias -> anchorable (push n t).2 (push n t).1.
Proof. intros Hd Ha. split; [by apply pushed_valid|]. by rewrite push_node. Qed.

(** A leaf or an empty collection. *)
Lemma fresh_ok t n : content n = [] -> kind n <> KAlias -> node_ok t n.
Proof. intros Hc Ha. split; [by rewrite Hc|done]. Qed.

(** The node an event pushes, whose facts [Hnew] gives. *)
Ltac fresh_node H Hnew id :=
  injection H as <- <- <- <-;
  match goal with |- nodes_ok {| nodes := _ ++ [?n]; document := _ |} /\ _ =>
    destruct (Hnew n id) as (? & ? & ? & ? & ? & ?); [done..|]
  end;
  split_and!; auto; done.

Lemma node_of_ok input e span t m i opens t' m' :
  node_of input e span t m = Ok (i, opens, t', m') ->
  nodes_ok t -> anchors_ok t m ->
  nodes_ok t' /\ anchors_ok t' m' /\ grown t t' /\ valid t' i /\ document t' = document t /\
  (opens = true -> anchorable t' i).
Proof.
  intros H Ht Hm.
  assert (Hnew : forall n id, content n = [] -> kind n <> KAlias -> kind n <> KDocument ->
    nodes_ok (push n t).2 /\ anchors_ok (push n t).2 (anchor id (push n t).1 m) /\ grown t (push n t).2 /\
    valid (push n t).2 (push n t).1 /\ document (push n t).2 = document t /\
    (true = true -> anchorable (push n t).2 (push n t).1)).
  { intros n id Hc Ha Hd. pose proof (push_grown n t) as G. split_and!; auto using pushed_valid, pushed_anchorable.
    - apply push_ok; [done|]. by apply fresh_ok.
    - apply anchor_ok; [by eapply anchors_grown|by apply pushed_anchorable]. }
  destruct e as [| | | | |id|v style id tg|id tg| |id tg|]; cbn in H; try discriminate H.
  - destruct (m !! id) as [target|] eqn:Em; [|discriminate H]. injection H as <- <- <- <-.
    match goal with |- nodes_ok {| nodes := nodes t ++ [?n]; document := _ |} /\ _ => set (new := n) end.
    pose proof (push_grown new t) as G. split_and!; auto.
    + apply (push_ok new); [done|]. split; [done|]. intros _. exists target. split; [done|].
      eapply anchorable_grown; [exact G|]. by eapply Hm.
    + by eapply anchors_grown.
    + by apply (pushed_valid new).
    + done.
  - fresh_node H Hnew id.
  - fresh_node H Hnew id.
  - fresh_node H Hnew id.
Qed.

(** A document's node is left alone. *)
Definition documents_kept (t t' : Tree) : Prop :=
  forall d, (d < length (nodes t))%nat -> kind (node t d) = KDocument -> node t' d = node t d.

Lemma kept_trans t1 t2 t3 :
  grown t1 t2 -> documents_kept t1 t2 -> documents_kept t2 t3 -> documents_kept t1 t3.
Proof. intros [L K] H1 H2 d Hd Hk. rewrite H2; [by apply H1|lia|by rewrite K]. Qed.

Lemma node_of_kept input e span t m i opens t' m' :
  node_of input e span t m = Ok (i, opens, t', m') -> documents_kept t t'.
Proof.
  intros H d Hd _. destruct e as [| | | | |id|v style id tg|id tg| |id tg|]; cbn in H; try discriminate H.
  1: destruct (m !! id); [|discriminate H].
  all: injection H as <- <- <- <-; unfold node; cbn; by rewrite lookup_app_l.
Qed.

Record grown_ok (t t' : Tree) (m' : gmap N nat) : Prop := {
  go_nodes : nodes_ok t';
  go_anchors : anchors_ok t' m';
  go_grown : grown t t';
  go_kept : documents_kept t t';
}.

(** One node of the loop, with its parent. *)
Lemma build_node_ok input e span t m i opens t1 m' open :
  node_of input e span t m = Ok (i, opens, t1, m') ->
  nodes_ok t -> anchors_ok t m -> Forall (anchorable t) open ->
  let t' := match open with parent :: _ => push_content parent i t1 | [] => t1 end in
  grown_ok t t' m' /\ valid t' i /\ (opens = true -> anchorable t' i) /\ Forall (anchorable t') open.
Proof.
  intros H Ht Hm Ho t'. destruct (node_of_ok _ _ _ _ _ _ _ _ _ H Ht Hm) as (Ht1 & Hm1 & G1 & Hi & _ & Hop).
  pose proof (node_of_kept _ _ _ _ _ _ _ _ _ H) as K1.
  assert (G : grown t1 t') by (subst t'; destruct open; [done|apply push_content_grown]).
  assert (Ho' : Forall (anchorable t') open).
  { eapply Forall_impl; [exact Ho|]. intros p Hp. eapply anchorable_grown; [|exact Hp]. by etrans. }
  split_and!; [|by eapply valid_grown|intros; eapply anchorable_grown; [exact G|auto]|done].
  split; [|by eapply anchors_grown|by etrans|].
  - subst t'. destruct open; [done|]. by apply push_content_ok.
  - eapply kept_trans; [exact G1|exact K1|]. subst t'. destruct open as [|p open]; [by intros ???|].
    intros d Hd Hk. rewrite push_content_node. rewrite bool_decide_eq_false_2; [done|]. intros ->.
    apply Forall_cons in Ho as [[[Hp Hkp] _] _]. destruct G1 as [_ K]. by rewrite K in Hk by done.
Qed.

Lemma build_ok input events t m open top t' m' rest :
  build input events t m open = Ok (top, t', m', rest) ->
  nodes_ok t -> anchors_ok t m -> Forall (anchorable t) open ->
  grown_ok t t' m' /\ valid t' top.
Proof.
  revert t m open. induction events as [|[[e span]|error] events IH]; intros t m open H Ht Hm Ho; try discriminate H.
  assert (Hnode : forall e', e' = e -> (forall i opens t1 m1, node_of input e span t m = Ok (i, opens, t1, m1) ->
      (let t2 := match open with parent :: _ => push_content parent i t1 | [] => t1 end in
       if bool_decide (open = []) && negb opens then Ok (i, t2, m1, events)
       else if opens then
         if MAX_DEPTH <? Z.of_nat (S (length open))
         then Err (scan_line (m_line (span_start span)) "exceeded max depth of 10000")
         else build input events t2 m1 (i :: open)
       else build input events t2 m1 open) = Ok (top, t', m', rest) -> grown_ok t t' m' /\ valid t' top)).
  { intros _ _ i opens t1 m1 Hn. cbv zeta.
    destruct (build_node_ok _ _ _ _ _ _ _ _ _ open Hn Ht Hm Ho) as (HG & Hi & Hop & Ho').
    set (t2 := match open with parent :: _ => push_content parent i t1 | [] => t1 end) in *.
    assert (Hstep : grown_ok t2 t' m' /\ valid t' top -> grown_ok t t' m' /\ valid t' top).
    { intros [[? ? G2 K2] ?]. destruct HG as [_ _ G K]. split; [|done]. split; [done..|by etrans|by eapply kept_trans]. }
    destruct HG as [Hn2 Hm2 _ _].
    destruct (bool_decide (open = []) && negb opens); [intros [= <- <- <- <-]; apply Hstep; split; [by split|done]|].
    destruct opens.
    - destruct (MAX_DEPTH <? _); [done|]. intros Hb. apply Hstep. eapply IH; [exact Hb|done..|].
      constructor; auto.
    - intros Hb. apply Hstep. by eapply IH. }
  specialize (Hnode e eq_refl). cbn [build] in H.
  destruct e; try (apply bind_Ok in H as ([[[i opens] t1] m1] & Hn & H); by eapply Hnode).
  all: destruct open as [|closed [|p open]]; [discriminate H| |].
  1,3: injection H as <- <- <- <-; apply Forall_cons in Ho as [[Hc _] _]; split; [by split|done].
  all: eapply IH; [exact H|done..|]; apply Forall_cons in Ho as [_ Ho]; done.
Qed.

Lemma read_document_ok input r t r' : read_document input r = Ok (t, r') -> tree_ok t.
Proof.
  unfold read_document. generalize (parser r) as events. intros events. revert r.
  assert (Hdefault : tree_ok Tree_default) by (split; [by apply Forall_nil_2|done]).
  induction events as [|[[e span]|error] events IH]; intros r H; cbn in H; simplify_eq; [done|].
  destruct e; simplify_eq; try done; try by eapply IH.
  apply bind_Ok in H as ([] & _ & H). apply bind_Ok in H as ([[[top t1] m] rest] & Hb & H).
  apply map_err_Ok in Hb. set (doc := new_node KDocument "" (m_line (span_start span))) in *.
  set (t0 := {| nodes := [doc]; document := None |}) in *.
  assert (H0 : nodes_ok t0) by (apply Forall_singleton; split; [done|by intros]).
  destruct (build_ok _ _ _ _ _ _ _ _ _ Hb H0) as ([Hn _ [L K] Kept] & Htop);
    [intros id a Ha; by rewrite lookup_empty in Ha|done|].
  assert (Ht : t = set_document 0 (push_content 0 top t1)).
  { unfold document_end in H. destruct rest as [|[[e' span']|error] rest]; [by simplify_eq..|].
    by destruct (bool_decide _); simplify_eq. }
  assert (Hd : nodes t1 !! 0%nat = Some doc).
  { specialize (Kept 0%nat ltac:(cbn; lia) eq_refl). unfold node in Kept. cbn in Kept, L.
    destruct (nodes t1 !! 0%nat) eqn:E; [by simplify_eq/=|]. apply lookup_ge_None in E. lia. }
  subst t. split.
  - eapply Forall_impl; [exact (push_content_ok 0 top t1 Hn Htop)|]. intros n. by apply node_ok_grown.
  - intros d [= <-]. pose proof (push_content_node 0 top t1 0) as En. rewrite Hd in En. cbn in En.
    unfold node in *. cbn in *. rewrite En. split_and!; [rewrite length_alter; lia|done|by exists top].
Qed.

(** ** Aliases lead somewhere *)

Lemma valid_lookup t i : valid t i -> exists n, nodes t !! i = Some n /\ node t i = n.
Proof.
  intros [Hi _]. apply lookup_lt_is_Some in Hi as [n Hn]. exists n. split; [done|by apply lookup_node].
Qed.

Lemma ok_node t i : nodes_ok t -> valid t i -> node_ok t (node t i).
Proof.
  intros Ht Hi. destruct (valid_lookup t i Hi) as (n & Hn & ->). by eapply Forall_lookup_1 in Ht.
Qed.

Lemma deref_anchorable t i : nodes_ok t -> anchorable t i -> deref t i = Some i.
Proof. intros _ [_ Hk]. unfold deref. cbn. by rewrite bool_decide_eq_false_2. Qed.

(** Following an alias is one step. *)
Lemma deref_valid t i :
  nodes_ok t -> valid t i ->
  exists j, deref t i = Some j /\ anchorable t j /\
    (kind (node t i) = KAlias -> alias (node t i) = Some j) /\ (kind (node t i) <> KAlias -> j = i).
Proof.
  intros Ht Hi. destruct (decide (kind (node t i) = KAlias)) as [Hk|Hk].
  - destruct (no_alias _ _ (ok_node t i Ht Hi) Hk) as (a & Ha & Hanch). exists a. split_and!; [|done|done|done].
    unfold deref. cbn [deref_from]. rewrite bool_decide_eq_true_2 by done. cbn [elem_of].
    rewrite bool_decide_eq_false_2 by apply not_elem_of_nil. rewrite Ha. cbn [mbind option_bind].
    destruct Hanch as [[Hlt _] Hka]. destruct (length (nodes t)) as [|fuel] eqn:El; [lia|].
    cbn [deref_from]. by rewrite bool_decide_eq_false_2.
  - exists i. split_and!; [by apply deref_anchorable|done|done|done].
Qed.

Lemma root_valid t r : tree_ok t -> root t = Some r -> valid t r.
Proof.
  intros [Hn Hd] Hr. unfold root in Hr. destruct (document t) as [d|]; cbn in Hr; [|done].
  destruct (Hd d eq_refl) as (Hlt & Hk & top & Hc). rewrite Hc in Hr. injection Hr as <-.
  destruct (lookup_lt_is_Some_2 _ _ Hlt) as [n En]. pose proof (lookup_node _ _ _ En) as E.
  pose proof (Forall_lookup_1 _ _ _ _ Hn En) as [Hv _]. rewrite <- E, Hc in Hv.
  by apply Forall_cons in Hv as [? _].
Qed.

Lemma pairs_elem {A} (l : list A) k v : (k, v) ∈ pairs l -> k ∈ l /\ v ∈ l.
Proof.
  cut (forall n (l : list A), (length l <= n)%nat -> (k, v) ∈ pairs l -> k ∈ l /\ v ∈ l);
    [intros H; by eapply H|].
  clear l. induction n as [|n IH]; intros [|a [|b l]] Hl H; cbn in *; try (by apply not_elem_of_nil in H); [lia|].
  apply elem_of_cons in H as [[= -> ->]|H]; [split; [by left|right; by left]|].
  destruct (IH l ltac:(lia) H). split; by right; right.
Qed.

Lemma content_valid t i k v : nodes_ok t -> valid t i -> (k, v) ∈ pairs (content (node t i)) -> valid t k /\ valid t v.
Proof.
  intros Ht Hi [Hk Hv]%pairs_elem. destruct (ok_node t i Ht Hi) as [Hc _]. rewrite Forall_forall in Hc. auto.
Qed.

(** ** The decode ends *)

Definition ends {A} (m : DM A) : Prop := forall d, m d <> Err OutOfFuel.

Lemma ends_ret {A} (a : A) : ends (mret a).
Proof. done. Qed.

Lemma ends_bind {A B} (m : DM A) (k : A -> DM B) : ends m -> (forall a, ends (k a)) -> ends (m ≫= k).
Proof.
  intros Hm Hk d. unfold mbind, DM_bind. destruct (m d) as [[a d']|e] eqn:E; [apply Hk|].
  intros [= ->]. by apply (Hm d).
Qed.

Lemma ends_count : ends count.
Proof. intros d. unfold count. by destruct (_ && _). Qed.

Lemma ends_push_error e : ends (push_error e).
Proof. done. Qed.

Lemma ends_push_errors es : ends (push_errors es).
Proof. induction es as [|e es IH]; [done|]. apply ends_bind; [done|auto]. Qed.

Lemma ends_refuse t i tg target : ends (_ ← type_error t i tg target; mret (false, target)).
Proof. apply ends_bind; [done|by intros]. Qed.

Lemma ends_scalar t i target : ends (scalar t i target).
Proof.
  unfold scalar. apply ends_bind.
  - intros d. unfold resolve_node. destruct (indicated_string _); [done|].
    destruct (resolve _ _) as [[tg res]|e]; cbn; [|done]. case_bool_decide; [|done].
    destruct res; try done. by destruct (decode_base64 _).
  - intros [[tg res]|]; [|done]. destruct target, res; try done; try apply ends_refuse.
    destruct (yaml_1_1_bool text); [done|apply ends_refuse].
Qed.

#[local] Hint Resolve ends_ret ends_count ends_push_error ends_push_errors ends_refuse ends_scalar : sda.

(** Targets without nested values. *)
Definition is_leaf (target : Target) : bool :=
  match target with TString _ | TBool _ | TOptionalBool _ => true | _ => false end.

Lemma ends_value_leaf t u i target : is_leaf target = true -> ends (unmarshal_value t u i target).
Proof.
  intros Hl. unfold unmarshal_value, sequence, mapping. destruct (kind (node t i)); auto with sda.
  - destruct target; try done; auto with sda.
  - destruct (duplicate_keys _ _); [destruct target; try done; auto with sda|].
    apply ends_bind; auto with sda.
Qed.

Lemma ends_plain t u i target : (forall target', is_leaf target' = true \/ target' = target ->
  ends (unmarshal_value t u i target')) -> ends (unmarshal_plain t u i target).
Proof.
  intros Hv. unfold unmarshal_plain. destruct target; try (apply Hv; auto).
  case_bool_decide; [apply Hv; auto|]. apply ends_bind; [apply Hv; auto|]. intros [set v]. auto with sda.
Qed.

(** With [n] calls left, a value that is no alias is decoded to its end; an alias
    costs one more. *)
Definition enough (t : Tree) (n : nat) (target : Target) : Prop :=
  forall fuel i, (n <= fuel)%nat -> anchorable t i -> ends (unmarshal t fuel i target).

Lemma enough_alias t n target fuel i :
  nodes_ok t -> enough t n target -> (S n <= fuel)%nat -> valid t i -> ends (unmarshal t fuel i target).
Proof.
  intros Ht Hn Hf Hi. destruct (decide (kind (node t i) = KAlias)) as [Hk|Hk].
  - destruct (no_alias _ _ (ok_node t i Ht Hi) Hk) as (a & Ha & Hanch).
    destruct fuel as [|fuel]; [lia|]. cbn [unmarshal]. rewrite Hk.
    unfold unmarshal_alias. apply ends_bind; [done|]. intros []; [done|]. rewrite Ha.
    repeat (apply ends_bind; [first [done|apply ends_count|apply Hn; [lia|done]]|intros]). done.
  - apply Hn; [lia|by split].
Qed.

Lemma enough_plain t n target :
  (0 < n)%nat ->
  (forall fuel i, (n <= S fuel)%nat -> anchorable t i -> ends (unmarshal_plain t (unmarshal t fuel) i target)) ->
  enough t n target.
Proof.
  intros Hn Hp fuel i Hf Hi. destruct fuel as [|fuel]; [lia|]. cbn [unmarshal].
  destruct (kind (node t i)) eqn:Ek; try (by apply Hp); destruct Hi as [[_ ?] ?]; congruence.
Qed.

Lemma enough_leaf t target : is_leaf target = true -> enough t 1 target.
Proof.
  intros Hl. apply enough_plain; [lia|]. intros fuel i _ _. apply ends_plain.
  intros target' [H| ->]; by apply ends_value_leaf.
Qed.

Section ends.
Context (t : Tree) (Ht : nodes_ok t).

Lemma ends_items fuel items :
  (2 <= fuel)%nat -> Forall (valid t) items -> ends (sequence_items (unmarshal t fuel) items).
Proof.
  intros Hf. induction 1 as [|i items Hi _ IH]; [done|]. cbn [sequence_items].
  apply ends_bind; [apply ends_count|intros _]. apply ends_bind; [by eapply enough_alias, Hi; [done|by apply enough_leaf|]|].
  intros [set text]. apply ends_bind; [done|auto with sda].
Qed.

Lemma enough_list l : enough t 3 (TList l).
Proof.
  apply enough_plain; [lia|]. intros fuel i Hf Hi. apply ends_plain.
  intros target' [H| ->]; [by apply ends_value_leaf|]. unfold unmarshal_value, sequence, mapping.
  destruct (kind (node t i)); auto with sda.
  - apply ends_bind; [apply ends_items; [lia|]|auto with sda]. apply (ok_node t i Ht), Hi.
  - destruct (duplicate_keys _ _); auto with sda. apply ends_bind; auto with sda.
Qed.

Lemma enough_field s index fuel i : (4 <= fuel)%nat -> valid t i -> ends (unmarshal t fuel i (field s index)).
Proof.
  intros Hf Hi. destruct (field s index) as [x|x|x|x|x] eqn:E;
    try (eapply enough_alias; [done|by apply enough_leaf|lia|done]).
  - by do 10 (destruct index as [|index]; [done|]).
  - eapply enough_alias; [done|apply enough_list|lia|done].
Qed.

Lemma ends_fields fuel ps seen s :
  (4 <= fuel)%nat -> Forall (fun p => valid t p.1 /\ valid t p.2) ps ->
  ends (mapping_fields t (unmarshal t fuel) ps seen s).
Proof.
  intros Hf HF. revert seen s. induction HF as [|[k v] ps [Hk Hv] _ IH]; intros seen s; [done|].
  cbn [mapping_fields]. apply ends_bind; [apply ends_count|intros _].
  apply ends_bind; [eapply enough_alias; [done|by apply enough_leaf|lia|done]|].
  intros [set text]. destruct set; cbn [negb]; [|done]. destruct (key_index _) as [index|].
  - case_bool_decide; [apply ends_bind; [done|auto]|]. apply ends_bind; [apply ends_count|intros _].
    apply ends_bind; [by apply enough_field|]. by intros [? ?].
  - apply ends_bind; [done|auto].
Qed.

Lemma enough_schema s : enough t 5 (TSchema s).
Proof.
  apply enough_plain; [lia|]. intros fuel i Hf Hi. apply ends_plain.
  intros target' [H| ->]; [by apply ends_value_leaf|]. unfold unmarshal_value, sequence, mapping.
  destruct (kind (node t i)); auto with sda.
  destruct (duplicate_keys _ _); [|apply ends_bind; auto with sda].
  apply ends_bind; [|auto with sda]. apply ends_fields; [lia|]. apply Forall_forall. intros [k v] Hkv.
  by eapply content_valid; [..|exact Hkv]; [|apply Hi].
Qed.

End ends.

Lemma unmarshal_document t fuel d top target :
  kind (node t d) = KDocument -> content (node t d) = [top] ->
  unmarshal t (S fuel) d target = (_ ← count; '(_, target) ← unmarshal t fuel top target; mret (true, target)).
Proof. intros Hk Hc. cbn [unmarshal]. by rewrite Hk, Hc. Qed.

Lemma decode_enough t : tree_ok t -> decode t <> Err OutOfFuel.
Proof.
  intros Hok. unfold decode. destruct (document t) as [d|] eqn:Ed; [|done].
  destruct (to_document _ Hok d Ed) as (_ & Hk & top & Hc).
  assert (Htop : valid t top) by (apply root_valid; [done|unfold root; rewrite Ed; cbn; by rewrite Hc]).
  assert (He : ends (_ ← count; unmarshal t DECODE_DEPTH d (TSchema FileSchema_default))).
  { apply ends_bind; [apply ends_count|intros _]. unfold DECODE_DEPTH. rewrite (unmarshal_document _ _ _ top) by done.
    apply ends_bind; [apply ends_count|intros _].
    apply ends_bind; [|by intros [? ?]]. eapply enough_alias; [apply Hok|apply enough_schema, Hok|lia|done]. }
  specialize (He Decoder_new). revert He.
  generalize ((_ ← count; unmarshal t DECODE_DEPTH d (TSchema FileSchema_default)) Decoder_new) as r.
  intros [[[set target] dec]|e] He; cbn; [done|]. congruence.
Qed.

(** ** What an accepted file says *)

Definition is_text (t : Tree) (i : nat) (s : string) : Prop :=
  kind (node t i) = KScalar /\ tag (node t i) = STR_TAG /\ value (node t i) = s.

(** What a value of a shape sets, for a node that is no alias. *)
Definition reads (t : Tree) (i : nat) (shape : Shape) (x : Target) : Prop :=
  match shape with
  | ShapeBool => exists b, x = TOptionalBool (Some b) /\ kind (node t i) = KScalar /\
      tag (node t i) = BOOL_TAG /\ value (node t i) ∈ (if b then TRUE_TEXTS else FALSE_TEXTS)
  | NonEmptyString => exists s, x = TString s /\ is_text t i s /\ s <> ""
  | ShapeString => exists s, x = TString s /\ is_text t i s
  | NonEmptyStringList => exists l, x = TList (Some l) /\ kind (node t i) = KSequence /\
      Forall2 (fun item s => exists j, deref t item = Some j /\ is_text t j s /\ s <> "") (content (node t i)) l
  end.

Definition fits (shape : Shape) (target : Target) : Prop :=
  match shape, target with
  | ShapeBool, TOptionalBool _ => True
  | (NonEmptyString | ShapeString), TString _ => True
  | NonEmptyStringList, TList _ => True
  | _, _ => False
  end.

Lemma DM_bind_Ok {A B} (m : DM A) (k : A -> DM B) d r :
  (m ≫= k) d = Ok r -> exists a d', m d = Ok (a, d') /\ k a d' = Ok r.
Proof. unfold mbind, DM_bind. destruct (m d) as [[a d']|e]; [|done]. eauto. Qed.

Lemma count_errors d d' : count d = Ok (tt, d') -> errors d' = errors d.
Proof. unfold count. destruct (_ && _); [done|]. by intros [= <-]. Qed.

Section strict.
Context (t : Tree) (Ht : nodes_ok t).

(** A value behind an alias is the value. *)
Lemma unmarshal_through fuel v target d r d' :
  valid t v -> unmarshal t fuel v target d = Ok (r, d') ->
  exists v' fuel' d1 d2, deref t v = Some v' /\ anchorable t v' /\
    unmarshal t (S fuel') v' target d1 = Ok (r, d2) /\ errors d1 = errors d /\ errors d' = errors d2.
Proof.
  intros Hv H. destruct fuel as [|fuel]; [done|].
  destruct (deref_valid t v Ht Hv) as (v' & Hd & Hanch & Hal & Hno). exists v'.
  destruct (decide (kind (node t v) = KAlias)) as [Hk|Hk].
  - cbn [unmarshal] in H. rewrite Hk in H. unfold unmarshal_alias in H.
    apply DM_bind_Ok in H as (active & d0 & E0 & H). injection E0 as <- <-. case_bool_decide; [done|].
    rewrite (Hal Hk) in H. apply DM_bind_Ok in H as ([] & d1 & E1 & H). injection E1 as <-.
    apply DM_bind_Ok in H as ([] & d2 & E2%count_errors & H). apply DM_bind_Ok in H as (r' & d3 & E3 & H).
    apply DM_bind_Ok in H as ([] & d4 & E4 & H). injection E4 as <-. injection H as <- <-.
    destruct fuel as [|fuel]; [done|]. by exists fuel, d2, d3.
  - rewrite (Hno Hk) in *. by exists fuel, d, d'.
Qed.

Lemma unmarshal_text fuel i s x d :
  is_text t i s -> unmarshal t (S fuel) i (TString x) d = Ok ((true, TString s), d).
Proof.
  intros (Hk & Htag & Hval). cbn [unmarshal]. rewrite Hk. unfold unmarshal_plain, unmarshal_value. rewrite Hk.
  unfold scalar, mbind, DM_bind, resolve_node, indicated_string. rewrite Hk, Htag, Hval.
  by rewrite !bool_decide_eq_true_2 by done.
Qed.

Lemma text_of_shape i : has_shape t i NonEmptyString = true -> exists s, is_text t i s /\ s <> "".
Proof.
  unfold has_shape. cbn. intros [[Hk%bool_decide_eq_true Htg%bool_decide_eq_true]%andb_true_iff
    Hv%negb_true_iff%bool_decide_eq_false]%andb_true_iff. by exists (value (node t i)).
Qed.

Lemma items_text fuel items d l d' :
  Forall (valid t) items ->
  forallb (fun item => match deref t item with
    Some item => has_shape t item NonEmptyString | None => false end) items = true ->
  sequence_items (unmarshal t fuel) items d = Ok (l, d') ->
  errors d' = errors d /\
  Forall2 (fun item s => exists j, deref t item = Some j /\ is_text t j s /\ s <> "") items l.
Proof.
  intros Hv. revert d l d'. induction Hv as [|i items Hi _ IH]; intros d l d' Hsh H; cbn [sequence_items] in H.
  { injection H as <- <-. by split. }
  cbn [forallb] in Hsh. apply andb_true_iff in Hsh as [Hs Hsh].
  apply DM_bind_Ok in H as ([] & d1 & E1%count_errors & H). apply DM_bind_Ok in H as ([set text] & d2 & E2 & H).
  destruct (unmarshal_through _ _ _ _ _ _ Hi E2) as (v' & f' & d3 & d4 & Hd & _ & Hu & He3 & He4).
  rewrite Hd in Hs. apply text_of_shape in Hs as (s & Hs & Hne).
  rewrite (unmarshal_text _ _ s) in Hu by done. injection Hu as <- <- <-.
  apply DM_bind_Ok in H as (rest & d5 & E5 & H). injection H as <- <-.
  destruct (IH _ _ _ Hsh E5) as [He5 HF]. split; [congruence|]. constructor; [|done]. by exists v'.
Qed.

(** The boolean of a scalar tagged so. *)
Lemma resolve_bool input tg v :
  resolve BOOL_TAG input = Ok (tg, v) ->
  exists b, v = Bool b /\ tg = BOOL_TAG /\ input ∈ (if b then TRUE_TEXTS else FALSE_TEXTS).
Proof.
  unfold resolve. change (short_tag BOOL_TAG) with BOOL_TAG. change (resolvable_tag BOOL_TAG) with true.
  cbn [negb]. destruct (resolve_resolvable BOOL_TAG input) as [tg' v'] eqn:E.
  pose proof (resolve_resolvable_tagged _ _ _ _ E) as Htag.
  change (bool_decide (BOOL_TAG = "")) with false. change (bool_decide (BOOL_TAG = STR_TAG)) with false.
  change (bool_decide (BOOL_TAG = FLOAT_TAG)) with false. cbn [orb andb]. rewrite orb_false_r.
  destruct (bool_decide (BOOL_TAG = tg')) eqn:Hb; [|done]. apply bool_decide_eq_true in Hb as <-.
  cbn. intros [= <- <-].
  destruct v' as [|b|text| | | |]; cbn in Htag; try (by destruct Htag); try done.
  - exists b. naive_solver.
  - by destruct Htag as [_ [?|?]].
Qed.

Lemma unmarshal_shaped fuel i shape target d set x d' :
  anchorable t i -> has_shape t i shape = true -> fits shape target ->
  unmarshal t (S fuel) i target d = Ok ((set, x), d') ->
  reads t i shape x /\ errors d' = errors d.
Proof.
  intros Hi Hs Hf H. destruct shape, target; try done.
  - unfold has_shape in Hs. cbn in Hs. apply andb_true_iff in Hs as [Hk%bool_decide_eq_true Htg%bool_decide_eq_true].
    cbn [unmarshal] in H. rewrite Hk in H. unfold unmarshal_plain, node_short_tag, indicated_string in H.
    rewrite Hk, Htg in H. change (bool_decide (BOOL_TAG = STR_TAG)) with false in H.
    change (bool_decide (BOOL_TAG = "")) with false in H. rewrite andb_false_r in H.
    change (bool_decide (BOOL_TAG = NULL_TAG)) with false in H.
    apply DM_bind_Ok in H as ([set' v] & d1 & E1 & H). injection H as <- <- <-.
    unfold unmarshal_value in E1. rewrite Hk in E1. unfold scalar in E1.
    apply DM_bind_Ok in E1 as (res & d2 & E2 & E1). unfold resolve_node, indicated_string in E2.
    rewrite Hk, Htg in E2. change (bool_decide (BOOL_TAG = STR_TAG)) with false in E2.
    change (bool_decide (BOOL_TAG = "")) with false in E2. rewrite andb_false_r in E2.
    destruct (resolve BOOL_TAG (value (node t i))) as [[tg res']|e] eqn:Er; [|done].
    destruct (resolve_bool _ _ _ Er) as (b' & -> & -> & Hin). cbn in E2. injection E2 as <- <-.
    injection E1 as <- <- <-. split; [|done]. exists b'. by split_and!.
  - destruct (text_of_shape i Hs) as (s' & Hs' & Hne). rewrite (unmarshal_text _ _ s') in H by done.
    injection H as <- <- <-. split; [|done]. by exists s'.
  - unfold has_shape in Hs. cbn in Hs. apply andb_true_iff in Hs as [Hk%bool_decide_eq_true Htg%bool_decide_eq_true].
    rewrite (unmarshal_text _ _ (value (node t i))) in H by done. injection H as <- <- <-.
    split; [|done]. by exists (value (node t i)).
  - unfold has_shape in Hs. cbn [has_shape_depth] in Hs. apply andb_true_iff in Hs as [Hk%bool_decide_eq_true Hs].
    cbn [unmarshal] in H. rewrite Hk in H. unfold unmarshal_plain, unmarshal_value in H. rewrite Hk in H.
    unfold sequence in H. apply DM_bind_Ok in H as (items & d1 & E1 & H). injection H as <- <- <-.
    destruct (items_text fuel (content (node t i)) d items d1) as [He HF]; [|exact Hs|done|].
    { apply (ok_node t i Ht), Hi. }
    split; [|done]. by exists items.
Qed.

(** *** The fields *)

Lemma key_index_spec name index :
  key_index name = Some index ->
  exists shape, find_key name = Some (name, shape) /\ KEYS !! index = Some (name, shape) /\
    forall s, fits shape (field s index).
Proof.
  unfold key_index. destruct (list_find _ KEYS) as [[j [known shape]]|] eqn:E; [|done]. intros [= <-].
  apply list_find_Some in E as (Hl & Hn & _). cbn in Hn. subst known. exists shape. revert Hl.
  do 10 (destruct j as [|j]; [by intros [= <- <-]|]). done.
Qed.

Lemma key_index_lookup name index shape : KEYS !! index = Some (name, shape) -> key_index name = Some index.
Proof. do 10 (destruct index as [|index]; [by intros [= <- <-]|]). done. Qed.

Lemma field_set s i j shape v :
  (i < 10)%nat -> (j < 10)%nat -> (exists name, KEYS !! i = Some (name, shape)) -> fits shape v ->
  field (set_field s i v) j = if bool_decide (i = j) then v else field s j.
Proof.
  intros Hi Hj [name Hk] Hf.
  assert (Hv : i = j -> field (set_field s i v) j = v).
  { intros <-. revert Hk Hf. clear Hj. do 10 (destruct i as [|i]; [intros [= _ <-]; by destruct v|]). lia. }
  case_bool_decide as Hij; [auto|]. clear Hv Hk Hf.
  do 10 (destruct j as [|j]; [do 10 (destruct i as [|i]; [done|]); lia|]). lia.
Qed.

Lemma fits_reads i shape x : reads t i shape x -> fits shape x.
Proof. destruct shape; intros (? & -> & _); done. Qed.

Lemma KEYS_lt index x : KEYS !! index = Some x -> (index < 10)%nat.
Proof. intros H. by apply lookup_lt_Some in H. Qed.

Definition key_name (p : nat * nat) : string := value (node t p.1).

(** A pair is a string key with its value. *)
Definition pair_ok (p : nat * nat) : Prop :=
  valid t p.1 /\ valid t p.2 /\ kind (node t p.1) = KScalar /\ tag (node t p.1) = STR_TAG.

(** What the pairs say of the fields: [seen] were set before. *)
Record Strict (ps : list (nat * nat)) (seen : list nat) (s s' : FileSchema) : Prop := {
  st_known p : p ∈ ps -> exists index shape v, KEYS !! index = Some (key_name p, shape) /\ index ∉ seen /\
    deref t p.2 = Some v /\ reads t v shape (field s' index);
  st_once : NoDup (key_name <$> ps);
  st_rest index : (index < 10)%nat ->
    (forall p, p ∈ ps -> key_index (key_name p) <> Some index) -> field s' index = field s index;
}.

Lemma Strict_cons key v ps seen s s' index shape x v' :
  KEYS !! index = Some (key_name (key, v), shape) -> index ∉ seen -> deref t v = Some v' -> reads t v' shape x ->
  Strict ps (index :: seen) (set_field s index x) s' -> Strict ((key, v) :: ps) seen s s'.
Proof.
  intros Hk Hns Hd Hr [Hknown Honce Hrest]. pose proof (KEYS_lt _ _ Hk) as Hlt.
  assert (Hfresh : forall p, p ∈ ps -> key_index (key_name p) <> Some index).
  { intros p Hp Hi. destruct (Hknown p Hp) as (j & sh & w & Hj & Hjs & _).
    rewrite (key_index_lookup _ _ _ Hj) in Hi. injection Hi as ->. apply Hjs. by left. }
  assert (Hset : forall j, (j < 10)%nat -> field (set_field s index x) j = if bool_decide (index = j) then x else field s j).
  { intros j Hj. eapply field_set; eauto using fits_reads. }
  split.
  - intros p [->|Hp]%elem_of_cons.
    + exists index, shape, v'. split_and!; [done..|]. cbn. rewrite Hrest, Hset by done.
      by rewrite bool_decide_eq_true_2.
    + destruct (Hknown p Hp) as (j & sh & w & Hj & Hjs & Hw). exists j, sh, w. split_and!; [done| |apply Hw..].
      intros Hin. apply Hjs. by right.
  - cbn. constructor; [|done]. intros (p & Hn & Hp)%list_elem_of_fmap. apply (Hfresh p Hp).
    rewrite <- Hn. by eapply key_index_lookup.
  - intros j Hj Hnot. rewrite Hrest, Hset; [|done|done|].
    + rewrite bool_decide_eq_false_2; [done|]. intros <-. apply (Hnot (key, v)); [by left|].
      by eapply key_index_lookup.
    + intros p Hp. apply Hnot. by right.
Qed.

(** Errors are only added, and without new ones the fields are as the pairs say. *)
Lemma fields_strict fuel ps seen s d s' d' :
  Forall pair_ok ps -> check_pairs t ps = Ok tt ->
  mapping_fields t (unmarshal t fuel) ps seen s d = Ok (s', d') ->
  (length (errors d) <= length (errors d'))%nat /\
  (length (errors d') = length (errors d) -> Strict ps seen s s').
Proof.
  intros Hps. revert seen s d. induction Hps as [|[key v] ps (Hk & Hv & Hkind & Htag) _ IH];
    intros seen s d Hc H; cbn [mapping_fields check_pairs fst snd] in *.
  { injection H as <- <-. split; [done|]. intros _. split; [intros p Hp; by apply not_elem_of_nil in Hp|constructor|done]. }
  apply bind_Ok in Hc as ([] & Hpair & Hc).
  apply DM_bind_Ok in H as ([] & d1 & E1%count_errors & H). apply DM_bind_Ok in H as ([set text] & d2 & E2 & H).
  destruct (unmarshal_through _ _ _ _ _ _ Hk E2) as (k' & f' & d3 & d4 & Hd & _ & Hu & He3 & He4).
  destruct (deref_valid t key Ht Hk) as (k'' & Hd' & _ & _ & Hno). rewrite Hd in Hd'. injection Hd' as <-.
  rewrite (Hno ltac:(cbn in Hkind; by rewrite Hkind)) in *. cbn in Hkind, Htag, Hk, Hv.
  rewrite (unmarshal_text _ _ (value (node t key))) in Hu by done. injection Hu as <- <- <-.
  cbn [negb as_string] in H. assert (He2 : errors d2 = errors d) by congruence.
  destruct (key_index (value (node t key))) as [index|] eqn:Ei.
  2:{ apply DM_bind_Ok in H as ([] & d5 & E5 & H). injection E5 as <-. apply IH in H as [Hlen _]; [|done].
      cbn in Hlen. rewrite length_app, He2 in Hlen. cbn in Hlen. split; [lia|lia]. }
  case_bool_decide as Hseen.
  { apply DM_bind_Ok in H as ([] & d5 & E5 & H). injection E5 as <-. apply IH in H as [Hlen _]; [|done].
    cbn in Hlen. rewrite length_app, He2 in Hlen. cbn in Hlen. split; [lia|lia]. }
  apply DM_bind_Ok in H as ([] & d5 & E5%count_errors & H). apply DM_bind_Ok in H as ([set' x] & d6 & E6 & H).
  destruct (key_index_spec _ _ Ei) as (shape & Hfind & HKEYS & Hfits).
  destruct (unmarshal_through _ _ _ _ _ _ Hv E6) as (v' & f'' & d7 & d8 & Hdv & Hanch & Hu & He7 & He8).
  unfold check_pair in Hpair. cbn [fst snd] in Hpair. destruct (_ || _); [done|]. rewrite Hfind in Hpair.
  apply bind_Ok in Hpair as (v2 & Hv2%ok_or_Ok & Hpair). rewrite Hdv in Hv2. injection Hv2 as <-.
  destruct (has_shape t v' shape) eqn:Hsh; [|done].
  destruct (unmarshal_shaped _ _ _ _ _ _ _ _ Hanch Hsh (Hfits s) Hu) as [Hr He9].
  assert (He6 : errors d6 = errors d) by congruence. apply IH in H as [Hlen HS]; [|done]. rewrite He6 in *.
  split; [done|]. intros Heq. eapply Strict_cons; [exact HKEYS|done|exact Hdv|exact Hr|auto].
Qed.

End strict.

(** ** Loading a file *)

(** The root mapping of a document. *)
Definition root_mapping (t : Tree) (m : nat) : Prop :=
  exists r, root t = Some r /\ deref t r = Some m /\ kind (node t m) = KMapping.

(** The keys of the root mapping are strings. *)
Definition string_keys (t : Tree) : Prop :=
  forall m k v, root_mapping t m -> (k, v) ∈ pairs (content (node t m)) ->
    kind (node t k) = KScalar /\ tag (node t k) = STR_TAG.

Lemma check_shapes_root t : check_shapes t = Ok tt ->
  exists m, root_mapping t m /\ check_pairs t (pairs (content (node t m))) = Ok tt.
Proof.
  unfold check_shapes. intros H. apply bind_Ok in H as (r & Hr%ok_or_Ok & H).
  apply bind_Ok in H as (m & Hm%ok_or_Ok & H). case_bool_decide as Hk; cbn in H; [|done].
  exists m. split; [by exists r|done].
Qed.

Lemma push_errors_errors l d d' : push_errors l d = Ok (tt, d') -> errors d' = errors d ++ l.
Proof.
  revert d. induction l as [|e l IH]; intros d H; cbn in H.
  - injection H as <-. by rewrite app_nil_r.
  - apply DM_bind_Ok in H as ([] & d1 & E1 & H). injection E1 as <-. apply IH in H as ->. cbn.
    by rewrite <- app_assoc.
Qed.

Lemma decode_strict t schema m :
  tree_ok t -> root_mapping t m -> check_pairs t (pairs (content (node t m))) = Ok tt ->
  decode t = Ok (Ok schema) -> string_keys t ->
  Strict t (pairs (content (node t m))) [] FileSchema_default schema.
Proof.
  intros Hok Hm Hc Hdec Hkeys. pose proof (to_nodes _ Hok) as Hn. destruct Hm as (r & Hr & Hd & Hkm).
  assert (Hrv : valid t r) by (by apply root_valid).
  unfold decode in Hdec. unfold root in Hr. destruct (document t) as [doc|] eqn:Ed; [|done]. cbn in Hr.
  destruct (to_document _ Hok doc Ed) as (_ & Hk & top & Hcont). rewrite Hcont in Hr. injection Hr as ->.
  apply bind_Ok in Hdec as ([[set target] dec] & Hdec & Hres).
  apply DM_bind_Ok in Hdec as ([] & d1 & E1%count_errors & Hdec). unfold DECODE_DEPTH in Hdec.
  rewrite (unmarshal_document _ _ _ r) in Hdec by done.
  apply DM_bind_Ok in Hdec as ([] & d2 & E2%count_errors & Hdec).
  apply DM_bind_Ok in Hdec as ([set' x] & d3 & E3 & Hdec). injection Hdec as <- <- <-.
  destruct (unmarshal_through t Hn _ _ _ _ _ _ Hrv E3) as (m' & f & d4 & d5 & Hd' & Hanch & Hu & He4 & He5).
  rewrite Hd in Hd'. injection Hd' as <-.
  cbn [unmarshal] in Hu. rewrite Hkm in Hu. unfold unmarshal_plain, unmarshal_value in Hu. rewrite Hkm in Hu.
  unfold mapping in Hu. assert (Herr : errors d5 = []).
  { rewrite <- He5. by destruct (errors d3). }
  assert (He4' : errors d4 = []) by (rewrite He4, E2, E1; done).
  destruct (duplicate_keys t _) as [|e es].
  - apply DM_bind_Ok in Hu as (s & d6 & E6 & Hu). injection Hu as <- <- <-.
    assert (schema = s) as -> by (rewrite He5, Herr in Hres; by simplify_eq).
    apply (fields_strict t Hn _ _ _ _ _ _ _) in E6; [|apply Forall_forall|done].
    + apply E6. rewrite Herr, He4'. done.
    + intros [k v] Hkv. destruct (content_valid t m k v Hn (proj1 Hanch) Hkv).
      destruct (Hkeys m k v); [exists r; unfold root; rewrite Ed; cbn; by rewrite Hcont|done|]. by split_and!.
  - exfalso. apply DM_bind_Ok in Hu as ([] & d6 & E6 & Hu). injection Hu as <- <- <-.
    apply push_errors_errors in E6. rewrite Herr, He4' in E6. done.
Qed.

(** Reading a file of a path and its only document. *)
Record Loaded (events : string -> Parser) (opened : result Z unit) (read : result Z string)
    (text : string) (t : Tree) (r : Reader) : Prop := {
  ld_opened : opened = Ok tt;
  ld_read : exists data, read = Ok data /\ from_utf8 data = Some text;
  ld_tree : exists r0, Reader_new text (events text) = Ok r0 /\ read_document text r0 = Ok (t, r);
  ld_single : at_end text r = Ok true;
}.

Lemma single_document_Ok path text r : single_document path text r = Ok tt -> at_end text r = Ok true.
Proof. unfold single_document. by destruct (at_end text r) as [[]|]. Qed.

Lemma decode_document_Ok path t schema : decode_document path t = Ok schema -> decode t = Ok (Ok schema).
Proof. unfold decode_document. destruct (decode t) as [[?|]|[]]; naive_solver. Qed.

Lemma load_file_parts events path opened read schema :
  load_file events path opened read = Ok schema -> path <> "" ->
  exists text t r, Loaded events opened read text t r /\
    if is_empty_document t then schema = FileSchema_default
    else check_shapes t = Ok tt /\ decode t = Ok (Ok schema) /\
         validate_enums (f_log_format schema) (f_log_level schema) (f_policy_mode schema) "key" = Ok tt.
Proof.
  unfold load_file. intros H Hp. rewrite bool_decide_eq_false_2 in H by done.
  apply bind_Ok in H as (data & Hdata & H). unfold read_file in Hdata.
  apply bind_Ok in Hdata as ([] & Ho%map_err_Ok & Hread%map_err_Ok).
  apply bind_Ok in H as (text & Htext%ok_or_Ok & H). apply bind_Ok in H as (r0 & Hr0%map_err_Ok & H).
  apply bind_Ok in H as ([t r] & Ht%map_err_Ok & H). exists text, t, r.
  destruct (is_empty_document t).
  - apply bind_Ok in H as ([] & Hs%single_document_Ok & H). split; [split; eauto|congruence].
  - apply bind_Ok in H as ([] & Hc%map_err_Ok & H). apply bind_Ok in H as (s & Hd%decode_document_Ok & H).
    apply bind_Ok in H as ([] & Hs%single_document_Ok & H). apply bind_Ok in H as ([] & He%map_err_Ok & H).
    assert (s = schema) as -> by congruence. split; [split; eauto|]. by split_and!.
Qed.

(** No key of a well-formed mapping is an alias cycle. *)
Lemma check_pairs_no_cycle t ps key :
  nodes_ok t -> Forall (fun p => valid t p.2) ps -> check_pairs t ps <> Err (AliasCycle key).
Proof.
  intros Hn Hps. induction Hps as [|p ps Hv _ IH]; cbn [check_pairs]; [done|].
  unfold check_pair. destruct (_ || _); [done|]. destruct (find_key _) as [[name shape]|]; [|exact IH].
  destruct (deref_valid t p.2 Hn Hv) as (j & -> & _). cbn [ok_or].
  change (Ok j ≫= ?k) with (k j). cbv beta. destruct (has_shape t j shape); [exact IH|done].
Qed.

(** C37. Every tree the reader builds is well formed: its indices are in range and an
    alias leads in one step to a node that is none. So the shape pass never answers
    "alias cycle", and the decode, whose calls nest, always ends. *)
Theorem read_trees_decode input r t r' :
  read_document input r = Ok (t, r') ->
  tree_ok t /\ (forall key, check_shapes t <> Err (AliasCycle key)) /\ decode t <> Err OutOfFuel.
Proof.
  intros Hok%read_document_ok. split; [done|]. split; [|by apply decode_enough].
  intros key. pose proof (to_nodes _ Hok) as Hn. unfold check_shapes.
  destruct (root t) as [x|] eqn:Hr; [|done].
  destruct (deref_valid t x Hn) as (m & Hm & [Hv _] & _); [by apply root_valid|].
  cbn [ok_or mbind result_bind]. rewrite Hm. cbn [ok_or]. change (Ok m ≫= ?k) with (k m). cbv beta.
  destruct (negb _); [done|]. apply check_pairs_no_cycle; [done|]. apply Forall_forall.
  intros [k v] Hkv. by apply (content_valid t m k v).
Qed.

(** C19. What loading a file of string keys accepts: the file's one document is empty and
    the settings are the defaults, or it is a mapping in which every key is known and
    occurs once, each value has exactly the shape of its key and is the field's new
    value, and no other field changes; the three enumerations hold known values. *)
Theorem load_file_strict events path opened read schema :
  path <> "" -> load_file events path opened read = Ok schema ->
  exists text t r, Loaded events opened read text t r /\
    ((is_empty_document t = true /\ schema = FileSchema_default) \/
     exists m, root_mapping t m /\
       validate_enums (f_log_format schema) (f_log_level schema) (f_policy_mode schema) "key" = Ok tt /\
       (string_keys t -> Strict t (pairs (content (node t m))) [] FileSchema_default schema)).
Proof.
  intros Hp H. destruct (load_file_parts _ _ _ _ _ H Hp) as (text & t & r & HL & Hs).
  exists text, t, r. split; [done|]. destruct (is_empty_document t); [by left|right].
  destruct Hs as (Hc & Hd & He). destruct (check_shapes_root _ Hc) as (m & Hm & Hpairs).
  destruct (ld_tree _ _ _ _ _ _ HL) as (r0 & _ & Hok%read_document_ok).
  exists m. split_and!; [done..|]. by apply decode_strict.
Qed.

(** ** On concrete files *)

Module YamlExample.

Definition at_ (line : Z) (index : nat) : Span :=
  {| span_start := {| m_line := line; m_index := index |}; span_end := {| m_line := line; m_index := S index |} |}.

(** The events of a mapping of one pair, on a text of the default positions. *)
Definition document_of (events : list YEvent) : Parser :=
  (fun e => Ok (e, at_ 1 0)) <$> [StreamStart; DocumentStart; MappingStart 0 None] ++ events
    ++ [MappingEnd; DocumentEnd; StreamEnd].

Definition plain_scalar (s : string) : YEvent := Scalar s Plain 0 None.
Definition quoted_scalar (s : string) : YEvent := Scalar s DoubleQuoted 0 None.

Definition load (events : list YEvent) : result LoadError FileSchema :=
  load_file (fun _ => document_of events) "/etc/sda.yaml" (Ok tt) (Ok "x").

(** [dry-run: true], [device-allow: [/dev/null]]. *)
Definition good : list YEvent :=
  [plain_scalar "dry-run"; plain_scalar "true"; plain_scalar "device-allow"; SequenceStart 0 None;
   plain_scalar "/dev/null"; SequenceEnd].

Definition good_schema : FileSchema :=
  set_field (set_field FileSchema_default 4 (TOptionalBool (Some true))) 6 (TList (Some ["/dev/null"])).

Lemma load_good : load good = Ok good_schema.
Proof. by vm_compute. Qed.

Definition good_reader : Reader :=
  {| parser := document_of good; anchors := ∅; boundary := 0; documents := 0; directives_after_implicit_end := None |}.
Definition good_read : Tree * Reader :=
  match read_document "x" good_reader with Ok p => p | Err _ => (Tree_default, good_reader) end.

Lemma read_good : read_document "x" good_reader = Ok good_read.
Proof. by vm_compute. Qed.

Lemma good_string_keys : string_keys good_read.1.
Proof.
  intros m k v (r & Hr & Hd & _). vm_compute in Hr. injection Hr as <-. vm_compute in Hd. injection Hd as <-.
  change (pairs (content (node good_read.1 1))) with [(2, 3); (4, 5)]%nat.
  intros [[= -> ->]|[[= -> ->]|H]%elem_of_cons]%elem_of_cons; [by vm_compute..|by apply not_elem_of_nil in H].
Qed.

Lemma read_trees_decode_witness :
  read_document "x" good_reader = Ok (good_read.1, good_read.2) /\ decode good_read.1 <> Err OutOfFuel.
Proof. split; [exact read_good|]. apply (read_trees_decode "x" good_reader _ good_read.2 read_good). Defined.

Lemma load_file_strict_witness :
  load good = Ok good_schema /\ string_keys good_read.1 /\
  exists m, root_mapping good_read.1 m /\
    Strict good_read.1 (pairs (content (node good_read.1 m))) [] FileSchema_default good_schema.
Proof.
  split; [exact load_good|]. split; [exact good_string_keys|].
  destruct (load_file_strict (fun _ => document_of good) "/etc/sda.yaml" (Ok tt) (Ok "x") good_schema
    ltac:(discriminate) load_good) as (text & t & r & HL & H).
  destruct (ld_read _ _ _ _ _ _ HL) as (data & Hdata & Htext). injection Hdata as <-.
  assert (text = "x") as -> by (vm_compute in Htext; congruence).
  destruct (ld_tree _ _ _ _ _ _ HL) as (r0 & Hr0 & Hread).
  assert (r0 = good_reader) as -> by (vm_compute in Hr0; injection Hr0 as <-; reflexivity).
  rewrite read_good in Hread.
  assert (Hg : good_read = (t, r)) by congruence. assert (t = good_read.1) as -> by (by rewrite Hg).
  destruct H as [[He _]|(m & Hm & _ & HS)]; [by vm_compute in He|]. exists m. split; [exact Hm|].
  apply HS, good_string_keys.
Defined.

(** The shape pass looks a key up by its text and the decode by its value. A key written
    as [!!binary ZHJ5LXJ1bg==], or as an alias of a [dry-run] elsewhere, is unknown to
    the first and [dry-run] to the second, so that a quoted [yes] is read as true. *)
Definition binary_key : YEvent :=
  Scalar "ZHJ5LXJ1bg==" Plain 0 (Some {| handle := "tag:yaml.org,2002:"; suffix := "binary" |}).

Lemma quoted_yes_refused :
  load [plain_scalar "dry-run"; quoted_scalar "yes"] = Err (FileRefused "/etc/sda.yaml" (FileShape (WrongShape "dry-run" ShapeBool))).
Proof. by vm_compute. Qed.

Lemma binary_key_passes_shapes :
  f_dry_run <$> load [binary_key; quoted_scalar "yes"] = Ok (Some true).
Proof. by vm_compute. Qed.

Lemma alias_key_passes_shapes :
  f_dry_run <$> load [plain_scalar "device-allow"; SequenceStart 0 None; Scalar "dry-run" Plain 1 None; SequenceEnd;
                      Alias 1; quoted_scalar "yes"] = Ok (Some true).
Proof. by vm_compute. Qed.

(** A null key is passed over, whatever its value. *)
Lemma null_key_ignored : load [plain_scalar "~"; quoted_scalar "anything"] = Ok FileSchema_default.
Proof. by vm_compute. Qed.

End YamlExample.
