(* ===== verification/Cli.v ===== *)
(** * The command line (src/cli.rs)

    The daemon's flags and the launcher's, the scan that refuses single-dash flags
    before the argument parser sees them, the split of [launch] at the first [--],
    and the checks of the launcher's own flags. The parser itself is the clap crate,
    a class: what it makes of an argument list, which flags it was given, or its
    error. Arguments are bytes; where the source reads them as text it replaces what
    is not UTF-8. *)

From Stdlib Require Import Ascii.
From S2P Require Import Prelude.
From S2P Require Import Text.
From S2P Require Import TextProofs.
From S2P Require Import Utf8.
From S2P Require Import Lexpath.
From S2P Require Import Policy.
From S2P Require Import Settings.
From S2P Require Import LaunchSpec.

Definition LAUNCH_COMMAND : string := "launch".

(** ** The flags *)

Record Args := {
  a_log_format : string;
  a_log_level : string;
  a_log_time : bool;
  a_docker_socket : string;
  a_dry_run : bool;
  a_policy_mode : string;
  a_device_allow : list string;
  a_device_deny : list string;
  a_metrics_addr : string;
  a_debug_addr : string;
  a_config : string;
}.

(** The [default_value]s. *)
Definition Args_default : Args :=
  {| a_log_format := "text"; a_log_level := "info"; a_log_time := false;
     a_docker_socket := "/var/run/docker.sock"; a_dry_run := false; a_policy_mode := "opt-in";
     a_device_allow := []; a_device_deny := []; a_metrics_addr := ""; a_debug_addr := ""; a_config := "" |}.

Definition VALUE_FLAGS : list string :=
  ["log-format"; "log-level"; "docker-socket"; "policy-mode"; "device-allow"; "device-deny";
   "metrics-addr"; "debug-addr"; "config"].
Definition BOOL_FLAGS : list string := ["log-time"; "dry-run"; "help"].

(** The long names [Args::command] knows, in its order. *)
Definition ARG_NAMES : list string :=
  ["log-format"; "log-level"; "log-time"; "docker-socket"; "dry-run"; "policy-mode"; "device-allow";
   "device-deny"; "metrics-addr"; "debug-addr"; "config"; "help"].

Record LaunchArgs := {
  la_log_format : string;
  la_log_level : string;
  la_host_docker_socket : string;
  la_dbus : bool;
  la_config_dir : string;
  la_host_network : bool;
}.

Definition LaunchArgs_default : LaunchArgs :=
  {| la_log_format := "text"; la_log_level := "info"; la_host_docker_socket := DEFAULT_HOST_DOCKER_SOCKET;
     la_dbus := false; la_config_dir := ""; la_host_network := false |}.

Definition LAUNCH_VALUE_FLAGS : list string := ["log-format"; "log-level"; "host-docker-socket"; "config-dir"].
Definition LAUNCH_BOOL_FLAGS : list string := ["dbus"; "host-network"; "help"].

Record Exit := { code : Z; stdout : bool; message : string }.

#[global] Instance Exit_eq_dec : EqDecision Exit.
Proof. solve_decision. Defined.

Record Parsed := { args : Args; set : gset string }.
Record Launch := { l_args : LaunchArgs; l_daemon_args : list string }.

(** ** The parser *)

Record ClapError := { exit_code : Z; use_stderr : bool; rendered : string }.

(** What an argument list matched: the flags it gives and where each value is from. *)
Record Matches := { from_command_line : string -> bool; from_arg_matches : result ClapError Args }.

Class Clap := {
  try_get_matches_from : list string -> result ClapError Matches;
  try_parse_from : list string -> result ClapError LaunchArgs;
}.

Definition clap_exit (e : ClapError) : Exit :=
  {| code := exit_code e; stdout := negb (use_stderr e); message := rendered e |}.

(** ** The single-dash scan *)

(** [str::split_once], with the whole text when the character is not in it. *)
Fixpoint before (c : ascii) (s : string) : string :=
  match s with
  | EmptyString => EmptyString
  | String d s => if bool_decide (d = c) then EmptyString else String d (before c s)
  end.

Definition refuse (message : string) : Exit :=
  {| code := 2; stdout := false; message := "error: " +:+ message +:+ of_char newline |}.

Fixpoint scan (value_flags bool_flags : list string) (skip_value : bool) (arguments : list string)
    : result Exit unit :=
  match arguments with
  | [] => Ok tt
  | argument :: arguments =>
      if skip_value then scan value_flags bool_flags false arguments
      else
        let argument := from_utf8_lossy argument in
        if bool_decide (argument = "--") then Ok tt
        else match strip_prefix "--" argument with
        | Some rest =>
            scan value_flags bool_flags (negb (contains rest "=") && bool_decide (rest ∈ value_flags)) arguments
        | None =>
            match strip_prefix "-" argument with
            | None => scan value_flags bool_flags false arguments
            | Some rest =>
                let name := before "="%char rest in
                if bool_decide (name ∈ value_flags) || bool_decide (name ∈ bool_flags) then
                  Err (refuse ("single-dash long flags are not supported: '-" +:+ name +:+ "'; use '--"
                               +:+ name +:+ "'"))
                else if (1 <? length (utf8_chars rest))%nat then
                  Err (refuse ("flag provided but not defined: '-" +:+ name +:+ "'"))
                else scan value_flags bool_flags false arguments
            end
        end
  end.

Definition refuse_single_dash (arguments value_flags bool_flags : list string) : result Exit unit :=
  scan value_flags bool_flags false (drop 1 arguments).

(** ** Parsing *)

Definition check_host_path (name path : string) : result string unit :=
  if starts_with path "/" && bool_decide (clean path = path) then Ok tt
  else Err ("launch: flag " +:+ quote ("--" +:+ name) +:+ ": " +:+ quote path
            +:+ " must be an absolute, clean path").

Definition validate_launch (a : LaunchArgs) : result string unit :=
  _ ← map_err (fun e => "launch: " +:+ EnumError_text e)
        (validate_enums (la_log_format a) (la_log_level a) "" "flag");
  _ ← check_host_path "host-docker-socket" (la_host_docker_socket a);
  if negb (bool_decide (la_config_dir a = "")) then check_host_path "config-dir" (la_config_dir a) else Ok tt.

(** The arguments before the first [--], and those after it. *)
Fixpoint split_daemon (arguments : list string) : list string * list string :=
  match arguments with
  | [] => ([], [])
  | a :: arguments =>
      if bool_decide (a = "--") then ([], arguments)
      else let '(own, daemon) := split_daemon arguments in (a :: own, daemon)
  end.

Section parse.
Context {clap : Clap}.

Definition parse (arguments : list string) : result Exit Parsed :=
  _ ← refuse_single_dash arguments VALUE_FLAGS BOOL_FLAGS;
  matches ← map_err clap_exit (try_get_matches_from arguments);
  args ← map_err clap_exit (from_arg_matches matches);
  Ok {| args := args; set := list_to_set (filter (fun name => from_command_line matches name = true) ARG_NAMES) |}.

Definition parse_launch (arguments : list string) : result Exit Launch :=
  let '(own, daemon) := split_daemon (LAUNCH_COMMAND :: arguments) in
  let daemon_args := from_utf8_lossy <$> daemon in
  _ ← refuse_single_dash own LAUNCH_VALUE_FLAGS LAUNCH_BOOL_FLAGS;
  args ← map_err clap_exit (try_parse_from own);
  _ ← map_err (fun text => {| code := 1; stdout := false; message := text +:+ of_char newline |})
        (validate_launch args);
  Ok {| l_args := args; l_daemon_args := daemon_args |}.

End parse.

(** [Settings::from_flags] of src/cli/settings.rs. *)
Definition from_flags (p : Parsed) : Settings :=
  let list name values := if bool_decide (name ∈ set p) then Some values else None in
  let a := args p in
  {| log_format := a_log_format a; log_level := a_log_level a; log_time := a_log_time a;
     docker_socket := a_docker_socket a; metrics_addr := a_metrics_addr a; debug_addr := a_debug_addr a;
     s_dry_run := a_dry_run a; policy_mode := a_policy_mode a;
     s_device_allow := list "device-allow" (a_device_allow a);
     s_device_deny := list "device-deny" (a_device_deny a) |}.

(** The launcher's options, as [run_launch] of src/run.rs makes them. *)
Definition launch_options (l : Launch) : Options :=
  {| host_docker_socket := la_host_docker_socket (l_args l); dbus := la_dbus (l_args l);
     config_dir := la_config_dir (l_args l); host_network := la_host_network (l_args l);
     daemon_args := Some (l_daemon_args l) |}.

(** ** What the scan refuses *)

(** Whether the next argument is the value of this one. *)
Definition takes_value (value_flags : list string) (argument : string) : bool :=
  match strip_prefix "--" argument with
  | Some rest => negb (contains rest "=") && bool_decide (rest ∈ value_flags)
  | None => false
  end.

(** The arguments before [--] that are not the value of the one before them. *)
Fixpoint flag_positions (value_flags : list string) (skip_value : bool) (arguments : list string) : list string :=
  match arguments with
  | [] => []
  | a :: arguments =>
      if skip_value then flag_positions value_flags false arguments
      else
        let a := from_utf8_lossy a in
        if bool_decide (a = "--") then []
        else a :: flag_positions value_flags (takes_value value_flags a) arguments
  end.

(** What follows the dash of an argument with one. *)
Definition single_dash (a : string) : option string :=
  match strip_prefix "--" a with Some _ => None | None => strip_prefix "-" a end.

(** One dash and more than one character. *)
Definition go_style (a : string) : bool :=
  match single_dash a with Some rest => (1 <? length (utf8_chars rest))%nat | None => false end.

Definition refusal (known : list string) (a : string) : Exit :=
  let name := before "="%char (default "" (single_dash a)) in
  if bool_decide (name ∈ known)
  then refuse ("single-dash long flags are not supported: '-" +:+ name +:+ "'; use '--" +:+ name +:+ "'")
  else refuse ("flag provided but not defined: '-" +:+ name +:+ "'").

(** Names of two characters or more, in ASCII. *)
Definition long_name (n : string) : Prop :=
  match n with String a (String b _) => is_ascii a = true | _ => False end.

Lemma before_long c s : long_name (before c s) -> exists a b rest, s = String a (String b rest) /\ is_ascii a = true.
Proof.
  destruct s as [|a [|b s]]; cbn; [done|..].
  - by case_bool_decide.
  - case_bool_decide; [done|]. case_bool_decide; [done|]. cbn. eauto.
Qed.

Lemma known_go_style c known rest : Forall long_name known -> before c rest ∈ known ->
  (1 <? length (utf8_chars rest))%nat = true.
Proof.
  intros Hk Hin. rewrite Forall_forall in Hk. destruct (before_long _ _ (Hk _ Hin)) as (a & b & r & -> & Ha).
  apply Nat.ltb_lt. by apply utf8_chars_two.
Qed.

Lemma scan_spec vf bf skip arguments :
  Forall long_name (vf ++ bf) ->
  scan vf bf skip arguments =
  match filter (fun a => go_style a = true) (flag_positions vf skip arguments) with
  | [] => Ok tt
  | a :: _ => Err (refusal (vf ++ bf) a)
  end.
Proof.
  intros Hk. revert skip. induction arguments as [|a arguments IH]; intros skip; cbn [scan flag_positions]; [done|].
  destruct skip; [apply IH|]. case_bool_decide as Hd; [done|].
  unfold go_style, takes_value, refusal, single_dash.
  set (text := from_utf8_lossy a) in *. rewrite filter_cons.
  destruct (strip_prefix "--" text) as [rest|] eqn:E1.
  { rewrite decide_False by (rewrite ?E1; done). apply IH. }
  destruct (strip_prefix "-" text) as [rest|] eqn:E2.
  2:{ rewrite decide_False by (rewrite ?E1, ?E2; done). apply IH. }
  rewrite <- bool_decide_or.
  destruct (decide (before "="%char rest ∈ vf ++ bf)) as [Hin|Hnin].
  - rewrite decide_True by (rewrite ?E1, ?E2; by eapply known_go_style). rewrite E1, E2. cbn [default].
    rewrite !bool_decide_eq_true_2; [done|done|by apply elem_of_app].
  - rewrite bool_decide_eq_false_2 by (by rewrite <- elem_of_app).
    destruct (1 <? length (utf8_chars rest))%nat eqn:El.
    + rewrite decide_True by (rewrite ?E1, ?E2; done). rewrite E1, E2. cbn [default].
      by rewrite bool_decide_eq_false_2.
    + rewrite decide_False by (rewrite ?E1, ?E2; done). apply IH.
Qed.

Lemma daemon_flags_long : Forall long_name (VALUE_FLAGS ++ BOOL_FLAGS).
Proof. repeat constructor. Qed.

Lemma launch_flags_long : Forall long_name (LAUNCH_VALUE_FLAGS ++ LAUNCH_BOOL_FLAGS).
Proof. repeat constructor. Qed.

Lemma split_daemon_spec arguments own daemon :
  split_daemon arguments = (own, daemon) ->
  "--" ∉ own /\ (arguments = own ++ "--" :: daemon \/ (arguments = own /\ daemon = [])).
Proof.
  revert own. induction arguments as [|a arguments IH]; intros own; cbn.
  { intros [= <- <-]. split; [apply not_elem_of_nil|by right]. }
  case_bool_decide as Ha; [intros [= <- <-]; subst; split; [apply not_elem_of_nil|by left]|].
  destruct (split_daemon arguments) as [own' daemon'] eqn:E. intros [= <- ->].
  destruct (IH own' eq_refl) as [Hn H]. split; [by apply not_elem_of_cons|].
  destruct H as [->|[-> ->]]; [by left|by right].
Qed.

(** An absolute path that is its own cleaning. *)
Definition clean_path (path : string) : Prop := starts_with path "/" = true /\ clean path = path.

Lemma check_host_path_Ok name path : check_host_path name path = Ok tt -> clean_path path.
Proof.
  unfold check_host_path. destruct (starts_with path "/") eqn:E; cbn; [|done]. by case_bool_decide.
Qed.

Lemma validate_launch_Ok a :
  validate_launch a = Ok tt ->
  validate_enums (la_log_format a) (la_log_level a) "" "flag" = Ok tt /\
  clean_path (la_host_docker_socket a) /\ (la_config_dir a <> "" -> clean_path (la_config_dir a)).
Proof.
  unfold validate_launch. intros H. apply bind_Ok in H as ([] & He%map_err_Ok & H).
  apply bind_Ok in H as ([] & Hs%check_host_path_Ok & H). split_and!; [done..|].
  intros Hne. rewrite bool_decide_eq_false_2 in H by done. cbn [negb] in H. by eapply check_host_path_Ok.
Qed.

Lemma mounts_clean l image_id launcher_id m :
  clean_path (la_host_docker_socket (l_args l)) ->
  (la_config_dir (l_args l) <> "" -> clean_path (la_config_dir (l_args l))) ->
  m ∈ mounts (daemon_spec (launch_options l) image_id launcher_id) -> clean_path (source m).
Proof.
  intros Hs Hc. cbn. rewrite !elem_of_cons, elem_of_app. intros [->|[->|[->|[Hm|Hm]]]].
  - done.
  - by vm_compute.
  - by vm_compute.
  - destruct (la_dbus (l_args l)); [|by apply not_elem_of_nil in Hm].
    apply list_elem_of_singleton in Hm as ->. by vm_compute.
  - case_bool_decide as Hd; cbn in Hm; [by apply not_elem_of_nil in Hm|].
    apply list_elem_of_singleton in Hm as ->. by apply Hc.
Qed.

Section theorems.
Context {clap : Clap}.

(** The argument parser sees no Go-style flag: an argument of one dash and more than
    one character, before [--] and not the value of a flag before it, ends the
    parse with code 2 and a message on stderr that gives the double-dash spelling
    of a known flag; without one the answer is the parser's, with the flags it was
    given on the command line. *)
Theorem single_dash_refused arguments :
  match filter (fun a => go_style a = true) (flag_positions VALUE_FLAGS false (drop 1 arguments)) with
  | a :: _ => exists e, parse arguments = Err e /\ e = refusal (VALUE_FLAGS ++ BOOL_FLAGS) a /\
                code e = 2 /\ stdout e = false
  | [] =>
      match try_get_matches_from arguments with
      | Err e => parse arguments = Err (clap_exit e)
      | Ok m => match from_arg_matches m with
                | Err e => parse arguments = Err (clap_exit e)
                | Ok a => exists p, parse arguments = Ok p /\ args p = a /\
                    forall name, name ∈ set p <-> name ∈ ARG_NAMES /\ from_command_line m name = true
                end
      end
  end.
Proof.
  unfold parse, refuse_single_dash. rewrite scan_spec by apply daemon_flags_long.
  destruct (filter _ (flag_positions _ _ _)) as [|a l].
  1:change (Ok tt ≫= ?k) with (k tt); cbv beta.
  - destruct (try_get_matches_from arguments) as [m|e]; [|done].
    destruct (from_arg_matches m) as [a|e] eqn:Em; [|cbn; by rewrite Em].
    exists {| args := a; set := list_to_set (filter (fun name => from_command_line m name = true) ARG_NAMES) |}.
    split; [cbn [mbind result_bind map_err]; by rewrite Em|]. split; [done|].
    intros name. cbn [set]. rewrite elem_of_list_to_set, list_elem_of_filter. tauto.
  - eexists. split_and!; [done..| |]; unfold refusal; by case_bool_decide.
Qed.

(** A launch that parses splits at the first [--]: what is after it goes to the daemon,
    as text, and only what is before it is the launcher's, which holds no Go-style
    flag and known log flags; every host path the daemon's container is then given
    is absolute and clean. *)
Theorem parse_launch_checked arguments l :
  parse_launch arguments = Ok l ->
  exists own after,
    "--" ∉ own /\ (arguments = own ++ "--" :: after \/ (arguments = own /\ after = [])) /\
    try_parse_from (LAUNCH_COMMAND :: own) = Ok (l_args l) /\ l_daemon_args l = from_utf8_lossy <$> after /\
    Forall (fun a => go_style a = false) (flag_positions LAUNCH_VALUE_FLAGS false own) /\
    validate_enums (la_log_format (l_args l)) (la_log_level (l_args l)) "" "flag" = Ok tt /\
    forall image_id launcher_id,
      let s := daemon_spec (launch_options l) image_id launcher_id in
      cmd s = Some (from_utf8_lossy <$> after) /\ forall m, m ∈ mounts s -> clean_path (source m).
Proof.
  unfold parse_launch. cbn [split_daemon]. rewrite bool_decide_eq_false_2 by done.
  destruct (split_daemon arguments) as [own after] eqn:E. apply split_daemon_spec in E as [Hn Hsplit].
  intros H. apply bind_Ok in H as ([] & Hs & H). apply bind_Ok in H as (a & Ha%map_err_Ok & H).
  apply bind_Ok in H as ([] & (He & Hsock & Hdir)%map_err_Ok%validate_launch_Ok & H). injection H as <-.
  exists own, after. split_and!; [done..| |done|].
  - unfold refuse_single_dash in Hs. rewrite scan_spec in Hs by apply launch_flags_long.
    apply Forall_forall. intros x Hx. destruct (go_style x) eqn:Ex; [|done].
    destruct (filter _ _) as [|y ys] eqn:Ef; [|done].
    assert (Hin : x ∈ []) by (rewrite <- Ef; by apply list_elem_of_filter). by apply not_elem_of_nil in Hin.
  - intros image_id launcher_id. split; [done|]. intros m. by apply mounts_clean.
Qed.

End theorems.

Module CliExample.

(** A parser of the one flag that these runs use. *)
#[local] Instance clap : Clap := {|
  try_get_matches_from := fun a =>
    Ok {| from_command_line := fun name => bool_decide (("--" +:+ name) ∈ a); from_arg_matches := Ok Args_default |};
  try_parse_from := fun a => Ok LaunchArgs_default;
|}.

Lemma go_style_dry_run : parse ["sda"; "--config"; "-x"; "-dry-run=true"] =
  Err (refuse "single-dash long flags are not supported: '-dry-run'; use '--dry-run'").
Proof. by vm_compute. Qed.

Lemma dash_value_kept : (elements ∘ set) <$> parse ["sda"; "--dry-run"; "--config"; "-dry-run"; "-h"] = Ok ["config"; "dry-run"].
Proof. by vm_compute. Qed.

Lemma parse_launch_checked_witness :
  exists l, parse_launch ["--dbus"; "--"; "-dry-run"; "--"] = Ok l /\ l_daemon_args l = ["-dry-run"; "--"] /\
    clean_path (host_docker_socket (launch_options l)).
Proof.
  eexists. split; [vm_compute; reflexivity|].
  destruct (parse_launch_checked ["--dbus"; "--"; "-dry-run"; "--"]
    {| l_args := LaunchArgs_default; l_daemon_args := ["-dry-run"; "--"] |}) as (own & after & _ & _ & _ & Hd & _ & _ & Hm);
    [vm_compute; reflexivity|].
  split; [reflexivity|]. apply (proj2 (Hm "" "") (bind DEFAULT_HOST_DOCKER_SOCKET CONTAINER_DOCKER_SOCKET false)).
  cbn. by left.
Defined.

End CliExample.
