(* ===== verification/Numbers.v ===== *)
(** * Numbers in text, and instants

    [str::parse] of the unsigned integers, which the metrics server's port and the
    dump of the device programs are read with: digits, after a plus if there is one,
    that fit the width. *)

From Stdlib Require Import Ascii.
From S2P Require Import Prelude.
From S2P Require Import Text.
From S2P Require Import TextProofs.
From S2P Require Import V2OpsProofs.

(** Instants, in nanoseconds since the epoch, as jiff splits them: both parts towards
    the epoch. *)
Definition as_second (t : Z) : Z := Z.quot t 1000000000.
Definition subsec_nanosecond (t : Z) : Z := Z.rem t 1000000000.

Definition parse_unsigned (width : Z) (s : string) : option Z :=
  let digits := match s with String c rest => if bool_decide (c = "+"%char) then rest else s | _ => s end in
  let '(ds, rest) := span_digits digits in
  if bool_decide (ds = "") || negb (bool_decide (rest = "")) then None
  else let v := digits_value ds 0 in if v <? 2 ^ width then Some v else None.

Lemma span_digits_all s : all_chars is_digit s = true -> span_digits s = (s, "").
Proof.
  induction s as [|c s IH]; cbn; [done|]. intros [Hc Hs]%andb_true_iff. by rewrite Hc, IH.
Qed.

(** What is written is read back. *)
Lemma parse_unsigned_pretty width z : 0 <= z < 2 ^ width -> parse_unsigned width (pretty z) = Some z.
Proof.
  intros Hz. pose proof (pretty_Z_digits z ltac:(lia)) as Hd. pose proof (pretty_Z_nonempty z ltac:(lia)) as Hn.
  unfold parse_unsigned. destruct (pretty z) as [|c s] eqn:E; [done|].
  rewrite bool_decide_eq_false_2 by (intros ->; by cbn in Hd). rewrite span_digits_all by done.
  rewrite bool_decide_eq_false_2, bool_decide_eq_true_2 by done. cbn [orb negb].
  rewrite <- E, digits_value_pretty by lia. by rewrite (proj2 (Z.ltb_lt _ _)) by lia.
Qed.
