(* ===== verification/Metrics.v ===== *)
(** * The metrics (src/metrics/recorder.rs)

    The families of the recorder, the calls that record into them, and that they
    count: what a series shows is the sum, or the last value, of what was recorded
    for it. A counter is a 64-bit word that wraps. The registry's text and the
    histogram's buckets are the prometheus-client crate's; a histogram is the list
    of what it observed. *)

From S2P Require Import Prelude.
From S2P Require Import Text.
From S2P Require Import Numbers.

Definition RESULT_OK : string := "ok".
Definition RESULT_ERROR : string := "error".

(** A series: the family's registered name, and the value of its label when it has one. *)
Abbreviation Series := (string * option string)%type.

(** The values of the counters and gauges, and what the histogram observed. *)
Record Families := { values : gmap Series Z; apply_duration : list Z }.

Definition EVENTS : string := "sda_events".
Definition RULES_APPLIED : string := "sda_rules_applied".
Definition RELOAD_REAPPLIES : string := "sda_reload_reapplies".
Definition DOCKER_RECONNECTS : string := "sda_docker_reconnects".
Definition CONTAINERS_SCANNED : string := "sda_containers_scanned".
Definition CONTAINERS_SKIPPED : string := "sda_containers_skipped".
Definition DEVICE_FILES_DISCOVERED : string := "sda_device_files_discovered".
Definition CANDIDATES_SKIPPED : string := "sda_device_candidates_skipped".
Definition RULE_FAILURES : string := "sda_rule_failures".
Definition DRY_RUN_SKIPS : string := "sda_dry_run_skips".
Definition LAST_EVENT_TIMESTAMP : string := "sda_last_event_timestamp_seconds".
Definition PENDING_CONTAINERS : string := "sda_reconcile_pending_containers".
Definition RELOAD_INCOMPLETE : string := "sda_reload_incomplete".

(** The families without a label, which read 0 from the start. *)
Definition UNLABELLED : list string :=
  [RELOAD_REAPPLIES; DOCKER_RECONNECTS; CONTAINERS_SCANNED; DEVICE_FILES_DISCOVERED; RULE_FAILURES;
   DRY_RUN_SKIPS; LAST_EVENT_TIMESTAMP; PENDING_CONTAINERS; RELOAD_INCOMPLETE].

Definition Families_new : Families :=
  {| values := list_to_map ((fun name => ((name, None), 0)) <$> UNLABELLED); apply_duration := [] |}.

(** ** The calls *)

(** [get_or_create] and [Counter::inc_by]. *)
Definition inc_by (s : Series) (n : Z) (f : Families) : Families :=
  {| values := <[s := wrapu 64 (default 0 (values f !! s) + n)]> (values f); apply_duration := apply_duration f |}.

(** [Gauge::set]. *)
Definition gauge_set (name : string) (v : Z) (f : Families) : Families :=
  {| values := <[(name, None) := v]> (values f); apply_duration := apply_duration f |}.

Definition observe (d : Z) (f : Families) : Families :=
  {| values := values f; apply_duration := apply_duration f ++ [d] |}.

(** A [usize] as the counters take it: it fits. *)
Definition count_value (count : Z) : Z := if count <? 2 ^ 64 then count else 2 ^ 64 - 1.

Definition last_event_seconds (t : Z) : Z :=
  let seconds := as_second t in if subsec_nanosecond t <? 0 then seconds - 1 else seconds.

Definition pending_value (count : Z) : Z := if count <? 2 ^ 63 then count else 2 ^ 63 - 1.

(** The methods of a recorder. *)
Inductive Call :=
  | record_event (action : string)
  | record_rule_applied (success : bool)
  | inc_reload_reapply
  | inc_docker_reconnect
  | observe_apply_duration (d : Z)
  | record_container_scanned
  | record_container_skipped (reason : string)
  | add_device_files_discovered (count : Z)
  | add_candidates_skipped (reason : string) (count : Z)
  | add_rule_failures (count : Z)
  | add_dry_run_skips (count : Z)
  | set_last_event (t : Z)
  | set_pending_containers (count : Z)
  | set_reload_incomplete (incomplete : bool).

Definition record (c : Call) (f : Families) : Families :=
  match c with
  | record_event action => inc_by (EVENTS, Some action) 1 f
  | record_rule_applied success => inc_by (RULES_APPLIED, Some (if success then RESULT_OK else RESULT_ERROR)) 1 f
  | inc_reload_reapply => inc_by (RELOAD_REAPPLIES, None) 1 f
  | inc_docker_reconnect => inc_by (DOCKER_RECONNECTS, None) 1 f
  | observe_apply_duration d => observe d f
  | record_container_scanned => inc_by (CONTAINERS_SCANNED, None) 1 f
  | record_container_skipped reason => inc_by (CONTAINERS_SKIPPED, Some reason) 1 f
  | add_device_files_discovered count => inc_by (DEVICE_FILES_DISCOVERED, None) (count_value count) f
  | add_candidates_skipped reason count => inc_by (CANDIDATES_SKIPPED, Some reason) (count_value count) f
  | add_rule_failures count => inc_by (RULE_FAILURES, None) (count_value count) f
  | add_dry_run_skips count => inc_by (DRY_RUN_SKIPS, None) (count_value count) f
  | set_last_event t => gauge_set LAST_EVENT_TIMESTAMP (last_event_seconds t) f
  | set_pending_containers count => gauge_set PENDING_CONTAINERS (pending_value count) f
  | set_reload_incomplete incomplete => gauge_set RELOAD_INCOMPLETE (if incomplete then 1 else 0) f
  end.

(** A recorder: [None] is the no-op. *)
Abbreviation Recorder := (option Families).

Definition Recorder_new : Recorder := Some Families_new.
Definition Recorder_record (r : Recorder) (c : Call) : Recorder := record c <$> r.
Definition Recorder_all (calls : list Call) (r : Recorder) : Recorder := foldl Recorder_record r calls.

(** ** What was recorded *)

(** What a call adds to a series, or sets it to. *)
Inductive Change := Adds (n : Z) | Sets (v : Z).

Definition changes (c : Call) : option (Series * Change) :=
  match c with
  | record_event action => Some ((EVENTS, Some action), Adds 1)
  | record_rule_applied true => Some ((RULES_APPLIED, Some RESULT_OK), Adds 1)
  | record_rule_applied false => Some ((RULES_APPLIED, Some RESULT_ERROR), Adds 1)
  | inc_reload_reapply => Some ((RELOAD_REAPPLIES, None), Adds 1)
  | inc_docker_reconnect => Some ((DOCKER_RECONNECTS, None), Adds 1)
  | observe_apply_duration _ => None
  | record_container_scanned => Some ((CONTAINERS_SCANNED, None), Adds 1)
  | record_container_skipped reason => Some ((CONTAINERS_SKIPPED, Some reason), Adds 1)
  | add_device_files_discovered n => Some ((DEVICE_FILES_DISCOVERED, None), Adds n)
  | add_candidates_skipped reason n => Some ((CANDIDATES_SKIPPED, Some reason), Adds n)
  | add_rule_failures n => Some ((RULE_FAILURES, None), Adds n)
  | add_dry_run_skips n => Some ((DRY_RUN_SKIPS, None), Adds n)
  | set_last_event t => Some ((LAST_EVENT_TIMESTAMP, None), Sets (t / 1000000000))
  | set_pending_containers n => Some ((PENDING_CONTAINERS, None), Sets n)
  | set_reload_incomplete b => Some ((RELOAD_INCOMPLETE, None), Sets (Z.b2z b))
  end.

(** The changes of a series, in order. *)
Definition changes_of (s : Series) (calls : list Call) : list Change :=
  omap (fun c => match changes c with Some (s', ch) => if bool_decide (s' = s) then Some ch else None | None => None end)
    calls.

Definition added (ch : Change) : Z := match ch with Adds n => n | Sets _ => 0 end.
Definition total (l : list Change) : Z := foldr (fun ch acc => added ch + acc) 0 l.

(** The arguments are of their types: a [usize], and fewer containers than 2^63. *)
Definition call_ok (c : Call) : Prop :=
  match c with
  | add_device_files_discovered n | add_candidates_skipped _ n | add_rule_failures n | add_dry_run_skips n =>
      0 <= n < 2 ^ 64
  | set_pending_containers n => 0 <= n < 2 ^ 63
  | _ => True
  end.

(** Truncated and adjusted is rounded down. *)
Lemma last_event_floor t : last_event_seconds t = t / 1000000000.
Proof.
  unfold last_event_seconds, as_second, subsec_nanosecond.
  pose proof (Z.quot_rem' t 1000000000). pose proof (Z.div_mod t 1000000000 ltac:(lia)).
  pose proof (Z.mod_pos_bound t 1000000000 ltac:(lia)).
  destruct (Z_lt_le_dec t 0) as [Ht|Ht];
    [pose proof (Z.rem_bound_pos_neg t 1000000000 ltac:(lia) ltac:(lia))
    |pose proof (Z.rem_bound_pos t 1000000000 ltac:(lia) ltac:(lia))];
    destruct (Z.rem t 1000000000 <? 0) eqn:E; lia.
Qed.

(** A call as a change of one series. *)
Definition changed (s : Series) (ch : Change) (f : Families) : Families :=
  match ch with Adds n => inc_by s n f | Sets v => gauge_set s.1 v f end.

Lemma record_changes c f :
  call_ok c ->
  match changes c with
  | Some (s, ch) => record c f = changed s ch f /\ (match ch with Sets _ => s.2 = None | Adds _ => True end)
  | None => exists d, c = observe_apply_duration d /\ record c f = observe d f
  end.
Proof.
  intros Hc. destruct c as [a|[]| | |d| |r|n|r n|n|n|t|n|b]; cbn in *; try done; try (by eexists);
    unfold count_value, pending_value; rewrite ?(proj2 (Z.ltb_lt _ _)) by lia; try done.
  split; [|done]. by rewrite last_event_floor.
Qed.

Lemma changes_snoc s calls c :
  changes_of s (calls ++ [c]) = changes_of s calls ++
    match changes c with Some (s', ch) => if bool_decide (s' = s) then [ch] else [] | None => [] end.
Proof.
  unfold changes_of. rewrite omap_app. f_equal. cbn. destruct (changes c) as [[s' ch]|]; [|done]. by case_bool_decide.
Qed.

Lemma total_app l k : total (l ++ k) = total l + total k.
Proof. unfold total. induction l as [|x l IH]; cbn; lia. Qed.

(** What a series shows after some changes of it. *)
Definition shows (s : Series) (l : list Change) (v : option Z) : Prop :=
  match last l with
  | None => v = if bool_decide (s.2 = None /\ s.1 ∈ UNLABELLED) then Some 0 else None
  | Some (Sets x) => v = Some x
  | Some (Adds _) => Forall (fun ch => exists n, ch = Adds n) l -> v = Some (wrapu 64 (total l))
  end.

Lemma shows_new s : shows s [] (values Families_new !! s).
Proof.
  unfold shows. cbn [last]. unfold Families_new. cbn [values].
  destruct s as [name [label|]]; cbn [fst snd].
  - rewrite bool_decide_eq_false_2 by (by intros []). apply not_elem_of_list_to_map_1.
    intros (? & Hx & Hin)%list_elem_of_fmap. apply list_elem_of_fmap in Hin as (? & -> & _). by cbn in Hx.
  - case_bool_decide as Hin.
    + destruct Hin as [_ Hin]. apply elem_of_list_to_map_1'; [|by apply list_elem_of_fmap; exists name].
      intros y (? & [= -> ->] & _)%list_elem_of_fmap. done.
    + apply not_elem_of_list_to_map_1. intros (? & Hx & Hy)%list_elem_of_fmap.
      apply list_elem_of_fmap in Hy as (n & -> & Hn). cbn in Hx. injection Hx as ->. apply Hin. by split.
Qed.

Lemma shows_changed s l f s' ch :
  match ch with Sets _ => s'.2 = None | Adds _ => True end ->
  shows s l (values f !! s) ->
  shows s (l ++ (if bool_decide (s' = s) then [ch] else [])) (values (changed s' ch f) !! s).
Proof.
  intros Hch Hl. case_bool_decide as Hs.
  - subst s'. unfold shows. rewrite last_snoc. destruct ch as [n|v]; cbn.
    + intros HF. apply Forall_app in HF as [HF _]. rewrite lookup_insert_eq. f_equal. rewrite total_app. cbn.
      unfold shows in Hl. destruct (last l) as [[m|x]|] eqn:El.
      * rewrite (Hl HF). cbn. unfold wrapu. rewrite Z.add_mod_idemp_l by lia. f_equal. lia.
      * apply last_Some in El as [l' ->]. apply Forall_app in HF as [_ HF]. inversion HF as [|? ? [m Hm] ?]. done.
      * apply last_None in El as ->. rewrite Hl. case_bool_decide; cbn; f_equal; lia.
    + destruct s as [name lab]. cbn in Hch |- *. subst. by rewrite lookup_insert_eq.
  - rewrite app_nil_r. destruct ch as [n|v]; cbn; [by rewrite lookup_insert_ne|].
    destruct s' as [name lab]. cbn in Hch. subst. by rewrite lookup_insert_ne.
Qed.

Definition is_duration (c : Call) : option Z := match c with observe_apply_duration d => Some d | _ => None end.

(** A recorder counts: after any calls, a counter shows the sum of what was added to
    it, as a 64-bit word; a gauge shows the last value it was set to, the time of
    an event rounded down; a series with a label is there once it was recorded,
    one without from the start; the histogram holds every duration; and the no-op
    recorder holds nothing. *)
Theorem metrics_count calls :
  Forall call_ok calls ->
  (exists f, Recorder_all calls Recorder_new = Some f /\
    (forall s, shows s (changes_of s calls) (values f !! s)) /\ apply_duration f = omap is_duration calls) /\
  Recorder_all calls None = None.
Proof.
  intros HF. split; [|unfold Recorder_all; clear; by induction calls].
  induction calls as [|c calls IH] using rev_ind.
  { exists Families_new. split_and!; [done|apply shows_new|done]. }
  apply Forall_app in HF as [HF Hc%Forall_inv]. destruct (IH HF) as (f & Hf & Hs & Hd).
  exists (record c f). unfold Recorder_all in *. rewrite foldl_app, Hf. split; [done|].
  pose proof (record_changes c f Hc) as Hch. destruct (changes c) as [[s' ch]|] eqn:E.
  - destruct Hch as [-> Hk]. split.
    + intros s. rewrite changes_snoc, E. by apply shows_changed.
    + rewrite omap_app. cbn. assert (is_duration c = None) as -> by (destruct c; done || (by destruct success)).
      rewrite app_nil_r, <- Hd. by destruct ch.
  - destruct Hch as (d & -> & ->). split.
    + intros s. rewrite changes_snoc. cbn. rewrite app_nil_r. apply Hs.
    + rewrite omap_app. cbn. by rewrite Hd.
Qed.

Module MetricsExample.

Definition calls : list Call :=
  [record_event "start"; record_event "die"; record_event "start"; add_rule_failures 3; add_candidates_skipped "dangling" 0;
   set_last_event (-1); observe_apply_duration 5].

Lemma metrics_count_witness :
  exists f, Recorder_all calls Recorder_new = Some f /\ values f !! (EVENTS, Some "start") = Some 2 /\
    values f !! (LAST_EVENT_TIMESTAMP, None) = Some (-1) /\ values f !! (RULES_APPLIED, Some RESULT_OK) = None.
Proof.
  destruct (metrics_count calls) as [(f & Hf & Hs & _) _]; [repeat constructor; cbn; lia|].
  exists f. split; [exact Hf|]. split_and!.
  - apply (Hs (EVENTS, Some "start")). repeat constructor; by eexists.
  - exact (Hs (LAST_EVENT_TIMESTAMP, None)).
  - exact (Hs (RULES_APPLIED, Some RESULT_OK)).
Defined.

End MetricsExample.
