(* ===== verification/Server.v ===== *)
(** * The metrics server (src/server.rs)

    The routes, and the listener: where an address is bound, and which failure is
    reported when it cannot be. The sockets' calls are outside. The HTTP server is
    service-kit's; [refuse_debug_addr] is with the settings that use it. *)

From S2P Require Import Prelude.
From S2P Require Import Text.
From S2P Require Import Numbers.

Definition METRICS_PATH : string := "/metrics".
Definition HEALTHZ_PATH : string := "/healthz".
Definition READYZ_PATH : string := "/readyz".

(** Deadlines, in nanoseconds. *)
Definition SERVER_SHUTDOWN_TIMEOUT : Z := 5 * 1000000000.
Definition HEADER_READ_TIMEOUT : Z := 5 * 1000000000.
Definition WRITE_STALL_TIMEOUT : Z := 30 * 1000000000.

(** The content type of the exposition (src/metrics/mod.rs). *)
Definition CONTENT_TYPE : string := "application/openmetrics-text; version=1.0.0; charset=utf-8".

Record Response := { status : Z; content_type : option string; response_body : string }.

(** A request by its path: any method is answered. *)
Definition router (ready : bool) (exposition : string) (path : string) : Response :=
  if bool_decide (path = METRICS_PATH) then
    {| status := 200; content_type := Some CONTENT_TYPE; response_body := exposition |}
  else if bool_decide (path = HEALTHZ_PATH) then
    {| status := 200; content_type := None; response_body := "ok" |}
  else if bool_decide (path = READYZ_PATH) then
    if ready then {| status := 200; content_type := None; response_body := "ok" |}
    else {| status := 503; content_type := None; response_body := "not ready" |}
  else {| status := 404; content_type := None; response_body := "" |}.

(** ** The listener *)

Inductive Family := V4 | V6.
Inductive SocketCall := SocketNew | SetOnlyV6 | SetReuse | SetNonblocking | SocketBind | SocketListen | ToTokio.

(** An error of the system; one made anew with its kind and text; a refused port. *)
Inductive IoError := OsError (errno : Z) | Renewed (errno : Z) | InvalidPort (port : string).

Class Net := {
  socket_call : Family -> Z -> SocketCall -> result Z unit;
  tcp_bind : string -> result Z unit;
  (** [ErrorKind::AddrNotAvailable] or [ErrorKind::Unsupported]. *)
  kind_unavailable : Z -> bool;
  net_error_text : Z -> string;
}.

Definition EAFNOSUPPORT : Z := 97.

Section net.
Context {net : Net}.

(** [quote] is the [{:?}] that [bind] prints a refused port with. *)
Definition IoError_text (e : IoError) : string :=
  match e with
  | OsError errno | Renewed errno => net_error_text errno
  | InvalidPort port => "invalid port " +:+ quote port
  end.

Definition ipv6_unavailable (errno : Z) : bool := kind_unavailable errno || bool_decide (errno = EAFNOSUPPORT).

Definition listen_on (f : Family) (port : Z) : result Z Family :=
  _ ← socket_call f port SetReuse;
  _ ← socket_call f port SetNonblocking;
  _ ← socket_call f port SocketBind;
  _ ← socket_call f port SocketListen;
  _ ← socket_call f port ToTokio;
  Ok f.

Definition dual_stack (port : Z) : result Z Family :=
  _ ← socket_call V6 port SocketNew;
  _ ← socket_call V6 port SetOnlyV6;
  listen_on V6 port.

Definition wildcard (port : Z) : result IoError Family :=
  match dual_stack port with
  | Ok listener => Ok listener
  | Err first =>
      if ipv6_unavailable first then
        _ ← map_err (fun _ => Renewed first) (socket_call V4 port SocketNew);
        map_err (fun _ => OsError first) (listen_on V4 port)
      else Err (OsError first)
  end.

(** Where [bind] listens: every interface of a family, or an address. *)
Definition bind (address : string) : result IoError (Family + string) :=
  match strip_prefix ":" address with
  | Some port => port ← ok_or (parse_unsigned 16 port) (InvalidPort port); inl <$> wildcard port
  | None => (fun _ => inr address) <$> map_err OsError (tcp_bind address)
  end.

(** [StartError]'s text. *)
Definition start_metrics_server (address : string) : result string unit :=
  match bind address with
  | Ok _ => Ok tt
  | Err cause => Err ("metrics server: listen on " +:+ address +:+ ": " +:+ IoError_text cause)
  end.

(** [start_server] of src/run.rs: none without an address. *)
Definition start_server (address : string) : result string bool :=
  if bool_decide (address = "") then Ok false
  else _ ← map_err (fun e => "start metrics server: " +:+ e) (start_metrics_server address); Ok true.

(** IPv4 alone is listened on only where IPv6 is not there, and a failure always
    reads as the first one. *)
Lemma wildcard_first port :
  match wildcard port with
  | Ok V6 => dual_stack port = Ok V6
  | Ok V4 => exists first, dual_stack port = Err first /\ ipv6_unavailable first = true
  | Err e => exists first, dual_stack port = Err first /\ IoError_text e = net_error_text first
  end.
Proof.
  assert (Hl : forall f l, listen_on f port = Ok l -> l = f).
  { intros f l H. unfold listen_on in H. repeat (apply bind_Ok in H as ([] & _ & H)). congruence. }
  unfold wildcard. destruct (dual_stack port) as [l|first] eqn:E.
  - unfold dual_stack in E. apply bind_Ok in E as ([] & _ & E). apply bind_Ok in E as ([] & _ & E).
    by rewrite (Hl _ _ E).
  - destruct (ipv6_unavailable first) eqn:Eu; [|by exists first].
    destruct (socket_call V4 port SocketNew) as [[]|e]; cbn; [|by exists first].
    destruct (listen_on V4 port) as [l|e] eqn:El; cbn; [|by exists first].
    rewrite (Hl _ _ El). by exists first.
Qed.

End net.
