(* ===== verification/Run.v ===== *)
(** * The binary's wiring (src/run.rs, src/main.rs, src/logging.rs)

    From the arguments to the exit code: the command line parsed, the config file
    merged under the flags and checked, and then, in order, what is installed,
    opened and started; or the launcher, whose daemon's status is the exit code.
    What is outside (the argument parser, the YAML parser, the files, the kernel,
    the Docker client, the sockets, the engine) is the classes of the components and
    [Host]. The daemon's own run is the components that model it. *)

From S2P Require Import Prelude.
From S2P Require Import Text.
From S2P Require Import Policy.
From S2P Require Import DevFs.
From S2P Require Import Reconcile.
From S2P Require Import Settings.
From S2P Require Import Yaml.
From S2P Require Import YamlDecode.
From S2P Require Import YamlProofs.
From S2P Require Import SelfId.
From S2P Require Import LaunchSpec.
From S2P Require Import Launch.
From S2P Require Import LaunchProofs.
From S2P Require Import Cli.
From S2P Require Import Server.

(** [Timing::default] of src/launcher/mod.rs. *)
Definition DOCKER_CALL_TIMEOUT : Z := 10 * 1000000000.
Definition SHUTDOWN_BUDGET : Z := STOP_TIMEOUT * 1000000000.
Definition LAUNCHER_BUDGET : Z := STOP_TIMEOUT * 1000000000 + DOCKER_CALL_TIMEOUT.

Inductive Format := FormatJson | FormatText.

Definition format (name : string) : Format := if bool_decide (name = "json") then FormatJson else FormatText.

(** What the system answers. *)
Class Host := {
  yaml_events : string -> Parser;
  file_open : string -> result Z unit;
  file_read : string -> result Z string;
  host_error_text : Z -> string;
  openat2_answer : result Z unit;
  docker_client : string -> result string unit;
  host_self_id : result SelfIdError string;
  remove_memlock : result string unit;
}.

(** What [run_with] does, in order. *)
Inductive RunEffect :=
  | Print (out : bool) (text : string)
  | RegisterHangups
  | InstallLogger (f : Format) (level : string) (time : bool)
  | NewStore (r : Runtime)
  | Announce (dry_run_warning : bool) (memlock : result string unit)
  | RegisterShutdown
  | OpenDocker (socket : string) (answer : result string unit)
  | StartServer (address : string) (answer : result string bool)
  | WatchHangups (path : string) (flags : Settings) (cli_set : gset string) (current : Settings)
  | RunDaemon (s : Settings) (r : Runtime)
  | StopServer.

(** How it ended: an exit code, or a panic. *)
Inductive Ended := Exited (code : Z) | RunPanicked.

(** Why a startup stopped. *)
Inductive Stopped := Message (text : string) | StartPanicked.

Section run.
Context `{crate : GlobCrate, clap : Clap, host : Host, net : Net, outside : Outside}.

Definition startup_settings (flags : Settings) (parsed : Parsed) : result Stopped (Settings * Runtime) :=
  let path := a_config (args parsed) in
  file ← match load_file yaml_events path (file_open path) (file_read path) with
         | Ok file => Ok file
         | Err LoadPanicked => Err StartPanicked
         | Err e => Err (Message ("config file error: " +:+ LoadError_text host_error_text e))
         end;
  let effective := merge flags (set parsed) file in
  runtime ← map_err (fun e => Message ("invalid config: " +:+ e)) (validate effective);
  _ ← map_err (fun e => Message ("unsupported kernel: " +:+ ProbeError_text host_error_text e))
        (probe_openat2 openat2_answer);
  Ok (effective, runtime).

(** The daemon once its settings stand. *)
Definition start_daemon (parsed : Parsed) (effective : Settings) (runtime : Runtime) : list RunEffect * Ended :=
  let opened := docker_client (docker_socket effective) in
  let before :=
    [InstallLogger (format (log_format effective)) (log_level effective) (log_time effective); NewStore runtime;
     Announce (dry_run runtime) remove_memlock; RegisterShutdown; OpenDocker (docker_socket effective) opened] in
  match opened with
  | Err _ => (before, Exited 1)
  | Ok _ =>
      let server := start_server (metrics_addr effective) in
      let before := before ++ [StartServer (metrics_addr effective) server] in
      match server with
      | Err _ => (before, Exited 1)
      | Ok running =>
          (before ++ [WatchHangups (a_config (args parsed)) (from_flags parsed) (set parsed) effective;
                      RunDaemon effective runtime] ++ (if (running : bool) then [StopServer] else []), Exited 0)
      end
  end.

Definition run_daemon (arguments : list string) : list RunEffect * Ended :=
  match parse arguments with
  | Err exit => ([Print (stdout exit) (message exit)], Exited (code exit))
  | Ok parsed =>
      match startup_settings (from_flags parsed) parsed with
      | Err StartPanicked => ([RegisterHangups], RunPanicked)
      | Err (Message text) => ([RegisterHangups; Print false (text +:+ of_char newline)], Exited 1)
      | Ok (effective, runtime) =>
          let '(effects, ended) := start_daemon parsed effective runtime in (RegisterHangups :: effects, ended)
      end
  end.

(** [run_launch]: the exit code, and the trace of the launch. *)
Definition run_launch (arguments : list string) : list RunEffect * Z * Trace :=
  match parse_launch arguments with
  | Err exit => ([Print (stdout exit) (message exit)], code exit, [])
  | Ok l =>
      let before := [InstallLogger (format (la_log_format (l_args l))) (la_log_level (l_args l)) false; RegisterShutdown] in
      match docker_client CONTAINER_DOCKER_SOCKET with
      | Err e => (before ++ [OpenDocker CONTAINER_DOCKER_SOCKET (Err e)], 1, [])
      | Ok _ =>
          let '(ended, tr) := launch LAUNCHER_BUDGET (launch_options l) host_self_id [] in
          (before ++ [OpenDocker CONTAINER_DOCKER_SOCKET (Ok tt)],
           match ended with Ok status => Z.land status 255 | Err _ => 1 end, tr)
      end
  end.

(** [run_with]. *)
Definition run_with (arguments : list string) : list RunEffect * Ended * Trace :=
  if bool_decide (arguments !! 1%nat = Some LAUNCH_COMMAND) then
    let '(effects, exit, tr) := run_launch (drop 2 arguments) in (effects, Exited exit, tr)
  else let '(effects, ended) := run_daemon arguments in (effects, ended, []).

(** [main]: [u8::try_from(code).unwrap_or(1)]. *)
Definition process_code (code : Z) : Z := if bool_decide (0 <= code < 256) then code else 1.

End run.

(** ** The settings the daemon runs under *)

(** A setting as the file's decode target of the same key. *)
Definition setting (s : Settings) (index : nat) : Target :=
  match index with
  | 0 => TString (log_format s)
  | 1 => TString (log_level s)
  | 2 => TOptionalBool (Some (log_time s))
  | 3 => TString (docker_socket s)
  | 4 => TOptionalBool (Some (s_dry_run s))
  | 5 => TString (policy_mode s)
  | 6 => TList (s_device_allow s)
  | 7 => TList (s_device_deny s)
  | 8 => TString (metrics_addr s)
  | _ => TString (debug_addr s)
  end%nat.

(** Whether the file says anything. *)
Definition said (t : Target) : bool :=
  match t with
  | TString s => negb (bool_decide (s = ""))
  | TOptionalBool b => bool_decide (is_Some b)
  | TList l => bool_decide (is_Some l)
  | _ => false
  end.

(** The command line over the file over the defaults, key by key. *)
Definition precedence (parsed : Parsed) (file : FileSchema) (s : Settings) : Prop :=
  forall index name shape, KEYS !! index = Some (name, shape) ->
    setting s index =
    if bool_decide (name ∈ set parsed) then setting (from_flags parsed) index
    else if said (field file index) then field file index else setting (from_flags parsed) index.

Lemma merge_precedence parsed file : precedence parsed file (merge (from_flags parsed) (set parsed) file).
Proof.
  intros index name shape.
  do 10 (destruct index as [|index];
    [intros [= <- <-]; cbn -[elem_of]; repeat case_bool_decide; repeat case_match; cbn in *; naive_solver|]). done.
Qed.

Section theorems.
Context `{crate : GlobCrate, clap : Clap, host : Host, net : Net, outside : Outside}.

Lemma startup_settings_Ok parsed effective runtime :
  startup_settings (from_flags parsed) parsed = Ok (effective, runtime) ->
  exists file,
    load_file yaml_events (a_config (args parsed)) (file_open (a_config (args parsed)))
      (file_read (a_config (args parsed))) = Ok file /\
    precedence parsed file effective /\ in_force effective runtime /\ debug_addr effective = "" /\
    validate_enums (log_format effective) (log_level effective) (policy_mode effective) "setting" = Ok tt /\
    openat2_answer = Ok tt.
Proof.
  unfold startup_settings. intros H. apply bind_Ok in H as (file & Hf & H).
  apply bind_Ok in H as (rt & Hv%map_err_Ok & H). apply bind_Ok in H as ([] & Hp%map_err_Ok & H).
  injection H as <- <-. exists file. destruct (validate_ok _ _ Hv) as (Hi & Hd & He).
  split; [|split_and!; [apply merge_precedence|done..|]].
  - destruct (load_file _ _ _ _) as [x|e]; [congruence|by destruct e].
  - unfold probe_openat2 in Hp. destruct openat2_answer as [[]|errno]; [done|by destruct (_ || _)].
Qed.

Lemma start_daemon_runs parsed effective runtime s r effects ended :
  start_daemon parsed effective runtime = (effects, ended) -> RunDaemon s r ∈ effects ->
  s = effective /\ r = runtime /\ ended = Exited 0 /\ docker_client (docker_socket s) = Ok tt /\
  (metrics_addr s <> "" -> start_server (metrics_addr s) = Ok true).
Proof.
  unfold start_daemon. destruct (docker_client (docker_socket effective)) as [[]|e] eqn:Ed.
  2:{ intros [= <- <-] H. repeat (apply elem_of_cons in H as [?|H]; [done|]). by apply not_elem_of_nil in H. }
  destruct (start_server (metrics_addr effective)) as [running|e] eqn:Es.
  2:{ intros [= <- <-] H. repeat (apply elem_of_cons in H as [?|H]; [done|]). by apply not_elem_of_nil in H. }
  intros [= <- <-] H. assert (s = effective /\ r = runtime) as [-> ->].
  { repeat (apply elem_of_cons in H as [H|H]; [try done; by injection H|]).
    destruct running; [|by apply not_elem_of_nil in H].
    apply elem_of_cons in H as [?|H]; [done|by apply not_elem_of_nil in H]. }
  split_and!; try done. intros Hne. rewrite Es. unfold start_server in Es. rewrite bool_decide_eq_false_2 in Es by done.
  apply bind_Ok in Es as ([] & _ & [= <-]). done.
Qed.

(** C39. The daemon runs only under checked settings, and exits with 0 then: each setting
    is the command line's where it was given there, else what the file says, else
    the default; the enumerations and the policy of the published runtime are
    valid, there is no debug address, the kernel has openat2, the Docker client is
    open and the metrics server, where one is asked for, listens. *)
Theorem daemon_runs_checked arguments effects ended tr s r :
  run_with arguments = (effects, ended, tr) -> RunDaemon s r ∈ effects ->
  ended = Exited 0 /\ tr = [] /\ exists parsed file, parse arguments = Ok parsed /\
    load_file yaml_events (a_config (args parsed)) (file_open (a_config (args parsed)))
      (file_read (a_config (args parsed))) = Ok file /\
    precedence parsed file s /\ in_force s r /\ debug_addr s = "" /\
    validate_enums (log_format s) (log_level s) (policy_mode s) "setting" = Ok tt /\
    openat2_answer = Ok tt /\ docker_client (docker_socket s) = Ok tt /\
    (metrics_addr s <> "" -> start_server (metrics_addr s) = Ok true).
Proof.
  unfold run_with. case_bool_decide as Hl.
  { unfold run_launch. intros H Hin. exfalso.
    destruct (parse_launch (drop 2 arguments)) as [l|e];
      [destruct (docker_client _) as [[]|e]; [destruct (launch _ _ _ _)|]|]; injection H as <- <- <-;
      repeat (apply elem_of_cons in Hin as [?|Hin]; [done|]); by apply not_elem_of_nil in Hin. }
  unfold run_daemon. destruct (parse arguments) as [parsed|e] eqn:Ep.
  2:{ intros [= <- <- <-] [?|Hin]%elem_of_cons; [done|by apply not_elem_of_nil in Hin]. }
  destruct (startup_settings (from_flags parsed) parsed) as [[effective runtime]|[text|]] eqn:Es.
  2,3:intros [= <- <- <-] Hin; repeat (apply elem_of_cons in Hin as [?|Hin]; [done|]); by apply not_elem_of_nil in Hin.
  destruct (start_daemon parsed effective runtime) as [effs end_] eqn:Er. intros [= <- <- <-] [?|Hin]%elem_of_cons; [done|].
  destruct (start_daemon_runs _ _ _ _ _ _ _ Er Hin) as (-> & -> & -> & Hc & Hs).
  destruct (startup_settings_Ok _ _ _ Es) as (file & Hf & Hp & Hi & Hd & He & Ho).
  split_and!; [done..|]. exists parsed, file. by split_and!.
Qed.

(** The launcher's exit code: its parser's when the arguments do not parse, 1 when the
    launch fails, and otherwise the low byte of the status that the wait reported
    for the daemon it started; the process exits with just that, and what the
    launch did to the containers is justified as a launch of these options is. *)
Theorem launcher_exit_code arguments l launcher :
  arguments !! 1%nat = Some LAUNCH_COMMAND -> parse_launch (drop 2 arguments) = Ok l ->
  host_self_id = Ok launcher -> docker_client CONTAINER_DOCKER_SOCKET = Ok tt ->
  exists effects code tr ended, run_with arguments = (effects, Exited code, tr) /\
    guarded (launch_options l) launcher tr /\ settled ended tr /\
    process_code code = match ended with Ok status => status mod 256 | Err _ => 1 end.
Proof.
  intros Ha Hl Hid Hd. unfold run_with. rewrite bool_decide_eq_true_2 by done. unfold run_launch.
  rewrite Hl, Hd, Hid. destruct (ok_launch (launch_options l) launcher LAUNCHER_BUDGET (Ok launcher))
    as (ended & tr & E & _ & HG & Hs); [by intros id [= <-]|by intros [] ? ? ?|].
  rewrite E. eexists _, _, tr, ended. split; [done|]. split_and!; [done|auto|].
  destruct ended as [status|e]; [|done]. change 255 with (Z.ones 8). rewrite Z.land_ones by lia.
  unfold process_code. rewrite bool_decide_eq_true_2; [done|]. apply Z.mod_pos_bound. lia.
Qed.

End theorems.

Module RunExample.

#[local] Instance any_crate : GlobCrate := {|
  Pattern := string; Pattern_new := Some; matches_with := fun p n _ => bool_decide (p = n);
|}.

(** [--config=/etc/sda.yaml --dry-run=false], as clap reads it. *)
#[local] Instance clap : Clap := {|
  try_get_matches_from := fun _ =>
    Ok {| from_command_line := fun name => bool_decide (name ∈ ["config"; "dry-run"]);
          from_arg_matches := Ok {| a_log_format := "text"; a_log_level := "info"; a_log_time := false;
            a_docker_socket := "/var/run/docker.sock"; a_dry_run := false; a_policy_mode := "opt-in";
            a_device_allow := []; a_device_deny := []; a_metrics_addr := ""; a_debug_addr := "";
            a_config := "/etc/sda.yaml" |} |};
  try_parse_from := fun _ => Ok LaunchArgs_default;
|}.

(** A host whose file is the one of the config example. *)
#[local] Instance host : Host := {|
  yaml_events _ := YamlExample.document_of YamlExample.good; file_open _ := Ok tt; file_read _ := Ok "x";
  host_error_text _ := ""; openat2_answer := Ok tt; docker_client _ := Ok tt; host_self_id := Ok "new";
  remove_memlock := Ok tt;
|}.

#[local] Instance net : Net := {|
  socket_call _ _ _ := Ok tt; tcp_bind _ := Ok tt; kind_unavailable _ := false; net_error_text _ := "";
|}.

(** An engine on which the daemon ends with status 300. *)
#[local] Instance engine : Outside := {|
  o_inspect id _ := Ok {| i_image := "sha256:1"; i_running := Some true |};
  o_list_daemons _ := Ok [];
  o_remove _ _ := Ok tt;
  o_create _ _ := Ok {| created_id := "d1"; created_warnings := [] |};
  o_attach _ _ := Ok tt;
  o_wait_removed _ _ := Ok tt;
  o_start _ _ := Ok tt;
  o_stop _ _ _ := Ok tt;
  o_wake_or_copy _ := Woke (WaitAnswered (Ok {| status_code := 300; wait_error := None |}));
  o_wake _ := ContextDone;
  o_wait_or_budget _ := None;
  o_ticks _ := 0%nat;
  o_drain _ := Some (Ok tt);
|}.

Definition arguments : list string := ["sda"; "--config=/etc/sda.yaml"; "--dry-run=false"].

(** The file's [dry-run: true] gives way to the command line; its allow list stands. *)
Definition effective : Settings :=
  {| log_format := "text"; log_level := "info"; log_time := false; docker_socket := "/var/run/docker.sock";
     metrics_addr := ""; debug_addr := ""; s_dry_run := false; policy_mode := "opt-in";
     s_device_allow := Some ["/dev/null"]; s_device_deny := None |}.

Lemma daemon_runs_checked_witness :
  exists effects ended tr r, run_with arguments = (effects, ended, tr) /\ RunDaemon effective r ∈ effects /\
    in_force effective r.
Proof.
  eexists _, _, _, _. split; [vm_compute; reflexivity|]. split; [apply list_elem_of_In; cbn; tauto|].
  edestruct (daemon_runs_checked arguments) as (_ & _ & parsed & file & _ & _ & _ & Hi & _);
    [vm_compute; reflexivity| |exact Hi].
  apply list_elem_of_In. cbn. tauto.
Defined.

Lemma launcher_exit_code_witness :
  exists effects code tr, run_with ["sda"; "launch"; "--"; "--dry-run"] = (effects, Exited code, tr) /\
    process_code code = 44.
Proof.
  destruct (launcher_exit_code ["sda"; "launch"; "--"; "--dry-run"]
    {| l_args := LaunchArgs_default; l_daemon_args := ["--dry-run"] |} "new")
    as (effects & code & tr & ended & E & _); [reflexivity|vm_compute; reflexivity|reflexivity|reflexivity|].
  exists effects, code, tr. split; [exact E|]. vm_compute in E. injection E as _ <- _. reflexivity.
Defined.

End RunExample.
