(* ===== verification/Enforce.v ===== *)
(** * The enforcement checks (testenv/src/enforce.rs)

    What the integration tests decide without Docker: whether a missing prerequisite
    fails or skips, the text a dump of the device programs of a cgroup travels in,
    the classification of the programs in it, and the judgement of a dump after a
    grant and after a revocation. The problems of a judgement are values with what
    their texts show; the texts, with their hashes, are not modelled. Reading the
    programs is in Enforcement.v. *)

From Stdlib Require Import Ascii.
From stdpp Require Import sorting.
From S2P Require Import Prelude.
From S2P Require Import Text.
From S2P Require Import TextProofs.
From S2P Require Import Utf8.
From S2P Require Import Numbers.
From S2P Require Import Ebpf.
From S2P Require Import Owned.
From S2P Require Import OwnedProofs.
From S2P Require Import Filter.

(** ** Verdicts *)

Definition ENV_ENFORCE : string := "SDA_IT_ENFORCE".
Definition ENV_REQUIRE_RELOAD : string := "SDA_IT_REQUIRE_RELOAD".

Definition flag_set (value : option string) : bool := bool_decide (value = Some "1").

Definition go_test_image (value : option string) : option string :=
  image ← value; if bool_decide (image = "") then None else Some image.

Inductive Verdict := Fail (message : string) | Skip (message : string).

Definition missing_prerequisite (strict : bool) (cause : string) : Verdict :=
  if strict then Fail ("missing prerequisite (" +:+ ENV_ENFORCE +:+ "=1 makes this a failure): " +:+ cause)
  else Skip ("missing prerequisite: " +:+ cause).

Definition reload_unsupported (required : bool) (cause : string) : Verdict :=
  if required then Fail ("reload scenario required by " +:+ ENV_REQUIRE_RELOAD +:+ "=1: " +:+ cause)
  else Skip ("reload scenario not supported on this host (set " +:+ ENV_REQUIRE_RELOAD
             +:+ "=1 to fail instead): " +:+ cause).

Inductive Build := Go | Rust.

Definition daemon_args (b : Build) (flags : list string) : list string :=
  let dashes := match b with Go => "-" | Rust => "--" end in
  (fun flag => dashes +:+ flag) <$> ["policy-mode=opt-in"; "log-format=json"; "log-level=debug"] ++ flags.

(** ** The dump *)

Record ProgramDump := {
  cgroup : string;
  inode : Z;
  total : Z;
  inaccessible : Z;
  attach_flags : Z;
  programs : list (list Z);
}.

Definition hex_pair (b : Z) : string :=
  String (hex_digit (Z.to_nat (b / 16))) (of_char (hex_digit (Z.to_nat (b mod 16)))).

Definition hex (raw : list Z) : string := concat_all (hex_pair <$> raw).

Definition dump_line (key value : string) : string := key +:+ " " +:+ value.

Definition dump_lines (d : ProgramDump) : list string :=
  [dump_line "cgroup" (cgroup d); dump_line "inode" (pretty (inode d)); dump_line "total" (pretty (total d));
   dump_line "inaccessible" (pretty (inaccessible d)); dump_line "attach_flags" (pretty (attach_flags d))]
  ++ ((fun p => dump_line "program" (hex p)) <$> programs d).

Definition render (d : ProgramDump) : string := unlines (dump_lines d).

Inductive DumpError :=
  | MalformedLine (line : string)
  | CgroupTwice
  | UnknownLine (line : string)
  | BadNumber (line : string)
  | GivenTwice (key : string)
  | Missing (name : string)
  | BadHex (text : string)
  | OutOfRange (name : string).

(** [str::split_once(' ')]. *)
Fixpoint split_once (s : string) : option (string * string) :=
  match s with
  | EmptyString => None
  | String c s =>
      if bool_decide (c = " "%char) then Some ("", s)
      else '(a, b) ← split_once s; Some (String c a, b)
  end.

(** The pairs of digits; an odd one is left over. *)
Fixpoint unhex_pairs (s : string) : option (list Z) :=
  match s with
  | EmptyString => Some []
  | String a (String b s) =>
      high ← hex_value a; low ← hex_value b; rest ← unhex_pairs s; Some (high * 16 + low :: rest)
  | String _ EmptyString => None
  end.

Definition unhex (text : string) : result DumpError (list Z) := ok_or (unhex_pairs text) (BadHex text).

(** What [parse] holds while it reads. *)
Record Reading := {
  r_cgroup : option string;
  r_inode : option Z;
  r_total : option Z;
  r_inaccessible : option Z;
  r_attach_flags : option Z;
  r_programs : list (list Z);
}.

Definition Reading_start : Reading :=
  {| r_cgroup := None; r_inode := None; r_total := None; r_inaccessible := None; r_attach_flags := None;
     r_programs := [] |}.

(** A number's slot: what it holds, and the reading with another. *)
Definition slot (key : string) (r : Reading) : option (option Z * (Z -> Reading)) :=
  if bool_decide (key = "inode") then
    Some (r_inode r, fun n => {| r_cgroup := r_cgroup r; r_inode := Some n; r_total := r_total r;
      r_inaccessible := r_inaccessible r; r_attach_flags := r_attach_flags r; r_programs := r_programs r |})
  else if bool_decide (key = "total") then
    Some (r_total r, fun n => {| r_cgroup := r_cgroup r; r_inode := r_inode r; r_total := Some n;
      r_inaccessible := r_inaccessible r; r_attach_flags := r_attach_flags r; r_programs := r_programs r |})
  else if bool_decide (key = "inaccessible") then
    Some (r_inaccessible r, fun n => {| r_cgroup := r_cgroup r; r_inode := r_inode r; r_total := r_total r;
      r_inaccessible := Some n; r_attach_flags := r_attach_flags r; r_programs := r_programs r |})
  else if bool_decide (key = "attach_flags") then
    Some (r_attach_flags r, fun n => {| r_cgroup := r_cgroup r; r_inode := r_inode r; r_total := r_total r;
      r_inaccessible := r_inaccessible r; r_attach_flags := Some n; r_programs := r_programs r |})
  else None.

Definition read_line (r : Reading) (line : string) : result DumpError Reading :=
  '(key, value) ← ok_or (split_once line) (MalformedLine line);
  if bool_decide (key = "cgroup") then
    match r_cgroup r with
    | Some _ => Err CgroupTwice
    | None => Ok {| r_cgroup := Some value; r_inode := r_inode r; r_total := r_total r;
        r_inaccessible := r_inaccessible r; r_attach_flags := r_attach_flags r; r_programs := r_programs r |}
    end
  else if bool_decide (key = "program") then
    raw ← unhex value;
    Ok {| r_cgroup := r_cgroup r; r_inode := r_inode r; r_total := r_total r; r_inaccessible := r_inaccessible r;
          r_attach_flags := r_attach_flags r; r_programs := r_programs r ++ [raw] |}
  else match slot key r with
  | None => Err (UnknownLine line)
  | Some (held, fill) =>
      n ← ok_or (parse_unsigned 64 value) (BadNumber line);
      match held with Some _ => Err (GivenTwice key) | None => Ok (fill n) end
  end.

Fixpoint read_lines (r : Reading) (ls : list string) : result DumpError Reading :=
  match ls with [] => Ok r | l :: ls => r ← read_line r l; read_lines r ls end.

(** [ProgramDump::parse]; a [usize] holds every [u64]. *)
Definition parse (text : string) : result DumpError ProgramDump :=
  r ← read_lines Reading_start (str_lines text);
  cgroup ← ok_or (r_cgroup r) (Missing "cgroup");
  inode ← ok_or (r_inode r) (Missing "inode");
  total ← ok_or (r_total r) (Missing "total");
  inaccessible ← ok_or (r_inaccessible r) (Missing "inaccessible");
  attach_flags ← ok_or (r_attach_flags r) (Missing "attach_flags");
  if attach_flags <? 2 ^ 32 then
    Ok {| cgroup := cgroup; inode := inode; total := total; inaccessible := inaccessible;
          attach_flags := attach_flags; programs := r_programs r |}
  else Err (OutOfRange "attach_flags").

(** ** Judging the programs *)

Inductive Classified :=
  | Bare
  | Wrapper (nonce : Z) (rules : list DeviceRule) (original : list Z) (nested : bool).

(** A problem of a judgement, by the program's index where it is one program's. *)
Inductive Problem :=
  | NotOpened (count : Z)
  | NotAccounted (reported held : Z)
  | AttachedBare (index : nat)
  | WrapsWrapper (index : nat)
  | GrantsNothing (index : nat)
  | SecondOfLineage (index : nat) (nonce : Z)
  | OtherRules (index : nat) (rules first : list DeviceRule)
  | Conflicting (index : nat) (e : OwnedError)
  | WrongOriginals (found : list (list Z))
  | WrapperLeft (index : nat) (nonce : Z)
  | NoneAttached.

Definition accounting_problems (d : ProgramDump) : list Problem :=
  (if 0 <? inaccessible d then [NotOpened (inaccessible d)] else []) ++
  (if negb (total d =? Z.of_nat (length (programs d)) + inaccessible d)
   then [NotAccounted (total d) (Z.of_nat (length (programs d)))] else []).

(** The lexicographic order of byte vectors, and their sort. *)
Fixpoint lex_le (a b : list Z) : bool :=
  match a, b with
  | [], _ => true
  | _ :: _, [] => false
  | x :: a, y :: b => (x <? y) || ((x =? y) && lex_le a b)
  end.

Definition lexicographic (a b : list Z) : Prop := lex_le a b = true.

#[global] Instance lexicographic_dec a b : Decision (lexicographic a b).
Proof. unfold lexicographic. apply _. Defined.

Definition same_multiset (left right : list (list Z)) : bool :=
  bool_decide (merge_sort lexicographic left = merge_sort lexicographic right).

Section judge.
Context `{HostEndian} (sha256 : list Z -> list Z).

Definition classify (raw : list Z) : result OwnedError Classified :=
  innermost ← parse_owned_innermost sha256 raw;
  match innermost with
  | None => Ok Bare
  | Some p =>
      immediate ← parse_owned sha256 raw;
      Ok (Wrapper (nonce p) (rules p) (original p)
            (match immediate with Some outer => negb (bool_decide (original outer = original p)) | None => false end))
  end.

(** What the loop of [granted_problems] holds: the originals, lineages and rule sets
    so far. *)
Record Seen := { wrapped : list (list Z); nonces : list Z; rule_sets : list (list DeviceRule) }.

Definition Seen_start : Seen := {| wrapped := []; nonces := []; rule_sets := [] |}.

Definition judge_granted (index : nat) (raw : list Z) (s : Seen) : list Problem * Seen :=
  match classify raw with
  | Err e => ([Conflicting index e], s)
  | Ok Bare => ([AttachedBare index], s)
  | Ok (Wrapper n rs orig nested) =>
      ((if nested : bool then [WrapsWrapper index] else []) ++
       (if bool_decide (rs = []) then [GrantsNothing index] else []) ++
       (if bool_decide (n ∈ nonces s) then [SecondOfLineage index n] else []) ++
       (match rule_sets s with
        | first :: _ => if bool_decide (first <> rs) then [OtherRules index rs first] else []
        | [] => []
        end),
       {| wrapped := wrapped s ++ [orig]; nonces := nonces s ++ [n]; rule_sets := rule_sets s ++ [rs] |})
  end.

Fixpoint judge_all (index : nat) (raws : list (list Z)) (s : Seen) : list Problem * Seen :=
  match raws with
  | [] => ([], s)
  | raw :: raws =>
      let '(ps, s) := judge_granted index raw s in
      let '(rest, s) := judge_all (S index) raws s in (ps ++ rest, s)
  end.

Definition granted_problems (originals : list (list Z)) (d : ProgramDump) : list Problem :=
  let '(ps, s) := judge_all 0 (programs d) Seen_start in
  accounting_problems d ++ ps ++ (if same_multiset (wrapped s) originals then [] else [WrongOriginals (wrapped s)]).

Fixpoint judge_revoked (index : nat) (raws : list (list Z)) : list Problem * list (list Z) :=
  match raws with
  | [] => ([], [])
  | raw :: raws =>
      let '(ps, bares) := judge_revoked (S index) raws in
      match classify raw with
      | Ok Bare => (ps, raw :: bares)
      | Ok (Wrapper n _ _ _) => (WrapperLeft index n :: ps, bares)
      | Err e => (Conflicting index e :: ps, bares)
      end
  end.

Definition revoked_problems (originals : list (list Z)) (d : ProgramDump) : list Problem :=
  let '(ps, bares) := judge_revoked 0 (programs d) in
  accounting_problems d ++ ps ++ (if same_multiset bares originals then [] else [WrongOriginals bares]).

Definition runtime_originals (d : ProgramDump) : result (list Problem) (list (list Z)) :=
  let problems :=
    accounting_problems d ++ (if bool_decide (programs d = []) then [NoneAttached] else []) ++
    (judge_revoked 0 (programs d)).1 in
  match problems with [] => Ok (programs d) | _ => Err problems end.

End judge.

Definition cgroup_problem (baseline d : ProgramDump) : bool :=
  negb (bool_decide (cgroup baseline = cgroup d)) || negb (inode baseline =? inode d).

(** ** The dump's text is read back *)

Lemma length_snoc_newline l : Strings.String.length (l +:+ of_char newline) = S (Strings.String.length l).
Proof. rewrite length_append. cbn. lia. Qed.

Lemma get_after l c r : Strings.String.get (Strings.String.length l) (l +:+ String c r) = Some c.
Proof. by induction l. Qed.

Lemma substring_front l r : Strings.String.substring 0 (Strings.String.length l) (l +:+ r) = l.
Proof. induction l as [|c l IH]; [by destruct r|]. change (String c l +:+ r) with (String c (l +:+ r)). cbn. by f_equal. Qed.

Lemma split_inclusive_line l rest :
  no_newline l = true -> split_inclusive (l +:+ String newline rest) = (l +:+ of_char newline) :: split_inclusive rest.
Proof.
  induction l as [|c l IH]; intros Hn; [done|].
  cbn [no_newline] in Hn. apply andb_true_iff in Hn as [Hc%negb_true_iff Hn].
  change (String c l +:+ String newline rest) with (String c (l +:+ String newline rest)). cbn [split_inclusive].
  rewrite Hc. by rewrite IH.
Qed.

Definition dump_text (s : string) : bool := no_newline s && negb (ends_with_return s).

Lemma str_line_line l : dump_text l = true -> str_line (l +:+ of_char newline) = l.
Proof.
  intros [Hn Hr%negb_true_iff]%andb_true_iff. unfold str_line, ends_line, take_bytes. rewrite length_snoc_newline.
  replace (S (Strings.String.length l) - 1)%nat with (Strings.String.length l) by lia.
  change (of_char newline) with (String newline EmptyString).
  rewrite get_after, bool_decide_eq_true_2, substring_front by done. by apply strip_return_id.
Qed.

Lemma str_lines_unlines ls : Forall (fun l => dump_text l = true) ls -> str_lines (unlines ls) = ls.
Proof.
  intros H. induction H as [|l ls Hl _ IH]; [done|]. unfold str_lines in *. cbn [unlines].
  rewrite split_inclusive_line by (by apply andb_true_iff in Hl as [? _]). rewrite fmap_cons, str_line_line, IH by done. done.
Qed.

(** No byte that a line ends with. *)
Definition plain_char (c : ascii) : bool := negb (bool_decide (c = newline)) && negb (bool_decide (c = return_char)).

Lemma plain_dump_text s : all_chars plain_char s = true -> dump_text s = true.
Proof.
  intros H. apply andb_true_iff. split.
  - induction s as [|c s IH]; [done|]. cbn [all_chars no_newline] in *. unfold plain_char at 1 in H.
    apply andb_true_iff in H as [[Hc _]%andb_true_iff H]. by rewrite Hc, IH.
  - apply negb_true_iff. induction s as [|c s IH]; [done|]. cbn [all_chars] in H. unfold plain_char at 1 in H.
    apply andb_true_iff in H as [[_ Hc%negb_true_iff]%andb_true_iff H]. destruct s as [|d s]; [done|]. by apply IH.
Qed.

Lemma dump_text_line key value :
  no_newline key = true -> dump_text value = true -> dump_text (dump_line key value) = true.
Proof.
  intros Hk [Hn Hr]%andb_true_iff. unfold dump_text, dump_line. apply andb_true_iff. split.
  - rewrite !no_newline_app, Hk, Hn. done.
  - change (" " +:+ value) with (String " "%char value). rewrite ends_with_return_app by done. by destruct value.
Qed.

Lemma digits_plain z : 0 <= z -> dump_text (pretty z) = true.
Proof.
  intros Hz. apply plain_dump_text. eapply all_chars_impl; [|by apply pretty_Z_digits].
  intros c Hc. unfold plain_char. rewrite !bool_decide_eq_false_2; [done|..]; by intros ->.
Qed.

Lemma split_once_line key value :
  all_chars (fun c => negb (bool_decide (c = " "%char))) key = true -> split_once (dump_line key value) = Some (key, value).
Proof.
  unfold dump_line. induction key as [|c key IH]; intros Hk; [done|]. cbn [all_chars] in Hk.
  apply andb_true_iff in Hk as [Hc%negb_true_iff Hk].
  change (String c key +:+ " " +:+ value) with (String c (key +:+ " " +:+ value)). cbn [split_once].
  rewrite Hc, IH by done. done.
Qed.

Lemma hex_pair_byte b : 0 <= b < 256 ->
  all_chars plain_char (hex_pair b) = true /\
  exists x y, hex_pair b = String x (of_char y) /\ hex_value x = Some (b / 16) /\ hex_value y = Some (b mod 16).
Proof.
  intros Hb. assert (Hall : forallb (fun n => let b := Z.of_nat n in
    all_chars plain_char (hex_pair b) && bool_decide (hex_value (hex_digit (Z.to_nat (b / 16))) = Some (b / 16))
    && bool_decide (hex_value (hex_digit (Z.to_nat (b mod 16))) = Some (b mod 16))) (seq 0 256) = true) by (by vm_compute).
  rewrite forallb_forall in Hall. specialize (Hall (Z.to_nat b)). cbv zeta in Hall. rewrite Z2Nat.id in Hall by lia.
  specialize (Hall ltac:(apply in_seq; lia)).
  apply andb_true_iff in Hall as [[H1 H2%bool_decide_eq_true]%andb_true_iff H3%bool_decide_eq_true].
  split; [done|]. eexists _, _. split; [reflexivity|]. done.
Qed.

Lemma unhex_hex raw : bytes_ok raw -> unhex (hex raw) = Ok raw /\ all_chars plain_char (hex raw) = true.
Proof.
  intros Hb. assert (H : unhex_pairs (hex raw) = Some raw /\ all_chars plain_char (hex raw) = true).
  { induction Hb as [|b raw Hb _ IH]; [done|]. destruct (hex_pair_byte b Hb) as (Hp & x & y & E & Hx & Hy).
    destruct IH as [IH1 IH2]. unfold hex in *. rewrite fmap_cons. cbn [concat_all]. split.
    - rewrite E. change (String x (of_char y) +:+ ?s) with (String x (String y s)). cbn [unhex_pairs].
      rewrite Hx, Hy. cbn [mbind option_bind]. rewrite IH1. cbn. f_equal. f_equal.
      pose proof (Z.div_mod b 16 ltac:(lia)). lia.
    - by rewrite all_chars_app, Hp, IH2. }
  destruct H as [H1 H2]. split; [|done]. unfold unhex. by rewrite H1.
Qed.

Record dump_ok (d : ProgramDump) : Prop := {
  do_cgroup : dump_text (cgroup d) = true;
  do_inode : is_u 64 (inode d);
  do_total : is_u 64 (total d);
  do_inaccessible : is_u 64 (inaccessible d);
  do_attach_flags : is_u 32 (attach_flags d);
  do_programs : Forall (Forall (is_u 8)) (programs d);
}.

Definition with_programs (ps : list (list Z)) (r : Reading) : Reading :=
  {| r_cgroup := r_cgroup r; r_inode := r_inode r; r_total := r_total r; r_inaccessible := r_inaccessible r;
     r_attach_flags := r_attach_flags r; r_programs := r_programs r ++ ps |}.

Lemma read_programs ps r :
  Forall (Forall (is_u 8)) ps ->
  read_lines r ((fun p => dump_line "program" (hex p)) <$> ps) = Ok (with_programs ps r).
Proof.
  intros H. revert r. induction H as [|p ps Hp _ IH]; intros r.
  { destruct r. unfold with_programs. cbn. by rewrite app_nil_r. }
  rewrite fmap_cons. cbn [read_lines]. unfold read_line. rewrite split_once_line by done.
  cbn [ok_or mbind result_bind]. rewrite bool_decide_eq_false_2, bool_decide_eq_true_2 by done.
  destruct (unhex_hex p Hp) as [-> _]. cbn [mbind result_bind]. rewrite IH. unfold with_programs. cbn.
  by rewrite <- app_assoc.
Qed.

Lemma read_number key n r held fill :
  all_chars (fun c => negb (bool_decide (c = " "%char))) key = true -> key <> "cgroup" -> key <> "program" ->
  slot key r = Some (None, fill) -> is_u 64 n -> held = fill n ->
  read_line r (dump_line key (pretty n)) = Ok held.
Proof.
  intros Hk H1 H2 Hs Hn ->. unfold read_line. rewrite split_once_line by done. cbn [ok_or mbind result_bind].
  rewrite !bool_decide_eq_false_2, Hs by done. rewrite parse_unsigned_pretty by apply Hn. done.
Qed.

(** Round trip: the text that a dump of the device programs is printed as is read back
    to the very dump, whatever the programs hold. *)
Theorem dump_roundtrip d : dump_ok d -> parse (render d) = Ok d.
Proof.
  intros [Hc Hi Ht Hx Hf Hp]. unfold parse, render. rewrite str_lines_unlines.
  - unfold dump_lines. cbn [app read_lines].
    assert (Hcg : read_line Reading_start (dump_line "cgroup" (cgroup d)) =
      Ok {| r_cgroup := Some (cgroup d); r_inode := None; r_total := None; r_inaccessible := None;
            r_attach_flags := None; r_programs := [] |}) by (unfold read_line; by rewrite split_once_line).
    rewrite Hcg. cbn [mbind result_bind].
    do 4 (erewrite read_number; [|reflexivity|done|done|reflexivity|unfold is_u in *; lia|reflexivity]; cbn [mbind result_bind]).
    rewrite read_programs by done. cbn. rewrite (proj2 (Z.ltb_lt _ _)) by apply Hf. by destruct d.
  - unfold dump_lines. apply Forall_app. split.
    + repeat constructor; apply dump_text_line; try done; apply digits_plain; unfold is_u in *; lia.
    + apply Forall_fmap. eapply Forall_impl; [exact Hp|]. intros p Hb. apply dump_text_line; [done|].
      apply plain_dump_text. by apply unhex_hex.
Qed.

(** ** Multisets *)

#[local] Instance lexicographic_total : Total lexicographic.
Proof.
  intros a. induction a as [|x a IH]; intros b; [by left|]. destruct b as [|y b]; [by right|].
  unfold lexicographic in *. cbn. destruct (IH b) as [H|H]; [destruct (Z.compare_spec x y)|destruct (Z.compare_spec x y)];
    rewrite H, ?andb_true_r; lia.
Qed.

#[local] Instance lexicographic_trans : Transitive lexicographic.
Proof.
  intros a. unfold lexicographic. induction a as [|x a IH]; intros b c; [done|].
  destruct b as [|y b]; [done|]. destruct c as [|z c]; [done|]. cbn. intros H1 H2.
  apply orb_true_iff in H1 as [H1|[H1 H1']%andb_true_iff]; apply orb_true_iff in H2 as [H2|[H2 H2']%andb_true_iff]; try lia.
  rewrite (IH b c) by done. lia.
Qed.

#[local] Instance lexicographic_antisymm : AntiSymm (=) lexicographic.
Proof.
  intros a. unfold lexicographic. induction a as [|x a IH]; intros b; [by destruct b|].
  destruct b as [|y b]; [done|]. cbn. intros H1 H2.
  apply orb_true_iff in H1 as [H1|[H1 H1']%andb_true_iff]; apply orb_true_iff in H2 as [H2|[H2 H2']%andb_true_iff]; try lia.
  f_equal; [lia|by apply IH].
Qed.

Lemma same_multiset_spec a b : same_multiset a b = true <-> a ≡ₚ b.
Proof.
  unfold same_multiset. rewrite bool_decide_eq_true. split.
  - intros E. rewrite <- (merge_sort_Permutation lexicographic a), E. apply merge_sort_Permutation.
  - intros Hp. apply (Sorted_unique lexicographic); [apply (Sorted_merge_sort _)..|].
    rewrite !merge_sort_Permutation. done.
Qed.

(** ** What the judgements accept *)

Section accepts.
Context `{HostEndian} (sha256 : list Z -> list Z).

(** A wrapper's lineage, rules and original. *)
Record Granted := { g_nonce : Z; g_rules : list DeviceRule; g_original : list Z }.

Definition is_granted (raw : list Z) (w : Granted) : Prop :=
  classify sha256 raw = Ok (Wrapper (g_nonce w) (g_rules w) (g_original w) false) /\ g_rules w <> [].

Definition saw (s : Seen) (ws : list Granted) : Seen :=
  {| wrapped := wrapped s ++ (g_original <$> ws); nonces := nonces s ++ (g_nonce <$> ws);
     rule_sets := rule_sets s ++ (g_rules <$> ws) |}.

(** One wrapper per lineage, and one set of rules. *)
Definition agree (s : Seen) : Prop :=
  NoDup (nonces s) /\ forall r r', r ∈ rule_sets s -> r' ∈ rule_sets s -> r = r'.

Lemma agree_snoc s w :
  agree s ->
  agree (saw s [w]) <-> g_nonce w ∉ nonces s /\ match rule_sets s with first :: _ => first = g_rules w | [] => True end.
Proof.
  intros [Hn Hr]. unfold agree, saw. cbn. split.
  - intros [HN HR]. split.
    + apply NoDup_app in HN as (_ & HN & _). intros Hin. eapply HN; [exact Hin|]. by left.
    + destruct (rule_sets s) as [|first l]; [done|]. apply HR; [by left|]. apply elem_of_app. right. by left.
  - intros [Hni Hf]. split.
    + apply NoDup_app. split_and!; [done| |apply NoDup_singleton].
      intros x Hx ->%list_elem_of_singleton. done.
    + assert (Hall : forall r, r ∈ rule_sets s ++ [g_rules w] -> r = g_rules w).
      { intros r [Hx| ->%list_elem_of_singleton]%elem_of_app; [|done].
        destruct (rule_sets s) as [|first l]; [by apply not_elem_of_nil in Hx|]. subst first. apply Hr; [done|by left]. }
      intros r r' H1%Hall H2%Hall. congruence.
Qed.

Lemma judge_granted_nil index raw s s1 :
  agree s ->
  judge_granted sha256 index raw s = ([], s1) <-> exists w, is_granted raw w /\ s1 = saw s [w] /\ agree s1.
Proof.
  intros Hs. unfold judge_granted, is_granted. split.
  - destruct (classify sha256 raw) as [[|n rs o nested]|e]; [done| |done]. intros [= Hp <-].
    apply app_eq_nil in Hp as [Hne Hp]. apply app_eq_nil in Hp as [Hem Hp]. apply app_eq_nil in Hp as [Hno Hru].
    destruct nested; [done|]. destruct (bool_decide (rs = [])) eqn:Hrs; [done|]. apply bool_decide_eq_false in Hrs.
    destruct (bool_decide (n ∈ nonces s)) eqn:Hin; [done|]. apply bool_decide_eq_false in Hin.
    exists {| g_nonce := n; g_rules := rs; g_original := o |}. split_and!; [done..|].
    apply (agree_snoc s {| g_nonce := n; g_rules := rs; g_original := o |}); [done|]. split; [done|].
    destruct (rule_sets s) as [|first l]; [done|]. destruct (bool_decide (first <> rs)) eqn:Hf; [done|].
    apply bool_decide_eq_false in Hf. by destruct (decide (first = rs)).
  - intros (w & [-> Hrs] & -> & Hag). apply agree_snoc in Hag as [Hni Hf]; [|done].
    rewrite !bool_decide_eq_false_2 by done. destruct (rule_sets s) as [|first l] eqn:E.
    + unfold saw. by rewrite E.
    + subst first. rewrite bool_decide_eq_false_2 by (intros []; done). unfold saw. by rewrite E.
Qed.

Lemma judge_all_nil raws index s s' :
  agree s ->
  judge_all sha256 index raws s = ([], s') <->
  exists ws, Forall2 is_granted raws ws /\ s' = saw s ws /\ agree s'.
Proof.
  revert index s. induction raws as [|raw raws IH]; intros index s Hs; cbn [judge_all].
  { split.
    - intros [= <-]. exists []. split_and!; [constructor| |done]. unfold saw. cbn. rewrite !app_nil_r. by destruct s.
    - intros (ws & Hw & -> & _). inversion Hw; subst. unfold saw. cbn. rewrite !app_nil_r. by destruct s. }
  destruct (judge_granted sha256 index raw s) as [ps s1] eqn:E1.
  destruct (judge_all sha256 (S index) raws s1) as [rest s2] eqn:E2. split.
  - intros [= Hps <-]. apply app_eq_nil in Hps as [-> ->]. apply judge_granted_nil in E1 as (w & Hw & -> & Hag); [|done].
    apply IH in E2 as (ws & Hws & -> & Hag'); [|done]. exists (w :: ws). split_and!; [by constructor| |done].
    unfold saw. cbn. by rewrite <- !app_assoc.
  - intros (ws & Hws & -> & Hag). inversion Hws as [|? w ? ws' Hw Hws' ]; subst.
    assert (Hag1 : agree (saw s [w])).
    { destruct Hag as [HN HR]. split.
      - unfold saw in *. cbn in *. rewrite cons_middle, app_assoc in HN. by apply NoDup_app in HN as (HN & _).
      - intros r r' Hr Hr'. apply HR; unfold saw in *; cbn in *; rewrite cons_middle, app_assoc; by apply elem_of_app; left. }
    assert (E : judge_granted sha256 index raw s = ([], saw s [w])) by (apply judge_granted_nil; [done|]; by exists w).
    rewrite E1 in E. injection E as -> ->.
    assert (E : judge_all sha256 (S index) raws (saw s [w]) = ([], saw s (w :: ws'))).
    { apply IH; [done|]. exists ws'. split_and!; [done| |done]. unfold saw. cbn. by rewrite <- !app_assoc. }
    rewrite E2 in E. injection E as -> ->. done.
Qed.

(** Every program is open and counted. *)
Definition accounted (d : ProgramDump) : Prop :=
  inaccessible d <= 0 /\ total d = Z.of_nat (length (programs d)) + inaccessible d.

Lemma accounting_nil d : accounting_problems d = [] <-> accounted d.
Proof.
  unfold accounting_problems, accounted. destruct (0 <? inaccessible d) eqn:E1; [split; [done|lia]|].
  destruct (total d =? _) eqn:E2; cbn; split; intros; try done; lia.
Qed.

Lemma granted_accepts originals d :
  granted_problems sha256 originals d = [] <->
  accounted d /\ exists ws, Forall2 is_granted (programs d) ws /\ NoDup (g_nonce <$> ws) /\
    (forall w w', w ∈ ws -> w' ∈ ws -> g_rules w = g_rules w') /\ (g_original <$> ws) ≡ₚ originals.
Proof.
  assert (H0 : agree Seen_start) by (split; [constructor|]; intros r r' Hr; by apply not_elem_of_nil in Hr).
  unfold granted_problems. destruct (judge_all sha256 0 (programs d) Seen_start) as [ps s] eqn:E.
  assert (Hag : forall ws, agree (saw Seen_start ws) <->
    NoDup (g_nonce <$> ws) /\ forall w w', w ∈ ws -> w' ∈ ws -> g_rules w = g_rules w').
  { intros ws. unfold agree, saw. cbn. split; intros [HN HR]; (split; [done|]).
    - intros w w' Hw Hw'. apply HR; by apply list_elem_of_fmap_2.
    - intros r r' (w & -> & Hw)%list_elem_of_fmap (w' & -> & Hw')%list_elem_of_fmap. by apply HR. }
  split.
  - intros [Ha [Hp Hm]%app_eq_nil]%app_eq_nil. subst ps. split; [by apply accounting_nil|].
    apply judge_all_nil in E as (ws & Hws & -> & Hagree); [|done]. exists ws.
    apply Hag in Hagree as [HN HR]. split_and!; [done..|]. apply same_multiset_spec.
    by destruct (same_multiset _ originals).
  - intros (Ha & ws & Hws & HN & HR & Hm).
    assert (E' : judge_all sha256 0 (programs d) Seen_start = ([], saw Seen_start ws)).
    { apply judge_all_nil; [done|]. exists ws. split_and!; [done..|]. by apply Hag. }
    rewrite E in E'. injection E' as -> ->. rewrite (proj2 (accounting_nil d) Ha). cbn.
    by rewrite (proj2 (same_multiset_spec _ _) Hm).
Qed.

(** C40. A dump has no problem after a grant exactly when every attached program is open
    and counted and is a wrapper that is not nested, the wrappers grant one and
    the same non-empty rules, no two are of one lineage, and their originals are
    the runtime's, each as often. *)
Theorem granted_problems_exact originals d :
  granted_problems sha256 originals d = [] <->
  accounted d /\ exists ws, Forall2 is_granted (programs d) ws /\ NoDup (g_nonce <$> ws) /\
    (forall w w', w ∈ ws -> w' ∈ ws -> g_rules w = g_rules w') /\ (g_original <$> ws) ≡ₚ originals.
Proof. apply granted_accepts. Qed.

Lemma judge_revoked_nil raws index bares :
  judge_revoked sha256 index raws = ([], bares) <->
  bares = raws /\ Forall (fun raw => classify sha256 raw = Ok Bare) raws.
Proof.
  revert index bares. induction raws as [|raw raws IH]; intros index bares; cbn [judge_revoked].
  { split; [by intros [= <-]|]. by intros [-> _]. }
  destruct (judge_revoked sha256 (S index) raws) as [ps rest] eqn:E.
  destruct (classify sha256 raw) as [[|n rs o nested]|e] eqn:Ec.
  - split.
    + intros [= -> <-]. apply IH in E as [-> HF]. split; [done|]. by constructor.
    + intros [-> HF]. inversion HF as [|? ? _ HF']; subst. assert (E' : judge_revoked sha256 (S index) raws = ([], raws)) by (by apply IH).
      rewrite E in E'. by injection E' as -> ->.
  - split; [done|]. intros [_ HF]. inversion HF; congruence.
  - split; [done|]. intros [_ HF]. inversion HF; congruence.
Qed.

(** A dump has no problem after a revocation exactly when every attached program is
    open, counted and bare, and they are the runtime's, each as often. *)
Theorem revoked_problems_exact originals d :
  revoked_problems sha256 originals d = [] <->
  accounted d /\ Forall (fun raw => classify sha256 raw = Ok Bare) (programs d) /\ programs d ≡ₚ originals.
Proof.
  unfold revoked_problems. destruct (judge_revoked sha256 0 (programs d)) as [ps bares] eqn:E. split.
  - intros [Ha [-> Hm]%app_eq_nil]%app_eq_nil. apply judge_revoked_nil in E as [-> HF].
    split_and!; [by apply accounting_nil|done|]. apply same_multiset_spec.
    destruct (same_multiset _ originals); done.
  - intros (Ha & HF & Hm). assert (E' : judge_revoked sha256 0 (programs d) = ([], programs d)) by (by apply judge_revoked_nil).
    rewrite E in E'. injection E' as -> ->. rewrite (proj2 (accounting_nil d) Ha). cbn.
    by rewrite (proj2 (same_multiset_spec _ _) Hm).
Qed.

End accepts.

Module EnforceExample.

#[local] Existing Instance Sample.little.

Definition dump (ps : list (list Z)) : ProgramDump :=
  {| cgroup := "/sys/fs/cgroup/system.slice/docker a"; inode := 42; total := Z.of_nat (length ps); inaccessible := 0;
     attach_flags := 2; programs := ps |}.

(** The wrapper of the sample passes for its original; the original does not, nor does
    the wrapper after a revocation. *)
Lemma sample_granted : granted_problems Sample.digest [Sample.original] (dump [Sample.wrapper]) = [].
Proof. by vm_compute. Qed.

Lemma sample_bare : granted_problems Sample.digest [Sample.original] (dump [Sample.original]) =
  [AttachedBare 0; WrongOriginals []].
Proof. by vm_compute. Qed.

Lemma sample_twice : granted_problems Sample.digest [Sample.original] (dump [Sample.wrapper; Sample.wrapper]) =
  [SecondOfLineage 1 7; WrongOriginals [Sample.original; Sample.original]].
Proof. by vm_compute. Qed.

Lemma sample_left : revoked_problems Sample.digest [Sample.original] (dump [Sample.wrapper]) =
  [WrapperLeft 0 7; WrongOriginals []].
Proof. by vm_compute. Qed.

Lemma dump_roundtrip_witness : parse (render (dump [Sample.wrapper; [0; 255]])) = Ok (dump [Sample.wrapper; [0; 255]]).
Proof.
  apply dump_roundtrip. split; try (vm_compute; done); try (vm_compute; split; [discriminate|reflexivity]).
  constructor; [exact sample_wrapper_bytes|]. constructor; [|constructor].
  apply (bool_decide_eq_true_1 (bytes_ok [0; 255])). vm_compute. reflexivity.
Defined.

End EnforceExample.
