(* ===== verification/Enforcement.v ===== *)
(** * The enforcement tests and the controller (testenv/src/enforce.rs)

    Reading the device programs of a process's cgroup, as the tests do it: the cgroup is
    found and its programs are read with the daemon's own code. And that the judges of the
    tests accept what the controller leaves: after a grant on the filter of a runtime, and
    after its revocation. *)

From S2P Require Import Prelude.
From S2P Require Import Text.
From S2P Require Import Asm.
From S2P Require Import Codec.
From S2P Require Import Ebpf.
From S2P Require Import Owned.
From S2P Require Import OwnedProofs.
From S2P Require Import Filter.
From S2P Require Import V2Ops.
From S2P Require Import Errors.
From S2P Require Import V2.
From S2P Require Import V2Proofs.
From S2P Require Import V2Plans.
From S2P Require Import V2Safety.
From S2P Require Import V2Fake.
From S2P Require Import V2Theorems.
From S2P Require Import V2Exact.
From S2P Require Import ProcCgroup.
From S2P Require Import ProcError.
From S2P Require Import Enforce.

Local Open Scope Z_scope.

(** ** Reading the programs *)

Inductive ReadError :=
  | ReadCgroup (pid : Z) (e : ProcCgroupError)
  | OnCgroupV1 (pid : Z)
  | OpenDir (cgroup : string) (e : string)
  | StatDir (cgroup : string) (e : string)
  | QueryDir (cgroup : string) (e : OpsError)
  | ReadProgram (index : nat) (cgroup : string) (e : OpsError)
  | EncodeProgram (index : nat) (cgroup : string) (e : CanonicalError).

(** Opening a directory and its inode. *)
Class DirSys (Dir : Type) := {
  open_dir : string -> result string Dir;
  dir_inode : Dir -> result string Z;
}.

Section dump.
Context `{HostEndian} {K P : Type} `{V2Ops K P}.

(** The loop over the programs. *)
Fixpoint dump_each (cgroup : string) (index : nat) (ps : list P) (k : K) : result ReadError (list (list Z)) * K :=
  match ps with
  | [] => (Ok [], k)
  | p :: ps =>
      let '(r, k) := op_instructions p k in
      match r with
      | Err e => (Err (ReadProgram index cgroup e), k)
      | Ok (instructions, _) =>
          match canonical_bytes instructions with
          | Err e => (Err (EncodeProgram index cgroup e), k)
          | Ok raw =>
              let '(r, k) := dump_each cgroup (S index) ps k in
              (match r with Ok raws => Ok (raw :: raws) | Err e => Err e end, k)
          end
      end
  end.

(** From the query on; the operations are the ones on the cgroup's directory. *)
Definition dump_programs (cgroup : string) (inode : Z) (k : K) : result ReadError ProgramDump * K :=
  let '(r, k) := op_query k in
  match r with
  | Err e => (Err (QueryDir cgroup e), k)
  | Ok attached =>
      let '(r, k) := dump_each cgroup 0 (progs attached) k in
      (match r with
       | Err e => Err e
       | Ok raws => Ok {| Enforce.cgroup := cgroup; Enforce.inode := inode;
                          Enforce.total := Z.of_nat (V2Ops.total attached);
                          Enforce.inaccessible := Z.of_nat (V2Ops.inaccessible attached);
                          Enforce.attach_flags := V2Ops.attach_flags attached; programs := raws |}
       end, k)
  end.

Definition dump_device_programs {Pidfd Dirfd Dir} `{!ProcSys Pidfd Dirfd, !DirSys Dir} (pid : Z) (k : K)
    : result ReadError ProgramDump * K :=
  match read_proc_cgroup (Pidfd := Pidfd) (Dirfd := Dirfd) "/" pid with
  | Err e => (Err (ReadCgroup pid e), k)
  | Ok resolved =>
      match resolved.(version) with
      | CgroupV1 => (Err (OnCgroupV1 pid), k)
      | CgroupV2 =>
          let cgroup := host_cgroup_path "/" resolved.(mount_point) resolved.(mount_prefix) resolved.(root) in
          match open_dir cgroup with
          | Err e => (Err (OpenDir cgroup e), k)
          | Ok dir =>
              match dir_inode dir with
              | Err e => (Err (StatDir cgroup e), k)
              | Ok inode => dump_programs cgroup inode k
              end
          end
      end
  end.
End dump.

(** ** What a dump says *)

Section judged.
Context `{HostEndian} (sha256 : list Z -> list Z) (sha256_32 : digest_32 sha256).
Context {K P : Type} `{EqDecision P} `{KernelLaws K P}.
Context (draws : nat -> result NonceError Z).
Context (draws_u64 : forall n z, draws n = Ok z -> is_u 64 z).

(** What a query answers of a cgroup of which it could not open every program: the ones it
    opened are attached, and every other one is counted ([V2OpsProofs.query_counts_all]
    says the latter of the daemon's own query). *)
Definition query_counts : Prop :=
  forall (k : K) a k', wf k -> op_query k = (Ok a, k') ->
    progs a ⊆+ att k /\ V2Ops.total a = (length (progs a) + V2Ops.inaccessible a)%nat.

Lemma unchanged_bytes (k k' : K) : wf k -> unchanged k k' -> attached_bytes k' = attached_bytes k.
Proof.
  intros Hw [[_ F] A]. unfold attached_bytes. rewrite A. apply list_fmap_ext. intros j p Hp.
  by rewrite (proj2 (F p (law_live _ _ Hw (list_elem_of_lookup_2 _ _ _ Hp)))).
Qed.

Lemma dump_each_run cgroup index ps (k k' : K) raws :
  wf k -> (forall p, p ∈ ps -> live k p) -> dump_each cgroup index ps k = (Ok raws, k') ->
  unchanged k k' /\ (fun p => canonical_bytes (code k p).1) <$> ps = Ok <$> raws.
Proof.
  intros Hw. revert index k raws Hw. induction ps as [|p ps IH]; intros index k raws Hw Hl; cbn [dump_each].
  { intros [= <- <-]. split; [by apply unchanged_refl|done]. }
  destruct (op_instructions p k) as [r k1] eqn:Ei. destruct (law_instructions _ _ _ _ Hw (Hl p ltac:(by left)) Ei) as (F & A & X).
  destruct r as [[insts meta]|e]; [|done]. specialize (X _ eq_refl).
  destruct (canonical_bytes insts) as [raw|e] eqn:Ec; [|done].
  destruct (dump_each cgroup (S index) ps k1) as [[raws'|e] k2] eqn:Ed; [|done]. intros [= <- <-].
  destruct (IH _ _ _ (proj1 F) ltac:(intros q Hq; apply F, Hl; by right) Ed) as [Hu Hb].
  split; [by eapply unchanged_trans; [split|]|]. csimpl. rewrite <- X. cbn [fst]. rewrite Ec. f_equal. rewrite <- Hb.
  apply list_fmap_ext. intros j q Hq. by rewrite (proj2 (proj2 F q (Hl q ltac:(right; by eapply list_elem_of_lookup_2)))).
Qed.

(** What a dump holds: programs that are attached, all of them if it opened every one. *)
Record dump_says (cgroup : string) (inode : Z) (k : K) (d : ProgramDump) : Prop := {
  said_attached : Ok <$> programs d ⊆+ attached_bytes k;
  said_all : Enforce.inaccessible d <= 0 -> attached_bytes k = Ok <$> programs d;
  said_total : Enforce.total d = Z.of_nat (length (programs d)) + Enforce.inaccessible d;
  said_unopened : 0 <= Enforce.inaccessible d;
  said_cgroup : Enforce.cgroup d = cgroup;
  said_inode : Enforce.inode d = inode;
}.

Lemma dump_run cgroup inode (k k' : K) d :
  query_counts -> wf k -> dump_programs cgroup inode k = (Ok d, k') -> unchanged k k' /\ dump_says cgroup inode k d.
Proof.
  intros HC Hw. unfold dump_programs. destruct (op_query k) as [r k1] eqn:Eq.
  destruct (law_query _ _ _ Hw Eq) as (F & A & X). destruct r as [a|e]; [|done]. destruct (HC _ _ _ Hw Eq) as [Hs Ht].
  destruct (dump_each cgroup 0 (progs a) k1) as [[raws|e] k2] eqn:Ed; [|done]. intros [= <- <-].
  assert (forall p, p ∈ progs a -> live k1 p) as Hl.
  { intros p Hp. apply F, law_live; [done|]. by eapply elem_of_submseteq. }
  destruct (dump_each_run _ _ _ _ _ _ (proj1 F) Hl Ed) as [Hu Hb].
  assert (attached_bytes k = (fun p => canonical_bytes (code k1 p).1) <$> att k) as Hk.
  { rewrite <- (unchanged_bytes k k1 Hw ltac:(by split)). unfold attached_bytes. by rewrite A. }
  split; [by eapply unchanged_trans; [split|]|]. split; cbn; [| | |lia|done..].
  - rewrite Hk, <- Hb. by apply fmap_submseteq.
  - intros Hi. destruct (X a eq_refl ltac:(lia)) as [Hp _]. by rewrite Hk, <- Hp.
  - apply (f_equal length) in Hb. rewrite !length_fmap in Hb. lia.
Qed.

Lemma classify_bare raw : classify sha256 raw = Ok Bare -> parse_owned_innermost sha256 raw = Ok None.
Proof.
  unfold classify. destruct (parse_owned_innermost sha256 raw) as [[p|]|e]; cbn; [|done|done].
  destruct (parse_owned sha256 raw); done.
Qed.

Lemma bare_classify raw : parse_owned_innermost sha256 raw = Ok None -> classify sha256 raw = Ok Bare.
Proof. unfold classify. by intros ->. Qed.

(** The baseline the tests take: some programs, all the runtime's own. *)
Lemma originals_run d originals :
  runtime_originals sha256 d = Ok originals ->
  originals = programs d /\ originals <> [] /\ Enforce.inaccessible d <= 0 /\
  Forall (fun raw => parse_owned_innermost sha256 raw = Ok None) originals.
Proof.
  unfold runtime_originals. destruct (_ ++ _ ++ _) as [|p ps] eqn:E; [|done]. intros [= <-].
  apply app_eq_nil in E as [Ea E]. apply app_eq_nil in E as [En Er]. apply accounting_nil in Ea as [Hi _].
  case_bool_decide; [done|]. destruct (judge_revoked sha256 0 (programs d)) as [ps bares] eqn:Ej. cbn in Er. subst ps.
  apply judge_revoked_nil in Ej as [_ HF]. split_and!; [done..|]. eapply Forall_impl; [exact HF|]. apply classify_bare.
Qed.

(** A wrapper that reads as a lineage is one the judge accepts. *)
Definition granted_as (rules : list DeviceRule) (l : CachedLineage) : Granted :=
  {| Enforce.g_nonce := lin_nonce l; Enforce.g_rules := normal_rules rules; Enforce.g_original := lin_original l |}.

Lemma reads_granted rules l raw : reads_as sha256 rules l raw -> is_granted sha256 raw (granted_as rules l).
Proof.
  intros (Hi & Hp & Hne). split; [|done]. unfold classify. rewrite Hi. cbn [mbind result_bind]. rewrite Hp.
  cbn [mbind result_bind original]. by rewrite bool_decide_eq_true_2.
Qed.

Lemma fmap_granted rules (ls : list CachedLineage) :
  Enforce.g_nonce <$> (granted_as rules <$> ls) = lin_nonce <$> ls /\
  Enforce.g_original <$> (granted_as rules <$> ls) = lin_original <$> ls.
Proof. induction ls as [|l ls [IH1 IH2]]; csimpl; [done|]. by rewrite IH1, IH2. Qed.

(** What a judge may say of a dump that the runtime's programs are accounted for in:
    nothing when every program was opened; else how many were not, and then perhaps that
    the originals it found are not all. *)
Definition only_unopened (originals : list (list Z)) (d : ProgramDump) (problems : list Problem) : Prop :=
  (Enforce.inaccessible d = 0 /\ problems = []) \/
  (0 < Enforce.inaccessible d /\ exists found, found ⊆+ originals /\
    (problems = [NotOpened (Enforce.inaccessible d)] \/
     problems = [NotOpened (Enforce.inaccessible d); WrongOriginals found])).

Lemma problems_unopened originals found cgroup inode k d :
  dump_says cgroup inode k d -> found ⊆+ originals -> (Enforce.inaccessible d <= 0 -> found ≡ₚ originals) ->
  only_unopened originals d
    (accounting_problems d ++ [] ++ (if same_multiset found originals then [] else [WrongOriginals found])).
Proof.
  intros [_ _ Ht Hn _ _] Hs Ha. unfold accounting_problems. rewrite (proj2 (Z.eqb_eq _ _) Ht). cbn [negb app].
  destruct (Z.ltb_spec 0 (Enforce.inaccessible d)) as [Hi|Hi]; [right|left].
  - split; [done|]. exists found. split; [done|]. cbn. destruct (same_multiset found originals); [by left|by right].
  - split; [lia|]. by rewrite (proj2 (same_multiset_spec _ _) (Ha Hi)).
Qed.

(** Lineages wrapped in these programs are what the judge of a grant accepts. *)
Lemma judge_lineages rules (ls : list CachedLineage) raws :
  Forall2 (reads_as sha256 rules) ls raws -> NoDup (lin_nonce <$> ls) ->
  exists s, judge_all sha256 0 raws Seen_start = ([], s) /\ wrapped s ≡ₚ lin_original <$> ls.
Proof.
  intros HF Hnd. set (d := {| Enforce.cgroup := ""; Enforce.inode := 0; Enforce.total := Z.of_nat (length raws);
    Enforce.inaccessible := 0; Enforce.attach_flags := 0; programs := raws |}).
  assert (granted_problems sha256 (lin_original <$> ls) d = []) as Hg.
  { apply granted_accepts. split; [split; cbn; lia|]. exists (granted_as rules <$> ls).
    destruct (fmap_granted rules ls) as [-> ->]. split_and!; [|done| |done].
    - rewrite Forall2_fmap_r. apply Forall2_flip. eapply Forall2_impl; [exact HF|]. intros l raw. apply reads_granted.
    - by intros w w' (l & -> & _)%list_elem_of_fmap (l' & -> & _)%list_elem_of_fmap. }
  unfold granted_problems in Hg. cbn [programs d] in Hg. destruct (judge_all sha256 0 raws Seen_start) as [ps s].
  apply app_eq_nil in Hg as [_ [-> Hm]%app_eq_nil]. exists s. split; [done|]. apply same_multiset_spec.
  by destruct (same_multiset (wrapped s) (lin_original <$> ls)).
Qed.

(** Part of a list of [Ok]s is a list of [Ok]s. *)
Lemma Ok_part {E A} (l l' : list A) : Ok (E := E) <$> l ⊆+ Ok <$> l' -> exists r, l' ≡ₚ l ++ r.
Proof.
  intros (rest & HP)%submseteq_Permutation. set (f := fun r : result E A => match r with Ok a => Some a | Err _ => None end).
  assert (forall x : list A, omap f (Ok <$> x) = x) as Hf.
  { intros x. induction x as [|y x IH]; csimpl; [done|by rewrite IH]. }
  exists (omap f rest). by rewrite <- (Hf l'), HP, omap_app, Hf.
Qed.

Lemma judge_accepts rules (ls : list CachedLineage) E cgroup inode k d originals :
  dump_says cgroup inode k d -> attached_bytes k ≡ₚ Ok <$> E -> Forall2 (reads_as sha256 rules) ls E ->
  NoDup (lin_nonce <$> ls) -> lin_original <$> ls ≡ₚ originals ->
  only_unopened originals d (granted_problems sha256 originals d).
Proof.
  intros Hd HP HF Hnd Ho. pose proof (said_attached _ _ _ _ Hd) as Hpart. rewrite HP in Hpart.
  destruct (Ok_part _ _ Hpart) as (rest & HE).
  apply Forall2_flip in HF. destruct (Permutation_Forall2 HE HF) as (ls' & Hls & HF').
  apply Forall2_flip, Forall2_app_inv_r in HF' as (la & lb & HFa & _ & ->).
  assert (NoDup (lin_nonce <$> la)) as Hna.
  { rewrite Hls, fmap_app in Hnd. by apply NoDup_app in Hnd as (? & _). }
  destruct (judge_lineages _ _ _ HFa Hna) as (s & Hj & Hw). unfold granted_problems. rewrite Hj.
  rewrite Hls, fmap_app in Ho. eapply problems_unopened; [exact Hd| |].
  - rewrite Hw, <- Ho. apply submseteq_inserts_r, reflexivity.
  - intros Hi. rewrite Hw, <- Ho. pose proof (said_all _ _ _ _ Hd Hi) as Hall.
    rewrite Hall in HP. apply (Ok_perm (E := CanonicalError)), Permutation_length in HP.
    apply Permutation_length in HE. rewrite length_app in HE. apply Permutation_length in Hls.
    apply Forall2_length in HF, HFa. rewrite length_app in Hls. destruct lb; [by rewrite app_nil_r|cbn in *; lia].
Qed.

(** The judge of a revocation: the runtime's own programs, and nothing else. *)
Lemma judge_revoked_accepts cgroup inode k d originals :
  dump_says cgroup inode k d -> attached_bytes k ≡ₚ Ok <$> originals ->
  Forall (fun raw => parse_owned_innermost sha256 raw = Ok None) originals ->
  only_unopened originals d (revoked_problems sha256 originals d).
Proof.
  intros Hd HP HF. pose proof (said_attached _ _ _ _ Hd) as Hpart. rewrite HP in Hpart.
  destruct (Ok_part _ _ Hpart) as (rest & HE). unfold revoked_problems.
  rewrite (proj2 (judge_revoked_nil _ _ _ (programs d))).
  - eapply problems_unopened; [exact Hd| |].
    + rewrite HE. apply submseteq_inserts_r, reflexivity.
    + intros Hi. pose proof (said_all _ _ _ _ Hd Hi) as Hall. rewrite Hall in HP. by apply (Ok_perm (E := CanonicalError)) in HP.
  - split; [done|]. rewrite HE in HF. apply Forall_app in HF as [HF _]. eapply Forall_impl; [exact HF|]. apply bare_classify.
Qed.

Lemma bare_bytes (k : K) raws :
  attached_bytes k = Ok <$> raws -> Forall (fun raw => parse_owned_innermost sha256 raw = Ok None) raws -> all_bare sha256 k.
Proof.
  unfold all_bare. intros -> HF. apply Forall_fmap. eapply Forall_impl; [exact HF|]. intros raw Hr. by exists raw.
Qed.

Lemma same_cgroup d d' : Enforce.cgroup d' = Enforce.cgroup d -> Enforce.inode d' = Enforce.inode d -> cgroup_problem d d' = false.
Proof. unfold cgroup_problem. intros -> ->. by rewrite bool_decide_eq_true_2, Z.eqb_refl. Qed.

(** C22. The enforcement scenario passes on any kernel that keeps its laws. Where the dump
    before shows a runtime's own programs, no rebuild of the cgroup is pending, the rules
    are some, with numbers below 2^31, and the nonces drawn next differ, the judges find
    nothing wrong in the dumps after a grant and after its revocation that succeed, both of
    the same cgroup: of a dump that opened every program a judge reports no problem, and of
    another one only how many it did not open and, if so, that those found are not all. *)
Theorem judges_accept path inode id rules s d0 k0 originals s1 d1 k1 s2 d2 k2 :
  query_counts ->
  wf (kernel s) -> rules_ok rules -> rules <> [] -> rebuilding (cache_get (cache s) id) = false -> fresh_draws draws s ->
  dump_programs path inode (kernel s) = (Ok d0, k0) -> runtime_originals sha256 d0 = Ok originals ->
  set_rules sha256 draws id rules (at_kernel k0 s) = (Ok tt, s1) ->
  dump_programs path inode (kernel s1) = (Ok d1, k1) ->
  set_rules sha256 draws id [] (at_kernel k1 s1) = (Ok tt, s2) ->
  dump_programs path inode (kernel s2) = (Ok d2, k2) ->
  only_unopened originals d1 (granted_problems sha256 originals d1) /\
  only_unopened originals d2 (revoked_problems sha256 originals d2) /\
  cgroup_problem d0 d1 = false /\ cgroup_problem d0 d2 = false.
Proof.
  intros HC Hw Hr Hne Hreb Hfresh D0 HO E1 D1 E2 D2.
  destruct (originals_run _ _ HO) as (-> & Hsome & I0 & Hbare).
  destruct (dump_run _ _ _ _ _ HC Hw D0) as (Hu0 & S0). pose proof (said_all _ _ _ _ S0 I0) as Hb0.
  assert (wf k0) as Hw0 by apply Hu0.
  assert (attached_bytes k0 = Ok <$> programs d0) as Hb0' by (by rewrite (unchanged_bytes _ _ Hw Hu0)).
  assert (att k0 <> []) as Hatt.
  { intros Hn. unfold attached_bytes in Hb0'. rewrite Hn in Hb0'. by destruct (programs d0). }
  destruct (grant_wraps_bare sha256 sha256_32 draws draws_u64 id rules (at_kernel k0 s) s1) as (ls & E & Hk & Hnd & HF & HP & Hw1 & Hreb1);
    [done..|by eapply bare_bytes| |done|].
  { intros i j n Hi Hj. apply Hfresh; by rewrite <- (proj2 Hu0). }
  destruct (dump_run _ _ _ _ _ HC Hw1 D1) as (Hu1 & S1).
  assert (lin_original <$> ls ≡ₚ programs d0) as Hls.
  { apply (Ok_perm (E := CanonicalError)). rewrite <- Hk. cbn [kernel at_kernel]. by rewrite Hb0'. }
  assert (attached_bytes k1 ≡ₚ Ok <$> E) as HP1 by (by rewrite (unchanged_bytes _ _ Hw1 Hu1)).
  destruct (revoke_restores sha256 sha256_32 draws draws_u64 id rules (at_kernel k1 s1) s2 ls E) as [HP2 Hw2];
    [apply Hu1|by eapply (perm_some k0 k1); [..|by eapply Forall2_length|]|done|done|done|by apply keys_nodup|done|].
  rewrite Hls in HP2. destruct (dump_run _ _ _ _ _ HC Hw2 D2) as (_ & S2). split_and!.
  - by eapply judge_accepts.
  - by eapply judge_revoked_accepts.
  - destruct S0, S1. apply same_cgroup; congruence.
  - destruct S0, S2. apply same_cgroup; congruence.
Qed.

End judged.

(** ** The scenario on the recording kernel *)

Module EnforcementExample.

#[local] Existing Instance Sample.little.

Definition path : string := "/sys/fs/cgroup/docker/a".

Definition dumped (r : result ReadError ProgramDump * FakeState) : ProgramDump :=
  match r.1 with Ok d => d | Err _ => EnforceExample.dump [] end.

Lemma dumped_ok r : is_ok r.1 = true -> r = (Ok (dumped r), r.2).
Proof. by destruct r as [[d|e] k]. Qed.

Abbreviation before := (dump_programs (P := string) path 42 (kernel (Demo.start ExactExample.two))).
Abbreviation grant := (set_rules (P := string) Sample.digest Demo.draws Demo.id Sample.rules
  (at_kernel before.2 (Demo.start ExactExample.two))).
Abbreviation after_grant := (dump_programs (P := string) path 42 (kernel grant.2)).
Abbreviation revoke := (set_rules (P := string) Sample.digest Demo.draws Demo.id [] (at_kernel after_grant.2 grant.2)).
Abbreviation after_revoke := (dump_programs (P := string) path 42 (kernel revoke.2)).

Lemma before_ok : before = (Ok (dumped before), before.2).
Proof. apply dumped_ok. vm_compute. reflexivity. Qed.

Lemma baseline : runtime_originals Sample.digest (dumped before) = Ok (programs (dumped before)).
Proof. vm_compute. reflexivity. Qed.

Lemma run_ok (p : result fault unit * @St FakeState) : (Demo.outcome p).1.1 = Ok tt -> p = (Ok tt, p.2).
Proof. destruct p as [r s]. cbn. by intros ->. Qed.

Lemma grant_ok : grant = (Ok tt, grant.2).
Proof. apply run_ok. vm_compute. reflexivity. Qed.

Lemma after_grant_ok : after_grant = (Ok (dumped after_grant), after_grant.2).
Proof. apply dumped_ok. vm_compute. reflexivity. Qed.

Lemma revoke_ok : revoke = (Ok tt, revoke.2).
Proof. apply run_ok. vm_compute. reflexivity. Qed.

Lemma after_revoke_ok : after_revoke = (Ok (dumped after_revoke), after_revoke.2).
Proof. apply dumped_ok. vm_compute. reflexivity. Qed.

Lemma fake_counts : query_counts (K := FakeState) (P := string).
Proof. by intros k a k' _ [= <- <-]. Qed.

(** Every program of both dumps was opened, so the judges say nothing. *)
Example judges_say_nothing :
  Enforce.inaccessible (dumped after_grant) = 0 /\ Enforce.inaccessible (dumped after_revoke) = 0 /\
  granted_problems Sample.digest (programs (dumped before)) (dumped after_grant) = [] /\
  revoked_problems Sample.digest (programs (dumped before)) (dumped after_revoke) = [].
Proof. vm_compute. done. Qed.

Lemma judges_accept_witness :
  length (programs (dumped before)) = 2%nat /\
  only_unopened (programs (dumped before)) (dumped after_grant)
    (granted_problems Sample.digest (programs (dumped before)) (dumped after_grant)) /\
  only_unopened (programs (dumped before)) (dumped after_revoke)
    (revoked_problems Sample.digest (programs (dumped before)) (dumped after_revoke)) /\
  cgroup_problem (dumped before) (dumped after_grant) = false /\
  cgroup_problem (dumped before) (dumped after_revoke) = false.
Proof.
  split; [vm_compute; reflexivity|].
  exact (judges_accept (P := string) Sample.digest Sample.digest_ok Demo.draws Demo.draws_u64 path 42 Demo.id Sample.rules
    (Demo.start ExactExample.two) (dumped before) before.2 (programs (dumped before)) grant.2 (dumped after_grant) after_grant.2
    revoke.2 (dumped after_revoke) after_revoke.2 fake_counts ExactExample.two_wf Demo.rules_small ltac:(discriminate) eq_refl
    ExactExample.two_fresh before_ok baseline grant_ok after_grant_ok revoke_ok after_revoke_ok).
Defined.

End EnforcementExample.
