(* ===== verification/BpfSys.v ===== *)
(** * The bpf(2) bindings (src/cgroup/bpf_sys.rs) and the memory limit (rlimit.rs)

    The attribute structures as C lays them out, and each command as the bytes it
    gives the kernel and reads back. The system call is a class: it is given the
    command, the attribute's bytes and the memory at the addresses in it, and
    answers a number (a negative one is an error) with all of them after it. The
    bindings are an instance of the calls that the kernel operations of the
    controller are built on. A program load the kernel answers with EAGAIN is
    made again; [turns] bounds how often. *)

From S2P Require Import Prelude.
From S2P Require Import Text.
From S2P Require Import Utf8.
From S2P Require Import CodecProofs.
From S2P Require Import V2Ops.

(** ** Layouts *)

(** The types of the fields: integers, and arrays of them. *)
Inductive FieldType := U32 | U64 | Bytes (n : nat) | U32s (n : nat) | U64s (n : nat).

Definition size (t : FieldType) : nat :=
  match t with U32 => 4 | U64 => 8 | Bytes n => n | U32s n => 4 * n | U64s n => 8 * n end.
Definition align (t : FieldType) : nat :=
  match t with U32 | U32s _ => 4 | U64 | U64s _ => 8 | Bytes _ => 1 end.

Abbreviation Layout := (list (string * FieldType)).

(** The padding before a field at an offset. *)
Definition padding (offset alignment : nat) : nat := (alignment - offset mod alignment) mod alignment.

(** [repr(C)]: each field at the next multiple of its alignment. *)
Fixpoint offsets (pos : nat) (l : Layout) : list (string * nat) :=
  match l with
  | [] => []
  | (name, t) :: l => let at_ := (pos + padding pos (align t))%nat in (name, at_) :: offsets (at_ + size t) l
  end.

Fixpoint end_of (pos : nat) (l : Layout) : nat :=
  match l with [] => pos | (_, t) :: l => end_of (pos + padding pos (align t) + size t) l end.

Definition alignment (l : Layout) : nat := foldr (fun f a => Nat.max (align f.2) a) 1%nat l.
Definition size_of (l : Layout) : nat := let e := end_of 0 l in (e + padding e (alignment l))%nat.

Fixpoint lookup_name {A} (name : string) (l : list (string * A)) : option A :=
  match l with [] => None | (n, a) :: l => if bool_decide (n = name) then Some a else lookup_name name l end.

Definition offset_of (l : Layout) (name : string) : nat := default 0%nat (lookup_name name (offsets 0 l)).

(** An attribute: the bytes of the fields that are set; the others are zero. *)
Abbreviation Attr := (gmap string (list Z)).

Definition zeros (n : nat) : list Z := replicate n 0.

Definition field_bytes (name : string) (t : FieldType) (a : Attr) : list Z := default (zeros (size t)) (a !! name).

Fixpoint encode_from (pos : nat) (l : Layout) (a : Attr) : list Z :=
  match l with
  | [] => []
  | (name, t) :: l =>
      let pad := padding pos (align t) in
      zeros pad ++ field_bytes name t a ++ encode_from (pos + pad + size t) l a
  end.

Definition encode (l : Layout) (a : Attr) : list Z :=
  let bytes := encode_from 0 l a in bytes ++ zeros (size_of l - length bytes).

(** A field of the bytes the kernel left. *)
Definition read_field (l : Layout) (name : string) (bytes : list Z) : list Z :=
  take (default 0%nat (size <$> lookup_name name l)) (drop (offset_of l name) bytes).

(** ** The structures *)

Definition OBJ_NAME_LEN : nat := 16.

Definition ProgQueryAttr : Layout :=
  [("target_fd", U32); ("attach_type", U32); ("query_flags", U32); ("attach_flags", U32); ("prog_ids", U64);
   ("prog_cnt", U32); ("_pad", U32); ("prog_attach_flags", U64); ("link_ids", U64); ("link_attach_flags", U64);
   ("revision", U64)].

Definition ProgGetFdByIdAttr : Layout := [("id", U32)].

Definition ObjGetInfoByFdAttr : Layout := [("bpf_fd", U32); ("info_len", U32); ("info", U64)].

Definition ProgInfo : Layout :=
  [("prog_type", U32); ("id", U32); ("tag", Bytes 8); ("jited_prog_len", U32); ("xlated_prog_len", U32);
   ("jited_prog_insns", U64); ("xlated_prog_insns", U64); ("load_time", U64); ("created_by_uid", U32);
   ("nr_map_ids", U32); ("map_ids", U64); ("name", Bytes OBJ_NAME_LEN); ("_rest", U64s 19)].

Definition ProgLoadAttr : Layout :=
  [("prog_type", U32); ("insn_cnt", U32); ("insns", U64); ("license", U64); ("log_level", U32); ("log_size", U32);
   ("log_buf", U64); ("kern_version", U32); ("prog_flags", U32); ("prog_name", Bytes OBJ_NAME_LEN);
   ("_middle", U32s 19); ("log_true_size", U32); ("_rest", U32s 6)].

Definition ProgAttachAttr : Layout :=
  [("target_fd", U32); ("attach_bpf_fd", U32); ("attach_type", U32); ("attach_flags", U32);
   ("replace_bpf_fd", U32); ("relative_fd", U32); ("expected_revision", U64)].

Definition ProgDetachAttr : Layout :=
  [("target_fd", U32); ("attach_bpf_fd", U32); ("attach_type", U32); ("attach_flags", U32); ("_pad", U32);
   ("relative_fd", U32); ("expected_revision", U64)].

Definition MapCreateAttr : Layout :=
  [("map_type", U32); ("key_size", U32); ("value_size", U32); ("max_entries", U32); ("map_flags", U32);
   ("inner_map_fd", U32); ("numa_node", U32); ("map_name", Bytes OBJ_NAME_LEN); ("map_ifindex", U32);
   ("btf_fd", U32); ("btf_key_type_id", U32); ("btf_value_type_id", U32); ("btf_vmlinux_value_type_id", U32);
   ("map_extra", U64); ("value_type_btf_obj_fd", U32); ("map_token_fd", U32); ("excl_prog_hash", U64);
   ("excl_prog_hash_size", U32); ("_pad", U32)].

(** The sizes and offsets the kernel has them at: the asserts of bpf_sys/tests.rs. *)
Lemma layouts_match :
  size_of ProgQueryAttr = 64%nat /\ (snd <$> offsets 0 ProgQueryAttr) = [0; 4; 8; 12; 16; 24; 28; 32; 40; 48; 56]%nat /\
  size_of ProgGetFdByIdAttr = 4%nat /\ size_of ObjGetInfoByFdAttr = 16%nat /\
  size_of MapCreateAttr = 96%nat /\ offset_of MapCreateAttr "map_extra" = 64%nat /\
  offset_of MapCreateAttr "excl_prog_hash" = 80%nat /\
  size_of ProgInfo = 232%nat /\ offset_of ProgInfo "map_ids" = 56%nat /\ offset_of ProgInfo "_rest" = 80%nat /\
  size_of ProgLoadAttr = 168%nat /\ offset_of ProgLoadAttr "prog_name" = 48%nat /\
  offset_of ProgLoadAttr "log_true_size" = 140%nat /\
  size_of ProgAttachAttr = 32%nat /\ offset_of ProgAttachAttr "replace_bpf_fd" = 16%nat /\
  size_of ProgDetachAttr = 32%nat /\ offset_of ProgDetachAttr "expected_revision" = 24%nat.
Proof. by vm_compute. Qed.

(** ** The system call *)

(** The memory a command may read and write, by address. *)
Abbreviation Memory := (list (Z * list Z)).

Definition at_address (a : Z) (m : Memory) : list Z :=
  match list_find (fun p => p.1 = a) m with Some (_, (_, bytes)) => bytes | None => [] end.

Class BpfCall (Sys : Type) := {
  bpf_call : Z -> list Z -> Memory -> Sys -> Z * list Z * Memory * Sys;
  (** Where this process has its buffers. *)
  ids_address : Z; info_address : Z; insns_address : Z; license_address : Z; log_address : Z;
  kernel_release : string;
}.

Definition BPF_MAP_CREATE : Z := 0.
Definition BPF_PROG_LOAD : Z := 5.
Definition BPF_PROG_ATTACH : Z := 8.
Definition BPF_PROG_DETACH : Z := 9.
Definition BPF_PROG_GET_FD_BY_ID : Z := 13.
Definition BPF_OBJ_GET_INFO_BY_FD : Z := 15.
Definition BPF_PROG_QUERY : Z := 16.

Definition PROG_TYPE_CGROUP_DEVICE : Z := 15.
Definition CGROUP_DEVICE : Z := 6.
Definition F_REPLACE : Z := 4.

Definition EAGAIN : Z := 11.
Definition EBADF : Z := 9.

(** The bytes of [c"Apache"]. *)
Definition LICENSE : list Z := [65; 112; 97; 99; 104; 101; 0].

Section bindings.
Context `{HostEndian} {Sys : Type} `{BpfCall Sys} (turns : nat) (target : Z).

Definition u32 (z : Z) : list Z := to_ne_bytes 4 z.
Definition u64 (z : Z) : list Z := to_ne_bytes 8 z.

(** [fd_u32] and [u32::try_from(..).unwrap_or(u32::MAX)]. *)
Definition saturated_u32 (z : Z) : Z := if bool_decide (0 <= z < 2 ^ 32) then z else 2 ^ 32 - 1.

(** The loop of [bpf]. *)
Fixpoint bpf (turns : nat) (command : Z) (l : Layout) (attr : list Z) (m : Memory) (s : Sys)
    : result Z Z * list Z * Memory * Sys :=
  let '(r, attr, m, s) := bpf_call command attr m s in
  if 0 <=? r then (Ok r, attr, m, s)
  else
    let errno := - r in
    if negb (errno =? EAGAIN) || negb (command =? BPF_PROG_LOAD) then (Err errno, attr, m, s)
    else match turns with
    | O => (Err errno, attr, m, s)
    | S turns => bpf turns command l attr m s
    end.

(** [owned_fd]. *)
Definition owned_fd (raw : Z) : result Z Z := if raw <? 2 ^ 31 then Ok raw else Err EBADF.

Definition query_attr (n : Z) : Attr :=
  {[ "target_fd" := u32 (saturated_u32 target); "attach_type" := u32 CGROUP_DEVICE;
     "prog_ids" := u64 ids_address; "prog_cnt" := u32 (saturated_u32 n) ]}.

(** The IDs in a buffer. *)
Fixpoint ids_of (n : nat) (bytes : list Z) : list Z :=
  match n with O => [] | S n => from_ne_bytes (take 4 bytes) :: ids_of n (drop 4 bytes) end.

Definition sys_prog_query (n : Z) (s : Sys) : QueryAnswer * Sys :=
  let '(r, attr, m, s) :=
    bpf turns BPF_PROG_QUERY ProgQueryAttr (encode ProgQueryAttr (query_attr n))
      [(ids_address, zeros (4 * Z.to_nat n))] s in
  ({| answer_ids := ids_of (Z.to_nat n) (at_address ids_address m);
      count := from_ne_bytes (read_field ProgQueryAttr "prog_cnt" attr);
      answer_errno := match r with Ok _ => None | Err errno => Some errno end;
      answer_flags := from_ne_bytes (read_field ProgQueryAttr "attach_flags" attr) |}, s).

Definition sys_prog_get_fd_by_id (id : Z) (s : Sys) : result Z Z * Sys :=
  let '(r, _, _, s) :=
    bpf turns BPF_PROG_GET_FD_BY_ID ProgGetFdByIdAttr (encode ProgGetFdByIdAttr {[ "id" := u32 id ]}) [] s in
  (fd ← r; owned_fd fd, s).

(** [get_info]: how much of the structure was written, and the memory. *)
Definition get_info (fd : Z) (m : Memory) (s : Sys) : result Z Z * Memory * Sys :=
  let attr : Attr := {[ "bpf_fd" := u32 (saturated_u32 fd); "info_len" := u32 (Z.of_nat (size_of ProgInfo));
                        "info" := u64 info_address ]} in
  let '(r, attr, m, s) :=
    bpf turns BPF_OBJ_GET_INFO_BY_FD ObjGetInfoByFdAttr (encode ObjGetInfoByFdAttr attr) m s in
  ((fun _ => from_ne_bytes (read_field ObjGetInfoByFdAttr "info_len" attr)) <$> r, m, s).

(** The bytes of a buffer as a string's. *)
Definition text_of (bytes : list Z) : string := concat_all ((fun b => of_char (chr (Z.to_nat b))) <$> bytes).

(** The bytes of a name before its first zero. *)
Definition name_text (name : list Z) : string := from_utf8_lossy (until_zero (text_of name)).

Definition sys_prog_info (fd : Z) (s : Sys) : result Z ProgSummary * Sys :=
  let '(r, m, s) := get_info fd [(info_address, encode ProgInfo ∅)] s in
  let info := at_address info_address m in
  ((fun written =>
      {| summary_type := from_ne_bytes (read_field ProgInfo "prog_type" info);
         summary_name := name_text (read_field ProgInfo "name" info);
         xlated_len := from_ne_bytes (read_field ProgInfo "xlated_prog_len" info);
         map_known := Z.of_nat (offset_of ProgInfo "map_ids") <=? written;
         nr_map_ids := from_ne_bytes (read_field ProgInfo "nr_map_ids" info) |}) <$> r, s).

Definition sys_prog_xlated (fd len : Z) (s : Sys) : result Z (option (list Z)) * Sys :=
  let info : Attr := {[ "xlated_prog_len" := u32 len; "xlated_prog_insns" := u64 insns_address ]} in
  let '(r, m, s) :=
    get_info fd [(info_address, encode ProgInfo info); (insns_address, zeros (Z.to_nat len))] s in
  let shown := negb (from_ne_bytes (read_field ProgInfo "xlated_prog_insns" (at_address info_address m)) =? 0) in
  ((fun _ => if shown then Some (at_address insns_address m) else None) <$> r, s).

(** A program's name, cut to leave its terminating zero. *)
Definition prog_name (name : string) : list Z :=
  let bytes := take (OBJ_NAME_LEN - 1) (byte <$> String.list_ascii_of_string name) in
  bytes ++ zeros (OBJ_NAME_LEN - length bytes).

(** The level and the buffer of the log are given at a level above 0 only. *)
Definition load_attr (code : list Z) (name : string) (log_level log_size : Z) : Attr :=
  let base : Attr :=
    {[ "prog_type" := u32 PROG_TYPE_CGROUP_DEVICE;
       "insn_cnt" := u32 (saturated_u32 (Z.of_nat (length code) / 8)); "insns" := u64 insns_address;
       "license" := u64 license_address; "prog_name" := prog_name name ]} in
  if log_level =? 0 then base
  else <["log_level" := u32 log_level]> (<["log_size" := u32 (saturated_u32 log_size)]>
         (<["log_buf" := u64 log_address]> base)).

Definition sys_prog_load (code : list Z) (name : string) (log_level log_size : Z) (s : Sys)
    : result (LoadFailure * string) Z * Sys :=
  let '(r, attr, m, s) :=
    bpf turns BPF_PROG_LOAD ProgLoadAttr (encode ProgLoadAttr (load_attr code name log_level log_size))
      [(insns_address, code); (license_address, LICENSE); (log_address, zeros (Z.to_nat log_size))] s in
  (match fd ← r; owned_fd fd with
   | Ok fd => Ok fd
   | Err errno => Err ({| failure_errno := errno; log_true_size := from_ne_bytes (read_field ProgLoadAttr "log_true_size" attr) |},
                       text_of (at_address log_address m))
   end, s).

Definition attach_attr (prog flags : Z) (replace : option Z) : Attr :=
  let base : Attr :=
    {[ "target_fd" := u32 (saturated_u32 target); "attach_bpf_fd" := u32 (saturated_u32 prog);
       "attach_type" := u32 CGROUP_DEVICE; "attach_flags" := u32 flags ]} in
  match replace with
  | None => base
  | Some old => <["attach_flags" := u32 (flags .| F_REPLACE)]>
                  (<["replace_bpf_fd" := u32 (saturated_u32 old)]> base)
  end.

Definition sys_prog_attach (prog flags : Z) (replace : option Z) (s : Sys) : result Z unit * Sys :=
  let '(r, _, _, s) :=
    bpf turns BPF_PROG_ATTACH ProgAttachAttr (encode ProgAttachAttr (attach_attr prog flags replace)) [] s in
  ((fun _ => tt) <$> r, s).

Definition detach_attr (prog : Z) : Attr :=
  {[ "target_fd" := u32 (saturated_u32 target); "attach_bpf_fd" := u32 (saturated_u32 prog);
     "attach_type" := u32 CGROUP_DEVICE ]}.

Definition sys_prog_detach (prog : Z) (s : Sys) : result Z unit * Sys :=
  let '(r, _, _, s) :=
    bpf turns BPF_PROG_DETACH ProgDetachAttr (encode ProgDetachAttr (detach_attr prog)) [] s in
  ((fun _ => tt) <$> r, s).

Definition map_attr : Attr :=
  {[ "map_type" := u32 2; "key_size" := u32 4; "value_size" := u32 4; "max_entries" := u32 1 ]}.

Definition sys_map_create_probe (s : Sys) : result Z Z * Sys :=
  let '(r, _, _, s) := bpf turns BPF_MAP_CREATE MapCreateAttr (encode MapCreateAttr map_attr) [] s in
  (fd ← r; owned_fd fd, s).

(** The calls that the kernel operations are built on. *)
#[local] Instance bindings : BpfSys Sys Z := {|
  prog_query := sys_prog_query;
  prog_get_fd_by_id := sys_prog_get_fd_by_id;
  prog_info := sys_prog_info;
  prog_xlated := sys_prog_xlated;
  prog_load := sys_prog_load;
  prog_attach := sys_prog_attach;
  prog_detach := sys_prog_detach;
  uname_release := kernel_release;
|}.

End bindings.

(** ** What the kernel reads of an attribute *)

(** Each field that is set has the bytes of its type. *)
Definition attr_ok (l : Layout) (a : Attr) : Prop := Forall (fun f => length (field_bytes f.1 f.2 a) = size f.2) l.

Lemma offsets_from pos l name at_ :
  lookup_name name (offsets pos l) = Some at_ -> (pos <= at_)%nat.
Proof.
  revert pos. induction l as [|[n t] l IH]; intros pos; [done|]. cbn [offsets lookup_name].
  case_bool_decide; [intros [= <-]; lia|]. intros ?%IH. lia.
Qed.

Lemma lookup_offset pos l name t :
  lookup_name name l = Some t -> is_Some (lookup_name name (offsets pos l)).
Proof.
  revert pos. induction l as [|[n u] l IH]; intros pos; [done|]. cbn [offsets lookup_name].
  case_bool_decide; [eauto|]. apply IH.
Qed.

Lemma drop_zeros n m bytes : drop (n + m) (zeros n ++ bytes) = drop m bytes.
Proof. unfold zeros. rewrite <- drop_drop, drop_app_length'; [done|]. by rewrite length_replicate. Qed.

(** A field of the bytes from [pos] on. *)
Lemma encode_from_field pos l a name t at_ rest :
  attr_ok l a -> lookup_name name l = Some t -> lookup_name name (offsets pos l) = Some at_ ->
  take (size t) (drop (at_ - pos) (encode_from pos l a ++ rest)) = field_bytes name t a.
Proof.
  revert pos. induction l as [|[n u] l IH]; intros pos; [done|].
  intros [Hu Hok]%Forall_cons. cbn [offsets lookup_name encode_from fst snd] in *.
  case_bool_decide as E.
  - subst. intros [= ->] [= <-]. rewrite <- app_assoc.
    replace (_ - pos)%nat with (padding pos (align t) + 0)%nat by lia.
    rewrite drop_zeros, drop_0, <- app_assoc, take_app_length'; done.
  - intros Hn Ha. pose proof (offsets_from _ _ _ _ Ha).
    rewrite <- (IH _ Hok Hn Ha), <- !app_assoc.
    replace (at_ - pos)%nat
      with (padding pos (align u) + (size u + (at_ - (pos + padding pos (align u) + size u))))%nat by lia.
    by rewrite drop_zeros, <- drop_drop, drop_app_length' by done.
Qed.

(** The kernel reads, at a field's offset, the bytes the request has for it, or zeros. *)
Lemma encode_field l a name t :
  attr_ok l a -> lookup_name name l = Some t -> read_field l name (encode l a) = field_bytes name t a.
Proof.
  intros Hok Hn. unfold read_field, offset_of, encode. rewrite Hn. cbn [fmap option_fmap option_map default].
  destruct (lookup_offset 0 l name t Hn) as [at_ Ha]. rewrite Ha. cbn [default].
  rewrite <- (Nat.sub_0_r at_). by apply encode_from_field.
Qed.

Lemma length_encode_from pos l a : attr_ok l a -> (pos + length (encode_from pos l a) = end_of pos l)%nat.
Proof.
  revert pos. induction l as [|[n u] l IH]; intros pos; [cbn; lia|].
  intros [Hu Hok]%Forall_cons. cbn [encode_from end_of fst snd] in *.
  rewrite <- (IH _ Hok), !length_app, Hu. unfold zeros. rewrite length_replicate. lia.
Qed.

(** The request is as long as the kernel is told. *)
Lemma length_encode l a : attr_ok l a -> length (encode l a) = size_of l.
Proof.
  intros Hok%(length_encode_from 0). unfold encode, size_of, zeros. rewrite length_app, length_replicate. lia.
Qed.

Section requests.
Context `{HostEndian} {Sys : Type} `{BpfCall Sys}.

Lemma length_u32 z : length (u32 z) = 4%nat.
Proof. apply length_to_ne_bytes. Qed.

Lemma length_u64 z : length (u64 z) = 8%nat.
Proof. apply length_to_ne_bytes. Qed.

Lemma from_u32 z : is_u 32 z -> from_ne_bytes (u32 z) = z.
Proof. intros. unfold u32. rewrite from_to_ne_bytes. by apply wrapu_id. Qed.

Lemma from_zeros n : from_ne_bytes (zeros n) = 0.
Proof.
  unfold from_ne_bytes, zeros. assert (from_le_bytes (replicate n 0) = 0) as E.
  { induction n as [|n IH]; [done|]. cbn [replicate from_le_bytes]. lia. }
  destruct target_little; [done|]. rewrite rev_alt. fold (reverse (replicate n 0)). by rewrite reverse_replicate.
Qed.

Lemma saturated_id z : is_u 32 z -> saturated_u32 z = z.
Proof. intros. unfold saturated_u32. by rewrite bool_decide_true. Qed.

Lemma length_prog_name name : length (prog_name name) = OBJ_NAME_LEN.
Proof.
  unfold prog_name, zeros, OBJ_NAME_LEN. rewrite length_app, length_replicate, length_take. lia.
Qed.

(** A command is given once unless it loads a program. *)
Lemma bpf_once turns command l attr m s :
  command <> BPF_PROG_LOAD ->
  bpf turns command l attr m s =
  (let '(r, attr, m, s) := bpf_call command attr m s in ((if 0 <=? r then Ok r else Err (- r)), attr, m, s)).
Proof.
  intros Hc. destruct turns; cbn [bpf];
    destruct (bpf_call command attr m s) as [[[r attr'] m'] s']; destruct (0 <=? r); try done;
    by rewrite (proj2 (Z.eqb_neq _ _) Hc), orb_true_r.
Qed.

(** More turns change nothing once the kernel has answered with anything but EAGAIN. *)
Lemma bpf_settled turns more command l attr m s r out :
  bpf turns command l attr m s = (r, out.1.1, out.1.2, out.2) -> r <> Err EAGAIN -> (turns <= more)%nat ->
  bpf more command l attr m s = (r, out.1.1, out.1.2, out.2).
Proof.
  revert more attr m s. induction turns as [|turns IH]; intros more attr m s; destruct more as [|more]; try lia;
    cbn [bpf]; destruct (bpf_call command attr m s) as [[[n attr'] m'] s']; destruct (0 <=? n); try done;
    destruct (- n =? EAGAIN) eqn:E; cbn [negb orb]; try done.
  - destruct (negb (command =? BPF_PROG_LOAD)); [done|]. apply Z.eqb_eq in E.
    intros [= <- _ _ _]. congruence.
  - destruct (negb (command =? BPF_PROG_LOAD)); [done|]. intros ? ? ?. apply IH; [done..|lia].
Qed.

(** What the kernel reads as numbers, field by field. *)
Definition told (l : Layout) (bytes : list Z) (name : string) : Z := from_ne_bytes (read_field l name bytes).

(** A field that is set, and one that is not. *)
Lemma told_set l a name t z :
  attr_ok l a -> lookup_name name l = Some t -> a !! name = Some (to_ne_bytes (size t) z) ->
  is_u (8 * Z.of_nat (size t)) z -> told l (encode l a) name = z.
Proof.
  intros Hok Hn Ha Hz. unfold told. rewrite (encode_field _ _ _ _ Hok Hn). unfold field_bytes. rewrite Ha.
  cbn [default]. etrans; [apply from_to_ne_bytes|by apply wrapu_id].
Qed.

Lemma told_unset l a name t :
  attr_ok l a -> lookup_name name l = Some t -> a !! name = None -> told l (encode l a) name = 0.
Proof.
  intros Hok Hn Ha. unfold told. rewrite (encode_field _ _ _ _ Hok Hn). unfold field_bytes. rewrite Ha.
  apply from_zeros.
Qed.

End requests.

(** Settles what the kernel reads of each field of a request. *)
Ltac settle_fields Hok :=
  repeat (apply (f_equal2 cons)); try reflexivity;
  first [ by eapply told_unset; [exact Hok|reflexivity|reflexivity]
        | by eapply told_set; [exact Hok|reflexivity|reflexivity|try done] ].

(** Settles that every field of a request has the bytes of its type. *)
Ltac settle_lengths :=
  unfold attr_ok; repeat (apply Forall_cons; split); [..|by apply Forall_nil];
  cbn [fst snd]; first [done | apply length_u32 | apply length_u64 | apply length_prog_name].

Section theorems.
Context `{HostEndian} {Sys : Type} `{BpfCall Sys} (turns : nat) (target : Z).

Definition ATTACH_FIELDS : list string := fst <$> ProgAttachAttr.

Lemma attach_attr_ok prog flags replace : attr_ok ProgAttachAttr (attach_attr target prog flags replace).
Proof. destruct replace; settle_lengths. Qed.

(** Attaching a program is one bpf(2) command, in which the kernel reads the
    cgroup, the program and the attach type it was called with, the flags as they
    are given, or, to replace a program, with [BPF_F_REPLACE] added and that
    program's descriptor, and zero in every other field of the 32 bytes; its
    answer is the call's result. *)
Theorem attach_request prog flags replace (s : Sys) :
  is_u 32 target -> is_u 32 prog -> is_u 32 flags -> is_u 32 (default 0 replace) ->
  exists bytes,
    sys_prog_attach turns target prog flags replace s =
    (let '(r, _, _, s) := bpf_call BPF_PROG_ATTACH bytes [] s in (if 0 <=? r then Ok tt else Err (- r), s)) /\
    length bytes = 32%nat /\
    told ProgAttachAttr bytes <$> ATTACH_FIELDS =
    [target; prog; CGROUP_DEVICE; if replace is Some _ then flags .| F_REPLACE else flags; default 0 replace; 0; 0].
Proof.
  intros Ht Hp Hf Hr. exists (encode ProgAttachAttr (attach_attr target prog flags replace)).
  pose proof (attach_attr_ok prog flags replace) as Hok. split; [|split].
  - unfold sys_prog_attach. rewrite bpf_once by done.
    destruct (bpf_call _ _ _ _) as [[[r ?] ?] ?]. by destruct (0 <=? r).
  - by rewrite length_encode.
  - assert (is_u 32 (flags .| F_REPLACE)) by (apply lor_u; [done..|by vm_compute]).
    unfold ATTACH_FIELDS, attach_attr in *. cbn [fmap list_fmap ProgAttachAttr fst].
    destruct replace as [old|]; cbn [default id] in *; rewrite !saturated_id in Hok |- * by done; settle_fields Hok.
Qed.

(** What the kernel answers a load in the end: the first answer that is not EAGAIN. *)
Inductive Answered : list Z -> Memory -> Sys -> Z * list Z * Memory * Sys -> Prop :=
  | answered_now attr m s out :
      bpf_call BPF_PROG_LOAD attr m s = out -> out.1.1.1 <> - EAGAIN -> Answered attr m s out
  | answered_later attr m s attr' m' s' out :
      bpf_call BPF_PROG_LOAD attr m s = (- EAGAIN, attr', m', s') ->
      Answered attr' m' s' out -> Answered attr m s out.

Lemma bpf_answered l attr m s r attr' m' s' :
  Answered attr m s (r, attr', m', s') ->
  exists n, forall more, (n <= more)%nat ->
    bpf more BPF_PROG_LOAD l attr m s = (if 0 <=? r then Ok r else Err (- r), attr', m', s').
Proof.
  remember (r, attr', m', s') as out eqn:E. induction 1 as [attr m s out Hc Hr|attr m s a1 m1 s1 out Hc _ IH]; subst.
  - exists 0%nat. intros more _. cbn [fst] in Hr.
    destruct more; cbn [bpf]; rewrite Hc; destruct (0 <=? r); try done;
      by rewrite (proj2 (Z.eqb_neq (- r) EAGAIN)) by lia.
  - destruct IH as [n IH]; [done|]. exists (S n). intros [|more] ?; [lia|]. cbn [bpf]. rewrite Hc.
    apply IH. lia.
Qed.

Lemma load_attr_ok code name log_level log_size : attr_ok ProgLoadAttr (load_attr code name log_level log_size).
Proof. unfold load_attr. destruct (log_level =? 0); settle_lengths. Qed.

(** The numbers of a load, and its name. *)
Definition LOAD_FIELDS : list string :=
  ["prog_type"; "insn_cnt"; "insns"; "license"; "log_level"; "log_size"; "log_buf"; "kern_version"; "prog_flags";
   "_middle"; "log_true_size"; "_rest"].

(** A load asks for a device program with as many instructions as the code has
    slots of eight bytes, the log only at a level above 0, under a name of at most
    15 bytes that a zero ends, and has zeros in every other field of the 168 bytes;
    and if the kernel ever answers other than EAGAIN, the loop ends with that answer,
    a descriptor or the error with the log and the size it needs. *)
Theorem load_request code name log_level log_size (s : Sys) :
  Z.of_nat (length code) < 2 ^ 32 -> is_u 32 log_level -> is_u 32 log_size ->
  Forall (is_u 64) [insns_address; license_address; log_address] ->
  exists bytes,
    length bytes = 168%nat /\
    told ProgLoadAttr bytes <$> LOAD_FIELDS =
    [PROG_TYPE_CGROUP_DEVICE; Z.of_nat (length code) / 8; insns_address; license_address; log_level;
     if log_level =? 0 then 0 else log_size; if log_level =? 0 then 0 else log_address; 0; 0; 0; 0; 0] /\
    read_field ProgLoadAttr "prog_name" bytes = prog_name name /\
    forall r attr m s',
      Answered bytes [(insns_address, code); (license_address, LICENSE); (log_address, zeros (Z.to_nat log_size))] s
        (r, attr, m, s') ->
      exists n, forall turns, (n <= turns)%nat ->
        sys_prog_load turns code name log_level log_size s =
        (match (if 0 <=? r then owned_fd r else Err (- r)) with
         | Ok fd => Ok fd
         | Err errno => Err ({| failure_errno := errno; log_true_size := told ProgLoadAttr attr "log_true_size" |},
                             text_of (at_address log_address m))
         end, s').
Proof.
  intros Hc Hl Hz Ha. exists (encode ProgLoadAttr (load_attr code name log_level log_size)).
  pose proof (load_attr_ok code name log_level log_size) as Hok.
  apply Forall_cons in Ha as [Hi Ha]. apply Forall_cons in Ha as [Hli Ha]. apply Forall_cons in Ha as [Hlo _].
  assert (is_u 32 (Z.of_nat (length code) / 8)).
  { split; [apply Z.div_pos; lia|]. apply Z.le_lt_trans with (Z.of_nat (length code)); [|done].
    apply Z.div_le_upper_bound; lia. }
  split; [|split; [|split]].
  - by rewrite length_encode.
  - unfold LOAD_FIELDS. cbn [fmap list_fmap]. unfold load_attr in *. rewrite !saturated_id in Hok |- * by done.
    destruct (Z.eqb_spec log_level 0) as [->|]; settle_fields Hok.
  - erewrite encode_field by done. unfold load_attr. by destruct (log_level =? 0).
  - intros r attr m s' HA. destruct (bpf_answered ProgLoadAttr _ _ _ _ _ _ _ HA) as [n Hn].
    exists n. intros more Hm. unfold sys_prog_load. rewrite (Hn more Hm). by destruct (0 <=? r).
Qed.

End theorems.

(** ** A kernel that is busy, then answers *)

Module BpfSysExample.

#[local] Instance little : HostEndian := true.

(** It answers EAGAIN as often as its state says, then with descriptor 7. *)
#[local] Instance busy : BpfCall nat := {|
  bpf_call command attr m s :=
    match s with O => (7, attr, m, 0%nat) | S s => (- EAGAIN, attr, m, s) end;
  ids_address := 4096; info_address := 8192; insns_address := 12288; license_address := 16384;
  log_address := 20480; kernel_release := "6.16.0";
|}.

Lemma attach_request_witness :
  sys_prog_attach 0 3 4 2 (Some 5) 0%nat = (Ok tt, 0%nat) /\
  exists bytes,
    sys_prog_attach 0 3 4 2 (Some 5) 0%nat =
    (let '(r, _, _, s) := bpf_call BPF_PROG_ATTACH bytes [] 0%nat in (if 0 <=? r then Ok tt else Err (- r), s)) /\
    length bytes = 32%nat /\ told ProgAttachAttr bytes <$> ATTACH_FIELDS = [3; 4; 6; 6; 5; 0; 0].
Proof. split; [done|]. apply (attach_request 0 3 4 2 (Some 5) 0%nat); by vm_compute. Defined.

(** A load that is busy twice. *)
Lemma load_request_witness :
  sys_prog_load 2 (zeros 16) "filter" 0 0 2%nat = (Ok 7, 0%nat) /\
  exists bytes,
    told ProgLoadAttr bytes <$> LOAD_FIELDS = [15; 2; 12288; 16384; 0; 0; 0; 0; 0; 0; 0; 0].
Proof.
  split; [done|].
  destruct (load_request (zeros 16) "filter" 0 0 2%nat) as (bytes & _ & Hfields & _); [by vm_compute..| |by exists bytes].
  by repeat constructor.
Defined.

(** What the loop gives when its turns are too few is not the kernel's last word. *)
Lemma load_needs_turns : sys_prog_load 1 (zeros 16) "filter" 0 0 2%nat =
  (Err ({| failure_errno := EAGAIN; log_true_size := 0 |}, ""), 0%nat).
Proof. done. Qed.

End BpfSysExample.

(** ** The memory limit of BPF (src/cgroup/rlimit.rs)

    Lifting RLIMIT_MEMLOCK where the kernel charges BPF memory to it: the limit is
    lowered to 0, a map is created to see whether that is allowed anyway, and the
    limit is put back before the answer is looked at. The system calls are a class,
    with the laws of a limit. *)

(** A limit: [None] is infinity. *)
Record Limit := { limit_current : option Z; limit_maximum : option Z }.

Definition UNLIMITED : Limit := {| limit_current := None; limit_maximum := None |}.

Class LimitSys (Sys : Type) := {
  getrlimit : Sys -> Limit;
  prlimit : Limit -> Sys -> result Z unit * Sys;
  map_create_probe : Sys -> result Z unit * Sys;
}.

(** What a limit does: a set one stands, a refused one changes nothing, and a map is
    no limit. *)
Class LimitLaws (Sys : Type) `{LimitSys Sys} : Prop := {
  prlimit_ok l s s' : prlimit l s = (Ok tt, s') -> getrlimit s' = l;
  prlimit_err l s e s' : prlimit l s = (Err e, s') -> getrlimit s' = getrlimit s;
  probe_keeps s r s' : map_create_probe s = (r, s') -> getrlimit s' = getrlimit s;
}.

Inductive MemlockError := Lower (errno : Z) | Restore (errno : Z) | Detect (errno : Z) | SetLimit (errno : Z).

Definition MemlockError_text (errno_string : Z -> string) (e : MemlockError) : string :=
  match e with
  | Lower errno => "lowering memlock rlimit: " +:+ errno_string errno
  | Restore errno => "restoring old memlock rlimit: " +:+ errno_string errno
  | Detect errno => "unexpected error detecting memory cgroup accounting: " +:+ errno_string errno
  | SetLimit errno => "failed to set memlock rlimit: " +:+ errno_string errno
  end.

Section rlimit.
Context {Sys : Type} `{LimitLaws Sys}.

Definition memcg_accounting (s : Sys) : result MemlockError bool * Sys :=
  let old := getrlimit s in
  let zero := {| limit_current := Some 0; limit_maximum := limit_maximum old |} in
  match prlimit zero s with
  | (Err errno, s) => (Err (Lower errno), s)
  | (Ok _, s) =>
      let '(probe, s) := map_create_probe s in
      match prlimit old s with
      | (Err errno, s) => (Err (Restore errno), s)
      | (Ok _, s) =>
          (match probe with
           | Ok _ => Ok true
           | Err errno => if errno =? EPERM then Ok false else Err (Detect errno)
           end, s)
      end
  end.

Definition remove_memlock (s : Sys) : result MemlockError unit * Sys :=
  match memcg_accounting s with
  | (Err e, s) => (Err e, s)
  | (Ok true, s) => (Ok tt, s)
  | (Ok false, s) =>
      match prlimit UNLIMITED s with
      | (Ok _, s) => (Ok tt, s)
      | (Err errno, s) => (Err (SetLimit errno), s)
      end
  end.

Lemma memcg_accounting_limit s r s' :
  memcg_accounting s = (r, s') ->
  getrlimit s' = getrlimit s \/
  exists errno, r = Err (Restore errno) /\
    getrlimit s' = {| limit_current := Some 0; limit_maximum := limit_maximum (getrlimit s) |}.
Proof.
  unfold memcg_accounting. set (zero := {| limit_current := Some 0; limit_maximum := _ |}).
  destruct (prlimit zero s) as [[[]|e] s1] eqn:E1; [|intros [= <- <-]; left; by eapply prlimit_err].
  apply prlimit_ok in E1. destruct (map_create_probe s1) as [probe s2] eqn:E2. apply probe_keeps in E2.
  destruct (prlimit (getrlimit s) s2) as [[[]|e] s3] eqn:E3; intros [= <- <-].
  - left. by apply prlimit_ok in E3.
  - right. exists e. split; [done|]. apply prlimit_err in E3. congruence.
Qed.

(** Lifting the limit never leaves it lowered, except when putting it back was refused,
    which the error says: after a success the limit is what it was or infinite,
    after any other failure it is what it was. *)
Theorem memlock_not_left_lowered s r s' :
  remove_memlock s = (r, s') ->
  match r with
  | Ok _ => getrlimit s' = getrlimit s \/ getrlimit s' = UNLIMITED
  | Err (Restore _) => True
  | Err _ => getrlimit s' = getrlimit s
  end.
Proof.
  unfold remove_memlock. destruct (memcg_accounting s) as [r1 s1] eqn:E1.
  destruct (memcg_accounting_limit _ _ _ E1) as [Hk|(errno & -> & _)]; [|by intros [= <- <-]].
  destruct r1 as [[]|e]; [intros [= <- <-]; by left| |intros [= <- <-]; by destruct e].
  destruct (prlimit UNLIMITED s1) as [[[]|e] s2] eqn:E2; intros [= <- <-].
  - right. by apply prlimit_ok in E2.
  - apply prlimit_err in E2. congruence.
Qed.

End rlimit.

Module RlimitExample.

(** A kernel that charges maps to the limit. *)
#[local] Instance charged : LimitSys Limit := {|
  getrlimit s := s; prlimit l s := (Ok tt, l);
  map_create_probe s := (if bool_decide (limit_current s = Some 0) then Err EPERM else Ok tt, s);
|}.

#[local] Instance charged_laws : LimitLaws Limit.
Proof. split; cbn; intros; by simplify_eq. Qed.

Definition start : Limit := {| limit_current := Some 65536; limit_maximum := Some 65536 |}.

Lemma start_lifted : remove_memlock start = (Ok tt, UNLIMITED).
Proof. reflexivity. Defined.

Lemma memlock_not_left_lowered_witness :
  remove_memlock start = (Ok tt, UNLIMITED) /\ (getrlimit UNLIMITED = getrlimit start \/ getrlimit UNLIMITED = UNLIMITED).
Proof. split; [reflexivity|]. exact (memlock_not_left_lowered start (Ok tt) UNLIMITED start_lifted). Defined.

End RlimitExample.
