(* ===== verification/Docker.v ===== *)
(** * The Docker client (src/docker/api.rs, types.rs, error.rs)

    What the daemon reads of the engine's answers, the negotiation of the API
    version, the four calls and the event stream. The client library is outside: a
    class of the answers to its calls, which are bounded in time there. The calls
    share one connection, and several may settle its version at once: settling is
    a transition of one caller, at most one access to the shared client a step. *)

From Stdlib Require Import Ascii OrderedTypeEx.
From S2P Require Import Prelude.
From S2P Require Import Text.
From S2P Require Import TextProofs.
From S2P Require Import Utf8.
From S2P Require Import V2OpsProofs.
From S2P Require Import BTree.
From S2P Require Import Numbers.
From S2P Require Import Rules.
From S2P Require Import ProcError.
From S2P Require Import Reconcile.
From S2P Require Import Coordinator.
From S2P Require Import Listener.

(** ** The answers (types.rs)

    The client library's models, of which these fields are read; an absent field
    or a null is [None]. The type of an event is its text. *)

Record StateModel := { m_running : option bool; m_pid : option Z; m_started_at : option string }.
Record MountModel := { m_typ : option string; m_source : option string; m_destination : option string }.
Record InspectModel := {
  m_id : option string;
  m_state : option StateModel;
  m_config : option (option (gmap string string));
  m_host_config : option (option bool);
  m_mounts : option (list MountModel);
}.
Record EventModel := { m_action : option string; m_actor : option (option string); m_time_nano : option Z }.

Definition container_state (m : StateModel) : ContainerState :=
  {| Reconcile.running := default false (m_running m); Reconcile.pid := default 0 (m_pid m);
     Reconcile.state_started_at := default "" (m_started_at m) |}.

Definition mount_point (m : MountModel) : MountPoint :=
  {| mount_kind := default "" (m_typ m); mount_source := default "" (m_source m);
     mount_destination := default "" (m_destination m) |}.

Definition container_inspect_from (m : InspectModel) : ContainerInspect :=
  {| inspect_id := default "" (m_id m); inspect_state := container_state <$> m_state m;
     inspect_labels := default ∅ <$> m_config m; inspect_privileged := default false <$> m_host_config m;
     inspect_mounts := mount_point <$> default [] (m_mounts m) |}.

Definition event_from (m : EventModel) : Event :=
  {| ev_action := default "" (m_action m); ev_actor := default "" (default None (m_actor m));
     ev_time_nano := default 0 (m_time_nano m) |}.

(** ** Errors (error.rs) *)

(** The client library's error: its kind and text. *)
Abbreviation ClientError := (ErrorKind * string)%type.

Definition from_client (e : ClientError) : DockerError := Client e.1 e.2.
Definition unavailable (message : string) : DockerError := Plain Unavailable message.
Definition invalid (message : string) : DockerError := Plain OtherKind message.
Definition deadline_exceeded : DockerError := Context DeadlineExceeded.

Definition eof : StreamError := {| stream_kind := Eof; stream_message := "EOF" |}.

Definition failed (e : ClientError) : StreamError :=
  {| stream_kind := match e.1 with
                    | Unavailable | Timeout => UnexpectedEof
                    | Cancelled => Closed
                    | NotFound | Conflict | OtherKind => Decode
                    end;
     stream_message := e.2 |}.

(** ** Filters *)

(** [Ord] of strings: by their bytes. *)
#[global] Instance string_ord : Ord string.
Proof.
  refine {| BTree.lt := String.ltb |}; unfold String.ltb.
  - intros x. by rewrite (proj2 (String_as_OT.cmp_eq x x) eq_refl : String.compare x x = Eq).
  - intros x y z. destruct (String.compare x y) eqn:E1, (String.compare y z) eqn:E2; try done. intros _ _.
    apply String_as_OT.cmp_lt in E1, E2.
    by rewrite (proj2 (String_as_OT.cmp_lt x z) (String_as_OT.lt_trans _ _ _ E1 E2) : String.compare x z = Lt).
  - intros x y. rewrite (String.compare_antisym y x). destruct (String.compare x y) eqn:E; try done. intros _ _.
    by apply String.compare_eq_iff.
Defined.

(** Terms with the sets of their values. *)
Abbreviation Filters := (gmap string (list string)).

Definition filters_add (term : string) (values : list string) (f : Filters) : Filters :=
  <[term := foldl (fun s v => insert_ord v s) (default [] (f !! term)) values]> f.

Definition filters_is_empty (f : Filters) : bool := bool_decide (f = ∅).

(** The terms as the client library takes them: a map to lists. *)
Definition to_map (f : Filters) : gmap string (list string) := f.

(** ** Parameters *)

(** [{:09}]: zeros after a sign. *)
Definition pad (n : Z) : string :=
  let digits := pretty (Z.abs n) in
  (if n <? 0 then "-" else "") +:+
  concat_all (replicate ((if n <? 0 then 8 else 9) - Strings.String.length digits) "0") +:+ digits.

Definition since_parameter (since : Z) : string :=
  pretty (as_second since) +:+ "." +:+ pad (subsec_nanosecond since).

(** [str::trim]. *)
Fixpoint drop_white (l : list string) : list string :=
  match l with [] => [] | c :: l' => if char_whitespace c then drop_white l' else l end.

Definition str_trim (s : string) : string := concat_all (rev (drop_white (rev (drop_white (utf8_chars s))))).

Definition trim_id (id : string) : result DockerError string :=
  let id := str_trim id in
  if bool_decide (id = "") then Err (invalid "invalid container name or ID: value is empty") else Ok id.

(** ** The client *)

Section client.
Context {Lib Config : Type}.

(** The library's client and the config it was connected from. *)
Abbreviation Connection := (Lib * Config)%type.

Record Client := { connection : Connection; negotiated : bool }.

Definition client_new (c : Connection) : Client := {| connection := c; negotiated := false |}.

(** How an attempt to negotiate ended. *)
Inductive Negotiation := Agreed (c : Connection) | NotAgreed (kind : ErrorKind) | NegotiationTimeout.

(** The failures of an engine that was not reached. *)
Definition unreached (kind : ErrorKind) : bool :=
  match kind with Unavailable | Timeout | Cancelled => true | _ => false end.

(** A caller inside [settled], by what it does next. *)
Inductive Caller :=
  | Loading
  | Taking
  | Negotiating (from : Connection)
  | Storing (c : Connection)
  | Flagging
  | Leaving
  | Settled (c : Connection).

(** One step of a caller; [answer] is how its attempt ends, when it waits for it. *)
Definition settled_step (answer : Connection -> Negotiation) (p : Caller) (c : Client) : Caller * Client :=
  match p with
  | Loading => (if negotiated c then Leaving else Taking, c)
  | Taking => (Negotiating (connection c), c)
  | Negotiating from =>
      (match answer from with
       | Agreed new => Storing new
       | NotAgreed kind => if unreached kind then Leaving else Flagging
       | NegotiationTimeout => Leaving
       end, c)
  | Storing new => (Flagging, {| connection := new; negotiated := negotiated c |})
  | Flagging => (Leaving, {| connection := connection c; negotiated := true |})
  | Leaving => (Settled (connection c), c)
  | Settled got => (Settled got, c)
  end.

(** A caller on its own. *)
Fixpoint settled_steps (n : nat) (answer : Connection -> Negotiation) (p : Caller) (c : Client) : Caller * Client :=
  match n with
  | O => (p, c)
  | S n => let '(p, c) := settled_step answer p c in settled_steps n answer p c
  end.

(** The steps a call takes. *)
Definition SETTLED_STEPS : nat := 6.

Definition settled (answer : Connection -> Negotiation) (c : Client) : Connection * Client :=
  match settled_steps SETTLED_STEPS answer Loading c with
  | (Settled got, c) => (got, c)
  | (_, c) => (connection c, c)
  end.

(** The client library's calls, bounded in time. *)
Class Library := {
  lib_negotiate : Connection -> Negotiation;
  lib_ping : Lib -> result ClientError unit;
  lib_list : Lib -> result ClientError (list (option string));
  lib_inspect : Lib -> string -> result ClientError InspectModel;
  lib_events : Config -> string -> option (gmap string (list string)) -> result ClientError unit;
}.

Context `{Library}.

Definition transport (c : Client) : Lib * Client := let '(got, c) := settled lib_negotiate c in (got.1, c).
Definition streaming (c : Client) : Config * Client := let '(got, c) := settled lib_negotiate c in (got.2, c).

(** ** The calls *)

Definition ping (c : Client) : result DockerError unit * Client :=
  let '(docker, c) := transport c in (map_err from_client (lib_ping docker), c).

Definition container_list (c : Client) : result DockerError (list string) * Client :=
  let '(docker, c) := transport c in
  (match lib_list docker with
   | Ok listed => Ok ((fun id => default "" id) <$> listed)
   | Err e => Err (from_client e)
   end, c).

Definition container_inspect (id : string) (c : Client) : result DockerError ContainerInspect * Client :=
  match trim_id id with
  | Err e => (Err e, c)
  | Ok id =>
      let '(docker, c) := transport c in
      (match lib_inspect docker id with
       | Ok inspected => Ok (container_inspect_from inspected)
       | Err e => Err (from_client e)
       end, c)
  end.

Definition events (since : Z) (filters : Filters) (c : Client) : result DockerError unit * Client :=
  let '(config, c) := streaming c in
  (map_err from_client
     (lib_events config (since_parameter since)
        (if filters_is_empty filters then None else Some (to_map filters))), c).

End client.
Arguments Client : clear implicits.
Arguments Caller : clear implicits.
Arguments Negotiation : clear implicits.
Arguments Library : clear implicits.

(** ** The event stream *)

(** What the library's stream still has, and whether the daemon's is over. *)
Record ClientEventStream := { items : list (result ClientError EventModel); over : bool }.

Definition stream_next (s : ClientEventStream) : result StreamError Event * ClientEventStream :=
  if over s then (Err eof, s)
  else
    match items s with
    | Ok event :: rest => (Ok (event_from event), {| items := rest; over := false |})
    | Err error :: rest => (Err (failed error), {| items := rest; over := true |})
    | [] => (Err eof, {| items := []; over := true |})
    end.

Fixpoint stream_nexts (n : nat) (s : ClientEventStream) : list (result StreamError Event) :=
  match n with O => [] | S n => let '(item, s) := stream_next s in item :: stream_nexts n s end.

(** ** Settling *)

Section settling.
Context {Lib Config : Type}.

(** What a caller alone gets, and leaves: the fuel is enough. *)
Lemma settled_alone (answer : Lib * Config -> Negotiation Lib Config) c :
  settled answer c =
  if negotiated c then (connection c, c)
  else match answer (connection c) with
       | Agreed new => (new, {| connection := new; negotiated := true |})
       | NotAgreed kind =>
           if unreached kind then (connection c, c)
           else (connection c, {| connection := connection c; negotiated := true |})
       | NegotiationTimeout => (connection c, c)
       end.
Proof.
  unfold settled, SETTLED_STEPS. destruct c as [pair flag]. destruct flag; [done|].
  cbn. destruct (answer pair) as [new|kind|]; cbn; try done. by destruct (unreached kind).
Qed.

(** Callers together, with what the attempts answered so far. *)
Record World := {
  client : Client Lib Config;
  callers : list (Caller Lib Config);
  heard : list (Negotiation Lib Config);
}.

Definition world_new (first : Lib * Config) : World := {| client := client_new first; callers := []; heard := [] |}.

(** A call comes in, or one of them takes a step. *)
Inductive WorldLabel := Enter | Move (i : nat) (answer : Negotiation Lib Config).

Definition world_step (w : World) (l : WorldLabel) : World :=
  match l with
  | Enter => {| client := client w; callers := callers w ++ [Loading]; heard := heard w |}
  | Move i answer =>
      match callers w !! i with
      | None => w
      | Some p =>
          let '(p', c') := settled_step (fun _ => answer) p (client w) in
          {| client := c'; callers := <[i := p']> (callers w);
             heard := match p with Negotiating _ => heard w ++ [answer] | _ => heard w end |}
      end
  end.

Definition world_run (first : Lib * Config) (ls : list WorldLabel) : World := foldl world_step (world_new first) ls.

(** An attempt that reached the engine. *)
Definition reached (a : Negotiation Lib Config) : bool :=
  match a with Agreed _ => true | NotAgreed kind => negb (unreached kind) | NegotiationTimeout => false end.

(** The pair the client began with, or one that a negotiation gave as a whole. *)
Definition whole (first : Lib * Config) (w : World) (c : Lib * Config) : Prop := c = first \/ Agreed c ∈ heard w.

Definition caller_ok (first : Lib * Config) (w : World) (p : Caller Lib Config) : Prop :=
  match p with
  | Negotiating c | Settled c => whole first w c
  | Storing c => Agreed c ∈ heard w
  | Flagging => exists a, a ∈ heard w /\ reached a = true
  | Loading | Taking | Leaving => True
  end.

(** Those that still have to write the pair, and those that have to write the flag. *)
Definition writes_pair (p : Caller Lib Config) : Prop := match p with Storing _ => True | _ => False end.
Definition writes_flag (p : Caller Lib Config) : Prop := match p with Storing _ | Flagging => True | _ => False end.

Record Keeps (first : Lib * Config) (w : World) : Prop := {
  keeps_pair : whole first w (connection (client w));
  keeps_callers : Forall (caller_ok first w) (callers w);
  keeps_flag : negotiated (client w) = true -> exists a, a ∈ heard w /\ reached a = true;
  keeps_reached a :
    a ∈ heard w -> reached a = true -> negotiated (client w) = true \/ Exists writes_flag (callers w);
  keeps_agreed c :
    Agreed c ∈ heard w -> Agreed (connection (client w)) ∈ heard w \/ Exists writes_pair (callers w);
}.

Lemma caller_ok_heard first w w' p :
  (forall a, a ∈ heard w -> a ∈ heard w') -> caller_ok first w p -> caller_ok first w' p.
Proof. intros Hh. destruct p; cbn; unfold whole; naive_solver. Qed.

(** A caller that is replaced: the others that have to write are still there. *)
Lemma Exists_moved (P : Caller Lib Config -> Prop) l i p q :
  l !! i = Some p -> (P p -> P q) -> Exists P l -> Exists P (<[i := q]> l).
Proof.
  intros Hi Hpq. rewrite !Exists_exists. intros (x & Hx & HP). apply list_elem_of_lookup in Hx as [j Hj].
  destruct (decide (i = j)) as [->|Hne].
  - exists q. split; [|naive_solver]. apply list_elem_of_lookup. exists j.
    apply list_lookup_insert_eq. by eapply lookup_lt_Some.
  - exists x. split; [|done]. apply list_elem_of_lookup. exists j. by rewrite list_lookup_insert_ne.
Qed.

Lemma Exists_here (P : Caller Lib Config -> Prop) l i p q :
  l !! i = Some p -> P q -> Exists P (<[i := q]> l).
Proof.
  intros Hi HP. apply Exists_exists. exists q. split; [|done]. apply list_elem_of_lookup. exists i.
  apply list_lookup_insert_eq. by eapply lookup_lt_Some.
Qed.

(** The callers after one of them moved. *)
Lemma moved_ok first w w' i q :
  (forall a, a ∈ heard w -> a ∈ heard w') -> Keeps first w -> caller_ok first w' q ->
  Forall (caller_ok first w') (<[i := q]> (callers w)).
Proof.
  intros Hh HK Hq. apply Forall_insert; [|done]. eapply Forall_impl; [exact (keeps_callers _ _ HK)|].
  intros x. by apply caller_ok_heard.
Qed.

Lemma Keeps_enter first w : Keeps first w -> Keeps first (world_step w Enter).
Proof.
  intros [Hpair Hcallers Hflag Hreached Hagreed]. split; cbn; try done.
  - apply Forall_app. split; [|by apply Forall_singleton]. eapply Forall_impl; [exact Hcallers|].
    intros x. by apply caller_ok_heard.
  - intros a Ha Hr. destruct (Hreached a Ha Hr) as [?|?]; [by left|right]. apply Exists_app. by left.
  - intros c Hc. destruct (Hagreed c Hc) as [?|?]; [by left|right]. apply Exists_app. by left.
Qed.

(** A step that hears nothing and writes nothing. *)
Lemma Keeps_quiet first w i p q :
  callers w !! i = Some p -> ~ writes_flag p -> caller_ok first w q -> Keeps first w ->
  Keeps first {| client := client w; callers := <[i := q]> (callers w); heard := heard w |}.
Proof.
  intros Hi Hp Hq HK. assert (Hp' : ~ writes_pair p) by (by destruct p).
  split; cbn; try apply HK.
  - by apply (moved_ok first w).
  - intros a Ha Hr. destruct (keeps_reached _ _ HK a Ha Hr) as [?|?]; [by left|right]. by eapply Exists_moved.
  - intros c Hc. destruct (keeps_agreed _ _ HK c Hc) as [?|?]; [by left|right]. by eapply Exists_moved.
Qed.

(** An attempt that ends. *)
Lemma Keeps_heard first w i from answer :
  callers w !! i = Some (Negotiating from) -> Keeps first w -> Keeps first (world_step w (Move i answer)).
Proof.
  intros Hi HK. cbn [world_step settled_step]. rewrite Hi.
  set (q := match answer with Agreed new => Storing new | NotAgreed kind => if unreached kind then Leaving else Flagging
            | NegotiationTimeout => Leaving end).
  assert (Hm : forall a, a ∈ heard w -> a ∈ heard w ++ [answer]) by (intros; apply elem_of_app; by left).
  assert (Hl : answer ∈ heard w ++ [answer]) by (apply elem_of_app; right; by apply list_elem_of_singleton).
  split; cbn.
  - destruct (keeps_pair _ _ HK) as [?|?]; [by left|right]. by apply Hm.
  - apply (moved_ok first w); [done..|]. subst q. destruct answer as [new|kind|]; cbn; try done.
    destruct (unreached kind) eqn:E; [done|]. exists (NotAgreed kind). cbn. by rewrite E.
  - intros Hf. destruct (keeps_flag _ _ HK Hf) as (a & Ha & Hr). exists a. by split; [apply Hm|].
  - intros a [Ha| ->%list_elem_of_singleton]%elem_of_app Hr.
    + destruct (keeps_reached _ _ HK a Ha Hr) as [?|?]; [by left|right]. by eapply Exists_moved.
    + right. eapply Exists_here; [done|]. subst q. destruct answer as [new|kind|]; cbn in Hr |- *; try done.
      by destruct (unreached kind).
  - intros c [Hc|Hc%list_elem_of_singleton]%elem_of_app.
    + destruct (keeps_agreed _ _ HK c Hc) as [?|?]; [left; by apply Hm|right]. by eapply Exists_moved.
    + right. subst answer q. by eapply Exists_here.
Qed.

Lemma Keeps_step first w l : Keeps first w -> Keeps first (world_step w l).
Proof.
  intros HK. destruct l as [|i answer]; [by apply Keeps_enter|].
  destruct (callers w !! i) as [p|] eqn:Hi; [|cbn [world_step]; by rewrite Hi].
  assert (Hp : caller_ok first w p) by (eapply Forall_lookup_1; [apply HK|done]).
  destruct p as [| |from|new| | |got]; try (by eapply Keeps_heard); cbn [world_step settled_step]; rewrite Hi.
  - apply (Keeps_quiet first w i Loading); try done; [tauto|]. by destruct (negotiated (client w)).
  - apply (Keeps_quiet first w i Taking); try done; [tauto|]. apply HK.
  - split; cbn.
    + by right.
    + apply (moved_ok first w); [done..|]. by exists (Agreed new).
    + apply HK.
    + intros a Ha Hr. right. by eapply Exists_here.
    + intros c Hc. by left.
  - split; cbn.
    + apply HK.
    + by apply (moved_ok first w).
    + intros _. exact Hp.
    + intros a _ _. by left.
    + intros c Hc. destruct (keeps_agreed _ _ HK c Hc) as [?|?]; [by left|right]. by eapply Exists_moved.
  - apply (Keeps_quiet first w i Leaving); try done; [tauto|]. apply HK.
  - by apply (Keeps_quiet first w i (Settled got)); try done; tauto.
Qed.

Lemma Keeps_run first ls : Keeps first (world_run first ls).
Proof.
  unfold world_run. assert (H0 : Keeps first (world_new first)).
  { split; cbn; try done; [by left|by intros ? ?%not_elem_of_nil..]. }
  revert H0. generalize (world_new first) as w. induction ls as [|l ls IH]; intros w Hw; [done|].
  by apply IH, Keeps_step.
Qed.

(** However the calls interleave, each gets a library client together with the
    config it was connected from: the pair the client began with or one that a
    negotiation gave as a whole. The version is settled only by an engine that was
    reached; and when no call is under way, one that was reached settled it, and
    one that agreed left the pair that a negotiation agreed on. *)
Theorem settled_pairs first ls :
  let w := world_run first ls in
  (forall i got, callers w !! i = Some (Settled got) -> whole first w got) /\
  (negotiated (client w) = true -> exists a, a ∈ heard w /\ reached a = true) /\
  (Forall (fun p => exists got, p = Settled got) (callers w) ->
   (forall a, a ∈ heard w -> reached a = true -> negotiated (client w) = true) /\
   (forall c, Agreed c ∈ heard w -> Agreed (connection (client w)) ∈ heard w)).
Proof.
  intros w. pose proof (Keeps_run first ls : Keeps first w) as HK. split_and!.
  - intros i got Hi. exact (Forall_lookup_1 _ _ _ _ (keeps_callers _ _ HK) Hi).
  - apply HK.
  - intros Hall. assert (Hno : forall P : Caller Lib Config -> Prop, (forall got, ~ P (Settled got)) -> ~ Exists P (callers w)).
    { intros P HP (x & Hx & HPx)%Exists_exists. rewrite Forall_forall in Hall.
      destruct (Hall x Hx) as [got ->]. by apply (HP got). }
    split; [intros a Ha Hr; destruct (keeps_reached _ _ HK a Ha Hr) as [?|He]; [done|]
           |intros c Hc; destruct (keeps_agreed _ _ HK c Hc) as [?|He]; [done|]];
      destruct (Hno _ (fun got => id) He).
Qed.

End settling.

(** ** The stream *)

(** The items up to the first that is not an event, which ends the stream. *)
Fixpoint delivered (l : list (result ClientError EventModel)) : list (result StreamError Event) :=
  match l with
  | Ok event :: l => Ok (event_from event) :: delivered l
  | Err error :: _ => [Err (failed error)]
  | [] => [Err eof]
  end.

Lemma over_stream n l : stream_nexts n {| items := l; over := true |} = replicate n (Err eof).
Proof. induction n as [|n IH]; [done|]. cbn. by rewrite IH. Qed.

(** The stream hands on the engine's events in order, as the daemon reads them, up to
    the first item that failed or the end, which it reports once; from then on it is
    at its end, whatever the library's stream still has. *)
Theorem stream_delivers n l :
  stream_nexts n {| items := l; over := false |} = take n (delivered l ++ replicate n (Err eof)).
Proof.
  revert l. induction n as [|n IH]; intros l; [done|]. destruct l as [|[event|error] l]; cbn [stream_nexts stream_next].
  - cbn. f_equal. rewrite over_stream, <- replicate_S, take_replicate. f_equal. lia.
  - cbn. f_equal. rewrite IH, <- replicate_S. rewrite !take_app, !take_replicate. f_equal. f_equal. lia.
  - cbn. f_equal. rewrite over_stream, <- replicate_S, take_replicate. f_equal. lia.
Qed.

(** ** The parameter of the events *)

(** How the engine reads it: seconds, a point and nine digits. *)
Definition read_since (s : string) : option Z :=
  let '(seconds, rest) := span_digits s in
  match rest with
  | String point nanos =>
      let '(digits, end_) := span_digits nanos in
      if bool_decide (of_char point = ".") && bool_decide (end_ = "") && (Strings.String.length digits =? 9)%nat
      then Some (digits_value seconds 0 * 1000000000 + digits_value digits 0) else None
  | EmptyString => None
  end.

Lemma zeros_value n s : digits_value (concat_all (replicate n "0") +:+ s) 0 = digits_value s 0.
Proof. induction n as [|n IH]; [done|]. exact IH. Qed.

Lemma zeros_digits n : all_chars is_digit (concat_all (replicate n "0")) = true.
Proof. by induction n. Qed.

Lemma zeros_length n : Strings.String.length (concat_all (replicate n "0")) = n.
Proof. induction n as [|n IH]; [done|]. exact (f_equal S IH). Qed.

Lemma pad_digits n :
  0 <= n < 1000000000 ->
  all_chars is_digit (pad n) = true /\ Strings.String.length (pad n) = 9%nat /\ digits_value (pad n) 0 = n.
Proof.
  intros Hn. unfold pad. rewrite (proj2 (Z.ltb_ge n 0)), Z.abs_eq by lia. change ("" +:+ ?s) with s.
  assert (Hl : (Strings.String.length (pretty n) <= 9)%nat).
  { rewrite pretty_Z_nonneg by lia. case_decide; [simpl; lia|].
    apply (pretty_go_length _ "" 9). change (10 ^ N.of_nat 9)%N with 1000000000%N. lia. }
  split_and!.
  - rewrite all_chars_app, zeros_digits. apply pretty_Z_digits. lia.
  - rewrite length_append, zeros_length. lia.
  - rewrite zeros_value. apply digits_value_pretty. lia.
Qed.

(** The engine reads the instant that a subscription starts from as it was given, from
    the epoch on, to the nanosecond. *)
Theorem since_roundtrip t : 0 <= t -> read_since (since_parameter t) = Some t.
Proof.
  intros Ht. unfold read_since, since_parameter, as_second, subsec_nanosecond.
  rewrite Z.quot_div_nonneg, Z.rem_mod_nonneg by lia.
  assert (0 <= t / 1000000000) by (apply Z.div_pos; lia).
  destruct (pad_digits (t mod 1000000000)) as (Hd & Hl & Hv); [apply Z.mod_pos_bound; lia|].
  rewrite span_digits_app; [|by apply pretty_Z_digits|done]. change ("." +:+ ?s) with (String "."%char s).
  cbv iota beta. rewrite span_digits_all, Hl by done. cbn [andb].
  rewrite !bool_decide_eq_true_2 by done. cbn. f_equal. rewrite digits_value_pretty, Hv by done.
  pose proof (Z.div_mod t 1000000000). lia.
Qed.

(** ** Two calls at once *)

Module DockerExample.

(** Both take the first pair and negotiate; the second hears first. *)
Definition labels : list (@WorldLabel nat nat) :=
  let a := Agreed (1, 41)%nat in let b := Agreed (2, 42)%nat in
  [Enter; Enter; Move 0 a; Move 1 b; Move 0 a; Move 1 b; Move 1 b; Move 1 b; Move 0 a; Move 0 a; Move 0 a; Move 0 a;
   Move 1 b; Move 1 b].

(** The later write wins, and each caller has a pair of one negotiation. *)
Lemma labels_settled :
  callers (world_run (0, 40)%nat labels) = [Settled (1, 41)%nat; Settled (1, 41)%nat] /\
  negotiated (client (world_run (0, 40)%nat labels)) = true.
Proof. done. Qed.

Lemma since_roundtrip_witness : since_parameter 1700000000000000007 = "1700000000.000000007" /\
  read_since (since_parameter 1700000000000000007) = Some 1700000000000000007.
Proof. split; [done|]. by apply (since_roundtrip 1700000000000000007). Defined.

(** A blank ID is refused before the engine is spoken to. *)
Lemma blank_id `{Library nat nat} c : container_inspect "  " c = (Err (invalid "invalid container name or ID: value is empty"), c).
Proof. done. Qed.

End DockerExample.
