(* ===== verification/Engine.v ===== *)
(** * The launcher's engine client and its console (src/launcher/engine.rs, mod.rs)

    The eight calls of [EngineApi] on the daemon client's connection: the request each
    sends and what is read of the answer. The client library is outside: a class of the
    answers to its requests, which are bounded in time there. The requests sent, with
    their bounds, are kept as a log. And the copy of the daemon's output to the console,
    over writers that are a class with its laws. *)

From S2P Require Import Prelude.
From S2P Require Import Text.
From S2P Require Import BTree.
From S2P Require Import ProcError.
From S2P Require Import CallContext.
From S2P Require Import SelfId.
From S2P Require Import LaunchSpec.
From S2P Require Import Launch.
From S2P Require Import Docker.
From S2P Require Import Run.

(** ** Times (mod.rs), in nanoseconds *)

Record Timing := { t_call : Z; t_shutdown_budget : Z; t_poll : Z }.

Definition Timing_default : Timing :=
  {| t_call := DOCKER_CALL_TIMEOUT; t_shutdown_budget := LAUNCHER_BUDGET;
     t_poll := 250 * 1000000 |}.

(** [establish] at an instant: the call first, then the timer, then the context. *)
Definition establish {A} (call : option (result DockerError A)) (timed_out : bool) (done : option ContextError)
    : option (result EstablishError A) :=
  match call, timed_out, done with
  | Some established, _, _ => Some (map_err EstablishFailed established)
  | None, true, _ => Some (Err EstablishTimeout)
  | None, false, Some why => Some (Err (EstablishCanceled why))
  | None, false, None => None
  end.

(** ** Requests *)

(** What each call asks of the engine. *)
Inductive Request :=
  | InspectContainer (id : string)
  | ListContainers (all : bool) (filters : gmap string (list string))
  | RemoveContainer (id : string) (force : bool)
  | CreateContainer (name body : string)
  | AttachContainer (id : string) (buffer : nat)
  | WaitContainer (id condition : string)
  | StartContainer (id : string)
  | StopContainer (id : string) (t : Z).

Inductive Output := Stdout (bytes : list Z) | Stderr (bytes : list Z).

Definition OUTPUT_BUFFER : nat := 64.

(** [i32::try_from(seconds).unwrap_or(i32::MAX)]. *)
Definition stop_seconds (seconds : Z) : Z := if bool_decide (is_i 32 seconds) then seconds else 2 ^ 31 - 1.

(** The bound of a stop, with [u64::try_from(seconds).unwrap_or_default()]. *)
Definition stop_bound (call seconds : Z) : Z :=
  call + (if bool_decide (is_u 64 seconds) then seconds else 0) * 1000000000.

Section engine.
Context {Lib Config : Type} `{!Library Lib Config}.

(** The library's answers, by what is read of them; a null is [None]. *)
Class EngineLibrary := {
  eng_body : string -> result string unit;
  eng_inspect : Lib -> string -> result ClientError (option string * option (option bool));
  eng_list : Lib -> bool -> gmap string (list string) ->
    result ClientError (list (option string * option (gmap string string)));
  eng_remove : Lib -> string -> bool -> result ClientError unit;
  eng_create : Lib -> string -> string -> result ClientError Created;
  eng_attach : Lib -> string -> nat -> result ClientError (list (result ClientError Output));
  (** Registered, the answer to come; [None] is a stream that ends without one. *)
  eng_wait : Config -> string -> string -> result ClientError (option (result ClientError Z));
  eng_start : Lib -> string -> result ClientError unit;
  eng_stop : Lib -> string -> Z -> result ClientError unit;
}.

Context `{!EngineLibrary} (call : Z).

(** The connection, and the requests sent with their bounds. *)
Record Engine := { e_client : Client Lib Config; e_sent : list (Request * Z) }.

Definition EM (A : Type) : Type := Engine -> result DockerError A * Engine.

Definition send {A} (r : Request) (bound : Z) (ask : Lib -> result ClientError A) : EM A := fun e =>
  let '(docker, c) := transport (e_client e) in
  (map_err from_client (ask docker), {| e_client := c; e_sent := e_sent e ++ [(r, bound)] |}).

(** [trim_id(id)?]. *)
Definition with_id {A} (id : string) (k : string -> EM A) : EM A := fun e =>
  match trim_id id with Ok id => k id e | Err error => (Err error, e) end.

Definition answer {A B} (f : A -> B) (m : EM A) : EM B := fun e =>
  let '(r, e) := m e in (match r with Ok a => Ok (f a) | Err error => Err error end, e).

Definition inspect (id : string) : EM Inspected :=
  with_id id (fun id =>
    answer (fun '(image, state) =>
              {| i_image := default "" image; i_running := (fun running => default false running) <$> state |})
      (send (InspectContainer id) call (fun docker => eng_inspect docker id))).

Definition daemon_filters : Filters := filters_add "name" ["^/" +:+ DAEMON_NAME +:+ "$"] ∅.

Definition list_daemons : EM (list Summary) :=
  answer (fmap (fun '(id, labels) => {| sum_id := default "" id; sum_labels := default ∅ labels |}))
    (send (ListContainers true (to_map daemon_filters)) call (fun docker => eng_list docker true (to_map daemon_filters))).

Definition remove (id : string) : EM unit :=
  with_id id (fun id => send (RemoveContainer id true) call (fun docker => eng_remove docker id true)).

Definition create (spec : DaemonSpec) : EM Created := fun e =>
  match eng_body (body spec) with
  | Err error => (Err (invalid ("encode the daemon spec: " +:+ error)), e)
  | Ok _ =>
      send (CreateContainer DAEMON_NAME (body spec)) call (fun docker => eng_create docker DAEMON_NAME (body spec)) e
  end.

Definition attach (id : string) : EM (list (result ClientError Output)) :=
  with_id id (fun id => send (AttachContainer id OUTPUT_BUFFER) call (fun docker => eng_attach docker id OUTPUT_BUFFER)).

(** What the answer of a wait becomes. *)
Definition wait_answer_of (answered : option (result ClientError Z)) : result string WaitResponse :=
  match answered with
  | Some (Ok code) => Ok {| status_code := code; wait_error := None |}
  | Some (Err (NotFound, text)) => Ok (already_removed text)
  | Some (Err (_, text)) => Err text
  | None => Err "the wait ended without an answer"
  end.

Definition REMOVED : string := "removed".

Definition wait_removed (id : string) : EM (result string WaitResponse) :=
  with_id id (fun id e =>
    let '(config, c) := streaming (e_client e) in
    (match eng_wait config id REMOVED with
     | Ok answered => Ok (wait_answer_of answered)
     | Err (NotFound, text) => Ok (Ok (already_removed text))
     | Err error => Err (from_client error)
     end, {| e_client := c; e_sent := e_sent e ++ [(WaitContainer id REMOVED, call)] |})).

Definition start (id : string) : EM unit :=
  with_id id (fun id => send (StartContainer id) call (fun docker => eng_start docker id)).

Definition stop (id : string) (timeout_seconds : Z) : EM unit :=
  with_id id (fun id =>
    let t := stop_seconds timeout_seconds in
    send (StopContainer id t) (stop_bound call timeout_seconds) (fun docker => eng_stop docker id t)).

(** ** What is sent *)

Inductive EngineCall :=
  | CInspect (id : string)
  | CListDaemons
  | CRemove (id : string)
  | CCreate (spec : DaemonSpec)
  | CAttach (id : string)
  | CWaitRemoved (id : string)
  | CStart (id : string)
  | CStop (id : string) (seconds : Z).

Definition after_call (c : EngineCall) (e : Engine) : Engine :=
  match c with
  | CInspect id => (inspect id e).2
  | CListDaemons => (list_daemons e).2
  | CRemove id => (remove id e).2
  | CCreate spec => (create spec e).2
  | CAttach id => (attach id e).2
  | CWaitRemoved id => (wait_removed id e).2
  | CStart id => (start id e).2
  | CStop id seconds => (stop id seconds e).2
  end.

(** The container a call is about, by ID; the daemon's name is only listed and created. *)
Definition target (r : Request) : option string :=
  match r with
  | InspectContainer id | RemoveContainer id _ | AttachContainer id _ | WaitContainer id _ | StartContainer id
  | StopContainer id _ => Some id
  | ListContainers _ _ | CreateContainer _ _ => None
  end.

Definition target_of (c : EngineCall) : option string :=
  match c with
  | CInspect id | CRemove id | CAttach id | CWaitRemoved id | CStart id | CStop id _ => Some id
  | CListDaemons | CCreate _ => None
  end.

(** Whether a request changes something on the engine. *)
Definition writes (r : Request) : bool :=
  match r with
  | InspectContainer _ | ListContainers _ _ | AttachContainer _ _ | WaitContainer _ _ => false
  | RemoveContainer _ _ | CreateContainer _ _ | StartContainer _ | StopContainer _ _ => true
  end.

Definition may_write (c : EngineCall) : bool :=
  match c with CInspect _ | CListDaemons | CAttach _ | CWaitRemoved _ => false | _ => true end.

Lemma send_sent {A} r bound (ask : Lib -> result ClientError A) e :
  e_sent (send r bound ask e).2 = e_sent e ++ [(r, bound)].
Proof. unfold send. by destruct (transport (e_client e)). Qed.

Lemma answer_sent {A B} (f : A -> B) (m : EM A) e : e_sent (answer f m e).2 = e_sent (m e).2.
Proof. unfold answer. by destruct (m e). Qed.

(** At most one request was sent, of the call's kind and for its trimmed ID, and bounded. *)
Definition sends_once (c : EngineCall) (e e' : Engine) : Prop :=
  exists sent, e_sent e' = e_sent e ++ sent /\ (length sent <= 1)%nat /\
    forall r bound, (r, bound) ∈ sent ->
      writes r = may_write c /\ target r = str_trim <$> target_of c /\ target r <> Some "" /\
      call <= bound /\ (bound = call \/ exists id seconds, c = CStop id seconds /\ bound = stop_bound call seconds).

Lemma sends_none c e : sends_once c e e.
Proof. exists []. rewrite app_nil_r. split_and!; [done|cbn; lia|]. by intros ? ? ?%not_elem_of_nil. Qed.

Lemma sends_one c r e e' :
  e_sent e' = e_sent e ++ [(r, call)] -> writes r = may_write c -> target r = str_trim <$> target_of c ->
  target r <> Some "" -> sends_once c e e'.
Proof.
  intros E H1 H2 H3. exists [(r, call)]. split_and!; [done|cbn; lia|].
  intros r0 bound [= -> ->]%list_elem_of_singleton. split_and!; [done..|lia|by left].
Qed.

Lemma trim_some id id' : trim_id id = Ok id' -> id' = str_trim id /\ Some id' <> Some "".
Proof. unfold trim_id. case_bool_decide; [done|]. intros [= <-]. split; [done|congruence]. Qed.

(** A call about one container that is bounded by the call timeout. *)
Lemma with_id_sends {A} c id (r : string -> Request) (k : string -> EM A) e :
  target_of c = Some id -> (forall id, writes (r id) = may_write c /\ target (r id) = Some id) ->
  (forall id, e_sent (k id e).2 = e_sent e ++ [(r id, call)]) -> sends_once c e (with_id id k e).2.
Proof.
  intros Ht Hr Hk. unfold with_id. destruct (trim_id id) as [id'|] eqn:Et; [|apply sends_none].
  apply trim_some in Et as [-> Hne]. destruct (Hr (str_trim id)) as [Hw Hx].
  eapply sends_one; [apply Hk|done|by rewrite Ht|by rewrite Hx].
Qed.

(** A call sends at most one request, so that a write is never sent twice: the one of its
    kind, for the trimmed ID it was given, and none for a blank one. Its bound is the call
    timeout, and for a stop that and the seconds it grants the container. *)
Theorem call_sends_once c e : sends_once c e (after_call c e).
Proof.
  destruct c as [id| |id|spec|id|id|id|id seconds]; cbn [after_call].
  - apply (with_id_sends _ _ InspectContainer); [done|done|]. intros id'. by rewrite answer_sent, send_sent.
  - eapply sends_one; [unfold list_daemons; by rewrite answer_sent, send_sent|done..].
  - apply (with_id_sends _ _ (fun id => RemoveContainer id true)); [done|done|]. intros id'. apply send_sent.
  - unfold create. destruct (eng_body (body spec)); [|apply sends_none]. eapply sends_one; [apply send_sent|done..].
  - apply (with_id_sends _ _ (fun id => AttachContainer id OUTPUT_BUFFER)); [done|done|]. intros id'. apply send_sent.
  - apply (with_id_sends _ _ (fun id => WaitContainer id REMOVED)); [done|done|]. intros id'. by destruct (streaming (e_client e)) as [config c].
  - apply (with_id_sends _ _ StartContainer); [done|done|]. intros id'. apply send_sent.
  - unfold stop, with_id. destruct (trim_id id) as [id'|] eqn:Et; [|apply sends_none].
    apply trim_some in Et as [-> Hne]. eexists. split; [apply send_sent|]. split; [cbn; lia|].
    intros r bound [= -> ->]%list_elem_of_singleton. split_and!; [done..| |right; by exists id, seconds].
    unfold stop_bound. case_bool_decide as Hu; [unfold is_u in Hu|]; lia.
Qed.

End engine.

(** ** The copy of the output (mod.rs) *)

(** A writer of the console. *)
Class Writer (Wr : Type) := {
  write_all : list Z -> Wr -> result string unit * Wr;
  flush : Wr -> result string unit * Wr;
}.

Section copy.
Context {Wr : Type} `{!Writer Wr}.

Definition write_piece (bytes : list Z) (w : Wr) : result string unit * Wr :=
  match write_all bytes w with
  | (Ok _, w) => flush w
  | (Err e, w) => (Err e, w)
  end.

(** [copy_output]: what the receiver gives until it is closed. *)
Fixpoint copy_output (attached : list (result ClientError Output)) (copied : Z) (stdout stderr : Wr)
    : result string Z * (Wr * Wr) :=
  match attached with
  | [] => (Ok copied, (stdout, stderr))
  | Err error :: _ => (Err error.2, (stdout, stderr))
  | Ok (Stdout bytes) :: attached =>
      match write_piece bytes stdout with
      | (Ok _, stdout) => copy_output attached (wrapu 64 (copied + Z.of_nat (length bytes))) stdout stderr
      | (Err e, stdout) => (Err e, (stdout, stderr))
      end
  | Ok (Stderr bytes) :: attached =>
      match write_piece bytes stderr with
      | (Ok _, stderr) => copy_output attached (wrapu 64 (copied + Z.of_nat (length bytes))) stdout stderr
      | (Err e, stderr) => (Err e, (stdout, stderr))
      end
  end.

(** ** What reaches the console *)

(** The bytes of a stream up to the first error. *)
Fixpoint bytes_of (pick : Output -> list Z) (attached : list (result ClientError Output)) : list Z :=
  match attached with
  | Ok piece :: attached => pick piece ++ bytes_of pick attached
  | _ => []
  end.

Definition on_stdout (piece : Output) : list Z := match piece with Stdout bytes => bytes | Stderr _ => [] end.
Definition on_stderr (piece : Output) : list Z := match piece with Stdout _ => [] | Stderr bytes => bytes end.

(** A writer takes the bytes in order, all of them unless it fails, and flushing takes
    none. *)
Class WriterLaws := {
  written : Wr -> list Z;
  write_law bytes w r w' : write_all bytes w = (r, w') ->
    exists p, written w' = written w ++ p /\ p `prefix_of` bytes /\ (r = Ok tt -> p = bytes);
  flush_law w r w' : flush w = (r, w') -> written w' = written w;
}.

Context `{!WriterLaws}.

Lemma piece_law bytes w r w' :
  write_piece bytes w = (r, w') ->
  exists p, written w' = written w ++ p /\ p `prefix_of` bytes /\ (r = Ok tt -> p = bytes).
Proof.
  unfold write_piece. destruct (write_all bytes w) as [[[]|e] w1] eqn:E.
  - intros Hf%flush_law. destruct (write_law _ _ _ _ E) as (p & Hw & Hp & Hok). exists p. rewrite Hf. auto.
  - intros [= <- <-]. destruct (write_law _ _ _ _ E) as (p & Hw & Hp & _). by exists p.
Qed.

(** What was written to [w], in [w'], is a prefix of [all]; all of it after a good end. *)
Definition copies (all : list Z) (good : bool) (w w' : Wr) : Prop :=
  exists p, written w' = written w ++ p /\ p `prefix_of` all /\ (good = true -> p = all).

Lemma copies_none all w : copies all false w w.
Proof. exists []. rewrite app_nil_r. split_and!; [done|apply prefix_nil|done]. Qed.

Lemma copies_end good w : copies [] good w w.
Proof. exists []. by rewrite app_nil_r. Qed.

Lemma copies_after bytes all good w w1 w' :
  written w1 = written w ++ bytes -> copies all good w1 w' -> copies (bytes ++ all) good w w'.
Proof.
  intros E1 (p & E2 & Hp & Hg). exists (bytes ++ p). rewrite E2, E1, app_assoc. split_and!; [done|by apply prefix_app|].
  intros Hx. by rewrite Hg.
Qed.

Lemma copies_failed bytes all w w' p :
  written w' = written w ++ p -> p `prefix_of` bytes -> copies (bytes ++ all) false w w'.
Proof. intros E Hp. exists p. split_and!; [done|by apply prefix_app_r|done]. Qed.

(** The end is good when the stream was closed and every byte was taken. *)
Definition good_end (r : result string Z) : bool := match r with Ok _ => true | Err _ => false end.

Lemma copy_copies attached copied out err r out' err' :
  copy_output attached copied out err = (r, (out', err')) ->
  copies (bytes_of on_stdout attached) (good_end r) out out' /\
  copies (bytes_of on_stderr attached) (good_end r) err err' /\
  (good_end r = true -> Forall (fun x => is_ok x = true) attached).
Proof.
  revert copied out err. induction attached as [|[[bytes|bytes]|e] attached IH]; intros copied out err; cbn [copy_output].
  - intros [= <- <- <-]. split_and!; [apply copies_end..|constructor].
  - destruct (write_piece bytes out) as [[[]|e] out1] eqn:E; destruct (piece_law _ _ _ _ E) as (p & Hw & Hp & Hok).
    + rewrite (Hok eq_refl) in Hw. intros (H1 & H2 & H3)%IH. split_and!; [by eapply copies_after|done|by constructor; auto].
    + intros [= <- <- <-]. split_and!; [by eapply copies_failed|apply copies_none|done].
  - destruct (write_piece bytes err) as [[[]|e] err1] eqn:E; destruct (piece_law _ _ _ _ E) as (p & Hw & Hp & Hok).
    + rewrite (Hok eq_refl) in Hw. intros (H1 & H2 & H3)%IH. split_and!; [done|by eapply copies_after|by constructor; auto].
    + intros [= <- <- <-]. split_and!; [apply copies_none|by eapply copies_failed|done].
  - intros [= <- <- <-]. split_and!; [apply copies_end..|done].
Qed.

(** The daemon's output reaches the console as it is: each of the two streams gets, in
    order and unchanged, a prefix of the bytes the daemon wrote to it, and all of them when
    the copy ends well, which it does only when the attach ended without an error. *)
Theorem output_copied attached out err r out' err' :
  copy_output attached 0 out err = (r, (out', err')) ->
  (exists p, written out' = written out ++ p /\ p `prefix_of` bytes_of on_stdout attached) /\
  (exists p, written err' = written err ++ p /\ p `prefix_of` bytes_of on_stderr attached) /\
  forall n, r = Ok n ->
    Forall (fun x => is_ok x = true) attached /\
    written out' = written out ++ bytes_of on_stdout attached /\
    written err' = written err ++ bytes_of on_stderr attached.
Proof.
  intros ((p & Ho & Hp & Hgp) & (q & He & Hq & Hgq) & Hok)%copy_copies. split_and!; [by exists p|by exists q|].
  intros n ->. rewrite Ho, He, Hgp, Hgq by done. by split; [apply Hok|].
Qed.

End copy.

(** ** A console of buffers *)

Module EngineExample.

(** The buffers of the tests (src/launcher/fake.rs): they take everything. *)
Record Buffer := { text : list Z }.

#[local] Instance buffer_writer : Writer Buffer := {|
  write_all bytes w := (Ok tt, {| text := text w ++ bytes |});
  flush w := (Ok tt, w);
|}.

#[local] Instance buffer_laws : WriterLaws (Wr := Buffer).
Proof.
  refine {| written := text |}.
  - intros bytes w r w' [= <- <-]. by exists bytes.
  - by intros w r w' [= <- <-].
Defined.

Definition empty : Buffer := {| text := [] |}.

Definition pieces : list (result ClientError Output) := [Ok (Stdout [1; 2]); Ok (Stderr [3]); Ok (Stdout [4])].

Lemma output_copied_witness :
  text (copy_output pieces 0 empty empty).2.1 = [1; 2; 4] /\ text (copy_output pieces 0 empty empty).2.2 = [3].
Proof.
  assert (E : copy_output pieces 0 empty empty = (Ok 4, ({| text := [1; 2; 4] |}, {| text := [3] |}))) by reflexivity.
  destruct (output_copied (Writer0 := buffer_writer) _ _ _ _ _ _ E) as (_ & _ & H).
  destruct (H 4 eq_refl) as (_ & Ho & He). split; [exact Ho|exact He].
Defined.

(** A piece after the stream broke is not copied. *)
Example broken_stream :
  copy_output [Ok (Stdout [1]); Err (Unavailable, "reset"); Ok (Stdout [2])] 0 empty empty
  = (Err "reset", ({| text := [1] |}, empty)).
Proof. reflexivity. Qed.

End EngineExample.
