(* ===== verification/Processor.v ===== *)
(** * The processor's calls together (src/processor/reconcile.rs)

    The async operations of [Processor]: a caller that inspects the container and starts
    a blocking transaction, which takes the lock and goes on even when the caller is
    dropped. Calls interleave at every point where one of them waits. What is done under
    the lock, a mutex, is done whole, by the transactions of [Reconcile]; what happens
    outside meanwhile is in the answers they get. A runtime that stops before a
    transaction ends is not modelled. *)

From S2P Require Import Prelude.
From S2P Require Import Text.
From S2P Require Import Ebpf.
From S2P Require Import V2.
From S2P Require Import Ledger.
From S2P Require Import DevFs.
From S2P Require Import ProcCgroup.
From S2P Require Import Policy.
From S2P Require Import Rules.
From S2P Require Import Lifecycle.
From S2P Require Import ProcError.
From S2P Require Import Reconcile.
From S2P Require Import ReconcileProofs.
From S2P Require Import RevokeProofs.
From S2P Require Import LifecycleProofs.
From S2P Require Import PolicyProofs.
From S2P Require Import RulesProofs.

(** ** Calls *)

Inductive ProcessorCall :=
  | CallReconcile (id : string)
  | CallTerminate (id : string) (event_time : Z)
  | CallSweep
  | CallPublish (r : Runtime)
  | CallSetRequester.

(** What a blocking task does under the lock. *)
Inductive Job := Locked (t : Transaction) | InstallRequester.

(** What it answers; a publication also says whether a requester was installed. *)
Inductive JobAnswer :=
  | Outcome (r : result ProcError unit)
  | Released (n : nat)
  | Published (generation : Z) (request : bool)
  | Installed.

(** Where a call is: its inspect, its task before and after the lock, and its return. *)
Inductive Progress :=
  | Inspecting (id : string)
  | Blocked (j : Job)
  | Ran (j : Job) (a : JobAnswer)
  | Answered (j : Job) (a : JobAnswer).

Record ProcessorCaller := { progress : Progress; dropped : bool }.

Section calls.
Context {crate : GlobCrate} {jiff : Jiff}.
Context {W Fd Pidfd Dirfd Node : Type} {outside : World W Fd Pidfd Dirfd Node} {controllers : Controllers W Fd}.
Context (host_root proc_root : string).

Abbreviation PS := (PState (W := W)).

Record Processor := {
  p_state : PS;
  requester : bool;
  tasks : list ProcessorCaller;
  (** The generations handed to the requester. *)
  requested : list Z;
  (** [close_and_wait] was called, and has returned. *)
  closed : bool;
  drained : bool;
}.

Definition processor_new (w : W) (config : Runtime) : Processor :=
  {| p_state := initial w config; requester := false; tasks := []; requested := []; closed := false;
     drained := false |}.

Definition with_state (s : PS) (p : Processor) : Processor :=
  {| p_state := s; requester := requester p; tasks := tasks p; requested := requested p; closed := closed p;
     drained := drained p |}.

Definition with_tasks (l : list ProcessorCaller) (p : Processor) : Processor :=
  {| p_state := p_state p; requester := requester p; tasks := l; requested := requested p; closed := closed p;
     drained := drained p |}.

Definition move (i : nat) (c : ProcessorCaller) (g : Progress) (p : Processor) : Processor :=
  with_tasks (<[i := {| progress := g; dropped := dropped c |}]> (tasks p)) p.

(** The first await of each operation. *)
Definition enter (c : ProcessorCall) : Progress :=
  match c with
  | CallReconcile id => Inspecting id
  | CallTerminate id event_time => Blocked (Locked (TTerminate id event_time))
  | CallSweep => Blocked (Locked TSweep)
  | CallPublish r => Blocked (Locked (TPublish r))
  | CallSetRequester => Blocked InstallRequester
  end.

Definition job_answer (j : Job) (p : Processor) : JobAnswer * Processor :=
  match j with
  | Locked (TReconcile id inspected) =>
      let '(r, s) := reconcile_locked host_root proc_root id inspected (p_state p) in (Outcome r, with_state s p)
  | Locked (TTerminate id event_time) =>
      let '(r, s) := terminate_locked id event_time (p_state p) in (Outcome r, with_state s p)
  | Locked TSweep => let '(n, s) := sweep_locked (p_state p) in (Released n, with_state s p)
  | Locked (TPublish r) =>
      let '(gen, s) := publish_locked r (p_state p) in (Published gen (requester p), with_state s p)
  | InstallRequester =>
      (Installed, {| p_state := p_state p; requester := true; tasks := tasks p; requested := requested p;
                     closed := closed p; drained := drained p |})
  end.

(** What the caller of a finished task does with the answer. *)
Definition resume (a : JobAnswer) (p : Processor) : Processor :=
  match a with
  | Published gen true =>
      {| p_state := p_state p; requester := requester p; tasks := tasks p; requested := requested p ++ [gen];
         closed := closed p; drained := drained p |}
  | _ => p
  end.

Definition blocked (c : ProcessorCaller) : bool := match progress c with Blocked _ => true | _ => false end.

Inductive ProcessorLabel :=
  | Called (c : ProcessorCall)
  | InspectEnds (i : nat)
  | TakesLock (i : nat)
  | Resumes (i : nat)
  | Dropped (i : nat)
  | WorldMoves
  | Close
  | WaitReturns.

Definition processor_step (l : ProcessorLabel) (p : Processor) : option Processor :=
  match l with
  | Called c => Some (with_tasks (tasks p ++ [{| progress := enter c; dropped := false |}]) p)
  | InspectEnds i =>
      c ← tasks p !! i;
      match progress c, dropped c with
      | Inspecting id, false =>
          let '(r, s) := inspect id (p_state p) in Some (move i c (Blocked (Locked (TReconcile id r))) (with_state s p))
      | _, _ => None
      end
  | TakesLock i =>
      c ← tasks p !! i;
      match progress c with
      | Blocked j => let '(a, p') := job_answer j p in Some (move i c (Ran j a) p')
      | _ => None
      end
  | Resumes i =>
      c ← tasks p !! i;
      match progress c, dropped c with
      | Ran j a, false => Some (move i c (Answered j a) (resume a p))
      | _, _ => None
      end
  | Dropped i => c ← tasks p !! i; Some (with_tasks (<[i := {| progress := progress c; dropped := true |}]> (tasks p)) p)
  | WorldMoves => Some (with_state (stepped (p_state p)) p)
  | Close =>
      Some {| p_state := p_state p; requester := requester p; tasks := tasks p; requested := requested p;
              closed := true; drained := drained p |}
  | WaitReturns =>
      if closed p && negb (existsb blocked (tasks p)) then
        Some {| p_state := p_state p; requester := requester p; tasks := tasks p; requested := requested p;
                closed := true; drained := true |}
      else None
  end.

Fixpoint processor_steps (ls : list ProcessorLabel) (p : Processor) : option Processor :=
  match ls with [] => Some p | l :: ls => p' ← processor_step l p; processor_steps ls p' end.

(** ** One after the other *)

(** The transactions run one at a time; between them the world moves and containers are
    inspected. *)
Inductive serial (s0 : PS) : list Transaction -> PS -> Prop :=
  | serial_start : serial s0 [] s0
  | serial_world ts s : serial s0 ts s -> serial s0 ts (stepped s)
  | serial_inspect ts s id : serial s0 ts s -> serial s0 ts (inspect id s).2
  | serial_transaction ts s t :
      serial s0 ts s -> serial s0 (ts ++ [t]) (run_transaction host_root proc_root t s).2.

(** The transaction a call has run. *)
Definition ran (c : ProcessorCaller) : option Transaction :=
  match progress c with Ran (Locked t) _ | Answered (Locked t) _ => Some t | _ => None end.

#[local] Arguments ran : simpl never.

Lemma job_tasks j p : tasks (job_answer j p).2 = tasks p.
Proof. destruct j as [[id r|id e| |r]|]; cbn; try done; by case_match. Qed.

Lemma job_requested j p : requested (job_answer j p).2 = requested p.
Proof. destruct j as [[id r|id e| |r]|]; cbn; try done; by case_match. Qed.

Lemma job_transaction t p : p_state (job_answer (Locked t) p).2 = (run_transaction host_root proc_root t (p_state p)).2.
Proof. destruct t as [id r|id e| |r]; cbn [job_answer run_transaction]; rewrite run_snd; by case_match. Qed.

Lemma job_install p : p_state (job_answer InstallRequester p).2 = p_state p.
Proof. done. Qed.

(** A caller that is replaced changes what ran by its own transaction. *)
Lemma ran_insert (l : list ProcessorCaller) i c c' :
  l !! i = Some c -> ran c = None ->
  omap ran (<[i := c']> l) ≡ₚ option_list (ran c') ++ omap ran l.
Proof.
  revert i. induction l as [|x l IH]; intros i Hi Hc; [done|]. destruct i as [|i]; cbn in Hi |- *.
  - injection Hi as ->. rewrite Hc. by destruct (ran c').
  - destruct (ran x) as [t|]; rewrite (IH i Hi Hc); [|done]. by destruct (ran c') as [t'|]; cbn; [constructor|].
Qed.

Lemma ran_same (l : list ProcessorCaller) i c c' :
  l !! i = Some c -> ran c' = ran c -> omap ran (<[i := c']> l) = omap ran l.
Proof.
  revert i. induction l as [|x l IH]; intros i Hi Hc; [done|]. destruct i as [|i]; cbn in Hi |- *.
  - injection Hi as ->. by rewrite Hc.
  - destruct (ran x); [f_equal|]; by apply IH.
Qed.

Definition serialized (s0 : PS) (p : Processor) : Prop :=
  exists ts, serial s0 ts (p_state p) /\ ts ≡ₚ omap ran (tasks p).

Lemma serialized_step s0 l p p' : processor_step l p = Some p' -> serialized s0 p -> serialized s0 p'.
Proof.
  intros Hs (ts & Hser & Hp). destruct l as [c|i|i|i|i| | |]; cbn in Hs.
  - injection Hs as <-. exists ts. split; [done|]. cbn. rewrite omap_app. by destruct c; cbn; rewrite app_nil_r.
  - destruct (tasks p !! i) as [c|] eqn:Ei; [|done]. cbn in Hs. destruct (progress c) as [id| | |] eqn:Ec; try done.
    destruct (dropped c); [done|]. destruct (inspect id (p_state p)) as [r s] eqn:Er. injection Hs as <-.
    exists ts. cbn. split; [by change s with (r, s).2; rewrite <- Er; constructor|].
    rewrite (ran_same _ _ c); [done|done|]. unfold ran. by rewrite Ec.
  - destruct (tasks p !! i) as [c|] eqn:Ei; [|done]. cbn in Hs. destruct (progress c) as [|j| |] eqn:Ec; try done.
    pose proof (job_tasks j p) as Ht. destruct j as [t|].
    + pose proof (job_transaction t p) as Hj. destruct (job_answer (Locked t) p) as [a p1]. injection Hs as <-.
      cbn [snd] in Hj, Ht. exists (ts ++ [t]). cbn. rewrite Hj, Ht. split; [by constructor|].
      rewrite (ran_insert _ _ c) by (done || unfold ran; by rewrite Ec). cbn. rewrite Hp. by rewrite <- Permutation_cons_append.
    + destruct (job_answer InstallRequester p) as [a p1] eqn:Ej. injection Hs as <-. injection Ej as <- <-.
      exists ts. split; [done|]. cbn. rewrite (ran_same _ _ c); [done|done|]. unfold ran. by rewrite Ec.
  - destruct (tasks p !! i) as [c|] eqn:Ei; [|done]. cbn in Hs. destruct (progress c) as [| |j a|] eqn:Ec; try done.
    destruct (dropped c); [done|]. injection Hs as <-.
    assert (p_state (resume a p) = p_state p /\ tasks (resume a p) = tasks p) as [E1 E2] by (by destruct a as [| |? []|]).
    exists ts. cbn. rewrite E1, E2. split; [done|]. rewrite (ran_same _ _ c); [done|done|]. unfold ran. by rewrite Ec.
  - destruct (tasks p !! i) as [c|] eqn:Ei; [|done]. injection Hs as <-. exists ts. split; [done|]. cbn.
    by rewrite (ran_same _ _ c).
  - injection Hs as <-. exists ts. split; [by constructor|done].
  - injection Hs as <-. by exists ts.
  - destruct (_ && _); [|done]. injection Hs as <-. by exists ts.
Qed.

Lemma serialized_steps s0 ls p p' : processor_steps ls p = Some p' -> serialized s0 p -> serialized s0 p'.
Proof.
  revert p. induction ls as [|l ls IH]; intros p; cbn [processor_steps]; [by intros [= ->]|].
  destruct (processor_step l p) as [p1|] eqn:E; [|done]. intros Hs Hp. eapply IH; [exact Hs|]. by eapply serialized_step.
Qed.

(** ** How a call goes on *)

(** Where a call is after a step, given where it was. *)
Inductive goes_on (l : ProcessorLabel) (i : nat) (p : Processor) : Progress -> Progress -> Prop :=
  | goes_same g : l <> TakesLock i -> goes_on l i p g g
  | goes_inspected id r : l <> TakesLock i -> goes_on l i p (Inspecting id) (Blocked (Locked (TReconcile id r)))
  | goes_locked j : l = TakesLock i -> goes_on l i p (Blocked j) (Ran j (job_answer j p).1)
  | goes_resumed j a : l <> TakesLock i -> goes_on l i p (Ran j a) (Answered j a).

Lemma goes_insert l p k x c' i c :
  tasks p !! k = Some x -> goes_on l k p (progress x) (progress c') ->
  (i <> k -> l <> TakesLock i) -> tasks p !! i = Some c ->
  exists d, <[k := c']> (tasks p) !! i = Some d /\ goes_on l i p (progress c) (progress d).
Proof.
  intros Hk Hg Hl Hi. destruct (decide (i = k)) as [->|Hne].
  - exists c'. rewrite list_lookup_insert_eq by (by eapply lookup_lt_Some). split; [done|]. congruence.
  - exists c. rewrite list_lookup_insert_ne by done. split; [done|]. constructor. auto.
Qed.

Lemma call_goes_on l p p' i c :
  processor_step l p = Some p' -> tasks p !! i = Some c ->
  exists c', tasks p' !! i = Some c' /\ goes_on l i p (progress c) (progress c').
Proof.
  intros Hs Hi. destruct l as [x|k|k|k|k| | |]; cbn in Hs.
  2-5: destruct (tasks p !! k) as [x|] eqn:Ek; [|done]; cbn in Hs.
  - injection Hs as <-. exists c. cbn. rewrite lookup_app_l by (by eapply lookup_lt_Some). split; [done|by constructor].
  - destruct (progress x) as [id| | |] eqn:Ex; try done. destruct (dropped x); [done|].
    destruct (inspect id (p_state p)) as [r s]. injection Hs as <-. cbn.
    eapply goes_insert; [exact Ek| |done|done]. rewrite Ex. by constructor.
  - destruct (progress x) as [|j| |] eqn:Ex; try done. pose proof (job_tasks j p) as Ht.
    assert (goes_on (TakesLock k) k p (Blocked j) (Ran j (job_answer j p).1)) as Hj by (by constructor).
    destruct (job_answer j p) as [a p1]. injection Hs as <-. cbn in Ht, Hj |- *. rewrite Ht.
    eapply goes_insert; [exact Ek|by rewrite Ex| |done]. congruence.
  - destruct (progress x) as [| |j a|] eqn:Ex; try done. destruct (dropped x); [done|]. injection Hs as <-.
    assert (tasks (resume a p) = tasks p) as Ht by (by destruct a as [| |? []|]). cbn. rewrite Ht.
    eapply goes_insert; [exact Ek| |done|done]. rewrite Ex. by constructor.
  - injection Hs as <-. cbn. eapply goes_insert; [exact Ek| |done|done]. by constructor.
  - injection Hs as <-. exists c. split; [done|by constructor].
  - injection Hs as <-. exists c. split; [done|by constructor].
  - destruct (_ && _); [|done]. injection Hs as <-. exists c. split; [done|by constructor].
Qed.

(** Only [Dropped] drops a caller. *)
Lemma call_dropped l p p' i c c' :
  processor_step l p = Some p' -> tasks p !! i = Some c -> tasks p' !! i = Some c' ->
  dropped c' = dropped c \/ l = Dropped i.
Proof.
  intros Hs Hi Hi'. assert (HI : forall k x g, tasks p !! k = Some x ->
    <[k := {| progress := g; dropped := dropped x |}]> (tasks p) !! i = Some c' -> dropped c' = dropped c).
  { intros k x g Hk [(<- & <- & _)|[_ Hc]]%list_lookup_insert_Some; cbn; congruence. }
  destruct l as [x|k|k|k|k| | |]; cbn in Hs.
  2-5: destruct (tasks p !! k) as [x|] eqn:Ek; [|done]; cbn in Hs.
  - injection Hs as <-. cbn in Hi'. rewrite lookup_app_l in Hi' by (by eapply lookup_lt_Some). left. congruence.
  - left. destruct (progress x) as [id| | |]; try done. destruct (dropped x) eqn:Ed; [done|].
    destruct (inspect id (p_state p)) as [r s]. injection Hs as <-. cbn in Hi'. by eapply (HI k x).
  - left. destruct (progress x) as [|j| |]; try done. pose proof (job_tasks j p) as Ht.
    destruct (job_answer j p) as [a p1]. injection Hs as <-. cbn in Ht, Hi'. rewrite Ht in Hi'. by apply (HI k x) in Hi'.
  - left. destruct (progress x) as [| |j a|]; try done. destruct (dropped x) eqn:Ed; [done|].
    injection Hs as <-. assert (tasks (resume a p) = tasks p) as Ht by (by destruct a as [| |? []|]).
    cbn in Hi'. rewrite Ht in Hi'. by apply (HI k x) in Hi'.
  - injection Hs as <-. apply list_lookup_insert_Some in Hi' as [(<- & _)|[_ Hc]]; [by right|left; congruence].
  - injection Hs as <-. left. cbn in Hi'. congruence.
  - injection Hs as <-. left. cbn in Hi'. congruence.
  - destruct (_ && _); [|done]. injection Hs as <-. left. cbn in Hi'. congruence.
Qed.

(** Every call of a step was there before, or is the one it makes. *)
Lemma call_before l p p' i c' :
  processor_step l p = Some p' -> tasks p' !! i = Some c' ->
  is_Some (tasks p !! i) \/
  exists x, l = Called x /\ i = length (tasks p) /\ c' = {| progress := enter x; dropped := false |}.
Proof.
  intros Hs Hi. assert (Hlen : (exists x, l = Called x) \/ length (tasks p') = length (tasks p)).
  { destruct l as [x|k|k|k|k| | |]; cbn in Hs; [left; by eexists|right..].
    1-4: destruct (tasks p !! k) as [x|]; [|done]; cbn in Hs.
    - destruct (progress x), (dropped x); try done. destruct (inspect _ _). injection Hs as <-. apply length_insert.
    - destruct (progress x) as [|j| |]; try done. pose proof (job_tasks j p) as Ht.
      destruct (job_answer j p) as [a p1]. injection Hs as <-. cbn in Ht |- *. by rewrite length_insert, Ht.
    - destruct (progress x) as [| |j a|], (dropped x); try done. injection Hs as <-. cbn. rewrite length_insert.
      by destruct a as [| |? []|].
    - injection Hs as <-. apply length_insert.
    - by injection Hs as <-.
    - by injection Hs as <-.
    - destruct (_ && _); [|done]. by injection Hs as <-. }
  destruct Hlen as [[x ->]|Hlen]; [|left; apply lookup_lt_is_Some; rewrite <- Hlen; by eapply lookup_lt_Some].
  cbn in Hs. injection Hs as <-. cbn in Hi. apply lookup_app_Some in Hi as [Hi|[Hge Hi]]; [by left|right].
  apply list_lookup_singleton_Some in Hi as [H0 <-]. exists x. split_and!; [done|lia|done].
Qed.

(** ** What every step does to the state *)

(** A preorder on states that the moves of a serial run keep is kept by every step. *)
Section kept.
Context (R : PS -> PS -> Prop) {po : PreOrder R}.
Context (kept_world : forall s, R s (stepped s)) (kept_inspect : forall id s, R s (inspect id s).2).
Context (kept_transaction : forall t s, R s (run_transaction host_root proc_root t s).2).

Lemma kept_step l p p' : processor_step l p = Some p' -> R (p_state p) (p_state p').
Proof.
  intros Hs. destruct l as [c|i|i|i|i| | |]; cbn in Hs.
  - by injection Hs as <-.
  - destruct (tasks p !! i) as [c|]; [|done]. cbn in Hs. destruct (progress c) as [id| | |]; try done.
    destruct (dropped c); [done|]. pose proof (kept_inspect id (p_state p)) as HR.
    destruct (inspect id (p_state p)) as [r s]. by injection Hs as <-.
  - destruct (tasks p !! i) as [c|]; [|done]. cbn in Hs. destruct (progress c) as [|j| |]; try done.
    destruct j as [t|]; [|by injection Hs as <-]. pose proof (kept_transaction t (p_state p)) as HR.
    rewrite <- job_transaction in HR. destruct (job_answer (Locked t) p) as [a p1]. by injection Hs as <-.
  - destruct (tasks p !! i) as [c|]; [|done]. cbn in Hs. destruct (progress c) as [| |j a|]; try done.
    destruct (dropped c); [done|]. injection Hs as <-. by destruct a as [| |? []|].
  - destruct (tasks p !! i) as [c|]; [|done]. by injection Hs as <-.
  - injection Hs as <-. apply kept_world.
  - by injection Hs as <-.
  - destruct (_ && _); [|done]. by injection Hs as <-.
Qed.

Lemma kept_steps ls p p' : processor_steps ls p = Some p' -> R (p_state p) (p_state p').
Proof.
  revert p. induction ls as [|l ls IH]; intros p; cbn [processor_steps]; [by intros [= ->]|].
  destruct (processor_step l p) as [p1|] eqn:E; [|done]. intros Hs. etrans; [by eapply kept_step|by apply IH].
Qed.

End kept.

(** ** The config that governs *)

(** A grant is one of a config that is live. *)
Definition granted_under (config : Runtime) (e : Event) : Prop :=
  match e with
  | SetOn _ (r :: rules) _ =>
      dry_run config = false /\ exists info, policy_grants (Node := Node) config info (r :: rules)
  | _ => True
  end.

Definition governed (s s' : PS) : Prop :=
  generation (store s) <= generation (store s') /\
  (generation (store s') = generation (store s) ->
   store s' = store s /\ exists es, events s' = events s ++ es /\ Forall (granted_under (runtime (store s))) es).

#[global] Instance governed_preorder : PreOrder governed.
Proof.
  split.
  - intros s. split; [lia|]. split; [done|]. exists []. by rewrite app_nil_r.
  - intros s1 s2 s3 [H12 K12] [H23 K23]. split; [lia|]. intros Hg.
    destruct K12 as (E12 & es1 & F1 & G1); [lia|]. destruct K23 as (E23 & es2 & F2 & G2); [lia|].
    split; [congruence|]. exists (es1 ++ es2). rewrite F2, F1, app_assoc. split; [done|].
    apply Forall_app_2; [done|]. by rewrite <- E12.
Qed.

Lemma ungranted config es : forallb (fun e => negb (is_grant e)) es = true -> Forall (granted_under config) es.
Proof.
  intros H. apply Forall_forall. intros e He. rewrite forallb_forall in H.
  apply list_elem_of_In in He. specialize (H e He). by destruct e as [| | |? []|].
Qed.

Lemma governed_same s s' : store s' = store s -> events s' = events s -> governed s s'.
Proof. intros E1 E2. split; [rewrite E1; lia|]. intros _. split; [done|]. exists []. by rewrite app_nil_r. Qed.

Lemma inspect_governed id s : governed s (inspect id s).2.
Proof.
  unfold inspect, ask, mbind, PM_bind. destruct (w_inspect id (world s)) as [[info|e] w]; [|by apply governed_same].
  split; cbn; [lia|]. intros _. split; [done|]. eexists. split; [done|]. by constructor.
Qed.

Lemma transaction_governed t s : governed s (run_transaction host_root proc_root t s).2.
Proof.
  destruct (transaction_justified host_root proc_root t s) as (es & He & Hj & Hst). split; rewrite Hst.
  { destruct t; cbn; lia. }
  intros Hg. assert (store_after t (store s) = store s) as Hsame by (destruct t; cbn in Hg |- *; [done..|lia]).
  split; [done|]. exists es. split; [done|]. destruct Hj as [Hn|Hj]; [by apply ungranted|].
  destruct Hj as (id & info & state & pre & again & h & rules & out & -> & _ & _ & Hdry & Hp & Hpre & ->).
  apply Forall_app_2; [by apply ungranted|]. apply Forall_app_2; [by apply ungranted|].
  apply Forall_singleton. destruct rules as [|r rules]; [done|]. split; [done|by exists info].
Qed.

Lemma governed_step l p p' : processor_step l p = Some p' -> governed (p_state p) (p_state p').
Proof.
  apply (kept_step governed); [|apply inspect_governed|apply transaction_governed]. intros s. by apply governed_same.
Qed.

Lemma governed_steps ls p p' : processor_steps ls p = Some p' -> governed (p_state p) (p_state p').
Proof.
  apply (kept_steps governed); [|apply inspect_governed|apply transaction_governed]. intros s. by apply governed_same.
Qed.

(** ** Starts *)

(** Docker reports when a running container was started. *)
Definition reports_starts : Prop := forall id w, has_start (TReconcile id (map_err (InspectFailed id) (w_inspect id w).1)).

Definition task_start (c : ProcessorCaller) : Prop :=
  match progress c with
  | Blocked (Locked t) | Ran (Locked t) _ | Answered (Locked t) _ => has_start t
  | _ => True
  end.

Lemma inspect_start id s : reports_starts -> has_start (TReconcile id (inspect id s).1).
Proof.
  intros H. specialize (H id (world s)). revert H. unfold inspect, ask, mbind, PM_bind.
  by destruct (w_inspect id (world s)) as [[info|e] w].
Qed.

Lemma starts_step l p p' :
  reports_starts -> processor_step l p = Some p' -> Forall task_start (tasks p) -> Forall task_start (tasks p').
Proof.
  intros HD Hs Hp. destruct l as [c|i|i|i|i| | |]; cbn in Hs.
  - injection Hs as <-. apply Forall_app_2; [done|]. apply Forall_singleton. by destruct c.
  - destruct (tasks p !! i) as [c|]; [|done]. cbn in Hs. destruct (progress c) as [id| | |]; try done.
    destruct (dropped c); [done|]. pose proof (inspect_start id (p_state p) HD) as HR.
    destruct (inspect id (p_state p)) as [r s]. injection Hs as <-. by apply Forall_insert.
  - destruct (tasks p !! i) as [c|] eqn:Ei; [|done]. cbn in Hs. destruct (progress c) as [|j| |] eqn:Ec; try done.
    pose proof (Forall_lookup_1 _ _ _ _ Hp Ei) as Hc. unfold task_start in Hc. rewrite Ec in Hc.
    pose proof (job_tasks j p) as Ht. destruct (job_answer j p) as [a p1]. injection Hs as <-. cbn in Ht |- *.
    rewrite Ht. by apply Forall_insert.
  - destruct (tasks p !! i) as [c|] eqn:Ei; [|done]. cbn in Hs. destruct (progress c) as [| |j a|] eqn:Ec; try done.
    pose proof (Forall_lookup_1 _ _ _ _ Hp Ei) as Hc. unfold task_start in Hc. rewrite Ec in Hc.
    destruct (dropped c); [done|]. injection Hs as <-.
    assert (tasks (resume a p) = tasks p) as Ht by (by destruct a as [| |? []|]).
    cbn. rewrite Ht. by apply Forall_insert.
  - destruct (tasks p !! i) as [c|] eqn:Ei; [|done]. injection Hs as <-. apply Forall_insert; [done|].
    exact (Forall_lookup_1 _ _ _ _ Hp Ei).
  - by injection Hs as <-.
  - by injection Hs as <-.
  - destruct (_ && _); [|done]. by injection Hs as <-.
Qed.

Lemma starts_steps ls p p' :
  reports_starts -> processor_steps ls p = Some p' -> Forall task_start (tasks p) -> Forall task_start (tasks p').
Proof.
  intros HD. revert p. induction ls as [|l ls IH]; intros p; cbn [processor_steps]; [by intros [= ->]|].
  destruct (processor_step l p) as [p1|] eqn:E; [|done]. intros Hs Hp. eapply IH; [exact Hs|]. by eapply starts_step.
Qed.

Lemma ran_starts l : Forall task_start l -> Forall has_start (omap ran l).
Proof.
  intros Hl. apply Forall_forall. intros t (c & Hc & Ht)%list_elem_of_omap. rewrite Forall_forall in Hl.
  specialize (Hl c Hc). unfold task_start, ran in *. by repeat case_match; simplify_eq.
Qed.

Lemma serial_accountable s0 ts s : serial s0 ts s -> Forall has_start ts -> accountable s0 -> accountable s.
Proof.
  induction 1 as [|ts s Hs IH|ts s id Hs IH|ts s t Hs IH]; intros Hst Ha; [done| | |].
  - by apply IH.
  - eapply still_accountable; [apply inspect_still|by apply IH].
  - apply Forall_app in Hst as [Hts Ht]. apply transaction_accountable; [by inversion Ht|by apply IH].
Qed.

(** ** Nothing left to run *)

Definition idle (p : Processor) : Prop := Forall (fun c => blocked c = false) (tasks p).

Definition starts_nothing (l : ProcessorLabel) : Prop := match l with Called _ | InspectEnds _ => False | _ => True end.

(** All but the world, and what callers do with answers they have. *)
Definition frozen (p p' : Processor) : Prop :=
  store (p_state p') = store (p_state p) /\ history (p_state p') = history (p_state p) /\
  p_ledger (p_state p') = p_ledger (p_state p) /\ p_cache (p_state p') = p_cache (p_state p) /\
  events (p_state p') = events (p_state p) /\ requester p' = requester p.

#[local] Instance frozen_preorder : PreOrder frozen.
Proof.
  split; [done|]. intros p1 p2 p3 (? & ? & ? & ? & ? & ?) (? & ? & ? & ? & ? & ?). unfold frozen. split_and!; congruence.
Qed.

Lemma idle_step l p p' : processor_step l p = Some p' -> starts_nothing l -> idle p -> idle p' /\ frozen p p'.
Proof.
  intros Hs Hl Hp. destruct l as [c|i|i|i|i| | |]; try done; cbn in Hs.
  - destruct (tasks p !! i) as [c|] eqn:Ei; [|done]. cbn in Hs. pose proof (Forall_lookup_1 _ _ _ _ Hp Ei) as Hc.
    unfold blocked in Hc. by destruct (progress c).
  - destruct (tasks p !! i) as [c|] eqn:Ei; [|done]. cbn in Hs. destruct (progress c) as [| |j a|]; try done.
    destruct (dropped c); [done|]. injection Hs as <-. destruct a as [| |? []|]; (split; [by apply Forall_insert|done]).
  - destruct (tasks p !! i) as [c|] eqn:Ei; [|done]. injection Hs as <-. split; [|done].
    apply Forall_insert; [done|]. exact (Forall_lookup_1 _ _ _ _ Hp Ei).
  - by injection Hs as <-.
  - by injection Hs as <-.
  - destruct (_ && _); [|done]. by injection Hs as <-.
Qed.

Lemma idle_steps ls p p' : processor_steps ls p = Some p' -> Forall starts_nothing ls -> idle p -> frozen p p'.
Proof.
  revert p. induction ls as [|l ls IH]; intros p; cbn [processor_steps]; [by intros [= ->]|].
  destruct (processor_step l p) as [p1|] eqn:E; [|done]. intros Hs [Hl Hls]%Forall_cons Hp.
  destruct (idle_step _ _ _ E Hl Hp) as [Hp1 Hf]. etrans; [exact Hf|by apply IH].
Qed.

(** ** Theorems *)

(** C13. Between two publications only the config in force grants: however the calls
    interleave, and whenever they inspected their containers, every grant made while the
    generation stays is what the config of that generation grants a container, and none
    is made under dry-run. No rules of an older config are set after a newer one is
    published. *)
Theorem published_config_governs ls p p' :
  processor_steps ls p = Some p' ->
  generation (store (p_state p')) = generation (store (p_state p)) ->
  exists es, events (p_state p') = events (p_state p) ++ es /\
    Forall (granted_under (runtime (store (p_state p)))) es.
Proof.
  intros Hs Hg. by apply (governed_steps _ _ _ Hs).
Qed.

(** The history answers for the grants however the calls interleave: a cgroup that may
    hold grants is named by one of its records. *)
Theorem calls_stay_accountable w config ls p i :
  reports_starts -> processor_steps ls (processor_new w config) = Some p ->
  i ∈ exposed (events (p_state p)) -> named (history (p_state p)) i.
Proof.
  intros HD Hs. destruct (serialized_steps (initial w config) _ _ _ Hs) as (ts & Hser & Hp).
  { exists []. split; [constructor|done]. }
  assert (Forall has_start ts) as Hst by (rewrite Hp; apply ran_starts; by eapply starts_steps).
  apply (serial_accountable _ _ _ Hser Hst), initial_accountable.
Qed.

(** Once the wait of a shutdown has returned, and until an operation is called or an
    inspect that was under way ends, nothing of the processor changes any more: no
    transaction of a caller that is gone is still to come. *)
Theorem drained_is_final ls p p1 p2 :
  processor_step WaitReturns p = Some p1 -> processor_steps ls p1 = Some p2 -> Forall starts_nothing ls ->
  frozen p p2.
Proof.
  cbn. destruct (closed p); [|done]. destruct (existsb blocked (tasks p)) eqn:Eb; [done|]. intros [= <-] Hs Hq.
  transitivity {| p_state := p_state p; requester := requester p; tasks := tasks p; requested := requested p;
    closed := true; drained := true |}; [done|]. eapply idle_steps; [exact Hs|exact Hq|].
  apply Forall_forall. intros c Hc. apply not_true_iff_false. intros Hc'. apply not_true_iff_false in Eb. apply Eb.
  apply existsb_exists. exists c. by rewrite <- list_elem_of_In.
Qed.

End calls.

(** ** Calls that overlap *)

Module CallsExample.

Import RevokeProofs.ProcessorExample.

#[local] Existing Instances PolicyProofs.PolicyExample.literal_crate LifecycleExample.demo_jiff demo_world demo_controllers.

Definition fresh : Processor := processor_new tt (config false).

(** The container was inspected under the first config; then dry-run is published, before
    its transaction gets the lock. *)
Definition published_first : list ProcessorLabel :=
  [Called (CallReconcile "a"); InspectEnds 0; Called (CallPublish (config true)); TakesLock 1; TakesLock 0].

(** A reconcile whose caller is dropped while its transaction waits for the lock. *)
Definition abandoned : list ProcessorLabel := [Called (CallReconcile "a"); InspectEnds 0; Dropped 0; TakesLock 0].

Definition after (ls : list ProcessorLabel) : Processor := default fresh (processor_steps "/host" "/" ls fresh).

Lemma steps_after ls : is_Some (processor_steps "/host" "/" ls fresh) ->
  processor_steps "/host" "/" ls fresh = Some (after ls).
Proof. unfold after. by intros [p ->]. Qed.

(** The old config grants nothing any more. *)
Example old_config_grants_nothing :
  List.filter is_grant (events (p_state (after published_first))) = [].
Proof. vm_compute. reflexivity. Qed.

Lemma published_config_governs_witness :
  exists es, events (p_state (after abandoned)) = events (p_state fresh) ++ es /\
    Forall (granted_under (Node := string * NodeKind) (config false)) es.
Proof.
  apply (published_config_governs "/host" "/" abandoned fresh).
  - apply steps_after. vm_compute. by eexists.
  - vm_compute. reflexivity.
Defined.

Lemma calls_stay_accountable_witness : named (history (p_state (after abandoned))) cgroup_a.
Proof.
  apply (calls_stay_accountable "/host" "/" tt (config false) abandoned).
  - intros id w. by cbn.
  - apply steps_after. vm_compute. by eexists.
  - apply (bool_decide_unpack _). vm_compute. exact I.
Defined.

End CallsExample.
