(* ===== verification/Daemon.v ===== *)
(** * The daemon's tasks together (src/daemon/mod.rs)

    [run_with] as a transition system over the coordinator's and the listener's: the
    main task, which subscribes, starts the coordinator and the reload watcher,
    requests the startup pass and becomes the listener; the coordinator's task and
    holds; the watcher with its two callbacks; and the publications of the
    processor. The watcher is a parameter of [run_with]: it calls back at any time
    between its start and its end. A step of the listener that waits is taken at the
    end of the wait, so the context is done by then if the listener saw it done. An
    event is handled before the next one is read. *)

From S2P Require Import Prelude.
From S2P Require Import ProcError.
From S2P Require Import Coordinator.
From S2P Require Import CoordinatorProofs.
From S2P Require Import Listener.

(** ** The state *)

(** What the main task does next. *)
Inductive DaemonPhase :=
  | Subscribing
  | Installing
  | SpawningRun
  | SpawningWatcher
  | RequestingFirst
  | AwaitingFirst
  | FollowingEvents
  | WaitingBackground
  | WaitingHolds
  | Finished.

#[global] Instance DaemonPhase_eq_dec : EqDecision DaemonPhase.
Proof. solve_decision. Defined.

Inductive Watcher := NotStarted | Watching | WatcherEnded.

#[global] Instance Watcher_eq_dec : EqDecision Watcher.
Proof. solve_decision. Defined.

Section daemon.
Context {reconciler : Reconciler} {jiff : JiffNano}.

Record Daemon := {
  d_phase : DaemonPhase;
  d_since : Z;
  d_stream : option Subscription;
  d_installed : bool;
  d_running : bool;
  d_watcher : Watcher;
  d_config : Config;
  d_listener : option Listener;
  d_reapplies : nat;
}.

(** Before the first subscription; [since] is the clock then. *)
Definition daemon_start (since : Z) : Daemon :=
  {| d_phase := Subscribing; d_since := since; d_stream := None; d_installed := false; d_running := false;
     d_watcher := NotStarted; d_config := initial; d_listener := None; d_reapplies := 0 |}.

Definition at_phase (p : DaemonPhase) (d : Daemon) : Daemon :=
  {| d_phase := p; d_since := d_since d; d_stream := d_stream d; d_installed := d_installed d;
     d_running := d_running d; d_watcher := d_watcher d; d_config := d_config d; d_listener := d_listener d;
     d_reapplies := d_reapplies d |}.
Definition with_stream (s : option Subscription) (d : Daemon) : Daemon :=
  {| d_phase := d_phase d; d_since := d_since d; d_stream := s; d_installed := d_installed d;
     d_running := d_running d; d_watcher := d_watcher d; d_config := d_config d; d_listener := d_listener d;
     d_reapplies := d_reapplies d |}.
Definition with_tasks (installed running : bool) (w : Watcher) (d : Daemon) : Daemon :=
  {| d_phase := d_phase d; d_since := d_since d; d_stream := d_stream d; d_installed := installed;
     d_running := running; d_watcher := w; d_config := d_config d; d_listener := d_listener d;
     d_reapplies := d_reapplies d |}.
Definition with_config (g : Config) (d : Daemon) : Daemon :=
  {| d_phase := d_phase d; d_since := d_since d; d_stream := d_stream d; d_installed := d_installed d;
     d_running := d_running d; d_watcher := d_watcher d; d_config := g; d_listener := d_listener d;
     d_reapplies := d_reapplies d |}.
Definition with_listener (l : Listener) (d : Daemon) : Daemon :=
  {| d_phase := d_phase d; d_since := d_since d; d_stream := d_stream d; d_installed := d_installed d;
     d_running := d_running d; d_watcher := d_watcher d; d_config := d_config d; d_listener := Some l;
     d_reapplies := d_reapplies d |}.
Definition count_reapply (d : Daemon) : Daemon :=
  {| d_phase := d_phase d; d_since := d_since d; d_stream := d_stream d; d_installed := d_installed d;
     d_running := d_running d; d_watcher := d_watcher d; d_config := d_config d; d_listener := d_listener d;
     d_reapplies := S (d_reapplies d) |}.

(** A step of the coordinator's side. *)
Definition coordinate (l : Label) (d : Daemon) : option Daemon := g ← step l (d_config d); Some (with_config g d).

(** ** The main task *)

(** What it waits for: the answer to the subscription, or the generation in force. *)
Inductive MainInput := Answer (r : result SubscribeError Subscription) | Generation (gen : Z) | Proceed.

Definition main_step (i : MainInput) (d : Daemon) : option Daemon :=
  match d_phase d, i with
  | Subscribing, Answer r =>
      Some (at_phase Installing (with_stream (match r with Ok s => Some s | Err _ => None end) d))
  | Installing, Proceed => Some (at_phase SpawningRun (with_tasks true (d_running d) (d_watcher d) d))
  | SpawningRun, Proceed => Some (at_phase SpawningWatcher (with_tasks (d_installed d) true (d_watcher d) d))
  | SpawningWatcher, Proceed =>
      Some (at_phase RequestingFirst (with_tasks (d_installed d) (d_running d) Watching d))
  | RequestingFirst, Generation gen => d ← coordinate (LRequest gen) d; Some (at_phase AwaitingFirst d)
  | AwaitingFirst, Proceed =>
      if first_pass (co (d_config d)) || cancelled (d_config d)
      then Some (at_phase FollowingEvents (with_listener (listen_start (d_stream d)) d)) else None
  | FollowingEvents, Proceed =>
      match d_listener d with
      | Some l => match place l with Ended => Some (at_phase WaitingBackground d) | _ => None end
      | None => None
      end
  | WaitingBackground, Proceed =>
      match runner (d_config d), d_watcher d with
      | Returned, WatcherEnded => Some (at_phase WaitingHolds d)
      | _, _ => None
      end
  | WaitingHolds, Proceed => if bool_decide (holds (d_config d) = ∅) then Some (at_phase Finished d) else None
  | _, _ => None
  end.

(** ** The listener as the main task *)

(** Whether the last event is handled: its handler, the holds it awaits. *)
Definition by_run (h : Hold) : bool := match h_owner h with ByRun => true | _ => false end.

Definition handled (g : Config) : bool :=
  bool_decide (callers g = []) && (notices g =? 0)%nat
  && bool_decide (map_Forall (fun _ h => by_run h = true) (holds g)).

(** The listener sees a context done only when it is. *)
Definition saw_done (i : Input) : bool :=
  match i with
  | AtHead done _ done_after => done || done_after
  | Stop => true
  | AtItem _ done done_after _ => done || done_after
  end.

(** What an action of the listener is to the coordinator. *)
Definition action_label (wall now : Z) (a : Action) : option Label :=
  match a with
  | Subscribed _ => None
  | Reenumerate => Some (LRequest 0)
  | Handle e => Some (LEvent wall now e)
  end.

Fixpoint perform (wall now : Z) (l : list Action) (g : Config) : option Config :=
  match l with
  | [] => Some g
  | a :: l => match action_label wall now a with
              | None => perform wall now l g
              | Some label => g ← step label g; perform wall now l g
              end
  end.

Definition follow_step (i : Input) (wall now : Z) (d : Daemon) : option Daemon :=
  match d_phase d, d_listener d with
  | FollowingEvents, Some l =>
      if handled (d_config d) && implb (saw_done i) (cancelled (d_config d)) then
        let l' := listen_step (d_since d) l i in
        g ← perform wall now (drop (length (actions l)) (actions l')) (d_config d);
        Some (with_listener l' (with_config g d))
      else None
  | _, _ => None
  end.

(** ** Everything *)

(** The steps of the coordinator's own tasks and of the handler of an event. *)
Definition own (l : Label) : bool :=
  match l with LRequest _ | LCancel | LEvent _ _ _ | LDropped => false | _ => true end.

(** A requester wakes the loop whether or not it has started. *)
Definition may_run (l : Label) (d : Daemon) : bool :=
  own l && (d_running d || match l with LNotify => true | _ => false end).

Inductive DaemonLabel :=
  | Main (i : MainInput)
  | Follow (i : Input) (wall now : Z)
  | Task (l : Label)
  | Publish (gen : Z)
  | Reloaded (gen : Z)
  | WatcherSubscribed (gen : Z)
  | WatcherEnds
  | ContextEnds.

Definition watching (d : Daemon) : bool := bool_decide (d_watcher d = Watching).

Definition daemon_step (l : DaemonLabel) (d : Daemon) : option Daemon :=
  match l with
  | Main i => main_step i d
  | Follow i wall now => follow_step i wall now d
  | Task l => if may_run l d then coordinate l d else None
  | Publish gen =>
      if d_installed d && negb (bool_decide (d_phase d = Finished)) then coordinate (LRequest gen) d else None
  | Reloaded gen => if watching d then coordinate (LRequest gen) (count_reapply d) else None
  | WatcherSubscribed gen => if watching d then coordinate (LRequest gen) d else None
  | WatcherEnds => if watching d then Some (with_tasks (d_installed d) (d_running d) WatcherEnded d) else None
  | ContextEnds => coordinate LCancel d
  end.

Fixpoint daemon_steps (ls : list DaemonLabel) (d : Daemon) : option Daemon :=
  match ls with [] => Some d | l :: ls => d ← daemon_step l d; daemon_steps ls d end.

(** ** What a step of the coordinator keeps *)

(** No event is being handled. *)
Definition quiet (g : Config) : Prop :=
  callers g = [] /\ notices g = 0%nat /\ map_Forall (fun _ h => by_run h = true) (holds g).

Lemma handled_quiet g : handled g = true <-> quiet g.
Proof.
  unfold handled, quiet. rewrite !andb_true_iff, !bool_decide_eq_true, Nat.eqb_eq. tauto.
Qed.

(** What a step that is not of an event's handler keeps: what has happened stays, no
    event is handled that was not, and the loop that has returned starts nothing. *)
Record Keep (g g' : Config) : Prop := {
  keep_cancelled : cancelled g = true -> cancelled g' = true;
  keep_first : first_pass (co g) = true -> first_pass (co g') = true;
  keep_requests : requests g <= requests g';
  keep_quiet : quiet g -> quiet g';
  keep_returned : runner g = Returned -> runner g' = Returned;
  keep_holds : runner g = Returned -> quiet g -> holds g = ∅ -> holds g' = ∅;
}.

#[local] Instance Keep_preorder : PreOrder Keep.
Proof.
  split; [by intros g; split|]. intros g1 g2 g3 [] []. split; auto; try lia.
Qed.

(** The fields that the loop and the requests change. *)
Lemma Keep_frame g g' :
  callers g' = callers g -> notices g' = notices g -> holds g' = holds g ->
  (cancelled g = true -> cancelled g' = true) -> (first_pass (co g) = true -> first_pass (co g') = true) ->
  requests g <= requests g' -> (runner g = Returned -> runner g' = Returned) -> Keep g g'.
Proof. intros Hc Hn Hh. split; try done; unfold quiet; by rewrite Hc, Hn, Hh || congruence. Qed.

Lemma quiet_insert g g' t h :
  callers g' = callers g -> notices g' = notices g -> holds g' = <[t := h]> (holds g) -> by_run h = true ->
  quiet g -> quiet g'.
Proof.
  intros Hc Hn Hh Hb (Hq1 & Hq2 & Hq3). unfold quiet. rewrite Hc, Hn, Hh.
  split_and!; [done..|]. by apply map_Forall_insert_2.
Qed.

(** The loop reserves a container: not once it has returned. *)
Lemma Keep_reserve now id et terminal w g got g' r :
  reserve_and_hold now id et terminal w ByRun g = (got, g') -> runner g <> Returned ->
  Keep g (with_runner r g').
Proof.
  intros [(_ & _ & ->)|(_ & held & _ & ->)]%reserve_and_hold_spec Hr;
    [|by apply Keep_frame; cbn; [..|lia|]].
  split; cbn; try done; try lia. by eapply (quiet_insert _ _ (tickets g) (new_hold id w ByRun)).
Qed.

(** A hold that goes on keeps its owner. *)
Lemma Keep_put t h h' g g' :
  holds g !! t = Some h -> holds g' = <[t := h']> (holds g) -> h_owner h' = h_owner h ->
  callers g' = callers g -> notices g' = notices g -> cancelled g' = cancelled g ->
  first_pass (co g') = first_pass (co g) -> requests g' = requests g -> runner g' = runner g -> Keep g g'.
Proof.
  intros Ht Hh Ho Hc Hn Hx Hf Hq Hr. split; try congruence; try lia.
  - intros HQ. eapply quiet_insert; [done..| |done]. destruct HQ as (_ & _ & HQ).
    unfold by_run. rewrite Ho. exact (HQ t h Ht).
  - intros _ _ He. by rewrite He, lookup_empty in Ht.
Qed.

Lemma next_first_pass now id c : first_pass (next now id c).2 = first_pass c.
Proof.
  unfold next. destruct (in_flight (state c) !! id); [|done]. destruct (_ || _); [done|]. cbn.
  by destruct (bool_decide _).
Qed.

(** A hold that ends. *)
Lemma Keep_end t h g c :
  holds g !! t = Some h -> first_pass c = first_pass (co g) ->
  Keep g (hold_ended h (with_holds (delete t (holds g)) (tickets g) (with_co c g))).
Proof.
  intros Ht Hf. assert (HQ : quiet g -> h_owner h = ByRun).
  { intros (_ & _ & HQ). specialize (HQ t h Ht). unfold by_run in HQ. by destruct (h_owner h). }
  assert (HD : quiet g -> map_Forall (fun _ h => by_run h = true) (delete t (holds g))).
  { intros (_ & _ & Hm). by apply map_Forall_delete. }
  unfold hold_ended. split.
  - by destruct (h_owner h), (h_error h).
  - destruct (h_owner h), (h_error h); cbn; congruence.
  - destruct (h_owner h), (h_error h); cbn; lia.
  - intros Hq. rewrite (HQ Hq). unfold quiet. cbn. split_and!; [apply Hq..|]. by apply HD.
  - intros Hr. destruct (h_owner h), (h_error h); cbn; by rewrite ?Hr.
  - intros _ _ He. by rewrite He, lookup_empty in Ht.
Qed.

Lemma Keep_hold t h i g g' : holds g !! t = Some h -> hold_step t h i g = Some g' -> Keep g g'.
Proof.
  intros Ht Hs. unfold hold_step in Hs. destruct i as [started|now error| |now], (h_phase h); try done.
  1-3:simplify_eq; by eapply Keep_put.
  pose proof (next_first_pass now (h_container h) (co g)) as Hn.
  destruct (next now (h_container h) (co g)) as [work c]. cbn in Hn.
  destruct (_ || _); injection Hs as <-; [by eapply Keep_put|by apply Keep_end].
Qed.

(** The loop's own steps. *)
Lemma Keep_head now g g' : run_head now g = Some g' -> Keep g g'.
Proof.
  unfold run_head, run_top. destruct (runner g) eqn:Er; intros; simplify_eq;
    [|apply Keep_frame; cbn; try done; try lia; congruence..].
  destruct (cancelled g); [by apply Keep_frame; cbn; [..|lia|]|]. unfold take_request.
  destruct (dirty _); apply Keep_frame; cbn; try done; try lia; congruence.
Qed.

Lemma Keep_end_pass now o g c :
  runner g <> Returned -> Keep g (end_pass now o (with_co c g)).
Proof. intros Hr. apply Keep_frame; cbn; try done; lia. Qed.

Lemma Keep_select b now retry g g' : runner g <> Returned -> select b now retry g = Some g' -> Keep g g'.
Proof.
  intros Hr. unfold select. destruct b; [..|intros [= <-]; by apply Keep_frame; cbn; [..|lia|]].
  all: case_match; intros; simplify_eq; by apply Keep_frame; cbn; [..|lia|].
Qed.

(** The steps but those of an event that comes in, or whose handler is dropped. *)
Definition calm (l : Label) : bool := match l with LEvent _ _ _ | LDropped => false | _ => true end.

Lemma Keep_step l g g' : calm l = true -> step l g = Some g' -> Keep g g'.
Proof.
  intros Hcalm. destruct l; try done; cbn [step].
  - intros [= <-]. apply Keep_frame; cbn; try done; lia.
  - destruct (requesters g); intros; simplify_eq. by apply Keep_frame; cbn; [..|lia|].
  - intros [= <-]. by apply Keep_frame; cbn; [..|lia|].
  - destruct (callers g !! n) as [[id t]|] eqn:E; cbn; [|done]. intros [= <-].
    assert (Hno : quiet g -> False) by (intros (Hc & _); by rewrite Hc, lookup_nil in E).
    destruct (reconcile_container _ _ _ _ _) as [got g1] eqn:Er. cbn.
    apply reserve_and_hold_spec in Er as [(_ & _ & ->)|(_ & held & _ & ->)]; split; cbn; try done; lia || (by intros ? ?%Hno).
  - destruct (notices g) as [|n] eqn:E; intros; simplify_eq.
    assert (Hno : quiet g -> False) by (intros (_ & Hn & _); lia).
    split; cbn; try done; lia || (by intros ?%Hno) || (by intros ? ?%Hno).
  - apply Keep_head.
  - destruct (runner g) eqn:Er; try done. intros [= <-]. unfold list_answer. destruct ids as [ids|].
    + apply Keep_frame; cbn; try done; try lia; congruence.
    + apply Keep_frame; cbn; try done; try lia; congruence.
  - destruct (runner g) eqn:Er; try done; intros [= <-].
    + unfold pass_step. destruct rest as [|id rest].
      * apply Keep_end_pass. congruence.
      * destruct (_ || _); apply Keep_frame; cbn; try done; try lia; congruence.
    + unfold pass_reserve. destruct (reconcile_container _ _ _ _ _) as [got g1] eqn:E.
      transitivity (note_visit id g); [by apply Keep_frame; cbn; [..|lia|]|].
      eapply Keep_reserve; [exact E|]. cbn. congruence.
  - destruct (runner g) eqn:Er; try done. apply Keep_select. congruence.
  - destruct (runner g) eqn:Er; try done. intros [= <-]. apply Keep_frame; cbn; try done; try lia; congruence.
  - destruct (runner g) eqn:Er; try done. intros [= <-]. unfold retry_step. destruct ids as [|id ids].
    + apply Keep_frame; cbn; try done; try lia; congruence.
    + destruct (cancelled g); [apply Keep_frame; cbn; try done; try lia; congruence|].
      destruct (reconcile_container _ _ _ _ _) as [got g1] eqn:E. eapply Keep_reserve; [exact E|]. congruence.
  - destruct (holds g !! t) as [h|] eqn:E; cbn; [|done]. by apply Keep_hold.
Qed.

(** An event that comes in. *)
Lemma event_grows wall now e g g' :
  step (LEvent wall now e) g = Some g' ->
  (cancelled g = true -> cancelled g' = true) /\ (first_pass (co g) = true -> first_pass (co g') = true) /\
  requests g <= requests g'.
Proof.
  cbn [step]. intros [= <-]. unfold handle_event, terminate_container. destruct (_ || _).
  - destruct (reserve_and_hold _ _ _ _ _ _ _) as [got g1] eqn:E. cbn.
    apply reserve_and_hold_spec in E as [(_ & _ & ->)|(_ & held & _ & ->)]; cbn; split_and!; done || lia.
  - unfold skip_event. destruct (processed _ !! _); cbn; split_and!; done || lia.
Qed.

Lemma perform_grows wall now l g g' :
  perform wall now l g = Some g' ->
  (reachable g -> reachable g') /\ (cancelled g = true -> cancelled g' = true) /\
  (first_pass (co g) = true -> first_pass (co g') = true) /\ requests g <= requests g'.
Proof.
  revert g. induction l as [|a l IH]; intros g; cbn [perform]; [intros [= ->]; split_and!; done || lia|].
  destruct a as [t| |e]; cbn [action_label]; [apply IH|..].
  - destruct (step (LRequest 0) g) as [g1|] eqn:E; [|done]. intros H. apply (IH g1) in H as (? & ? & ? & ?).
    destruct (Keep_step (LRequest 0) g g1 eq_refl E).
    split_and!; auto; [|lia]. intros Hr. eapply H, reach_step; done.
  - destruct (step (LEvent wall now e) g) as [g1|] eqn:E; [|done]. intros H. apply (IH g1) in H as (? & ? & ? & ?).
    destruct (event_grows _ _ _ _ _ E) as (? & ? & ?).
    split_and!; auto; [|lia]. intros Hr. eapply H, reach_step; done.
Qed.

(** The listener ends only on a context that is done, and asks nothing then. *)
Lemma listener_ends since l i :
  place (listen_step since l i) = Ended ->
  (saw_done i = true \/ place l = Ended) /\
  Forall (fun a => exists t, a = Subscribed t) (drop (length (actions l)) (actions (listen_step since l i))).
Proof.
  assert (Hsame : forall x, actions x = actions l -> Forall (fun a => exists t, a = Subscribed t) (drop (length (actions l)) (actions x)))
    by (intros x ->; rewrite drop_all; constructor).
  unfold listen_step. destruct (place l) as [stream|s|] eqn:Ep; [..|intros _; split; [by right|]; destruct i; by apply Hsame].
  - destruct i as [done answer done_after| |]; try congruence. unfold listen_head.
    destruct done; [intros _; split; [by left|by apply Hsame]|].
    destruct stream as [s|]; [by intros|]. destruct answer as [s|e]; [by intros|].
    destruct done_after; [|by intros]. intros _. split; [by left|]. cbn. rewrite drop_app_length. by repeat econstructor.
  - destruct i as [| |item done done_after now]; try congruence; [intros _; split; [by left|by apply Hsame]|].
    unfold consume_item, disconnect. destruct (subscription_next s item) as [e|e].
    { cbn. congruence. }
    destruct done; [intros _; split; [by left|by apply Hsame]|].
    destruct (is_closed e), done_after; cbn; try congruence; intros _; (split; [by left|]); apply Hsame; by destruct (is_undecodable e).
Qed.

Lemma perform_silent wall now l g :
  Forall (fun a => exists t, a = Subscribed t) l -> perform wall now l g = Some g.
Proof. induction 1 as [|a l [t ->] _ IH]; [done|]. exact IH. Qed.

(** ** The invariant *)

(** How far the main task is. *)
Definition rank (p : DaemonPhase) : nat :=
  match p with
  | Subscribing => 0 | Installing => 1 | SpawningRun => 2 | SpawningWatcher => 3 | RequestingFirst => 4
  | AwaitingFirst => 5 | FollowingEvents => 6 | WaitingBackground => 7 | WaitingHolds => 8 | Finished => 9
  end.

Record DaemonOk (since : Z) (d : Daemon) : Prop := {
  ok_since : d_since d = since;
  ok_reach : reachable (d_config d);
  ok_made : d_installed d = false <-> (rank (d_phase d) < 2)%nat;
  ok_idle : d_installed d = false ->
    (d_config d = initial \/ d_config d = cancel initial) /\ d_running d = false /\ d_watcher d = NotStarted;
  ok_count : 0 <= requests (d_config d);
  ok_asked : (5 <= rank (d_phase d))%nat -> 1 <= requests (d_config d);
  ok_following : is_Some (d_listener d) <-> (6 <= rank (d_phase d))%nat;
  ok_first : (6 <= rank (d_phase d))%nat -> first_pass (co (d_config d)) = true \/ cancelled (d_config d) = true;
  ok_listener l : d_listener d = Some l -> exists inputs, l = listen_events since (d_stream d) inputs;
  ok_ended l : d_listener d = Some l -> place l = Ended -> cancelled (d_config d) = true /\ quiet (d_config d);
  ok_background : (7 <= rank (d_phase d))%nat -> exists l, d_listener d = Some l /\ place l = Ended;
  ok_returned : (8 <= rank (d_phase d))%nat -> runner (d_config d) = Returned /\ d_watcher d = WatcherEnded;
  ok_finished : d_phase d = Finished -> holds (d_config d) = ∅;
}.

Lemma reachable_initial_cancelled : reachable (cancel initial).
Proof. apply (reach_step initial LCancel); [apply reach_initial|done]. Qed.

Lemma DaemonOk_start since : DaemonOk since (daemon_start since).
Proof.
  split; cbn; try done; try lia; try (intros; lia).
  - apply reach_initial.
  - intros _. by split; [left|].
  - split; [by intros []|lia].
Qed.

(** A step of the coordinator's side that handles no event. *)
Lemma DaemonOk_config since d l g' :
  calm l = true -> step l (d_config d) = Some g' -> (d_installed d = true \/ l = LCancel) ->
  DaemonOk since d -> DaemonOk since (with_config g' d).
Proof.
  intros Hl Hs Hi HO. pose proof (Keep_step l _ _ Hl Hs) as HK. destruct HO. destruct HK.
  split; cbn; try done.
  - by eapply reach_step.
  - intros Hf. destruct Hi as [Hi| ->]; [congruence|]. destruct (ok_idle0 Hf) as (Hc & ?). split; [right|done].
    injection Hs as <-. by destruct Hc as [-> | ->].
  - lia.
  - intros H. specialize (ok_asked0 H). lia.
  - intros H. destruct (ok_first0 H); auto.
  - intros x Hx He. destruct (ok_ended0 x Hx He). auto.
  - intros H. destruct (ok_returned0 H). auto.
  - intros H. destruct ok_background0 as (x & Hx & He); [by rewrite H; cbn; lia|].
    destruct (ok_ended0 x Hx He). destruct ok_returned0; [by rewrite H; cbn; lia|]. auto.
Qed.

Lemma DaemonOk_reapply since d : DaemonOk since d -> DaemonOk since (count_reapply d).
Proof. intros []. by split. Qed.

(** A step of the listener. *)
Lemma DaemonOk_follow since d i wall now d' :
  follow_step i wall now d = Some d' -> DaemonOk since d -> DaemonOk since d'.
Proof.
  unfold follow_step. intros Hs HO. destruct (d_phase d) eqn:Ep; try done. destruct (d_listener d) as [l|] eqn:El; [|done].
  destruct (handled (d_config d)) eqn:Eh; [|done]. cbn [andb] in Hs. apply handled_quiet in Eh.
  destruct (implb _ _) eqn:Ei; [|done].
  set (l' := listen_step (d_since d) l i) in *.
  destruct (perform _ _ _ _) as [g'|] eqn:Eg; cbn in Hs; [|done]. injection Hs as <-.
  pose proof (perform_grows _ _ _ _ _ Eg) as (Hr & Hc & Hf & Hq).
  destruct HO. rewrite Ep in *. cbn [rank] in *.
  split; cbn; rewrite ?Ep; cbn [rank]; try done; try lia.
  - auto.
  - intros H. apply ok_made0 in H. lia.
  - intros _. destruct (ok_first0 ltac:(lia)); auto.
  - intros x [= <-]. destruct (ok_listener0 l El) as [inputs ->]. exists (inputs ++ [i]).
    subst l'. rewrite ok_since0. unfold listen_events. by rewrite foldl_app.
  - intros x [= <-] He. destruct (listener_ends (d_since d) l i He) as [Hd Ha].
    fold l' in Ha. rewrite (perform_silent _ _ _ _ Ha) in Eg. injection Eg as <-. split; [|done].
    destruct Hd as [Hd|Hd]; [by rewrite Hd in Ei|]. by apply (ok_ended0 l).
Qed.

(** The startup pass is requested. *)
Lemma DaemonOk_request since d gen :
  d_phase d = RequestingFirst -> DaemonOk since d ->
  DaemonOk since (at_phase AwaitingFirst
    (with_config (count_request (with_co (request gen (co (d_config d))) (d_config d))) d)).
Proof.
  intros Ep HO. pose proof (ok_count _ _ HO).
  assert (Hi : d_installed d = true).
  { destruct (d_installed d) eqn:Ei; [done|]. apply (ok_made _ _ HO) in Ei. rewrite Ep in Ei. cbn in Ei. lia. }
  pose proof (DaemonOk_config since d (LRequest gen) _ eq_refl eq_refl (or_introl Hi) HO) as H1.
  destruct H1. cbn in *. rewrite Ep in *. cbn [rank] in *. split; cbn; try done; try lia.
  - rewrite Hi. split; [done|lia].
  - rewrite ok_following0. lia.
Qed.

(** Before the startup pass is requested there is no listener. *)
Lemma DaemonOk_early since d d' :
  (rank (d_phase d) < 4)%nat -> (rank (d_phase d') <= 4)%nat ->
  d_since d' = d_since d -> d_config d' = d_config d -> d_listener d' = d_listener d ->
  (d_installed d' = false <-> (rank (d_phase d') < 2)%nat) ->
  (d_installed d' = false -> d_running d' = false /\ d_watcher d' = NotStarted /\ d_installed d = false) ->
  DaemonOk since d -> DaemonOk since d'.
Proof.
  intros Hd Hd' Hs Hc Hl Hi Hn []. assert (HN : d_listener d = None).
  { destruct (d_listener d) eqn:E; [|done]. destruct ok_following0 as [H _]. specialize (H ltac:(by eexists)). lia. }
  split; rewrite ?Hs, ?Hc, ?Hl, ?HN; try done; try lia.
  - intros H. destruct (Hn H) as (? & ? & H'). by destruct (ok_idle0 H').
  - split; [by intros []|lia].
  - intros H. rewrite H in Hd'. cbn in Hd'. lia.
Qed.

(** What the phases say, from the hypotheses of the invariant. *)
Ltac settle_ranks :=
  first [done|lia|match goal with H : _ <-> _ |- _ => rewrite H; lia end
        |match goal with H : (_ <= _)%nat -> ?P |- _ -> ?P => intros _; apply H; lia end].

(** The main task starts something, or goes on. *)
Lemma DaemonOk_main since d i d' : main_step i d = Some d' -> DaemonOk since d -> DaemonOk since d'.
Proof.
  unfold main_step. intros Hs HO. destruct (d_phase d) eqn:Ep, i as [r|gen|]; try done;
    [.. |injection Hs as <-; by apply DaemonOk_request| | | |].
  all: pose proof (ok_made _ _ HO) as Hm; rewrite Ep in Hm; cbn in Hm.
  1-4: injection Hs as <-; eapply DaemonOk_early; [..|exact HO]; rewrite ?Ep; cbn; try done; try lia;
         first [by rewrite Hm; lia|intros H; by destruct (ok_idle _ _ HO H) as (_ & ? & ?)|intros H; apply Hm in H; lia].
  all: destruct HO; rewrite Ep in *; cbn [rank] in *.
  - destruct (_ || _) eqn:E; [|done]. injection Hs as <-. apply orb_true_iff in E.
    split; cbn; try done; try lia; [rewrite ok_made0; lia|..].
    + intros l [= <-]. by exists [].
    + by intros l [= <-].
  - destruct (d_listener d) as [l|] eqn:El; [|done]. destruct (place l) eqn:Epl; try done. injection Hs as <-.
    split; cbn; try done; try lia; rewrite ?El; first [done|rewrite ok_made0; lia|rewrite ok_following0; lia|by exists l|intros _; apply ok_first0; lia].
  - destruct (runner (d_config d)) eqn:Er; try done. destruct (d_watcher d) eqn:Ew; try done. injection Hs as <-.
    split; cbn; settle_ranks.
  - case_bool_decide; [|done]. injection Hs as <-. split; cbn; settle_ranks.
Qed.

Lemma DaemonOk_step since d l d' : daemon_step l d = Some d' -> DaemonOk since d -> DaemonOk since d'.
Proof.
  assert (HC : forall l d d', calm l = true -> coordinate l d = Some d' -> d_installed d = true \/ l = LCancel ->
    DaemonOk since d -> DaemonOk since d').
  { intros x e e' Hx He Hi. unfold coordinate in He. destruct (step x (d_config e)) as [g|] eqn:E; [|done].
    injection He as <-. by apply (DaemonOk_config since e x). }
  intros Hs HO. assert (HW : watching d = true -> d_installed d = true).
  { unfold watching. rewrite bool_decide_eq_true. intros Hw. destruct (d_installed d) eqn:Ei; [done|].
    destruct (ok_idle _ _ HO Ei) as (_ & _ & ?). congruence. }
  destruct l as [i|i wall now|l|gen|gen|gen| |]; cbn [daemon_step] in Hs.
  - by eapply DaemonOk_main.
  - by eapply DaemonOk_follow.
  - unfold may_run in Hs. destruct (own l) eqn:Eo; [|done]. destruct (_ || _) eqn:Er; [|done].
    eapply (HC l); [by destruct l|exact Hs| |exact HO]. left. destruct (d_installed d) eqn:Ei; [done|]. exfalso.
    destruct (ok_idle _ _ HO Ei) as (Hc & Hr & _). rewrite Hr in Er. destruct l; try done.
    unfold coordinate in Hs. by destruct Hc as [Hc|Hc]; rewrite Hc in Hs.
  - destruct (d_installed d) eqn:Ei; [|done]. destruct (negb _); [|done].
    apply (HC (LRequest gen) d); [done|exact Hs|by left|exact HO].
  - destruct (watching d) eqn:Ew; [|done]. 
    apply (HC (LRequest gen) (count_reapply d)); [done|exact Hs|left; by apply HW|by apply DaemonOk_reapply].
  - destruct (watching d) eqn:Ew; [|done].
    apply (HC (LRequest gen) d); [done|exact Hs|left; by apply HW|exact HO].
  - destruct (watching d) eqn:Ew; [|done]. injection Hs as <-. specialize (HW eq_refl).
    destruct HO. split; cbn; try done.
    + rewrite HW. done.
    + intros H. destruct (ok_returned0 H). done.
  - apply (HC LCancel d); [done|exact Hs|by right|exact HO].
Qed.

Lemma DaemonOk_steps since ls d d' : daemon_steps ls d = Some d' -> DaemonOk since d -> DaemonOk since d'.
Proof.
  revert d. induction ls as [|l ls IH]; intros d; cbn [daemon_steps]; [by intros [= ->]|].
  destruct (daemon_step l d) as [d1|] eqn:E; [|done]. intros Hs HO. eapply IH; [exact Hs|]. by eapply DaemonOk_step.
Qed.

(** ** Theorems *)

(** C15. The daemon is made of its parts: however its tasks interleave, what the coordinator
    goes through is a run of the coordinator, and what the listener goes through is a
    run of the listener over the stream that was opened first, so that what holds of
    each holds in the daemon. Nothing is listed, requested or reconciled before the
    subscription was answered; and the events are read only after the startup pass was
    requested and ended, or the context was done. *)
Theorem daemon_refines since ls d :
  daemon_steps ls (daemon_start since) = Some d ->
  reachable (d_config d) /\
  (forall l, d_listener d = Some l ->
     (exists inputs, l = listen_events since (d_stream d) inputs) /\
     1 <= requests (d_config d) /\ (first_pass (co (d_config d)) = true \/ cancelled (d_config d) = true)) /\
  (d_phase d = Subscribing -> d_config d = initial \/ d_config d = cancel initial).
Proof.
  intros Hs. destruct (DaemonOk_steps since ls _ d Hs (DaemonOk_start since)).
  split_and!; [done| |].
  - intros l Hl. assert (6 <= rank (d_phase d))%nat by (apply ok_following0; by eexists).
    split_and!; [by apply ok_listener0|apply ok_asked0; lia|by apply ok_first0].
  - intros Hp. apply ok_idle0, ok_made0. rewrite Hp. cbn. lia.
Qed.

(** C16. The daemon returns only when all it started has ended: the context is done, the
    coordinator's loop and the watcher have returned, the listener has ended with its
    last event handled, and no container is held. *)
Theorem daemon_stops_clean since ls d :
  daemon_steps ls (daemon_start since) = Some d -> d_phase d = Finished ->
  cancelled (d_config d) = true /\ runner (d_config d) = Returned /\ d_watcher d = WatcherEnded /\
  (exists l, d_listener d = Some l /\ place l = Ended) /\
  holds (d_config d) = ∅ /\ callers (d_config d) = [] /\ notices (d_config d) = 0%nat.
Proof.
  intros Hs Hf. destruct (DaemonOk_steps since ls _ d Hs (DaemonOk_start since)).
  rewrite Hf in *. destruct ok_background0 as (l & Hl & He); [cbn; lia|].
  destruct (ok_ended0 l Hl He) as (Hc & Hq & Hn & _). destruct ok_returned0; [cbn; lia|].
  split_and!; auto. by exists l.
Qed.

End daemon.

(** ** A run from start to end *)

Module DaemonExample.

Definition reconciler : Reconciler := {| RError := unit; is_gone := fun _ => false |}.
Definition jiff : JiffNano := {| from_nanosecond := Some |}.
#[local] Existing Instances reconciler jiff.

Definition now : Inspected := {| insp_at := 5; insp_monotonic := 5 |}.
Definition start_event : Event := {| ev_action := "start"; ev_actor := "b"; ev_time_nano := 70 |}.

(** The startup pass over one container. *)
Definition startup : list DaemonLabel :=
  [Main (Answer (Ok Open)); Main Proceed; Main Proceed; Main Proceed; Main (Generation 1); Task LNotify; Task (LTop 0);
   Task (LList 0 (Some ["a"])); Task (LPass 0); Task (LPass 0); Task (LHold 0 (Begin now));
   Task (LHold 0 (Outcome 6 None)); Task (LHold 0 Mark); Task (LHold 0 (Next 8)); Task (LPass 9); Main Proceed].

(** A container starts, and is reconciled before the listener sees the context done. *)
Definition stop : list DaemonLabel :=
  [Follow (AtHead false (Ok Open) false) 0 0; Follow (AtItem (Ok start_event) false false 0) 10 10;
   Task (LEventReserve 0 10); ContextEnds; Task (LHold 1 (Begin now)); Task (LHold 1 (Outcome 12 None));
   Task (LHold 1 (Next 13)); Follow Stop 14 14; Main Proceed; Task (LTop 14); WatcherEnds; Main Proceed; Main Proceed].

Definition at_end (ls : list DaemonLabel) : Daemon := default (daemon_start 0) (daemon_steps ls (daemon_start 0)).

Lemma startup_ends : daemon_steps startup (daemon_start 0) = Some (at_end startup).
Proof. by vm_compute. Qed.

Lemma run_ends :
  daemon_steps (startup ++ stop) (daemon_start 0) = Some (at_end (startup ++ stop)) /\
  d_phase (at_end (startup ++ stop)) = Finished.
Proof. by vm_compute. Qed.

(** The listener waits while an event is handled. *)
Lemma event_handled_first :
  daemon_steps (startup ++ take 2 stop ++ [Follow (AtItem (Ok start_event) false false 0) 11 11]) (daemon_start 0) = None.
Proof. by vm_compute. Qed.

Lemma daemon_refines_witness :
  daemon_steps startup (daemon_start 0) = Some (at_end startup) /\ reachable (d_config (at_end startup)) /\
  first_pass (co (d_config (at_end startup))) = true.
Proof.
  split; [exact startup_ends|]. destruct (daemon_refines 0 startup (at_end startup) startup_ends) as (H & _).
  split; [exact H|by vm_compute].
Defined.

Lemma daemon_stops_clean_witness :
  d_phase (at_end (startup ++ stop)) = Finished /\ holds (d_config (at_end (startup ++ stop))) = ∅.
Proof.
  destruct run_ends as [Hs Hf]. split; [exact Hf|].
  exact (proj1 (proj2 (proj2 (proj2 (proj2 (daemon_stops_clean 0 (startup ++ stop) _ Hs Hf)))))).
Defined.

End DaemonExample.
