(* ===== verification/DaemonShutdown.v ===== *)
(** * The shutdown of the daemon (src/daemon/mod.rs, coordinator.rs)

    Once the context is done the daemon can always come to its end: from every state
    its tasks can be in there is a schedule of their own steps that lets [run_with]
    return, whatever the reconciles under way answer. *)

From S2P Require Import Prelude.
From S2P Require Import Text.
From S2P Require Import Coordinator.
From S2P Require Import CoordinatorProofs.
From S2P Require Import CoordinatorTheorems.
From S2P Require Import CoordinatorProgress.
From S2P Require Import Listener.
From S2P Require Import Daemon.

Section shutdown.
Context {reconciler : Reconciler} {jiff : JiffNano}.

(** What the reconciles under way answer, and, if it is still to come, the subscription;
    and the generation in force. *)
Context (answer : option RError) (reply : result SubscribeError Subscription) (gen : Z).

(** ** Steps of the coordinator's own tasks *)

(** A step of the tasks, in which a reconcile answers [answer] and a list fails. *)
Definition stopping (l : Label) : Prop :=
  own l = true /\
  match l with LHold _ (Outcome _ error) => error = answer | LList _ ids => ids = None | _ => True end.

Record winds (g g' : Config) : Prop := {
  wd_steps : exists ls, Forall stopping ls /\ steps ls g = Some g';
  wd_cancelled : cancelled g' = cancelled g;
}.

#[local] Instance winds_preorder : PreOrder winds.
Proof.
  split.
  - intros g. split; [by exists []; split; [constructor|]|done].
  - intros g1 g2 g3 [(ls1 & H1 & S1) C1] [(ls2 & H2 & S2) C2]. split; [|congruence]. exists (ls1 ++ ls2).
    split; [by apply Forall_app_2|by eapply steps_app].
Qed.

Lemma winds_step l g g' : step l g = Some g' -> stopping l -> cancelled g' = cancelled g -> winds g g'.
Proof. intros Hs Hl Hc. split; [|done]. exists [l]. cbn. rewrite Hs. by split; [constructor|]. Qed.

Lemma winds_reachable g g' : winds g g' -> reachable g -> reachable g'.
Proof. intros [(ls & _ & Hs) _] Hr. by eapply CoordinatorExample.reachable_steps. Qed.

(** ** A hold ends *)

(** Nothing but the hold [t] and what is settled changes. *)
Definition beside (t : nat) (h h' : Hold) (g g' : Config) : Prop :=
  holds g' = <[t := h']> (holds g) /\ h_container h' = h_container h /\ h_owner h' = h_owner h /\
  in_flight (state (co g')) = in_flight (state (co g)) /\ runner g' = runner g /\
  callers g' = callers g /\ notices g' = notices g.

Lemma beside_trans t h h1 h2 g g1 g2 : beside t h h1 g g1 -> beside t h1 h2 g1 g2 -> beside t h h2 g g2.
Proof.
  intros (E1 & ? & ? & ? & ? & ? & ?) (E2 & ? & ? & ? & ? & ? & ?). unfold beside. split_and!; try congruence.
  rewrite E2, E1. apply insert_insert_eq.
Qed.

Lemma beside_found t h h' g g' : beside t h h' g g' -> holds g' !! t = Some h'.
Proof. intros (-> & _). apply lookup_insert_eq. Qed.

Lemma hold_mark t h i g :
  holds g !! t = Some h -> h_phase h = Marking i -> exists g' h', winds g g' /\ beside t h h' g g' /\ h_phase h' = Ending.
Proof.
  intros Ht Hp. eexists _, (set_phase Ending h). split; [|split; [|done]].
  - apply (winds_step (LHold t Mark)); [cbn; rewrite Ht; cbn; by rewrite Hp|done..].
  - by unfold beside.
Qed.

Lemma hold_outcome t h k i g :
  holds g !! t = Some h -> h_phase h = Processing k i ->
  exists g' h', winds g g' /\ beside t h h' g g' /\ h_phase h' = Ending.
Proof.
  intros Ht Hp.
  set (p := if bool_decide (is_Some answer) then Ending else if h_enumerated h then Marking i else Ending).
  set (h1 := set_phase p (set_error answer h)).
  set (g1 := note_outcome (h_container h) k (settled answer)
    (put_hold t h1 (with_co (settle 0 (h_container h) k answer (co g)) g))).
  assert (Hw : winds g g1).
  { apply (winds_step (LHold t (Outcome 0 answer))); [cbn; rewrite Ht; cbn; by rewrite Hp|done..]. }
  assert (Hb : beside t h h1 g g1) by (by unfold beside).
  destruct (h_phase h1) as [| |i'|] eqn:Hp1; subst h1; cbn in Hp1; [by subst p; repeat case_match..| |].
  - destruct (hold_mark t _ i' g1 (beside_found _ _ _ _ _ Hb) Hp1) as (g2 & h2 & Hw2 & Hb2 & He).
    exists g2, h2. split_and!; [by etrans|by eapply beside_trans|done].
  - by eexists g1, _.
Qed.

Lemma hold_work t h g :
  holds g !! t = Some h -> exists g' h', winds g g' /\ beside t h h' g g' /\ h_phase h' = Ending.
Proof.
  intros Ht. destruct (h_phase h) as [|k i|i|] eqn:Hp.
  - set (i := {| insp_at := 0; insp_monotonic := 0 |}).
    set (p := if h_reconcile h then Processing (current (state (co g))) i else Ending).
    set (g1 := put_hold t (set_phase p h) g).
    assert (Hw : winds g g1).
    { apply (winds_step (LHold t (Begin i))); [cbn; rewrite Ht; cbn; by rewrite Hp|done..]. }
    assert (Hb : beside t h (set_phase p h) g g1) by (by unfold beside).
    destruct (h_reconcile h) eqn:Hrec; [|by eexists g1, _].
    destruct (hold_outcome t _ (current (state (co g))) i g1 (beside_found _ _ _ _ _ Hb) eq_refl)
      as (g2 & h2 & Hw2 & Hb2 & He).
    exists g2, h2. split_and!; [by etrans|by eapply beside_trans|done].
  - by eapply hold_outcome.
  - by eapply hold_mark.
  - exists g, h. split_and!; [done| |done]. unfold beside. by rewrite insert_id.
Qed.

(** The end of a hold, seen by the loop and by what handles the event. *)
Definition gone (t : nat) (h : Hold) (g g' : Config) : Prop :=
  holds g' = delete t (holds g) /\ callers g' = callers g /\ runner g' = after_hold h (runner g).

Lemma hold_release t h r g :
  holds g !! t = Some h -> h_phase h = Ending -> in_flight (state (co g)) !! h_container h = Some r -> no_queue r ->
  exists g', winds g g' /\ gone t h g g'.
Proof.
  intros Ht Hp Hr [Hq Hqt]. destruct (next 0 (h_container h) (co g)) as [work c] eqn:En.
  destruct (next_spec _ _ _ _ _ _ Hr En) as [(_ & Hb & _)|(-> & _)]; [by rewrite Hq, Hqt in Hb|].
  set (g1 := with_holds (delete t (holds g)) (tickets g) (with_co c g)).
  exists (hold_ended h g1). split.
  - apply (winds_step (LHold t (Next 0))); [cbn; rewrite Ht; cbn; by rewrite Hp, En|done|].
    unfold hold_ended. by destruct (h_owner h); try destruct (h_error h).
  - unfold gone, hold_ended, after_hold. by destruct (h_owner h); try destruct (h_error h).
Qed.

Lemma hold_again t h r g :
  holds g !! t = Some h -> h_phase h = Ending -> in_flight (state (co g)) !! h_container h = Some r -> ~ no_queue r ->
  exists g' h' r', winds g g' /\ holds g' = <[t := h']> (holds g) /\ h_container h' = h_container h /\
    h_owner h' = h_owner h /\ runner g' = runner g /\ callers g' = callers g /\
    in_flight (state (co g')) !! h_container h = Some r' /\ no_queue r'.
Proof.
  intros Ht Hp Hr Hq.
  assert (Hb : queued_reconcile r || bool_decide (is_Some (queued_terminate r)) = true).
  { apply not_false_is_true. intros [Hb1 Hb2%bool_decide_eq_false]%orb_false_iff.
    apply Hq. split; [done|]. by apply eq_None_not_Some. }
  destruct (next 0 (h_container h) (co g)) as [work c] eqn:En.
  pose proof En as En'. unfold next in En'. rewrite Hr, Hb in En'. injection En' as <- <-.
  eassert (Hs : step (LHold t (Next 0)) g = Some (put_hold t (again _ h) (with_co _ g))).
  { cbn. rewrite Ht. cbn. rewrite Hp, En. cbn [fst snd]. by rewrite Hb. }
  eexists _, _, _. split_and!; [by apply (winds_step _ _ _ Hs)|done..|cbn; apply lookup_insert_eq|]. by split.
Qed.

Lemma hold_ends t h g : reachable g -> holds g !! t = Some h -> exists g', winds g g' /\ gone t h g g'.
Proof.
  intros Hg Ht. destruct (ex_hold _ _ _ (proj1 (reachable_excl _ Hg)) _ _ Ht) as (r & Er & _).
  destruct (hold_work t h g Ht) as (g1 & h1 & Hw1 & Hb1 & He1). pose proof (beside_found _ _ _ _ _ Hb1) as Ht1.
  destruct Hb1 as (Hh1 & Hc1 & Ho1 & Hf1 & Hr1 & Hca1 & _). rewrite <- Hf1, <- Hc1 in Er.
  destruct (decide (queued_reconcile r = false /\ queued_terminate r = None)) as [Hq|Hq].
  - destruct (hold_release t h1 r g1 Ht1 He1 Er Hq) as (g2 & Hw2 & Hh2 & Hca2 & Hr2).
    exists g2. split; [by etrans|]. unfold gone, after_hold in *. rewrite Ho1, Hr1 in Hr2.
    split_and!; [by rewrite Hh2, Hh1, delete_insert_eq|congruence..].
  - destruct (hold_again t h1 r g1 Ht1 He1 Er Hq) as (g2 & h2 & r2 & Hw2 & Hh2 & Hc2 & Ho2 & Hr2 & Hca2 & Er2 & Hq2).
    assert (Ht2 : holds g2 !! t = Some h2) by (rewrite Hh2; apply lookup_insert_eq).
    destruct (hold_work t h2 g2 Ht2) as (g3 & h3 & Hw3 & Hb3 & He3). pose proof (beside_found _ _ _ _ _ Hb3) as Ht3.
    destruct Hb3 as (Hh3 & Hc3 & Ho3 & Hf3 & Hr3 & Hca3 & _). rewrite <- Hf3, <- Hc2, <- Hc3 in Er2.
    destruct (hold_release t h3 r2 g3 Ht3 He3 Er2 Hq2) as (g4 & Hw4 & Hh4 & Hca4 & Hr4).
    exists g4. split; [by repeat (etrans; [eassumption|])|]. unfold gone, after_hold in *. rewrite Ho3, Ho2, Ho1, Hr3, Hr2, Hr1 in Hr4.
    split_and!; [by rewrite Hh4, Hh3, delete_insert_eq, Hh2, delete_insert_eq, Hh1, delete_insert_eq|congruence..].
Qed.

(** All holds end. *)
Lemma holds_end g :
  reachable g -> exists g', winds g g' /\ holds g' = ∅ /\ callers g' = callers g /\
    (runner g' = runner g \/ runner g' = resume (runner g)).
Proof.
  remember (size (holds g)) as n eqn:Hn. revert g Hn. induction n as [|n IH]; intros g Hn Hg.
  { exists g. split_and!; [done| |done|by left]. by apply map_size_empty_inv. }
  destruct (map_choose (holds g)) as (t & h & Ht).
  { intros He. rewrite He, map_size_empty in Hn. lia. }
  destruct (hold_ends t h g Hg Ht) as (g1 & Hw1 & Hh1 & Hca1 & Hr1).
  destruct (IH g1) as (g2 & Hw2 & Hh2 & Hca2 & Hr2).
  - rewrite Hh1, map_size_delete, Ht. cbn. lia.
  - by eapply winds_reachable.
  - exists g2. split_and!; [by etrans|done|congruence|]. unfold after_hold in Hr1.
    destruct (h_owner h), Hr2 as [Hr2|Hr2]; rewrite Hr2, Hr1; auto. right. by destruct (runner g).
Qed.

(** The handlers of events reserve their containers. *)
Lemma callers_end g : exists g', winds g g' /\ callers g' = [] /\ runner g' = runner g.
Proof.
  remember (callers g) as l eqn:El. revert g El. induction l as [|[id t] l IH]; intros g El; [by exists g|].
  set (g0 := with_callers l (notices g) g).
  destruct (reconcile_container 0 id (Some t) ByEvent g0) as [got g1] eqn:E.
  assert (callers g1 = l /\ runner g1 = runner g /\ cancelled g1 = cancelled g) as (Hc1 & Hr1 & Hx1).
  { unfold reconcile_container in E.
    by destruct (reserve_and_hold_spec _ _ _ _ _ _ _ _ _ E) as [(_ & _ & ->)|(_ & held & _ & ->)]. }
  destruct (IH g1) as (g2 & Hw2 & Hc2 & Hr2); [done|]. exists g2. split_and!; [|done|congruence].
  etrans; [|exact Hw2]. apply (winds_step (LEventReserve 0 0)); [|done|done].
  cbn -[reconcile_container]. rewrite <- El. cbn -[reconcile_container]. fold g0. by rewrite E.
Qed.

Lemma notices_end g :
  exists g', winds g g' /\ notices g' = 0%nat /\ callers g' = callers g /\ holds g' = holds g /\ runner g' = runner g.
Proof.
  remember (notices g) as n eqn:En. revert g En. induction n as [|n IH]; intros g En; [by exists g|].
  set (g1 := with_callers (callers g) n (with_co (notify_one (co g)) g)).
  destruct (IH g1) as (g2 & Hw & ? & ? & ? & ?); [done|]. exists g2. split_and!; [|done..].
  etrans; [|exact Hw]. apply (winds_step LNotice); [cbn; by rewrite <- En|done..].
Qed.

(** ** The loop returns *)

Lemma reachable_awaited g : reachable g -> awaited g.
Proof.
  induction 1 as [|g l g' Hr IH Hs]; [done|].
  eapply awaited_step; [by apply reachable_excl|by eapply step_moved|done].
Qed.

(** No hold, no handler of an event, and the loop as given. *)
Definition rests (r : Runner) (g : Config) : Prop := holds g = ∅ /\ callers g = [] /\ runner g = r.

Lemma top_returns g :
  cancelled g = true -> rests Top g -> exists g', winds g g' /\ rests Returned g'.
Proof.
  intros Hc (Hh & Hca & Hr). exists (with_runner Returned g). split; [|done].
  apply (winds_step (LTop 0)); [|done..]. cbn. unfold run_head, run_top. by rewrite Hr, Hc.
Qed.

Lemma select_returns r g :
  cancelled g = true -> rests (Selecting r) g -> exists g', winds g g' /\ rests Returned g'.
Proof.
  intros Hc (Hh & Hca & Hr). exists (with_runner Returned g). split; [|done].
  apply (winds_step (LSelect BCancelled 0)); [|done..]. cbn. rewrite Hr. cbn. by rewrite Hc.
Qed.

Lemma rest_step l g g' :
  step l g = Some g' -> stopping l -> cancelled g' = cancelled g -> cancelled g = true ->
  (cancelled g' = true -> exists g2, winds g' g2 /\ rests Returned g2) -> exists g2, winds g g2 /\ rests Returned g2.
Proof.
  intros Hs Hl Hc Hx Hk. destruct Hk as (g2 & Hw & Hr); [congruence|]. exists g2. split; [|done].
  etrans; [by apply (winds_step _ _ _ Hs)|done].
Qed.

Lemma pass_returns key rest g :
  cancelled g = true -> rests (Passing key rest) g -> exists g', winds g g' /\ rests Returned g'.
Proof.
  intros Hc Hg. pose proof Hg as (Hh & Hca & Hr).
  eapply (rest_step (LPass 0)); [cbn -[pass_step]; rewrite Hr; reflexivity|done| |done|].
  - unfold pass_step. destruct rest; [done|]. by rewrite Hc.
  - intros Hc'. apply top_returns; [done|]. unfold pass_step, rests. destruct rest; [done|]. by rewrite Hc.
Qed.

Lemma retry_returns l g :
  cancelled g = true -> rests (Retrying l) g -> exists g', winds g g' /\ rests Returned g'.
Proof.
  intros Hc Hg. pose proof Hg as (Hh & Hca & Hr).
  eapply (rest_step (LRetry 0)); [cbn -[retry_step]; rewrite Hr; reflexivity|done| |done|].
  - unfold retry_step. destruct l; [done|]. by rewrite Hc.
  - intros Hc'. apply top_returns; [done|]. unfold retry_step, rests. destruct l; [done|]. by rewrite Hc.
Qed.

Lemma loop_returns g :
  reachable g -> cancelled g = true -> holds g = ∅ -> callers g = [] -> exists g', winds g g' /\ rests Returned g'.
Proof.
  intros Hg Hc Hh Hca.
  assert (Hno : awaiting (runner g) = false).
  { apply not_true_is_false. intros Ha. destruct (reachable_awaited g Hg Ha) as (t & h & Ht & _).
    rewrite Hh in Ht. by rewrite lookup_empty in Ht. }
  destruct (runner g) as [| |r|key|key rest|key id rest|key rest|r| |l|l|] eqn:Hr; try done.
  - by apply top_returns.
  - eapply (rest_step (LTop 0)); [cbn; unfold run_head; rewrite Hr; reflexivity|done..|]. intros _.
    eapply (rest_step (LTop 0)); [reflexivity|done..|]. intros _. by eapply select_returns.
  - eapply (rest_step (LTop 0)); [cbn; unfold run_head; rewrite Hr; reflexivity|done..|]. intros _.
    by eapply select_returns.
  - eapply (rest_step (LList 0 None)); [cbn; rewrite Hr; reflexivity|done..|]. intros _. by apply top_returns.
  - by eapply pass_returns.
  - destruct (reconcile_container 0 id None ByRun (note_visit id g)) as [got g1] eqn:E.
    set (g2 := with_runner (if got then Visiting key rest else Passing key rest) g1).
    assert (callers g2 = [] /\ cancelled g2 = true) as [Hca2 Hc2].
    { unfold reconcile_container in E.
      by destruct (reserve_and_hold_spec _ _ _ _ _ _ _ _ _ E) as [(_ & _ & ->)|(_ & held & _ & ->)]. }
    assert (Hw2 : winds g g2).
    { apply (winds_step (LPass 0)); [|done|congruence]. cbn -[pass_reserve]. rewrite Hr. unfold pass_reserve. by rewrite E. }
    destruct (holds_end g2 (winds_reachable _ _ Hw2 Hg)) as (g3 & Hw3 & Hh3 & Hca3 & Hr3).
    assert (Hwx : winds g g3) by (by etrans).
    assert (Hc3 : cancelled g3 = true) by (by rewrite (wd_cancelled _ _ Hwx)).
    assert (Hr3' : runner g3 = Passing key rest).
    { destruct Hr3 as [Hr3|Hr3]; [|by rewrite Hr3; cbn; destruct got].
      rewrite Hr3. cbn. destruct got; [|done]. exfalso.
      destruct (reachable_awaited g3 (winds_reachable _ _ Hwx Hg)) as (t & h & Ht & _); [by rewrite Hr3|].
      rewrite Hh3 in Ht. by rewrite lookup_empty in Ht. }
    destruct (pass_returns key rest g3 Hc3) as (g4 & Hw4 & Hg4); [by unfold rests; rewrite Hca3|].
    exists g4. split; [by etrans|done].
  - by eapply select_returns.
  - eapply (rest_step (LDue 0)); [cbn; rewrite Hr; reflexivity|done..|]. intros _. by eapply retry_returns.
  - by eapply retry_returns.
  - by exists g.
Qed.

(** All of the coordinator's side. *)
Lemma coordinator_stops g :
  reachable g -> cancelled g = true ->
  exists g', winds g g' /\ rests Returned g' /\ notices g' = 0%nat.
Proof.
  intros Hg Hc. destruct (callers_end g) as (g1 & Hw1 & Hca1 & _).
  destruct (holds_end g1 (winds_reachable _ _ Hw1 Hg)) as (g2 & Hw2 & Hh2 & Hca2 & _).
  assert (Hw : winds g g2) by (by etrans).
  destruct (loop_returns g2) as (g3 & Hw3 & Hh3 & Hca3 & Hr3); [by eapply winds_reachable| |done|congruence|].
  { by rewrite (wd_cancelled _ _ Hw). }
  destruct (notices_end g3) as (g4 & Hw4 & Hn4 & Hca4 & Hh4 & Hr4). exists g4.
  split_and!; [by repeat (etrans; [eassumption|])|by unfold rests; rewrite Hh4, Hca4, Hr4|done].
Qed.

(** ** The daemon returns *)

(** What the main task has started by now. *)
Definition tasked (d : Daemon) : Prop :=
  ((3 <= rank (d_phase d))%nat -> d_running d = true) /\ ((4 <= rank (d_phase d))%nat -> d_watcher d <> NotStarted).

Lemma coordinate_tasked l d d' : coordinate l d = Some d' -> tasked d -> tasked d'.
Proof. unfold coordinate. destruct (step l (d_config d)) as [g|]; [|done]. by intros [= <-]. Qed.

Lemma main_tasked i d d' : main_step i d = Some d' -> tasked d -> tasked d'.
Proof.
  unfold main_step. intros Hs [H1 H2]. destruct (d_phase d) eqn:Hp, i as [r|n|]; try done; cbn in H1, H2.
  all: try (injection Hs as <-; unfold tasked; cbn; split; intros; first [done|lia|apply H1; lia|apply H2; lia]).
  - destruct (_ || _); [|done]. injection Hs as <-. unfold tasked. cbn. split; intros; [apply H1|apply H2]; lia.
  - destruct (d_listener d) as [l|]; [|done]. destruct (place l); try done. injection Hs as <-. unfold tasked. cbn.
    split; intros; [apply H1|apply H2]; lia.
  - destruct (runner (d_config d)); try done. destruct (d_watcher d) eqn:Ew; try done. injection Hs as <-.
    unfold tasked. cbn. rewrite Ew. split; intros; [apply H1; lia|done].
  - destruct (bool_decide _); [|done]. injection Hs as <-. unfold tasked. cbn. split; intros; [apply H1|apply H2]; lia.
Qed.

Lemma tasked_step l d d' : daemon_step l d = Some d' -> tasked d -> tasked d'.
Proof.
  intros Hs Ht. destruct l as [i|i wall now|l|n|n|n| |]; cbn in Hs.
  - by eapply main_tasked.
  - unfold follow_step in Hs. destruct (d_phase d) eqn:Hp; try done. destruct (d_listener d); [|done].
    destruct (_ && _); [|done]. destruct (perform _ _ _ _); [|done]. injection Hs as <-. exact Ht.
  - destruct (may_run l d); [|done]. by eapply coordinate_tasked.
  - destruct (_ && _); [|done]. by injection Hs as <-.
  - destruct (watching d); [|done]. by injection Hs as <-.
  - destruct (watching d); [|done]. by injection Hs as <-.
  - destruct (watching d); [|done]. injection Hs as <-. destruct Ht. by split.
  - by injection Hs as <-.
Qed.

Lemma tasked_steps ls d d' : daemon_steps ls d = Some d' -> tasked d -> tasked d'.
Proof.
  revert d. induction ls as [|l ls IH]; intros d; cbn [daemon_steps]; [by intros [= ->]|].
  destruct (daemon_step l d) as [d1|] eqn:E; [|done]. intros Hs Ht. eapply IH; [exact Hs|]. by eapply tasked_step.
Qed.

(** A step of the daemon's own tasks on their way to the end. *)
Definition ending (l : DaemonLabel) : Prop :=
  match l with
  | Main (Answer r) => r = reply
  | Main (Generation n) => n = gen
  | Main Proceed | WatcherEnds => True
  | Follow i _ _ => saw_done i = true
  | Task l => stopping l
  | Publish _ | Reloaded _ | WatcherSubscribed _ | ContextEnds => False
  end.

Definition leads (d d' : Daemon) : Prop := exists ls, Forall ending ls /\ daemon_steps ls d = Some d'.

#[local] Instance leads_preorder : PreOrder leads.
Proof.
  split.
  - intros d. by exists []; split; [constructor|].
  - intros d1 d2 d3 (ls1 & H1 & S1) (ls2 & H2 & S2). exists (ls1 ++ ls2). split; [by apply Forall_app_2|].
    revert d1 S1. clear H1. induction ls1 as [|l ls1 IH]; intros d1; cbn [daemon_steps app]; [by intros [= ->]|].
    destruct (daemon_step l d1) as [d|]; [|done]. apply IH.
Qed.

Lemma leads_step l d d' : daemon_step l d = Some d' -> ending l -> leads d d'.
Proof. intros Hs Hl. exists [l]. cbn [daemon_steps]. rewrite Hs. by split; [constructor|]. Qed.

Lemma leads_winds d g : d_running d = true -> winds (d_config d) g -> leads d (with_config g d).
Proof.
  intros Hr [(ls & Hl & Hs) _]. exists (Task <$> ls). split; [by apply Forall_fmap|].
  revert d Hr Hs. induction Hl as [|l ls [Ho Hl] _ IH]; intros d Hr Hs.
  - injection Hs as <-. by destruct d.
  - cbn [steps] in Hs. destruct (step l (d_config d)) as [g1|] eqn:E; [|done]. cbn in Hs.
    cbn [fmap list_fmap daemon_steps daemon_step]. unfold may_run, coordinate. rewrite Ho, Hr, E.
    exact (IH (with_config g1 d) Hr Hs).
Qed.

(** The main task up to the wait for the first pass. *)
Lemma to_first_pass d :
  cancelled (d_config d) = true -> exists d', leads d d' /\ (5 <= rank (d_phase d'))%nat /\ cancelled (d_config d') = true.
Proof.
  intros Hc. remember (5 - rank (d_phase d))%nat as n eqn:Hn. revert d Hc Hn.
  induction n as [|n IH]; intros d Hc Hn; [exists d; split_and!; [done|lia|done]|].
  assert (exists l d', daemon_step l d = Some d' /\ ending l /\ rank (d_phase d') = S (rank (d_phase d)) /\
    cancelled (d_config d') = true) as (l & d1 & Hs & Hl & Hr & Hc1).
  { destruct (d_phase d) eqn:Hp; cbn in Hn; try lia.
    - exists (Main (Answer reply)). eexists. cbn [daemon_step]. unfold main_step. rewrite Hp. by split_and!.
    - exists (Main Proceed). eexists. cbn [daemon_step]. unfold main_step. rewrite Hp. by split_and!.
    - exists (Main Proceed). eexists. cbn [daemon_step]. unfold main_step. rewrite Hp. by split_and!.
    - exists (Main Proceed). eexists. cbn [daemon_step]. unfold main_step. rewrite Hp. by split_and!.
    - exists (Main (Generation gen)). eexists. cbn [daemon_step]. unfold main_step. rewrite Hp. by split_and!. }
  destruct (IH d1 Hc1) as (d2 & H2 & Hr2 & Hc2); [lia|]. exists d2. split_and!; [|done..].
  etrans; [by eapply leads_step|done].
Qed.

(** The coordinator's side is at rest and the context done. *)
Definition at_rest (d : Daemon) : Prop :=
  rests Returned (d_config d) /\ notices (d_config d) = 0%nat /\ cancelled (d_config d) = true.

Lemma rest_handled g : rests Returned g -> notices g = 0%nat -> handled g = true.
Proof.
  intros (Hh & Hca & _) Hn. apply handled_quiet. split_and!; [done..|]. rewrite Hh. apply map_Forall_empty.
Qed.

Lemma end_waiting d : at_rest d -> d_phase d = WaitingHolds -> exists d', leads d d' /\ d_phase d' = Finished.
Proof.
  intros ((Hh & _) & _) Hp. eexists. split; [apply (leads_step (Main Proceed)); [|done]|].
  - cbn [daemon_step]. unfold main_step. rewrite Hp, bool_decide_eq_true_2 by done. done.
  - done.
Qed.

Lemma end_background d :
  at_rest d -> d_watcher d <> NotStarted -> d_phase d = WaitingBackground -> exists d', leads d d' /\ d_phase d' = Finished.
Proof.
  intros Hd Hw Hp. pose proof Hd as ((_ & _ & Hr) & _).
  assert (forall d1, at_rest d1 -> d_watcher d1 = WatcherEnded -> d_phase d1 = WaitingBackground ->
    exists d', leads d1 d' /\ d_phase d' = Finished) as Hend.
  { intros d1 Hd1 Hw1 Hp1. pose proof Hd1 as ((_ & _ & Hr1) & _).
    destruct (end_waiting (at_phase WaitingHolds d1)) as (d2 & H2 & Hf); [done|done|].
    exists d2. split; [|done]. etrans; [|exact H2]. apply (leads_step (Main Proceed)); [|done].
    cbn [daemon_step]. unfold main_step. by rewrite Hp1, Hr1, Hw1. }
  destruct (d_watcher d) eqn:Ew; [done| |by apply Hend].
  destruct (Hend (with_tasks (d_installed d) (d_running d) WatcherEnded d)) as (d2 & H2 & Hf); [done..|].
  exists d2. split; [|done]. etrans; [|exact H2]. apply (leads_step WatcherEnds); [|done].
  cbn [daemon_step]. unfold watching. by rewrite Ew.
Qed.

Lemma end_listener d l :
  at_rest d -> d_watcher d <> NotStarted -> d_phase d = FollowingEvents -> d_listener d = Some l ->
  exists d', leads d d' /\ d_phase d' = Finished.
Proof.
  intros Hd Hw Hp Hl. pose proof Hd as (Hr & Hn & Hc).
  assert (forall d1 l1, at_rest d1 -> d_watcher d1 <> NotStarted -> d_phase d1 = FollowingEvents ->
    d_listener d1 = Some l1 -> place l1 = Ended -> exists d', leads d1 d' /\ d_phase d' = Finished) as Hend.
  { intros d1 l1 Hd1 Hw1 Hp1 Hl1 He1.
    destruct (end_background (at_phase WaitingBackground d1)) as (d2 & H2 & Hf); [done..|].
    exists d2. split; [|done]. etrans; [|exact H2]. apply (leads_step (Main Proceed)); [|done].
    cbn [daemon_step]. unfold main_step. by rewrite Hp1, Hl1, He1. }
  assert (exists i, saw_done i = true /\
    (place l = Ended \/ listen_step (d_since d) l i = goto Ended l)) as (i & Hi & Hp').
  { destruct (place l) as [stream|sub|] eqn:El.
    - exists (AtHead true reply false). split; [done|]. right. unfold listen_step. by rewrite El.
    - exists Stop. split; [done|]. right. unfold listen_step. by rewrite El.
    - exists Stop. split; [done|by left]. }
  destruct Hp' as [He|He]; [by eapply Hend|].
  destruct (Hend (with_listener (goto Ended l) (with_config (d_config d) d)) (goto Ended l)) as (d2 & H2 & Hf); [done..|].
  exists d2. split; [|done]. etrans; [|exact H2]. apply (leads_step (Follow i 0 0)); [|done].
  cbn [daemon_step]. unfold follow_step. rewrite Hp, Hl, (rest_handled _ Hr Hn), Hc, Hi, He. cbn [implb andb].
  cbn [actions goto]. by rewrite drop_all.
Qed.

(** C18. Once the context is done, the daemon can return: from every state its tasks can be in,
    however they were interleaved before, steps of their own lead to the end of [run_with],
    whatever the reconciles under way and a subscription still awaited answer, and with
    lists that fail. Nothing outside, no event, request or reload, is needed; that the
    watcher, which is cancelled too, ends is one of the steps. *)
Theorem shutdown_reachable since ls d :
  daemon_steps ls (daemon_start since) = Some d -> cancelled (d_config d) = true ->
  exists ls' d', Forall ending ls' /\ daemon_steps ls' d = Some d' /\ d_phase d' = Finished.
Proof.
  intros Hs Hc. assert (exists d', leads d d' /\ d_phase d' = Finished) as (d' & (ls' & Hl & H') & Hf).
  2:{ by exists ls', d'. }
  destruct (to_first_pass d Hc) as (d1 & H1 & Hr1 & Hc1). pose proof H1 as (ls1 & _ & Hs1).
  assert (DaemonOk since d1 /\ tasked d1) as [HO [HT1 HT2]].
  { split; [eapply DaemonOk_steps; [exact Hs1|]; by eapply DaemonOk_steps; [exact Hs|apply DaemonOk_start]|].
    eapply tasked_steps; [exact Hs1|]. eapply tasked_steps; [exact Hs|]. split; cbn; lia. }
  destruct (coordinator_stops (d_config d1)) as (g & Hw & Hg & Hn); [apply HO|done|].
  assert (leads d (with_config g d1)) as H2 by (etrans; [exact H1|apply leads_winds; [apply HT1; lia|done]]).
  assert (at_rest (with_config g d1)) as Hd2 by (split_and!; [done|done|by rewrite <- Hc1, <- (wd_cancelled _ _ Hw)]).
  assert (d_watcher (with_config g d1) <> NotStarted) as Hw2 by (apply HT2; lia).
  enough (exists d', leads (with_config g d1) d' /\ d_phase d' = Finished) as (d3 & H3 & Hf).
  { exists d3. split; [by etrans|done]. }
  destruct (d_phase d1) eqn:Hp; cbn in Hr1; try lia.
  - destruct (end_listener (at_phase FollowingEvents (with_listener (listen_start (d_stream d1)) (with_config g d1)))
      (listen_start (d_stream d1))) as (d3 & H3 & Hf); [done..|].
    exists d3. split; [|done]. etrans; [|exact H3]. apply (leads_step (Main Proceed)); [|done].
    cbn [daemon_step]. unfold main_step. cbn [d_phase with_config d_config]. rewrite Hp.
    destruct Hd2 as (_ & _ & Hc2). cbn in Hc2. by rewrite Hc2, orb_true_r.
  - assert (is_Some (d_listener d1)) as [l Hl] by (apply (ok_following _ _ HO); rewrite Hp; cbn; lia).
    by eapply end_listener.
  - by eapply end_background.
  - by eapply end_waiting.
  - by exists (with_config g d1).
Qed.

End shutdown.

(** ** A shutdown while an event is handled *)

Module ShutdownExample.

Import DaemonExample.
#[local] Existing Instances reconciler jiff.

(** The context ends when a container's hold has just begun. *)
Definition interrupted : list DaemonLabel := startup ++ take 5 stop.

Lemma interrupted_ends :
  daemon_steps interrupted (daemon_start 0) = Some (at_end interrupted) /\
  cancelled (d_config (at_end interrupted)) = true.
Proof. by vm_compute. Qed.

(** The reconcile under way fails. *)
Lemma shutdown_reachable_witness :
  exists ls' d', Forall (ending (Some tt) (Ok Open) 1) ls' /\
    daemon_steps ls' (at_end interrupted) = Some d' /\ d_phase d' = Finished.
Proof.
  destruct interrupted_ends as [Hs Hc].
  exact (shutdown_reachable (Some tt) (Ok Open) 1 0 interrupted (at_end interrupted) Hs Hc).
Defined.

End ShutdownExample.
