(* ===== verification/CgroupHost.v ===== *)
(** * The controllers of the processor (src/cgroup/v1.rs, v2.rs)

    The two [Interface]s behind the processor, as the instance of [Controllers] that
    runs the cgroup v2 and v1 controllers on the cgroups of the host, and what a
    reconcile that succeeds means there: from the policy down to the verdicts of
    the programs the kernel runs, or the exceptions it keeps. *)

From S2P Require Import Prelude.
From S2P Require Import Text.
From S2P Require Import Ebpf.
From S2P Require Import Bpf.
From S2P Require Import Owned.
From S2P Require Import Verdict.
From S2P Require Import OwnedProofs.
From S2P Require Import V2Ops.
From S2P Require Import Errors.
From S2P Require Import V2.
From S2P Require Import V2Proofs.
From S2P Require Import V2Safety.
From S2P Require Import V2Theorems.
From S2P Require Import BTree.
From S2P Require Import Ledger.
From S2P Require Import V1Set.
From S2P Require Import V1Proofs.
From S2P Require Import V1Theorems.
From S2P Require Import ProcCgroup.
From S2P Require Import Policy.
From S2P Require Import DevFs.
From S2P Require Import Rules.
From S2P Require Import ProcError.
From S2P Require Import Lifecycle.
From S2P Require Import Reconcile.
From S2P Require Import ReconcileProofs.
From S2P Require Import RevokeProofs.
From S2P Require Import LifecycleProofs.
From S2P Require Import PolicyProofs.
From S2P Require Import RulesProofs.
From S2P Require Import Filter.
From S2P Require Import V2Fake.
From S2P Require Import V1Model.

(** ** The cgroups of the host *)

(** What the outside keeps of them: the kernel's side and the files of each, the probe
    of the process and how many nonces were drawn. *)
Class Cgroups (W K F : Type) := {
  cg_kernel : Identity -> W -> K;
  cg_put_kernel : Identity -> K -> ReplaceProbe -> nat -> W -> W;
  cg_probe : W -> ReplaceProbe;
  cg_drawn : W -> nat;
  cg_files : Identity -> W -> F;
  cg_put_files : Identity -> F -> W -> W;
}.

(** A cgroup is what was last put there, and another one's is left alone. *)
Class CgroupLaws (W K F : Type) `{Cgroups W K F} := {
  cg_kernel_put i j k p n w : cg_kernel i (cg_put_kernel j k p n w) = if bool_decide (i = j) then k else cg_kernel i w;
  cg_files_put_kernel i j k p n w : cg_files i (cg_put_kernel j k p n w) = cg_files i w;
  cg_files_put i j f w : cg_files i (cg_put_files j f w) = if bool_decide (i = j) then f else cg_files i w;
  cg_kernel_put_files i j f w : cg_kernel i (cg_put_files j f w) = cg_kernel i w;
}.

Section host.
Context `{HostEndian} (sha256 : list Z -> list Z) (sha256_32 : digest_32 sha256).
Context (draws : nat -> result NonceError Z) (draws_u64 : forall n z, draws n = Ok z -> is_u 64 z).
Context {K P F W Fd : Type} `{EqDecision P} `{!V2Ops K P} `{!V1Files F} `{!Cgroups W K F}.

Abbreviation Accounts := (W * Ledger * FilterCache)%type.

(** A panic is not an answer; [failed_pass_unchanged] shows that there is none. *)
Definition v2_outcome (r : result fault unit) : result Error unit :=
  match r with Ok _ => Ok tt | Err (Failed e) => Err e | Err Panicked => Err (Joined []) end.

(** [CgroupV2::set_device_rules]. *)
Definition v2_set_device_rules (id : Identity) (rules : list DeviceRule) (a : Accounts) : result Error unit * Accounts :=
  let '(w, l, c) := a in
  let '(r, s) := V2.set_rules sha256 draws id rules
    {| kernel := cg_kernel id w; probe := cg_probe w; cache := c; drawn := cg_drawn w; trace := [] |} in
  (v2_outcome r, (cg_put_kernel id (kernel s) (probe s) (drawn s) w, l, cache s)).

(** [CgroupV1::set_device_rules]. *)
Definition v1_set_device_rules (id : Identity) (rules : list DeviceRule) (a : Accounts) : result Error unit * Accounts :=
  let '(w, l, c) := a in
  let '(r, s) := V1Set.set_device_rules id rules {| files := cg_files id w; ledger := l; v1_trace := [] |} in
  (r, (cg_put_files id (files s) w, ledger s, c)).

#[local] Instance host_controllers : Controllers W Fd := {|
  Reconcile.set_device_rules version h rules a :=
    match version with
    | CgroupV1 => v1_set_device_rules (identity h) rules a
    | CgroupV2 => v2_set_device_rules (identity h) rules a
    end;
|}.

(** ** What the accounts hold *)

Context `{!KernelView K P} `{!KernelLaws K P} `{!ExceptionView F} `{!V1Laws F} `{!CgroupLaws W K F}.

Definition accounts_ok (l : Ledger) (c : FilterCache) : Prop :=
  cache_ok sha256 c /\ forall id, Forall bit_ok (owned l id).

(** The kernel's side and the files of a cgroup are well formed. *)
Definition sound_at (i : Identity) (w : W) : Prop := wf (cg_kernel i w) /\ files_wf (cg_files i w).

Lemma accounts_forget l c id : accounts_ok l c -> accounts_ok (ledger_forget l id) (V2.forget c id).
Proof.
  intros [Hc Hl]. split.
  - intros i e Hi. unfold V2.forget in Hi. apply lookup_delete_Some in Hi as [_ Hi]. by apply (Hc i e).
  - intros i. unfold owned, ledger_forget. destruct (decide (i = id)) as [->|Hne].
    + by rewrite lookup_delete_eq.
    + rewrite lookup_delete_ne by done. apply Hl.
Qed.

(** A v1 call for no rules only takes bits out of the ledger. *)
Definition shrinks (s s' : V1State F) : Prop := forall id x, x ∈ owned (ledger s') id -> x ∈ owned (ledger s) id.

#[local] Instance shrinks_preorder : PreOrder shrinks.
Proof. split; [by intros s id x|]. intros s1 s2 s3 H12 H23 id x Hx. by apply H12, H23. Qed.

Lemma shrinks_bind {A B} (m : VM A) (k : A -> VM B) s :
  shrinks s (m s).2 -> (forall a s', m s = (Ok a, s') -> shrinks s' (k a s').2) -> shrinks s ((m ≫= k) s).2.
Proof.
  intros Hm Hk. unfold mbind, VM_bind. destruct (m s) as [[a|e] s'] eqn:E; [|done].
  etrans; [exact Hm|by apply Hk].
Qed.

Lemma shrinks_same {A} (m : VM A) s : ledger (m s).2 = ledger s -> shrinks s (m s).2.
Proof. intros E id x. by rewrite E. Qed.

Lemma file_call_ledger {A} (op : F -> result FileError A * F) s : ledger (file_call op s).2 = ledger s.
Proof. unfold file_call. by destruct (op (files s)). Qed.

Lemma read_list_ledger s : ledger (read_list s).2 = ledger s.
Proof.
  unfold read_list, mbind, VM_bind, file_call, vlift. destruct (v1_read DEVICES_LIST (files s)) as [r f]. cbn.
  by destruct r.
Qed.

Lemma revoke_shrinks id base new forgotten old s : shrinks s (revoke_loop id base new forgotten old s).2.
Proof.
  assert (Hrm : forall bit s, shrinks s (with_ledger (fun l => ledger_remove l id bit) s).2).
  { intros bit s0 i x. cbn. rewrite owned_remove. case_bool_decide; [|done].
    subst. by intros [_ ?]%elem_of_remove_ord. }
  revert forgotten s. induction old as [|bit old IH]; intros forgotten s; cbn [revoke_loop]; [done|].
  destruct (contains_ord bit new); [apply IH|]. destruct (covered base bit).
  - apply shrinks_bind; [apply Hrm|]. intros [] s' _. apply IH.
  - apply shrinks_bind; [apply shrinks_same, file_call_ledger|]. intros r s1 _.
    apply shrinks_bind; [done|]. intros [] s2 _.
    apply shrinks_bind; [apply Hrm|]. intros [] s3 _. apply IH.
Qed.

Lemma restore_shrinks id s : shrinks s (V1Set.set_device_rules id [] s).2.
Proof.
  unfold V1Set.set_device_rules. apply shrinks_bind; [done|]. intros desired s1 [= <- <-].
  apply shrinks_bind; [apply shrinks_same, read_list_ledger|]. intros entries s2 _.
  apply shrinks_bind; [done|]. intros owned_old s3 _. cbv zeta.
  apply shrinks_bind; [apply revoke_shrinks|]. intros forgotten s4 _.
  apply shrinks_bind; [done|]. intros errors s5 _.
  apply shrinks_bind; [|intros r s6 _; cbv zeta; apply shrinks_same; by case_match].
  apply shrinks_same. unfold V1Set.verify. pose proof (read_list_ledger s5) as E. by destruct (read_list s5).
Qed.

(** ** Setting rules on the host *)

(** A revocation keeps the accounts, and every other cgroup. *)
Lemma restore_sound v (h : CgroupHandle Fd) w l c r w' l' c' :
  accounts_ok l c -> sound_at (identity h) w ->
  Reconcile.set_device_rules v h [] (w, l, c) = (r, (w', l', c')) ->
  accounts_ok l' c' /\ forall i, i <> identity h -> sound_at i w -> sound_at i w'.
Proof.
  intros [Hc Hl] [Hk Hf]. cbn. destruct v.
  - unfold v1_set_device_rules.
    pose proof (restore_shrinks (identity h) {| files := cg_files (identity h) w; ledger := l; v1_trace := [] |}) as Hs.
    destruct (V1Set.set_device_rules _ _ _) as [r1 s1]. intros [= <- <- <- <-]. cbn in Hs. split.
    + split; [done|]. intros i. apply Forall_forall. intros x Hx. specialize (Hl i).
      rewrite Forall_forall in Hl. by apply Hl, Hs.
    + intros i Hi [? ?]. split; [by rewrite cg_kernel_put_files|]. by rewrite cg_files_put, bool_decide_eq_false_2.
  - unfold v2_set_device_rules. destruct (V2.set_rules _ _ _ _ _) as [r1 s1] eqn:E. intros [= <- <- <- <-].
    eapply (pass_result sha256 sha256_32 draws draws_u64) in E as [Hc' _]; [|exact Hk|exact Hc|by split; [|vm_compute]].
    split; [by split|]. intros i Hi [? ?]. split; [by rewrite cg_kernel_put, bool_decide_eq_false_2|].
    by rewrite cg_files_put_kernel.
Qed.

(** What it means that rules are set. On cgroup v2, programs are attached, and each
    wraps one of the runtime's and answers as the last rule that covers a request, or
    is no wrapper when there are no rules. On cgroup v1, each bit of the rules is an
    exception that is effective, and the daemon has no other recorded. *)
Definition enforced (v : CgroupVersion) (i : Identity) (rules : list DeviceRule) (w : W) (l : Ledger) : Prop :=
  match v with
  | CgroupV2 =>
      att (cg_kernel i w) <> [] /\
      forall p, p ∈ att (cg_kernel i w) ->
        exists raw, canonical_bytes (code (cg_kernel i w) p).1 = Ok raw /\ desired sha256 rules raw /\
          forall req b, valid_request req -> rules_verdict rules req = Some b ->
            run_device_filter raw req = Some (if b then 1 else 0)
  | CgroupV1 =>
      exists desired, expand_rules rules = Ok desired /\
        (forall x, x ∈ desired -> covered (exceptions (cg_files i w)) x = true) /\
        forall x, x ∈ owned l i -> x ∈ desired
  end.

Lemma grant_enforced v (h : CgroupHandle Fd) rules w l c w' l' c' :
  accounts_ok l c -> sound_at (identity h) w -> rules_ok rules -> Forall rule_i64 rules ->
  Reconcile.set_device_rules v h rules (w, l, c) = (Ok tt, (w', l', c')) -> enforced v (identity h) rules w' l'.
Proof.
  intros [Hc Hl] [Hk Hf] Hr Hi. cbn. destruct v.
  - unfold v1_set_device_rules. destruct (V1Set.set_device_rules _ _ _) as [r1 s1] eqn:E. intros [= -> <- <- <-].
    eapply call_spec in E as [_ [_ _ _ (desired & Ed & Hrec & Hcov)]]; [|exact Hf|exact (Hl (identity h))|exact Hi].
    exists desired. rewrite cg_files_put, bool_decide_eq_true_2 by done.
    split_and!; [done|done|]. intros x Hx. by apply Hrec.
  - unfold v2_set_device_rules. destruct (V2.set_rules _ _ _ _ _) as [r1 s1] eqn:E. intros [= Ho <- <- <-].
    assert (r1 = Ok tt) as -> by (destruct r1 as [[]|[]]; done).
    eapply (pass_result sha256 sha256_32 draws draws_u64) in E as (_ & _ & _ & Hs & Hd); [|exact Hk|exact Hc|exact Hr].
    cbn [enforced]. rewrite cg_kernel_put, bool_decide_eq_true_2 by done. split; [done|]. intros p Hp.
    destruct (Hd p Hp) as (raw & Ec & Hraw). exists raw. split_and!; [done|done|].
    intros req b Hv Hb. assert (rules <> []) as Hne by (by intros ->). by eapply desired_decides.
Qed.

(** ** A reconcile on the host *)

Context {crate : GlobCrate} {jiff : Jiff} {Pidfd Dirfd Node : Type} {outside : World W Fd Pidfd Dirfd Node}.

(** What happens outside between two calls leaves the kernel well formed. *)
Context (step_sound : forall i w, sound_at i w -> sound_at i (w_step w)).
Context (inspect_sound : forall id i w, sound_at i w -> sound_at i (w_inspect id w).2).
Context (host_root proc_root : string).

Abbreviation PS := (PState (W := W)).

(** The accounts hold, and so do some cgroups. *)
Definition Sound (X : Identity -> Prop) (s : PS) : Prop :=
  accounts_ok (p_ledger s) (p_cache s) /\ forall i, X i -> sound_at i (world s).

Definition stays_sound (s s' : PS) : Prop := forall X, Sound X s -> Sound X s'.

#[local] Instance stays_sound_preorder : PreOrder stays_sound.
Proof. split; [by intros s X|]. intros s1 s2 s3 H12 H23 X HX. by apply H23, H12. Qed.

Lemma query_sound {A} (q : W -> A) : respects stays_sound (query q).
Proof. intros s X [Ha Hw]. split; [done|]. intros i Hi. cbn. by apply step_sound, Hw. Qed.

Lemma inspect_ask_sound id : respects stays_sound (ask (w_inspect id)).
Proof.
  intros s X [Ha Hw]. unfold ask. pose proof (fun i => inspect_sound id i (world s)) as Hi.
  destruct (w_inspect id (world s)) as [a w]. split; [done|]. intros i HX. by apply Hi, Hw.
Qed.

Lemma emit_sound e : respects stays_sound (emit e).
Proof. intros s X [Ha Hw]. by split. Qed.

Lemma history_sound {A} (f : History -> A * History) : respects stays_sound (on_history f).
Proof. intros s X [Ha Hw]. unfold on_history. destruct (f (history s)). by split. Qed.

Lemma forget_sound id : respects stays_sound (forget_identity id).
Proof. intros s X [Ha Hw]. split; [by apply accounts_forget|done]. Qed.

#[local] Hint Resolve query_sound inspect_ask_sound emit_sound history_sound forget_sound : steps.
#[local] Hint Extern 1 (PreOrder _) => apply stays_sound_preorder : steps.

Lemma read_history_sound {A} (f : History -> A) : respects stays_sound (read_history f).
Proof. apply history_sound. Qed.

Lemma update_history_sound f : respects stays_sound (update_history f).
Proof. apply history_sound. Qed.
#[local] Hint Resolve read_history_sound update_history_sound : steps.

Lemma inspect_stays id : respects stays_sound (inspect id).
Proof. unfold inspect. walk_steps. Qed.

Lemma verify_pinned_stays id state p h grants : respects stays_sound (verify_pinned id state p h grants).
Proof. pose proof inspect_stays. unfold verify_pinned, process_alive, cgroup_has_process. walk_steps. Qed.

Lemma compute_desired_stays id info config : respects stays_sound (compute_desired id info config).
Proof. unfold compute_desired, collect_devices. walk_steps. Qed.

Lemma open_recorded_stays record id : respects stays_sound (open_recorded record id).
Proof. unfold open_recorded, open_cgroup. walk_steps. Qed.

Lemma open_recorded_identity record id (s s' : PS) h :
  open_recorded record id s = (Ok (OpenRecorded h), s') -> identity h = id.
Proof.
  unfold open_recorded, open_cgroup. erewrite bind_run by apply query_run.
  destruct (handle_open (path id)) as [x|e].
  - case_bool_decide; [by intros [= <- _]|]. by unfold mbind, PM_bind.
  - destruct (io_not_found e); [|done]. by unfold mbind, PM_bind.
Qed.

(** The revocation at the cgroup a run was in before touches that one only. *)
Lemma revoke_moved_sound record previous (s : PS) X :
  Sound X s -> X (rc_identity previous) ->
  Sound (fun i => X i /\ i <> rc_identity previous) (revoke_moved record previous s).2.
Proof.
  intros HS HX. unfold revoke_moved.
  assert (Hweak : forall s1 : PS, Sound X s1 -> Sound (fun i => X i /\ i <> rc_identity previous) s1).
  { intros s1 [Ha Hw]. split; [done|]. intros i [Hi _]. by apply Hw. }
  pose proof (open_recorded_stays record (rc_identity previous) s X HS) as H1.
  destruct (open_recorded record (rc_identity previous) s) as [r1 s1] eqn:E1. cbn in H1.
  rewrite (try_run _ _ _ _ _ E1). destruct r1 as [opened|e]; [|by apply Hweak].
  destruct opened as [h|why].
  2:{ erewrite try_run by reflexivity. cbn. apply forget_sound, Hweak, H1. }
  apply open_recorded_identity in E1. assert (HXh : X (identity h)) by (by rewrite E1).
  assert (H2 : forall r s2, set_rules (rc_version previous) h [] s1 = (r, s2) ->
    Sound (fun i => X i /\ i <> rc_identity previous) s2).
  { intros r s2 E. unfold set_rules in E. destruct (Reconcile.set_device_rules _ _ _ _) as [r' [[w l] c]] eqn:Es.
    injection E as <- <-. destruct H1 as [Ha Hw].
    destruct (restore_sound _ _ _ _ _ _ _ _ _ Ha (Hw _ HXh) Es) as [Ha' Hw'].
    split; [done|]. intros i [Hi Hne]. cbn. apply Hw'; [congruence|by apply Hw]. }
  destruct (set_rules (rc_version previous) h [] s1) as [r2 s2] eqn:E2. specialize (H2 _ _ eq_refl).
  unfold try. rewrite (bind_run _ _ _ (match r2 with Ok _ => Ok tt | Err e => if negb (is_filter_missing e) then
    Err (RevokeMoved (container_id record) (V2.path (rc_identity previous)) e) else Ok tt end) s2).
  - destruct r2 as [[]|e]; [by apply forget_sound|]. destruct (negb (is_filter_missing e)); [done|by apply forget_sound].
  - rewrite (bind_run _ _ _ _ _ E2). destruct r2 as [[]|e]; [done|]. by destruct (negb (is_filter_missing e)).
Qed.

Lemma leave_previous_sound id state process h (s : PS) :
  Sound (fun _ => True) s -> Sound (eq (identity h)) (leave_previous id state process h s).2.
Proof.
  intros HS. assert (Hweak : forall s1 : PS, Sound (fun _ => True) s1 -> Sound (eq (identity h)) s1).
  { intros s1 [Ha Hw]. split; [done|]. intros i _. by apply Hw. }
  unfold leave_previous. erewrite bind_run by reflexivity. set (s0 := {| world := _; store := _; history := _;
    p_ledger := _; p_cache := _; events := _ |}). assert (HS0 : Sound (fun _ => True) s0) by done. clearbody s0.
  destruct (lookup_run _ _ _) as [record|]; [|by apply Hweak].
  destruct (cgroup record) as [previous|]; [|by apply Hweak]. case_bool_decide as Hne; [by apply Hweak|].
  pose proof (revoke_moved_sound record previous s0 _ HS0 I) as H1.
  destruct (revoke_moved record previous s0) as [r1 s1] eqn:E1. cbn in H1. rewrite (try_run _ _ _ _ _ E1).
  assert (H2 : Sound (eq (identity h)) s1).
  { destruct H1 as [Ha Hw]. split; [done|]. intros i <-. apply Hw. by split. }
  destruct r1 as [[]|e]; [|done]. by apply verify_pinned_stays.
Qed.

Lemma bind_ret {A B} (m : PM (W := W) A) (f : A -> B) (s : PS) : (a ← m; mret (f a)) s = (f (m s).1, (m s).2).
Proof. unfold mbind, PM_bind. by destruct (m s). Qed.

(** Applying the rules ends with an error, or by setting them for the run it recorded. *)
Lemma apply_pinned_ends id state privileged rules (s : PS) :
  Sound (fun _ => True) s ->
  let '(r, s') := apply_pinned host_root proc_root id state privileged rules s in
  (exists e, r = Err e) \/
  exists v h s1, Sound (eq (identity h)) s1 /\ (exists es, events s1 = events s ++ es) /\ r = map_err SetRules (set_rules v h rules s1).1 /\
    s' = (set_rules v h rules s1).2 /\
    exists rec, rec ∈ records (history s1) id /\
      cgroup rec = Some {| rc_identity := identity h; rc_version := v; privileged := privileged |}.
Proof.
  intros HS. unfold apply_pinned. erewrite bind_run by apply query_run.
  destruct (pin (pid state)) as [process|e]; [|left; by eexists].
  erewrite bind_run by apply query_run. cbv zeta.
  destruct (read_proc_cgroup proc_root (pid state)) as [resolved|e]; [|left; by eexists].
  unfold open_cgroup. erewrite bind_run by apply query_run. set (s3 := stepped (stepped (stepped s))).
  destruct (handle_open _) as [h|e]; [|left; by eexists].
  assert (He3 : events s3 = events s) by done.
  assert (HS3 : Sound (fun _ => True) s3) by (destruct HS as [Ha Hw]; split; [done|]; intros i _; by repeat apply step_sound; apply Hw).
  clearbody s3. pose proof (verify_pinned_stays id state process h (non_empty rules) s3 _ HS3) as HS4.
  destruct (verify_pinned_blamed id state process h (non_empty rules) s3) as (es1 & He1 & _).
  destruct (verify_pinned id state process h (non_empty rules) s3) as [r1 s4] eqn:E1. cbn [snd] in HS4, He1.
  rewrite (try_run _ _ _ _ _ E1). destruct r1 as [[]|e]; [|left; by eexists].
  pose proof (leave_previous_sound id state process h _ HS4) as HS5.
  destruct (leave_previous_blamed id state process h s4) as (es2 & He2 & _).
  destruct (leave_previous id state process h s4) as [r2 s5] eqn:E2. cbn [snd] in HS5, He2.
  rewrite (try_run _ _ _ _ _ E2). destruct r2 as [[]|e]; [|left; by eexists].
  do 2 erewrite bind_run by reflexivity. rewrite bind_ret. right. exists (version resolved), h.
  eexists. split_and!; [| |done|done|apply verify_records].
  2:{ exists (es1 ++ es2). cbn. by rewrite He2, He1, He3, app_assoc. }
  destruct HS5 as [Ha Hw]. split; [done|]. intros i Hi. cbn. by apply step_sound, Hw.
Qed.

(** ** Success *)

(** The rules are what the policy grants, or none because it does not apply to the
    container, or because it has no device mounted. *)
Definition policy_desires (config : Runtime) (info : ContainerInspect) (rules : list DeviceRule) : Prop :=
  policy_grants (Node := Node) config info rules \/
  rules = [] /\ forall c, Container_parse (default ∅ (inspect_labels info)) = Ok c ->
    enabled (policy config) c = false \/ existsb is_device_mount (inspect_mounts info) = false.

Lemma compute_desired_desires id info config (s : PS) :
  incomplete (compute_desired id info config s).1 = None ->
  policy_desires config info (desired_rules (compute_desired id info config s).1).
Proof.
  unfold compute_desired, policy_desires. destruct (Container_parse _) as [c|e] eqn:Ec; [|by right].
  destruct (enabled (policy config) c) eqn:Een; cbn [negb]; [|right; split; [done|]; intros c' [= <-]; by left].
  unfold collect_devices. destruct (existsb is_device_mount (inspect_mounts info)); cbn [negb].
  2:{ intros _. right. split; [done|]. intros c' [= <-]. by right. }
  unfold mbind, PM_bind. rewrite query_run. destruct (w_dev (world s)) as [dev|e]; [|done].
  cbn [mret PM_ret]. set (g := (collect_container_rules _ _).1).
  destruct (bool_decide (length (device_errs g) = 0%nat)) eqn:Ez; [|done]. intros _. left. exists c, dev.
  split_and!; [done..|]. apply bool_decide_eq_true_1 in Ez. split; [done|by apply nil_length_inv].
Qed.

(** An error of a controller after which the container is skipped for good. *)
Definition given_up (privileged : bool) (source : Error) : bool :=
  is_filter_missing source && privileged || is_unsupported_attach_mode source.

Lemma classify_given_up id privileged e es :
  classify_apply_error id privileged e = None -> answered_in es e ->
  exists i rules source, SetOn i rules (Err source) ∈ es /\ given_up privileged source = true.
Proof.
  unfold classify_apply_error, given_up. intros Hc Ha.
  destruct (is_cgroup is_filter_missing e) eqn:E1; cbn [andb] in Hc.
  - destruct privileged; [|done]. destruct (Ha _ E1) as (i & rules & source & Hin & Hs).
    exists i, rules, source. by rewrite Hs.
  - destruct (is_cgroup is_unsupported_attach_mode e) eqn:E2; [|by repeat case_match].
    destruct (Ha _ E2) as (i & rules & source & Hin & Hs). exists i, rules, source. by rewrite Hs, orb_true_r.
Qed.

(** C12. From the policy to the kernel. When the reconcile of a running container succeeds
    under a live config, the rules the policy in force desires for it, none when it is
    not to have any, were set last, on the cgroup recorded for its run, and that cgroup
    enforces them: on cgroup v2 programs are attached, every one wraps the runtime's own
    and answers each request that a rule covers as the last such rule, or is no wrapper
    when there are no rules; on cgroup v1 every bit of the rules is an effective
    exception and the daemon has no other recorded. The one exception: a controller
    answered that a privileged container has no filter, or that the runtime's attach
    mode is not supported, after which the container is skipped. The device numbers the
    file system reported are those of devices. *)
Theorem reconcile_enforces id info state (s s' : PS) :
  Sound (fun _ => True) s ->
  (let rules := desired_rules (compute_desired id info (runtime (store s)) s).1 in rules_ok rules /\ Forall rule_i64 rules) ->
  dry_run (runtime (store s)) = false ->
  inspect_state info = Some state -> running state && negb (pid state =? 0) = true ->
  reconcile_locked host_root proc_root id (Ok info) s = (Ok tt, s') ->
  exists es rules, events s' = events s ++ es /\ policy_desires (runtime (store s)) info rules /\
    ((exists i run cg es', es = es' ++ [SetOn i rules (Ok tt)] /\ run ∈ records (history s') id /\
       cgroup run = Some cg /\ rc_identity cg = i /\ enforced (rc_version cg) i rules (world s') (p_ledger s')) \/
     exists i tried source, SetOn i tried (Err source) ∈ es /\
       given_up (default false (inspect_privileged info)) source = true).
Proof.
  intros HS Hok Hdry Est Hrun. unfold reconcile_locked. rewrite load_bind, Est, Hrun, Hdry.
  set (priv := default false (inspect_privileged info)).
  pose proof (compute_desired_desires id info (runtime (store s)) s) as Hdes.
  destruct (compute_desired_run id info (runtime (store s)) s) as (d & s1 & E1 & _ & Hs1 & _).
  pose proof (compute_desired_stays id info (runtime (store s)) s _ HS) as HS1. rewrite E1 in HS1, Hdes, Hok.
  cbn [fst snd] in HS1, Hdes, Hok. rewrite (bind_run _ _ _ _ _ E1), bind_ret.
  pose proof (apply_pinned_ends id state priv (desired_rules d) s1 HS1) as Hends.
  destruct (apply_pinned_blamed host_root proc_root id state priv (desired_rules d) s1) as (es & He & Hblame).
  destruct (apply_pinned host_root proc_root id state priv (desired_rules d) s1) as [r s2]. cbn [fst snd] in *.
  intros Hr. exists es, (desired_rules d). rewrite Hs1 in He.
  destruct r as [[]|e].
  - destruct (incomplete d) eqn:Ei; [done|]. injection Hr as <-. split_and!; [done|by apply Hdes|]. left.
    destruct Hends as [(e & [=])|(v & h & s3 & [Ha Hw] & (es3 & He3) & E & -> & run & Hin & Hcg)].
    unfold set_rules in *. destruct (Reconcile.set_device_rules _ _ _ _) as [r [[w l] c]] eqn:Es. cbn in *.
    destruct r as [[]|e]; [|done]. destruct Hok as [Hro Hri].
    do 3 eexists. exists es3. split_and!; [|exact Hin|exact Hcg|done|].
    + rewrite He3, Hs1, <- app_assoc in He. by apply app_inv_head in He as <-.
    + by eapply grant_enforced; [exact Ha|apply Hw|..|exact Es].
  - destruct (classify_apply_error id priv e) as [e'|] eqn:Ec; [done|]. cbn in Hr.
    destruct (incomplete d) eqn:Ei; [done|]. injection Hr as <-. split_and!; [done|by apply Hdes|].
    right. by eapply classify_given_up.
Qed.

End host.

(** ** A reconcile on the kernels of the tests *)

Module HostExample.

#[local] Existing Instances Sample.little PolicyProofs.PolicyExample.literal_crate LifecycleExample.demo_jiff.

(** The cgroups that were touched; any other has the runtime's program attached, and no
    exceptions. *)
Record HostWorld := {
  kernels : gmap Identity FakeState;
  device_files : gmap Identity ModelFiles;
  process_probe : ReplaceProbe;
  nonces : nat;
}.

Definition no_files : ModelFiles := {| m_entries := []; m_fail := []; m_writes := [] |}.

#[local] Instance host_cgroups : Cgroups HostWorld FakeState ModelFiles := {|
  cg_kernel i w := default (new_fake ["O1"]) (kernels w !! i);
  cg_put_kernel i k p n w :=
    {| kernels := <[i := k]> (kernels w); device_files := device_files w; process_probe := p; nonces := n |};
  cg_probe := process_probe;
  cg_drawn := nonces;
  cg_files i w := default no_files (device_files w !! i);
  cg_put_files i f w :=
    {| kernels := kernels w; device_files := <[i := f]> (device_files w); process_probe := process_probe w;
       nonces := nonces w |};
|}.

#[local] Instance host_laws : CgroupLaws HostWorld FakeState ModelFiles.
Proof.
  split; cbn; try done.
  - intros. case_bool_decide; [subst; by rewrite lookup_insert_eq|by rewrite lookup_insert_ne].
  - intros. case_bool_decide; [subst; by rewrite lookup_insert_eq|by rewrite lookup_insert_ne].
Qed.

#[local] Instance host_world : World HostWorld string Z string (string * NodeKind) := {|
  w_inspect := fun _ w => (Ok ProcessorExample.info_a, w);
  w_canceled := fun _ => false;
  w_now := fun _ => 100;
  w_dirs := fun _ => ProcessorExample.demo_dirs;
  w_procs := fun _ => ProcessorExample.demo_procs;
  w_dev := fun _ => Ok RulesProofs.RulesExample.scripted;
  w_stat := fun _ _ => Ok 77;
  w_step := id;
|}.

Definition fresh : HostWorld := {| kernels := ∅; device_files := ∅; process_probe := REPLACE_UNKNOWN; nonces := 0 |}.

Definition start : PState := initial fresh (ProcessorExample.config false).

Definition rule_a : list DeviceRule := [device_rule RulesProofs.RulesExample.gpu].

#[local] Instance controllers : Controllers HostWorld string := host_controllers Sample.digest Demo.draws.

Definition reconciled : PState :=
  (reconcile_locked "/host" "/" "a" (Ok ProcessorExample.info_a) start).2.

(** The reconcile checks the run and sets the card's rule. *)
Lemma reconciled_events :
  events reconciled = events start ++
    [Inspected "a" (Some ProcessorExample.state_a); Alive 7; Member ProcessorExample.cgroup_a 7] ++
    [SetOn ProcessorExample.cgroup_a rule_a (Ok tt)].
Proof. vm_compute. reflexivity. Qed.

Lemma outcome_ok : (reconcile_locked "/host" "/" "a" (Ok ProcessorExample.info_a) start).1 = Ok tt.
Proof. vm_compute. reflexivity. Qed.

Lemma desired_rule :
  desired_rules (compute_desired "a" ProcessorExample.info_a (runtime (store start)) start).1 = rule_a.
Proof. vm_compute. reflexivity. Qed.

Lemma start_sound : Sound (P := string) Sample.digest (fun _ => True) start.
Proof.
  split; [split; [apply Demo.empty_cache_ok|]|]; intros i; [constructor|]. intros _.
  split; [apply (Demo.fake_one_wf [])|split; constructor].
Qed.

Lemma reconcile_enforces_witness :
  reconcile_locked "/host" "/" "a" (Ok ProcessorExample.info_a) start = (Ok tt, reconciled) /\
  exists es rules, events reconciled = events start ++ es /\
    policy_desires (Node := string * NodeKind) (ProcessorExample.config false) ProcessorExample.info_a rules /\
    ((exists i run cg es', es = es' ++ [SetOn i rules (Ok tt)] /\ run ∈ records (history reconciled) "a" /\
       cgroup run = Some cg /\ rc_identity cg = i /\
       enforced (P := string) Sample.digest (rc_version cg) i rules (world reconciled) (p_ledger reconciled)) \/
     exists i tried source, SetOn i tried (Err source) ∈ es /\ given_up false source = true).
Proof.
  assert (E : reconcile_locked "/host" "/" "a" (Ok ProcessorExample.info_a) start = (Ok tt, reconciled)).
  { unfold reconciled. rewrite <- outcome_ok. by destruct (reconcile_locked _ _ _ _ _). }
  split; [exact E|].
  apply (reconcile_enforces (P := string) (W := HostWorld) (Fd := string) (outside := host_world)
    Sample.digest Sample.digest_ok Demo.draws Demo.draws_u64 (fun i w H => H) (fun id i w H => H) "/host" "/" "a"
    ProcessorExample.info_a ProcessorExample.state_a start reconciled).
  - exact start_sound.
  - rewrite desired_rule. split; [by split; [|vm_compute]|].
    apply Forall_singleton. split; intros m [= <-]; unfold is_i; lia.
  - reflexivity.
  - reflexivity.
  - reflexivity.
  - exact E.
Defined.

End HostExample.
