(* ===== verification/Service.v ===== *)
(** * The daemon and its processor together

    The tasks of src/daemon/mod.rs and src/daemon/coordinator.rs calling the processor
    of src/processor/reconcile.rs: the product of [Daemon] and [Processor], whose steps
    are joined where one calls the other. A hold calls [terminate] and [reconcile] and
    goes on with their answers; the loop calls [sweep]; the main task installs the pass
    requester and waits for the transactions at the end; a publication whose caller
    resumes requests a pass; and who requests a pass for the config in force reads the
    generation first, and may be overtaken before the request.

    A hold is a task of its own, so what it awaits is never dropped; the caller of a
    publication may be. *)

From S2P Require Import Prelude.
From S2P Require Import Text.
From S2P Require Import V2.
From S2P Require Import Ledger.
From S2P Require Import Policy.
From S2P Require Import Rules.
From S2P Require Import Lifecycle.
From S2P Require Import ProcError.
From S2P Require Import Reconcile.
From S2P Require Import RevokeProofs.
From S2P Require Import Processor.
From S2P Require Import Coordinator.
From S2P Require Import CoordinatorProofs.
From S2P Require Import CoordinatorTheorems.
From S2P Require Import Listener.
From S2P Require Import Daemon.

(** [impl Reconciler for Arc<Processor<I>>]. *)
Definition processor_reconciler : Reconciler := {| RError := ProcError; is_gone := is_container_gone |}.
#[global] Existing Instance processor_reconciler.

(** Who reads the generation in force before a request: the startup of [run_with], the
    callback of a reload and the one of a subscription. *)
Inductive Site := AtStart | AtReload | AtSubscribe.

Definition site_label (at_ : Site) (gen : Z) : DaemonLabel :=
  match at_ with
  | AtStart => Main (Generation gen)
  | AtReload => Reloaded gen
  | AtSubscribe => WatcherSubscribed gen
  end.

Definition reads (at_ : Site) (d : Daemon) : bool :=
  match at_ with
  | AtStart => bool_decide (d_phase d = RequestingFirst)
  | AtReload | AtSubscribe => watching d
  end.

Definition error_of (r : result ProcError unit) : option RError :=
  match r with Ok _ => None | Err e => Some e end.

Section service.
Context {crate : GlobCrate} {jiff : Jiff} {nano : JiffNano}.
Context {W Fd Pidfd Dirfd Node : Type} {outside : World W Fd Pidfd Dirfd Node} {controllers : Controllers W Fd}.
Context (host_root proc_root : string).

Abbreviation PS := (PState (W := W)).

(** ** The state *)

(** The call each hold, the main task and the sweep await, by its index; the generations
    read and not requested yet. Then history variables, which no step reads: the state
    each transaction found, the number of calls made before the latest request, and the
    call whose outcome was last settled for each container. *)
Record Service := {
  sv_daemon : Daemon;
  sv_processor : Processor (W := W);
  sv_awaits : gmap nat nat;
  sv_main : option nat;
  sv_sweep : option nat;
  sv_reads : list (Site * Z);
  sv_found : gmap nat PS;
  sv_asked : nat;
  sv_last : gmap string nat;
}.

Definition service_start (since : Z) (w : W) (config : Runtime) : Service :=
  {| sv_daemon := daemon_start since; sv_processor := processor_new w config; sv_awaits := ∅; sv_main := None;
     sv_sweep := None; sv_reads := []; sv_found := ∅; sv_asked := 0; sv_last := ∅ |}.

Definition with_awaits (m : gmap nat nat) (s : Service) : Service :=
  {| sv_daemon := sv_daemon s; sv_processor := sv_processor s; sv_awaits := m; sv_main := sv_main s;
     sv_sweep := sv_sweep s; sv_reads := sv_reads s; sv_found := sv_found s; sv_asked := sv_asked s;
     sv_last := sv_last s |}.
Definition with_waits (main sweep : option nat) (s : Service) : Service :=
  {| sv_daemon := sv_daemon s; sv_processor := sv_processor s; sv_awaits := sv_awaits s; sv_main := main;
     sv_sweep := sweep; sv_reads := sv_reads s; sv_found := sv_found s; sv_asked := sv_asked s;
     sv_last := sv_last s |}.
Definition with_reads (l : list (Site * Z)) (s : Service) : Service :=
  {| sv_daemon := sv_daemon s; sv_processor := sv_processor s; sv_awaits := sv_awaits s; sv_main := sv_main s;
     sv_sweep := sv_sweep s; sv_reads := l; sv_found := sv_found s; sv_asked := sv_asked s;
     sv_last := sv_last s |}.
Definition with_last (m : gmap string nat) (s : Service) : Service :=
  {| sv_daemon := sv_daemon s; sv_processor := sv_processor s; sv_awaits := sv_awaits s; sv_main := sv_main s;
     sv_sweep := sv_sweep s; sv_reads := sv_reads s; sv_found := sv_found s; sv_asked := sv_asked s;
     sv_last := m |}.

Definition config_of (s : Service) : Config := d_config (sv_daemon s).
Definition store_of (s : Service) : Snapshot := store (p_state (sv_processor s)).
Definition calls (s : Service) : list ProcessorCaller := tasks (sv_processor s).

(** A step of the daemon's side. *)
Definition advance (l : DaemonLabel) (s : Service) : option Service :=
  d ← daemon_step l (sv_daemon s);
  Some {| sv_daemon := d; sv_processor := sv_processor s; sv_awaits := sv_awaits s; sv_main := sv_main s;
          sv_sweep := sv_sweep s; sv_reads := sv_reads s; sv_found := sv_found s;
          sv_asked := if requests (d_config d) =? requests (config_of s) then sv_asked s else length (calls s);
          sv_last := sv_last s |}.

(** A step of the processor's side. *)
Definition operate (l : ProcessorLabel) (s : Service) : option Service :=
  p ← processor_step host_root proc_root l (sv_processor s);
  Some {| sv_daemon := sv_daemon s; sv_processor := p; sv_awaits := sv_awaits s; sv_main := sv_main s;
          sv_sweep := sv_sweep s; sv_reads := sv_reads s;
          sv_found := match l with TakesLock i => <[i := p_state (sv_processor s)]> (sv_found s) | _ => sv_found s end;
          sv_asked := sv_asked s; sv_last := sv_last s |}.

(** The answer a caller has. *)
Definition answer_at (i : nat) (s : Service) : option JobAnswer :=
  c ← calls s !! i; match progress c with Answered _ a => Some a | _ => None end.

(** ** The holds *)

(** [self.reconciler.terminate(container_id, event_time).await]. *)
Definition hold_terminates (t : nat) (s : Service) : option Service :=
  h ← holds (config_of s) !! t;
  match h_phase h, h_terminate h, sv_awaits s !! t with
  | Starting, Some event_time, None =>
      s' ← operate (Called (CallTerminate (h_container h) event_time)) s;
      Some (with_awaits (<[t := length (calls s)]> (sv_awaits s')) s')
  | _, _, _ => None
  end.

(** The termination, if there was one, has answered. *)
Definition terminated (t : nat) (h : Hold) (s : Service) : bool :=
  match h_terminate h, sv_awaits s !! t with
  | None, None => true
  | Some _, Some i => bool_decide (is_Some (answer_at i s))
  | _, _ => false
  end.

(** The start of the reconcile: [current], then the call of [process_one]. *)
Definition hold_begins (t : nat) (started : Inspected) (s : Service) : option Service :=
  h ← holds (config_of s) !! t;
  if terminated t h s then
    s' ← advance (Task (LHold t (Begin started))) s;
    if h_reconcile h then
      s'' ← operate (Called (CallReconcile (h_container h))) s';
      Some (with_awaits (<[t := length (calls s)]> (sv_awaits s'')) s'')
    else Some (with_awaits (delete t (sv_awaits s')) s')
  else None.

(** The end of [process_one] and [settle]. *)
Definition hold_answered (t : nat) (now : Z) (s : Service) : option Service :=
  h ← holds (config_of s) !! t;
  i ← sv_awaits s !! t;
  a ← answer_at i s;
  match h_phase h, a with
  | Processing _ _, Processor.Outcome r =>
      s' ← advance (Task (LHold t (Outcome now (error_of r)))) s;
      Some (with_last (<[h_container h := i]> (sv_last s')) (with_awaits (delete t (sv_awaits s')) s'))
  | _, _ => None
  end.

(** ** The loop and the main task *)

(** [run_sweep], in its branch of the select. *)
Definition sweep_begins (s : Service) : option Service :=
  match runner (config_of s), sv_sweep s with
  | Selecting _, None =>
      s' ← operate (Called CallSweep) s; Some (with_waits (sv_main s') (Some (length (calls s))) s')
  | _, _ => None
  end.

Definition sweep_ends (now : Z) (s : Service) : option Service :=
  i ← sv_sweep s;
  _ ← answer_at i s;
  s' ← advance (Task (LSelect BSweep now)) s;
  Some (with_waits (sv_main s') None s').

(** [set_pass_requester]. *)
Definition installs (s : Service) : option Service :=
  match d_phase (sv_daemon s), sv_main s with
  | Installing, None =>
      s' ← operate (Called CallSetRequester) s; Some (with_waits (Some (length (calls s))) (sv_sweep s') s')
  | _, _ => None
  end.

(** [Coordinator::close_and_wait]: the holds have ended, then [Processor::close_and_wait]. *)
Definition closes (s : Service) : option Service :=
  if bool_decide (d_phase (sv_daemon s) = WaitingHolds) && bool_decide (holds (config_of s) = ∅)
  then operate Close s else None.

Definition wait_returns (s : Service) : option Service :=
  if bool_decide (d_phase (sv_daemon s) = WaitingHolds) then s' ← operate WaitReturns s; advance (Main Proceed) s'
  else None.

(** ** The others *)

(** The steps of the daemon that wait for nothing of the processor. *)
Definition free (l : DaemonLabel) (s : Service) : bool :=
  match l with
  | Main (Answer _) | Follow _ _ _ | WatcherEnds | ContextEnds => true
  | Main (Generation _) | Publish _ | Reloaded _ | WatcherSubscribed _ => false
  | Main Proceed =>
      match d_phase (sv_daemon s) with
      | Installing | WaitingHolds => false
      | SpawningRun => match sv_main s with Some i => bool_decide (is_Some (answer_at i s)) | None => false end
      | _ => true
      end
  | Task (LHold _ (Begin _)) | Task (LHold _ (Outcome _ _)) | Task (LSelect BSweep _) => false
  | Task (LSelect _ _) => bool_decide (sv_sweep s = None)
  | Task _ => true
  end.

Definition publication (i : nat) (s : Service) : bool :=
  match calls s !! i with
  | Some c =>
      match progress c with
      | Blocked (Locked (TPublish _)) | Ran (Locked (TPublish _)) _ | Answered (Locked (TPublish _)) _ => true
      | _ => false
      end
  | None => false
  end.

(** The steps of the processor that no task of the daemon makes: publications are called,
    and what was called goes on. *)
Definition processes (l : ProcessorLabel) (s : Service) : bool :=
  match l with
  | Called (CallPublish _) | InspectEnds _ | TakesLock _ | Resumes _ | WorldMoves => true
  | Dropped i => publication i s
  | Called _ | Close | WaitReturns => false
  end.

(** The generation the caller of a publication hands to the pass requester. *)
Definition handed (i : nat) (s : Service) : option Z :=
  c ← calls s !! i; match progress c with Ran _ (Published gen true) => Some gen | _ => None end.

(** [pass_requester] holds the coordinator weakly: it is gone once [run_with] returned. *)
Definition hand_over (i : nat) (s s' : Service) : option Service :=
  match handed i s with
  | Some gen => if bool_decide (d_phase (sv_daemon s) = Finished) then Some s' else advance (Publish gen) s'
  | None => Some s'
  end.

Definition process (l : ProcessorLabel) (s : Service) : option Service :=
  if processes l s then
    s' ← operate l s;
    match l with
    | TakesLock i => if bool_decide (sv_main s = Some i) then advance (Main Proceed) s' else Some s'
    | Resumes i => hand_over i s s'
    | _ => Some s'
    end
  else None.

Definition requests_read (n : nat) (s : Service) : option Service :=
  '(at_, gen) ← sv_reads s !! n;
  s' ← advance (site_label at_ gen) s;
  Some (with_reads (delete n (sv_reads s')) s').

Inductive ServiceLabel :=
  | Tasks (l : DaemonLabel)
  | Process (l : ProcessorLabel)
  | HoldTerminates (t : nat)
  | HoldBegins (t : nat) (started : Inspected)
  | HoldAnswered (t : nat) (now : Z)
  | SweepBegins
  | SweepEnds (now : Z)
  | Installs
  | ReadsGeneration (at_ : Site)
  | RequestsRead (n : nat)
  | Closes
  | WaitEnds.

Definition service_step (l : ServiceLabel) (s : Service) : option Service :=
  match l with
  | Tasks l => if free l s then advance l s else None
  | Process l => process l s
  | HoldTerminates t => hold_terminates t s
  | HoldBegins t started => hold_begins t started s
  | HoldAnswered t now => hold_answered t now s
  | SweepBegins => sweep_begins s
  | SweepEnds now => sweep_ends now s
  | Installs => installs s
  | ReadsGeneration at_ =>
      if reads at_ (sv_daemon s)
      then Some (with_reads (sv_reads s ++ [(at_, Reconcile.generation (store_of s))]) s) else None
  | RequestsRead n => requests_read n s
  | Closes => closes s
  | WaitEnds => wait_returns s
  end.

Fixpoint service_steps (ls : list ServiceLabel) (s : Service) : option Service :=
  match ls with [] => Some s | l :: ls => s' ← service_step l s; service_steps ls s' end.

End service.

#[global] Arguments advance : simpl never.
#[global] Arguments operate : simpl never.
