(* ===== verification/ServiceProofs.v ===== *)
(** * What the daemon and its processor promise together

    The parts of the product run as they do alone, so what holds of each holds in it. A
    request that is announced has reached every container of its list: by a transaction
    of a call made after the request, which found a config at least as new as the one
    the request was for. And once the daemon has returned, no container is touched. *)

From S2P Require Import Prelude.
From S2P Require Import Text.
From S2P Require Import V2.
From S2P Require Import Ledger.
From S2P Require Import Policy.
From S2P Require Import Rules.
From S2P Require Import Lifecycle.
From S2P Require Import ProcError.
From S2P Require Import Reconcile.
From S2P Require Import RevokeProofs.
From S2P Require Import PolicyProofs.
From S2P Require Import LifecycleProofs.
From S2P Require Import Processor.
From S2P Require Import Coordinator.
From S2P Require Import CoordinatorProofs.
From S2P Require Import CoordinatorTheorems.
From S2P Require Import Listener.
From S2P Require Import Daemon.
From S2P Require Import Service.

(** ** Steps of the coordinator that begin and settle nothing *)

Section config.
Context {nano : JiffNano}.

(** No reconcile begins and none is settled; the latest request changes only with a new
    one, and asks for no generation above the bound. *)
Record steady (bound : Z) (g g' : Config) : Prop := {
  sd_outcome : outcome g' = outcome g;
  sd_requests : requests g <= requests g';
  sd_grows : generation (latest (state (co g))) <= generation (latest (state (co g')));
  sd_latest : requests g' = requests g -> latest (state (co g')) = latest (state (co g));
  sd_bound : 0 <= generation (latest (state (co g))) <= bound -> 0 <= generation (latest (state (co g'))) <= bound;
  sd_holds t h key started :
    holds g' !! t = Some h -> h_phase h = Processing key started -> holds g !! t = Some h;
}.

#[global] Instance steady_preorder bound : PreOrder (steady bound).
Proof.
  split; [by intros g; split; auto; lia|]. intros g1 g2 g3 H12 H23. pose proof (sd_requests _ _ _ H12).
  pose proof (sd_requests _ _ _ H23). destruct H12, H23. split; try lia; eauto.
  - congruence.
  - intros E. rewrite sd_latest1 by lia. apply sd_latest0. lia.
Qed.

(** A step that leaves requests, holds and outcomes alone. *)
Lemma steady_same bound g g' :
  outcome g' = outcome g -> requests g' = requests g -> latest (state (co g')) = latest (state (co g)) ->
  holds g' = holds g -> steady bound g g'.
Proof. intros Ho Hr Hl Hh. split; rewrite ?Ho, ?Hr, ?Hl, ?Hh; done || lia. Qed.

(** A step that changes one hold, which is not reconciling after it. *)
Lemma steady_put bound g g' t h :
  outcome g' = outcome g -> requests g' = requests g -> latest (state (co g')) = latest (state (co g)) ->
  holds g' = <[t := h]> (holds g) -> processing (h_phase h) = false -> steady bound g g'.
Proof.
  intros Ho Hr Hl Hh Hp. split; rewrite ?Ho, ?Hr, ?Hl; try (done || lia). intros t' h' key started.
  rewrite Hh. intros [[<- <-]|[_ Ht]]%lookup_insert_Some; [|done]. intros E. by rewrite E in Hp.
Qed.

Lemma steady_reserve bound now id et terminal w owner g got g' :
  reserve_and_hold now id et terminal w owner g = (got, g') -> steady bound g g'.
Proof.
  intros [(_ & _ & ->)|(_ & held & _ & ->)]%reserve_and_hold_spec; [|by apply steady_same].
  by eapply (steady_put _ _ _ (tickets g)).
Qed.

Lemma steady_request bound gen g :
  gen <= bound -> steady bound g (count_request (with_co (request gen (co g)) g)).
Proof. intros Hg. split; cbn; try done; try lia. Qed.

Lemma steady_report bound g : steady bound g (with_state (report_locked (state (co g))) g).
Proof. destruct (report_locked_set (state (co g))) as [k Hk]. apply steady_same; cbn; by rewrite ?Hk. Qed.

Lemma steady_next bound t h now g g' :
  hold_step t h (Next now) g = Some g' -> holds g !! t = Some h -> steady bound g g'.
Proof.
  cbn [hold_step]. destruct (h_phase h) eqn:Ep; try done. intros Hs Ht.
  assert (Hn : latest (state (next now (h_container h) (co g)).2) = latest (state (co g))).
  { unfold next. destruct (in_flight _ !! _); [|done]. destruct (_ || _); [done|]. cbn.
    match goal with |- context [announce_locked ?x] => destruct (announce_locked_set x) as [k ->] end.
    by destruct (bool_decide _). }
  destruct (next now (h_container h) (co g)) as [work c]. cbn in Hn.
  destruct (_ || _); injection Hs as <-; [by eapply (steady_put _ _ _ t)|].
  transitivity (with_holds (delete t (holds g)) (tickets g) (with_co c g)).
  - split; cbn; rewrite ?Hn; try done; try lia. by intros t' h' key started [_ ?]%lookup_delete_Some.
  - unfold hold_ended. destruct (h_owner h), (h_error h); by apply steady_same.
Qed.

(** The steps that begin or settle no reconcile. *)
Definition plain (l : Label) : bool :=
  match l with LHold _ (Begin _) | LHold _ (Outcome _ _) => false | _ => true end.

Definition asks_below (bound : Z) (l : Label) : Prop := match l with LRequest gen => gen <= bound | _ => True end.

Lemma step_steady bound l g g' :
  plain l = true -> asks_below bound l -> step l g = Some g' -> steady bound g g'.
Proof.
  intros Hl Hb. destruct l; cbn [step].
  - intros [= <-]. by apply steady_request.
  - destruct (requesters g); intros; simplify_eq. by apply steady_same.
  - intros [= <-]. by apply steady_same.
  - intros [= <-]. unfold handle_event, terminate_container. destruct (_ || _).
    + destruct (reserve_and_hold _ _ _ _ _ _ _) as [got g1] eqn:E. by eapply steady_reserve.
    + unfold skip_event. destruct (processed _ !! _); by apply steady_same.
  - destruct (callers g !! n) as [[id t]|]; [|done]. intros [= <-].
    destruct (reconcile_container _ _ _ _ _) as [got g1] eqn:E. cbn.
    transitivity (with_callers (delete n (callers g)) (notices g) g); [by apply steady_same|by eapply steady_reserve].
  - destruct (notices g); intros; simplify_eq. by apply steady_same.
  - destruct (notices g); intros; simplify_eq. by apply steady_same.
  - unfold run_head, run_top, take_request. repeat case_match; intros; simplify_eq; by apply steady_same.
  - destruct (runner g); try done. intros [= <-]. unfold list_answer. destruct ids; [by apply steady_same|].
    etrans; [apply steady_report|by apply steady_same].
  - destruct (runner g); try done; intros [= <-].
    + unfold pass_step. destruct rest as [|id rest]; [|by destruct (_ || _); apply steady_same].
      destruct (finish_pass_spec key (co g)) as [k Hk].
      apply steady_same; cbn -[finish_pass]; rewrite ?Hk; by case_bool_decide.
    + unfold pass_reserve. destruct (reconcile_container _ _ _ _ _) as [got g1] eqn:E.
      transitivity (note_visit id g); [by apply steady_same|]. etrans; [by eapply steady_reserve|by apply steady_same].
  - destruct (runner g); try done. unfold select. destruct b; [..|intros [= <-]; by apply steady_same].
    all: case_match; intros; simplify_eq; by apply steady_same.
  - destruct (runner g); try done. intros [= <-]. by apply steady_same.
  - destruct (runner g); try done. intros [= <-]. unfold retry_step. destruct ids as [|id ids].
    + etrans; [apply steady_report|by apply steady_same].
    + destruct (cancelled g); [by apply steady_same|]. destruct (reconcile_container _ _ _ _ _) as [got g1] eqn:E.
      etrans; [by eapply steady_reserve|by apply steady_same].
  - destruct (holds g !! t) as [h|] eqn:E; [|done]. intros Hs. cbn in Hs. destruct i; try done; [|by eapply steady_next].
    cbn [hold_step] in Hs. destruct (h_phase h) eqn:Ep; try done. injection Hs as <-. by eapply (steady_put _ _ _ t).
Qed.

(** ** Steps of the daemon *)

Definition plain_daemon (l : DaemonLabel) : bool := match l with Task l => plain l | _ => true end.

Definition daemon_asks_below (bound : Z) (l : DaemonLabel) : Prop :=
  match l with
  | Main (Generation gen) | Publish gen | Reloaded gen | WatcherSubscribed gen => gen <= bound
  | _ => True
  end.

Lemma coordinate_steady bound l d d' :
  plain l = true -> asks_below bound l -> coordinate l d = Some d' -> steady bound (d_config d) (d_config d').
Proof.
  intros Hl Hb. unfold coordinate. destruct (step l (d_config d)) as [g|] eqn:E; [|done]. intros [= <-].
  by eapply step_steady.
Qed.

Lemma perform_steady bound wall now l g g' : 0 <= bound -> perform wall now l g = Some g' -> steady bound g g'.
Proof.
  intros H0. revert g. induction l as [|a l IH]; intros g; cbn [perform]; [by intros [= ->]|].
  destruct (action_label wall now a) as [x|] eqn:Ea; [|apply IH].
  destruct (step x g) as [g1|] eqn:E; [|done]. intros Hs. etrans; [|by apply IH].
  eapply step_steady; [..|exact E]; destruct a; cbn in Ea; by simplify_eq.
Qed.

Lemma daemon_steady bound l d d' :
  0 <= bound -> plain_daemon l = true -> daemon_asks_below bound l -> daemon_step l d = Some d' ->
  steady bound (d_config d) (d_config d').
Proof.
  intros H0 Hl Hb. destruct l as [i|i wall now|l|gen|gen|gen| |]; cbn [daemon_step].
  - unfold main_step. destruct (d_phase d), i; try done; try (intros; repeat case_match; by simplify_eq).
    destruct (coordinate _ d) as [d1|] eqn:E; [|done]. intros [= <-]. by eapply coordinate_steady in E.
  - unfold follow_step. destruct (d_phase d); try done. destruct (d_listener d); [|done]. destruct (_ && _); [|done].
    destruct (perform _ _ _ _) as [g|] eqn:E; [|done]. intros [= <-]. by eapply perform_steady in E.
  - destruct (may_run l d) eqn:Em; [|done]. unfold may_run in Em. apply andb_true_iff in Em as [Ho _].
    apply coordinate_steady; [done|]. by destruct l.
  - destruct (_ && _); [|done]. by apply coordinate_steady.
  - destruct (watching d); [|done]. intros E. by apply (coordinate_steady bound) in E.
  - destruct (watching d); [|done]. by apply coordinate_steady.
  - destruct (watching d); [|done]. by intros [= <-].
  - by apply coordinate_steady.
Qed.

(** The generation asked for never falls. *)
Definition asked_generation (l : DaemonLabel) : Z :=
  match l with Main (Generation gen) | Publish gen | Reloaded gen | WatcherSubscribed gen => gen | _ => 0 end.

Lemma daemon_grows l d d' :
  daemon_step l d = Some d' -> generation (latest (state (co (d_config d)))) <= generation (latest (state (co (d_config d')))).
Proof.
  intros Hs. destruct (plain_daemon l) eqn:Hl.
  - eapply sd_grows, (daemon_steady (Z.max 0 (asked_generation l))); [lia|done| |exact Hs].
    destruct l as [[]| | | | | | |]; cbn; try done; lia.
  - destruct l as [| |l| | | | |]; try done. cbn in Hs. destruct (may_run _ _); [|done]. unfold coordinate in Hs.
    destruct (step l (d_config d)) as [g|] eqn:E; [|done]. injection Hs as <-. destruct l; try done. cbn in E.
    destruct (holds _ !! t) as [h|]; [|done]. cbn in E.
    destruct i; try done; cbn in E; destruct (h_phase h); try done; injection E as <-; cbn; lia.
Qed.

(** ** Announcements *)

Lemma reserve_announced now id et terminal w owner g :
  announced (state (co (reserve_and_hold now id et terminal w owner g).2)) = announced (state (co g)).
Proof.
  destruct (reserve_and_hold _ _ _ _ _ _ _) as [got g1] eqn:E. cbn.
  by apply reserve_and_hold_spec in E as [(_ & _ & ->)|(_ & held & _ & ->)].
Qed.

Lemma event_announced wall now e g : announced (state (co (handle_event wall now e g))) = announced (state (co g)).
Proof.
  unfold handle_event, terminate_container. destruct (_ || _); [apply reserve_announced|].
  unfold skip_event. by destruct (processed _ !! _).
Qed.

Lemma perform_announced wall now l g g' :
  perform wall now l g = Some g' -> announced (state (co g')) = announced (state (co g)).
Proof.
  revert g. induction l as [|a l IH]; intros g; cbn [perform]; [by intros [= ->]|].
  destruct a as [t| |e]; cbn [action_label]; [apply IH|by intros ->%IH|]. cbn [step mbind option_bind]. intros ->%IH.
  apply event_announced.
Qed.

(** With the loop returned and no hold, there is nothing left to announce it. *)
Lemma returned_announces l g g' :
  step l g = Some g' -> runner g = Returned -> holds g = ∅ -> announced (state (co g')) = announced (state (co g)).
Proof.
  intros Hs Hr Hh. destruct l; cbn [step] in Hs; rewrite ?Hr in Hs; try done.
  - by injection Hs as <-.
  - destruct (requesters g); [done|]. by injection Hs as <-.
  - by injection Hs as <-.
  - injection Hs as <-. apply event_announced.
  - destruct (callers g !! n) as [[id t]|]; [|done]. injection Hs as <-. etrans; [apply reserve_announced|done].
  - destruct (notices g); [done|]. by injection Hs as <-.
  - destruct (notices g); [done|]. by injection Hs as <-.
  - unfold run_head in Hs. by rewrite Hr in Hs.
  - by rewrite Hh, lookup_empty in Hs.
Qed.

(** Only a step of the coordinator's tasks announces. *)
Lemma daemon_announced l d d' :
  daemon_step l d = Some d' -> announced (state (co (d_config d'))) <> announced (state (co (d_config d))) ->
  exists x, l = Task x /\ step x (d_config d) = Some (d_config d').
Proof.
  intros Hs Ha. destruct l as [i|i wall now|l|gen|gen|gen| |]; cbn [daemon_step] in Hs.
  - exfalso. apply Ha. unfold main_step in Hs. destruct (d_phase d), i as [r|gen|]; try done; cbn in Hs.
    all: repeat (case_match; try done); by injection Hs as <-.
  - exfalso. apply Ha. unfold follow_step in Hs. destruct (d_phase d); try done. destruct (d_listener d); [|done].
    destruct (_ && _); [|done]. destruct (perform _ _ _ _) as [g|] eqn:E; [|done]. injection Hs as <-.
    by apply perform_announced in E.
  - exists l. split; [done|]. destruct (may_run l d); [|done]. unfold coordinate in Hs.
    destruct (step l (d_config d)); [|done]. by injection Hs as <-.
  - exfalso. apply Ha. destruct (_ && _); [|done]. by injection Hs as <-.
  - exfalso. apply Ha. destruct (watching d); [|done]. by injection Hs as <-.
  - exfalso. apply Ha. destruct (watching d); [|done]. by injection Hs as <-.
  - exfalso. apply Ha. destruct (watching d); [|done]. by injection Hs as <-.
  - exfalso. apply Ha. by injection Hs as <-.
Qed.

Lemma finished_stays l d d' : daemon_step l d = Some d' -> d_phase d = Finished -> d_phase d' = Finished.
Proof.
  assert (HC : forall x e e', coordinate x e = Some e' -> d_phase e' = d_phase e).
  { intros x e e'. unfold coordinate. destruct (step x (d_config e)); [|done]. by intros [= <-]. }
  intros Hs Hf. destruct l as [i|i wall now|l|gen|gen|gen| |]; cbn [daemon_step] in Hs.
  - unfold main_step in Hs. by rewrite Hf in Hs.
  - unfold follow_step in Hs. by rewrite Hf in Hs.
  - destruct (may_run l d); [|done]. by rewrite (HC _ _ _ Hs).
  - destruct (_ && _); [|done]. by rewrite (HC _ _ _ Hs).
  - destruct (watching d); [|done]. by rewrite (HC _ _ _ Hs).
  - destruct (watching d); [|done]. by rewrite (HC _ _ _ Hs).
  - destruct (watching d); [|done]. by injection Hs as <-.
  - by rewrite (HC _ _ _ Hs).
Qed.

End config.

Section service.
Context {crate : GlobCrate} {jiff : Jiff} {nano : JiffNano}.
Context {W Fd Pidfd Dirfd Node : Type} {outside : World W Fd Pidfd Dirfd Node} {controllers : Controllers W Fd}.
Context (host_root proc_root : string).

Abbreviation PS := (PState (W := W)).
Abbreviation Service := (Service (W := W)).
Abbreviation operate := (operate host_root proc_root).
Abbreviation service_step := (service_step host_root proc_root).
Abbreviation service_steps := (service_steps host_root proc_root).
Abbreviation reconcile_locked := (reconcile_locked (Fd := Fd) (Pidfd := Pidfd) (Dirfd := Dirfd) (Node := Node) host_root proc_root).
Abbreviation governed := (governed (W := W) (Node := Node)).
Abbreviation gen_of s := (Reconcile.generation (store_of s)).

(** ** The parts *)

(** A step of the service is at most one step of each of its parts. *)
Definition projects (s s' : Service) : Prop :=
  (sv_daemon s' = sv_daemon s \/ exists l, daemon_step l (sv_daemon s) = Some (sv_daemon s')) /\
  (sv_processor s' = sv_processor s \/
   exists l, processor_step host_root proc_root l (sv_processor s) = Some (sv_processor s')).

Lemma advance_parts l (s s' : Service) :
  advance l s = Some s' -> daemon_step l (sv_daemon s) = Some (sv_daemon s') /\ sv_processor s' = sv_processor s.
Proof. unfold advance. destruct (daemon_step l (sv_daemon s)); [|done]. by intros [= <-]. Qed.

Lemma operate_parts l (s s' : Service) :
  operate l s = Some s' ->
  processor_step host_root proc_root l (sv_processor s) = Some (sv_processor s') /\ sv_daemon s' = sv_daemon s.
Proof. unfold Service.operate. destruct (processor_step _ _ l (sv_processor s)); [|done]. by intros [= <-]. Qed.

Lemma advance_projects l (s s' : Service) : advance l s = Some s' -> projects s s'.
Proof. intros [Hd Hp]%advance_parts. split; [right; by eexists|by left]. Qed.

Lemma operate_projects l (s s' : Service) : operate l s = Some s' -> projects s s'.
Proof. intros [Hp Hd]%operate_parts. split; [by left|right; by eexists]. Qed.

Lemma operate_advance l l' (s s1 s' : Service) : operate l s = Some s1 -> advance l' s1 = Some s' -> projects s s'.
Proof.
  intros [Hp Hd]%operate_parts [Hd' Hp']%advance_parts. rewrite Hd in Hd'.
  split; right; eexists; [exact Hd'|by rewrite Hp'].
Qed.

Lemma advance_operate l l' (s s1 s' : Service) : advance l s = Some s1 -> operate l' s1 = Some s' -> projects s s'.
Proof.
  intros [Hd Hp]%advance_parts [Hp' Hd']%operate_parts. rewrite Hp in Hp'.
  split; right; eexists; [by rewrite Hd'|exact Hp'].
Qed.

(** ** The forms of a step *)

Inductive formed (s : Service) : Service -> Prop :=
  | f_task l s' : free l s = true -> advance l s = Some s' -> formed s s'
  | f_process l s' :
      processes l s = true -> operate l s = Some s' ->
      (forall i, l = TakesLock i -> sv_main s <> Some i) ->
      (forall i, l = Resumes i -> handed i s = None \/ d_phase (sv_daemon s) = Finished) -> formed s s'
  | f_installed i s1 s' :
      sv_main s = Some i -> operate (TakesLock i) s = Some s1 -> advance (Main Proceed) s1 = Some s' -> formed s s'
  | f_handed i gen s1 s' :
      handed i s = Some gen -> d_phase (sv_daemon s) <> Finished -> operate (Resumes i) s = Some s1 ->
      advance (Publish gen) s1 = Some s' -> formed s s'
  | f_terminates t h e s' :
      holds (config_of s) !! t = Some h -> h_phase h = Starting -> h_terminate h = Some e -> sv_awaits s !! t = None ->
      operate (Called (CallTerminate (h_container h) e)) s = Some s' ->
      formed s (with_awaits (<[t := length (calls s)]> (sv_awaits s')) s')
  | f_begins t h started s1 s' :
      holds (config_of s) !! t = Some h -> terminated t h s = true -> h_reconcile h = true ->
      advance (Task (LHold t (Begin started))) s = Some s1 ->
      operate (Called (CallReconcile (h_container h))) s1 = Some s' ->
      formed s (with_awaits (<[t := length (calls s)]> (sv_awaits s')) s')
  | f_skips t h started s' :
      holds (config_of s) !! t = Some h -> terminated t h s = true -> h_reconcile h = false ->
      advance (Task (LHold t (Begin started))) s = Some s' ->
      formed s (with_awaits (delete t (sv_awaits s')) s')
  | f_answered t h i r now s' :
      holds (config_of s) !! t = Some h -> sv_awaits s !! t = Some i -> answer_at i s = Some (Processor.Outcome r) ->
      processing (h_phase h) = true ->
      advance (Task (LHold t (Outcome now (error_of r)))) s = Some s' ->
      formed s (with_last (<[h_container h := i]> (sv_last s')) (with_awaits (delete t (sv_awaits s')) s'))
  | f_sweep retry s' :
      runner (config_of s) = Selecting retry -> sv_sweep s = None -> operate (Called CallSweep) s = Some s' ->
      formed s (with_waits (sv_main s') (Some (length (calls s))) s')
  | f_swept i now s' :
      sv_sweep s = Some i -> is_Some (answer_at i s) -> advance (Task (LSelect BSweep now)) s = Some s' ->
      formed s (with_waits (sv_main s') None s')
  | f_installs s' :
      d_phase (sv_daemon s) = Installing -> sv_main s = None -> operate (Called CallSetRequester) s = Some s' ->
      formed s (with_waits (Some (length (calls s))) (sv_sweep s') s')
  | f_reads at_ :
      reads at_ (sv_daemon s) = true -> formed s (with_reads (sv_reads s ++ [(at_, gen_of s)]) s)
  | f_requests n at_ gen s' :
      sv_reads s !! n = Some (at_, gen) -> advance (site_label at_ gen) s = Some s' ->
      formed s (with_reads (delete n (sv_reads s')) s')
  | f_closes s' :
      d_phase (sv_daemon s) = WaitingHolds -> holds (config_of s) = ∅ -> operate Close s = Some s' -> formed s s'
  | f_waited s1 s' :
      d_phase (sv_daemon s) = WaitingHolds -> operate WaitReturns s = Some s1 -> advance (Main Proceed) s1 = Some s' ->
      formed s s'.

(** Opens a bind that answered. *)
Ltac bound H :=
  let x := fresh "x" in let E := fresh "E" in apply bind_Some in H as (x & E & H); cbn beta in H.

Lemma process_formed l (s s' : Service) : process host_root proc_root l s = Some s' -> formed s s'.
Proof.
  unfold process. destruct (processes l s) eqn:Ep; [|done]. intros Hs. bound Hs. destruct l.
  3: case_bool_decide; [by eapply f_installed|].
  4: unfold hand_over in Hs; destruct (handed i s) eqn:Eh; [case_bool_decide; [|by eapply f_handed]|].
  all: injection Hs as <-; eapply f_process; eauto; intros ? [=]; subst; auto.
Qed.

Lemma step_formed l (s s' : Service) : service_step l s = Some s' -> formed s s'.
Proof.
  intros Hs. destruct l; cbn [Service.service_step] in Hs.
  - destruct (free l s) eqn:Ef; [|done]. by eapply f_task.
  - by eapply process_formed.
  - unfold hold_terminates in Hs. bound Hs. destruct (h_phase x) eqn:Ep; try done.
    destruct (h_terminate x) eqn:Et; [|done]. destruct (sv_awaits s !! t) eqn:Ea; [done|]. bound Hs.
    injection Hs as <-. by eapply f_terminates.
  - unfold hold_begins in Hs. bound Hs. destruct (terminated t x s) eqn:Et; [|done]. bound Hs.
    destruct (h_reconcile x) eqn:Er; [|injection Hs as <-; by eapply f_skips]. bound Hs.
    injection Hs as <-. by eapply f_begins.
  - unfold hold_answered in Hs. bound Hs. bound Hs. bound Hs. destruct (h_phase x) eqn:Ep; try done.
    destruct x1; try done. bound Hs. injection Hs as <-. eapply f_answered; [done..| |done]. by rewrite Ep.
  - unfold sweep_begins in Hs. destruct (runner _) eqn:Er; try done. destruct (sv_sweep s) eqn:Ew; [done|]. bound Hs.
    injection Hs as <-. by eapply f_sweep.
  - unfold sweep_ends in Hs. bound Hs. bound Hs. bound Hs. injection Hs as <-. by eapply f_swept.
  - unfold installs in Hs. destruct (d_phase _) eqn:Er; try done. destruct (sv_main s) eqn:Ew; [done|]. bound Hs.
    injection Hs as <-. by eapply f_installs.
  - destruct (reads at_ _) eqn:Er; [|done]. injection Hs as <-. by apply f_reads.
  - unfold requests_read in Hs. bound Hs. destruct x as [at_ gen]. bound Hs. injection Hs as <-. by eapply f_requests.
  - unfold closes in Hs. do 2 (case_bool_decide; [|done]). by eapply f_closes.
  - unfold wait_returns in Hs. case_bool_decide; [|done]. bound Hs. by eapply f_waited.
Qed.

Lemma service_projects (s s' : Service) : formed s s' -> projects s s'.
Proof.
  intros [].
  all: match goal with
  | H1 : operate _ _ = Some ?x, H2 : advance _ ?x = Some _ |- _ => exact (operate_advance _ _ _ _ _ H1 H2)
  | H1 : advance _ _ = Some ?x, H2 : operate _ ?x = Some _ |- _ => exact (advance_operate _ _ _ _ _ H1 H2)
  | H : advance _ _ = Some _ |- _ => exact (advance_projects _ _ _ H)
  | H : operate _ _ = Some _ |- _ => exact (operate_projects _ _ _ H)
  | _ => by split; left
  end.
Qed.

(** ** A reconcile and its call *)

(** The call a hold made for the container: what it runs, and once it has run, what it
    found and answered. *)
Definition carries (found : gmap nat PS) (gen : Z) (id : string) (i : nat) (g : Progress) : Prop :=
  match g with
  | Inspecting x => x = id
  | Blocked j => exists r, j = Locked (TReconcile id r)
  | Ran j a | Answered j a =>
      exists r s0, j = Locked (TReconcile id r) /\ found !! i = Some s0 /\
        a = Processor.Outcome (reconcile_locked id r s0).1 /\ gen <= Reconcile.generation (store s0)
  end.

(** The call [i] serves a reconcile that began under [key]. *)
Definition serves (s : Service) (key : PassKey) (id : string) (i : nat) : Prop :=
  (exists c, calls s !! i = Some c /\ carries (sv_found s) (generation key) id i (progress c)) /\
  epoch key <= requests (config_of s) /\
  (epoch key = requests (config_of s) -> (sv_asked s <= i)%nat) /\
  generation key <= gen_of s.

(** The call has answered, and the container was reconciled or is gone. *)
Definition settled_by (s : Service) (i : nat) : Prop :=
  exists r, answer_at i s = Some (Processor.Outcome r) /\ settled (error_of r) = true.

Definition published_below (gen : Z) (g : Progress) : Prop :=
  match g with Ran _ (Published n _) | Answered _ (Published n _) => n <= gen | _ => True end.

(** Each reconcile under way is served by the call its hold awaits, but for the hold [out],
    which is about to call; each outcome that settled was answered by the call noted for
    it; and no request is for a generation that is still to come. *)
Record Linked (out : option nat) (s : Service) : Prop := {
  lk_hold t h key started :
    out <> Some t -> holds (config_of s) !! t = Some h -> h_phase h = Processing key started ->
    exists i, sv_awaits s !! t = Some i /\ serves s key (h_container h) i;
  lk_outcome id key :
    outcome (config_of s) !! id = Some (key, true) ->
    exists i, sv_last s !! id = Some i /\ serves s key id i /\ settled_by s i;
  lk_latest : 0 <= generation (latest (state (co (config_of s)))) <= gen_of s;
  lk_reads : Forall (fun read : Site * Z => read.2 <= gen_of s) (sv_reads s);
  lk_published : Forall (fun c => published_below (gen_of s) (progress c)) (calls s);
  lk_asked : (sv_asked s <= length (calls s))%nat;
  lk_found i s0 : sv_found s !! i = Some s0 -> governed s0 (p_state (sv_processor s));
}.

Lemma Linked_start since w config : Linked None (service_start since w config).
Proof. split; cbn; try done; try lia; intros *; by rewrite ?lookup_empty. Qed.

(** *** Steps of the daemon *)

Lemma serves_advance key id i l (s s' : Service) :
  advance l s = Some s' -> requests (config_of s) <= requests (config_of s') ->
  serves s key id i -> serves s' key id i.
Proof.
  unfold advance. destruct (daemon_step l (sv_daemon s)) as [d|]; [|done]. intros [= <-] Hr (Hc & He & Ha & Hg).
  unfold serves, config_of in *. cbn in *. split_and!; [done|lia| |done]. destruct (Z.eqb_spec (requests (d_config d)) (requests (d_config (sv_daemon s)))) as [E|E]; [by rewrite E|].
  lia.
Qed.

Lemma Linked_advance out l (s s' : Service) :
  plain_daemon l = true -> daemon_asks_below (gen_of s) l -> advance l s = Some s' -> Linked out s -> Linked out s'.
Proof.
  intros Hl Hb Hs []. pose proof (advance_parts _ _ _ Hs) as [Hd Hp].
  pose proof (daemon_steady (gen_of s) l _ _ ltac:(lia) Hl Hb Hd) as [Ho Hr _ _ HB Hh].
  fold (config_of s) (config_of s') in *.
  assert (Hserve : forall key id i, serves s key id i -> serves s' key id i) by (intros; by eapply serves_advance).
  assert (sv_awaits s' = sv_awaits s /\ sv_last s' = sv_last s /\ sv_reads s' = sv_reads s /\ sv_found s' = sv_found s /\
    (sv_asked s' = sv_asked s \/ sv_asked s' = length (calls s))) as (E1 & E2 & E3 & E4 & E5).
  { unfold advance in Hs. rewrite Hd in Hs. injection Hs as <-. split_and!; try done. cbn. case_match; auto. }
  split; unfold store_of, calls, settled_by, answer_at in *; rewrite ?E1, ?E2, ?E3, ?E4, ?Hp; try done.
  - intros t h key started Hn Ht Hk. destruct (lk_hold0 t h key started) as (i & Hi & Hv); eauto.
  - intros id key Hid. rewrite Ho in Hid. destruct (lk_outcome0 id key Hid) as (i & Hi & Hv & Hz). exists i.
    unfold calls. rewrite Hp. eauto.
  - by apply HB.
  - destruct E5 as [-> | ->]; unfold calls; lia.
Qed.

(** *** Steps of the processor *)

Lemma operate_keeps l (s s' : Service) :
  operate l s = Some s' -> sv_awaits s' = sv_awaits s /\ sv_last s' = sv_last s /\ sv_reads s' = sv_reads s /\
    sv_asked s' = sv_asked s /\ governed (p_state (sv_processor s)) (p_state (sv_processor s')) /\
    gen_of s <= gen_of s' /\ config_of s' = config_of s /\ (length (calls s) <= length (calls s'))%nat.
Proof.
  intros Hs. pose proof (operate_parts _ _ _ Hs) as [Hp Hd]. pose proof (governed_step _ _ _ _ _ Hp) as HG.
  assert (forall i, is_Some (calls s !! i) -> is_Some (calls s' !! i)) as Hi.
  { intros i [c Hc]. destruct (call_goes_on _ _ _ _ _ _ _ Hp Hc) as (c' & Hc' & _). by exists c'. }
  unfold config_of. rewrite Hd. unfold Service.operate in Hs. rewrite Hp in Hs. injection Hs as E. rewrite <- E at 1 2 3 4. cbn.
  split_and!; try done; [by destruct HG|]. destruct (decide (length (calls s) <= length (calls s'))%nat); [done|].
  exfalso. destruct (Hi (length (calls s'))) as [c Hc]; [apply lookup_lt_is_Some; lia|].
  apply lookup_lt_Some in Hc. lia.
Qed.

Lemma carries_operate l gen id i (s s' : Service) c :
  operate l s = Some s' -> gen <= gen_of s -> calls s !! i = Some c -> carries (sv_found s) gen id i (progress c) ->
  exists c', calls s' !! i = Some c' /\ carries (sv_found s') gen id i (progress c').
Proof.
  intros Hs Hg Hc Hca. pose proof (operate_parts _ _ _ Hs) as [Hp _].
  destruct (call_goes_on _ _ _ _ _ _ _ Hp Hc) as (c' & Hc' & Hgo). exists c'. split; [done|].
  assert (Hf : sv_found s' = match l with TakesLock i => <[i := p_state (sv_processor s)]> (sv_found s) | _ => sv_found s end).
  { unfold Service.operate in Hs. rewrite Hp in Hs. by injection Hs as <-. }
  assert (Hother : l <> TakesLock i -> sv_found s' !! i = sv_found s !! i).
  { intros Hl. rewrite Hf. destruct l; try done. rewrite lookup_insert_ne; [done|congruence]. }
  destruct Hgo as [g Hl|x r Hl|j ->|j a Hl].
  - destruct g; cbn in Hca |- *; try done; rewrite Hother; done.
  - cbn in Hca |- *. subst x. by eexists.
  - destruct Hca as [r ->]. rewrite Hf. cbn. exists r, (p_state (sv_processor s)). rewrite lookup_insert_eq.
    split_and!; try done. by case_match.
  - cbn in Hca |- *. by rewrite Hother.
Qed.

Lemma serves_operate l key id i (s s' : Service) : operate l s = Some s' -> serves s key id i -> serves s' key id i.
Proof.
  intros Hs ((c & Hc & Hca) & He & Ha & Hg). pose proof (carries_operate _ _ _ _ _ _ _ Hs Hg Hc Hca).
  apply operate_keeps in Hs as (_ & _ & _ & E & _ & Hle & Ec & _). unfold serves. rewrite E, Ec. split_and!; done || lia.
Qed.

Lemma answer_kept l i a (s s' : Service) : operate l s = Some s' -> answer_at i s = Some a -> answer_at i s' = Some a.
Proof.
  intros Hs. pose proof (operate_parts _ _ _ Hs) as [Hp _]. unfold answer_at.
  destruct (calls s !! i) as [c|] eqn:Hc; [|done]. destruct (call_goes_on _ _ _ _ _ _ _ Hp Hc) as (c' & Hc' & Hgo).
  unfold calls. rewrite Hc'. cbn. by destruct Hgo.
Qed.

(** A publication answers the generation it made. *)
Lemma job_published j (p : Processor (W := W)) :
  published_below (Reconcile.generation (store (p_state (job_answer host_root proc_root j p).2)))
    (Ran j (job_answer host_root proc_root j p).1).
Proof.
  destruct j as [[id r|id e| |r]|]; cbn [job_answer]; [| | | |done].
  - by destruct (Reconcile.reconcile_locked _ _ _ _ _).
  - by destruct (terminate_locked _ _ _).
  - by destruct (sweep_locked _).
  - cbn. lia.
Qed.

Lemma published_operate l (s s' : Service) :
  operate l s = Some s' -> Forall (fun c => published_below (gen_of s) (progress c)) (calls s) ->
  Forall (fun c => published_below (gen_of s') (progress c)) (calls s').
Proof.
  intros Hs HP. pose proof (operate_parts _ _ _ Hs) as [Hp _]. pose proof (operate_keeps _ _ _ Hs) as (_ & _ & _ & _ & _ & Hle & _).
  apply Forall_lookup. intros i c' Hc'. destruct (call_before _ _ _ _ _ _ _ Hp Hc') as [[c Hc]|(x & _ & _ & ->)]; [|by destruct x].
  pose proof (Forall_lookup_1 _ _ _ _ HP Hc) as Hb. destruct (call_goes_on _ _ _ _ _ _ _ Hp Hc) as (d & Hd & Hgo).
  unfold calls in Hc'. rewrite Hd in Hc'. injection Hc' as ->.
  assert (Hmono : forall g, published_below (gen_of s) g -> published_below (gen_of s') g).
  { intros g. destruct g as [| |j [| | |]|j [| | |]]; cbn; lia || done. }
  cbn beta in Hb. remember (progress c) as g0 eqn:Eg.
  destruct Hgo as [g Hl|x r Hl|j ->|j a Hl]; [by apply Hmono|done| |by apply (Hmono (Answered j a))].
  pose proof (job_published j (sv_processor s)) as Hj. cbn in Hp. rewrite Hc in Hp. cbn in Hp. rewrite <- Eg in Hp.
  unfold store_of. destruct (job_answer host_root proc_root j (sv_processor s)) as [a p1]. by injection Hp as <-.
Qed.

Lemma Linked_operate out l (s s' : Service) : operate l s = Some s' -> Linked out s -> Linked out s'.
Proof.
  intros Hs []. pose proof (operate_keeps _ _ _ Hs) as (E1 & E2 & E3 & E4 & HG & Hle & Ec & Hlen).
  split; rewrite ?E1, ?E2, ?E3, ?E4, ?Ec.
  - intros t h key started Ho Ht Hk. destruct (lk_hold0 t h key started Ho Ht Hk) as (i & Hi & Hv). exists i.
    split; [done|]. by eapply serves_operate.
  - intros id key Hid. destruct (lk_outcome0 id key Hid) as (i & Hi & Hv & r & Hr & Hz). exists i.
    split_and!; [done|by eapply serves_operate|]. exists r. split; [by eapply answer_kept|done].
  - lia.
  - eapply Forall_impl; [exact lk_reads0|]. cbn. intros. lia.
  - by eapply published_operate.
  - lia.
  - intros i s0. pose proof (operate_parts _ _ _ Hs) as [Hp _]. unfold Service.operate in Hs. rewrite Hp in Hs.
    injection Hs as E. rewrite <- E at 1. cbn. intros Hi.
    assert (sv_found s !! i = Some s0 \/ s0 = p_state (sv_processor s)) as [Hf| ->]; [|etrans; [by eapply lk_found0|done]|done].
    destruct l; auto. apply lookup_insert_Some in Hi as [[_ ->]|[_ ?]]; auto.
Qed.

(** *** Steps of the holds *)

Lemma task_hold t i (s s' : Service) :
  advance (Task (LHold t i)) s = Some s' ->
  exists h, holds (config_of s) !! t = Some h /\ hold_step t h i (config_of s) = Some (config_of s').
Proof.
  intros [Hd _]%advance_parts. cbn [daemon_step] in Hd. destruct (may_run _ _); [|done]. unfold coordinate in Hd.
  destruct (step _ _) as [g|] eqn:E; [|done]. injection Hd as Hd. cbn in E. apply bind_Some in E as (h & Hh & E).
  exists h. split; [done|]. unfold config_of. by rewrite <- Hd.
Qed.

(** A step of a hold, with what it awaits and what it settles put down after it. *)
Lemma Linked_hold out out' l m n (s s' : Service) :
  advance l s = Some s' -> requests (config_of s') = requests (config_of s) ->
  latest (state (co (config_of s'))) = latest (state (co (config_of s))) ->
  (forall t h key started, out' <> Some t -> holds (config_of s') !! t = Some h -> h_phase h = Processing key started ->
    exists i, m !! t = Some i /\ serves s key (h_container h) i) ->
  (forall id key, outcome (config_of s') !! id = Some (key, true) ->
    exists i, n !! id = Some i /\ serves s key id i /\ settled_by s i) ->
  Linked out s -> Linked out' (with_last n (with_awaits m s')).
Proof.
  intros Hs Hr Hl Hh Ho []. pose proof (advance_parts _ _ _ Hs) as [Hd Hp]. unfold advance in Hs. rewrite Hd in Hs.
  injection Hs as E. unfold config_of in *. rewrite <- E in *. cbn in *. rewrite Hr, Z.eqb_refl.
  assert (HS : forall key id i, serves s key id i -> serves (with_last n (with_awaits m {|
    sv_daemon := sv_daemon s'; sv_processor := sv_processor s; sv_awaits := sv_awaits s; sv_main := sv_main s;
    sv_sweep := sv_sweep s; sv_reads := sv_reads s; sv_found := sv_found s; sv_asked := sv_asked s;
    sv_last := sv_last s |})) key id i).
  { intros key id i (Hc & He & Ha & Hg). unfold serves, config_of in *. cbn. by rewrite Hr. }
  split; try done; unfold config_of; cbn; try done.
  - intros t h key started H1 H2 H3. destruct (Hh t h key started H1 H2 H3) as (i & Hi & Hv). eauto.
  - intros id key Hid. destruct (Ho id key Hid) as (i & Hi & Hv & Hz). eauto.
  - by rewrite Hl.
Qed.

Lemma with_last_same (s : Service) : with_last (sv_last s) s = s.
Proof. by destruct s. Qed.

(** A hold begins: [out'] is the hold if a reconcile begins. *)
Lemma Linked_begin out' t h started m (s s' : Service) :
  advance (Task (LHold t (Begin started))) s = Some s' -> holds (config_of s) !! t = Some h ->
  (h_reconcile h = true -> out' = Some t) -> (forall t', t' <> t -> m !! t' = sv_awaits s !! t') ->
  Linked None s -> Linked out' (with_awaits m s').
Proof.
  intros Hs Ht Hout Hm HL. destruct (task_hold _ _ _ _ Hs) as (h' & Hh & Hst). rewrite Ht in Hh. injection Hh as <-.
  assert (sv_last s' = sv_last s) as El.
  { unfold advance in Hs. destruct (daemon_step _ _); [|done]. by injection Hs as <-. }
  rewrite <- (with_last_same (with_awaits m s')). cbn [sv_last with_awaits]. rewrite El.
  cbn [hold_step] in Hst. destruct (h_phase h) eqn:Ep; try done. injection Hst as Hst.
  eapply Linked_hold; [exact Hs|by rewrite <- Hst..| |rewrite <- Hst; apply HL|exact HL].
  intros t' x key i Hne. rewrite <- Hst. cbn. intros [[<- <-]|[Hn Hx]]%lookup_insert_Some Hx'.
  - cbn in Hx'. destruct (h_reconcile h); [|done]. by rewrite Hout in Hne.
  - rewrite Hm by done. by eapply (lk_hold _ _ HL).
Qed.

(** The hold that called is served. *)
Lemma Linked_called t h key started (s s' : Service) :
  holds (config_of s) !! t = Some h -> h_phase h = Processing key started ->
  key = latest (state (co (config_of s))) -> epoch key <= requests (config_of s) ->
  operate (Called (CallReconcile (h_container h))) s = Some s' ->
  Linked (Some t) s -> Linked None (with_awaits (<[t := length (calls s)]> (sv_awaits s')) s').
Proof.
  intros Ht Hp Hk He Hs HL. pose proof (Linked_operate _ _ _ _ Hs HL) as HL'.
  pose proof (operate_keeps _ _ _ Hs) as (E1 & _ & _ & E4 & _ & Hle & Ec & _).
  pose proof (operate_parts _ _ _ Hs) as [Hstep _]. cbn in Hstep.
  assert (serves s' key (h_container h) (length (calls s))) as Hv.
  { split_and!.
    - exists {| progress := Inspecting (h_container h); dropped := false |}. unfold calls. injection Hstep as <-. cbn.
      by rewrite list_lookup_middle.
    - by rewrite Ec.
    - intros _. rewrite E4. apply HL.
    - rewrite Hk. pose proof (lk_latest _ _ HL). lia. }
  destruct HL'. split; try done. intros t' x key' st _ Hx Hx'.
  change (holds (config_of s') !! t' = Some x) in Hx. destruct (decide (t' = t)) as [->|Hne].
  - exists (length (calls s)). cbn. rewrite lookup_insert_eq. split; [done|]. rewrite Ec, Ht in Hx. injection Hx as <-.
    rewrite Hp in Hx'. by injection Hx' as <- <-.
  - cbn. rewrite lookup_insert_ne by done. eapply lk_hold0; [|done..]. congruence.
Qed.

(** A hold begins a reconcile and calls. *)
Lemma Linked_begins t h started (s s1 s' : Service) :
  tagged (config_of s) -> holds (config_of s) !! t = Some h -> h_reconcile h = true ->
  advance (Task (LHold t (Begin started))) s = Some s1 -> operate (Called (CallReconcile (h_container h))) s1 = Some s' ->
  Linked None s -> Linked None (with_awaits (<[t := length (calls s)]> (sv_awaits s')) s').
Proof.
  intros HT Ht Hr Hs Ho HL. destruct (task_hold _ _ _ _ Hs) as (x & Hx & Hst). rewrite Ht in Hx. injection Hx as <-.
  assert (calls s = calls s1) as -> by (unfold calls; by destruct (advance_parts _ _ _ Hs) as [_ ->]).
  cbn [hold_step] in Hst. destruct (h_phase h) eqn:Ep; try done. rewrite Hr in Hst. injection Hst as Hst.
  assert (Linked (Some t) s1) as HL1.
  { replace s1 with (with_awaits (sv_awaits s1) s1) by (by destruct s1). eapply Linked_begin; [exact Hs|exact Ht|done| |exact HL].
    intros t' _. unfold advance in Hs. destruct (daemon_step _ _); [|done]. by injection Hs as <-. }
  eapply (Linked_called t (set_phase (Processing (current (state (co (config_of s)))) started) h)); [..|exact Ho|exact HL1].
  - rewrite <- Hst. apply lookup_insert_eq.
  - done.
  - by rewrite <- Hst.
  - rewrite <- Hst. cbn. pose proof (tg_count _ _ HT). unfold current. rewrite (tg_epoch _ _ HT). by apply Z.mod_le.
Qed.

(** The outcome of a reconcile is settled: the call that served it is noted. *)
Lemma Linked_answered t h i r now (s s' : Service) :
  holds (config_of s) !! t = Some h -> sv_awaits s !! t = Some i -> answer_at i s = Some (Processor.Outcome r) ->
  advance (Task (LHold t (Outcome now (error_of r)))) s = Some s' -> Linked None s ->
  Linked None (with_last (<[h_container h := i]> (sv_last s')) (with_awaits (delete t (sv_awaits s')) s')).
Proof.
  intros Ht Ha Hr Hs HL. destruct (task_hold _ _ _ _ Hs) as (h' & Hh & Hst). rewrite Ht in Hh. injection Hh as <-.
  cbn [hold_step] in Hst. destruct (h_phase h) as [|key started| |] eqn:Ep; try done. injection Hst as Hst.
  assert (sv_last s' = sv_last s /\ sv_awaits s' = sv_awaits s) as [-> ->].
  { unfold advance in Hs. destruct (daemon_step _ _); [|done]. by injection Hs as <-. }
  destruct (lk_hold _ _ HL t h key started) as (i' & Hi' & Hv); [done..|]. rewrite Ha in Hi'. injection Hi' as <-.
  eapply Linked_hold; [exact Hs|by rewrite <- Hst..| | |exact HL]; rewrite <- Hst; cbn.
  - intros t' x k st _ [[<- <-]|[Hn Hx]]%lookup_insert_Some Hx'; [by cbn in Hx'; repeat case_match|].
    rewrite lookup_delete_ne by done. by eapply (lk_hold _ _ HL).
  - intros id k [[<- [= <- Hz]]|[Hn Hk]]%lookup_insert_Some.
    + exists i. rewrite lookup_insert_eq. split_and!; [done..|]. by exists r.
    + rewrite lookup_insert_ne by done. by apply (lk_outcome _ _ HL).
Qed.

Lemma Linked_waits out a b (s : Service) : Linked out s -> Linked out (with_waits a b s).
Proof. intros []. by split. Qed.

Lemma Linked_reads out l (s : Service) :
  Forall (fun read : Site * Z => read.2 <= gen_of s) l -> Linked out s -> Linked out (with_reads l s).
Proof. intros Hl []. by split. Qed.

Lemma free_plain l (s : Service) : free l s = true -> plain_daemon l = true /\ daemon_asks_below (gen_of s) l.
Proof. by destruct l as [[]| |[]| | | | |]. Qed.

Lemma handed_below i gen (s : Service) : Linked None s -> handed i s = Some gen -> gen <= gen_of s.
Proof.
  intros HL. unfold handed. destruct (calls s !! i) as [c|] eqn:Ec; [|done]. cbn.
  pose proof (Forall_lookup_1 _ _ _ _ (lk_published _ _ HL) Ec) as Hb. cbn in Hb.
  destruct (progress c) as [| |j [| |n []|]|]; try done. intros. by simplify_eq.
Qed.

Lemma Linked_step since (s s' : Service) : formed s s' -> DaemonOk since (sv_daemon s) -> Linked None s -> Linked None s'.
Proof.
  intros Hf HD HL. destruct Hf as [l s' Hl Hs|l s' _ Hs _ _|i s1 s' _ Ho Hs|i gen s1 s' Hg _ Ho Hs|t h e s' Ht Hp He Ha Hs|
    t h started s1 s' Ht Htm Hr Hs Ho|t h started s' Ht Htm Hr Hs|t h i r now s' Ht Ha Hr Hp Hs|retry s' _ _ Hs|i now s' _ _ Hs|
    s' _ _ Hs|at_ _|n at_ gen s' Hn Hs|s' _ _ Hs|s1 s' _ Ho Hs].
  - apply free_plain in Hl as [? ?]. by eapply Linked_advance.
  - by eapply Linked_operate.
  - eapply Linked_advance; [..|exact Hs|by eapply Linked_operate]; done.
  - eapply Linked_advance; [..|exact Hs|by eapply Linked_operate]; [done|]. cbn.
    pose proof (handed_below _ _ _ HL Hg). apply operate_keeps in Ho as (_ & _ & _ & _ & _ & Hle & _). lia.
  - pose proof (Linked_operate _ _ _ _ Hs HL) as []. apply operate_keeps in Hs as (E1 & _ & _ & _ & _ & _ & Ec & _).
    split; try done. intros t' x key st _ Hx Hx'. change (holds (config_of s') !! t' = Some x) in Hx.
    destruct (decide (t' = t)) as [->|Hne]; [rewrite Ec in Hx; congruence|]. cbn. rewrite lookup_insert_ne by done.
    by eapply lk_hold0.
  - destruct (reachable_excl _ (ok_reach _ _ HD)) as [_ HT]. by eapply Linked_begins.
  - eapply Linked_begin; [exact Hs|exact Ht|congruence| |exact HL]. intros t' Hne. rewrite lookup_delete_ne by done.
    unfold advance in Hs. destruct (daemon_step _ _); [|done]. by injection Hs as <-.
  - by eapply Linked_answered.
  - by eapply Linked_waits, Linked_operate.
  - eapply Linked_waits, Linked_advance; [..|exact Hs|exact HL]; done.
  - by eapply Linked_waits, Linked_operate.
  - apply Linked_reads; [|done]. apply Forall_app_2; [apply HL|]. apply Forall_singleton. cbn. lia.
  - pose proof (Forall_lookup_1 _ _ _ _ (lk_reads _ _ HL) Hn) as Hb. cbn in Hb.
    assert (Linked None s') as HL' by (eapply Linked_advance; [..|exact Hs|exact HL]; by destruct at_).
    apply Linked_reads; [|done]. apply Forall_delete, HL'.
  - by eapply Linked_operate.
  - eapply Linked_advance; [..|exact Hs|by eapply Linked_operate]; done.
Qed.

(** ** The generations requested *)

(** A generation that was handed over is covered by the latest request. *)
Definition covered (s : Service) : Prop :=
  d_phase (sv_daemon s) = Finished \/
  Forall (fun gen => gen <= generation (latest (state (co (config_of s))))) (requested (sv_processor s)).

Lemma requested_step l (s s' : Service) :
  operate l s = Some s' ->
  requested (sv_processor s') = requested (sv_processor s) \/
  exists i gen, l = Resumes i /\ handed i s = Some gen /\
    requested (sv_processor s') = requested (sv_processor s) ++ [gen].
Proof.
  intros [Hp _]%operate_parts. destruct l as [c|i|i|i|i| | |]; cbn in Hp.
  2-5: destruct (tasks (sv_processor s) !! i) as [c|] eqn:Ei; [|done]; cbn in Hp.
  - by left; injection Hp as <-.
  - left. destruct (progress c), (dropped c); try done. destruct (inspect _ _). by injection Hp as <-.
  - left. destruct (progress c) as [|j| |]; try done.
    pose proof (job_requested host_root proc_root j (sv_processor s)) as Hj.
    destruct (job_answer _ _ j _) as [a p1]. by injection Hp as <-.
  - destruct (progress c) as [| |j a|] eqn:Ep, (dropped c); try done. injection Hp as <-.
    destruct a as [| |gen []|]; try by left. right. exists i, gen. split_and!; [done| |done].
    unfold handed, calls. rewrite Ei. cbn. by rewrite Ep.
  - left. by injection Hp as <-.
  - left. by injection Hp as <-.
  - left. by injection Hp as <-.
  - left. destruct (_ && _); [|done]. by injection Hp as <-.
Qed.

Lemma covered_operate l (s s' : Service) :
  operate l s = Some s' ->
  (forall i, l = Resumes i -> handed i s = None \/ d_phase (sv_daemon s) = Finished) -> covered s -> covered s'.
Proof.
  intros Hs Hl Hc. pose proof (operate_parts _ _ _ Hs) as [_ Hd]. unfold covered, config_of in *. rewrite Hd.
  destruct (requested_step _ _ _ Hs) as [-> |(i & gen & -> & Hh & _)]; [done|].
  destruct (Hl i eq_refl) as [E|E]; [congruence|by left].
Qed.

Lemma covered_advance l (s s' : Service) : advance l s = Some s' -> covered s -> covered s'.
Proof.
  intros [Hd Hp]%advance_parts [Hf|Hc]; [left; by eapply finished_stays|right]. rewrite Hp.
  eapply Forall_impl; [exact Hc|]. cbn. pose proof (daemon_grows _ _ _ Hd). unfold config_of. lia.
Qed.

Lemma covered_handed i gen (s s1 s' : Service) :
  handed i s = Some gen -> operate (Resumes i) s = Some s1 -> advance (Publish gen) s1 = Some s' -> covered s -> covered s'.
Proof.
  intros Hh Ho Ha Hc. pose proof (operate_parts _ _ _ Ho) as [_ Hd]. pose proof (advance_parts _ _ _ Ha) as [Hd' Hp].
  destruct Hc as [Hf|Hc]; [left; eapply finished_stays; [exact Hd'|by rewrite Hd]|right]. rewrite Hp.
  cbn in Hd'. destruct (_ && _); [|done]. injection Hd' as Hd'. unfold config_of in *. rewrite <- Hd', Hd. cbn.
  destruct (requested_step _ _ _ Ho) as [-> |(k & n & [= <-] & Hh' & ->)].
  - eapply Forall_impl; [exact Hc|]. cbn. lia.
  - rewrite Hh in Hh'. injection Hh' as <-. apply Forall_app_2; [|apply Forall_singleton; lia].
    eapply Forall_impl; [exact Hc|]. cbn. lia.
Qed.

Lemma covered_step (s s' : Service) : formed s s' -> covered s -> covered s'.
Proof.
  assert (HO : forall l x y, operate l x = Some y -> (forall i, l <> Resumes i) -> covered x -> covered y).
  { intros l x y Hs Hl. apply (covered_operate l); [done|]. intros i E. by destruct (Hl i). }
  intros Hf Hc. destruct Hf as [l s' Hl Hs|l s' _ Hs _ Hn|i s1 s' _ Ho Hs|i gen s1 s' Hg _ Ho Hs|t h e s' Ht Hp He Ha Hs|
    t h started s1 s' Ht Htm Hr Hs Ho|t h started s' Ht Htm Hr Hs|t h i r now s' Ht Ha Hr Hp Hs|retry s' _ _ Hs|i now s' _ _ Hs|
    s' _ _ Hs|at_ _|n at_ gen s' Hn Hs|s' _ _ Hs|s1 s' _ Ho Hs].
  - by eapply covered_advance.
  - by eapply covered_operate.
  - eapply covered_advance; [exact Hs|]. by eapply HO.
  - by eapply covered_handed.
  - by eapply (HO _ s s').
  - apply (HO _ s1 s' Ho); [done|]. by eapply covered_advance.
  - by eapply (covered_advance _ s s').
  - by eapply (covered_advance _ s s').
  - by eapply (HO _ s s').
  - by eapply (covered_advance _ s s').
  - by eapply (HO _ s s').
  - done.
  - by eapply (covered_advance _ s s').
  - by eapply HO.
  - eapply covered_advance; [exact Hs|]. by eapply HO.
Qed.

(** ** The invariant *)

Record ServiceOk (since : Z) (s : Service) : Prop := {
  so_daemon : DaemonOk since (sv_daemon s);
  so_linked : Linked None s;
  so_covered : covered s;
}.

Lemma ServiceOk_start since w config : ServiceOk since (service_start since w config).
Proof. split; [apply DaemonOk_start|apply Linked_start|]. right. constructor. Qed.

Lemma ServiceOk_step since l (s s' : Service) : service_step l s = Some s' -> ServiceOk since s -> ServiceOk since s'.
Proof.
  intros Hs%step_formed []. split; [|by eapply Linked_step|by eapply covered_step].
  destruct (service_projects _ _ Hs) as [[-> |[x Hx]] _]; [done|]. by eapply DaemonOk_step.
Qed.

Lemma ServiceOk_steps since ls (s s' : Service) : service_steps ls s = Some s' -> ServiceOk since s -> ServiceOk since s'.
Proof.
  revert s. induction ls as [|l ls IH]; intros s; cbn [Service.service_steps]; [by intros [= ->]|].
  destruct (service_step l s) as [s1|] eqn:E; [|done]. intros Hs HO. eapply IH; [exact Hs|]. by eapply ServiceOk_step.
Qed.

(** ** Theorems *)

Lemma daemon_steps_snoc ds l (d d1 : Daemon) :
  daemon_steps ds d = Some d1 -> daemon_steps (ds ++ [l]) d = daemon_step l d1.
Proof.
  revert d. induction ds as [|x ds IH]; intros d; cbn; [intros [= ->]; by destruct (daemon_step l d1)|].
  destruct (daemon_step x d); [apply IH|done].
Qed.

Lemma processor_steps_snoc ps l (p p1 : Processor (W := W)) :
  processor_steps host_root proc_root ps p = Some p1 ->
  processor_steps host_root proc_root (ps ++ [l]) p = processor_step host_root proc_root l p1.
Proof.
  revert p. induction ps as [|x ps IH]; intros p; cbn -[processor_step];
    [intros [= ->]; by destruct (processor_step _ _ l p1)|].
  destruct (processor_step _ _ x p); [apply IH|done].
Qed.

Lemma refines_from (d : Daemon) (p : Processor (W := W)) ls (s s' : Service) :
  service_steps ls s = Some s' ->
  (exists ds, daemon_steps ds d = Some (sv_daemon s)) ->
  (exists ps, processor_steps host_root proc_root ps p = Some (sv_processor s)) ->
  (exists ds, daemon_steps ds d = Some (sv_daemon s')) /\
  (exists ps, processor_steps host_root proc_root ps p = Some (sv_processor s')).
Proof.
  revert s. induction ls as [|l ls IH]; intros s; cbn [Service.service_steps]; [by intros [= ->]|].
  destruct (service_step l s) as [s1|] eqn:E; [|done]. intros Hs [ds Hd] [ps Hp].
  destruct (service_projects _ _ (step_formed _ _ _ E)) as [HD HP]. apply (IH s1 Hs).
  - destruct HD as [-> |[x Hx]]; [by exists ds|]. exists (ds ++ [x]). by rewrite (daemon_steps_snoc _ _ _ _ Hd).
  - destruct HP as [-> |[x Hx]]; [by exists ps|]. exists (ps ++ [x]). by rewrite (processor_steps_snoc _ _ _ _ Hp).
Qed.

(** The product is made of its parts: however the tasks of the daemon and the calls of
    the processor interleave, the daemon goes through a run of the daemon and the
    processor through a run of the processor, so that what holds of each holds in it. *)
Theorem service_refines since w config ls (s : Service) :
  service_steps ls (service_start since w config) = Some s ->
  (exists ds, daemon_steps ds (daemon_start since) = Some (sv_daemon s)) /\
  (exists ps, processor_steps host_root proc_root ps (processor_new w config) = Some (sv_processor s)).
Proof.
  intros Hs. apply (refines_from _ _ _ _ _ Hs); [by exists []|by exists []].
Qed.

(** C6. What is announced has reached every container: at the step that announces a
    request, each container of its list was last reconciled by a call made after the
    request, whose transaction found a config of at least the generation requested and
    answered that it is done, or that the container is gone; and that config is the one
    in force now if none was published since. Every generation that was handed over to
    the coordinator is at most the one announced. *)
Theorem announced_reaches_all since w config ls l (s s' : Service) :
  service_steps ls (service_start since w config) = Some s -> service_step l s = Some s' ->
  requests (config_of s') < 2 ^ 64 ->
  announced (state (co (config_of s'))) <> announced (state (co (config_of s))) ->
  let key := announced (state (co (config_of s'))) in
  Forall (fun gen => gen <= generation key) (requested (sv_processor s')) /\
  forall id, id ∈ listed (config_of s') ->
    exists i c inspected found, let answer := (reconcile_locked id inspected found).1 in
      sv_last s' !! id = Some i /\ (sv_asked s' <= i)%nat /\
      calls s' !! i = Some c /\ sv_found s' !! i = Some found /\
      progress c = Answered (Locked (TReconcile id inspected)) (Processor.Outcome answer) /\
      (answer = Ok tt \/ exists e, answer = Err e /\ is_container_gone e = true) /\
      generation key <= Reconcile.generation (store found) <= gen_of s' /\
      (Reconcile.generation (store found) = gen_of s' -> store found = store_of s').
Proof.
  intros Hls Hs Hn Ha. pose proof (ServiceOk_steps since ls _ s Hls (ServiceOk_start since w config)) as HO.
  pose proof (ServiceOk_step since l s s' Hs HO) as [HD' HL' HC'].
  destruct (service_projects _ _ (step_formed _ _ _ Hs)) as [[E|[x Hx]] _]; [unfold config_of in Ha; by rewrite E in Ha|].
  destruct (daemon_announced _ _ _ Hx Ha) as (y & -> & Hy).
  destruct (announced_all_settled _ _ _ (ok_reach _ _ (so_daemon _ _ HO)) Hy Hn Ha) as (Hk & _ & Hall).
  cbv zeta. unfold config_of in *. rewrite Hk. split.
  - destruct HC' as [Hf|HC]; [|exact HC]. exfalso. apply Ha. pose proof (so_daemon _ _ HO) as HD.
    assert (d_phase (sv_daemon s) = Finished) as Hf'.
    { cbn in Hx. destruct (may_run _ _); [|done]. unfold coordinate in Hx. rewrite Hy in Hx. cbn in Hx.
      injection Hx as Hx. by rewrite <- Hx in Hf. }
    destruct (ok_returned _ _ HD) as [Hr _]; [by rewrite Hf'; cbn; lia|].
    by eapply (returned_announces y); [..|apply (ok_finished _ _ HD)].
  - intros id Hid. destruct (lk_outcome _ _ HL' id _ (Hall id Hid)) as (i & Hi & Hv & r & Hr & Hz).
    destruct Hv as ((c & Hc & Hca) & _ & Hasked & _). unfold answer_at in Hr. rewrite Hc in Hr. cbn in Hr.
    destruct (progress c) as [| | |j a] eqn:Ep; try done. injection Hr as ->.
    destruct Hca as (inspected & found & -> & Hf & [= ->] & Hg). exists i, c, inspected, found. cbv zeta.
    destruct (lk_found _ _ HL' i found Hf) as [Hle Hsame]. split_and!; try done.
    + apply Hasked. pose proof (ok_reach _ _ HD') as [_ HT]%reachable_excl. unfold config_of. rewrite (tg_epoch _ _ HT).
      apply Z.mod_small. pose proof (tg_count _ _ HT). lia.
    + destruct ((reconcile_locked id inspected found).1) as [[]|e]; [by left|right]. by exists e.
    + intros E. symmetry. by apply Hsame.
Qed.

End service.

(** ** A config published during the startup pass *)

Module ServiceExample.

Import RevokeProofs.ProcessorExample.

#[local] Existing Instances PolicyProofs.PolicyExample.literal_crate LifecycleExample.demo_jiff demo_world
  demo_controllers DaemonExample.jiff.

Definition at_five : Inspected := {| insp_at := 5; insp_monotonic := 5 |}.

(** The startup pass inspects its container under the first config; dry-run is published
    before the transaction gets the lock, and the pass it requests visits the container
    again. *)
Definition startup : list ServiceLabel :=
  [Tasks (Main (Answer (Ok Open))); Installs; Process (TakesLock 0); Process (Resumes 0); Tasks (Main Proceed);
   Tasks (Main Proceed); ReadsGeneration AtStart; RequestsRead 0; Tasks (Task LNotify); Tasks (Task (LTop 0));
   Tasks (Task (LList 0 (Some ["a"]))); Tasks (Task (LPass 0)); Tasks (Task (LPass 0)); HoldBegins 0 at_five;
   Process (InspectEnds 1); Process (Called (CallPublish (config true))); Process (TakesLock 2); Process (TakesLock 1);
   Process (Resumes 1); HoldAnswered 0 6; Tasks (Task (LHold 0 Mark)); Process (Resumes 2);
   Tasks (Task (LHold 0 (Next 8))); Tasks (Task (LPass 9))].

Definition second_pass : list ServiceLabel :=
  [Tasks (Task LNotify); Tasks (Task (LTop 10)); Tasks (Task (LList 10 (Some ["a"]))); Tasks (Task (LPass 10));
   Tasks (Task (LPass 10)); HoldBegins 1 at_five; Process (InspectEnds 3); Process (TakesLock 3); Process (Resumes 3);
   HoldAnswered 1 11; Tasks (Task (LHold 1 Mark)); Tasks (Task (LHold 1 (Next 12)))].

Definition start : Service := service_start 0 tt (config false).

Definition after (ls : list ServiceLabel) : Service := default start (service_steps "/host" "/" ls start).

Definition runs (ls : list ServiceLabel) : bool :=
  match service_steps "/host" "/" ls start with Some _ => true | None => false end.

Lemma run_after ls : runs ls = true -> service_steps "/host" "/" ls start = Some (after ls).
Proof. unfold runs, after. by destruct (service_steps _ _ ls start). Qed.

Lemma step_after ls l : runs (ls ++ [l]) = true ->
  service_steps "/host" "/" ls start = Some (after ls) /\ service_step "/host" "/" l (after ls) = Some (after (ls ++ [l])).
Proof.
  assert (HS : forall s, service_steps "/host" "/" (ls ++ [l]) s =
    s' ← service_steps "/host" "/" ls s; service_step "/host" "/" l s').
  { induction ls as [|x ls IH]; intros s; cbn -[service_step]; [by destruct (service_step _ _ l s)|].
    destruct (service_step _ _ x s); [apply IH|done]. }
  unfold runs, after. rewrite HS. destruct (service_steps _ _ ls start) as [s|]; [|done]. cbn -[service_step].
  by destruct (service_step _ _ l s).
Qed.

Definition announcing : ServiceLabel := Tasks (Task (LPass 13)).

Definition passed : list ServiceLabel := startup ++ second_pass.

Lemma announced_reaches_all_witness :
  listed (config_of (after (passed ++ [announcing]))) = ["a"] /\
  Forall (fun gen => gen <= 2) (requested (sv_processor (after (passed ++ [announcing])))) /\
  exists i, sv_last (after (passed ++ [announcing])) !! "a" = Some i /\
    (sv_asked (after (passed ++ [announcing])) <= i)%nat.
Proof.
  assert (El : listed (config_of (after (passed ++ [announcing]))) = ["a"]) by (vm_compute; reflexivity).
  split; [exact El|].
  assert (Hruns : runs (passed ++ [announcing]) = true) by (vm_compute; reflexivity).
  destruct (step_after passed announcing Hruns) as [H1 H2].
  destruct (announced_reaches_all "/host" "/" 0 tt (config false) passed announcing (after passed)
    (after (passed ++ [announcing]))) as [HF HA].
  - exact H1.
  - exact H2.
  - vm_compute. reflexivity.
  - vm_compute. discriminate.
  - split; [exact HF|]. destruct (HA "a") as (i & c & inspected & found & Hi & Hl & _); [rewrite El; left|].
    exists i. split; [exact Hi|exact Hl].
Defined.

End ServiceExample.
