(* ===== verification/ServiceStop.v ===== *)
(** * Nothing is left running

    Every call of the processor that has not answered is awaited by a hold, by the sweep
    or by the main task, or is a publication. So once [run_with] has returned, no
    transaction that touches a container is under way or still to come, and the requester
    a publication finds is the one of a daemon that runs. *)

From S2P Require Import Prelude.
From S2P Require Import Text.
From S2P Require Import V2.
From S2P Require Import Ledger.
From S2P Require Import Policy.
From S2P Require Import Rules.
From S2P Require Import Lifecycle.
From S2P Require Import ProcError.
From S2P Require Import Reconcile.
From S2P Require Import RevokeProofs.
From S2P Require Import PolicyProofs.
From S2P Require Import LifecycleProofs.
From S2P Require Import Processor.
From S2P Require Import Coordinator.
From S2P Require Import CoordinatorProofs.
From S2P Require Import CoordinatorTheorems.
From S2P Require Import Listener.
From S2P Require Import Daemon.
From S2P Require Import Service.
From S2P Require Import ServiceProofs.

(** ** What steps of the daemon keep *)

Section config.
Context {nano : JiffNano}.

(** The hold awaits a call, or is about to make one. *)
Definition active (p : Phase) : bool := match p with Starting | Processing _ _ => true | _ => false end.

(** The holds at work stay, and the loop stays in its select. *)
Record undisturbed (g g' : Config) : Prop := {
  ud_holds t h : holds g !! t = Some h -> active (h_phase h) = true -> holds g' !! t = Some h;
  ud_runner r : runner g = Selecting r -> runner g' = Selecting r;
}.

#[global] Instance undisturbed_preorder : PreOrder undisturbed.
Proof. split; [done|]. intros g1 g2 g3 [] []. split; eauto. Qed.

Lemma undisturbed_same g g' : holds g' = holds g -> runner g' = runner g -> undisturbed g g'.
Proof. intros Hh Hr. split; by rewrite ?Hh, ?Hr. Qed.

(** A step of the loop, which was not in its select. *)
Lemma undisturbed_loop g g' : holds g' = holds g -> (forall r, runner g <> Selecting r) -> undisturbed g g'.
Proof. intros Hh Hr. split; [by rewrite Hh|]. intros r E. by destruct (Hr r). Qed.

Lemma undisturbed_reserve now id et terminal w owner g got g' :
  reserve_and_hold now id et terminal w owner g = (got, g') -> excl g -> undisturbed g g'.
Proof.
  intros [(_ & _ & ->)|(_ & held & _ & ->)]%reserve_and_hold_spec HE; [|by apply undisturbed_same].
  split; [|done]. cbn. intros t h Ht _. rewrite lookup_insert_ne; [done|]. intros <-.
  apply (ex_ticket _ _ _ HE) in Ht. lia.
Qed.

(** Another hold changes. *)
Lemma undisturbed_put g g' t h m :
  holds g !! t = Some h -> active (h_phase h) = false -> (forall t', t' <> t -> m !! t' = holds g !! t') ->
  holds g' = m -> (forall r, runner g = Selecting r -> runner g' = Selecting r) -> undisturbed g g'.
Proof.
  intros Ht Ha Hm Hh Hr. split; [|done]. intros t' x Hx Hx'. rewrite Hh, Hm; [done|]. congruence.
Qed.

Lemma undisturbed_hold t h i g g' :
  holds g !! t = Some h -> active (h_phase h) = false -> hold_step t h i g = Some g' -> undisturbed g g'.
Proof.
  intros Ht Ha Hs. assert (HP : forall x, forall t', t' <> t -> <[t := x]> (holds g) !! t' = holds g !! t')
    by (intros; by rewrite lookup_insert_ne).
  destruct i as [| | |now], (h_phase h) eqn:Ep; try done; cbn [hold_step] in Hs; rewrite Ep in Hs; try done.
  - injection Hs as <-. eapply undisturbed_put; [exact Ht|by rewrite Ep|apply HP|done|done].
  - destruct (next _ _ _) as [work c]. destruct (_ || _); injection Hs as <-.
    + eapply undisturbed_put; [exact Ht|by rewrite Ep|apply HP|done|done].
    + eapply (undisturbed_put _ _ t h (delete t (holds g))); [exact Ht|by rewrite Ep| | |].
      * intros. by rewrite lookup_delete_ne.
      * unfold hold_ended. by destruct (h_owner h), (h_error h).
      * intros r Hr. unfold hold_ended. destruct (h_owner h), (h_error h); cbn; by rewrite ?Hr.
Qed.

(** The steps that leave the select to the loop. *)
Definition outside_select (l : Label) : bool := match l with LSelect _ _ => false | _ => plain l end.

Lemma step_undisturbed l g g' : outside_select l = true -> excl g -> step l g = Some g' -> undisturbed g g'.
Proof.
  intros Hl HE. destruct l; try done; cbn [step].
  - intros [= <-]. by apply undisturbed_same.
  - destruct (requesters g); intros; simplify_eq. by apply undisturbed_same.
  - intros [= <-]. by apply undisturbed_same.
  - intros [= <-]. unfold handle_event, terminate_container. destruct (_ || _).
    + destruct (reserve_and_hold _ _ _ _ _ _ _) as [got g1] eqn:E. by eapply undisturbed_reserve.
    + unfold skip_event. destruct (processed _ !! _); by apply undisturbed_same.
  - destruct (callers g !! n) as [[id t]|]; [|done]. intros [= <-].
    destruct (reconcile_container _ _ _ _ _) as [got g1] eqn:E. cbn.
    transitivity (with_callers (delete n (callers g)) (notices g) g); [by apply undisturbed_same|].
    by eapply undisturbed_reserve.
  - destruct (notices g); intros; simplify_eq. by apply undisturbed_same.
  - destruct (notices g); intros; simplify_eq. by apply undisturbed_same.
  - unfold run_head, run_top, take_request. destruct (runner g) eqn:Er; try done.
    all: repeat case_match; intros; simplify_eq; apply undisturbed_loop; first [done|congruence].
  - destruct (runner g) eqn:Er; try done. intros [= <-]. unfold list_answer.
    destruct ids; apply undisturbed_loop; done || congruence.
  - destruct (runner g) eqn:Er; try done; intros [= <-].
    + unfold pass_step. destruct rest; [|destruct (_ || _)]; apply undisturbed_loop; done || congruence.
    + unfold pass_reserve. destruct (reconcile_container _ _ _ _ _) as [got g1] eqn:E.
      pose proof (undisturbed_reserve _ _ _ _ _ _ _ _ _ E HE) as [Hh _]. split; [exact Hh|congruence].
  - destruct (runner g) eqn:Er; try done. intros [= <-]. apply undisturbed_loop; done || congruence.
  - destruct (runner g) eqn:Er; try done. intros [= <-]. unfold retry_step. destruct ids as [|id ids].
    + apply undisturbed_loop; done || congruence.
    + destruct (cancelled g); [apply undisturbed_loop; done || congruence|].
      destruct (reconcile_container _ _ _ _ _) as [got g1] eqn:E.
      pose proof (undisturbed_reserve _ _ _ _ _ _ _ _ _ E HE) as [Hh _]. split; [exact Hh|congruence].
  - destruct (holds g !! t) as [h|] eqn:E; [|done]. intros Hs. eapply undisturbed_hold; [exact E| |exact Hs].
    destruct i; try done; cbn [hold_step mbind option_bind] in Hs; by destruct (h_phase h).
Qed.

Lemma perform_undisturbed wall now l g g' : reachable g -> perform wall now l g = Some g' -> undisturbed g g'.
Proof.
  revert g. induction l as [|a l IH]; intros g Hg; cbn [perform]; [by intros [= ->]|].
  destruct (action_label wall now a) as [x|] eqn:Ea; [|by apply IH].
  destruct (step x g) as [g1|] eqn:E; [|done]. intros Hs. etrans; [|eapply IH; [by eapply reach_step|exact Hs]].
  eapply step_undisturbed; [|by apply reachable_excl|exact E]. destruct a; cbn in Ea; by simplify_eq.
Qed.

Definition outside_select_daemon (l : DaemonLabel) : bool := match l with Task l => outside_select l | _ => true end.

Lemma coordinate_undisturbed l d d' :
  outside_select l = true -> reachable (d_config d) -> coordinate l d = Some d' ->
  undisturbed (d_config d) (d_config d') /\ d_phase d' = d_phase d.
Proof.
  intros Hl Hr. unfold coordinate. destruct (step l (d_config d)) as [g|] eqn:E; [|done]. intros [= <-].
  split; [|done]. eapply step_undisturbed; [exact Hl|by apply reachable_excl|exact E].
Qed.

Lemma daemon_undisturbed l d d' :
  outside_select_daemon l = true -> reachable (d_config d) -> daemon_step l d = Some d' ->
  undisturbed (d_config d) (d_config d') /\ ((forall i, l <> Main i) -> d_phase d' = d_phase d).
Proof.
  intros Hl Hr. assert (HC : forall x e e', outside_select x = true -> reachable (d_config e) -> coordinate x e = Some e' ->
    undisturbed (d_config e) (d_config e') /\ ((forall i, l <> Main i) -> d_phase e' = d_phase e)).
  { intros x e e' Hx He Hs. by destruct (coordinate_undisturbed _ _ _ Hx He Hs). }
  destruct l as [i|i wall now|l|gen|gen|gen| |]; cbn [daemon_step].
  - intros Hs. split; [|by intros []%(fun H => H i)]. unfold main_step in Hs.
    destruct (d_phase d), i; try done; try (repeat (case_match; try done); by injection Hs as <-).
  - unfold follow_step. destruct (d_phase d) eqn:Ep; try done. destruct (d_listener d); [|done]. destruct (_ && _); [|done].
    destruct (perform _ _ _ _) as [g|] eqn:E; [|done]. intros [= <-]. split; [by eapply perform_undisturbed|done].
  - destruct (may_run l d); [|done]. by apply HC.
  - destruct (_ && _); [|done]. by apply HC.
  - destruct (watching d); [|done]. intros Hs. exact (HC (LRequest gen) (count_reapply d) _ eq_refl Hr Hs).
  - destruct (watching d); [|done]. by apply HC.
  - destruct (watching d); [|done]. by intros [= <-].
  - by apply HC.
Qed.

End config.

Section stop.
Context {crate : GlobCrate} {jiff : Jiff} {nano : JiffNano}.
Context {W Fd Pidfd Dirfd Node : Type} {outside : World W Fd Pidfd Dirfd Node} {controllers : Controllers W Fd}.
Context (host_root proc_root : string).

Abbreviation Service := (Service (W := W)).
Abbreviation operate := (operate host_root proc_root).
Abbreviation formed := (formed host_root proc_root).
Abbreviation service_step := (service_step host_root proc_root).
Abbreviation service_steps := (service_steps host_root proc_root).

(** ** Who awaits a call *)

(** A hold at work awaits the call. *)
Definition held (g : Config) (awaits : gmap nat nat) (i : nat) : Prop :=
  exists t h, holds g !! t = Some h /\ active (h_phase h) = true /\ awaits !! t = Some i.

(** Who awaits a call that is at [p]; the install moves the main task when it runs. *)
Definition awaited (d : Daemon) (awaits : gmap nat nat) (main sweep : option nat) (i : nat) (p : Progress) : Prop :=
  match p with
  | Inspecting _ => held (d_config d) awaits i
  | Blocked (Locked (TReconcile _ _ | TTerminate _ _)) | Ran (Locked (TReconcile _ _ | TTerminate _ _)) _ =>
      held (d_config d) awaits i
  | Blocked (Locked TSweep) | Ran (Locked TSweep) _ => sweep = Some i
  | Blocked InstallRequester => main = Some i /\ d_phase d = Installing
  | Ran InstallRequester _ => main = Some i /\ d_phase d = SpawningRun
  | Blocked (Locked (TPublish _)) | Ran (Locked (TPublish _)) _ | Answered _ _ => True
  end.

Definition installing (p : Progress) : bool :=
  match p with Blocked InstallRequester | Ran InstallRequester _ | Answered InstallRequester _ => true | _ => false end.

Record Awaited (s : Service) : Prop := {
  aw_calls i c :
    calls s !! i = Some c -> awaited (sv_daemon s) (sv_awaits s) (sv_main s) (sv_sweep s) i (progress c);
  aw_sweep i : sv_sweep s = Some i -> exists r, runner (config_of s) = Selecting r;
  aw_main i : sv_main s = Some i -> exists c, calls s !! i = Some c /\ installing (progress c) = true;
}.

(** What awaits a call keeps awaiting it, if it is open. *)
Lemma awaited_kept d d' m m' main main' sweep sweep' i p :
  (held (d_config d) m i -> held (d_config d') m' i) -> (sweep = Some i -> sweep' = Some i) ->
  (main = Some i -> d_phase d = Installing \/ d_phase d = SpawningRun -> main' = Some i /\ d_phase d' = d_phase d) ->
  awaited d m main sweep i p -> awaited d' m' main' sweep' i p.
Proof.
  intros Hh Hs Hm. destruct p as [id|[[]|]|[[]|] a|j a]; cbn; auto.
  - intros [E1 E2]. destruct (Hm E1) as [? ->]; auto.
  - intros [E1 E2]. destruct (Hm E1) as [? ->]; auto.
Qed.

Lemma held_undisturbed g g' m i : undisturbed g g' -> held g m i -> held g' m i.
Proof. intros [Hh _] (t & h & Ht & Ha & Hm). exists t, h. eauto. Qed.

(** *** Steps of the daemon *)

Lemma Awaited_advance l (s s' : Service) :
  advance l s = Some s' -> reachable (config_of s) -> outside_select_daemon l = true ->
  (forall i, sv_main s = Some i -> d_phase (sv_daemon s) = Installing \/ d_phase (sv_daemon s) = SpawningRun ->
    is_Some (answer_at i s) \/ forall x, l <> Main x) ->
  Awaited s -> Awaited s'.
Proof.
  intros Hs Hr Hl Hm [HA HS HM]. pose proof (advance_parts _ _ _ Hs) as [Hd Hp].
  destruct (daemon_undisturbed _ _ _ Hl Hr Hd) as [HU HP].
  assert (sv_awaits s' = sv_awaits s /\ sv_main s' = sv_main s /\ sv_sweep s' = sv_sweep s) as (E1 & E2 & E3).
  { unfold advance in Hs. rewrite Hd in Hs. by injection Hs as <-. }
  split.
  - intros i c. unfold calls. rewrite Hp, E1, E2, E3. intros Hc. pose proof (HA i c Hc) as Hw.
    destruct (progress c) as [| | |j a] eqn:Ec; [..|done].
    all: revert Hw; apply awaited_kept; [by apply held_undisturbed|done|].
    all: intros Hi Hph; split; [done|]; destruct (Hm i Hi Hph) as [[a' Ha]|Hx]; [|by apply HP].
    all: unfold answer_at, calls in Ha; rewrite Hc in Ha; cbn in Ha; by rewrite Ec in Ha.
  - intros i. rewrite E3. intros Hi. destruct (HS i Hi) as [r Hr']. exists r. by apply (ud_runner _ _ HU).
  - intros i. unfold calls. rewrite E2, Hp. apply HM.
Qed.

(** *** Steps of the processor *)

Lemma installing_kept l i c (s s' : Service) :
  operate l s = Some s' -> calls s !! i = Some c -> installing (progress c) = true ->
  exists c', calls s' !! i = Some c' /\ installing (progress c') = true.
Proof.
  intros [Hp _]%operate_parts Hc Hi. destruct (call_goes_on _ _ _ _ _ _ _ Hp Hc) as (c' & Hc' & Hgo). exists c'.
  split; [done|]. by destruct Hgo as [| |[]|].
Qed.

Lemma Awaited_operate l (s s' : Service) :
  operate l s = Some s' -> (forall x, l = Called x -> exists r, x = CallPublish r) ->
  (forall i, l = TakesLock i -> sv_main s <> Some i) -> Awaited s -> Awaited s'.
Proof.
  intros Hs Hl Hm [HA HS HM]. pose proof (operate_parts _ _ _ _ _ Hs) as [Hp Hd].
  assert (sv_awaits s' = sv_awaits s /\ sv_main s' = sv_main s /\ sv_sweep s' = sv_sweep s) as (E1 & E2 & E3).
  { unfold Service.operate in Hs. rewrite Hp in Hs. by injection Hs as <-. }
  split; unfold config_of; rewrite ?E1, ?E2, ?E3, ?Hd; [|exact HS|].
  2: { intros i (c & Hc & Hi)%HM. by eapply installing_kept. }
  intros i c' Hc'. destruct (call_before _ _ _ _ _ _ _ Hp Hc') as [[c Hc]|(x & -> & _ & ->)].
  2: { destruct (Hl x eq_refl) as [r ->]. done. }
  destruct (call_goes_on _ _ _ _ _ _ _ Hp Hc) as (e & He & Hgo). unfold calls in Hc'. rewrite He in Hc'. injection Hc' as ->.
  pose proof (HA i c Hc) as Hw. destruct Hgo as [g Hne|id r Hne|j ->|j a Hne]; [done..| |done].
  destruct j as [[]|]; try done. destruct Hw as [Hw _]. by destruct (Hm i).
Qed.

(** A call is made, by something of the daemon that awaits the answer. *)
Lemma Awaited_called x (s s' r : Service) :
  operate (Called x) s = Some s' -> calls r = calls s' ->
  (forall i c, calls s !! i = Some c -> awaited (sv_daemon r) (sv_awaits r) (sv_main r) (sv_sweep r) i (progress c)) ->
  awaited (sv_daemon r) (sv_awaits r) (sv_main r) (sv_sweep r) (length (calls s)) (enter x) ->
  (forall i, sv_sweep r = Some i -> exists q, runner (config_of r) = Selecting q) ->
  (forall i, sv_main r = Some i -> (exists c, calls s !! i = Some c /\ installing (progress c) = true) \/
    (i = length (calls s) /\ installing (enter x) = true)) ->
  Awaited r.
Proof.
  intros [Hp _]%operate_parts Hr HA Hx HS HM. cbn in Hp. injection Hp as Hp.
  assert (calls r = calls s ++ [{| progress := enter x; dropped := false |}]) as E by (rewrite Hr; unfold calls; by rewrite <- Hp).
  split; [|exact HS|].
  - intros i c. rewrite E. intros [Hi|[Hi Hc]]%lookup_app_Some; [by apply HA|].
    apply list_lookup_singleton_Some in Hc as [H0 <-]. by replace i with (length (calls s)) by lia.
  - intros i Hi. rewrite E. destruct (HM i Hi) as [(c & Hc & Hin)|[-> Hin]].
    + exists c. split; [|done]. rewrite lookup_app_l; [done|by eapply lookup_lt_Some].
    + exists {| progress := enter x; dropped := false |}. by rewrite list_lookup_middle.
Qed.

(** *** Steps of the holds *)

(** What the hold [t] awaited has answered. *)
Lemma awaited_beside t m (s : Service) d i c :
  (forall t' h, t' <> t -> holds (config_of s) !! t' = Some h -> holds (d_config d) !! t' = Some h) ->
  d_phase d = d_phase (sv_daemon s) -> (forall k, sv_awaits s !! t = Some k -> is_Some (answer_at k s)) ->
  (forall t', t' <> t -> m !! t' = sv_awaits s !! t') -> Awaited s -> calls s !! i = Some c ->
  awaited d m (sv_main s) (sv_sweep s) i (progress c).
Proof.
  intros Hh Hp Hd Hm HA Hc. pose proof (aw_calls _ HA i c Hc) as Hw. destruct (progress c) as [| | |j a] eqn:Ec; [..|done].
  all: revert Hw; apply awaited_kept; [|done|by rewrite Hp].
  all: intros (t' & h & Ht & Ha & Hi); assert (t' <> t) by
    (intros ->; destruct (Hd i Hi) as [a' Hd']; unfold answer_at in Hd'; rewrite Hc in Hd'; cbn in Hd'; by rewrite Ec in Hd').
  all: exists t', h; rewrite Hm by done; split_and!; [by apply Hh|done|done].
Qed.

(** A hold goes on, and its call, if any, has answered. *)
Lemma hold_goes t i (s s' : Service) :
  advance (Task (LHold t i)) s = Some s' ->
  (forall x, i <> Next x) ->
  (forall t' h, t' <> t -> holds (config_of s) !! t' = Some h -> holds (config_of s') !! t' = Some h) /\
  d_phase (sv_daemon s') = d_phase (sv_daemon s) /\ runner (config_of s') = runner (config_of s) /\
  calls s' = calls s /\ sv_main s' = sv_main s /\ sv_sweep s' = sv_sweep s /\ sv_awaits s' = sv_awaits s.
Proof.
  intros Hs Hi. destruct (task_hold _ _ _ _ Hs) as (h & Ht & Hst).
  assert (d_phase (sv_daemon s') = d_phase (sv_daemon s)).
  { destruct (advance_parts _ _ _ Hs) as [Hd _]. cbn [daemon_step] in Hd. destruct (may_run _ _); [|done].
    unfold coordinate in Hd. destruct (step _ _); [|done]. injection Hd as Hd. by rewrite <- Hd. }
  assert (calls s' = calls s /\ sv_main s' = sv_main s /\ sv_sweep s' = sv_sweep s /\ sv_awaits s' = sv_awaits s) as (? & ? & ? & ?).
  { unfold advance in Hs. destruct (daemon_step _ _); [|done]. by injection Hs as <-. }
  split_and!; try done.
  - intros t' x Hne Hx. destruct i as [| | |n]; [..|by destruct (Hi n)]; cbn [hold_step] in Hst;
      destruct (h_phase h); try done; injection Hst as <-; cbn; by rewrite lookup_insert_ne.
  - destruct i as [| | |n]; [..|by destruct (Hi n)]; cbn [hold_step] in Hst; destruct (h_phase h); try done;
      injection Hst as <-; done.
Qed.

Lemma Awaited_hold t i m n (s s' : Service) :
  advance (Task (LHold t i)) s = Some s' -> (forall x, i <> Next x) ->
  (forall k, sv_awaits s !! t = Some k -> is_Some (answer_at k s)) ->
  (forall t', t' <> t -> m !! t' = sv_awaits s !! t') ->
  Awaited s -> Awaited (with_last n (with_awaits m s')).
Proof.
  intros Hs Hi Hk Hm HA. destruct (hold_goes _ _ _ _ Hs Hi) as (Hh & Hp & Hr & Hc & E1 & E2 & E3).
  assert (calls (with_last n (with_awaits m s')) = calls s) as Hc' by exact Hc.
  split; rewrite ?Hc'; cbn [with_last with_awaits sv_daemon sv_awaits sv_main sv_sweep]; rewrite ?E1, ?E2.
  - intros j c. by eapply awaited_beside.
  - intros j Hj. change (config_of (with_last n (with_awaits m s'))) with (config_of s'). rewrite Hr. by eapply (aw_sweep _ HA).
  - apply HA.
Qed.

Lemma terminated_answered t h (s : Service) k :
  terminated t h s = true -> sv_awaits s !! t = Some k -> is_Some (answer_at k s).
Proof.
  unfold terminated. intros H Hk. rewrite Hk in H. destruct (h_terminate h); [|done]. by apply bool_decide_eq_true in H.
Qed.

(** A hold begins a reconcile, and calls. *)
Lemma Awaited_begins t h started (s s1 s' : Service) :
  holds (config_of s) !! t = Some h -> terminated t h s = true -> h_reconcile h = true ->
  advance (Task (LHold t (Begin started))) s = Some s1 -> operate (Called (CallReconcile (h_container h))) s1 = Some s' ->
  Awaited s -> Awaited (with_awaits (<[t := length (calls s)]> (sv_awaits s')) s').
Proof.
  intros Ht Htm Hrec Hs Ho HA. destruct (hold_goes _ _ _ _ Hs ltac:(done)) as (Hh & Hp & Hr & Hc & E1 & E2 & E3).
  destruct (task_hold _ _ _ _ Hs) as (x & Hx & Hst). rewrite Ht in Hx. injection Hx as <-.
  cbn [hold_step] in Hst. destruct (h_phase h) eqn:Ep; try done. rewrite Hrec in Hst. injection Hst as Hst.
  pose proof (operate_parts _ _ _ _ _ Ho) as [Hpo Hdo].
  assert (sv_awaits s' = sv_awaits s1 /\ sv_main s' = sv_main s1 /\ sv_sweep s' = sv_sweep s1) as (F1 & F2 & F3).
  { unfold Service.operate in Ho. rewrite Hpo in Ho. by injection Ho as <-. }
  eapply Awaited_called; [exact Ho|done|..]; cbn [with_awaits sv_daemon sv_awaits sv_main sv_sweep];
    rewrite ?F1, ?F2, ?F3, ?E1, ?E2, ?E3, ?Hc, ?Hdo.
  - intros i c. eapply awaited_beside; [exact Hh|exact Hp| | |exact HA].
    + intros k. by eapply terminated_answered.
    + intros t' Hne. by rewrite lookup_insert_ne.
  - cbn. exists t, (set_phase (Processing (current (state (co (config_of s)))) started) h).
    split_and!; [|done|apply lookup_insert_eq].
    change (holds (config_of s1) !! t = Some (set_phase (Processing (current (state (co (config_of s)))) started) h)).
    rewrite <- Hst. apply lookup_insert_eq.
  - intros i Hi. unfold config_of. cbn [with_awaits sv_daemon]. rewrite Hdo.
    change (exists q, runner (config_of s1) = Selecting q). rewrite Hr. by eapply (aw_sweep _ HA).
  - intros i Hi. left. by apply (aw_main _ HA).
Qed.

(** *** Steps of the loop in its select *)

Lemma select_holds b now retry g g' : select b now retry g = Some g' -> holds g' = holds g.
Proof. unfold select. destruct b; [..|by intros [= <-]]; case_match; intros; by simplify_eq. Qed.

(** The select ends: no sweep is under way, or it has answered. *)
Lemma Awaited_select b now (s s' : Service) :
  advance (Task (LSelect b now)) s = Some s' -> (forall i, sv_sweep s = Some i -> is_Some (answer_at i s)) ->
  Awaited s -> Awaited (with_waits (sv_main s') None s').
Proof.
  intros Hs Hw HA. destruct (advance_parts _ _ _ Hs) as [Hd Hp]. cbn [daemon_step] in Hd.
  destruct (may_run _ _); [|done]. unfold coordinate in Hd. destruct (step _ _) as [g|] eqn:Est; [|done]. injection Hd as Hd.
  cbn in Est. destruct (runner (d_config (sv_daemon s))); try done. apply select_holds in Est.
  assert (sv_main s' = sv_main s /\ sv_awaits s' = sv_awaits s) as [E1 E2].
  { unfold advance in Hs. destruct (daemon_step _ _); [|done]. by injection Hs as <-. }
  split; cbn [with_waits sv_daemon sv_awaits sv_main sv_sweep]; rewrite ?E1, ?E2; [|done|].
  - intros i c Hc. change (calls s' !! i = Some c) in Hc. unfold calls in Hc. rewrite Hp in Hc.
    pose proof (aw_calls _ HA i c Hc) as Hx. destruct (progress c) as [| | |j a] eqn:Ec; [..|done].
    all: revert Hx; apply awaited_kept; [unfold held; rewrite <- Hd; cbn; by rewrite Est| |rewrite <- Hd; by auto].
    all: intros Hi; destruct (Hw i Hi) as [a' Ha']; unfold answer_at, calls in Ha'; rewrite Hc in Ha'; cbn in Ha'; by rewrite Ec in Ha'.
  - intros i Hi. change (calls (with_waits (sv_main s) None s')) with (calls s'). unfold calls. rewrite Hp. by apply (aw_main _ HA).
Qed.

(** *** The main task *)

(** The install runs: the main task has the requester installed. *)
Lemma Awaited_installed i (s s1 s' : Service) :
  sv_main s = Some i -> operate (TakesLock i) s = Some s1 -> advance (Main Proceed) s1 = Some s' -> Awaited s -> Awaited s'.
Proof.
  intros Hm Ho Hs HA. pose proof (operate_parts _ _ _ _ _ Ho) as [Hp Hd]. pose proof (advance_parts _ _ _ Hs) as [Hd' Hp'].
  destruct (aw_main _ HA i Hm) as (c & Hc & Hin). pose proof (aw_calls _ HA i c Hc) as Hw.
  assert (progress c = Blocked InstallRequester) as Ec.
  { cbn in Hp. unfold calls in Hc. rewrite Hc in Hp. cbn in Hp. destruct (progress c) as [|j| |]; try done. by destruct j. }
  rewrite Ec in Hw. destruct Hw as [_ Hph]. cbn [daemon_step] in Hd'. unfold main_step in Hd'. rewrite Hd, Hph in Hd'.
  injection Hd' as Hd'.
  assert (sv_awaits s' = sv_awaits s /\ sv_main s' = sv_main s /\ sv_sweep s' = sv_sweep s) as (E1 & E2 & E3).
  { unfold advance in Hs. destruct (daemon_step _ _); [|done]. injection Hs as <-. unfold Service.operate in Ho.
    rewrite Hp in Ho. by injection Ho as <-. }
  split; unfold config_of; rewrite ?E1, ?E2, ?E3; [|rewrite <- Hd'; exact (aw_sweep _ HA)|].
  - intros k x Hx. change (calls s1) with (tasks (sv_processor s1)) in *. unfold calls in Hx. rewrite Hp' in Hx.
    destruct (call_before _ _ _ _ _ _ _ Hp Hx) as [[y Hy]|(z & Hz & _)]; [|done].
    destruct (call_goes_on _ _ _ _ _ _ _ Hp Hy) as (e & He & Hgo). rewrite He in Hx. injection Hx as ->.
    pose proof (aw_calls _ HA k y Hy) as Hw. destruct (decide (k = i)) as [->|Hne].
    + unfold calls in Hc. rewrite Hy in Hc. injection Hc as ->. rewrite Ec in Hgo. inversion Hgo; try done.
      cbn. by rewrite <- Hd'.
    + assert (awaited (sv_daemon s) (sv_awaits s) (sv_main s) (sv_sweep s) k (progress x)) as Hw'.
      { destruct Hgo as [| |j Hj|]; [done..| |done]. congruence. }
      revert Hw'. apply awaited_kept; [by rewrite <- Hd'|done|]. congruence.
  - intros k Hk. unfold calls. rewrite Hp'. destruct (aw_main _ HA k Hk) as (x & Hx & Hi). by eapply installing_kept.
Qed.

(** ** The invariant *)

Lemma Awaited_start since w config : Awaited (service_start since w config).
Proof. split; cbn; intros; by rewrite ?lookup_nil in *. Qed.

(** A step of the main task that is free does not leave an install behind. *)
Lemma free_install l i (s s' : Service) :
  free l s = true -> advance l s = Some s' -> sv_main s = Some i ->
  d_phase (sv_daemon s) = Installing \/ d_phase (sv_daemon s) = SpawningRun ->
  is_Some (answer_at i s) \/ forall x, l <> Main x.
Proof.
  intros Hf [Hd _]%advance_parts Hm Hp. destruct l as [x| | | | | | |]; [left|by right..].
  cbn [daemon_step] in Hd. unfold main_step in Hd. cbn in Hf.
  destruct x; destruct Hp as [Hp|Hp]; rewrite Hp in Hd; rewrite ?Hp in Hf; try done. rewrite Hm in Hf. by apply bool_decide_eq_true in Hf.
Qed.

Lemma Awaited_task l (s s' : Service) :
  free l s = true -> advance l s = Some s' -> reachable (config_of s) -> Awaited s -> Awaited s'.
Proof.
  intros Hf Hs Hr HA. destruct (outside_select_daemon l) eqn:Hl.
  - eapply Awaited_advance; [exact Hs|exact Hr|exact Hl| |exact HA]. intros i Hm Hp. by eapply free_install.
  - destruct (free_plain _ _ Hf) as [Hpl _]. destruct l as [| |l| | | | |]; try done.
    destruct l as [| | | | | | | | | |b now| | |t i]; try done; [|by destruct i].
    assert (sv_sweep s = None) as Hn by (destruct b; try done; by apply bool_decide_eq_true in Hf).
    pose proof (Awaited_select _ _ _ _ Hs) as HW. rewrite Hn in HW. specialize (HW ltac:(done) HA).
    assert (sv_sweep s' = None) as Hn'.
    { unfold advance in Hs. destruct (daemon_step _ _); [|done]. by injection Hs as <-. }
    replace (with_waits (sv_main s') None s') with s' in HW; [done|]. rewrite <- Hn'. by destruct s'.
Qed.

Lemma operate_fields l (s s' : Service) :
  operate l s = Some s' ->
  sv_awaits s' = sv_awaits s /\ sv_main s' = sv_main s /\ sv_sweep s' = sv_sweep s /\ sv_daemon s' = sv_daemon s.
Proof. unfold Service.operate. destruct (processor_step _ _ l _); [|done]. by intros [= <-]. Qed.

(** The calls of the main task and of the sweep. *)
Lemma Awaited_waits x main sweep (s s' : Service) :
  operate (Called x) s = Some s' ->
  (sv_main s = None \/ main = sv_main s) -> (sv_sweep s = None \/ sweep = sv_sweep s) ->
  awaited (sv_daemon s) (sv_awaits s) main sweep (length (calls s)) (enter x) ->
  (forall i, sweep = Some i -> exists q, runner (config_of s) = Selecting q) ->
  (forall i, main = Some i -> sv_main s = Some i \/ (i = length (calls s) /\ installing (enter x) = true)) ->
  Awaited s -> Awaited (with_waits main sweep s').
Proof.
  intros Ho Hm Hw Hx HS HM HA. destruct (operate_fields _ _ _ Ho) as (E1 & E2 & E3 & E4).
  eapply Awaited_called; [exact Ho|done|..]; unfold config_of; cbn [with_waits sv_daemon sv_awaits sv_main sv_sweep];
    rewrite ?E1, ?E4; try done.
  - intros i c Hc. pose proof (aw_calls _ HA i c Hc) as Ha. revert Ha. apply awaited_kept; [done| |].
    + destruct Hw as [-> | ->]; done.
    + destruct Hm as [-> | ->]; done.
  - intros i Hi. destruct (HM i Hi) as [Hi'|?]; [left; by apply (aw_main _ HA)|by right].
Qed.

Lemma Awaited_step since (s s' : Service) : formed s s' -> DaemonOk since (sv_daemon s) -> Awaited s -> Awaited s'.
Proof.
  intros Hf HD HA. pose proof (ok_reach _ _ HD) as Hreach.
  destruct Hf as [l s' Hl Hs|l s' Hpr Hs Hn1 _|i s1 s' Hm Ho Hs|i gen s1 s' Hg _ Ho Hs|t h e s' Ht Hp He Ha Hs|
    t h started s1 s' Ht Htm Hr Hs Ho|t h started s' Ht Htm Hr Hs|t h i r now s' Ht Ha Hr Hp Hs|retry s' Hrun Hn Hs|i now s' Hi Hans Hs|
    s' Hph Hn Hs|at_ _|n at_ gen s' Hn Hs|s' _ _ Hs|s1 s' Hph Ho Hs].
  - by eapply Awaited_task.
  - eapply Awaited_operate; [exact Hs| |done|done]. intros x ->. destruct x; try done. by eexists.
  - by eapply Awaited_installed.
  - assert (Awaited s1) as HA1 by (by eapply Awaited_operate). destruct (operate_fields _ _ _ Ho) as (_ & _ & _ & Ed).
    eapply Awaited_advance; [exact Hs| |done| |exact HA1]; [unfold config_of; by rewrite Ed|]. by right.
  - destruct (operate_fields _ _ _ Hs) as (E1 & E2 & E3 & E4). eapply Awaited_called; [exact Hs|done|..];
      unfold config_of; cbn [with_awaits sv_daemon sv_awaits sv_main sv_sweep]; rewrite ?E1, ?E2, ?E3, ?E4.
    + intros i c Hc. eapply (awaited_beside t); [done|done| | |done|done]; [congruence|].
      intros t' Hne. by rewrite lookup_insert_ne.
    + exists t, h. rewrite Hp, lookup_insert_eq. done.
    + apply HA.
    + intros i Hi. left. by apply HA.
  - by eapply Awaited_begins.
  - rewrite <- (with_last_same (with_awaits (delete t (sv_awaits s')) s')).
    destruct (hold_goes _ _ _ _ Hs ltac:(done)) as (_ & _ & _ & _ & _ & _ & E3).
    eapply Awaited_hold; [exact Hs|done| | |done]; [intros k; by eapply terminated_answered|].
    intros t' Hne. by rewrite lookup_delete_ne, E3.
  - destruct (hold_goes _ _ _ _ Hs ltac:(done)) as (_ & _ & _ & _ & _ & _ & E3).
    eapply Awaited_hold; [exact Hs|done| | |done]; [intros k; rewrite Ha; intros [= <-]; by eexists|].
    intros t' Hne. by rewrite lookup_delete_ne, E3.
  - destruct (operate_fields _ _ _ Hs) as (_ & E2 & _ & _). eapply Awaited_waits; [exact Hs|right; exact E2|by left|done| | |done].
    + intros. by exists retry.
    + rewrite E2. by left.
  - eapply Awaited_select; [exact Hs| |done]. congruence.
  - destruct (operate_fields _ _ _ Hs) as (_ & _ & E3 & _). eapply Awaited_waits; [exact Hs|by left|right; exact E3|done| | |done].
    + rewrite E3. apply HA.
    + intros i [= <-]. by right.
  - by destruct HA.
  - assert (Awaited s') as HA'; [|by destruct HA'].
    eapply Awaited_advance; [exact Hs|exact Hreach|by destruct at_| |done]. intros i Hi Hp. destruct at_; [|by right..]. exfalso.
    apply advance_parts in Hs as [Hd _]. cbn [site_label daemon_step] in Hd. unfold main_step in Hd.
    by destruct Hp as [Hp|Hp]; rewrite Hp in Hd.
  - by eapply Awaited_operate.
  - assert (Awaited s1) as HA1 by (by eapply Awaited_operate). destruct (operate_fields _ _ _ Ho) as (_ & _ & _ & Ed).
    eapply Awaited_advance; [exact Hs| |done| |exact HA1]; [unfold config_of; by rewrite Ed|].
    rewrite Ed, Hph. intros i _ [|]; done.
Qed.

(** ** Theorems *)

(** The call has answered, or is a publication. *)
Definition over (p : Progress) : bool :=
  match p with Blocked (Locked (TPublish _)) | Ran (Locked (TPublish _)) _ | Answered _ _ => true | _ => false end.

Lemma finished_over since i c (s : Service) :
  DaemonOk since (sv_daemon s) -> Awaited s -> d_phase (sv_daemon s) = Finished -> calls s !! i = Some c ->
  over (progress c) = true.
Proof.
  intros HD HA Hf Hc. pose proof (aw_calls _ HA i c Hc) as Hw.
  assert (Hno : held (d_config (sv_daemon s)) (sv_awaits s) i -> False).
  { intros (t & h & Ht & _). by rewrite (ok_finished _ _ HD Hf), lookup_empty in Ht. }
  assert (Hsw : sv_sweep s = Some i -> False).
  { intros [r Hr]%(aw_sweep _ HA). destruct (ok_returned _ _ HD) as [Hr' _]; [rewrite Hf; cbn; lia|].
    unfold config_of in Hr. congruence. }
  destruct (progress c) as [id|[[]|]|[[]|] a|j a]; cbn in Hw |- *; try done; try (by destruct Hno); try (by destruct Hsw).
  all: destruct Hw; congruence.
Qed.

(** Everything of the processor but the config and the world. *)
Definition untouched (p p' : Processor (W := W)) : Prop :=
  history (p_state p') = history (p_state p) /\ p_ledger (p_state p') = p_ledger (p_state p) /\
  p_cache (p_state p') = p_cache (p_state p) /\ events (p_state p') = events (p_state p).

#[local] Instance untouched_preorder : PreOrder untouched.
Proof. split; [done|]. intros p1 p2 p3 (? & ? & ? & ?) (? & ? & ? & ?). unfold untouched. split_and!; congruence. Qed.

Lemma over_untouched l p p' :
  processor_step host_root proc_root l p = Some p' ->
  (forall i c, tasks p !! i = Some c -> over (progress c) = true) -> untouched p p'.
Proof.
  intros Hp Hov. unfold untouched. destruct l as [c|i|i|i|i| | |]; cbn in Hp.
  2-5: destruct (tasks p !! i) as [c|] eqn:Ei; [|done]; cbn in Hp; specialize (Hov i c Ei).
  - by injection Hp as <-.
  - by destruct (progress c).
  - destruct (progress c) as [|[[| | |r]|]| |]; try done. by injection Hp as <-.
  - destruct (progress c) as [| |j a|], (dropped c); try done. injection Hp as <-. by destruct a as [| |? []|].
  - by injection Hp as <-.
  - by injection Hp as <-.
  - by injection Hp as <-.
  - destruct (_ && _); [|done]. by injection Hp as <-.
Qed.

(** *** The requester *)

Lemma installed_stays l d d' : daemon_step l d = Some d' -> d_installed d = true -> d_installed d' = true.
Proof.
  assert (HC : forall x e e', coordinate x e = Some e' -> d_installed e' = d_installed e).
  { intros x e e'. unfold coordinate. destruct (step x (d_config e)); [|done]. by intros [= <-]. }
  intros Hs Hi. destruct l as [i|i wall now|l|gen|gen|gen| |]; cbn [daemon_step] in Hs.
  - unfold main_step in Hs. destruct (d_phase d), i; try done; try (repeat (case_match; try done); by injection Hs as <-).
  - unfold follow_step in Hs. destruct (d_phase d); try done. destruct (d_listener d); [|done]. destruct (_ && _); [|done].
    destruct (perform _ _ _ _); [|done]. by injection Hs as <-.
  - destruct (may_run l d); [|done]. by rewrite (HC _ _ _ Hs).
  - destruct (_ && _); [|done]. by rewrite (HC _ _ _ Hs).
  - destruct (watching d); [|done]. by rewrite (HC _ _ _ Hs).
  - destruct (watching d); [|done]. by rewrite (HC _ _ _ Hs).
  - destruct (watching d); [|done]. by injection Hs as <-.
  - by rewrite (HC _ _ _ Hs).
Qed.

(** A publication found a requester. *)
Definition handing (p : Progress) : bool := match p with Ran _ (Published _ true) => true | _ => false end.

Definition publishes (p : Progress) : bool :=
  match p with
  | Blocked (Locked (TPublish _)) | Ran (Locked (TPublish _)) _ | Answered (Locked (TPublish _)) _ => true
  | _ => false
  end.

(** There is a requester only once the main task has it installed, and only callers of
    publications are dropped. *)
Record Installed (d : Daemon) (p : Processor (W := W)) : Prop := {
  in_requester : requester p = true -> d_installed d = true;
  in_handing i c : tasks p !! i = Some c -> handing (progress c) = true -> d_installed d = true;
  in_dropped i c : tasks p !! i = Some c -> dropped c = true -> publishes (progress c) = true;
}.

Lemma job_handing j (p : Processor (W := W)) :
  handing (Ran j (job_answer host_root proc_root j p).1) = true -> requester p = true.
Proof.
  destruct j as [[id r|id e| |r]|]; cbn [job_answer]; [| | | |done].
  - by destruct (Reconcile.reconcile_locked _ _ _ _ _).
  - by destruct (terminate_locked _ _ _).
  - by destruct (sweep_locked _).
  - cbn. by destruct (requester p).
Qed.

Lemma job_requester t (p : Processor (W := W)) :
  requester (job_answer host_root proc_root (Locked t) p).2 = requester p.
Proof.
  destruct t; cbn [job_answer]; [by destruct (Reconcile.reconcile_locked _ _ _ _ _)|by destruct (terminate_locked _ _ _)|
    by destruct (sweep_locked _)|done].
Qed.

(** A step of the processor, [d] being where the daemon is after it. *)
Lemma Installed_processor l d d' p p' :
  processor_step host_root proc_root l p = Some p' -> (d_installed d = true -> d_installed d' = true) ->
  (forall i c, l = TakesLock i -> tasks p !! i = Some c -> progress c = Blocked InstallRequester -> d_installed d' = true) ->
  (forall i c, l = Dropped i -> tasks p !! i = Some c -> publishes (progress c) = true) ->
  Installed d p -> Installed d' p'.
Proof.
  intros Hp Hd Hl Hdr [HR HH HX]. split.
  - destruct l as [c|i|i|i|i| | |]; cbn in Hp.
    2-5: destruct (tasks p !! i) as [c|] eqn:Ei; [|done]; cbn in Hp.
    + injection Hp as <-. auto.
    + destruct (progress c), (dropped c); try done. destruct (inspect _ _). injection Hp as <-. auto.
    + destruct (progress c) as [|j| |] eqn:Ec; try done. destruct j as [t|]; [|intros _; by apply (Hl i c)].
      pose proof (job_requester t p) as Hj. destruct (job_answer _ _ _ p) as [a p1]. injection Hp as <-. cbn in Hj |- *.
      rewrite Hj. auto.
    + destruct (progress c) as [| |j a|], (dropped c); try done. injection Hp as <-. destruct a as [| |? []|]; auto.
    + injection Hp as <-. auto.
    + injection Hp as <-. auto.
    + injection Hp as <-. auto.
    + destruct (_ && _); [|done]. injection Hp as <-. auto.
  - intros i c' Hc' Hh. destruct (call_before _ _ _ _ _ _ _ Hp Hc') as [[c Hc]|(x & _ & _ & ->)]; [|by destruct x].
    destruct (call_goes_on _ _ _ _ _ _ _ Hp Hc) as (e & He & Hgo). rewrite He in Hc'. injection Hc' as ->.
    specialize (HH i c Hc). destruct Hgo as [g Hne|id r Hne|j ->|j a Hne]; [by auto|done| |done].
    apply job_handing in Hh. auto.
  - intros i c' Hc' Hdc. destruct (call_before _ _ _ _ _ _ _ Hp Hc') as [[c Hc]|(x & _ & _ & ->)]; [|done].
    assert (publishes (progress c) = true) as Hpub.
    { destruct (call_dropped _ _ _ _ _ _ _ _ Hp Hc Hc') as [E| ->]; [|by apply (Hdr i)]. apply (HX i c Hc). congruence. }
    destruct (call_goes_on _ _ _ _ _ _ _ Hp Hc) as (e & He & Hgo). rewrite He in Hc'. injection Hc' as ->.
    by destruct Hgo as [|? ? ?|[[]|]|].
Qed.

Abbreviation installed s := (Installed (sv_daemon s) (sv_processor s)).

Lemma Installed_operate l (s s' : Service) :
  operate l s = Some s' ->
  (forall i c, l = TakesLock i -> calls s !! i = Some c -> progress c = Blocked InstallRequester -> False) ->
  (forall i, l = Dropped i -> publication i s = true) -> installed s -> installed s'.
Proof.
  intros [Hp Hd]%operate_parts Hl Hdr. rewrite Hd. apply (Installed_processor l); [done|done| |].
  - intros i c -> Hc Hi. by destruct (Hl i c).
  - intros i c -> Hc. specialize (Hdr i eq_refl). unfold publication in Hdr. unfold calls in Hdr. by rewrite Hc in Hdr.
Qed.

Lemma Installed_advance l (s s' : Service) : advance l s = Some s' -> installed s -> installed s'.
Proof.
  intros [Hd Hp]%advance_parts [HR HH HX]. rewrite Hp. split; [..|exact HX].
  - intros H. eapply installed_stays; [exact Hd|auto].
  - intros i c Hc Hh. eapply installed_stays; [exact Hd|eauto].
Qed.

Lemma Installed_installs i (s s1 s' : Service) :
  sv_main s = Some i -> operate (TakesLock i) s = Some s1 -> advance (Main Proceed) s1 = Some s' -> Awaited s ->
  installed s -> installed s'.
Proof.
  intros Hm Ho Hs HA HI. pose proof (operate_parts _ _ _ _ _ Ho) as [Hp Hd]. pose proof (advance_parts _ _ _ Hs) as [Hd' Hp'].
  assert (d_installed (sv_daemon s') = true) as Hi.
  { destruct (aw_main _ HA i Hm) as (c & Hc & Hin). pose proof (aw_calls _ HA i c Hc) as Hw. cbn in Hp. unfold calls in Hc.
    rewrite Hc in Hp. cbn in Hp. destruct (progress c) as [|[|]| |]; try done. destruct Hw as [_ Hph].
    cbn [daemon_step] in Hd'. unfold main_step in Hd'. rewrite Hd, Hph in Hd'. by injection Hd' as <-. }
  rewrite Hp'. by apply (Installed_processor (TakesLock i) (sv_daemon s) _ (sv_processor s)).
Qed.

Lemma Installed_step (s s' : Service) : formed s s' -> Awaited s -> installed s -> installed s'.
Proof.
  intros Hf HA HI.
  assert (HC : forall x (a b : Service), operate (Called x) a = Some b -> installed a -> installed b)
    by (intros x a b Hx; by apply (Installed_operate (Called x))).
  destruct Hf as [l s' Hl Hs|l s' Hpr Hs Hn1 _|i s1 s' Hm Ho Hs|i gen s1 s' Hg _ Ho Hs|t h e s' Ht Hp He Ha Hs|
    t h started s1 s' Ht Htm Hr Hs Ho|t h started s' Ht Htm Hr Hs|t h i r now s' Ht Ha Hr Hp Hs|retry s' Hrun Hn Hs|i now s' Hi Hans Hs|
    s' Hph Hn Hs|at_ _|n at_ gen s' Hn Hs|s' _ _ Hs|s1 s' Hph Ho Hs].
  - by eapply Installed_advance.
  - eapply Installed_operate; [exact Hs| |by intros i ->|done]. intros i c -> Hc Hb.
    pose proof (aw_calls _ HA i c Hc) as Hw. rewrite Hb in Hw. destruct Hw as [Hw _]. by destruct (Hn1 i).
  - by eapply Installed_installs.
  - eapply Installed_advance; [exact Hs|]. by eapply Installed_operate.
  - exact (HC _ _ _ Hs HI).
  - exact (HC _ _ _ Ho (Installed_advance _ _ _ Hs HI)).
  - exact (Installed_advance _ _ _ Hs HI).
  - exact (Installed_advance _ _ _ Hs HI).
  - exact (HC _ _ _ Hs HI).
  - exact (Installed_advance _ _ _ Hs HI).
  - exact (HC _ _ _ Hs HI).
  - done.
  - exact (Installed_advance _ _ _ Hs HI).
  - by eapply Installed_operate.
  - eapply Installed_advance; [exact Hs|]. by eapply Installed_operate.
Qed.

(** What holds of the service at every time. *)
Record Stopping (since : Z) (s : Service) : Prop := {
  st_daemon : DaemonOk since (sv_daemon s);
  st_awaited : Awaited s;
  st_installed : installed s;
}.

Lemma Stopping_step since l (s s' : Service) : service_step l s = Some s' -> Stopping since s -> Stopping since s'.
Proof.
  intros Hs%step_formed []. split; [|by eapply Awaited_step|by eapply Installed_step].
  destruct (service_projects _ _ _ _ Hs) as [[-> |[x Hx]] _]; [done|]. by eapply DaemonOk_step.
Qed.

Lemma Stopping_steps since ls (s s' : Service) : service_steps ls s = Some s' -> Stopping since s -> Stopping since s'.
Proof.
  revert s. induction ls as [|l ls IH]; intros s; cbn [Service.service_steps]; [by intros [= ->]|].
  destruct (service_step l s) as [s1|] eqn:E; [|done]. intros Hs HO. eapply IH; [exact Hs|]. by eapply Stopping_step.
Qed.

Lemma finished_step since l (s s' : Service) :
  service_step l s = Some s' -> Stopping since s -> d_phase (sv_daemon s) = Finished ->
  untouched (sv_processor s) (sv_processor s') /\ d_phase (sv_daemon s') = Finished.
Proof.
  intros Hs%step_formed [HD HA _] Hf. destruct (service_projects _ _ _ _ Hs) as [Hd Hp]. split.
  - destruct Hp as [-> |[x Hx]]; [done|]. eapply over_untouched; [exact Hx|]. intros i c. by eapply finished_over.
  - destruct Hd as [-> |[x Hx]]; [done|]. by eapply finished_stays.
Qed.

Lemma finished_steps since ls (s s' : Service) :
  service_steps ls s = Some s' -> Stopping since s -> d_phase (sv_daemon s) = Finished ->
  untouched (sv_processor s) (sv_processor s') /\ d_phase (sv_daemon s') = Finished.
Proof.
  revert s. induction ls as [|l ls IH]; intros s; cbn [Service.service_steps]; [by intros [= ->]|].
  destruct (service_step l s) as [s1|] eqn:E; [|done]. intros Hs HO Hf. destruct (finished_step _ _ _ _ E HO Hf) as [H1 H2].
  destruct (IH s1 Hs) as [H3 H4]; [by eapply Stopping_step|done|]. split; [by etrans|done].
Qed.

Lemma Stopping_start since w config : Stopping since (service_start since w config).
Proof. split; [apply DaemonOk_start|by apply (Awaited_start since)|]. split; cbn; intros; by rewrite ?lookup_nil in *. Qed.

(** C17. A daemon that has returned touches no container any more: whatever goes on after
    [run_with] has returned, the lifecycle history, the ledger, the cache of filters and
    the trace of what was set and revoked stay as they were. No reconcile, termination,
    sweep or install is under way or still to come; only publications may be. *)
Theorem returned_touches_nothing since w config ls ls' (s s' : Service) :
  service_steps ls (service_start since w config) = Some s -> d_phase (sv_daemon s) = Finished ->
  service_steps ls' s = Some s' ->
  untouched (sv_processor s) (sv_processor s') /\
  forall i c, calls s' !! i = Some c -> over (progress c) = true.
Proof.
  intros Hs Hf Hs'. pose proof (Stopping_steps since ls _ _ Hs (Stopping_start since w config)) as HO.
  destruct (finished_steps since ls' s s' Hs' HO Hf) as [HU Hf']. split; [done|].
  pose proof (Stopping_steps since ls' s s' Hs' HO) as [HD HA _]. intros i c. by eapply finished_over.
Qed.

Lemma advance_enabled l (s : Service) : is_Some (daemon_step l (sv_daemon s)) -> is_Some (advance l s).
Proof. intros [d Hd]. unfold advance. rewrite Hd. by eexists. Qed.

(** The daemon never holds a call up: a call that inspects can end its inspect, one
    that waits for the lock can take it, and one that ran can resume, but for a publication
    whose caller is gone. In particular a publication that finds a requester can hand its
    generation over, since the requester is there only once the main task has it installed. *)
Theorem calls_go_on since w config ls (s : Service) i c :
  service_steps ls (service_start since w config) = Some s -> calls s !! i = Some c ->
  ((exists id, progress c = Inspecting id) -> is_Some (service_step (Process (InspectEnds i)) s)) /\
  ((exists j, progress c = Blocked j) -> is_Some (service_step (Process (TakesLock i)) s)) /\
  forall j a, progress c = Ran j a -> dropped c = false \/ publishes (progress c) = false ->
    is_Some (service_step (Process (Resumes i)) s).
Proof.
  intros Hs Hc. pose proof (Stopping_steps since ls _ _ Hs (Stopping_start since w config)) as [HD HA HI].
  assert (Hnd : publishes (progress c) = false -> dropped c = false).
  { intros Hp. apply not_true_is_false. intros Hdr. by rewrite (in_dropped _ _ HI i c Hc Hdr) in Hp. }
  unfold calls in Hc. split_and!.
  - intros [id Hp]. rewrite Hp in Hnd. cbn [Service.service_step]. unfold process, Service.operate. cbn [processes processor_step].
    rewrite Hc. cbn [mbind option_bind]. rewrite Hp, Hnd by done. destruct (inspect _ _). by eexists.
  - intros [j Hp]. destruct (operate (TakesLock i) s) as [s1|] eqn:Eo.
    2: { unfold Service.operate in Eo. cbn [processor_step] in Eo. rewrite Hc in Eo. cbn [mbind option_bind] in Eo.
         rewrite Hp in Eo. by destruct (job_answer _ _ j _). }
    cbn [Service.service_step]. unfold process. cbn [processes]. rewrite Eo. cbn [mbind option_bind].
    case_bool_decide as Hm; [|by eexists]. apply advance_enabled. destruct (operate_parts _ _ _ _ _ Eo) as [_ ->].
    destruct (aw_main _ HA i Hm) as (x & Hx & Hin). unfold calls in Hx. rewrite Hc in Hx. injection Hx as <-.
    pose proof (aw_calls _ HA i c Hc) as Hw. rewrite Hp in Hw, Hin. destruct j as [|]; [done|]. destruct Hw as [_ Hph].
    cbn [daemon_step]. unfold main_step. rewrite Hph. by eexists.
  - intros j a Hp Hdr. assert (dropped c = false) as Hd by (destruct Hdr; auto).
    destruct (operate (Resumes i) s) as [s1|] eqn:Eo.
    2: { unfold Service.operate in Eo. cbn [processor_step] in Eo. rewrite Hc in Eo. cbn [mbind option_bind] in Eo.
         by rewrite Hp, Hd in Eo. }
    cbn [Service.service_step]. unfold process. cbn [processes]. rewrite Eo. cbn [mbind option_bind].
    unfold hand_over. destruct (handed i s) as [gen|] eqn:Eh; [|by eexists]. case_bool_decide as Hf; [by eexists|].
    apply advance_enabled. destruct (operate_parts _ _ _ _ _ Eo) as [_ ->]. cbn [daemon_step].
    rewrite (in_handing _ _ HI i c Hc), bool_decide_eq_false_2 by
      (done || unfold handed, calls in Eh; rewrite Hc in Eh; cbn in Eh; rewrite Hp in Eh |- *; by destruct a as [| |? []|]).
    by eexists.
Qed.

End stop.

(** ** A run from start to end *)

Module StopExample.

Import RevokeProofs.ProcessorExample.
Import ServiceExample.

#[local] Existing Instances PolicyProofs.PolicyExample.literal_crate LifecycleExample.demo_jiff demo_world
  demo_controllers DaemonExample.jiff.

(** The context ends while a sweep is under way: the loop goes on when it has answered. *)
Definition stop : list ServiceLabel :=
  [Tasks (Main Proceed); Tasks (Follow (AtHead false (Ok Open) false) 0 0); Tasks (Task (LTop 14)); Tasks (Task (LTop 14));
   Tasks (Task (LTop 14)); SweepBegins; Tasks ContextEnds; Process (TakesLock 4); Process (Resumes 4); SweepEnds 15;
   Tasks (Task (LTop 16)); Tasks (Follow Stop 16 16); Tasks (Main Proceed); Tasks WatcherEnds; Tasks (Main Proceed);
   Closes; WaitEnds].

Definition whole : list ServiceLabel := passed ++ [announcing] ++ stop.

(** A config is still published, by a caller that outlives the daemon. *)
Definition later : list ServiceLabel :=
  [Process (Called (CallPublish (config false))); Process (TakesLock 5); Process (Resumes 5)].

Lemma whole_ends : service_steps "/host" "/" whole start = Some (after whole).
Proof. apply run_after. vm_compute. reflexivity. Qed.

Lemma later_runs : exists s, service_steps "/host" "/" later (after whole) = Some s.
Proof.
  assert (H : match service_steps "/host" "/" later (after whole) with Some _ => true | None => false end = true)
    by (vm_compute; reflexivity).
  destruct (service_steps _ _ later (after whole)) as [s|]; [by exists s|done].
Qed.

Lemma returned_touches_nothing_witness :
  exists s, service_steps "/host" "/" later (after whole) = Some s /\
    events (p_state (sv_processor s)) = events (p_state (sv_processor (after whole))).
Proof.
  destruct later_runs as [s Hs]. exists s. split; [exact Hs|].
  assert (Hf : d_phase (sv_daemon (after whole)) = Finished) by (vm_compute; reflexivity).
  destruct (returned_touches_nothing "/host" "/" 0 tt (config false) whole later (after whole) s whole_ends Hf Hs)
    as [(_ & _ & _ & H) _].
  exact H.
Defined.

(** A publication that waits for its caller. *)
Definition waiting : list ServiceLabel := take 18 startup.

Lemma calls_go_on_witness :
  exists c, calls (after waiting) !! 2%nat = Some c /\ is_Some (service_step "/host" "/" (Process (Resumes 2)) (after waiting)).
Proof.
  assert (Hs : service_steps "/host" "/" waiting start = Some (after waiting)) by (apply run_after; vm_compute; reflexivity).
  assert (Hc : match calls (after waiting) !! 2%nat with
               | Some c => negb (dropped c) && match progress c with Ran _ _ => true | _ => false end
               | None => false end = true) by (vm_compute; reflexivity).
  destruct (calls (after waiting) !! 2%nat) as [c|] eqn:Ec; [|discriminate Hc]. exists c. split; [reflexivity|].
  destruct (calls_go_on "/host" "/" 0 tt (config false) waiting (after waiting) 2 c Hs Ec) as (_ & _ & H).
  destruct (progress c) as [| |j a|]; try (rewrite andb_false_r in Hc; discriminate Hc).
  apply (H j a); [reflexivity|]. left. destruct (dropped c); [discriminate Hc|reflexivity].
Defined.

End StopExample.
